(* ===== verification/_CoqProject ===== *)
-Q . S2P
Prelude.v
Programs.v
DurableWrite.v
Ledger.v
Fences.v
Mutation.v
GoFloat.v
GoString.v
Scheduler.v
GoNet.v
Ulanet.v
AgentContract.v
EgressPolicy.v
EgressProxy.v
Sniff.v
Reservations.v
AutoscalePolicy.v
Autoscale.v
Catalog.v
RoutePublisher.v
Rollouts.v
AppCommand.v
Operations.v
Dispatch.v
Observed.v
Lru.v
Singleflight.v
EdgeCache.v
EdgeHandler.v
EdgeMesh.v
EdgeSignals.v
NodeManager.v
Capacity.v
Placement.v
AntiAffinity.v
Slots.v
Nft.v
Cni.v
Fabric.v
