(* ===== verification/Prelude.v ===== *)
(** * firepaas: a verification library

    firepaas is a platform that runs applications in microVMs. A control plane
    (src/internal/controlplane) keeps applications, deployments, rollouts, machines and
    operations in PostgreSQL, projects routes into Redis, places machines on nodes and
    scales applications; an agent per node (src/internal/agent) executes the operations
    under fences and a durable ledger and filters the network of its machines. The two
    share a contract (src/internal/contracts/agentv1) and some packages (src/shared/pkg).
    This library models the parts whose correctness carries the platform and proves it.

    ** Files and what they model

    Shared:
    - [Prelude] (this file): errors as values, the error monad, the command monad of code
      that writes to a store and may fail at each write, persistent cells, transactions,
      list, map and sorting lemmas, the tactics and hint databases the files share.
    - [Programs]: code that runs beside other code as a tree of calls, its runs whatever it
      is answered, pools of such programs in any interleaving, and disciplines they keep.
    - [GoFloat], [GoString], [GoNet]: what the code uses of the language and of its
      library - IEEE float64, strings, strconv, net, netip, base64.

    On the agent:
    - [DurableWrite]: shared/pkg/durablewrite, the crash-safe replacement of a file.
    - [Ledger], [Fences]: agent/state/ledger.go and fences.go; [Mutation]: the protocol of
      agent/mutation/protocol.go that runs every create, delete and lifecycle operation.
    - [EgressPolicy], [EgressProxy], [Sniff]: agent/egress and agent/netpolicy - the policy
      and the dial sequence, the registry that says which policy is in force, the parsing
      of a first packet.
    - [Slots]: agent/network/slot/slot.go, the namespaces of machines; [Nft]: slot/nft.go,
      the rules it writes for them and what they let through; [Cni]: cmd/cni-firepaas and
      the lock of the state file the command and the agent share.

    The contract:
    - [AgentContract]: contracts/agentv1/validate.go. The control plane builds requests
      that satisfy it (AppCommand.accepted_intent_creatable) and the agent re-checks it.
    - [Ulanet]: shared/pkg/ulanet.

    On the control plane:
    - [AppCommand]: appcommand/command.go, from an intent to the next deployment and its
      rollout, and the create request made from a deployment (controller/apps.go).
    - [Rollouts]: the rollout state machine - its statements in store/apps.go, the passes of
      controller/apps.go, rollout.go and rollout_analysis.go, and the handlers of
      httpapi that approve and roll back.
    - [Operations]: the machine operation queue - the statements of store/store.go that
      enqueue, claim, complete and requeue operations and keep the machine rows.
      [Dispatch]: controller/operations.go, what a dispatcher does with an operation.
    - [Observed]: controller/observed.go, from what the agents report to the machine rows,
      duplicates, recreations and restarts.
    - [NodeManager]: nodemanager/nodemanager.go and the nodes table - discovery, what the
      agents say of themselves, drains and evacuations.
    - [Scheduler], [Reservations]: scheduler/placement.go and the Redis reservations;
      [Capacity]: the usage sums of the store; [Placement]: placement/placement.go, which
      composes the four; [AntiAffinity]: any number of placements of one deployment.
    - [AutoscalePolicy], [Autoscale]: store/autoscale.go and the loop of
      controller/autoscale.go.
    - [RoutePublisher], [Catalog]: routepublisher/publisher.go and catalog/catalog.go, from
      machine rows to the routes the edge reads.
    - [Fabric]: store/fabric.go and its users in controller/operations.go - identities,
      addresses, peers, rules and marks of the network fabric.

    On the edge:
    - [Lru], [Singleflight], [EdgeCache]: edge/lru.go and edge/edge.go, the caches of routes
      and tokens; [EdgeHandler]: edge/handler.go, one request from its arrival to its
      response; [EdgeMesh]: edge/mesh; [EdgeSignals]: edge/autoscale.go.

    A Go struct is the record of the fields the modelled code reads, a pointer that may be
    nil an option, an error a [goerr] that keeps the format and arguments. A method that
    changes state takes the state and gives the new one back with its result. A row of a
    table is a value of a map, one SQL statement or one transaction one atomic step, and
    its database errors an input. Where the code reads first and writes later, the values
    read are an argument of their own, so that any other step may lie between.

    ** What is proved

    - Agent: as long as the agent keeps its record - it is forgotten when its machine is
      deleted or when it is older than the retention window - an operation has its effect
      at most once, only under a durable claim and only for the newest generation, and a
      finished one is replayed ([Mutation], [Ledger], [Fences]); a file is the old or the new content after a crash ([DurableWrite]); a
      connection goes only where the policy in force allows it, whatever DNS answers
      ([EgressPolicy], [EgressProxy]); parsing untrusted bytes terminates without a panic
      and gives back the name a client sent ([Sniff]).
    - Deployments: accepted intents give well-formed deployments the agent accepts
      ([AppCommand]); no rollout bypasses its approvers, the table follows its state
      machine, old machines are only deleted while the others serve, and rollouts end
      ([Rollouts]).
    - Operations: the life of an operation, until it is purged, and of a machine row, idempotent submission,
      fenced completion, bounded retry ([Operations]); secrets are sent to one agent once,
      a dispatched operation ends or is released ([Dispatch]); a machine is created again
      only when no copy of it runs where the pass looked, and reaped only as a copy that is
      deleted, dead or outranked, or when its time to live is over ([Observed]).
    - Nodes: a node is healthy only as Nomad and its agent say, at most one is evacuated
      and one machine moved at a time ([NodeManager]).
    - Capacity: placements fit and are best among the sample ([Scheduler]), reservations
      cover what is live and respect the limits ([Reservations]), usage counts every
      machine once ([Capacity]), a placement is sound from end to end - the node has the
      features and the local volume that were read for it - and writes what it says
      ([Placement]), among the placements that hold the lock of their deployment two
      replicas share a node only when no other was left ([AntiAffinity]), the loop scales up to the load and down only after a stable window
      ([Autoscale], [AutoscalePolicy]).
    - Routing: the edge gets exactly the serving backends with the weights of the canary,
      an older publication never replaces a newer one ([RoutePublisher], [Catalog]).
    - Edge: the cache refines a map with a recency order ([Lru]), what it answers came from
      the origin within the fresh window or is the outcome of a request still in the air ([EdgeCache]), a request reaches one backend at a
      time, is retried only where that is safe, and limits hold ([EdgeHandler]).
    - Networks: slots share nothing, attach all or nothing, survive reconciliation; the
      recorded policy is the one in force, for a backend that may fail half way as far as
      the agent can know, and a restart reads the table that was left ([Slots]); for any
      nft and kernel that keep to the manual the rules decide as the policy and the
      reserved networks ([Nft]); the state file is used under its lock ([Cni]); an address
      of the fabric belongs to one execution and leads to its node, identities never go
      back and marks only with their row ([Fabric]).
    Several theorems show a defect of the code; each says so in its comment.

    ** Bounds and fuel

    - Machine integers are [Z] with their wrap-around written out where a sum or a
      conversion can overflow; elsewhere a theorem assumes the range of the column or
      field it reads. Times and durations are nanoseconds (milliseconds in Redis).
    - Recursion is structural except in [Sniff] and the number printers, whose fuel is the
      length of the input; a theorem shows that it never runs out.
    - The figures of a reservation are below 10^14, which Lua's doubles and their text keep
      exactly.

    ** Assumptions

    - The machine lock of the agent makes a run of a protocol atomic, and the callbacks it
      is given touch neither ledger nor fences.
    - PostgreSQL transactions are atomic and serialised by the row locks the code takes; a
      Redis script is atomic.
    - A sort gives the sorted permutation, which is unique for the orders used.
    - Parameters of the definitions: Unicode case mapping outside ASCII, the random
      permutation of the scheduler, the formatting of floats, JSON and protojson encoding,
      DNS and TCP, Go's map iteration order, ids, clocks (one reading per call), the rows
      and answers a pass reads. Theorems that need a law of one name it as a hypothesis, where
      several share it a class with an instance in the Witness of its file: StateCodec
      (JSON of the slots) in [Slots], Nftables (nft and the kernel) in [Nft].

    ** Not modelled

    - Adapters to Firecracker, Cloud Hypervisor, containerd, eBPF, WireGuard and the file
      system of an agent (agent/machine, agent/network/ebpf and wg): they are calls of
      third-party code whose effect is outside the repository. What nft is told is in [Nft].
    - The gRPC handlers of the agent (agent/server) beyond the protocol they run, health
      probes, standby, its DNS server and ingress: servers around libraries.
    - Snapshots, volumes, prewarming and garbage collection of the control plane, the
      reconciler of the fabric (controlplane/fabric), leader election, rate limits, traffic
      counters, API keys and most HTTP handlers: they repeat, on further tables, the
      patterns of [Operations], [Dispatch] and [Placement].
    - Start-up code (cmd/ but cni-firepaas), metrics, logging and tracing; generated
      protobuf code. *)
From stdpp Require Export base gmap sets list strings pretty sorting.
From Stdlib Require Export ZArith Lia.

(** ** Errors

    A Go [error] built by [errors.New] or [fmt.Errorf] is kept as its format
    string and the arguments it was given, not rendered: two errors are equal
    when the code would have built them at the same place from the same data.
    A wrapped error ([%w]) is an [AErr] argument. *)

Inductive goerr :=
  | Errorf (format : string) (args : list fmtarg)
with fmtarg :=
  | AStr (s : string)
  | AInt (z : Z)
  | AErr (e : goerr).

(** [errors.New]. *)
Definition errors_New (msg : string) : goerr := Errorf msg [].

(** The result of a Go function returning [(T, error)]. *)
Inductive res (A : Type) :=
  | Ok (a : A)
  | Err (e : goerr).
Arguments Ok {A} a.
Arguments Err {A} e.

Definition res_bind {A B} (m : res A) (f : A -> res B) : res B :=
  match m with Ok a => f a | Err e => Err e end.

(** [if err := m; err != nil { return wrap(err) }]. *)
Definition res_map_err {A} (wrap : goerr -> goerr) (m : res A) : res A :=
  match m with Ok a => Ok a | Err e => Err (wrap e) end.

Definition is_ok {A} (m : res A) : bool := match m with Ok _ => true | Err _ => false end.

(** What comes back of a statement sent to a database or a command sent to
    Redis: the connection can fail before it ran or after it took effect. *)
Inductive exec_outcome :=
  | Done
  | FailedBefore (e : goerr)
  | FailedAfter (e : goerr).

Declare Scope go_scope.
Delimit Scope go_scope with go.
Notation "x <- m ;; k" := (res_bind m (fun x => k))
  (at level 100, m at next level, right associativity) : go_scope.
Notation "m ;;; k" := (res_bind m (fun _ => k))
  (at level 100, right associativity) : go_scope.

(** A step over a state that can fail after it changed it. *)
Abbreviation cmd S A := (S -> S * res A).

Definition cmd_ret {S A} (r : res A) : cmd S A := fun st => (st, r).

Definition cmd_bind {S A B} (m : cmd S A) (k : A -> cmd S B) : cmd S B := fun st =>
  match m st with (st, Ok a) => k a st | (st, Err e) => (st, Err e) end.

(** One statement or command that changes the state by [f]. *)
Definition cmd_exec {S} (o : exec_outcome) (wrap : goerr -> goerr) (f : S -> S) : cmd S unit := fun st =>
  match o with
  | Done => (f st, Ok tt)
  | FailedBefore e => (st, Err (wrap e))
  | FailedAfter e => (f st, Err (wrap e))
  end.

(** A read that can fail. *)
Definition cmd_read {S A} (o : option goerr) (wrap : goerr -> goerr) (f : S -> res A) : cmd S A := fun st =>
  match o with None => (st, f st) | Some e => (st, Err (wrap e)) end.

(** A transaction: an error of the body rolls back; the reply of the COMMIT can be lost. *)
Definition inTx {S A} (o : exec_outcome) (body : S -> S * res A) : cmd S A := fun db =>
  match body db with
  | (_, Err e) => (db, Err e)
  | (db', Ok a) =>
      match o with
      | Done => (db', Ok a)
      | FailedBefore e => (db, Err e)
      | FailedAfter e => (db', Err e)
      end
  end.

(** The zero time.Time, in nanoseconds of the Unix epoch. *)
Definition zero_time : Z := (- 62135596800 * 10 ^ 9)%Z.

(** [fmt.Errorf(format, err)]. *)
Definition wrap (format : string) (e : goerr) : goerr := Errorf format [AErr e].

Notation "x <~ m ;; k" := (cmd_bind m (fun x => k))
  (at level 100, m at next level, right associativity) : go_scope.

Lemma cmd_bind_ok {S A B} (m : cmd S A) (k : A -> cmd S B) st st' b :
  cmd_bind m k st = (st', Ok b) <-> exists s a, m st = (s, Ok a) /\ k a s = (st', Ok b).
Proof. unfold cmd_bind. destruct (m st) as [s [a|e]]; naive_solver. Qed.

Lemma inTx_cases {S A} o (body : S -> S * res A) d :
  (inTx o body d).1 = d \/ exists a d', body d = (d', Ok a) /\ (inTx o body d).1 = d'.
Proof. unfold inTx. destruct (body d) as [d' [a|e]] eqn:Hb; [|by left]. destruct o; eauto. Qed.

Lemma inTx_done {S A} (body : S -> S * res A) d d' a :
  inTx Done body d = (d', Ok a) <-> body d = (d', Ok a).
Proof. unfold inTx. destruct (body d) as [d1 [x|e]]; split; congruence. Qed.

(** ** Machine integers *)

(** [uint64] arithmetic wraps modulo 2^64. *)
Definition u64 (z : Z) : Z := z mod 2 ^ 64.
Definition u64_max : Z := 2 ^ 64 - 1.

Lemma u64_small (z : Z) : (0 <= z < 2 ^ 64)%Z -> u64 z = z.
Proof. apply Z.mod_small. Qed.

Lemma u64_range (z : Z) : (0 <= u64 z < 2 ^ 64)%Z.
Proof. apply Z.mod_pos_bound. lia. Qed.

(** [int] and [int64] arithmetic wraps into [-2^63, 2^63). *)
Definition i64 (z : Z) : Z := (z + 2 ^ 63) mod 2 ^ 64 - 2 ^ 63.

Lemma i64_small (z : Z) : (- 2 ^ 63 <= z < 2 ^ 63)%Z -> i64 z = z.
Proof. intros Hz. unfold i64. rewrite Z.mod_small; lia. Qed.

Lemma i64_range (z : Z) : (- 2 ^ 63 <= i64 z < 2 ^ 63)%Z.
Proof. unfold i64. pose proof (Z.mod_pos_bound (z + 2 ^ 63) (2 ^ 64)). lia. Qed.

#[global] Arguments Z.shiftr : simpl never.
#[global] Arguments Z.shiftl : simpl never.
#[global] Arguments Z.pow : simpl never.

(** ** Tactics *)

(** Case split on every [match] and [if] of the goal or of one hypothesis. *)
Ltac split_match :=
  repeat match goal with
  | |- context [match ?x with _ => _ end] => destruct x eqn:?; simplify_eq/=
  | |- context [if ?x then _ else _] => destruct x eqn:?; simplify_eq/=
  end.

Ltac split_match_in H :=
  repeat match type of H with
  | context [match ?x with _ => _ end] => destruct x eqn:?; simplify_eq/=
  | context [if ?x then _ else _] => destruct x eqn:?; simplify_eq/=
  end.

(** Turns the boolean tests of the code into propositions. *)
Ltac bool_to_prop :=
  repeat match goal with
  | H : (_ && _) = true |- _ => apply andb_true_iff in H as [? ?]
  | H : (_ && _) = false |- _ => apply andb_false_iff in H
  | H : (_ || _) = true |- _ => apply orb_true_iff in H
  | H : (_ || _) = false |- _ => apply orb_false_iff in H as [? ?]
  | H : negb _ = true |- _ => apply negb_true_iff in H
  | H : negb _ = false |- _ => apply negb_false_iff in H
  | H : Z.eqb _ _ = true |- _ => apply Z.eqb_eq in H
  | H : Z.eqb _ _ = false |- _ => apply Z.eqb_neq in H
  | H : Z.ltb _ _ = true |- _ => apply Z.ltb_lt in H
  | H : Z.ltb _ _ = false |- _ => apply Z.ltb_ge in H
  | H : Z.leb _ _ = true |- _ => apply Z.leb_le in H
  | H : Z.leb _ _ = false |- _ => apply Z.leb_gt in H
  | H : String.eqb _ _ = true |- _ => apply String.eqb_eq in H
  | H : String.eqb _ _ = false |- _ => apply String.eqb_neq in H
  | H : bool_decide _ = true |- _ => apply bool_decide_eq_true in H
  | H : bool_decide _ = false |- _ => apply bool_decide_eq_false in H
  end.

(** Splits [H : x ∈ l] for a concrete list. *)
Ltac each_elem H :=
  repeat (apply elem_of_cons in H as [->|H]); try (exfalso; by apply not_elem_of_nil in H).

(** The lemmas that automate the common cases of the components. *)
Create HintDb firepaas.
Create Rewrite HintDb firepaas.
#[export] Hint Resolve u64_range : firepaas.

(** ** Sums over finite maps *)

Section sum_map.
Context `{Countable K} {A : Type}.

(** The sum of [f k v] over the entries of a map. *)
Definition sum_map (f : K -> A -> Z) (m : gmap K A) : Z :=
  map_fold (fun k v acc => (f k v + acc)%Z) 0%Z m.

Lemma sum_map_empty f : sum_map f ∅ = 0%Z.
Proof. apply map_fold_empty. Qed.

Lemma sum_map_insert f (m : gmap K A) k v :
  m !! k = None -> sum_map f (<[k:=v]> m) = (f k v + sum_map f m)%Z.
Proof. intros Hk. unfold sum_map. rewrite map_fold_insert_L; [done | | done]. lia. Qed.

Lemma sum_map_delete f (m : gmap K A) k v :
  m !! k = Some v -> sum_map f (delete k m) = (sum_map f m - f k v)%Z.
Proof.
  intros Hk. rewrite <- (insert_delete_id m k v Hk) at 2.
  rewrite sum_map_insert by apply lookup_delete_eq. lia.
Qed.

Lemma sum_map_ext f g (m : gmap K A) :
  (forall k v, m !! k = Some v -> f k v = g k v) -> sum_map f m = sum_map g m.
Proof.
  induction m as [|k v m Hk IH] using map_ind; intros Hfg.
  - by rewrite !sum_map_empty.
  - rewrite !sum_map_insert by done. f_equal.
    + apply Hfg, lookup_insert_eq.
    + apply IH. intros k' v' Hk'. apply Hfg. rewrite lookup_insert_ne; [done | congruence].
Qed.

Lemma sum_map_nonneg f (m : gmap K A) :
  (forall k v, m !! k = Some v -> (0 <= f k v)%Z) -> (0 <= sum_map f m)%Z.
Proof.
  induction m as [|k v m Hk IH] using map_ind; intros Hf.
  - by rewrite sum_map_empty.
  - rewrite sum_map_insert by done.
    assert (0 <= f k v)%Z by (apply Hf, lookup_insert_eq).
    assert (0 <= sum_map f m)%Z; [| lia].
    apply IH. intros k' v' Hk'. apply (Hf k'). rewrite lookup_insert_ne; [done | congruence].
Qed.
End sum_map.

(** ** Writing a list of entries into a map *)

Section insert_all.
Context `{Countable K} {V : Type}.

(** One insertion after the other. *)
Definition insert_all (l : list (K * V)) (m : gmap K V) : gmap K V :=
  foldl (fun m kv => <[kv.1 := kv.2]> m) m l.

(** Keys that do not repeat: the order does not matter. *)
Lemma insert_all_union l (m : gmap K V) : NoDup l.*1 -> insert_all l m = list_to_map l ∪ m.
Proof.
  revert m. induction l as [|[k v] l IH]; intros m Hnd.
  - symmetry. apply (left_id_L ∅ (∪)).
  - apply NoDup_cons in Hnd as [Hk Hnd].
    change (insert_all ((k, v) :: l) m) with (insert_all l (<[k:=v]> m)). rewrite (IH _ Hnd). cbn.
    rewrite <- insert_union_r by (by apply not_elem_of_list_to_map_1).
    by rewrite insert_union_l.
Qed.

Lemma lookup_insert_all_ne l (m : gmap K V) k : k ∉ l.*1 -> insert_all l m !! k = m !! k.
Proof.
  revert m. induction l as [|[k' v] l IH]; intros m Hk; [done|].
  apply not_elem_of_cons in Hk as [Hne Hk].
  change (insert_all ((k', v) :: l) m) with (insert_all l (<[k':=v]> m)). rewrite (IH _ Hk).
  apply lookup_insert_ne. cbn in Hne. congruence.
Qed.

Lemma lookup_insert_all l (m : gmap K V) k v :
  NoDup l.*1 -> (k, v) ∈ l -> insert_all l m !! k = Some v.
Proof.
  intros Hnd Hin. rewrite insert_all_union by done. apply lookup_union_Some_l.
  by apply elem_of_list_to_map.
Qed.

(** Writing the entries and deleting the keys that are not among them leaves
    exactly the entries, whatever was there. *)
Lemma replace_all l (m : gmap K V) :
  NoDup l.*1 -> filter (fun kv : K * V => kv.1 ∈ l.*1) (insert_all l m) = list_to_map l.
Proof.
  intros Hnd. rewrite insert_all_union by done. apply map_eq. intros k.
  destruct (decide (k ∈ l.*1)) as [Hin|Hin].
  - destruct (list_to_map l !! k) as [v|] eqn:Hv.
    + apply map_lookup_filter_Some. split; [by apply lookup_union_Some_l|done].
    + by apply not_elem_of_list_to_map in Hv.
  - rewrite (not_elem_of_list_to_map_1 l k Hin). apply map_lookup_filter_None. right. by intros v _.
Qed.
End insert_all.

(** ** Lists *)

(** The first error of a validation loop: Go's
    [for i, x := range l { if err := check(i, x); err != nil { return err } }]. *)
Fixpoint check_all_from {A} (check : Z -> A -> res unit) (i : Z) (l : list A) : res unit :=
  match l with
  | [] => Ok tt
  | x :: l' => res_bind (check i x) (fun _ => check_all_from check (i + 1) l')
  end.

Definition check_all {A} (check : Z -> A -> res unit) (l : list A) : res unit :=
  check_all_from check 0 l.

Lemma check_all_from_ok {A} (check : Z -> A -> res unit) l i :
  check_all_from check i l = Ok tt <->
  forall j x, l !! j = Some x -> check (i + Z.of_nat j)%Z x = Ok tt.
Proof.
  revert i. induction l as [|x l IH]; intros i; simpl.
  - split; [| done]. intros _ j x Hj. by rewrite lookup_nil in Hj.
  - split.
    + intros H j y Hj. destruct (check i x) as [[]|] eqn:Hx; [simpl in H | done].
      destruct j as [|j]; simpl in Hj.
      * simplify_eq. by rewrite Z.add_0_r.
      * rewrite Nat2Z.inj_succ, <- Z.add_1_l, Z.add_assoc.
        by apply (proj1 (IH (i + 1)%Z)).
    + intros H. pose proof (H 0%nat x eq_refl) as H0. rewrite Z.add_0_r in H0.
      rewrite H0. simpl. apply IH. intros j y Hj.
      specialize (H (S j) y Hj). rewrite <- H. f_equal. lia.
Qed.

Lemma check_all_ok {A} (check : Z -> A -> res unit) l :
  check_all check l = Ok tt <-> forall j x, l !! j = Some x -> check (Z.of_nat j) x = Ok tt.
Proof. apply (check_all_from_ok check l 0). Qed.

(** A [switch] whose cases return an error: the first condition that holds. *)
Fixpoint switch (cases : list (bool * goerr)) : res unit :=
  match cases with
  | [] => Ok tt
  | (c, e) :: cases' => if c then Err e else switch cases'
  end.

Lemma switch_ok cases : switch cases = Ok tt <-> Forall (fun ce => ce.1 = false) cases.
Proof.
  induction cases as [|[c e] cases IH]; simpl; [done|]. rewrite Forall_cons. simpl.
  destruct c; naive_solver.
Qed.

Lemma res_bind_ok {A B} (m : res A) (f : A -> res B) b :
  res_bind m f = Ok b <-> exists a, m = Ok a /\ f a = Ok b.
Proof. destruct m; simpl; naive_solver. Qed.

Lemma res_map_err_ok {A} wrap (m : res A) a : res_map_err wrap m = Ok a <-> m = Ok a.
Proof. by destruct m. Qed.

(** A loop that checks each element and that no key comes twice
    ([map[K]bool] filled along the way): the first error. [dup] is asked after
    [check] has passed. *)
Fixpoint check_distinct {A K} `{EqDecision K} (check : Z -> A -> res K) (dup : Z -> K -> goerr)
    (i : Z) (seen : list K) (l : list A) : res unit :=
  match l with
  | [] => Ok tt
  | x :: l' =>
      match check i x with
      | Err e => Err e
      | Ok k => if bool_decide (k ∈ seen) then Err (dup i k)
                else check_distinct check dup (i + 1) (k :: seen) l'
      end
  end.

Lemma check_distinct_ok {A K} `{EqDecision K} (check : Z -> A -> res K) dup i seen l :
  check_distinct check dup i seen l = Ok tt <->
  exists ks, NoDup ks /\ (forall k, k ∈ ks -> k ∉ seen) /\ length ks = length l /\
    forall j x, l !! j = Some x -> exists k, ks !! j = Some k /\ check (i + Z.of_nat j)%Z x = Ok k.
Proof.
  revert i seen. induction l as [|x l IH]; intros i seen; simpl.
  - split; [|done]. intros _. exists []. split_and!; [constructor|set_solver|done|].
    intros j y Hj. by rewrite lookup_nil in Hj.
  - destruct (check i x) as [k|e] eqn:Hx; simpl.
    + case_bool_decide as Hin.
      * split; [done|]. intros (ks & _ & Hs & _ & Hks).
        destruct (Hks 0%nat x eq_refl) as (k' & Hk' & Hc). rewrite Z.add_0_r, Hx in Hc.
        simplify_eq. exfalso. apply (Hs k'); [by eapply list_elem_of_lookup_2|done].
      * rewrite IH. split.
        -- intros (ks & Hnd & Hs & Hl & Hks). exists (k :: ks). split_and!.
           ++ constructor; [|done]. intros Hk. apply (Hs k Hk). by left.
           ++ intros k' [->|Hk']%elem_of_cons; [done|]. specialize (Hs k' Hk'). set_solver.
           ++ simpl. by rewrite Hl.
           ++ intros [|j] y Hj; simpl in Hj; simplify_eq.
              ** exists k. by rewrite Z.add_0_r.
              ** destruct (Hks j y Hj) as (k' & ? & Hc). exists k'. split; [done|].
                 rewrite <- Hc. f_equal. lia.
        -- intros (ks & Hnd & Hs & Hl & Hks).
           destruct (Hks 0%nat x eq_refl) as (k' & Hk' & Hc). rewrite Z.add_0_r, Hx in Hc.
           injection Hc as <-.
           destruct ks as [|k0 ks]; [done|]. simpl in Hk'. injection Hk' as ->.
           apply NoDup_cons in Hnd as [Hk Hnd]. exists ks. split_and!; [done| | |].
           ++ intros k' Hk' [->|Hk'']%elem_of_cons; [done|]. apply (Hs k'); [by right|done].
           ++ simpl in Hl. lia.
           ++ intros j y Hj. destruct (Hks (S j) y Hj) as (k' & ? & Hc). exists k'.
              split; [done|]. rewrite <- Hc. f_equal. lia.
    + split; [done|]. intros (ks & _ & _ & _ & Hks).
      destruct (Hks 0%nat x eq_refl) as (k' & _ & Hc). by rewrite Z.add_0_r, Hx in Hc.
Qed.

(** ** Sorting

    [sort.Slice] and [sort.SliceStable] with a [less] as a stable insertion sort
    (what the library runs on up to 12 elements). Where [less] orders the
    elements totally every sorting algorithm gives this result. *)
Fixpoint insert_by {A} (less : A -> A -> bool) (x : A) (l : list A) : list A :=
  match l with
  | [] => [x]
  | y :: l' => if less y x then y :: insert_by less x l' else x :: l
  end.

Definition sort_by {A} (less : A -> A -> bool) (l : list A) : list A := foldr (insert_by less) [] l.

(** [less] is a strict weak order on the elements of a list. *)
Definition orders {A} (less : A -> A -> bool) (l : list A) : Prop :=
  (forall a b, a ∈ l -> b ∈ l -> less a b = true -> less b a = false) /\
  (forall a b c, a ∈ l -> b ∈ l -> c ∈ l -> less b a = false -> less c b = false -> less c a = false).

Lemma insert_by_Permutation {A} (less : A -> A -> bool) x l : insert_by less x l ≡ₚ x :: l.
Proof.
  induction l as [|y l IH]; simpl; [done|]. destruct (less y x); [|done].
  rewrite IH. apply Permutation_swap.
Qed.

Lemma sort_by_Permutation {A} (less : A -> A -> bool) l : sort_by less l ≡ₚ l.
Proof. induction l as [|x l IH]; simpl; [done|]. by rewrite insert_by_Permutation, IH. Qed.

Lemma elem_of_sort_by {A} (less : A -> A -> bool) l x : x ∈ sort_by less l <-> x ∈ l.
Proof. by rewrite sort_by_Permutation. Qed.

Lemma length_sort_by {A} (less : A -> A -> bool) l : length (sort_by less l) = length l.
Proof. by rewrite sort_by_Permutation. Qed.

Lemma orders_sub {A} (less : A -> A -> bool) l l' :
  (forall x, x ∈ l' -> x ∈ l) -> orders less l -> orders less l'.
Proof. intros Hsub [Ha Ht]. split; eauto. Qed.

Lemma insert_by_sorted {A} (less : A -> A -> bool) x l :
  orders less (x :: l) ->
  StronglySorted (fun a b => less b a = false) l ->
  StronglySorted (fun a b => less b a = false) (insert_by less x l).
Proof.
  induction l as [|y l IH]; intros Ho Hs; simpl; [by repeat constructor|].
  inversion_clear Hs as [|? ? Hs' Hy]. pose proof Ho as [Hasym Htrans].
  destruct (less y x) eqn:Hyx.
  - constructor.
    + apply IH; [|done]. eapply orders_sub; [|exact Ho]. set_solver.
    + rewrite insert_by_Permutation. constructor; [|done].
      apply Hasym; [set_solver|set_solver|done].
  - constructor; [by constructor|]. constructor; [done|].
    rewrite Forall_forall in Hy |- *. intros z Hz.
    apply (Htrans x y z); [set_solver..|done|]. by apply Hy.
Qed.

Lemma sort_by_sorted {A} (less : A -> A -> bool) l :
  orders less l -> StronglySorted (fun a b => less b a = false) (sort_by less l).
Proof.
  induction l as [|x l IH]; intros Ho; simpl; [constructor|].
  apply insert_by_sorted.
  - eapply orders_sub; [|exact Ho]. intros z. rewrite !elem_of_cons, elem_of_sort_by. done.
  - apply IH. eapply orders_sub; [|exact Ho]. set_solver.
Qed.

(** What is taken off the front of a sorted list comes before the rest. *)
Lemma sorted_take_drop {A} (R : A -> A -> Prop) n l x y :
  StronglySorted R l -> x ∈ take n l -> y ∈ drop n l -> R x y.
Proof.
  revert n. induction l as [|z l IH]; intros [|n] Hs Hx Hy; cbn in *; try by apply not_elem_of_nil in Hx.
  inversion_clear Hs as [|? ? Hs' Hall]. apply elem_of_cons in Hx as [->|Hx]; [|by eapply IH].
  rewrite Forall_forall in Hall. apply Hall. rewrite <- (take_drop n l). apply elem_of_app. by right.
Qed.

(** The head of a sorted list is minimal. *)
Lemma sort_by_head {A} (less : A -> A -> bool) l x l' :
  orders less l -> sort_by less l = x :: l' -> forall y, y ∈ l -> less y x = false.
Proof.
  intros Ho Hs y Hy. pose proof (sort_by_sorted less l Ho) as Hsorted. rewrite Hs in Hsorted.
  inversion_clear Hsorted as [|? ? _ Hall]. rewrite <- (elem_of_sort_by less), Hs in Hy.
  apply elem_of_cons in Hy as [->|Hy].
  - destruct (less x x) eqn:Hx; [|done]. rewrite <- Hx. apply Ho; [..|done];
      rewrite <- (elem_of_sort_by less), Hs; set_solver.
  - rewrite Forall_forall in Hall. by apply Hall.
Qed.

(** Two sorted arrangements of the same elements are equal where the order
    distinguishes the elements: the sorting algorithm does not matter. *)
Lemma sorted_unique {A} (less : A -> A -> bool) l1 l2 :
  (forall a b, a ∈ l1 -> b ∈ l1 -> less a b = false -> less b a = false -> a = b) ->
  StronglySorted (fun a b => less b a = false) l1 ->
  StronglySorted (fun a b => less b a = false) l2 ->
  l1 ≡ₚ l2 -> l1 = l2.
Proof.
  intros Hanti H1. revert l2. induction H1 as [|x l1 H1 IH Hx]; intros l2 H2 Hp.
  - symmetry. by apply Permutation_nil_r, symmetry.
  - destruct H2 as [|y l2 H2 Hy]; [by apply Permutation_nil_r in Hp|].
    assert (x = y) as ->.
    { assert (x ∈ y :: l2) as Hin by (rewrite <- Hp; set_solver).
      assert (y ∈ x :: l1) as Hin' by (rewrite Hp; set_solver).
      apply elem_of_cons in Hin as [->|Hin]; [done|].
      apply elem_of_cons in Hin' as [->|Hin']; [done|].
      rewrite Forall_forall in Hx, Hy.
      apply Hanti; [by left|by right|by apply Hy|by apply Hx]. }
    f_equal. apply IH; [|done|by apply Permutation_cons_inv in Hp].
    intros a b Ha Hb. apply Hanti; set_solver.
Qed.
