(* ===== verification/Programs.v ===== *)
(** * Programs of calls

    Code that runs beside other code, as a tree: each node is a call of one effect -
    a statement on a table, a remote call, a critical section - and a branch for every
    answer. [run] runs one program alone, [runs] is the set of its traces whatever it
    is answered, [pool_step] runs any number of programs in any interleaving. [obeys]
    is the discipline a program keeps, call by call, with a ghost state.
    [Dispatch], [Observed], [Placement], [Singleflight], [EdgeHandler], [Slots], [Nft],
    [Cni] and [Fabric] instantiate it with their own effects. *)
From S2P Require Import Prelude.

Declare Scope prog_scope.
Delimit Scope prog_scope with prog.

Section programs.
Context {eff : Type -> Type}.

Inductive prog (A : Type) :=
  | Ret (a : A)
  | Do {B : Type} (c : eff B) (k : B -> prog A).

Fixpoint pbind {A B} (p : prog A) (f : A -> prog B) : prog B :=
  match p with
  | Ret _ a => f a
  | Do _ c k => Do _ c (fun b => pbind (k b) f)
  end.
End programs.
Arguments prog : clear implicits.
Arguments Ret {eff A} & a.
Arguments Do {eff A} & {B} c k.

Notation "x <-! c ; k" := (Do c (fun x => k)) (at level 100, c at level 99, right associativity) : prog_scope.
Notation "c ;! k" := (Do c (fun _ => k)) (at level 100, right associativity) : prog_scope.
Notation "x <~! p ; k" := (pbind p (fun x => k)) (at level 100, p at level 99, right associativity) : prog_scope.
(** Calls that can fail: an error ends the program. *)
Notation "x <-? c ; k" := (Do c (fun r => match r with Ok x => k | Err e => Ret (Err e) end))
  (at level 100, c at level 99, right associativity) : prog_scope.
Notation "x <~? p ; k" := (pbind p (fun r => match r with Ok x => k | Err e => Ret (Err e) end))
  (at level 100, p at level 99, right associativity) : prog_scope.

(** ** Disciplines *)

(** Every call of [p], from the ghost state [s] on, is one [pre] allows and every
    result is one [post] allows, as long as the answers are ones [ans] allows; [next]
    tells the ghost state after an answer. *)
Section obeys.
Context {eff : Type -> Type} {G : Type} (pre : forall B, eff B -> G -> Prop) (ans : forall B, eff B -> B -> Prop)
        (next : forall B, eff B -> B -> G -> G).

Fixpoint obeys {A} (post : A -> G -> Prop) (p : prog eff A) (s : G) : Prop :=
  match p with
  | Ret a => post a s
  | Do c k => pre _ c s /\ forall b, ans _ c b -> obeys post (k b) (next _ c b s)
  end.

Lemma obeys_pbind {A B} (post : A -> G -> Prop) (post' : B -> G -> Prop) p (f : A -> prog eff B) s :
  obeys post p s -> (forall a s, post a s -> obeys post' (f a) s) -> obeys post' (pbind p f) s.
Proof.
  revert s. induction p as [a|B' c k IH]; intros s Hp Hf; cbn in *; [by apply Hf|].
  destruct Hp as [Hpre Hk]. split; [done|]. intros b Hb. apply IH; auto.
Qed.

Lemma obeys_weaken {A} (post post' : A -> G -> Prop) p s :
  obeys post p s -> (forall a s, post a s -> post' a s) -> obeys post' p s.
Proof.
  revert s. induction p as [a|B c k IH]; intros s Hp Hw; cbn in *; [by apply Hw|].
  destruct Hp as [Hpre Hk]. split; [done|]. auto.
Qed.
End obeys.

(** ** Runs *)

Section runs.
Context {eff : Type -> Type} {S Ev : Type} (event : forall B, eff B -> B -> list Ev).

(** The runs of a program, whatever it is answered: its events and its result. *)
Fixpoint runs {A} (p : prog eff A) (t : list Ev) (a : A) : Prop :=
  match p with
  | Ret a' => t = [] /\ a = a'
  | Do c k => exists b t', t = event _ c b ++ t' /\ runs (k b) t' a
  end.

(** A run on a state, call by call; [perform] gets the number of the call. *)
Context (perform : nat -> forall B, eff B -> S -> S * B).

Fixpoint run {A} (p : prog eff A) (i : nat) (s : S) : S * A * list Ev :=
  match p with
  | Ret a => (s, a, [])
  | Do c k =>
      let '(s, b) := perform i _ c s in
      let '(s, a, t) := run (k b) (Datatypes.S i) s in
      (s, a, event _ c b ++ t)
  end.

Lemma run_runs {A} (p : prog eff A) i s : let '(_, a, t) := run p i s in runs p t a.
Proof.
  revert i s. induction p as [a|B c k IH]; intros i s; cbn; [done|].
  destruct (perform i B c s) as [s1 b]. specialize (IH b (Datatypes.S i) s1).
  destruct (run (k b) (Datatypes.S i) s1) as [[s2 a] t]. cbn. eauto.
Qed.

Lemma run_pbind {A B} (p : prog eff A) (f : A -> prog eff B) i s :
  exists j, run (pbind p f) i s =
    let '(s1, a, t1) := run p i s in let '(s2, b, t2) := run (f a) j s1 in (s2, b, t1 ++ t2).
Proof.
  revert i s. induction p as [a|B' c k IH]; intros i s; cbn.
  - exists i. by destruct (run (f a) i s) as [[? ?] ?].
  - destruct (perform i B' c s) as [s1 b]. destruct (IH b (Datatypes.S i) s1) as [j Hj]. exists j. rewrite Hj.
    destruct (run (k b) (Datatypes.S i) s1) as [[s2 a] t1]. destruct (run (f a) j s2) as [[? ?] ?]. cbn. by rewrite app_assoc.
Qed.

Lemma runs_pbind {A B} (p : prog eff A) (f : A -> prog eff B) t b :
  runs (pbind p f) t b -> exists a t1 t2, runs p t1 a /\ runs (f a) t2 b /\ t = t1 ++ t2.
Proof.
  revert t. induction p as [a|B' c k IH]; intros t; cbn.
  - intros H. by exists a, [], t.
  - intros (x & t' & -> & Hr). destruct (IH x t' Hr) as (a & t1 & t2 & H1 & H2 & ->).
    exists a, (event _ c x ++ t1), t2. rewrite app_assoc. eauto 10.
Qed.
End runs.

(** Traces whose every event is justified by what came before it; [h] came first. *)
Section justified.
Context {eff : Type -> Type} {Ev : Type} (event : forall B, eff B -> B -> list Ev) (ok : list Ev -> Ev -> Prop).

Fixpoint sound (h t : list Ev) : Prop :=
  match t with
  | [] => True
  | e :: t => ok h e /\ sound (h ++ [e]) t
  end.

Lemma sound_app h t t' : sound h (t ++ t') <-> sound h t /\ sound (h ++ t) t'.
Proof.
  revert h. induction t as [|e t IH]; intros h; cbn; [rewrite app_nil_r; tauto|].
  rewrite IH, <- app_assoc. cbn. tauto.
Qed.

Lemma sound_event h t1 e t2 : sound h (t1 ++ e :: t2) -> ok (h ++ t1) e.
Proof. rewrite sound_app. cbn. tauto. Qed.

Lemma sound_nil h : sound h [].
Proof. exact I. Qed.
Lemma sound_one h e : ok h e -> sound h [e].
Proof. by split. Qed.

(** The discipline of keeping the trace sound; the ghost state is the trace. *)
Definition justified {A} (post : A -> list Ev -> Prop) (p : prog eff A) (h : list Ev) : Prop :=
  obeys (fun B c h => forall b, sound h (event B c b)) (fun _ _ _ => True) (fun B c b h => h ++ event B c b) post p h.

Lemma justified_runs {A} (post : A -> list Ev -> Prop) p h t a :
  justified post p h -> runs event p t a -> sound h t /\ post a (h ++ t).
Proof.
  revert h t. induction p as [a'|B c k IH]; intros h t; cbn.
  - intros Hp [-> ->]. by rewrite app_nil_r.
  - intros [Hpre Hk] (b & t' & -> & Hr). rewrite sound_app. destruct (IH b _ _ (Hk b I) Hr) as [Hs Hp].
    rewrite app_assoc. done.
Qed.
End justified.
Arguments sound {Ev} ok h t : simpl never.
Arguments justified {eff Ev} event ok {A} post p h : simpl never.

(** Splits the runs of a program into its paths. *)
Ltac paths H :=
  repeat first
  [ progress cbn in H
  | match type of H with
    | _ /\ _ => destruct H as [-> ->]
    | exists _, _ => let b := fresh "b" in let t := fresh "t" in let E := fresh "E" in
        destruct H as (b & t & E & H); rewrite E; clear E
    | runs _ (if ?b then _ else _) _ _ => destruct b eqn:?
    | runs _ (match ?x with _ => _ end) _ _ => destruct x eqn:?
    | runs _ (pbind (if ?b then _ else _) _) _ _ => destruct b eqn:?
    | runs _ (pbind (match ?x with _ => _ end) _) _ _ => destruct x eqn:?
    end ].

(** Finds an event in a list of them. *)
Ltac event_in := repeat first [apply list_elem_of_here | apply list_elem_of_further | rewrite <- app_comm_cons | rewrite app_nil_l | progress cbn].

(** Splits the hypothesis that an event is in a list of them. *)
Ltac which_event H :=
  cbn in H; repeat (apply elem_of_cons in H as [H|H]; [try discriminate H|]); try (exfalso; by apply not_elem_of_nil in H).

(** ** Pools *)

Section pool.
Context {eff : Type -> Type} {S L R Ev : Type} (event : forall B, eff B -> B -> list Ev)
        (start : L -> prog eff R -> Prop) (act : forall B, eff B -> S -> S -> B -> Prop) (other : S -> S -> Prop).

(** A worker has a label and what is left of its program; the history says for which
    label each event was. *)
Record Pool := mkPool { tables : S; workers : list (L * prog eff R); history : list (L * Ev) }.

(** A worker starts, makes its next call or dies; or something else changes the state. *)
Inductive pool_step : Pool -> Pool -> Prop :=
  | pool_start l p s ws h : start l p -> pool_step (mkPool s ws h) (mkPool s ((l, p) :: ws) h)
  | pool_call l B (c : eff B) k s s' b ws ws' h :
      act B c s s' b ->
      pool_step (mkPool s (ws ++ (l, Do c k) :: ws') h)
        (mkPool s' (ws ++ (l, k b) :: ws') (h ++ map (pair l) (event B c b)))
  | pool_crash w s ws ws' h : pool_step (mkPool s (ws ++ w :: ws') h) (mkPool s (ws ++ ws') h)
  | pool_other s s' ws h : other s s' -> pool_step (mkPool s ws h) (mkPool s' ws h).

(** A worker alone. *)
Lemma pool_alone l (perform : nat -> forall B, eff B -> S -> S * B) p i s ws h :
  (forall j B (c : eff B) s, act B c s (perform j B c s).1 (perform j B c s).2) ->
  let '(s', a, t) := run event perform p i s in
  rtc pool_step (mkPool s ((l, p) :: ws) h) (mkPool s' ((l, Ret a) :: ws) (h ++ map (pair l) t)).
Proof.
  intros Hact. revert i s h. induction p as [a|B c k IH]; intros i s h; cbn.
  - rewrite app_nil_r. constructor.
  - pose proof (pool_call l B c k s _ _ [] ws h (Hact i B c s)) as Hstep.
    destruct (perform i B c s) as [s1 b]. cbn in Hstep. specialize (IH b (Datatypes.S i) s1 (h ++ map (pair l) (event B c b))).
    destruct (run event perform (k b) (Datatypes.S i) s1) as [[s2 a] t]. rewrite map_app, app_assoc. by eapply rtc_l.
Qed.

(** An invariant with a ghost state for every worker: it is enough that every call
    keeps it. *)
Lemma pool_invariant {G} (I : S -> list G -> list (L * Ev) -> Prop) (disc : L * prog eff R -> G -> Prop) p q :
  (forall l pr s gs h, start l pr -> I s gs h -> exists g, disc (l, pr) g /\ I s (g :: gs) h) ->
  (forall l B (c : eff B) k s s' b gs g gs' h, act B c s s' b -> disc (l, Do c k) g -> I s (gs ++ g :: gs') h ->
     exists g', disc (l, k b) g' /\ I s' (gs ++ g' :: gs') (h ++ map (pair l) (event B c b))) ->
  (forall s gs g gs' h, I s (gs ++ g :: gs') h -> I s (gs ++ gs') h) ->
  (forall s s' gs h, other s s' -> I s gs h -> I s' gs h) ->
  rtc pool_step p q ->
  (exists gs, Forall2 disc (workers p) gs /\ I (tables p) gs (history p)) ->
  exists gs, Forall2 disc (workers q) gs /\ I (tables q) gs (history q).
Proof.
  intros Hstart Hcall Hcrash Hother Hs. induction Hs as [|p q r Hpq _ IH]; [done|]. intros (gs & Hd & HI). apply IH. clear IH.
  destruct Hpq as [l pr s ws h Hl|l B c k s s' b ws ws' h Ha|w s ws ws' h|s s' ws h Ho]; cbn in *.
  - destruct (Hstart l pr s gs h Hl HI) as (g & Hg & HI'). exists (g :: gs). split; [by constructor|done].
  - apply Forall2_app_inv_l in Hd as (cs & cs' & Hws & Hws' & ->). apply Forall2_cons_inv_l in Hws' as (g & cs2 & Hg & Hws' & ->).
    destruct (Hcall l B c k s s' b cs g cs2 h Ha Hg HI) as (g' & Hg' & HI'). exists (cs ++ g' :: cs2).
    split; [|done]. apply Forall2_app; [done|]. by constructor.
  - apply Forall2_app_inv_l in Hd as (cs & cs' & Hws & Hws' & ->). apply Forall2_cons_inv_l in Hws' as (g & cs2 & _ & Hws' & ->).
    exists (cs ++ cs2). split; [by apply Forall2_app|by eapply Hcrash].
  - exists gs. split; [done|by eapply Hother].
Qed.
End pool.
Arguments mkPool {eff S L R Ev} tables workers history.
Arguments Pool : clear implicits.
