(* ===== verification/DurableWrite.v ===== *)
(** * Crash-safe file replacement (shared/pkg/durablewrite)

    [WriteFileAtomicWithDeps] over a small file system in which a file that was
    not fsynced, and a directory entry that was not fsynced, may be lost in a
    power failure; the three outcomes it can have; and the persistent cell the
    agent's state stores build on it. *)
From S2P Require Import Prelude.

(** A file's content, and whether [fsync] has made it durable. *)
Record inode := Inode { content : string; synced : bool }.

(** The part of the file system that [WriteFileAtomic] touches: the temporary
    file, the entry of the target path in the running kernel, and the entry
    that is durable in the directory. *)
Record FS := mkFS { tmp : option inode; visible : option inode; ondisk : option inode }.

(** The calls that can fail, with the error each of them returns
    ([None] = success): the injected ones of [Deps] and the two methods of the
    temporary file. *)
Record Deps := mkDeps {
  MkdirAll : option goerr; OpenFile : option goerr; Write : option goerr;
  SyncFile : option goerr; Close : option goerr; Rename : option goerr;
  OpenDir : option goerr; SyncDir : option goerr }.

(** [Deps{}]: the production call, here with every system call succeeding. *)
Definition no_failure : Deps := mkDeps None None None None None None None None.

(** [d.remove(tmp.Name())]; its error is ignored by the code. *)
Definition remove_tmp (fs : FS) : FS := mkFS None (visible fs) (ondisk fs).

Definition wrap (format what : string) (e : goerr) : goerr := Errorf format [AStr what; AErr e].

(** WriteFileAtomicWithDeps: temporary file, fsync, close, rename, fsync of the
    directory; each early return leaves the state the calls before it made. *)
Definition WriteFileAtomicWithDeps (what data : string) (d : Deps) (fs : FS) : res unit * FS :=
  match MkdirAll d with
  | Some e => (Err (wrap "create %s dir: %w" what e), fs)
  | None =>
  match OpenFile d with
  | Some e => (Err (wrap "open %s tmp: %w" what e), fs)
  | None =>
  match Write d with
  | Some e => (Err (wrap "write %s tmp: %w" what e), remove_tmp fs)
  | None =>
  let fs := mkFS (Some (Inode data false)) (visible fs) (ondisk fs) in
  match SyncFile d with
  | Some e => (Err (wrap "fsync %s tmp: %w" what e), remove_tmp fs)
  | None =>
  let fs := mkFS (Some (Inode data true)) (visible fs) (ondisk fs) in
  match Close d with
  | Some e => (Err (wrap "close %s tmp: %w" what e), remove_tmp fs)
  | None =>
  match Rename d with
  | Some e => (Err (wrap "rename %s: %w" what e), remove_tmp fs)
  | None =>
  let fs := mkFS None (tmp fs) (ondisk fs) in
  match OpenDir d with
  | Some e => (Err (wrap "open %s dir: %w" what e), fs)
  | None =>
  match SyncDir d with
  | Some e => (Err (wrap "fsync %s dir: %w" what e), fs)
  | None => (Ok tt, mkFS (tmp fs) (visible fs) (visible fs))
  end end end end end end end end.

(** WriteFileAtomic: the production entry point. *)
Definition WriteFileAtomic (what data : string) (fs : FS) : res unit * FS :=
  WriteFileAtomicWithDeps what data no_failure fs.

(** What the target may hold after a power failure: either directory entry, and
    anything at all if the file behind it was never fsynced. *)
Inductive crash_read (fs : FS) : option string -> Prop :=
  | crash_absent e : (e = visible fs \/ e = ondisk fs) -> e = None -> crash_read fs None
  | crash_file e i s :
      (e = visible fs \/ e = ondisk fs) -> e = Some i ->
      (synced i = true -> s = content i) -> crash_read fs (Some s).

(** ** Persistent cells

    The contract the state stores rely on: the value in memory, the value a
    restarted process reads, and the value that is certain to survive a power
    failure. *)
Record cell (A : Type) := mkCell { mem : A; vis : A; dur : A }.
Arguments mkCell {A} _ _ _.
Arguments mem {A} _.
Arguments vis {A} _.
Arguments dur {A} _.

(** The outcomes of a write: durable; failed before the rename; failed after it
    (the new file is visible but its directory entry may be lost). *)
Inductive outcome :=
  | POk
  | PErrOld (e : goerr)
  | PErrNew (e : goerr).

Definition outcome_err (o : outcome) : option goerr :=
  match o with POk => None | PErrOld e | PErrNew e => Some e end.

(** Writing the value in memory to the file. *)
Definition persist {A} (o : outcome) (c : cell A) : cell A :=
  match o with
  | POk => mkCell (mem c) (mem c) (mem c)
  | PErrOld _ => c
  | PErrNew _ => mkCell (mem c) (mem c) (dur c)
  end.

Definition set_mem {A} (a : A) (c : cell A) : cell A := mkCell a (vis c) (dur c).

(** A process restart reads the visible file. *)
Definition restart {A} (c : cell A) : cell A := set_mem (vis c) c.

(** A power failure leaves one of the two directory entries. *)
Definition power_loss {A} (keep_new : bool) (c : cell A) : cell A :=
  let a := if keep_new then vis c else dur c in mkCell a a a.

(** A property of the value that no crash can take back. *)
Definition everywhere {A} (P : A -> Prop) (c : cell A) : Prop := P (mem c) /\ P (vis c) /\ P (dur c).

(** The outcome of a call, from the calls that failed in it. *)
Definition outcome_of (what : string) (d : Deps) : outcome :=
  match MkdirAll d, OpenFile d, Write d, SyncFile d, Close d, Rename d with
  | Some e, _, _, _, _, _ => PErrOld (wrap "create %s dir: %w" what e)
  | _, Some e, _, _, _, _ => PErrOld (wrap "open %s tmp: %w" what e)
  | _, _, Some e, _, _, _ => PErrOld (wrap "write %s tmp: %w" what e)
  | _, _, _, Some e, _, _ => PErrOld (wrap "fsync %s tmp: %w" what e)
  | _, _, _, _, Some e, _ => PErrOld (wrap "close %s tmp: %w" what e)
  | _, _, _, _, _, Some e => PErrOld (wrap "rename %s: %w" what e)
  | None, None, None, None, None, None =>
      match OpenDir d, SyncDir d with
      | Some e, _ => PErrNew (wrap "open %s dir: %w" what e)
      | None, Some e => PErrNew (wrap "fsync %s dir: %w" what e)
      | None, None => POk
      end
  end.

(** The file system holds the two file values of a cell, fsynced. *)
Definition file_value (i : option inode) (v : option string) : Prop :=
  match i, v with
  | None, None => True
  | Some i, Some s => content i = s /\ synced i = true
  | _, _ => False
  end.

Definition represents (fs : FS) (c : cell (option string)) : Prop :=
  file_value (visible fs) (vis c) /\ file_value (ondisk fs) (dur c).

(** ** Lemmas *)

Lemma everywhere_persist {A} (P : A -> Prop) o c : everywhere P c -> everywhere P (persist o c).
Proof. intros (? & ? & ?). by destruct o. Qed.

Lemma everywhere_set_mem {A} (P : A -> Prop) a c : P a -> everywhere P c -> everywhere P (set_mem a c).
Proof. by intros ? (? & ? & ?). Qed.

Lemma everywhere_restart {A} (P : A -> Prop) c : everywhere P c -> everywhere P (restart c).
Proof. by intros (? & ? & ?). Qed.

Lemma everywhere_power_loss {A} (P : A -> Prop) b c : everywhere P c -> everywhere P (power_loss b c).
Proof. intros (? & ? & ?). by destruct b. Qed.

Lemma everywhere_ok {A} (P : A -> Prop) c : P (mem c) -> everywhere P (persist POk c).
Proof. done. Qed.

Lemma everywhere_const {A} (P : A -> Prop) a : P a -> everywhere P (mkCell a a a).
Proof. done. Qed.

#[export] Hint Resolve everywhere_const everywhere_persist everywhere_set_mem everywhere_restart
  everywhere_power_loss everywhere_ok : firepaas.

(** A cell after a write that succeeded, or whose in-memory change was undone. *)
Lemma persist_settled {A} (a : A) c : persist POk (set_mem a c) = mkCell a a a.
Proof. done. Qed.

Lemma crash_read_represents fs c s :
  represents fs c -> crash_read fs s -> s = vis c \/ s = dur c.
Proof.
  intros [Hv Hd] [e He ->|e i s' He -> Hs].
  - destruct He as [He|He]; rewrite <- He in *; [left|right];
      [by destruct (vis c)|by destruct (dur c)].
  - destruct He as [He|He]; rewrite <- He in *; [left|right].
    + destruct (vis c) as [v|]; [|done]. destruct Hv as [Hc Hsy]. by rewrite Hs, Hc.
    + destruct (dur c) as [v|]; [|done]. destruct Hd as [Hc Hsy]. by rewrite Hs, Hc.
Qed.

(** The call returns the error of its outcome. *)
Lemma write_result what data d fs :
  (WriteFileAtomicWithDeps what data d fs).1 =
  match outcome_err (outcome_of what d) with None => Ok tt | Some e => Err e end.
Proof. destruct d as [m o w s cl rn od sd]. by destruct m, o, w, s, cl, rn, od, sd. Qed.

(** The file values it leaves. *)
Lemma write_values what data d fs c :
  represents fs c ->
  represents (WriteFileAtomicWithDeps what data d fs).2
    (persist (outcome_of what d) (set_mem (Some data) c)).
Proof.
  intros [Hv Hd]. destruct d as [m o w s cl rn od sd].
  destruct m, o, w, s, cl, rn, od, sd; cbn; (split; cbn; auto).
Qed.

(** ** Properties *)

(** C24. [WriteFileAtomicWithDeps], whatever subset of its system calls fails,
    implements the persistent cell: it reports exactly the error of its
    outcome, and the file system afterwards represents the cell after
    [persist]. *)
Theorem write_refines_persist what data d fs c r fs' :
  represents fs c ->
  WriteFileAtomicWithDeps what data d fs = (r, fs') ->
  r = match outcome_err (outcome_of what d) with None => Ok tt | Some e => Err e end /\
  represents fs' (persist (outcome_of what d) (set_mem (Some data) c)).
Proof.
  intros Hrep Hw. pose proof (write_result what data d fs) as Hr.
  pose proof (write_values what data d fs c Hrep) as Hrep'. by rewrite Hw in Hr, Hrep'.
Qed.

(** After [WriteFileAtomicWithDeps], successful or not, a power failure leaves
    either one of the values the file already had or the complete new data,
    never a torn or empty file; and after a successful return only the new
    data. *)
Theorem write_never_torn what data d fs c r fs' s :
  represents fs c ->
  WriteFileAtomicWithDeps what data d fs = (r, fs') ->
  crash_read fs' s ->
  (s = vis c \/ s = dur c \/ s = Some data) /\ (r = Ok tt -> s = Some data).
Proof.
  intros Hrep Hw Hs. pose proof (write_result what data d fs) as Hr.
  pose proof (write_values what data d fs c Hrep) as Hrep'. rewrite Hw in Hr, Hrep'. cbn [fst snd] in *.
  apply (crash_read_represents _ _ _ Hrep') in Hs.
  destruct (outcome_of what d); simpl in *; subst r; intuition congruence.
Qed.

Module Witness.

(** A file whose directory [fsync] fails after the rename. *)
Definition old_file : FS := mkFS None (Some (Inode "old" true)) (Some (Inode "old" true)).
Definition old_cell : cell (option string) := mkCell None (Some "old"%string) (Some "old"%string).
Definition dir_sync_fails : Deps := mkDeps None None None None None None None (Some (errors_New "EIO")).
Definition after : FS := (WriteFileAtomicWithDeps "ledger" "new" dir_sync_fails old_file).2.

Lemma write_refines_persist_witness :
  Err (wrap "fsync %s dir: %w" "ledger" (errors_New "EIO")) =
    match outcome_err (outcome_of "ledger" dir_sync_fails) with
    | None => Ok tt | Some e => Err e end /\
  represents after (persist (outcome_of "ledger" dir_sync_fails) (set_mem (Some "new"%string) old_cell)).
Proof.
  apply (write_refines_persist "ledger" "new" dir_sync_fails old_file old_cell).
  - by vm_compute.
  - vm_compute. reflexivity.
Defined.

Lemma write_never_torn_witness :
  (Some "old"%string = vis old_cell \/ Some "old"%string = dur old_cell \/ Some "old"%string = Some "new"%string) /\
  ((WriteFileAtomicWithDeps "ledger" "new" dir_sync_fails old_file).1 = Ok tt ->
   Some "old"%string = Some "new"%string).
Proof.
  apply (write_never_torn "ledger" "new" dir_sync_fails old_file old_cell _ after (Some "old"%string)).
  - by vm_compute.
  - vm_compute. reflexivity.
  - apply (crash_file _ (ondisk after) (Inode "old" true) "old"); [by right|reflexivity|done].
Defined.

End Witness.
