(* ===== verification/Ledger.v ===== *)
(** * The agent's durable operation ledger (internal/agent/state/ledger.go)

    The records in memory and the ledger file are one persistent cell. Every
    operation takes the outcome of the file write it may make and the clock. *)
From S2P Require Import Prelude DurableWrite.

(** [json.RawMessage]: the bytes, [nil] being the empty message. *)
Abbreviation RawMessage := string.

(** OperationStatus and its two constants; the empty status of a record written
    by an older agent means completed. *)
Abbreviation OperationStatus := string.
Definition StatusInProgress : OperationStatus := "in_progress".
Definition StatusCompleted : OperationStatus := "completed".

Record Record_ := mkRecord {
  OperationID : string; MachineID : string; ExecutionID : string;
  Generation : Z; Kind : string; Identity : RawMessage; RequestHash : string;
  Status : OperationStatus; Result : RawMessage; CreatedAt : Z; UpdatedAt : Z }.

Definition Completed (r : Record_) : bool :=
  String.eqb (Status r) "" || String.eqb (Status r) StatusCompleted.

Definition ErrRequestHashConflict : goerr :=
  errors_New "operation_id already exists with a different request hash".

(** Ledger.records in memory, in the visible file and in the durable file. *)
Abbreviation Ledger := (cell (gmap string Record_)).

(** Open on a file that does not exist. *)
Definition Open_empty : Ledger := mkCell ∅ ∅ ∅.

Definition with_completed (result : RawMessage) (now : Z) (r : Record_) : Record_ :=
  mkRecord (OperationID r) (MachineID r) (ExecutionID r) (Generation r) (Kind r) (Identity r)
    (RequestHash r) StatusCompleted result (CreatedAt r) now.

(** Ledger.Get: an in-progress claim or a completed result. *)
Definition Get (operationID requestHash : string) (l : Ledger) : res (option Record_) :=
  match mem l !! operationID with
  | None => Ok None
  | Some rec =>
      if negb (String.eqb (RequestHash rec) requestHash) then Err ErrRequestHashConflict
      else Ok (Some rec)
  end.

(** Ledger.Check: only completed records are replayable. *)
Definition Check_ (operationID requestHash : string) (l : Ledger) : res (option RawMessage) :=
  match Get operationID requestHash l with
  | Err e => Err e
  | Ok None => Ok None
  | Ok (Some rec) => if Completed rec then Ok (Some (Result rec)) else Ok None
  end.

(** persistLocked after storing [rec] under [id], and the rollback of the
    in-memory map when it fails: the old record is put back, or the new one is
    deleted if there was none. *)
Definition store_or_rollback (o : outcome) (id : string) (rec : Record_) (l : Ledger) :
    option goerr * Ledger :=
  let old := mem l !! id in
  let l := persist o (set_mem (<[id:=rec]> (mem l)) l) in
  match outcome_err o with
  | None => (None, l)
  | Some e =>
      (Some e, set_mem (match old with
                        | Some r => <[id:=r]> (mem l)
                        | None => delete id (mem l)
                        end) l)
  end.

(** The claim as [Begin] stores it. *)
Definition in_progress (rec : Record_) (now : Z) : Record_ :=
  mkRecord (OperationID rec) (MachineID rec) (ExecutionID rec) (Generation rec)
    (Kind rec) (Identity rec) (RequestHash rec) StatusInProgress "" now now.

(** Ledger.Begin: the durable claim before the first external side effect. *)
Definition Begin (rec : Record_) (o : outcome) (now : Z) (l : Ledger) :
    res (Record_ * bool) * Ledger :=
  match mem l !! OperationID rec with
  | Some old =>
      if negb (String.eqb (RequestHash old) (RequestHash rec)) then (Err ErrRequestHashConflict, l)
      else (Ok (old, true), l)
  | None =>
      let rec := in_progress rec now in
      match store_or_rollback o (OperationID rec) rec l with
      | (Some e, l) => (Err e, l)
      | (None, l) => (Ok (rec, false), l)
      end
  end.

(** Ledger.Complete: the claim becomes a completed record with its response. *)
Definition Complete (operationID requestHash : string) (result : RawMessage)
    (o : outcome) (now : Z) (l : Ledger) : res unit * Ledger :=
  match mem l !! operationID with
  | None => (Err (Errorf "operation %s has no durable claim" [AStr operationID]), l)
  | Some rec =>
      if negb (String.eqb (RequestHash rec) requestHash) then (Err ErrRequestHashConflict, l)
      else if Completed rec then (Ok tt, l)
      else match store_or_rollback o operationID (with_completed result now rec) l with
           | (Some e, l) => (Err e, l)
           | (None, l) => (Ok tt, l)
           end
  end.

(** The completed record [Put] and [Claim] write for a new operation. *)
Definition completed_record (operationID machineID requestHash : string) (result : RawMessage)
    (now : Z) : Record_ :=
  mkRecord operationID machineID "" 0 "" "" requestHash StatusCompleted result now now.

(** Ledger.Put: a completed record, for callers older than the claims. *)
Definition Put (operationID machineID requestHash : string) (result : RawMessage)
    (o : outcome) (now : Z) (l : Ledger) : res unit * Ledger :=
  match mem l !! operationID with
  | Some rec =>
      if negb (String.eqb (RequestHash rec) requestHash) then (Err ErrRequestHashConflict, l)
      else if Completed rec then (Ok tt, l)
      else match store_or_rollback o operationID (with_completed result now rec) l with
           | (Some e, l) => (Err e, l)
           | (None, l) => (Ok tt, l)
           end
  | None =>
      match store_or_rollback o operationID
              (completed_record operationID machineID requestHash result now) l with
      | (Some e, l) => (Err e, l)
      | (None, l) => (Ok tt, l)
      end
  end.

(** Ledger.Claim: true only for the caller that created the tombstone. *)
Definition Claim (operationID machineID requestHash : string) (result : RawMessage)
    (o : outcome) (now : Z) (l : Ledger) : res bool * Ledger :=
  match mem l !! operationID with
  | Some rec =>
      if negb (String.eqb (RequestHash rec) requestHash) then (Err ErrRequestHashConflict, l)
      else (Ok false, l)
  | None =>
      match store_or_rollback o operationID
              (completed_record operationID machineID requestHash result now) l with
      | (Some e, l) => (Err e, l)
      | (None, l) => (Ok true, l)
      end
  end.

(** The pruning loops: the records that satisfy [drop] are deleted from memory;
    nothing is written when there are none, and a failed write is not undone. *)
Definition prune (drop : string -> Record_ -> bool) (o : outcome) (l : Ledger) :
    (Z * option goerr) * Ledger :=
  let kept := filter (fun kv => drop kv.1 kv.2 = false) (mem l) in
  let removed := (Z.of_nat (size (mem l)) - Z.of_nat (size kept))%Z in
  if Z.eqb removed 0 then ((0%Z, None), set_mem kept l)
  else ((removed, outcome_err o), persist o (set_mem kept l)).

(** Ledger.PruneBefore. *)
Definition PruneBefore (cutoff : Z) (o : outcome) (l : Ledger) : (Z * option goerr) * Ledger :=
  prune (fun _ rec => Z.ltb (CreatedAt rec) cutoff) o l.

(** Ledger.PruneMachineExcept. *)
Definition PruneMachineExcept (machineID keepOperationID : string) (o : outcome) (l : Ledger) :
    (Z * option goerr) * Ledger :=
  if String.eqb machineID "" then ((0%Z, None), l)
  else prune (fun id rec => String.eqb (MachineID rec) machineID &&
                            negb (String.eqb id keepOperationID)) o l.

(** ** The ledger as a transition system

    Everything that can happen to a ledger between two prunes: each operation
    with any arguments and any write outcome, a process restart and a power
    failure. *)
Inductive step : Ledger -> Ledger -> Prop :=
  | step_begin rec o now l : step l (Begin rec o now l).2
  | step_complete id h r o now l : step l (Complete id h r o now l).2
  | step_put id m h r o now l : step l (Put id m h r o now l).2
  | step_claim id m h r o now l : step l (Claim id m h r o now l).2
  | step_restart l : step l (restart l)
  | step_power_loss b l : step l (power_loss b l).

(** The operation has a completed record with this hash and this response. *)
Definition recorded (id hash : string) (result : RawMessage) (m : gmap string Record_) : Prop :=
  exists rec, m !! id = Some rec /\ RequestHash rec = hash /\ Completed rec = true /\
              Result rec = result.

(** Everything that can happen to a ledger and keeps the record of a completed
    operation: the operations, and the prunes that are not about it - a
    garbage collection whose cutoff is not after the time the operation was
    claimed, the deletion of another machine. *)
Inductive keeps (rec : Record_) : Ledger -> Ledger -> Prop :=
  | keeps_step l l' : step l l' -> keeps rec l l'
  | keeps_before cutoff o l :
      (cutoff <= CreatedAt rec)%Z -> keeps rec l (PruneBefore cutoff o l).2
  | keeps_machine m keep o l :
      m <> MachineID rec -> keeps rec l (PruneMachineExcept m keep o l).2.

(** The operation has a record, completed or not, with this hash. *)
Definition claimed (id hash : string) (m : gmap string Record_) : Prop :=
  exists rec, m !! id = Some rec /\ RequestHash rec = hash.

(** ** Lemmas *)

Lemma with_completed_Completed r now rec : Completed (with_completed r now rec) = true.
Proof. done. Qed.

Lemma store_or_rollback_spec o id rec l :
  store_or_rollback o id rec l =
    match outcome_err o with
    | None => (None, let m := <[id:=rec]> (mem l) in mkCell m m m)
    | Some e => (Some e, match o with
                         | PErrNew _ => mkCell (mem l) (<[id:=rec]> (mem l)) (dur l)
                         | _ => l
                         end)
    end.
Proof.
  unfold store_or_rollback. destruct l as [m v d]. destruct o as [|e|e]; simpl; [done| |];
    destruct (m !! id) as [r|] eqn:Hid; simpl; unfold set_mem; simpl; do 2 f_equal.
  all: try (by rewrite insert_insert_eq, insert_id).
  all: by rewrite delete_insert_id.
Qed.

(** Writing a record that keeps [P], whatever the outcome. *)
Lemma everywhere_store (P : gmap string Record_ -> Prop) o id rec l :
  everywhere P l -> (P (mem l) -> P (<[id:=rec]> (mem l))) ->
  everywhere P (store_or_rollback o id rec l).2.
Proof.
  intros (Hm & Hv & Hd) HP. rewrite store_or_rollback_spec.
  destruct o; simpl; repeat split; auto.
Qed.

Lemma recorded_insert_ne id hash r id' rec m :
  id' <> id -> recorded id hash r m -> recorded id hash r (<[id':=rec]> m).
Proof. intros Hne (x & Hx & ?). exists x. by rewrite lookup_insert_ne. Qed.

(** No operation overwrites a completed record. *)
Lemma recorded_not_overwritten id hash r id' rec m :
  (forall old, m !! id' = Some old -> Completed old = false) ->
  recorded id hash r m -> recorded id hash r (<[id':=rec]> m).
Proof.
  intros Hold Hrec. apply recorded_insert_ne; [|done]. intros ->.
  destruct Hrec as (x & Hx & _ & Hc & _). rewrite (Hold _ Hx) in Hc. done.
Qed.

#[export] Hint Resolve recorded_not_overwritten everywhere_store : firepaas.

(** The branches of an operation in which it does not store, and those in which
    it stores a record over nothing or over an in-progress claim. *)
Ltac by_store Hstore :=
  split_match; try done;
  match goal with H : store_or_rollback ?o ?i ?x _ = _ |- _ =>
    specialize (Hstore o i x); rewrite H in Hstore; apply Hstore; intros; simplify_eq/=; try congruence; done end.

Lemma step_recorded id hash r l l' :
  step l l' -> everywhere (recorded id hash r) l -> everywhere (recorded id hash r) l'.
Proof.
  intros Hs Hrec.
  assert (Hstore : forall o id' rec',
    (forall old, mem l !! id' = Some old -> Completed old = false) ->
    everywhere (recorded id hash r) (store_or_rollback o id' rec' l).2)
    by (intros; apply everywhere_store; auto with firepaas).
  destruct Hs; auto with firepaas.
  - unfold Begin. by_store Hstore.
  - unfold Complete. by_store Hstore.
  - unfold Put. by_store Hstore.
  - unfold Claim. by_store Hstore.
Qed.

(** The very record of a completed operation. *)
Definition has (id : string) (rec : Record_) (m : gmap string Record_) : Prop :=
  m !! id = Some rec /\ Completed rec = true.

Lemma has_not_overwritten id rec id' rec' m :
  (forall old, m !! id' = Some old -> Completed old = false) ->
  has id rec m -> has id rec (<[id':=rec']> m).
Proof.
  intros Hold [Hr Hc]. split; [|done]. rewrite lookup_insert_ne; [done|].
  intros ->. rewrite (Hold _ Hr) in Hc. done.
Qed.

Lemma step_has id rec l l' :
  step l l' -> everywhere (has id rec) l -> everywhere (has id rec) l'.
Proof.
  intros Hs Hrec.
  assert (Hstore : forall o id' rec',
    (forall old, mem l !! id' = Some old -> Completed old = false) ->
    everywhere (has id rec) (store_or_rollback o id' rec' l).2)
    by (intros; apply everywhere_store; eauto using has_not_overwritten).
  destruct Hs; auto with firepaas.
  - unfold Begin. by_store Hstore.
  - unfold Complete. by_store Hstore.
  - unfold Put. by_store Hstore.
  - unfold Claim. by_store Hstore.
Qed.

Lemma prune_has drop o l id rec :
  drop id rec = false -> everywhere (has id rec) l -> everywhere (has id rec) (prune drop o l).2.
Proof.
  intros Hdrop (Hm & Hv & Hd). unfold prune. set (kept := filter _ _).
  assert (has id rec kept) as Hk.
  { destruct Hm as [Hr Hc]. split; [|done]. by apply map_lookup_filter_Some_2. }
  destruct (Z.eqb _ 0); simpl; [|apply everywhere_persist]; exact (conj Hk (conj Hv Hd)).
Qed.

Lemma keeps_has id rec l l' :
  keeps rec l l' -> everywhere (has id rec) l -> everywhere (has id rec) l'.
Proof.
  intros [l1 l2 Hs|cutoff o l1 Hc|m keep o l1 Hm] Hrec; [by eapply step_has| |].
  - apply prune_has; [|done]. by apply Z.ltb_ge.
  - unfold PruneMachineExcept. destruct (String.eqb m ""); [done|]. apply prune_has; [|done].
    by rewrite (proj2 (String.eqb_neq (MachineID rec) m) (not_eq_sym Hm)).
Qed.

Lemma keeps_steps_has id rec l l' :
  rtc (keeps rec) l l' -> everywhere (has id rec) l -> everywhere (has id rec) l'.
Proof. induction 1; eauto using keeps_has. Qed.

Lemma claimed_store id hash id' rec m :
  (forall old, m !! id' = Some old -> RequestHash rec = RequestHash old) ->
  claimed id hash m -> claimed id hash (<[id':=rec]> m).
Proof.
  intros Hold (x & Hx & Hh). unfold claimed. destruct (decide (id' = id)) as [->|Hne].
  - rewrite lookup_insert_eq. exists rec. split; [done|]. rewrite <- Hh. eauto.
  - rewrite lookup_insert_ne by done. eauto.
Qed.

Lemma step_claimed id hash l l' :
  step l l' -> everywhere (claimed id hash) l -> everywhere (claimed id hash) l'.
Proof.
  intros Hs Hc.
  assert (Hstore : forall o id' rec',
    (forall old, mem l !! id' = Some old -> RequestHash rec' = RequestHash old) ->
    everywhere (claimed id hash) (store_or_rollback o id' rec' l).2).
  { intros o id' rec' Hold. rewrite store_or_rollback_spec.
    destruct Hc as (Hm & Hv & Hd). pose proof (claimed_store _ _ _ _ _ Hold Hm).
    destruct o; by repeat split. }
  destruct Hs; auto with firepaas.
  - unfold Begin. by_store Hstore.
  - unfold Complete. by_store Hstore.
  - unfold Put. by_store Hstore.
  - unfold Claim. by_store Hstore.
Qed.

Lemma steps_claimed id hash l l' :
  rtc step l l' -> everywhere (claimed id hash) l -> everywhere (claimed id hash) l'.
Proof. induction 1; eauto using step_claimed. Qed.

Lemma prune_mem drop o l :
  mem (prune drop o l).2 = filter (fun kv => drop kv.1 kv.2 = false) (mem l).
Proof. unfold prune. destruct (Z.eqb _ 0); [done|]. by destruct o. Qed.

Lemma steps_recorded id hash r l l' :
  rtc step l l' -> everywhere (recorded id hash r) l -> everywhere (recorded id hash r) l'.
Proof. induction 1; eauto using step_recorded. Qed.

Lemma recorded_Check id hash r l :
  recorded id hash r (mem l) ->
  Check_ id hash l = Ok (Some r) /\
  forall h, h <> hash -> Check_ id h l = Err ErrRequestHashConflict.
Proof.
  intros (rec & Hrec & Hh & Hc & Hr). unfold Check_, Get. rewrite Hrec, Hh. split.
  - rewrite String.eqb_refl. simpl. by rewrite Hc, Hr.
  - intros h Hne. by rewrite (proj2 (String.eqb_neq hash h)) by congruence.
Qed.

Lemma recorded_Get id hash r l :
  recorded id hash r (mem l) ->
  exists rec, Get id hash l = Ok (Some rec) /\ Completed rec = true /\ Result rec = r.
Proof.
  intros (rec & Hrec & <- & Hc & Hr). exists rec. unfold Get.
  by rewrite Hrec, String.eqb_refl.
Qed.

Lemma Complete_recorded id hash r o now l l1 rec :
  Get id hash l = Ok (Some rec) -> Completed rec = false ->
  Complete id hash r o now l = (Ok tt, l1) ->
  everywhere (recorded id hash r) l1.
Proof.
  unfold Get, Complete. intros Hg Hc Hcomp.
  destruct (mem l !! id) as [rec'|] eqn:Hid; [|done].
  destruct (negb _) eqn:Hh; [done|]. simplify_eq. rewrite Hc in Hcomp.
  rewrite store_or_rollback_spec in Hcomp. bool_to_prop.
  destruct o; simpl in Hcomp; simplify_eq.
  repeat split; exists (with_completed r now rec); simpl; by rewrite lookup_insert_eq.
Qed.

(** The completed record of the claim [rec], in memory and on disk. *)
Definition completed_as (id hash : string) (r : RawMessage) (rec rec' : Record_)
    (l : Ledger) : Prop :=
  everywhere (has id rec') l /\ RequestHash rec' = hash /\ Result rec' = r /\
  MachineID rec' = MachineID rec /\ CreatedAt rec' = CreatedAt rec.

Lemma Complete_as id hash r o now l l1 rec :
  Get id hash l = Ok (Some rec) -> Completed rec = false ->
  Complete id hash r o now l = (Ok tt, l1) ->
  exists rec', completed_as id hash r rec rec' l1.
Proof.
  unfold Get, Complete. intros Hg Hc Hcomp.
  destruct (mem l !! id) as [rec'|] eqn:Hid; [|done].
  destruct (negb _) eqn:Hh; [done|]. simplify_eq. rewrite Hc in Hcomp.
  rewrite store_or_rollback_spec in Hcomp. bool_to_prop.
  destruct o; simpl in Hcomp; simplify_eq. exists (with_completed r now rec).
  split; [|done]. apply everywhere_const. split; [by rewrite lookup_insert_eq|done].
Qed.

Lemma has_Check id rec l :
  has id rec (mem l) -> Check_ id (RequestHash rec) l = Ok (Some (Result rec)) /\
    Get id (RequestHash rec) l = Ok (Some rec).
Proof.
  intros [Hr Hc]. unfold Check_, Get. rewrite Hr, String.eqb_refl. simpl. by rewrite Hc.
Qed.

Lemma Begin_fresh rec now l :
  mem l !! OperationID rec = None ->
  Begin rec POk now l =
    (Ok (in_progress rec now, false),
     let m := <[OperationID rec := in_progress rec now]> (mem l) in mkCell m m m).
Proof. intros Hnone. unfold Begin. by rewrite Hnone, store_or_rollback_spec. Qed.

Lemma store_error_mem o id rec l e l' :
  store_or_rollback o id rec l = (Some e, l') -> mem l' = mem l.
Proof. rewrite store_or_rollback_spec. destruct o; naive_solver. Qed.

(** ** Properties *)

(** Once [Complete] has acknowledged an in-progress claim, no sequence of later
    operations, failed writes, process restarts and power failures makes the
    ledger forget it: a retry with the same request hash is answered with the
    recorded response, a request with another hash is refused as a conflict. *)
Theorem completed_is_replayed id hash r o now l l1 l2 rec :
  Get id hash l = Ok (Some rec) -> Completed rec = false ->
  Complete id hash r o now l = (Ok tt, l1) ->
  rtc step l1 l2 ->
  Check_ id hash l2 = Ok (Some r) /\
  forall h, h <> hash -> Check_ id h l2 = Err ErrRequestHashConflict.
Proof.
  intros Hg Hc Hcomp Hsteps. apply recorded_Check.
  eapply steps_recorded; eauto using Complete_recorded.
Qed.

(** Among all callers of [Claim] for one operation, whatever happens in
    between, at most one is told that it owns the tombstone. *)
Theorem claim_granted_once id m h r o now l l1 l2 m' h' r' o' now' :
  Claim id m h r o now l = (Ok true, l1) ->
  rtc step l1 l2 ->
  (Claim id m' h' r' o' now' l2).1 = (if String.eqb h h' then Ok false else Err ErrRequestHashConflict).
Proof.
  intros Hclaim Hsteps.
  assert (everywhere (recorded id h r) l1) as Hrec.
  { unfold Claim in Hclaim. destruct (mem l !! id); [by split_match_in Hclaim|].
    rewrite store_or_rollback_spec in Hclaim. destruct o; simpl in Hclaim; simplify_eq.
    repeat split; exists (completed_record id m h r now); simpl; by rewrite lookup_insert_eq. }
  destruct (steps_recorded _ _ _ _ _ Hsteps Hrec) as ((rec & Hid & Hh & _) & _ & _).
  unfold Claim. rewrite Hid, Hh. by destruct (String.eqb h h').
Qed.

(** An operation that reports an error has not changed the ledger in memory,
    whether the request was refused or the file could not be written. *)
Theorem error_leaves_memory rec id m h r o now l :
  (forall e l', Begin rec o now l = (Err e, l') -> mem l' = mem l) /\
  (forall e l', Complete id h r o now l = (Err e, l') -> mem l' = mem l) /\
  (forall e l', Put id m h r o now l = (Err e, l') -> mem l' = mem l) /\
  (forall e l', Claim id m h r o now l = (Err e, l') -> mem l' = mem l).
Proof.
  repeat split; intros e l' Hop; unfold Begin, Complete, Put, Claim in Hop;
    split_match_in Hop; eauto using store_error_mem.
Qed.

Module Witness.

(** A create claimed and completed, then a delete of another operation whose
    write fails after the rename. *)
Definition claim : Record_ := mkRecord "op1" "m1" "x1" 1 "create" "" "h1" "" "" 0 0.
Definition l0 : Ledger := (Begin claim POk 10 Open_empty).2.
Definition l1 : Ledger := (Complete "op1" "h1" "resp" POk 20 l0).2.
Definition eio : goerr := errors_New "EIO".
Definition l2 : Ledger := restart (Put "op2" "m1" "h2" "{}" (PErrNew eio) 30 l1).2.

Lemma l1_l2 : rtc step l1 l2.
Proof. eapply rtc_l; [apply step_put|]. apply rtc_once, step_restart. Qed.

Lemma completed_is_replayed_witness :
  Check_ "op1" "h1" l2 = Ok (Some "resp"%string) /\
  forall h, h <> "h1"%string -> Check_ "op1" h l2 = Err ErrRequestHashConflict.
Proof.
  apply (completed_is_replayed "op1" "h1" "resp" POk 20 l0 l1 l2 (in_progress claim 10)).
  - vm_compute. reflexivity.
  - reflexivity.
  - vm_compute. reflexivity.
  - exact l1_l2.
Defined.

Definition c1 : Ledger := (Claim "exec" "m1" "h" "tomb" POk 10 Open_empty).2.

Lemma claim_granted_once_witness :
  (Claim "exec" "m1" "h" "other" POk 50 (power_loss false c1)).1 =
  (if String.eqb "h" "h" then Ok false else Err ErrRequestHashConflict).
Proof.
  apply (claim_granted_once "exec" "m1" "h" "tomb" POk 10 Open_empty c1 (power_loss false c1)).
  - vm_compute. reflexivity.
  - apply rtc_once, step_power_loss.
Defined.

End Witness.
