(* ===== verification/Fences.v ===== *)
(** * Generation fences (internal/agent/state/fences.go)

    The high-water mark of every machine's generation, a persistent cell like
    the ledger. *)
From S2P Require Import Prelude DurableWrite.

Record FenceEntry := mkFence { MaxGeneration : Z; LastExecutionID : string; FUpdatedAt : Z }.

(** Fences.entries; [machineLocks] is not part of the state (see Mutation). *)
Abbreviation Fences := (cell (gmap string FenceEntry)).

Definition stale_error (machineID : string) (max generation : Z) : goerr :=
  Errorf "%w: machine %s is at generation %d, request carried %d"
    [AErr (errors_New "stale generation"); AStr machineID; AInt max; AInt generation].

(** Fences.Check: an older generation than the high-water mark is refused; an
    unknown machine, an equal and a newer generation pass. *)
Definition Check_ (machineID : string) (generation : Z) (f : Fences) : res unit :=
  match mem f !! machineID with
  | Some e =>
      if Z.ltb generation (MaxGeneration e)
      then Err (stale_error machineID (MaxGeneration e) generation) else Ok tt
  | None => Ok tt
  end.

(** Fences.Advance: no-op below the mark, refresh of the debug fields at the
    mark, a new mark above it; the old entry is put back (or the new one
    deleted) when the write fails. *)
Definition Advance (machineID : string) (generation : Z) (executionID : string)
    (o : outcome) (now : Z) (f : Fences) : res unit * Fences :=
  match mem f !! machineID with
  | Some e =>
      if Z.ltb generation (MaxGeneration e) then (Ok tt, f)
      else
        let e' := if Z.eqb generation (MaxGeneration e)
                  then mkFence (MaxGeneration e) executionID now
                  else mkFence generation executionID now in
        let f := persist o (set_mem (<[machineID:=e']> (mem f)) f) in
        match outcome_err o with
        | Some err => (Err err, set_mem (<[machineID:=e]> (mem f)) f)
        | None => (Ok tt, f)
        end
  | None =>
      let f := persist o (set_mem (<[machineID:=mkFence generation executionID now]> (mem f)) f) in
      match outcome_err o with
      | Some err => (Err err, set_mem (delete machineID (mem f)) f)
      | None => (Ok tt, f)
      end
  end.

(** Fences.PruneBeforeUnlessLive: entries last advanced before [cutoff] are
    dropped, except those of live machines ([None] = no liveness
    information). *)
Definition PruneBeforeUnlessLive (cutoff : Z) (live : option (string -> bool))
    (o : outcome) (f : Fences) : (Z * option goerr) * Fences :=
  let keep (id : string) (e : FenceEntry) :=
    match live with Some l => l id | None => false end || negb (Z.ltb (FUpdatedAt e) cutoff) in
  let kept := filter (fun kv => keep kv.1 kv.2 = true) (mem f) in
  let removed := (Z.of_nat (size (mem f)) - Z.of_nat (size kept))%Z in
  if Z.eqb removed 0 then ((0%Z, None), set_mem kept f)
  else ((removed, outcome_err o), persist o (set_mem kept f)).

(** Fences.PruneBefore. *)
Definition PruneBefore (cutoff : Z) (o : outcome) (f : Fences) : (Z * option goerr) * Fences :=
  PruneBeforeUnlessLive cutoff None o f.

(** A garbage collection keeps the mark of a machine: the machine is in the
    inventory, or its mark is not older than the cutoff. *)
Definition spared (machineID : string) (cutoff : Z) (live : option (string -> bool))
    (f : Fences) : Prop :=
  (exists l, live = Some l /\ l machineID = true) \/
  (exists e, mem f !! machineID = Some e /\ (cutoff <= FUpdatedAt e)%Z).

(** The steps of the fences that keep the mark of [machineID]: advances of any
    machine, garbage collection that spares it, restarts, power failures. *)
Inductive step (machineID : string) : Fences -> Fences -> Prop :=
  | step_advance id g x o now f : step machineID f (Advance id g x o now f).2
  | step_prune cutoff live o f :
      spared machineID cutoff live f ->
      step machineID f (PruneBeforeUnlessLive cutoff live o f).2
  | step_restart f : step machineID f (restart f)
  | step_power_loss b f : step machineID f (power_loss b f).

(** The mark of the machine is at least [g]. *)
Definition at_least (machineID : string) (g : Z) (m : gmap string FenceEntry) : Prop :=
  exists e, m !! machineID = Some e /\ (g <= MaxGeneration e)%Z.

(** ** Lemmas *)

Lemma at_least_insert id g id' e m :
  (id' = id -> (g <= MaxGeneration e)%Z) -> at_least id g m -> at_least id g (<[id':=e]> m).
Proof.
  intros He (x & Hx & Hg). unfold at_least. destruct (decide (id' = id)) as [->|Hne].
  - rewrite lookup_insert_eq. eauto.
  - rewrite lookup_insert_ne by done. eauto.
Qed.

Lemma Advance_spec id g x o now f :
  Advance id g x o now f =
    match mem f !! id with
    | Some e =>
        if Z.ltb g (MaxGeneration e) then (Ok tt, f)
        else let m := <[id:=mkFence g x now]> (mem f) in
             match o with
             | POk => (Ok tt, mkCell m m m)
             | PErrOld err => (Err err, f)
             | PErrNew err => (Err err, mkCell (mem f) m (dur f))
             end
    | None => let m := <[id:=mkFence g x now]> (mem f) in
             match o with
             | POk => (Ok tt, mkCell m m m)
             | PErrOld err => (Err err, f)
             | PErrNew err => (Err err, mkCell (mem f) m (dur f))
             end
    end.
Proof.
  unfold Advance. destruct f as [m v d]; simpl.
  destruct (m !! id) as [e|] eqn:He.
  - destruct (Z.ltb g (MaxGeneration e)) eqn:Hlt; [done|].
    assert ((if Z.eqb g (MaxGeneration e) then mkFence (MaxGeneration e) x now
             else mkFence g x now) = mkFence g x now) as ->.
    { destruct (Z.eqb_spec g (MaxGeneration e)) as [->|]; done. }
    destruct o; simpl; unfold set_mem; simpl; rewrite ?insert_insert_eq, ?insert_id by done; done.
  - destruct o; simpl; unfold set_mem; simpl; rewrite ?delete_insert_id by done; done.
Qed.

Lemma Advance_at_least id' g' x o now f id g :
  everywhere (at_least id g) f -> everywhere (at_least id g) (Advance id' g' x o now f).2.
Proof.
  intros Hall. pose proof Hall as (Hm & Hv & Hd). rewrite Advance_spec.
  assert (Hins : forall m, at_least id g m ->
    (id' = id -> (g <= g')%Z) -> at_least id g (<[id':=mkFence g' x now]> m))
    by (intros; apply at_least_insert; auto).
  destruct (mem f !! id') as [e|] eqn:He.
  - destruct (Z.ltb_spec g' (MaxGeneration e)) as [Hlt|Hge]; [done|].
    assert (id' = id -> (g <= g')%Z) as Hg.
    { intros ->. destruct Hm as (e' & He' & Hle). simplify_eq. lia. }
    destruct o; simpl; repeat split; simpl; auto.
  - assert (id' = id -> (g <= g')%Z) as Hg.
    { intros ->. destruct Hm as (e' & He' & Hle). congruence. }
    destruct o; simpl; repeat split; simpl; auto.
Qed.

Lemma prune_at_least cutoff live o f id g :
  spared id cutoff live f ->
  everywhere (at_least id g) f ->
  everywhere (at_least id g) (PruneBeforeUnlessLive cutoff live o f).2.
Proof.
  intros Hsp (Hm & Hv & Hd). unfold PruneBeforeUnlessLive. set (kept := filter _ _).
  assert (at_least id g kept) as Hf.
  { destruct Hm as (e & He & Hle). exists e. split; [|done].
    apply map_lookup_filter_Some. split; [done|]. simpl.
    destruct Hsp as [(l & -> & Hlive)|(e' & He' & Hold)]; [by rewrite Hlive|].
    simplify_eq. apply orb_true_iff. right. apply negb_true_iff, Z.ltb_ge. done. }
  destruct (Z.eqb _ 0); simpl; [|apply everywhere_persist]; by repeat split.
Qed.

Lemma step_at_least id g f f' :
  step id f f' -> everywhere (at_least id g) f -> everywhere (at_least id g) f'.
Proof.
  intros Hs Hall. destruct Hs; eauto using Advance_at_least, prune_at_least with firepaas.
Qed.

Lemma steps_at_least id g f f' :
  rtc (step id) f f' -> everywhere (at_least id g) f -> everywhere (at_least id g) f'.
Proof. induction 1; eauto using step_at_least. Qed.

Lemma at_least_Check id g g' f :
  at_least id g (mem f) -> (g' < g)%Z -> exists e, Check_ id g' f = Err e.
Proof.
  intros (e & He & Hle) Hlt. unfold Check_. rewrite He.
  rewrite (proj2 (Z.ltb_lt _ _)) by lia. eauto.
Qed.

Lemma Advance_ok_at_least id g x o now f f1 :
  everywhere (fun m => m = mem f) f ->
  Advance id g x o now f = (Ok tt, f1) -> everywhere (at_least id g) f1.
Proof.
  intros (_ & Hv & Hd). rewrite Advance_spec.
  assert (forall m, at_least id g (<[id:=mkFence g x now]> m)) as Hins
    by (intros m; eexists; rewrite lookup_insert_eq; split; [done|simpl; lia]).
  destruct (mem f !! id) as [e|] eqn:He.
  - destruct (Z.ltb_spec g (MaxGeneration e)).
    + intros [= <-]. assert (at_least id g (mem f)) by (exists e; split; [done|lia]).
      unfold everywhere. by rewrite Hv, Hd.
    + destruct o; intros; simplify_eq/=; by apply everywhere_const.
  - destruct o; intros; simplify_eq/=; by apply everywhere_const.
Qed.

Lemma Advance_ok_mem id g x o now f f1 :
  Advance id g x o now f = (Ok tt, f1) -> at_least id g (mem f1).
Proof.
  rewrite Advance_spec.
  assert (forall m, at_least id g (<[id:=mkFence g x now]> m)) as Hins
    by (intros m; eexists; rewrite lookup_insert_eq; split; [done|simpl; lia]).
  destruct (mem f !! id) as [e|] eqn:He; [|destruct o; naive_solver].
  destruct (Z.ltb_spec g (MaxGeneration e)); [|destruct o; naive_solver].
  intros [= <-]. exists e. split; [done|lia].
Qed.

(** ** Properties *)

(** Once an advance to generation [g] is acknowledged (with the files in sync
    when it started), a request of an older generation is refused in every
    state reached through further advances, failed writes, restarts, power
    failures and garbage collection that finds the machine in the inventory or
    its mark young enough. *)
Theorem stale_forever id g x o now f f1 f2 g' :
  everywhere (fun m => m = mem f) f ->
  Advance id g x o now f = (Ok tt, f1) ->
  rtc (step id) f1 f2 ->
  (g' < g)%Z ->
  exists e, Check_ id g' f2 = Err e.
Proof.
  intros Hsync Hadv Hsteps Hlt. eapply at_least_Check; [|done].
  eapply steps_at_least; eauto using Advance_ok_at_least.
Qed.

Module Witness.

Definition f0 : Fences := mkCell ∅ ∅ ∅.
Definition f1 : Fences := (Advance "m1" 5 "x5" POk 10 f0).2.
(** The advance to 6 reaches the disk although its directory [fsync] fails, a
    garbage collection keeps the live machine, and the node loses power. *)
Definition f2 : Fences :=
  power_loss true
    (PruneBeforeUnlessLive 1000 (Some (fun id => String.eqb id "m1")) POk
       (Advance "m1" 6 "x6" (PErrNew (errors_New "EIO")) 20 f1).2).2.

Lemma stale_forever_witness : exists e, Check_ "m1" 4 f2 = Err e.
Proof.
  apply (stale_forever "m1" 5 "x5" POk 10 f0 f1 f2 4).
  - by vm_compute.
  - vm_compute. reflexivity.
  - eapply rtc_l; [apply step_advance|]. eapply rtc_l;
      [refine (step_prune "m1" 1000 (Some (fun id => String.eqb id "m1")) POk _ _); left; eauto|].
    apply rtc_once, step_power_loss.
  - lia.
Defined.

End Witness.
