(* ===== verification/Mutation.v ===== *)
(** * The fenced-mutation protocol (internal/agent/mutation/protocol.go)

    A run of a protocol is one critical section: the code holds the machine
    lock over it, so it is modelled as one state transformer over the ledger,
    the fences and the runtime. The runtime is abstract: the callbacks of an
    operation may change it in any way, but they do not touch the ledger or the
    fences. Each file write takes its outcome and its clock reading from the
    environment. [agent_step] are all the writers of the two files, the garbage
    collection of cmd/agentd among them. *)
From S2P Require Import Prelude DurableWrite.
From S2P Require Ledger Fences.
Import Ledger (RawMessage, Record_, mkRecord, Completed, Result, RequestHash).

(** Identity. *)
Record Identity := mkIdentity {
  OperationID : string; MachineID : string; ExecutionID : string; Generation : Z;
  Kind : string; IRequestHash : string; Coordinates : RawMessage }.

(** Codec[T]. *)
Record Codec (T : Type) := mkCodec { Encode : T -> res RawMessage; Decode : RawMessage -> res T }.
Arguments Encode {T} _ _.
Arguments Decode {T} _ _.

(** What the completed record of an operation promises its retries: decoding
    the stored response gives back the value that was encoded. *)
Class LawfulCodec {T} (c : Codec T) :=
  decode_encode : forall x raw, Encode c x = Ok raw -> Decode c raw = Ok x.

(** Recovery[T]. *)
Record Recovery (T : Type) := mkRecovery { Value : T; Found : bool }.
Arguments Value {T} _.
Arguments Found {T} _.

(** ** The state and its monad *)

Section protocol.
Context {R : Type}.
(** The outcome and the clock of the n-th file write. *)
Variable env : nat -> outcome * Z.

(** Protocol{ledger, fences}, the runtime its callbacks act on, and the number
    of file writes so far. *)
Record World := mkWorld {
  ledger : Ledger.Ledger; fences : Fences.Fences; runtime : R; writes : nat }.

Definition M (A : Type) : Type := World -> res A * World.
Definition ret {A} (a : A) : M A := fun w => (Ok a, w).
Definition fail {A} (e : goerr) : M A := fun w => (Err e, w).
Definition lift {A} (r : res A) : M A := fun w => (r, w).
Definition bind {A B} (m : M A) (k : A -> M B) : M B :=
  fun w => match m w with (Ok a, w') => k a w' | (Err e, w') => (Err e, w') end.
Notation "'let*' x := m 'in' k" := (bind m (fun x => k))
  (at level 10, x name, m at level 100, k at level 200).
Notation "m ;* k" := (bind m (fun _ => k)) (at level 99, right associativity).

(** A callback over the runtime. *)
Definition Callback (A : Type) : Type := R -> res A * R.
Definition call {A} (f : Callback A) : M A :=
  fun w => let '(r, rt) := f (runtime w) in
           (r, mkWorld (ledger w) (fences w) rt (writes w)).
(** [if f != nil { if err := f(); err != nil { return err } }]. *)
Definition call_opt (f : option (Callback unit)) : M unit :=
  match f with None => ret tt | Some f => call f end.

Definition with_ledger {A} (op : outcome -> Z -> Ledger.Ledger -> A * Ledger.Ledger) :
    World -> A * World :=
  fun w => let '(o, now) := env (writes w) in
           let '(r, l) := op o now (ledger w) in
           (r, mkWorld l (fences w) (runtime w) (S (writes w))).
Definition l_get id h : M (option Record_) := fun w => (Ledger.Get id h (ledger w), w).
Definition l_check id h : M (option RawMessage) := fun w => (Ledger.Check_ id h (ledger w), w).
Definition l_begin rec : M (Record_ * bool) := with_ledger (Ledger.Begin rec).
Definition l_complete id h raw : M unit := with_ledger (Ledger.Complete id h raw).
Definition l_put id m h raw : M unit := with_ledger (Ledger.Put id m h raw).
Definition l_claim id m h raw : M bool := with_ledger (Ledger.Claim id m h raw).
(** The error of a prune after a delete is only logged. *)
Definition l_prune_machine_except m keep : M unit :=
  fun w => let '(_, w') := with_ledger (fun o _ => Ledger.PruneMachineExcept m keep o) w in
           (Ok tt, w').
Definition f_check m g : M unit := fun w => (Fences.Check_ m g (fences w), w).
Definition f_advance m g x : M unit :=
  fun w => let '(o, now) := env (writes w) in
           let '(r, f) := Fences.Advance m g x o now (fences w) in
           (r, mkWorld (ledger w) f (runtime w) (S (writes w))).

(** The claim written before the first side effect. *)
Definition claim_of (i : Identity) : Record_ :=
  mkRecord (OperationID i) (MachineID i) (ExecutionID i) (Generation i) (Kind i)
    (Coordinates i) (IRequestHash i) "" "" 0 0.

(** ** The protocols *)

(** CreateMachine[T]; [Prepare] returns a release function to defer, or nil. *)
Record CreateMachine (T : Type) := mkCreate {
  cm_id : Identity;
  cm_Prepare : option (Callback (option (R -> R)));
  cm_Recover : option (Callback (Recovery T));
  cm_Effect : Callback T;
  cm_PersistCredential : option (Callback unit);
  cm_Codec : Codec T }.
Arguments cm_id {T} _.
Arguments cm_Prepare {T} _.
Arguments cm_Recover {T} _.
Arguments cm_Effect {T} _.
Arguments cm_PersistCredential {T} _.
Arguments cm_Codec {T} _.

(** [defer release()]: runs when the function returns, whatever it returns. *)
Definition defer {A} (release : option (R -> R)) (m : M A) : M A :=
  fun w => let '(r, w') := m w in
    match release with
    | None => (r, w')
    | Some f => (r, mkWorld (ledger w') (fences w') (f (runtime w')) (writes w'))
    end.

(** completeCreate: fence advance, credential, encoding, durable completion. *)
Definition completeCreate {T} (op : CreateMachine T) (out : T) : M T :=
  let i := cm_id op in
  f_advance (MachineID i) (Generation i) (ExecutionID i) ;*
  call_opt (cm_PersistCredential op) ;*
  let* raw := lift (Encode (cm_Codec op) out) in
  l_complete (OperationID i) (IRequestHash i) raw ;*
  ret out.

(** The replay of a completed create: the credential is written again. *)
Definition replayCreate {T} (op : CreateMachine T) (raw : RawMessage) : M T :=
  call_opt (cm_PersistCredential op) ;* lift (Decode (cm_Codec op) raw).

(** [Prepare], the effect and the completion, with the release deferred. *)
Definition effectCreate {T} (op : CreateMachine T) : M T :=
  let* release := match cm_Prepare op with None => ret None | Some f => call f end in
  defer release (let* out := call (cm_Effect op) in completeCreate op out).

Definition RunCreateMachine {T} (op : CreateMachine T) : M T :=
  let i := cm_id op in
  let* done_ := l_check (OperationID i) (IRequestHash i) in
  match done_ with
  | Some raw => replayCreate op raw
  | None =>
      f_check (MachineID i) (Generation i) ;*
      let* begun := l_begin (claim_of i) in
      let '(rec, existed) := begun in
      if Completed rec then replayCreate op (Result rec)
      else match existed, cm_Recover op with
           | true, Some recover =>
               let* recovered := call recover in
               if Found recovered then completeCreate op (Value recovered) else effectCreate op
           | _, _ => effectCreate op
           end
  end.

(** DeleteMachine. *)
Record DeleteMachine := mkDeleteMachine {
  dm_id : Identity; dm_Effect : Callback unit; dm_DropCredential : option (R -> R) }.

(** RunDeleteMachine: true for a replay. *)
Definition RunDeleteMachine (op : DeleteMachine) : M bool :=
  let i := dm_id op in
  let* done_ := l_check (OperationID i) (IRequestHash i) in
  match done_ with
  | Some _ => ret true
  | None =>
      f_check (MachineID i) (Generation i) ;*
      call (dm_Effect op) ;*
      call (fun rt => (Ok tt, match dm_DropCredential op with None => rt | Some f => f rt end)) ;*
      l_put (OperationID i) (MachineID i) (IRequestHash i) "{}" ;*
      l_prune_machine_except (MachineID i) (OperationID i) ;*
      f_advance (MachineID i) (Generation i) (ExecutionID i) ;*
      ret false
  end.

(** ClaimedMutation[T]. [SerializationKey] only selects the lock. *)
Record ClaimedMutation (T : Type) := mkClaimed {
  cl_id : Identity;
  cl_Fence : option (Callback unit);
  cl_Recover : option (Callback (Recovery T));
  cl_Effect : Callback T;
  cl_Codec : Codec T }.
Arguments cl_id {T} _.
Arguments cl_Fence {T} _.
Arguments cl_Recover {T} _.
Arguments cl_Effect {T} _.
Arguments cl_Codec {T} _.

(** completeClaimed. *)
Definition completeClaimed {T} (op : ClaimedMutation T) (out : T)
    (beforeResult beforeComplete : M unit) : M T :=
  beforeResult ;*
  beforeComplete ;*
  let* raw := lift (Encode (cl_Codec op) out) in
  l_complete (OperationID (cl_id op)) (IRequestHash (cl_id op)) raw ;*
  ret out.

(** The part of runClaimed after the replay check: fence (the operation's own
    one if it has one), durable claim, recovery or effect, completion. *)
Definition runClaimed_new {T} (op : ClaimedMutation T) (checkFence : bool)
    (beforeResult beforeComplete : M unit) : M T :=
  let i := cl_id op in
  (if checkFence then
     match cl_Fence op with
     | Some fence => call fence
     | None => f_check (MachineID i) (Generation i)
     end
   else ret tt) ;*
  let* begun := l_begin (claim_of i) in
  let '(rec, existed) := begun in
  let run_effect := let* out := call (cl_Effect op) in
                    completeClaimed op out beforeResult beforeComplete in
  if Completed rec then lift (Decode (cl_Codec op) (Result rec))
  else match existed, cl_Recover op with
       | true, Some recover =>
           let* recovered := call recover in
           if Found recovered
           then completeClaimed op (Value recovered) beforeResult beforeComplete
           else run_effect
       | _, _ => run_effect
       end.

(** runClaimed. *)
Definition runClaimed {T} (op : ClaimedMutation T) (checkFence : bool)
    (beforeResult beforeComplete : M unit) : M T :=
  let* got := l_get (OperationID (cl_id op)) (IRequestHash (cl_id op)) in
  match got with
  | Some rec =>
      if Completed rec then lift (Decode (cl_Codec op) (Result rec))
      else runClaimed_new op checkFence beforeResult beforeComplete
  | None => runClaimed_new op checkFence beforeResult beforeComplete
  end.

Definition advance_of (i : Identity) : M unit :=
  f_advance (MachineID i) (Generation i) (ExecutionID i).

(** RunFabricMutation, RunResourceMutation, RunMachineMutation. *)
Definition RunFabricMutation {T} (op : ClaimedMutation T) : M T := runClaimed op true (ret tt) (ret tt).
Definition RunResourceMutation {T} (op : ClaimedMutation T) : M T := runClaimed op false (ret tt) (ret tt).
Definition RunMachineMutation {T} (op : ClaimedMutation T) : M T := runClaimed op true (ret tt) (ret tt).

(** Lifecycle[T] (pause/resume). *)
Record Lifecycle (T : Type) := mkLifecycle {
  lc_id : Identity; lc_Recover : option (Callback (Recovery T));
  lc_Effect : Callback T; lc_Codec : Codec T }.
Arguments lc_id {T} _.
Arguments lc_Recover {T} _.
Arguments lc_Effect {T} _.
Arguments lc_Codec {T} _.

(** RunLifecycle. *)
Definition RunLifecycle {T} (op : Lifecycle T) : M T :=
  runClaimed (mkClaimed T (lc_id op) None (lc_Recover op) (lc_Effect op) (lc_Codec op))
    true (advance_of (lc_id op)) (ret tt).

(** Replacement[T] (snapshot fork and restore). *)
Record Replacement (T : Type) := mkReplacement {
  rp_id : Identity; rp_Recover : option (Callback (Recovery T)); rp_Effect : Callback T;
  rp_PersistCredential : option (Callback unit); rp_Codec : Codec T }.
Arguments rp_id {T} _.
Arguments rp_Recover {T} _.
Arguments rp_Effect {T} _.
Arguments rp_PersistCredential {T} _.
Arguments rp_Codec {T} _.

(** RunReplacement. *)
Definition RunReplacement {T} (op : Replacement T) : M T :=
  runClaimed (mkClaimed T (rp_id op) None (rp_Recover op) (rp_Effect op) (rp_Codec op))
    true (advance_of (rp_id op)) (call_opt (rp_PersistCredential op)).

(** DeleteMutation. *)
Record DeleteMutation := mkDelete {
  dl_id : Identity; dl_AlreadyDeleted : option (Callback bool); dl_Effect : Callback unit }.

(** runDelete: claim first, then the fence, then recovery or effect. *)
Definition runDelete (op : DeleteMutation) (checkFence : bool) : M unit :=
  let i := dl_id op in
  let complete := l_complete (OperationID i) (IRequestHash i) "{}" in
  let* begun := l_begin (claim_of i) in
  let '(rec, existed) := begun in
  if Completed rec then ret tt
  else
    (if checkFence then f_check (MachineID i) (Generation i) else ret tt) ;*
    let run_effect := call (dl_Effect op) ;* complete in
    match existed, dl_AlreadyDeleted op with
    | true, Some already =>
        let* deleted := call already in
        if deleted : bool then complete else run_effect
    | _, _ => run_effect
    end.

Definition RunResourceDelete (op : DeleteMutation) : M unit := runDelete op false.
Definition RunMachineDelete (op : DeleteMutation) : M unit := runDelete op true.

(** RunCopyTo: no claim; the effect, the fence advance, then the result. *)
Definition RunCopyTo {T} (op : Lifecycle T) : M T :=
  let i := lc_id op in
  let* done_ := l_check (OperationID i) (IRequestHash i) in
  match done_ with
  | Some raw => lift (Decode (lc_Codec op) raw)
  | None =>
      f_check (MachineID i) (Generation i) ;*
      let* out := call (lc_Effect op) in
      advance_of i ;*
      let* raw := lift (Encode (lc_Codec op) out) in
      l_put (OperationID i) (MachineID i) (IRequestHash i) raw ;*
      ret out
  end.

(** ClaimExec. *)
Definition ClaimExec (i : Identity) (tombstone : RawMessage) : M bool :=
  l_claim (OperationID i) (MachineID i) (IRequestHash i) tombstone.

(** pruneGC (cmd/agentd/main.go), at the start and every hour: the records that
    were claimed before the cutoff, then the marks last advanced before it of
    the machines that are not in the inventory; without an inventory the marks
    are left alone. Errors are only logged. *)
Definition pruneGC (cutoff : Z) (inventory : res (list string)) : M unit :=
  (fun w => let '(_, w') := with_ledger (fun o _ => Ledger.PruneBefore cutoff o) w in
            (Ok tt, w')) ;*
  match inventory with
  | Err _ => ret tt
  | Ok live => fun w =>
      let liveFn id := existsb (String.eqb id) live in
      let '(o, _) := env (writes w) in
      let '(_, f) := Fences.PruneBeforeUnlessLive cutoff (Some liveFn) o (fences w) in
      (Ok tt, mkWorld (ledger w) f (runtime w) (S (writes w)))
  end.

(** ** The agent as a transition system

    What can happen between two runs of an operation: runs of any protocol
    with any arguments, activity of the runtime, the garbage collection, a
    restart of the agent and a power failure of the node. A step carries what
    it may forget: nothing, the operations of a deleted machine, or what is
    older than the cutoff of a collection. *)
Inductive event :=
  | EvRun
  | EvDeleteMachine (machineID : string)
  | EvGC (cutoff : Z) (inventory : res (list string)).

Inductive agent_step : event -> World -> World -> Prop :=
  | agent_create T (op : CreateMachine T) w : agent_step EvRun w (RunCreateMachine op w).2
  | agent_delete_machine op w :
      agent_step (EvDeleteMachine (MachineID (dm_id op))) w (RunDeleteMachine op w).2
  | agent_fabric T (op : ClaimedMutation T) w : agent_step EvRun w (RunFabricMutation op w).2
  | agent_resource T (op : ClaimedMutation T) w : agent_step EvRun w (RunResourceMutation op w).2
  | agent_machine T (op : ClaimedMutation T) w : agent_step EvRun w (RunMachineMutation op w).2
  | agent_lifecycle T (op : Lifecycle T) w : agent_step EvRun w (RunLifecycle op w).2
  | agent_replacement T (op : Replacement T) w : agent_step EvRun w (RunReplacement op w).2
  | agent_copy T (op : Lifecycle T) w : agent_step EvRun w (RunCopyTo op w).2
  | agent_delete op checkFence w : agent_step EvRun w (runDelete op checkFence w).2
  | agent_exec i tomb w : agent_step EvRun w (ClaimExec i tomb w).2
  | agent_gc cutoff inventory w :
      agent_step (EvGC cutoff inventory) w (pruneGC cutoff inventory w).2
  | agent_runtime rt w : agent_step EvRun w (mkWorld (ledger w) (fences w) rt (writes w))
  | agent_restart w :
      agent_step EvRun w (mkWorld (restart (ledger w)) (restart (fences w)) (runtime w) (writes w))
  | agent_power_loss b b' w :
      agent_step EvRun w (mkWorld (power_loss b (ledger w)) (power_loss b' (fences w))
                            (runtime w) (writes w)).

(** The steps that do not forget the record [rec]: not the deletion of its
    machine, and no collection whose cutoff is after the time of its claim. *)
Definition keeps_record (rec : Record_) (w w' : World) : Prop :=
  exists ev, agent_step ev w w' /\
    match ev with
    | EvRun => True
    | EvDeleteMachine m => m <> Ledger.MachineID rec
    | EvGC cutoff _ => (cutoff <= Ledger.CreatedAt rec)%Z
    end.

(** The steps that do not forget the mark of the machine [m]: all but a
    collection that finds it neither in the inventory nor young enough. *)
Definition keeps_mark (m : string) (w w' : World) : Prop :=
  exists ev, agent_step ev w w' /\
    match ev with
    | EvGC cutoff (Ok live) =>
        m ∈ live \/
        exists e, mem (fences w) !! m = Some e /\ (cutoff <= Fences.FUpdatedAt e)%Z
    | _ => True
    end.

(** ** Lemmas *)

Lemma bind_Ok {A B} (m : M A) (k : A -> M B) w b w' :
  bind m k w = (Ok b, w') -> exists a w1, m w = (Ok a, w1) /\ k a w1 = (Ok b, w').
Proof. unfold bind. destruct (m w) as [[a|e] w1]; [eauto|done]. Qed.

Lemma defer_inv {A} f (m : M A) w r w' :
  defer f m w = (r, w') ->
  exists w1, m w = (r, w1) /\ ledger w' = ledger w1 /\ fences w' = fences w1.
Proof.
  unfold defer. destruct (m w) as [r1 w1]. destruct f; intros [= <- <-]; eauto.
Qed.

(** A computation moves the ledger and the fences only by their own steps. *)
Definition tame {A} (m : M A) : Prop :=
  forall w, rtc Ledger.step (ledger w) (ledger (m w).2) /\
            forall id, rtc (Fences.step id) (fences w) (fences (m w).2).

Lemma tame_ret {A} (a : A) : tame (ret a).
Proof. by split. Qed.
Lemma tame_lift {A} (r : res A) : tame (lift r).
Proof. by split. Qed.
Lemma tame_bind {A B} (m : M A) (k : A -> M B) :
  tame m -> (forall a, tame (k a)) -> tame (bind m k).
Proof.
  intros Hm Hk w. unfold bind. specialize (Hm w). destruct (m w) as [[a|e] w1]; [|done].
  destruct Hm as [Hl Hf], (Hk a w1) as [Hl' Hf']. split.
  - by etrans; [apply Hl|].
  - intros id. etrans; [apply Hf|apply Hf'].
Qed.
Lemma tame_call {A} (f : Callback A) : tame (call f).
Proof. intros w. unfold call. by destruct (f (runtime w)). Qed.
Lemma tame_call_opt f : tame (call_opt f).
Proof. destruct f; [apply tame_call | apply tame_ret]. Qed.
Lemma tame_defer {A} f (m : M A) : tame m -> tame (defer f m).
Proof.
  intros Hm w. specialize (Hm w). unfold defer. destruct (m w) as [r w1]. by destruct f.
Qed.
Lemma tame_with_ledger {A} (op : outcome -> Z -> Ledger.Ledger -> A * Ledger.Ledger) :
  (forall o now l, Ledger.step l (op o now l).2) ->
  forall w, rtc Ledger.step (ledger w) (ledger (with_ledger op w).2) /\
            forall id, rtc (Fences.step id) (fences w) (fences (with_ledger op w).2).
Proof.
  intros Hop w. unfold with_ledger. destruct (env (writes w)) as [o now].
  specialize (Hop o now (ledger w)). destruct (op o now (ledger w)) as [r l].
  split; [by apply rtc_once | done].
Qed.
Lemma tame_begin rec : tame (l_begin rec).
Proof. exact (tame_with_ledger (Ledger.Begin rec) (fun o now l => Ledger.step_begin rec o now l)). Qed.
Lemma tame_complete id h raw : tame (l_complete id h raw).
Proof. exact (tame_with_ledger (Ledger.Complete id h raw) (fun o now l => Ledger.step_complete id h raw o now l)). Qed.
Lemma tame_put id m h raw : tame (l_put id m h raw).
Proof. exact (tame_with_ledger (Ledger.Put id m h raw) (fun o now l => Ledger.step_put id m h raw o now l)). Qed.
Lemma tame_claim id m h raw : tame (l_claim id m h raw).
Proof. exact (tame_with_ledger (Ledger.Claim id m h raw) (fun o now l => Ledger.step_claim id m h raw o now l)). Qed.
Lemma tame_read {A} (f : World -> res A) : tame (fun w => (f w, w)).
Proof. by split. Qed.
Lemma tame_advance m g x : tame (f_advance m g x).
Proof.
  intros w. unfold f_advance. destruct (env (writes w)) as [o now].
  pose proof (fun id => Fences.step_advance id m g x o now (fences w)) as Hs.
  destruct (Fences.Advance m g x o now (fences w)) as [r f]. split; [done|].
  intros id. apply rtc_once, Hs.
Qed.

(** Proves that a protocol is [tame] by walking its text. *)
Ltac solve_tame :=
  cbv zeta;
  repeat match goal with
  | |- tame (bind _ _) => apply tame_bind; [|intros ?]
  | |- tame (defer _ _) => apply tame_defer
  | |- tame (call_opt _) => apply tame_call_opt
  | |- tame (call _) => apply tame_call
  | |- tame (ret _) => apply tame_ret
  | |- tame (lift _) => apply tame_lift
  | |- tame (l_begin _) => apply tame_begin
  | |- tame (l_complete _ _ _) => apply tame_complete
  | |- tame (l_put _ _ _ _) => apply tame_put
  | |- tame (l_claim _ _ _ _) => apply tame_claim
  | |- tame (f_advance _ _ _) => apply tame_advance
  | |- tame (match ?x with _ => _ end) => destruct x
  | |- tame _ => apply tame_read
  end.

Lemma tame_completeCreate {T} (op : CreateMachine T) out : tame (completeCreate op out).
Proof. unfold completeCreate. solve_tame. Qed.
Lemma tame_replayCreate {T} (op : CreateMachine T) raw : tame (replayCreate op raw).
Proof. unfold replayCreate. solve_tame. Qed.
Lemma tame_effectCreate {T} (op : CreateMachine T) : tame (effectCreate op).
Proof.
  unfold effectCreate. apply tame_bind; [solve_tame|]. intros rel. apply tame_defer.
  apply tame_bind; [solve_tame|]. intros; apply tame_completeCreate.
Qed.
Lemma tame_create {T} (op : CreateMachine T) : tame (RunCreateMachine op).
Proof.
  unfold RunCreateMachine. apply tame_bind; [apply tame_read|]. intros [raw|].
  - apply tame_replayCreate.
  - apply tame_bind; [apply tame_read|]. intros _. apply tame_bind; [apply tame_begin|].
    intros [rec ex]. destruct (Completed rec); [apply tame_replayCreate|].
    destruct ex, (cm_Recover op); auto using tame_effectCreate.
    apply tame_bind; [apply tame_call|]. intros x.
    destruct (Found x); auto using tame_completeCreate, tame_effectCreate.
Qed.

Lemma tame_completeClaimed {T} (op : ClaimedMutation T) out b1 b2 :
  tame b1 -> tame b2 -> tame (completeClaimed op out b1 b2).
Proof. intros. unfold completeClaimed. solve_tame; done. Qed.
Lemma tame_runClaimed_new {T} (op : ClaimedMutation T) cf b1 b2 :
  tame b1 -> tame b2 -> tame (runClaimed_new op cf b1 b2).
Proof.
  intros. unfold runClaimed_new. apply tame_bind; [solve_tame|]. intros _.
  apply tame_bind; [solve_tame|]. intros [rec ex]. destruct (Completed rec); [apply tame_lift|].
  assert (tame (bind (call (cl_Effect op)) (fun out => completeClaimed op out b1 b2)))
    by (apply tame_bind; auto using tame_call, tame_completeClaimed).
  destruct ex, (cl_Recover op); auto.
  apply tame_bind; [solve_tame|]. intros x. destruct (Found x); auto using tame_completeClaimed.
Qed.
Lemma tame_runClaimed {T} (op : ClaimedMutation T) cf b1 b2 :
  tame b1 -> tame b2 -> tame (runClaimed op cf b1 b2).
Proof.
  intros. unfold runClaimed. apply tame_bind; [apply tame_read|]. intros [rec|];
    [destruct (Completed rec); [apply tame_lift|]|]; auto using tame_runClaimed_new.
Qed.
Lemma tame_runDelete op cf : tame (runDelete op cf).
Proof.
  unfold runDelete. apply tame_bind; [solve_tame|]. intros [rec ex]. solve_tame.
Qed.
Lemma tame_copy {T} (op : Lifecycle T) : tame (RunCopyTo op).
Proof. unfold RunCopyTo, advance_of. solve_tame. Qed.

#[local] Hint Resolve tame_create tame_runClaimed tame_runDelete tame_copy tame_claim
  tame_ret tame_call_opt tame_advance : firepaas.

(** A deletion moves the ledger by its operations and one prune of its
    machine, and the fences by their steps. *)
Lemma delete_machine_moves (L : Ledger.Ledger -> Ledger.Ledger -> Prop) op :
  (forall l l', Ledger.step l l' -> L l l') ->
  (forall o l, L l (Ledger.PruneMachineExcept (MachineID (dm_id op))
                      (OperationID (dm_id op)) o l).2) ->
  forall w, rtc L (ledger w) (ledger (RunDeleteMachine op w).2) /\
            forall id, rtc (Fences.step id) (fences w) (fences (RunDeleteMachine op w).2).
Proof.
  intros HL HP. pose (mv A (m : M A) := forall w, rtc L (ledger w) (ledger (m w).2) /\
    forall id, rtc (Fences.step id) (fences w) (fences (m w).2)).
  assert (Ht : forall A (m : M A), tame m -> mv A m).
  { intros A m Hm w. destruct (Hm w) as [Hl Hf]. split; [|done].
    eapply rtc_subrel; [exact HL|done]. }
  assert (Hb : forall A B (m : M A) (k : A -> M B), mv A m -> (forall a, mv B (k a)) ->
    mv B (bind m k)).
  { intros A B m k Hm Hk w. unfold bind. specialize (Hm w). destruct (m w) as [[a|e] w1]; [|done].
    destruct Hm as [Hl Hf], (Hk a w1) as [Hl' Hf']. split; [by etrans|].
    intros id. etrans; [apply Hf|apply Hf']. }
  change (mv bool (RunDeleteMachine op)). unfold RunDeleteMachine.
  apply Hb; [apply Ht, tame_read|]. intros [raw|]; [apply Ht, tame_ret|].
  do 4 (apply Hb; [apply Ht; solve_tame|intros _]).
  apply Hb; [|intros _; apply Ht; solve_tame].
  intros w. unfold l_prune_machine_except, with_ledger. destruct (env (writes w)) as [o now].
  specialize (HP o (ledger w)). destruct (Ledger.PruneMachineExcept _ _ _ _) as [x l]. simpl in *.
  split; [by apply rtc_once|done].
Qed.

Lemma pruneGC_ledger cutoff inventory w :
  exists o, ledger (pruneGC cutoff inventory w).2 = (Ledger.PruneBefore cutoff o (ledger w)).2.
Proof.
  unfold pruneGC, bind, with_ledger. destruct (env (writes w)) as [o now]. exists o.
  destruct (Ledger.PruneBefore cutoff o (ledger w)) as [x l]. destruct inventory; [|done]. simpl.
  destruct (env _) as [o' ?], (Fences.PruneBeforeUnlessLive _ _ _ _). done.
Qed.

Lemma pruneGC_fences cutoff inventory w :
  fences (pruneGC cutoff inventory w).2 =
    match inventory with
    | Err _ => fences w
    | Ok live => (Fences.PruneBeforeUnlessLive cutoff
                    (Some (fun id => existsb (String.eqb id) live))
                    (env (S (writes w))).1 (fences w)).2
    end.
Proof.
  unfold pruneGC, bind, with_ledger. destruct (env (writes w)) as [o now].
  destruct (Ledger.PruneBefore cutoff o (ledger w)) as [x l]. destruct inventory; [|done]. simpl.
  destruct (env (S (writes w))) as [o' now']. simpl.
  by destruct (Fences.PruneBeforeUnlessLive _ _ _ _).
Qed.

(** The runs of the protocols move the ledger and the fences by their steps. *)
Lemma agent_step_run w w' :
  agent_step EvRun w w' ->
  rtc Ledger.step (ledger w) (ledger w') /\
  forall id, rtc (Fences.step id) (fences w) (fences w').
Proof.
  assert (Ht : forall A (m : M A), tame m -> forall w,
    rtc Ledger.step (ledger w) (ledger (m w).2) /\
    forall id, rtc (Fences.step id) (fences w) (fences (m w).2)) by (intros; auto).
  intros Hs. remember EvRun as ev eqn:Hev. destruct Hs; try discriminate; try (apply Ht;
    unfold RunFabricMutation, RunResourceMutation, RunMachineMutation, RunLifecycle,
      RunReplacement, advance_of, ClaimExec; auto with firepaas); simpl; split;
    intros; try apply rtc_refl; apply rtc_once; constructor.
Qed.

Lemma keeps_record_ledger rec w w' :
  keeps_record rec w w' -> rtc (Ledger.keeps rec) (ledger w) (ledger w').
Proof.
  intros (ev & Hs & Hk). destruct ev as [|m|cutoff inv].
  - apply agent_step_run in Hs as [Hl _]. eapply rtc_subrel; [|done].
    intros; by apply Ledger.keeps_step.
  - inversion Hs; subst. refine (proj1 (delete_machine_moves _ _ _ _ _)); intros.
    + by apply Ledger.keeps_step.
    + by apply Ledger.keeps_machine.
  - inversion Hs; subst. destruct (pruneGC_ledger cutoff inv w) as [o ->].
    by apply rtc_once, Ledger.keeps_before.
Qed.

Lemma keeps_mark_fences m w w' :
  keeps_mark m w w' -> rtc (Fences.step m) (fences w) (fences w').
Proof.
  intros (ev & Hs & Hk). destruct ev as [|m'|cutoff inv].
  - by apply agent_step_run in Hs as [_ Hf].
  - inversion Hs; subst. refine (proj2 (delete_machine_moves (fun _ _ => True) _ _ _ _) m); done.
  - inversion Hs; subst. rewrite pruneGC_fences. destruct inv as [live|]; [|done].
    apply rtc_once, Fences.step_prune. destruct Hk as [Hin|Hyoung]; [left|by right].
    eexists. split; [done|]. apply existsb_exists. exists m.
    split; [by apply list_elem_of_In|apply String.eqb_refl].
Qed.

Lemma keeps_record_has id rec w w' :
  rtc (keeps_record rec) w w' ->
  everywhere (Ledger.has id rec) (ledger w) -> everywhere (Ledger.has id rec) (ledger w').
Proof.
  induction 1; eauto using Ledger.keeps_steps_has, keeps_record_ledger.
Qed.

Lemma keeps_mark_at_least m g w w' :
  rtc (keeps_mark m) w w' ->
  everywhere (Fences.at_least m g) (fences w) -> everywhere (Fences.at_least m g) (fences w').
Proof. induction 1; eauto using Fences.steps_at_least, keeps_mark_fences. Qed.

(** The claim a run works under: the one it found, or one for its own machine
    with the time of its first write. *)
Definition claim_from (rec : Record_) (w : World) (r : Record_) : Prop :=
  match mem (ledger w) !! Ledger.OperationID rec with
  | Some old => r = old
  | None => Ledger.MachineID r = Ledger.MachineID rec /\
            Ledger.CreatedAt r = (env (writes w)).2
  end.

(** A run that has not been replayed holds an in-progress claim when it
    completes. *)
Lemma l_begin_claim rec w r ex w' :
  l_begin rec w = (Ok (r, ex), w') ->
  Ledger.Check_ (Ledger.OperationID rec) (RequestHash rec) (ledger w) = Ok None ->
  Completed r = false /\
  Ledger.Get (Ledger.OperationID rec) (RequestHash rec) (ledger w') = Ok (Some r) /\
  fences w' = fences w /\ claim_from rec w r.
Proof.
  unfold l_begin, with_ledger, Ledger.Begin, Ledger.Check_, Ledger.Get, claim_from.
  destruct (env (writes w)) as [o now]. destruct (mem (ledger w) !! _) as [old|] eqn:Hid.
  - destruct (negb _) eqn:Hh; [done|]. intros [= <- <- <-] Hc. simpl.
    rewrite Hid, Hh. destruct (Completed old); [done|]. done.
  - rewrite Ledger.store_or_rollback_spec. destruct o; simpl; intros [= <- <- <-] _; simpl.
    by rewrite lookup_insert_eq, String.eqb_refl.
Qed.

Lemma f_advance_ledger m g x w r w' : f_advance m g x w = (r, w') -> ledger w' = ledger w.
Proof.
  unfold f_advance. destruct (env _) as [o now], (Fences.Advance _ _ _ _ _ _). by intros [= _ <-].
Qed.
Lemma call_frame {A} (f : Callback A) w r w' :
  call f w = (r, w') -> ledger w' = ledger w /\ fences w' = fences w.
Proof. unfold call. destruct (f _). by intros [= _ <-]. Qed.
Lemma call_writes {A} (f : Callback A) w r w' : call f w = (r, w') -> writes w' = writes w.
Proof. unfold call. destruct (f _). by intros [= _ <-]. Qed.
Lemma call_opt_frame f w r w' :
  call_opt f w = (r, w') -> ledger w' = ledger w /\ fences w' = fences w.
Proof. destruct f; [apply call_frame|]. by intros [= _ <-]. Qed.

(** The acknowledged completion of an in-progress claim is recorded. *)
Lemma l_complete_recorded id h raw w w' rec :
  Ledger.Get id h (ledger w) = Ok (Some rec) -> Completed rec = false ->
  l_complete id h raw w = (Ok tt, w') ->
  (exists rec', Ledger.completed_as id h raw rec rec' (ledger w')) /\ fences w' = fences w.
Proof.
  unfold l_complete, with_ledger. destruct (env (writes w)) as [o now]. intros Hg Hc.
  destruct (Ledger.Complete _ _ _ _ _ _) as [r l] eqn:Hcomp. intros [= -> <-]. simpl.
  eauto using Ledger.Complete_as.
Qed.

Lemma completeCreate_Ok {T} (op : CreateMachine T) out w x w' rec :
  let i := cm_id op in
  Ledger.Get (OperationID i) (IRequestHash i) (ledger w) = Ok (Some rec) ->
  Completed rec = false ->
  completeCreate op out w = (Ok x, w') ->
  x = out /\
  (exists raw rec', Encode (cm_Codec op) x = Ok raw /\
    Ledger.completed_as (OperationID i) (IRequestHash i) raw rec rec' (ledger w')) /\
  (everywhere (fun m => m = mem (fences w)) (fences w) ->
   everywhere (Fences.at_least (MachineID i) (Generation i)) (fences w')).
Proof.
  intros i Hg Hc Hrun. unfold completeCreate in Hrun. cbv zeta in Hrun. fold i in Hrun.
  apply bind_Ok in Hrun as (u & w1 & Hadv & Hrun).
  apply bind_Ok in Hrun as (v & w2 & Hcred & Hrun).
  apply bind_Ok in Hrun as (raw & w3 & Henc & Hrun). injection Henc as Henc <-.
  apply bind_Ok in Hrun as ([] & w4 & Hcomp & Hrun). injection Hrun as <- <-.
  pose proof (f_advance_ledger _ _ _ _ _ _ Hadv) as Hl1.
  destruct (call_opt_frame _ _ _ _ Hcred) as [Hl2 Hf2].
  rewrite <- Hl1, <- Hl2 in Hg.
  destruct (l_complete_recorded _ _ _ _ _ _ Hg Hc Hcomp) as [[rec' Hrec] Hf].
  split; [done|]. split; [by eauto|]. intros Hsync. rewrite Hf, Hf2.
  unfold f_advance in Hadv. destruct (env (writes w)) as [o now].
  destruct (Fences.Advance _ _ _ _ _ _) as [r f] eqn:Ha. simplify_eq. destruct u.
  eapply Fences.Advance_ok_at_least; eauto.
Qed.

Lemma effectCreate_Ok {T} (op : CreateMachine T) w x w' :
  effectCreate op w = (Ok x, w') ->
  exists out w1 w2, ledger w1 = ledger w /\ fences w1 = fences w /\
    completeCreate op out w1 = (Ok x, w2) /\ ledger w' = ledger w2 /\ fences w' = fences w2.
Proof.
  unfold effectCreate. intros Hrun.
  apply bind_Ok in Hrun as (rel & w1 & Hprep & Hrun).
  assert (ledger w1 = ledger w /\ fences w1 = fences w) as [Hl Hf].
  { destruct (cm_Prepare op); [by eapply call_frame|]. by injection Hprep as _ <-. }
  apply defer_inv in Hrun as (w2 & Hrun & Hl2 & Hf2).
  apply bind_Ok in Hrun as (out & w3 & Heff & Hrun).
  apply call_frame in Heff as [Hl3 Hf3]. exists out, w3, w2.
  rewrite Hl3, Hf3. auto.
Qed.

Lemma RunCreate_completes {T} (op : CreateMachine T) w x w' :
  let i := cm_id op in
  Ledger.Check_ (OperationID i) (IRequestHash i) (ledger w) = Ok None ->
  RunCreateMachine op w = (Ok x, w') ->
  exists out w1 w2 rec,
    Ledger.Get (OperationID i) (IRequestHash i) (ledger w1) = Ok (Some rec) /\
    Completed rec = false /\ claim_from (claim_of i) w rec /\ fences w1 = fences w /\
    completeCreate op out w1 = (Ok x, w2) /\ ledger w' = ledger w2 /\ fences w' = fences w2.
Proof.
  intros i Hnew Hrun. unfold RunCreateMachine in Hrun. cbv zeta in Hrun. fold i in Hrun.
  apply bind_Ok in Hrun as (d & w0 & Hc & Hrun). injection Hc as Hd <-.
  rewrite Hnew in Hd. injection Hd as <-.
  apply bind_Ok in Hrun as (u & w0 & Hf & Hrun). injection Hf as _ <-.
  apply bind_Ok in Hrun as ([rec ex] & w1 & Hb & Hrun).
  destruct (l_begin_claim _ _ _ _ _ Hb Hnew) as (Hinc & Hg & Hf & Hfrom). simpl in Hg.
  rewrite Hinc in Hrun.
  assert (effectCreate op w1 = (Ok x, w') -> exists out wa wb rec,
    Ledger.Get (OperationID i) (IRequestHash i) (ledger wa) = Ok (Some rec) /\
    Completed rec = false /\ claim_from (claim_of i) w rec /\ fences wa = fences w /\
    completeCreate op out wa = (Ok x, wb) /\ ledger w' = ledger wb /\ fences w' = fences wb)
    as Heffect.
  { intros He. destruct (effectCreate_Ok _ _ _ _ He) as (out & wa & wb & Hl & Hfa & ? & ? & ?).
    exists out, wa, wb, rec. rewrite Hl, Hfa. auto 10. }
  destruct ex, (cm_Recover op) as [rcv|]; auto.
  apply bind_Ok in Hrun as (y & w2 & Hr & Hrun). apply call_frame in Hr as [Hl2 Hf2].
  destruct (Found y).
  - exists (Value y), w2, w', rec. rewrite Hl2, Hf2. auto 10.
  - destruct (effectCreate_Ok _ _ _ _ Hrun) as (out & wa & wb & Hl & Hfa & ? & ? & ?).
    exists out, wa, wb, rec. rewrite Hl, Hfa, Hl2, Hf2. auto 10.
Qed.

Lemma completeClaimed_Ok {T} (op : ClaimedMutation T) out b1 b2 w x w' rec :
  let i := cl_id op in
  (forall w r w', b1 w = (r, w') -> ledger w' = ledger w) ->
  (forall w r w', b2 w = (r, w') -> ledger w' = ledger w) ->
  Ledger.Get (OperationID i) (IRequestHash i) (ledger w) = Ok (Some rec) ->
  Completed rec = false ->
  completeClaimed op out b1 b2 w = (Ok x, w') ->
  exists raw rec', Encode (cl_Codec op) x = Ok raw /\
    Ledger.completed_as (OperationID i) (IRequestHash i) raw rec rec' (ledger w').
Proof.
  intros i Hb1 Hb2 Hg Hc Hrun. unfold completeClaimed in Hrun. fold i in Hrun.
  apply bind_Ok in Hrun as (u & w1 & H1 & Hrun). apply Hb1 in H1.
  apply bind_Ok in Hrun as (v & w2 & H2 & Hrun). apply Hb2 in H2.
  apply bind_Ok in Hrun as (raw & w3 & Henc & Hrun). injection Henc as Henc <-.
  apply bind_Ok in Hrun as ([] & w4 & Hcomp & Hrun). injection Hrun as <- <-.
  rewrite <- H1, <- H2 in Hg.
  destruct (l_complete_recorded _ _ _ _ _ _ Hg Hc Hcomp) as [[rec' Hrec] _]. eauto.
Qed.

Lemma runClaimed_completes {T} (op : ClaimedMutation T) cf b1 b2 w x w' :
  let i := cl_id op in
  (forall w r w', b1 w = (r, w') -> ledger w' = ledger w) ->
  (forall w r w', b2 w = (r, w') -> ledger w' = ledger w) ->
  Ledger.Check_ (OperationID i) (IRequestHash i) (ledger w) = Ok None ->
  runClaimed op cf b1 b2 w = (Ok x, w') ->
  exists raw rec rec', Encode (cl_Codec op) x = Ok raw /\ claim_from (claim_of i) w rec /\
    Ledger.completed_as (OperationID i) (IRequestHash i) raw rec rec' (ledger w').
Proof.
  intros i Hb1 Hb2 Hnew Hrun.
  assert (runClaimed_new op cf b1 b2 w = (Ok x, w')) as Hrun'.
  { unfold runClaimed in Hrun. apply bind_Ok in Hrun as (got & w0 & Hg & Hrun).
    injection Hg as Hg <-. unfold Ledger.Check_ in Hnew. fold i in Hg. rewrite Hg in Hnew.
    destruct got as [rec|]; [|done]. by destruct (Completed rec). }
  clear Hrun. unfold runClaimed_new in Hrun'. fold i in Hrun'. cbv zeta in Hrun'.
  apply bind_Ok in Hrun' as (u & w1 & Hf & Hrun).
  assert (ledger w1 = ledger w /\ writes w1 = writes w) as [Hl1 Hw1].
  { destruct cf; [|by injection Hf as _ <-].
    destruct (cl_Fence op); [|by injection Hf as _ <-].
    split; [by eapply call_frame|by eapply call_writes]. }
  apply bind_Ok in Hrun as ([rec ex] & w2 & Hb & Hrun). rewrite <- Hl1 in Hnew.
  destruct (l_begin_claim _ _ _ _ _ Hb Hnew) as (Hinc & Hg & _ & Hfrom). simpl in Hg.
  unfold claim_from in Hfrom. rewrite Hl1, Hw1 in Hfrom. fold (claim_from (claim_of i) w rec) in Hfrom.
  rewrite Hinc in Hrun.
  assert (forall w2, Ledger.Get (OperationID i) (IRequestHash i) (ledger w2) = Ok (Some rec) ->
    bind (call (cl_Effect op)) (fun out => completeClaimed op out b1 b2) w2 = (Ok x, w') ->
    exists raw rec rec', Encode (cl_Codec op) x = Ok raw /\ claim_from (claim_of i) w rec /\
      Ledger.completed_as (OperationID i) (IRequestHash i) raw rec rec' (ledger w')) as Heff.
  { intros w3 Hg3 He. apply bind_Ok in He as (out & w4 & Hc & He).
    apply call_frame in Hc as [Hl _]. rewrite <- Hl in Hg3.
    destruct (completeClaimed_Ok _ _ _ _ _ _ _ _ Hb1 Hb2 Hg3 Hinc He) as (raw & rec' & ? & ?).
    by exists raw, rec, rec'. }
  destruct ex, (cl_Recover op) as [rcv|]; eauto.
  apply bind_Ok in Hrun as (y & w3 & Hr & Hrun). apply call_frame in Hr as [Hl2 _].
  rewrite <- Hl2 in Hg. destruct (Found y); [|eauto].
  destruct (completeClaimed_Ok _ _ _ _ _ _ _ _ Hb1 Hb2 Hg Hinc Hrun) as (raw & rec' & ? & ?).
  by exists raw, rec, rec'.
Qed.

(** A claim that was written, or found in a ledger in sync with its file, is
    durable. *)
Lemma l_begin_durable rec w r w' :
  everywhere (fun m => m = mem (ledger w)) (ledger w) ->
  l_begin rec w = (Ok r, w') ->
  everywhere (Ledger.claimed (Ledger.OperationID rec) (RequestHash rec)) (ledger w').
Proof.
  intros Hsync. unfold l_begin, with_ledger, Ledger.Begin.
  destruct (env (writes w)) as [o now]. destruct (mem (ledger w) !! _) as [old|] eqn:Hid.
  - destruct (negb _) eqn:Hh; [done|]. intros [= <- <-]. simpl. bool_to_prop.
    assert (Ledger.claimed (Ledger.OperationID rec) (RequestHash rec) (mem (ledger w)))
      by (exists old; eauto).
    destruct Hsync as (_ & Hv & Hd). unfold everywhere. by rewrite Hv, Hd.
  - rewrite Ledger.store_or_rollback_spec. destruct o; simpl; intros [= <- <-]; simpl.
    apply everywhere_const. eexists. by rewrite lookup_insert_eq.
Qed.

(** After a durable claim, a [tame] continuation keeps it. *)
Lemma tame_claimed {A} (m : M A) id h w :
  tame m -> everywhere (Ledger.claimed id h) (ledger w) ->
  everywhere (Ledger.claimed id h) (ledger (m w).2).
Proof. intros Hm. apply Ledger.steps_claimed, Hm. Qed.

(** The effects that follow a claim happen under it. *)
Lemma claim_then {A} rec (k : Record_ * bool -> M A) w r w' :
  everywhere (fun m => m = mem (ledger w)) (ledger w) ->
  (forall x, tame (k x)) ->
  bind (l_begin rec) k w = (r, w') ->
  runtime w' = runtime w \/
  everywhere (Ledger.claimed (Ledger.OperationID rec) (RequestHash rec)) (ledger w').
Proof.
  intros Hsync Hk. unfold bind. destruct (l_begin rec w) as [[x|e] w1] eqn:Hb.
  - intros Hrun. right. pose proof (tame_claimed (k x) _ _ w1 (Hk x)
      (l_begin_durable _ _ _ _ Hsync Hb)) as Hc. by rewrite Hrun in Hc.
  - intros [= <- <-]. left. unfold l_begin, with_ledger in Hb.
    destruct (env _), (Ledger.Begin _ _ _ _). by injection Hb as _ <-.
Qed.

Lemma check_claimed id h raw l :
  everywhere (fun m => m = mem l) l -> Ledger.Check_ id h l = Ok (Some raw) ->
  everywhere (Ledger.claimed id h) l.
Proof.
  unfold Ledger.Check_, Ledger.Get. intros (_ & Hv & Hd) Hc.
  destruct (mem l !! id) as [rec|] eqn:Hid; [|done]. destruct (negb _) eqn:Hh; [done|].
  bool_to_prop. assert (Ledger.claimed id h (mem l)) by (exists rec; eauto).
  unfold everywhere. by rewrite Hv, Hd.
Qed.

Lemma create_under_claim {T} (op : CreateMachine T) w r w1 :
  everywhere (fun m => m = mem (ledger w)) (ledger w) ->
  RunCreateMachine op w = (r, w1) ->
  runtime w1 = runtime w \/
  everywhere (Ledger.claimed (OperationID (cm_id op)) (IRequestHash (cm_id op))) (ledger w1).
Proof.
  intros Hsync Hrun.
  unfold RunCreateMachine in Hrun. cbv zeta in Hrun. unfold bind at 1, l_check in Hrun.
  destruct (Ledger.Check_ _ _ _) as [[raw|]|] eqn:Hc; [| |by simplify_eq; left].
  - right. pose proof (tame_claimed _ _ _ w (tame_replayCreate op raw)
      (check_claimed _ _ _ _ Hsync Hc)) as Hcl. by rewrite Hrun in Hcl.
  - unfold bind at 1, f_check in Hrun.
    destruct (Fences.Check_ _ _ _); [|by simplify_eq; left].
    refine (claim_then _ _ _ _ _ Hsync _ Hrun). intros [rec ex].
    destruct (Completed rec); [apply tame_replayCreate|].
    destruct ex, (cm_Recover op); auto using tame_effectCreate.
    apply tame_bind; [apply tame_call|]. intros x.
    destruct (Found x); auto using tame_completeCreate, tame_effectCreate.
Qed.

Lemma claimed_under_claim {T} (op : ClaimedMutation T) checkFence b1 b2 w r w1 :
  tame b1 -> tame b2 ->
  everywhere (fun m => m = mem (ledger w)) (ledger w) ->
  cl_Fence op = None ->
  runClaimed op checkFence b1 b2 w = (r, w1) ->
  runtime w1 = runtime w \/
  everywhere (Ledger.claimed (OperationID (cl_id op)) (IRequestHash (cl_id op))) (ledger w1).
Proof.
  intros Hb1 Hb2 Hsync Hfence Hrun.
  assert (forall w0, runClaimed_new op checkFence b1 b2 w = (r, w0) ->
    runtime w0 = runtime w \/ everywhere (Ledger.claimed (OperationID (cl_id op))
      (IRequestHash (cl_id op))) (ledger w0)) as Hnew.
  { intros w0 H0. unfold runClaimed_new in H0. rewrite Hfence in H0. cbv zeta in H0.
    unfold bind at 1 in H0.
    assert (exists u, (if checkFence then f_check (MachineID (cl_id op)) (Generation (cl_id op))
      else ret tt) w = (u, w)) as [u Hu] by (destruct checkFence; eauto).
    rewrite Hu in H0. destruct u as [u|e]; [|by simplify_eq; left].
    refine (claim_then _ _ _ _ _ Hsync _ H0). intros [rec ex].
    destruct (Completed rec); [apply tame_lift|].
    assert (tame (bind (call (cl_Effect op)) (fun out => completeClaimed op out b1 b2)))
      by (apply tame_bind; auto using tame_call, tame_completeClaimed).
    destruct ex, (cl_Recover op); auto.
    apply tame_bind; [apply tame_call|]. intros x.
    destruct (Found x); auto using tame_completeClaimed. }
  unfold runClaimed, bind, l_get in Hrun.
  destruct (Ledger.Get _ _ _) as [[rec|]|]; [|by apply Hnew|by simplify_eq; left].
  destruct (Completed rec); [unfold lift in Hrun; by simplify_eq; left|by apply Hnew].
Qed.

Lemma l_put_completed id m h raw w w' :
  l_put id m h raw w = (Ok tt, w') ->
  exists rec, mem (ledger w') !! id = Some rec /\ RequestHash rec = h /\ Completed rec = true.
Proof.
  unfold l_put, with_ledger. destruct (env (writes w)) as [o now].
  destruct (Ledger.Put _ _ _ _ _ _ _) as [r l] eqn:Hp. intros [= -> <-]. simpl.
  unfold Ledger.Put in Hp. destruct (mem (ledger w) !! _) as [rec|] eqn:Hid.
  - destruct (negb _) eqn:Hh; [done|]. bool_to_prop.
    destruct (Completed rec) eqn:Hcm; [injection Hp as <-; eauto|].
    rewrite Ledger.store_or_rollback_spec in Hp. destruct o; simplify_eq/=.
    eexists. rewrite lookup_insert_eq. eauto.
  - rewrite Ledger.store_or_rollback_spec in Hp. destruct o; simplify_eq/=.
    eexists. rewrite lookup_insert_eq. eauto.
Qed.

Lemma l_prune_mem m keep w r w' :
  m <> ""%string ->
  l_prune_machine_except m keep w = (r, w') ->
  mem (ledger w') = filter (fun kv => (String.eqb (Ledger.MachineID kv.2) m &&
    negb (String.eqb kv.1 keep)) = false) (mem (ledger w)).
Proof.
  intros Hne. unfold l_prune_machine_except, with_ledger. destruct (env _) as [o now].
  destruct (Ledger.PruneMachineExcept _ _ _ _) as [x l] eqn:Hp. intros [= _ <-]. simpl.
  unfold Ledger.PruneMachineExcept in Hp. destruct (String.eqb_spec m ""); [done|].
  pose proof (Ledger.prune_mem (fun id rec => String.eqb (Ledger.MachineID rec) m &&
    negb (String.eqb id keep)) o (ledger w)) as Hk. by rewrite Hp in Hk.
Qed.

(** ** Properties *)

(** C1. A create that was acknowledged is executed once, as long as its record
    is kept: after any run of other operations, failed writes, restarts, power
    failures, deletions of other machines and garbage collections whose cutoff
    is not after the time of its claim, a retry with the same operation id and
    request hash does nothing but persist the credential again, and answers
    the first response. What forgets the record is the deletion of its machine
    ([RunDeleteMachine]) and a collection at the end of the retention. *)
Theorem create_exactly_once {T} (op op' : CreateMachine T) `{!LawfulCodec (cm_Codec op)} w x w1 :
  OperationID (cm_id op') = OperationID (cm_id op) ->
  IRequestHash (cm_id op') = IRequestHash (cm_id op) ->
  cm_Codec op' = cm_Codec op ->
  Ledger.Check_ (OperationID (cm_id op)) (IRequestHash (cm_id op)) (ledger w) = Ok None ->
  RunCreateMachine op w = (Ok x, w1) ->
  exists rec,
    mem (ledger w1) !! OperationID (cm_id op) = Some rec /\
    (mem (ledger w) !! OperationID (cm_id op) = None ->
       Ledger.MachineID rec = MachineID (cm_id op) /\
       Ledger.CreatedAt rec = (env (writes w)).2) /\
    forall w2, rtc (keeps_record rec) w1 w2 ->
      RunCreateMachine op' w2 = bind (call_opt (cm_PersistCredential op')) (fun _ => ret x) w2.
Proof.
  intros Hid Hh Hcodec Hnew Hrun.
  destruct (RunCreate_completes _ _ _ _ Hnew Hrun)
    as (out & wa & wb & rec & Hg & Hc & Hfrom & _ & Hcc & Hl & _).
  destruct (completeCreate_Ok _ _ _ _ _ _ Hg Hc Hcc) as (_ & (raw & rec' & Henc & Hrec) & _).
  rewrite <- Hl in Hrec. destruct Hrec as (Hhas & Hhash & Hres & Hm & Ht).
  exists rec'. split_and!; [by destruct Hhas as [[? _] _]| |].
  - intros Hnone. unfold claim_from in Hfrom. simpl in Hfrom. rewrite Hnone in Hfrom.
    by rewrite Hm, Ht.
  - intros w2 Hsteps. destruct (keeps_record_has _ _ _ _ Hsteps Hhas) as [Hhas' _].
    apply Ledger.has_Check in Hhas' as [Hck _]. rewrite Hhash, Hres in Hck.
    unfold RunCreateMachine, bind at 1, l_check. rewrite Hid, Hh, Hck.
    unfold replayCreate. rewrite Hcodec. unfold bind, lift, ret.
    destruct (call_opt _ w2) as [[[]|] ?]; [|done]. by rewrite (decode_encode _ _ Henc).
Qed.

(** The same for every claimed mutation (pause, resume, fabric, volume and
    machine mutations, snapshot restore and fork): once acknowledged, a retry
    changes nothing at all and answers the first response. *)
Theorem claimed_exactly_once {T} (op op' : ClaimedMutation T) `{!LawfulCodec (cl_Codec op)}
    checkFence checkFence' advance cred b1' b2' w x w1 :
  OperationID (cl_id op') = OperationID (cl_id op) ->
  IRequestHash (cl_id op') = IRequestHash (cl_id op) ->
  cl_Codec op' = cl_Codec op ->
  Ledger.Check_ (OperationID (cl_id op)) (IRequestHash (cl_id op)) (ledger w) = Ok None ->
  runClaimed op checkFence (if advance : bool then advance_of (cl_id op) else ret tt)
    (call_opt cred) w = (Ok x, w1) ->
  exists rec,
    mem (ledger w1) !! OperationID (cl_id op) = Some rec /\
    forall w2, rtc (keeps_record rec) w1 w2 ->
      runClaimed op' checkFence' b1' b2' w2 = (Ok x, w2).
Proof.
  intros Hid Hh Hcodec Hnew Hrun.
  apply runClaimed_completes in Hrun
    as (raw & rec & rec' & Henc & _ & Hhas & Hhash & Hres & _); [|..|done].
  - exists rec'. split; [by destruct Hhas as [[? _] _]|]. intros w2 Hsteps.
    destruct (keeps_record_has _ _ _ _ Hsteps Hhas) as [Hhas' _].
    pose proof (proj2 Hhas') as Hc. apply Ledger.has_Check in Hhas' as [_ Hget].
    rewrite Hhash in Hget. unfold runClaimed, bind, l_get. rewrite Hid, Hh, Hget, Hc, Hres, Hcodec.
    unfold lift. by rewrite (decode_encode _ _ Henc).
  - intros ? ? ?. destruct advance; [apply f_advance_ledger|]. by intros [= _ <-].
  - intros ? ? ? H. by apply call_opt_frame in H as [? _].
Qed.

(** C13. Once a create at generation [g] is acknowledged (with the fence files in
    sync when it started), every create, claimed machine mutation, machine
    delete and copy for that machine with an older generation and no completed
    record is refused, and the refusal changes nothing: no claim is written, no
    callback runs. This holds through any runs of the protocols, deletions of
    this machine among them, failed writes, restarts and power failures, and
    through every garbage collection that finds the machine in the inventory
    of the node or its mark not older than the cutoff; a collection that finds
    neither forgets the mark. *)
Theorem superseded_refused {T} (op : CreateMachine T) w x w1 w2 :
  let m := MachineID (cm_id op) in
  everywhere (fun f => f = mem (fences w)) (fences w) ->
  Ledger.Check_ (OperationID (cm_id op)) (IRequestHash (cm_id op)) (ledger w) = Ok None ->
  RunCreateMachine op w = (Ok x, w1) ->
  rtc (keeps_mark m) w1 w2 ->
  forall i, MachineID i = m -> (Generation i < Generation (cm_id op))%Z ->
  Ledger.Check_ (OperationID i) (IRequestHash i) (ledger w2) = Ok None ->
  exists e,
    (forall T' (op' : CreateMachine T'), cm_id op' = i -> RunCreateMachine op' w2 = (Err e, w2)) /\
    (forall T' (op' : ClaimedMutation T') b1 b2, cl_id op' = i -> cl_Fence op' = None ->
       runClaimed op' true b1 b2 w2 = (Err e, w2)) /\
    (forall op', dm_id op' = i -> RunDeleteMachine op' w2 = (Err e, w2)) /\
    (forall T' (op' : Lifecycle T'), lc_id op' = i -> RunCopyTo op' w2 = (Err e, w2)).
Proof.
  intros m Hsync Hnew Hrun Hsteps i Him Hg Hold.
  destruct (RunCreate_completes _ _ _ _ Hnew Hrun)
    as (out & wa & wb & rec & Hget & Hc & _ & Hfa & Hcc & _ & Hf).
  destruct (completeCreate_Ok _ _ _ _ _ _ Hget Hc Hcc) as (_ & _ & Hat).
  rewrite Hfa in Hat. specialize (Hat Hsync). rewrite <- Hf in Hat.
  apply (keeps_mark_at_least _ _ _ _ Hsteps) in Hat as [Hat _].
  destruct (Fences.at_least_Check _ _ _ _ Hat Hg) as [e He]. exists e.
  rewrite <- Him in He.
  assert (exists got, Ledger.Get (OperationID i) (IRequestHash i) (ledger w2) = Ok got /\
    match got with Some r => Completed r = false | None => True end) as (got & Hgot & Hinc).
  { unfold Ledger.Check_ in Hold. destruct (Ledger.Get _ _ _) as [[r|]|]; [|by exists None|done].
    exists (Some r). by destruct (Completed r). }
  repeat split; intros.
  - subst i. unfold RunCreateMachine, bind, l_check, f_check. by rewrite Hold, He.
  - subst i. unfold runClaimed, runClaimed_new, bind, l_get, f_check. rewrite Hgot.
    destruct got as [r|]; [rewrite Hinc|]; by rewrite H0, He.
  - subst i. unfold RunDeleteMachine, bind, l_check, f_check. by rewrite Hold, He.
  - subst i. unfold RunCopyTo, bind, l_check, f_check. by rewrite Hold, He.
Qed.

(** With the ledger file in sync, a create or a claimed machine mutation
    has not touched the runtime unless a durable claim for its operation id
    and request hash is on disk: after a crash at any later point the retry
    finds the claim and goes through recovery. *)
Theorem effect_only_under_claim {T} (op : CreateMachine T) (op' : ClaimedMutation T)
    checkFence advance cred w :
  everywhere (fun m => m = mem (ledger w)) (ledger w) ->
  cl_Fence op' = None ->
  (forall r w1, RunCreateMachine op w = (r, w1) ->
    runtime w1 = runtime w \/
    everywhere (Ledger.claimed (OperationID (cm_id op)) (IRequestHash (cm_id op))) (ledger w1)) /\
  (forall r w1,
    runClaimed op' checkFence (if advance : bool then advance_of (cl_id op') else ret tt)
      (call_opt cred) w = (r, w1) ->
    runtime w1 = runtime w \/
    everywhere (Ledger.claimed (OperationID (cl_id op')) (IRequestHash (cl_id op'))) (ledger w1)).
Proof.
  intros Hsync Hfence. split; intros r w1 Hrun.
  - by eapply create_under_claim.
  - eapply claimed_under_claim; [| |done|done|exact Hrun]; [|apply tame_call_opt].
    destruct advance; [apply tame_advance|apply tame_ret].
Qed.

(** A machine delete that runs its effect leaves in the ledger no other
    operation of that machine and its own completed record, and the fence at
    its generation at least; a retry is answered as a replay and changes
    nothing. *)
Theorem delete_machine_forgets (op : DeleteMachine) w w1 :
  let i := dm_id op in
  MachineID i <> ""%string ->
  RunDeleteMachine op w = (Ok false, w1) ->
  (forall id rec, mem (ledger w1) !! id = Some rec ->
     Ledger.MachineID rec = MachineID i -> id = OperationID i) /\
  Fences.at_least (MachineID i) (Generation i) (mem (fences w1)) /\
  RunDeleteMachine op w1 = (Ok true, w1).
Proof.
  intros i Hne Hrun. unfold RunDeleteMachine in Hrun. fold i in Hrun. cbv zeta in Hrun.
  apply bind_Ok in Hrun as (d & wa & Hc & Hrun). injection Hc as Hd <-.
  destruct d; [done|].
  apply bind_Ok in Hrun as (u & wa & Hf & Hrun). injection Hf as _ <-.
  apply bind_Ok in Hrun as (u1 & wa & He & Hrun). apply call_frame in He as [Hl1 Hf1].
  apply bind_Ok in Hrun as (u2 & wb & Hdrop & Hrun). apply call_frame in Hdrop as [Hl2 Hf2].
  apply bind_Ok in Hrun as ([] & wc & Hput & Hrun).
  apply bind_Ok in Hrun as (u3 & wd & Hprune & Hrun).
  apply bind_Ok in Hrun as ([] & we & Hadv & Hrun). injection Hrun as <-.
  pose proof (f_advance_ledger _ _ _ _ _ _ Hadv) as Hle.
  destruct (l_put_completed _ _ _ _ _ _ Hput) as (rec & Hrec & Hh & Hcomp).
  pose proof (l_prune_mem _ _ _ _ _ Hne Hprune) as Hmem.
  assert (mem (ledger we) !! OperationID i = Some rec) as Hkept.
  { rewrite Hle, Hmem. apply map_lookup_filter_Some_2; [done|]. simpl.
    by rewrite String.eqb_refl, andb_false_r. }
  split; [|split].
  - rewrite Hle, Hmem. intros id rec' [_ Hk]%map_lookup_filter_Some Hm. simpl in Hk.
    rewrite Hm, String.eqb_refl in Hk. simpl in Hk. by bool_to_prop.
  - unfold f_advance in Hadv. destruct (env _) as [o now].
    destruct (Fences.Advance _ _ _ _ _ _) as [r f] eqn:Ha. injection Hadv as -> <-. simpl.
    by eapply Fences.Advance_ok_mem.
  - unfold RunDeleteMachine. fold i. unfold bind, l_check, Ledger.Check_, Ledger.Get.
    rewrite Hkept, Hh, String.eqb_refl. simpl. by rewrite Hcomp.
Qed.

(** A machine delete of a stale generation is refused before its effect runs,
    but unlike the other protocols it has already written its claim: the
    refusal leaves an in-progress record in the ledger. *)
Theorem stale_delete_leaves_claim (op : DeleteMutation) w e :
  let i := dl_id op in
  Fences.Check_ (MachineID i) (Generation i) (fences w) = Err e ->
  mem (ledger w) !! OperationID i = None ->
  (env (writes w)).1 = POk ->
  exists w1 rec,
    RunMachineDelete op w = (Err e, w1) /\ runtime w1 = runtime w /\ fences w1 = fences w /\
    Ledger.Get (OperationID i) (IRequestHash i) (ledger w1) = Ok (Some rec) /\
    Completed rec = false.
Proof.
  intros i Hst Hnone Henv. unfold RunMachineDelete, runDelete. fold i. cbv zeta.
  unfold bind, l_begin, with_ledger. destruct (env (writes w)) as [o now]. simpl in Henv. subst o.
  rewrite Ledger.Begin_fresh by done. unfold f_check; simpl. rewrite Hst.
  eexists. exists (Ledger.in_progress (claim_of i) now). split_and!; [done|done|done| |done].
  unfold Ledger.Get. simpl. by rewrite lookup_insert_eq; simpl; rewrite String.eqb_refl.
Qed.
End protocol.

Arguments cm_id {R T} _.
Arguments cm_Prepare {R T} _.
Arguments cm_Recover {R T} _.
Arguments cm_Effect {R T} _.
Arguments cm_PersistCredential {R T} _.
Arguments cm_Codec {R T} _.
Arguments cl_id {R T} _.
Arguments cl_Fence {R T} _.
Arguments cl_Recover {R T} _.
Arguments cl_Effect {R T} _.
Arguments cl_Codec {R T} _.
Arguments lc_id {R T} _.
Arguments lc_Recover {R T} _.
Arguments lc_Effect {R T} _.
Arguments lc_Codec {R T} _.
Arguments rp_id {R T} _.
Arguments rp_Recover {R T} _.
Arguments rp_Effect {R T} _.
Arguments rp_PersistCredential {R T} _.
Arguments rp_Codec {R T} _.

Module Witness.

(** A runtime that counts how often its effect ran, a store whose writes
    succeed, and an encoding that loses nothing. *)
Definition env (_ : nat) : outcome * Z := (POk, 100%Z).
Abbreviation W := (World (R := nat)).
Definition codec : Codec string := mkCodec string (fun s => Ok s) (fun s => Ok s).
#[local] Instance codec_lawful : LawfulCodec codec.
Proof. intros x raw. cbn. by intros [= ->]. Defined.
Definition effect (answer : string) : Callback (R := nat) string := fun n => (Ok answer, S n).

Definition ident (id : string) (g : Z) : Identity := mkIdentity id "m1" "x" g "create" "h" "".
Definition w0 : W := mkWorld (mkCell ∅ ∅ ∅) (mkCell ∅ ∅ ∅) 0%nat 0.

Definition create (id : string) (g : Z) (answer : string) : CreateMachine (R := nat) string :=
  mkCreate string (ident id g) None None (effect answer) None codec.
Definition w1 : W := (RunCreateMachine env (create "op1" 5 "first") w0).2.
(** Another operation of the machine runs, another machine is deleted, a
    collection runs with a cutoff before the claim, then the node loses power. *)
Definition mutate (id : string) (g : Z) (answer : string) : ClaimedMutation (R := nat) string :=
  mkClaimed string (ident id g) None None (effect answer) codec.
Definition delete_other : DeleteMachine (R := nat) :=
  mkDeleteMachine (mkIdentity "del2" "m2" "x" 1 "delete" "h" "") (fun n => (Ok tt, S n)) None.
Definition wa : W := (RunMachineMutation env (mutate "op2" 5 "mutated") w1).2.
Definition wb : W := (RunDeleteMachine env delete_other wa).2.
Definition wc : W := (pruneGC env 90 (Ok []) wb).2.
Definition w2 : W :=
  mkWorld (power_loss false (ledger wc)) (power_loss false (fences wc)) (runtime wc) (writes wc).

Definition create_record : Record_ :=
  mkRecord "op1" "m1" "x" 5 "create" "" "h" Ledger.StatusCompleted "first" 100 100.

Lemma w1_w2_record : rtc (keeps_record env create_record) w1 w2.
Proof.
  apply rtc_l with wa; [eexists; split; [apply agent_machine|done]|].
  apply rtc_l with wb; [eexists; split; [apply agent_delete_machine|by vm_compute]|].
  apply rtc_l with wc; [eexists; split; [apply agent_gc|by vm_compute]|].
  apply rtc_once. eexists; split; [apply agent_power_loss|done].
Qed.

Lemma w1_w2_mark : rtc (keeps_mark env "m1") w1 w2.
Proof.
  apply rtc_l with wa; [eexists; split; [apply agent_machine|done]|].
  apply rtc_l with wb; [eexists; split; [apply agent_delete_machine|done]|].
  apply rtc_l with wc.
  { eexists; split; [apply agent_gc|]. right. eexists. split; [vm_compute; reflexivity|done]. }
  apply rtc_once. eexists; split; [apply agent_power_loss|done].
Qed.

Lemma create_exactly_once_witness :
  RunCreateMachine env (create "op1" 5 "second") w2 = (Ok "first"%string, w2) /\
  runtime w2 = 3%nat.
Proof.
  split; [|vm_compute; reflexivity].
  destruct (create_exactly_once env (create "op1" 5 "first") (create "op1" 5 "second") w0 "first" w1
           eq_refl eq_refl eq_refl eq_refl eq_refl) as (rec & Hrec & _ & H).
  vm_compute in Hrec. injection Hrec as <-. exact (H w2 w1_w2_record).
Defined.

(** Once the collection is past the claim, the retry runs the effect again. *)
Example collected_runs_again :
  let w := (pruneGC env 101 (Err (errors_New "no inventory")) w1).2 in
  (RunCreateMachine env (create "op1" 5 "second") w).1 = Ok "second"%string.
Proof. vm_compute. reflexivity. Qed.

(** And once a collection finds the machine neither listed nor young, an old
    generation is let in again. *)
Example collected_mark_forgets :
  let w := (pruneGC env 101 (Ok []) w1).2 in
  (RunCreateMachine env (create "op9" 4 "stale") w).1 = Ok "stale"%string.
Proof. vm_compute. reflexivity. Qed.

Definition c1 : W := (runClaimed env (mutate "op1" 5 "first") true (ret tt) (ret tt) w0).2.

Lemma claimed_exactly_once_witness :
  runClaimed env (mutate "op1" 4 "second") true (ret tt) (ret tt) c1 = (Ok "first"%string, c1).
Proof.
  destruct (claimed_exactly_once env (mutate "op1" 5 "first") (mutate "op1" 4 "second") true true false None
           (ret tt) (ret tt) w0 "first" c1 eq_refl eq_refl eq_refl eq_refl eq_refl) as (rec & _ & H).
  exact (H c1 (rtc_refl _ _)).
Defined.

Lemma superseded_refused_witness :
  exists e,
    (forall T' (op' : CreateMachine T'), cm_id op' = ident "op9" 4 ->
       RunCreateMachine env op' w2 = (Err e, w2)) /\
    (forall T' (op' : ClaimedMutation T') b1 b2, cl_id op' = ident "op9" 4 -> cl_Fence op' = None ->
       runClaimed env op' true b1 b2 w2 = (Err e, w2)) /\
    (forall op', dm_id op' = ident "op9" 4 -> RunDeleteMachine env op' w2 = (Err e, w2)) /\
    (forall T' (op' : Lifecycle T'), lc_id op' = ident "op9" 4 -> RunCopyTo env op' w2 = (Err e, w2)).
Proof.
  apply (superseded_refused env (create "op1" 5 "first") w0 "first" w1 w2).
  - by vm_compute.
  - reflexivity.
  - reflexivity.
  - exact w1_w2_mark.
  - reflexivity.
  - reflexivity.
  - vm_compute. reflexivity.
Defined.

Lemma effect_only_under_claim_witness :
  (forall r w', RunCreateMachine env (create "op1" 5 "first") w0 = (r, w') ->
    runtime w' = runtime w0 \/ everywhere (Ledger.claimed "op1" "h") (ledger w')) /\
  (forall r w', runClaimed env (mutate "op2" 5 "first") true (ret tt) (call_opt None) w0 = (r, w') ->
    runtime w' = runtime w0 \/ everywhere (Ledger.claimed "op2" "h") (ledger w')).
Proof.
  apply (effect_only_under_claim env (create "op1" 5 "first") (mutate "op2" 5 "first") true false None w0).
  - by vm_compute.
  - reflexivity.
Defined.

Definition delete_op : DeleteMachine (R := nat) :=
  mkDeleteMachine (ident "del" 5) (fun n => (Ok tt, S n)) None.

Lemma delete_machine_forgets_witness :
  let w' := (RunDeleteMachine env delete_op w2).2 in
  (forall id rec, mem (ledger w') !! id = Some rec -> Ledger.MachineID rec = "m1"%string -> id = "del"%string) /\
  Fences.at_least "m1" 5 (mem (fences w')) /\
  RunDeleteMachine env delete_op w' = (Ok true, w').
Proof.
  intros w'. apply (delete_machine_forgets env delete_op w2 w').
  - discriminate.
  - vm_compute. reflexivity.
Defined.

Definition stale_delete : DeleteMutation (R := nat) :=
  mkDelete (ident "del" 4) None (fun n => (Ok tt, S n)).

Lemma stale_delete_leaves_claim_witness :
  exists w' rec,
    RunMachineDelete env stale_delete w2 = (Err (Fences.stale_error "m1" 5 4), w') /\
    runtime w' = runtime w2 /\ fences w' = fences w2 /\
    Ledger.Get "del" "h" (ledger w') = Ok (Some rec) /\ Completed rec = false.
Proof.
  apply (stale_delete_leaves_claim env stale_delete w2).
  - vm_compute. reflexivity.
  - vm_compute. reflexivity.
  - reflexivity.
Defined.

End Witness.
