(* ===== verification/GoFloat.v ===== *)
(** * Go's float64

    IEEE 754 binary64 by the Standard Library's [SpecFloat] (every operation
    rounds to nearest even), so that the definitions that use it compute the
    values the amd64 program computes. Proved here: comparison is a total
    preorder on the values that are not NaN, and integers below 2^53 are
    represented, compared and multiplied by powers of two exactly. *)
From S2P Require Import Prelude.
From Stdlib Require Export SpecFloat.
Local Open Scope Z_scope.

Abbreviation float64 := spec_float.
Abbreviation prec := 53%Z.
Abbreviation emax := 1024%Z.

Definition fadd : float64 -> float64 -> float64 := SFadd prec emax.
Definition fsub : float64 -> float64 -> float64 := SFsub prec emax.
Definition fmul : float64 -> float64 -> float64 := SFmul prec emax.
Definition fdiv : float64 -> float64 -> float64 := SFdiv prec emax.
(** [x < y], [x == y] and [x > y]: all false when one side is NaN. *)
Definition fltb (x y : float64) : bool := SFltb x y.
Definition feqb (x y : float64) : bool := SFeqb x y.
Definition fgtb (x y : float64) : bool := SFltb y x.
Definition fleb (x y : float64) : bool := SFleb x y.

(** [float64(n)] for an integer, and the literal [m * 2^e]. *)
Definition fof_Z (z : Z) : float64 := binary_normalize prec emax z 0 false.
Definition fbin (m e : Z) : float64 := binary_normalize prec emax m e false.
Definition fzero : float64 := S754_zero false.

Definition is_nan (f : float64) : bool := match f with S754_nan => true | _ => false end.

(** The integer part of a finite value, rounded towards plus infinity. *)
Definition ceil_Z (s : bool) (m : positive) (e : Z) : Z :=
  let v := if s then Zneg m else Zpos m in
  if 0 <=? e then v * 2 ^ e else - ((- v) / 2 ^ (- e)).

(** [math.Ceil]. *)
Definition fceil (f : float64) : float64 :=
  match f with
  | S754_finite s m e =>
      if 0 <=? e then f
      else match ceil_Z s m e with
           | 0 => S754_zero s
           | z => fof_Z z
           end
  | _ => f
  end.

(** [int(f)]: truncation to int64. Out of range the Go specification leaves
    the result open; amd64 gives the smallest int64. *)
Definition int64_min : Z := - 2 ^ 63.
Definition fto_int (f : float64) : Z :=
  match f with
  | S754_zero _ => 0
  | S754_finite s m e =>
      let a := if 0 <=? e then Zpos m * 2 ^ e else Zpos m / 2 ^ (- e) in
      let z := if s then - a else a in
      if (- 2 ^ 63 <=? z) && (z <? 2 ^ 63) then z else int64_min
  | _ => int64_min
  end.

(** ** Comparison *)

(** The position of a value in the order, compared lexicographically. *)
Definition fkey (f : float64) : Z * (Z * Z) :=
  match f with
  | S754_infinity true => (-2, (0, 0))
  | S754_finite true m e => (-1, (- e, Zneg m))
  | S754_zero _ | S754_nan => (0, (0, 0))
  | S754_finite false m e => (1, (e, Zpos m))
  | S754_infinity false => (2, (0, 0))
  end.

Definition key_lt (a b : Z * (Z * Z)) : Prop :=
  a.1 < b.1 \/ (a.1 = b.1 /\ (a.2.1 < b.2.1 \/ (a.2.1 = b.2.1 /\ a.2.2 < b.2.2))).

Lemma fltb_key x y :
  is_nan x = false -> is_nan y = false -> fltb x y = true <-> key_lt (fkey x) (fkey y).
Proof.
  intros Hx Hy. unfold fltb, SFltb, key_lt.
  destruct x as [s1|s1| |s1 m1 e1], y as [s2|s2| |s2 m2 e2]; try done;
    destruct s1, s2; simpl; try (split; intros; first [done | lia]).
  - destruct (Z.compare_spec e1 e2) as [->| |]; simpl; [|split; [done|lia]|split; [lia|done]].
    change (Pos.compare_cont Eq m1 m2) with (Pos.compare m1 m2).
    destruct (Pos.compare_spec m1 m2); simpl; split; intros; first [done | lia].
  - destruct (Z.compare_spec e1 e2) as [->| |]; simpl; [|split; [lia|done]|split; [done|lia]].
    change (Pos.compare_cont Eq m1 m2) with (Pos.compare m1 m2).
    destruct (Pos.compare_spec m1 m2); simpl; split; intros; first [done | lia].
Qed.

Lemma feqb_key x y :
  is_nan x = false -> is_nan y = false -> feqb x y = true <-> fkey x = fkey y.
Proof.
  intros Hx Hy. unfold feqb, SFeqb.
  destruct x as [s1|s1| |s1 m1 e1], y as [s2|s2| |s2 m2 e2]; try done;
    destruct s1, s2; simpl; try (split; intros; first [done | congruence]).
  - destruct (Z.compare_spec e1 e2) as [->| |]; simpl;
      [|split; [done|intros [=]; lia]..].
    change (Pos.compare_cont Eq m1 m2) with (Pos.compare m1 m2).
    destruct (Pos.compare_spec m1 m2); simpl; split; intros; simplify_eq; try done; lia.
  - destruct (Z.compare_spec e1 e2) as [->| |]; simpl;
      [|split; [done|intros [=]; lia]..].
    change (Pos.compare_cont Eq m1 m2) with (Pos.compare m1 m2).
    destruct (Pos.compare_spec m1 m2); simpl; split; intros; simplify_eq; try done; lia.
Qed.

(** ** Exact integers *)

Abbreviation digits := digits2_pos.

Lemma digits_log2 m : Zpos (digits m) = Z.log2 (Zpos m) + 1.
Proof.
  induction m as [m IH|m IH|]; [| |done]; simpl digits; rewrite Pos2Z.inj_succ, IH.
  - rewrite (Pos2Z.inj_xI m), Z.log2_succ_double by lia. lia.
  - rewrite (Pos2Z.inj_xO m), Z.log2_double by lia. lia.
Qed.

Lemma iter_pos_iter {A} (f : A -> A) n x : iter_pos f n x = Nat.iter (Pos.to_nat n) f x.
Proof.
  revert x. induction n as [n IH|n IH|]; intros x; [| |done]; cbn [iter_pos].
  - rewrite !IH, Pos2Nat.inj_xI. rewrite <- Nat.iter_add, <- Nat.iter_succ_r.
    f_equal. lia.
  - rewrite !IH, Pos2Nat.inj_xO. rewrite <- Nat.iter_add. f_equal. lia.
Qed.

(** [m * 2^k]. *)
Definition shl (m : positive) (k : nat) : positive := Nat.iter k xO m.

Lemma shl_Z m k : Zpos (shl m k) = Zpos m * 2 ^ Z.of_nat k.
Proof.
  induction k as [|k IH]; [unfold shl; simpl; lia|].
  change (shl m (S k)) with (xO (shl m k)). rewrite Pos2Z.inj_xO, IH, Nat2Z.inj_succ, Z.pow_succ_r; lia.
Qed.

Lemma shl_digits m k : Zpos (digits (shl m k)) = Zpos (digits m) + Z.of_nat k.
Proof.
  induction k as [|k IH]; [unfold shl; simpl; lia|].
  change (shl m (S k)) with (xO (shl m k)). simpl digits. lia.
Qed.

Lemma shr_1_shl m k :
  Nat.iter k shr_1 (Build_shr_record (Zpos (shl m k)) false false) =
  Build_shr_record (Zpos m) false false.
Proof.
  induction k as [|k IH]; [done|]. rewrite Nat.iter_succ_r.
  change (shl m (S k)) with (xO (shl m k)). simpl. apply IH.
Qed.

(** A 53-digit mantissa is not rounded; a longer one that ends in zeros loses
    only the zeros. *)
Lemma round_full s m e :
  Zpos (digits m) = 53 -> -1074 <= e <= 971 ->
  binary_round_aux prec emax s (Zpos m) e loc_Exact = S754_finite s m e.
Proof.
  intros Hd He.
  assert (shr_fexp prec emax (Zpos m) e loc_Exact = (Build_shr_record (Zpos m) false false, e)) as Hs.
  { unfold shr_fexp, fexp, emin. simpl Zdigits2. rewrite Hd.
    replace (Z.max (53 + e - 53) (3 - 1024 - 53) - e) with 0 by lia. done. }
  unfold binary_round_aux. rewrite Hs. simpl. rewrite Hs. simpl.
  match goal with |- context [Z.leb e ?b] => by rewrite (proj2 (Z.leb_le e b)) by lia end.
Qed.

Lemma round_shl s m k e :
  Zpos (digits m) = 53 -> -1074 <= e + Z.of_nat k <= 971 ->
  binary_round_aux prec emax s (Zpos (shl m k)) e loc_Exact = S754_finite s m (e + Z.of_nat k).
Proof.
  intros Hd He. destruct k as [|k].
  { rewrite Z.add_0_r in *. by apply round_full. }
  rewrite <- (round_full s m (e + Z.of_nat (S k)) Hd He). unfold binary_round_aux.
  assert (shr_fexp prec emax (Zpos (shl m (S k))) e loc_Exact =
          (Build_shr_record (Zpos m) false false, e + Z.of_nat (S k))) as ->.
  { unfold shr_fexp, fexp, emin. unfold Zdigits2. rewrite shl_digits, Hd.
    replace (Z.max (53 + Z.of_nat (S k) + e - 53) (3 - 1024 - 53) - e) with (Z.of_nat (S k)) by lia.
    unfold shr, shr_record_of_loc.
    change (Z.of_nat (S k)) with (Zpos (Pos.of_succ_nat k)). cbv iota beta.
    rewrite iter_pos_iter, SuccNat2Pos.id_succ, shr_1_shl. done. }
  assert (shr_fexp prec emax (Zpos m) (e + Z.of_nat (S k)) loc_Exact =
          (Build_shr_record (Zpos m) false false, e + Z.of_nat (S k))) as ->; [|done].
  unfold shr_fexp, fexp, emin. simpl Zdigits2. rewrite Hd.
  replace (Z.max (53 + (e + Z.of_nat (S k)) - 53) (3 - 1024 - 53) - (e + Z.of_nat (S k))) with 0 by lia.
  done.
Qed.

(** [m * 2^e] for an [m] of [d <= 53] digits, with the 53-digit mantissa. *)
Definition norm (m : positive) (e : Z) : float64 :=
  let k := (53 - Z.to_nat (Zpos (digits m)))%nat in S754_finite false (shl m k) (e - Z.of_nat k).

Lemma fbin_norm m e :
  Zpos (digits m) <= 53 -> -1000 <= e <= 900 -> fbin (Zpos m) e = norm m e.
Proof.
  intros Hd He. pose proof (Pos2Z.is_pos (digits m)).
  unfold fbin, binary_normalize, binary_round, shl_align, fexp, emin, norm.
  set (k := (53 - Z.to_nat (Zpos (digits m)))%nat).
  replace (Z.max (Zpos (digits m) + e - 53) (3 - 1024 - 53) - e) with (- Z.of_nat k) by lia.
  replace (Z.max (Zpos (digits m) + e - 53) (3 - 1024 - 53)) with (e - Z.of_nat k) by lia.
  assert (shl_digits_k : Zpos (digits (shl m k)) = 53) by (rewrite shl_digits; lia).
  destruct k as [|k'] eqn:Hk.
  - replace (e - Z.of_nat 0) with e in * by lia. apply round_full; lia.
  - change (- Z.of_nat (S k')) with (Zneg (Pos.of_succ_nat k')). cbv iota beta.
    replace (Pos.iter xO m (Pos.of_succ_nat k')) with (shl m (S k')).
    + apply round_full; lia.
    + unfold shl. rewrite <- (SuccNat2Pos.id_succ k'). symmetry. apply Pos2Nat.inj_iter.
Qed.

Lemma fof_Z_norm z : 0 < z < 2 ^ 53 -> exists m, z = Zpos m /\ Zpos (digits m) <= 53 /\ fof_Z z = norm m 0.
Proof.
  intros Hz. destruct z as [|m|m]; try lia. exists m. split; [done|].
  assert (Zpos (digits m) <= 53).
  { rewrite digits_log2. assert (Z.log2 (Zpos m) < 53) by (apply Z.log2_lt_pow2; lia). lia. }
  split; [done|]. apply (fbin_norm m 0); lia.
Qed.

(** [float64(a) < float64(b)] is [a < b] below 2^53. *)
Lemma fltb_of_Z a b : 0 <= a < 2 ^ 53 -> 0 <= b < 2 ^ 53 -> fltb (fof_Z a) (fof_Z b) = (a <? b).
Proof.
  intros Ha Hb.
  destruct (Z.eq_dec a 0) as [->|Ha0].
  { destruct (Z.eq_dec b 0) as [->|Hb0]; [done|].
    destruct (fof_Z_norm b) as (m & -> & _ & ->); [lia|]. done. }
  destruct (fof_Z_norm a) as (m & -> & Hm & ->); [lia|].
  destruct (Z.eq_dec b 0) as [->|Hb0]; [done|].
  destruct (fof_Z_norm b) as (n & -> & Hn & ->); [lia|].
  apply eq_true_iff_eq. rewrite fltb_key by done. rewrite Z.ltb_lt.
  unfold key_lt, norm; cbn [fkey fst snd]. rewrite !shl_Z.
  pose proof (Pos2Z.is_pos (digits m)). pose proof (Pos2Z.is_pos (digits n)).
  rewrite (digits_log2 m), (digits_log2 n) in *.
  pose proof (Z.log2_spec (Zpos m) eq_refl). pose proof (Z.log2_spec (Zpos n) eq_refl).
  set (x := Z.log2 (Zpos m)) in *. set (y := Z.log2 (Zpos n)) in *.
  assert (Hsub : forall t, 0 <= t <= 53 -> Z.of_nat (53 - Z.to_nat t) = 53 - t) by lia.
  rewrite !Hsub by lia. clear Hsub.
  destruct (Z.lt_trichotomy x y) as [Hxy|[Hxy|Hxy]].
  - assert (2 ^ Z.succ x <= 2 ^ y) by (apply Z.pow_le_mono_r; lia). lia.
  - rewrite Hxy. assert (0 < 2 ^ (53 - (y + 1))) by (apply Z.pow_pos_nonneg; lia).
    split; [|nia]. intros [?|[_ [?|[_ Hlt]]]]; [lia|lia|nia].
  - assert (2 ^ Z.succ y <= 2 ^ x) by (apply Z.pow_le_mono_r; lia). lia.
Qed.

(** Multiplication by [2^j] is exact below 2^53. *)
Lemma fmul_of_Z b j :
  0 < b -> 0 <= j <= 10 -> b * 2 ^ j < 2 ^ 53 ->
  fmul (fof_Z b) (fof_Z (2 ^ j)) = fof_Z (b * 2 ^ j).
Proof.
  intros Hb Hj Hlt. assert (1 <= 2 ^ j) by (apply Z.pow_le_mono_r with (a := 2) (b := 0); lia).
  destruct (fof_Z_norm b) as (m & -> & Hm & ->); [nia|].
  assert (fof_Z (2 ^ j) = S754_finite false (shl 1 52) (j - 52)) as ->.
  { assert (j = 0 \/ j = 1 \/ j = 2 \/ j = 3 \/ j = 4 \/ j = 5 \/ j = 6 \/ j = 7 \/ j = 8 \/ j = 9 \/ j = 10)
      as Hcase by lia.
    repeat (destruct Hcase as [-> |Hcase]; [reflexivity|]). by rewrite Hcase. }
  assert (Zpos m * 2 ^ j = Zpos (shl m (Z.to_nat j))) as Hshl by (rewrite shl_Z, Z2Nat.id; lia).
  rewrite Hshl in Hlt |- *.
  destruct (fof_Z_norm (Zpos (shl m (Z.to_nat j)))) as (n & [= <-] & Hn & ->); [lia|].
  rewrite shl_digits in Hn. pose proof (Pos2Z.is_pos (digits m)).
  unfold fmul, norm, SFmul; cbn [xorb].
  replace (shl m (53 - Z.to_nat (Zpos (digits m))) * shl 1 52)%positive
    with (shl (shl m (53 - Z.to_nat (Zpos (digits m)))) 52).
  - rewrite round_shl; [|rewrite shl_digits; lia|lia]. f_equal.
    + rewrite shl_digits. unfold shl. rewrite <- Nat.iter_add. f_equal. lia.
    + rewrite shl_digits. lia.
  - apply Pos2Z.inj. rewrite Pos2Z.inj_mul, !shl_Z. lia.
Qed.

(** The admission test [float64(used) > float64(total) * 2^j]. *)
Lemma fgtb_of_Z_mul used total j :
  0 <= used < 2 ^ 53 -> 0 < total -> 0 <= j <= 10 -> total * 2 ^ j < 2 ^ 53 ->
  fgtb (fof_Z used) (fmul (fof_Z total) (fof_Z (2 ^ j))) = (total * 2 ^ j <? used).
Proof.
  intros Hu Ht Hj Hlt. unfold fgtb. rewrite fmul_of_Z by lia.
  change SFltb with fltb. apply fltb_of_Z; nia.
Qed.

(** ** Rounding up *)

(** [int(float64(z))] is [z] below 2^53. *)
Lemma fto_int_of_Z z : 0 <= z < 2 ^ 53 -> fto_int (fof_Z z) = z.
Proof.
  intros Hz. destruct (Z.eq_dec z 0) as [->|Hz0]; [done|].
  destruct (fof_Z_norm z) as (m & -> & Hm & ->); [lia|].
  unfold norm, fto_int. pose proof (Pos2Z.is_pos (digits m)).
  set (k := (53 - Z.to_nat (Zpos (digits m)))%nat).
  assert ((if 0 <=? 0 - Z.of_nat k then Zpos (shl m k) * 2 ^ (0 - Z.of_nat k)
           else Zpos (shl m k) / 2 ^ (- (0 - Z.of_nat k))) = Zpos m) as ->.
  { rewrite shl_Z. destruct (Z.leb_spec 0 (0 - Z.of_nat k)).
    - replace (Z.of_nat k) with 0 by lia. lia.
    - replace (- (0 - Z.of_nat k)) with (Z.of_nat k) by lia.
      apply Z.div_mul. apply Z.pow_nonzero; lia. }
  rewrite (proj2 (Z.leb_le (- 2 ^ 63) (Zpos m))), (proj2 (Z.ltb_lt (Zpos m) (2 ^ 63))) by lia. done.
Qed.

(** [m * 2^e <= n], exactly. *)
Definition finite_le_Z (m : positive) (e n : Z) : Prop :=
  if 0 <=? e then Zpos m * 2 ^ e <= n else Zpos m <= n * 2 ^ (- e).

Lemma ceil_Z_spec m e n : ceil_Z false m e <= n <-> finite_le_Z m e n.
Proof.
  unfold ceil_Z, finite_le_Z. destruct (Z.leb_spec 0 e) as [He|He]; [done|].
  assert (0 < 2 ^ (- e)) as Hp by (apply Z.pow_pos_nonneg; lia).
  pose proof (Z.div_mod (- Zpos m) (2 ^ (- e))) as Hdm.
  pose proof (Z.mod_pos_bound (- Zpos m) (2 ^ (- e)) Hp).
  set (q := - Zpos m / 2 ^ (- e)) in *. set (r := (- Zpos m) mod 2 ^ (- e)) in *.
  set (t := 2 ^ (- e)) in *. nia.
Qed.

(** [int(math.Ceil(f))] is the least integer not below a finite [f > 0] that
    fits in an int64. *)
Lemma fto_int_ceil m e n :
  Zpos (digits m) <= 53 -> finite_le_Z m e (2 ^ 62) ->
  (fto_int (fceil (S754_finite false m e)) <= n <-> finite_le_Z m e n).
Proof.
  intros Hd Hmax. rewrite <- ceil_Z_spec in *.
  enough (fto_int (fceil (S754_finite false m e)) = ceil_Z false m e) as -> by done.
  assert (0 <= ceil_Z false m e) as Hpos.
  { apply Z.le_trans with 1; [lia|]. apply Z.nlt_ge. intros Hlt.
    assert (ceil_Z false m e <= 0) as H0 by lia. rewrite ceil_Z_spec in H0.
    unfold finite_le_Z in H0. destruct (Z.leb_spec 0 e); [|lia].
    assert (0 < 2 ^ e) by (apply Z.pow_pos_nonneg; lia). nia. }
  unfold fceil. destruct (Z.leb_spec 0 e) as [He|He].
  - unfold ceil_Z in *. rewrite (proj2 (Z.leb_le 0 e) He) in *. unfold fto_int.
    rewrite (proj2 (Z.leb_le 0 e) He).
    rewrite (proj2 (Z.leb_le (- 2 ^ 63) (Zpos m * 2 ^ e))),
      (proj2 (Z.ltb_lt (Zpos m * 2 ^ e) (2 ^ 63))) by lia. done.
  - assert (ceil_Z false m e < 2 ^ 53) as Hlt.
    { apply Z.le_lt_trans with (Zpos m).
      - apply ceil_Z_spec. unfold finite_le_Z. rewrite (proj2 (Z.leb_gt 0 e) He).
        assert (1 <= 2 ^ (- e)) by (apply Z.pow_le_mono_r with (a := 2) (b := 0); lia). nia.
      - rewrite digits_log2 in Hd. apply Z.log2_lt_pow2; lia. }
    destruct (ceil_Z false m e) as [|z|z] eqn:Hz; [done| |lia]. by apply fto_int_of_Z.
Qed.
