(* ===== verification/GoString.v ===== *)
(** * Go strings

    A Go string is its bytes; the functions of package [strings] and of
    [strconv] the program uses, on [String.string]. *)
From S2P Require Import Prelude.
From Stdlib Require Import Ascii.
Local Open Scope string_scope.

(** Byte values. *)
Definition byte_of (c : ascii) : Z := Z.of_nat (nat_of_ascii c).
Definition in_range (lo hi c : ascii) : bool := Z.leb (byte_of lo) (byte_of c) && Z.leb (byte_of c) (byte_of hi).

(** [s[n:]] and [s[:n]]. *)
Fixpoint sdrop (n : nat) (s : string) : string :=
  match n, s with
  | O, _ => s
  | S n', String _ s' => sdrop n' s'
  | S _, EmptyString => EmptyString
  end.
Fixpoint stake (n : nat) (s : string) : string :=
  match n, s with
  | O, _ => EmptyString
  | S n', String c s' => String c (stake n' s')
  | S _, EmptyString => EmptyString
  end.

(** [strings.HasPrefix], [strings.TrimPrefix]. *)
Definition has_prefix (s p : string) : bool := String.prefix p s.
Definition trim_prefix (s p : string) : string :=
  if has_prefix s p then sdrop (String.length p) s else s.

(** [strings.HasSuffix], [strings.TrimSuffix]. *)
Definition has_suffix (s suf : string) : bool :=
  Nat.leb (String.length suf) (String.length s) &&
  String.eqb (sdrop (String.length s - String.length suf) s) suf.
Definition trim_suffix (s suf : string) : string :=
  if has_suffix s suf then stake (String.length s - String.length suf) s else s.

(** [strings.IndexByte] and [strings.LastIndexByte]: [None] is -1. *)
Fixpoint index_byte (s : string) (c : ascii) : option nat :=
  match s with
  | EmptyString => None
  | String d s' => if Ascii.eqb c d then Some O else S <$> index_byte s' c
  end.
Fixpoint last_index_byte (s : string) (c : ascii) : option nat :=
  match s with
  | EmptyString => None
  | String d s' =>
      match last_index_byte s' c with
      | Some i => Some (S i)
      | None => if Ascii.eqb c d then Some O else None
      end
  end.

Fixpoint count_byte (s : string) (c : ascii) : nat :=
  match s with
  | EmptyString => O
  | String d s' => ((if Ascii.eqb c d then 1 else 0) + count_byte s' c)%nat
  end.

Definition contains_byte (s : string) (c : ascii) : bool :=
  match index_byte s c with Some _ => true | None => false end.

(** [strings.ContainsAny], for ASCII characters. *)
Fixpoint contains_any (s chars : string) : bool :=
  match s with
  | EmptyString => false
  | String d s' => contains_byte chars d || contains_any s' chars
  end.

(** [strings.Index] for a non-empty separator. *)
Fixpoint index (s sub : string) : option nat :=
  if has_prefix s sub then Some O
  else match s with
       | EmptyString => None
       | String _ s' => S <$> index s' sub
       end.

(** [strings.Split(s, c)] for a one-byte separator: never empty. *)
Fixpoint split_byte (c : ascii) (s : string) : list string :=
  match s with
  | EmptyString => [""]
  | String d s' =>
      if Ascii.eqb d c then "" :: split_byte c s'
      else match split_byte c s' with
           | [] => [String d ""]
           | w :: ws => String d w :: ws
           end
  end.

(** [strings.Join]. *)
Fixpoint join (sep : string) (l : list string) : string :=
  match l with
  | [] => ""
  | [w] => w
  | w :: ws => w ++ sep ++ join sep ws
  end.

Fixpoint smap (f : ascii -> ascii) (s : string) : string :=
  match s with EmptyString => EmptyString | String c s' => String (f c) (smap f s') end.
Fixpoint sforall (p : ascii -> bool) (s : string) : bool :=
  match s with EmptyString => true | String c s' => p c && sforall p s' end.

(** [strings.ToLower]. Above ASCII it needs the Unicode tables, which stay a
    parameter. *)
Definition is_ascii (c : ascii) : bool := Z.ltb (byte_of c) 128.
Definition lower_byte (c : ascii) : ascii :=
  if in_range "A" "Z" c then ascii_of_nat (nat_of_ascii c + 32) else c.
Definition to_lower (unicode_lower : string -> string) (s : string) : string :=
  if sforall is_ascii s then smap lower_byte s else unicode_lower s.

(** The UTF-8 encodings of the characters [strings.TrimSpace] removes. *)
Definition bytes (l : list nat) : string := foldr (fun n s => String (ascii_of_nat n) s) "" l.
Definition spaces : list string :=
  map bytes ([[9]; [10]; [11]; [12]; [13]; [32]; [194; 133]; [194; 160]; [225; 154; 128]] ++
             map (fun n => [226; 128; n]) (seq 128 11) ++
             [[226; 128; 168]; [226; 128; 169]; [226; 128; 175]; [226; 129; 159]; [227; 128; 128]]).

(** Drops the encoded spaces at the front; [fuel] is the length of the string. *)
Fixpoint trim_left_fuel (fuel : nat) (s : string) : string :=
  match fuel with
  | O => s
  | S fuel' =>
      match List.find (has_prefix s) spaces with
      | Some w => trim_left_fuel fuel' (sdrop (String.length w) s)
      | None => s
      end
  end.
Fixpoint trim_right_fuel (fuel : nat) (s : string) : string :=
  match fuel with
  | O => s
  | S fuel' =>
      match List.find (has_suffix s) spaces with
      | Some w => trim_right_fuel fuel' (trim_suffix s w)
      | None => s
      end
  end.
(** [strings.TrimSpace]. *)
Definition trim_space (s : string) : string :=
  let l := trim_left_fuel (String.length s) s in trim_right_fuel (String.length l) l.

(** The first rune of a non-empty string ([utf8.DecodeRuneInString]); U+FFFD for
    an invalid encoding. *)
Definition decode_rune (s : string) : Z :=
  let cont lo hi (b : Z) := Z.leb lo b && Z.leb b hi in
  let low (b : Z) := Z.land b 63 in
  match map byte_of (String.list_ascii_of_string (stake 4 s)) with
  | [] => 65533
  | b0 :: rest =>
      if Z.ltb b0 128 then b0
      else if Z.leb 194 b0 && Z.leb b0 223 then
        match rest with
        | b1 :: _ => if cont 128%Z 191%Z b1 then Z.land b0 31 * 64 + low b1 else 65533
        | _ => 65533
        end
      else if Z.leb 224 b0 && Z.leb b0 239 then
        match rest with
        | b1 :: b2 :: _ =>
            if cont (if Z.eqb b0 224 then 160%Z else 128%Z) (if Z.eqb b0 237 then 159%Z else 191%Z) b1 &&
               cont 128%Z 191%Z b2
            then (Z.land b0 15 * 64 + low b1) * 64 + low b2 else 65533
        | _ => 65533
        end
      else if Z.leb 240 b0 && Z.leb b0 244 then
        match rest with
        | b1 :: b2 :: b3 :: _ =>
            if cont (if Z.eqb b0 240 then 144%Z else 128%Z) (if Z.eqb b0 244 then 143%Z else 191%Z) b1 &&
               cont 128%Z 191%Z b2 && cont 128%Z 191%Z b3
            then ((Z.land b0 7 * 64 + low b1) * 64 + low b2) * 64 + low b3 else 65533
        | _ => 65533
        end
      else 65533
  end%Z.

(** [path.Clean]: the path without empty, [.] and resolvable [..] elements. *)
Definition clean_step (rooted : bool) (acc : list string) (seg : string) : list string :=
  if String.eqb seg "" || String.eqb seg "." then acc
  else if String.eqb seg ".." then
    match acc with
    | [] => if rooted then [] else [".."]
    | top :: acc' => if String.eqb top ".." then ".." :: acc else acc'
    end
  else seg :: acc.
Definition path_clean (p : string) : string :=
  if String.eqb p "" then "."
  else
    let rooted := has_prefix p "/" in
    let body := join "/" (reverse (fold_left (clean_step rooted) (split_byte "/" p) [])) in
    if rooted then "/" ++ body else if String.eqb body "" then "." else body.

(** [errors.Is]: the error itself or one it wraps with [%w]. *)
Fixpoint goerr_eqb (a b : goerr) : bool :=
  match a, b with
  | Errorf f xs, Errorf g ys => String.eqb f g &&
      (fix args (xs ys : list fmtarg) : bool :=
         match xs, ys with
         | [], [] => true
         | x :: xs', y :: ys' => fmtarg_eqb x y && args xs' ys'
         | _, _ => false
         end) xs ys
  end
with fmtarg_eqb (a b : fmtarg) : bool :=
  match a, b with
  | AStr s, AStr t => String.eqb s t
  | AInt m, AInt n => Z.eqb m n
  | AErr e, AErr e' => goerr_eqb e e'
  | _, _ => false
  end.

Fixpoint errors_Is (e target : goerr) : bool :=
  goerr_eqb e target ||
  match e with
  | Errorf f args =>
      match index f "%w" with
      | Some _ => (fix any (args : list fmtarg) : bool :=
                     match args with
                     | [] => false
                     | AErr e' :: args' => errors_Is e' target || any args'
                     | _ :: args' => any args'
                     end) args
      | None => false
      end
  end.

(** [%d]. *)
Definition itoa (z : Z) : string := pretty z.

(** Decimal digits. *)
Definition is_digit (c : ascii) : bool := in_range "0" "9" c.
Definition digit_val (c : ascii) : Z := byte_of c - byte_of "0".

(** ** Lemmas *)

(** stdpp does not let [simpl] unfold the append of strings. *)
Lemma append_cons c s t : String c s ++ t = String c (s ++ t).
Proof. done. Qed.
Lemma append_nil t : "" ++ t = t.
Proof. done. Qed.

Lemma sdrop_app p s : sdrop (String.length p) (p ++ s) = s.
Proof. induction p; simpl; [by destruct s|done]. Qed.

Lemma stake_sdrop n s : stake n s ++ sdrop n s = s.
Proof. revert s. induction n as [|n IH]; intros [|c s]; simpl; try done. by rewrite append_cons, IH. Qed.

Lemma split_byte_nonempty c s : split_byte c s <> [].
Proof. destruct s as [|d s]; simpl; [done|]. destruct (Ascii.eqb d c); [done|]. by destruct (split_byte c s). Qed.

(** Joining the segments of a split gives the string back. *)
Lemma join_split c s : join (String c "") (split_byte c s) = s.
Proof.
  induction s as [|d s IH]; [done|]. simpl. pose proof (split_byte_nonempty c s).
  destruct (Ascii.eqb_spec d c) as [->|].
  - destruct (split_byte c s) as [|w ws] eqn:E; [done|]. rewrite <- IH. done.
  - destruct (split_byte c s) as [|w ws] eqn:E; [done|]. rewrite <- IH. by destruct ws.
Qed.

Lemma sforall_impl (p q : ascii -> bool) s :
  (forall c, p c = true -> q c = true) -> sforall p s = true -> sforall q s = true.
Proof.
  intros Hpq. induction s as [|c s IH]; simpl; [done|].
  intros [Hc Hs]%andb_true_iff. by rewrite Hpq, IH.
Qed.

Lemma sforall_app p s t : sforall p (s ++ t) = sforall p s && sforall p t.
Proof. induction s; [done|]. rewrite append_cons. simpl. by rewrite IHs, andb_assoc. Qed.

Lemma has_prefix_true s p : has_prefix s p = true <-> exists t, s = p ++ t.
Proof.
  unfold has_prefix. revert s. induction p as [|c p IH]; intros s.
  - split; [by exists s|by intros _; destruct s].
  - destruct s as [|d s].
    + split; [done|]. intros [t Ht]. by rewrite append_cons in Ht.
    + setoid_rewrite append_cons. simpl. destruct (ascii_dec c d) as [->|Hne].
      * rewrite IH. split; intros [t Ht]; exists t; congruence.
      * split; [done|]. intros [t Ht]. congruence.
Qed.

Lemma string_app_length s t : String.length (s ++ t) = (String.length s + String.length t)%nat.
Proof. induction s; [done|]. rewrite append_cons. simpl. by rewrite IHs. Qed.

Lemma has_suffix_app s t : has_suffix (s ++ t) t = true.
Proof.
  unfold has_suffix. rewrite string_app_length.
  replace (String.length s + String.length t - String.length t)%nat with (String.length s) by lia.
  rewrite sdrop_app, String.eqb_refl, andb_true_r. apply Nat.leb_le. lia.
Qed.

Lemma has_suffix_true s t : has_suffix s t = true <-> exists u, s = u ++ t.
Proof.
  split; [|intros [u ->]; apply has_suffix_app]. unfold has_suffix.
  intros [_ H]%andb_true_iff. apply String.eqb_eq in H.
  exists (stake (String.length s - String.length t) s). rewrite <- H at 2. by rewrite stake_sdrop.
Qed.

Lemma stake_app s t : stake (String.length s) (s ++ t) = s.
Proof. induction s; [by destruct t|]. rewrite append_cons. simpl. by rewrite IHs. Qed.

Lemma trim_suffix_app s t : trim_suffix (s ++ t) t = s.
Proof.
  unfold trim_suffix. rewrite has_suffix_app, string_app_length.
  replace (String.length s + String.length t - String.length t)%nat with (String.length s) by lia.
  apply stake_app.
Qed.

Lemma contains_byte_app s t c : contains_byte (s ++ t) c = contains_byte s c || contains_byte t c.
Proof.
  unfold contains_byte. induction s as [|d s IH]; [done|]. rewrite append_cons. simpl.
  destruct (Ascii.eqb c d); [done|]. destruct (index_byte (s ++ t) c), (index_byte s c); done.
Qed.

(** The byte order of Go strings is a strict total order. *)
Lemma compare_lt_trans s t u :
  String.compare s t = Lt -> String.compare t u = Lt -> String.compare s u = Lt.
Proof.
  revert t u. induction s as [|c s IH]; intros [|d t] [|e u]; simpl; try done.
  destruct (Ascii.compare c d) eqn:Hcd, (Ascii.compare d e) eqn:Hde; try done; intros H1 H2.
  - apply Ascii.compare_eq_iff in Hcd as ->. rewrite Hde. by eapply IH.
  - apply Ascii.compare_eq_iff in Hcd as ->. by rewrite Hde.
  - apply Ascii.compare_eq_iff in Hde as <-. by rewrite Hcd.
  - unfold Ascii.compare in *. apply N.compare_lt_iff in Hcd, Hde.
    assert ((N_of_ascii c < N_of_ascii e)%N) as Hce by (by etrans).
    apply N.compare_lt_iff in Hce. by rewrite Hce.
Qed.

Lemma ltb_compare s t : String.ltb s t = true <-> String.compare s t = Lt.
Proof. unfold String.ltb. by destruct (String.compare s t). Qed.

Lemma ltb_trans s t u : String.ltb s t = true -> String.ltb t u = true -> String.ltb s u = true.
Proof. rewrite !ltb_compare. apply compare_lt_trans. Qed.

Lemma ltb_irrefl s : String.ltb s s = false.
Proof.
  destruct (String.ltb s s) eqn:H; [|done]. apply ltb_compare in H.
  pose proof (String.compare_antisym s s) as Ha. by rewrite H in Ha.
Qed.

Lemma ltb_total s t : String.ltb s t = false -> String.ltb t s = false -> s = t.
Proof.
  unfold String.ltb. rewrite (String.compare_antisym t s).
  destruct (String.compare s t) eqn:H; try done. intros _ _. by apply String.compare_eq_iff.
Qed.

Lemma ltb_asym s t : String.ltb s t = true -> String.ltb t s = false.
Proof.
  intros H. destruct (String.ltb t s) eqn:H'; [|done].
  pose proof (ltb_trans _ _ _ H H') as Hc. by rewrite ltb_irrefl in Hc.
Qed.

(** A check of every byte value, by computation. *)
Lemma all_bytes (p : ascii -> bool) :
  forallb (fun n => p (ascii_of_nat n)) (seq 0 256) = true -> forall c, p c = true.
Proof.
  intros H c. rewrite forallb_forall in H. rewrite <- (ascii_nat_embedding c).
  apply H, list_elem_of_In, elem_of_seq. pose proof (nat_ascii_bounded c). lia.
Qed.

Lemma implb_true a b : implb a b = true -> a = true -> b = true.
Proof. by destruct a, b. Qed.

(** [TrimSpace] leaves alone a string whose bytes do not make up a space. *)
Lemma find_spaces_none (p : ascii -> bool) (q : string -> bool) s :
  forallb (fun w => negb (sforall p w)) spaces = true -> sforall p s = true ->
  (forall w, q w = true -> sforall p s = true -> sforall p w = true) ->
  List.find q spaces = None.
Proof.
  intros H Hs Hq. destruct (List.find q spaces) as [w|] eqn:E; [|done].
  apply find_some in E as [Hin Hw]. rewrite forallb_forall in H. specialize (H w Hin).
  by rewrite (Hq w Hw Hs) in H.
Qed.

Lemma trim_space_plain (p : ascii -> bool) s :
  forallb (fun w => negb (sforall p w)) spaces = true -> sforall p s = true -> trim_space s = s.
Proof.
  intros Hp Hs. unfold trim_space.
  assert (forall n, trim_left_fuel n s = s) as Hl.
  { intros [|n]; [done|]. cbn [trim_left_fuel]. rewrite (find_spaces_none p _ s Hp Hs); [done|].
    intros w [t ->]%has_prefix_true. rewrite sforall_app. by intros [? _]%andb_true_iff. }
  rewrite Hl. destruct (String.length s) as [|n]; [done|]. cbn [trim_right_fuel].
  rewrite (find_spaces_none p _ s Hp Hs); [done|].
  intros w [t ->]%has_suffix_true. rewrite sforall_app. by intros [_ ?]%andb_true_iff.
Qed.

(** A join of separator-free words splits into them. *)
Lemma split_byte_app c w s :
  contains_byte w c = false -> split_byte c (w ++ String c s) = w :: split_byte c s.
Proof.
  induction w as [|d w IH].
  - intros _. rewrite append_nil. simpl. by rewrite Ascii.eqb_refl.
  - rewrite append_cons. unfold contains_byte. cbn [index_byte split_byte]. rewrite Ascii.eqb_sym.
    destruct (Ascii.eqb d c); [done|]. intros H. rewrite IH; [done|].
    unfold contains_byte. by destruct (index_byte w c).
Qed.

Lemma split_byte_single c w : contains_byte w c = false -> split_byte c w = [w].
Proof.
  unfold contains_byte. induction w as [|d w IH]; [done|]. cbn [index_byte split_byte].
  rewrite Ascii.eqb_sym. destruct (Ascii.eqb d c); [done|]. intros H. rewrite IH; [done|].
  by destruct (index_byte w c).
Qed.

Lemma last_index_byte_app s t c :
  contains_byte t c = false -> last_index_byte (s ++ String c t) c = Some (String.length s).
Proof.
  intros Ht. assert (Hn : last_index_byte t c = None).
  { revert Ht. unfold contains_byte. induction t as [|d t IH]; [done|]. cbn [index_byte last_index_byte].
    destruct (Ascii.eqb c d); [done|]. intros H. rewrite IH; [done|]. by destruct (index_byte t c). }
  induction s as [|d s IH].
  - rewrite append_nil. cbn [last_index_byte]. by rewrite Hn, Ascii.eqb_refl.
  - rewrite append_cons. cbn [last_index_byte String.length]. by rewrite IH.
Qed.

#[export] Hint Rewrite join_split sdrop_app trim_suffix_app : firepaas.

(** ** Sorting by a name *)

Lemma orders_name {A} (key : A -> string) l : orders (fun a b => String.ltb (key a) (key b)) l.
Proof.
  split.
  - intros a b _ _. apply ltb_asym.
  - intros a b c _ _ _ Hab Hbc. destruct (String.ltb (key c) (key a)) eqn:Hca; [|done].
    destruct (String.ltb (key a) (key b)) eqn:H.
    + by rewrite (ltb_trans _ _ _ Hca H) in Hbc.
    + by rewrite <- (ltb_total _ _ H Hab), Hca in Hbc.
Qed.

(** A number first, then a name. *)
Lemma orders_stamp {A} (stamp : A -> Z) (key : A -> string) l :
  orders (fun a b => (stamp a <? stamp b)%Z || ((stamp a =? stamp b)%Z && String.ltb (key a) (key b))) l.
Proof.
  destruct (orders_name key l) as [Ha Ht]. split.
  - intros a b Hia Hib H. apply orb_true_iff in H as [H|H].
    + apply Z.ltb_lt in H. apply orb_false_iff. split; [apply Z.ltb_ge; lia|].
      apply andb_false_iff. left. apply Z.eqb_neq. lia.
    + apply andb_true_iff in H as [H1%Z.eqb_eq H2]. apply orb_false_iff. split; [apply Z.ltb_ge; lia|].
      apply andb_false_iff. right. by apply Ha.
  - intros a b c Hia Hib Hic [H1%Z.ltb_ge H2]%orb_false_iff [H3%Z.ltb_ge H4]%orb_false_iff.
    apply orb_false_iff. split; [apply Z.ltb_ge; lia|]. apply andb_false_iff.
    destruct (Z.eqb_spec (stamp c) (stamp a)) as [He|]; [|by left]. right.
    apply andb_false_iff in H2 as [H2%Z.eqb_neq|H2]; [lia|]. apply andb_false_iff in H4 as [H4%Z.eqb_neq|H4]; [lia|].
    by apply (Ht a b c).
Qed.

(** Names that do not repeat: the result does not depend on the order the
    elements came in. *)
Lemma sort_by_name {A} (key : A -> string) l1 l2 :
  NoDup (map key l1) -> l1 ≡ₚ l2 ->
  sort_by (fun a b => String.ltb (key a) (key b)) l1 = sort_by (fun a b => String.ltb (key a) (key b)) l2.
Proof.
  intros Hnd Hp. apply (sorted_unique (fun a b => String.ltb (key a) (key b))).
  - intros a b Ha Hb H1 H2. rewrite elem_of_sort_by in Ha, Hb.
    pose proof (ltb_total _ _ H1 H2) as Hk.
    apply list_elem_of_lookup in Ha as [i Hi], Hb as [j Hj].
    assert (i = j) as ->; [|congruence].
    eapply NoDup_lookup; [exact Hnd| |].
    + by rewrite list_lookup_fmap, Hi.
    + by rewrite list_lookup_fmap, Hj, Hk.
  - apply sort_by_sorted, orders_name.
  - apply sort_by_sorted, orders_name.
  - by rewrite !sort_by_Permutation.
Qed.

#[export] Instance append_assoc : Assoc (=) String.append.
Proof. intros a b c. induction a as [|x a IH]; [done|]. rewrite !append_cons. by rewrite IH. Qed.
