(* ===== verification/Scheduler.v ===== *)
(** * Best-of-K placement (internal/scheduler/placement.go)

    Filters first, then a random sample of K candidates, then the lowest
    score. Scores are the IEEE doubles the code computes; [uint64] sums wrap. *)
From S2P Require Import Prelude GoFloat GoString.
Local Open Scope Z_scope.

Definition StatusUnknown : string := "UNKNOWN".
Definition StatusHealthy : string := "HEALTHY".
Definition StatusDraining : string := "DRAINING".
Definition StatusUnhealthy : string := "UNHEALTHY".

Record BestOfKConfig := mkConfig {
  R : float64; MemR : float64; DiskR : float64; K : Z; Alpha : float64;
  WeightCPU : float64; WeightMem : float64; WeightImage : float64;
  WeightBandwidth : float64; WeightRack : float64; WeightZone : float64 }.

Definition f_half : float64 := fbin 1 (-1).
Definition f_quarter : float64 := fbin 1 (-2).

Definition DefaultBestOfKConfig : BestOfKConfig :=
  mkConfig (fof_Z 4) (fof_Z 1) (fof_Z 1) 3 f_half f_half f_half f_half
    f_quarter f_quarter f_quarter.

(** Options; of [ScoreHook] only its presence matters: the calls it gets are
    part of the result of [Place]. *)
Record Options := mkOptions { ScoreHook : bool; ImageAffinityDisabled : bool }.

(** A Go map read: a missing key is the zero value, nil reads as empty. *)
Definition get_bool (m : gmap string bool) (k : string) : bool := default false (m !! k).
Definition get_str (m : gmap string string) (k : string) : string := default "" (m !! k).

Record Node := mkNode {
  ID : string; Pool : string; Labels : gmap string string; Status : string; Draining : bool;
  CPUTotal : Z; MemTotalMib : Z;
  CPUAllocated : Z; MemAllocated : Z; CPUPending : Z; MemPending : Z;
  CPUPercent : float64; MemUsedMib : Z;
  DiskTotalMib : Z; DiskAllocated : Z; DiskPending : Z;
  CachedImageDigests : gmap string bool; FeatureIDs : gmap string bool;
  BandwidthMbps : Z; Rack : string; Zone : string }.

Record Request := mkRequest {
  VCPU : Z; MemMib : Z; DiskMib : Z;
  DeploymentID : string; RPool : string; RLabels : gmap string string;
  AntiAffinity : bool; ExistingDeploymentNodes : gmap string bool;
  ExcludedNodes : gmap string bool; ImageDigest : string; RBandwidthMbps : Z;
  ExistingDeploymentRacks : gmap string bool; ExistingDeploymentZones : gmap string bool;
  RequiredFeatures : list string; RequiredNodeID : string; PinnedNodeID : string }.

Record Event := mkEvent { EKind : string; ENodeID : string; EReason : string }.
Record Placement := mkPlacement { PNodeID : string; PScore : float64; PEvents : list Event }.
Record Placer := mkPlacer { cfg : BestOfKConfig; opts : Options }.

(** New: zero fields get their default; a negative bandwidth or topology weight
    means explicitly off. *)
Definition New (c : BestOfKConfig) (o : Options) : Placer :=
  let d := DefaultBestOfKConfig in
  let or_default (x dflt : float64) := if feqb x fzero then dflt else x in
  let signed (x dflt : float64) :=
    if fltb x fzero then fzero else if feqb x fzero then dflt else x in
  let both_zero := feqb (WeightCPU c) fzero && feqb (WeightMem c) fzero in
  mkPlacer
    (mkConfig (or_default (R c) (R d)) (or_default (MemR c) (MemR d))
       (or_default (DiskR c) (DiskR d)) (if K c =? 0 then K d else K c)
       (or_default (Alpha c) (Alpha d))
       (if both_zero then f_half else WeightCPU c)
       (if both_zero then f_half else WeightMem c)
       (if feqb (WeightImage c) fzero && negb (ImageAffinityDisabled o)
        then WeightImage d else WeightImage c)
       (signed (WeightBandwidth c) (WeightBandwidth d))
       (signed (WeightRack c) (WeightRack d))
       (signed (WeightZone c) (WeightZone d)))
    o.

(** canFit: allocated + pending + requested against R times the capacity. *)
Definition canFit (n : Node) (req : Request) (c : BestOfKConfig) : bool :=
  if (CPUTotal n =? 0) || (MemTotalMib n =? 0) then false
  else if fgtb (fof_Z (u64 (CPUAllocated n + CPUPending n + VCPU req)))
               (fmul (fof_Z (CPUTotal n)) (R c)) then false
  else if fgtb (fof_Z (u64 (MemAllocated n + MemPending n + MemMib req)))
               (fmul (fof_Z (MemTotalMib n)) (MemR c)) then false
  else if (0 <? DiskTotalMib n) &&
          fgtb (fof_Z (u64 (DiskAllocated n + DiskPending n + DiskMib req)))
               (fmul (fof_Z (DiskTotalMib n)) (DiskR c)) then false
  else true.

(** bandwidthExceeded: only when both the demand and the capacity are known. *)
Definition bandwidthExceeded (n : Node) (req : Request) : bool :=
  (0 <? RBandwidthMbps req) && (0 <? BandwidthMbps n) && (BandwidthMbps n <? RBandwidthMbps req).

Definition labelsMatch (nodeLabels want : gmap string string) : bool :=
  forallb (fun kv : string * string => String.eqb (get_str nodeLabels kv.1) kv.2) (map_to_list want).

Definition missing_list (nodeFeatures : gmap string bool) (required : list string) : list string :=
  filter (fun id => get_bool nodeFeatures id = false) required.

(** missingFeatures: the missing ids joined by commas. *)
Definition missingFeatures (nodeFeatures : gmap string bool) (required : list string) : string :=
  match missing_list nodeFeatures required with [] => "" | missing => join "," missing end.

(** score. *)
Definition score (p : Placer) (n : Node) (req : Request) : float64 :=
  let c := cfg p in
  let cpuCap := fmul (fof_Z (CPUTotal n)) (R c) in
  let memCap := fmul (fof_Z (MemTotalMib n)) (MemR c) in
  let usageCPU := fmul (fdiv (CPUPercent n) (fof_Z 100)) (fof_Z (CPUTotal n)) in
  let cpu := fdiv (fadd (fof_Z (u64 (VCPU req + CPUAllocated n + CPUPending n)))
                        (fmul (Alpha c) usageCPU)) cpuCap in
  let mem := fdiv (fadd (fof_Z (u64 (MemMib req + MemAllocated n + MemPending n)))
                        (fmul (Alpha c) (fof_Z (MemUsedMib n)))) memCap in
  let s := fadd (fmul (WeightCPU c) cpu) (fmul (WeightMem c) mem) in
  let s := if negb (String.eqb (ImageDigest req) "") && negb (feqb (WeightImage c) fzero) then
             let miss := if get_bool (CachedImageDigests n) (ImageDigest req) then fzero else fof_Z 1 in
             fadd s (fmul (WeightImage c) miss)
           else s in
  let s := if (0 <? RBandwidthMbps req) && (0 <? BandwidthMbps n) &&
              negb (feqb (WeightBandwidth c) fzero) then
             fadd s (fdiv (fmul (WeightBandwidth c) (fof_Z (RBandwidthMbps req)))
                          (fof_Z (BandwidthMbps n)))
           else s in
  let s := if negb (feqb (WeightRack c) fzero) && negb (String.eqb (Rack n) "") &&
              get_bool (ExistingDeploymentRacks req) (Rack n) then fadd s (WeightRack c) else s in
  if negb (feqb (WeightZone c) fzero) && negb (String.eqb (Zone n) "") &&
     get_bool (ExistingDeploymentZones req) (Zone n) then fadd s (WeightZone c) else s.

Record candidateEvaluation := mkEval { applyRetryExclusions : bool; collectEvents : bool }.

(** The closure [filter]: the nodes that pass, and an event per rejection. *)
Fixpoint filter_nodes (collect : bool) (reject : Node -> string) (nodes : list Node) :
    list Node * list Event :=
  match nodes with
  | [] => ([], [])
  | n :: nodes' =>
      let '(passed, events) := filter_nodes collect reject nodes' in
      let reason := reject n in
      if negb (String.eqb reason "")
      then (passed, if collect then mkEvent "filter_rejection" (ID n) reason :: events else events)
      else (n :: passed, events)
  end.

(** The rejection reason of each stage, in the order of the code. *)
Definition reject_status (n : Node) : string :=
  if Draining n then "draining"
  else if negb (String.eqb (Status n) StatusHealthy) then "status=" +:+ Status n else "".
Definition reject_excluded (req : Request) (n : Node) : string :=
  if get_bool (ExcludedNodes req) (ID n) then "excluded by retry policy" else "".
Definition effective_pool (req : Request) : string :=
  if String.eqb (RPool req) "" then "compute" else RPool req.
Definition reject_pool (req : Request) (n : Node) : string :=
  if negb (String.eqb (Pool n) (effective_pool req)) then "pool mismatch"
  else if negb (labelsMatch (Labels n) (RLabels req)) then "labels mismatch" else "".
Definition reject_features (req : Request) (n : Node) : string :=
  let missing := missingFeatures (FeatureIDs n) (RequiredFeatures req) in
  if negb (String.eqb missing "") then "capability missing: " +:+ missing else "".
Definition reject_resources (c : BestOfKConfig) (req : Request) (n : Node) : string :=
  if negb (canFit n req c)
  then "resources: need vcpu=" +:+ itoa (VCPU req) +:+ " mem=" +:+ itoa (MemMib req) +:+
       "MiB disk=" +:+ itoa (DiskMib req) +:+ "MiB (allocated+pending+req exceeds R*capacity)"
  else "".
Definition reject_bandwidth (req : Request) (n : Node) : string :=
  if bandwidthExceeded n req
  then "bandwidth: need " +:+ itoa (RBandwidthMbps req) +:+ "Mbps exceeds node " +:+
       itoa (BandwidthMbps n) +:+ "Mbps"
  else "".
Definition reject_locality (req : Request) (n : Node) : string :=
  if negb (String.eqb (RequiredNodeID req) "") && negb (String.eqb (ID n) (RequiredNodeID req))
  then "volume locality mismatch" else "".
Definition reject_pin (req : Request) (n : Node) : string :=
  if negb (String.eqb (PinnedNodeID req) "") && negb (String.eqb (ID n) (PinnedNodeID req))
  then "dispatch pin mismatch" else "".

Definition stages (c : BestOfKConfig) (req : Request) (o : candidateEvaluation) : list (Node -> string) :=
  [reject_status] ++
  (if applyRetryExclusions o then [reject_excluded req] else []) ++
  [reject_pool req; reject_features req; reject_resources c req; reject_bandwidth req;
   reject_locality req; reject_pin req].

Fixpoint run_stages (collect : bool) (rs : list (Node -> string)) (nodes : list Node) :
    list Node * list Event :=
  match rs with
  | [] => (nodes, [])
  | r :: rs' =>
      let '(passed, ev) := filter_nodes collect r nodes in
      let '(passed', ev') := run_stages collect rs' passed in
      (passed', ev ++ ev')
  end.

(** evaluateCandidates: the hard filters, then the best-effort anti-affinity. *)
Definition evaluateCandidates (p : Placer) (req : Request) (nodes : list Node)
    (o : candidateEvaluation) : list Node * list Event :=
  let '(candidates, events) := run_stages (collectEvents o) (stages (cfg p) req o) nodes in
  if AntiAffinity req && negb (String.eqb (DeploymentID req) "") &&
     negb (Nat.eqb (size (ExistingDeploymentNodes req)) 0) then
    let spread := filter (fun n => get_bool (ExistingDeploymentNodes req) (ID n) = false) candidates in
    match spread with
    | [] => (candidates,
             if collectEvents o
             then events ++ [mkEvent "placement" "" "anti_affinity degraded: no node outside deployment set"]
             else events)
    | _ => (spread, events)
    end
  else (candidates, events).

Definition ErrNoCandidates (reason : string) : goerr :=
  Errorf "scheduler: no candidates: " [AStr reason].

(** sampleK; [perm] is the permutation drawn from the random source. *)
Definition sampleK (nodes : list Node) (k : Z) (perm : list nat) : list Node :=
  if (k <=? 0) || (Z.of_nat (length nodes) <=? k) then nodes
  else omap (fun idx => nodes !! idx) (take (Z.to_nat k) perm).

(** The comparison both sorts use: score, then node id. *)
Definition less_scored (a b : Node * float64) : bool :=
  if negb (feqb a.2 b.2) then fltb a.2 b.2 else String.ltb (ID a.1) (ID b.1).

(** PrefetchTopK. *)
Definition PrefetchTopK (p : Placer) (req : Request) (nodes : list Node) (k : Z) : list Node :=
  let k := if k <=? 0 then 3 else k in
  let candidates := (evaluateCandidates p req nodes (mkEval false false)).1 in
  let sorted := map fst (sort_by less_scored (map (fun n => (n, score p n req)) candidates)) in
  if k <? Z.of_nat (length sorted) then take (Z.to_nat k) sorted else sorted.

Section place.
(** [fmt.Sprintf("%.6f", score)] and [rnd.Perm]. *)
Variable format_f6 : float64 -> string.
Variable Perm : nat -> list nat.

(** Place: the placement, the error, and the calls of [ScoreHook]; [None] is
    the index panic of [scoredList[0]]. *)
Definition Place (p : Placer) (req : Request) (nodes : list Node) :
    option ((Placement * option goerr) * list string) :=
  let '(candidates, events) := evaluateCandidates p req nodes (mkEval true true) in
  match candidates with
  | [] => Some ((mkPlacement "" fzero events, Some (ErrNoCandidates "all filters exhausted")), [])
  | _ =>
      let sample := sampleK candidates (K (cfg p)) (Perm (length candidates)) in
      let hooked := if ScoreHook (opts p) then map ID sample else [] in
      match sort_by less_scored (map (fun n => (n, score p n req)) sample) with
      | [] => None
      | best :: _ =>
          let ev := mkEvent "placement" (ID best.1)
            ("score=" +:+ format_f6 best.2 +:+ " candidates=" +:+
             itoa (Z.of_nat (length candidates)) +:+ " sampled=" +:+
             itoa (Z.of_nat (length sample))) in
          Some ((mkPlacement (ID best.1) best.2 (events ++ [ev]), None), hooked)
      end
  end.
End place.

(** ** The filters *)

(** The reason a node is rejected for: that of the first stage it fails;
    empty when it passes them all. *)
Fixpoint first_reason (rs : list (Node -> string)) (n : Node) : string :=
  match rs with
  | [] => ""
  | r :: rs' => if String.eqb (r n) "" then first_reason rs' n else r n
  end.

(** The candidates before anti-affinity. *)
Definition passing (p : Placer) (req : Request) (retry : bool) (nodes : list Node) : list Node :=
  filter (fun n => first_reason (stages (cfg p) req (mkEval retry true)) n = "") nodes.

(** Anti-affinity is in force: some machine of the deployment is placed. *)
Definition spreading (req : Request) : bool :=
  AntiAffinity req && negb (String.eqb (DeploymentID req) "") &&
  negb (Nat.eqb (size (ExistingDeploymentNodes req)) 0).

Definition rejection (rs : list (Node -> string)) (n : Node) : Event :=
  mkEvent "filter_rejection" (ID n) (first_reason rs n).

Lemma first_reason_passes rs n : first_reason rs n = "" <-> Forall (fun r => r n = "") rs.
Proof.
  induction rs as [|r rs IH]; simpl; [done|]. rewrite Forall_cons.
  destruct (String.eqb_spec (r n) ""); [|tauto]. rewrite IH. tauto.
Qed.

Lemma filter_nodes_passed collect r nodes :
  (filter_nodes collect r nodes).1 = filter (fun n => r n = "") nodes.
Proof.
  induction nodes as [|n nodes IH]; [done|]. simpl.
  destruct (filter_nodes collect r nodes) as [passed ev]; simpl in IH |- *. rewrite filter_cons.
  destruct (String.eqb_spec (r n) ""), (decide (r n = "")); simpl; congruence.
Qed.

Lemma filter_nodes_events r nodes :
  (filter_nodes true r nodes).2 =
  map (fun n => mkEvent "filter_rejection" (ID n) (r n)) (filter (fun n => r n <> "") nodes).
Proof.
  induction nodes as [|n nodes IH]; [done|]. simpl.
  destruct (filter_nodes true r nodes) as [passed ev]; simpl in IH |- *. rewrite filter_cons.
  destruct (String.eqb_spec (r n) ""), (decide (r n <> "")); simpl;
    first [congruence | tauto].
Qed.

Lemma filter_nodes_no_events r nodes : (filter_nodes false r nodes).2 = [].
Proof.
  induction nodes as [|n nodes IH]; [done|]. simpl.
  destruct (filter_nodes false r nodes) as [passed ev]; simpl in IH |- *. by split_match.
Qed.

Lemma run_stages_cons collect r rs nodes :
  run_stages collect (r :: rs) nodes =
  let rest := run_stages collect rs (filter (fun n => r n = "") nodes) in
  (rest.1, (filter_nodes collect r nodes).2 ++ rest.2).
Proof.
  simpl. rewrite <- (filter_nodes_passed collect r nodes).
  destruct (filter_nodes collect r nodes); simpl. by destruct (run_stages collect rs _).
Qed.

Lemma run_stages_passed collect rs nodes :
  (run_stages collect rs nodes).1 = filter (fun n => first_reason rs n = "") nodes.
Proof.
  revert nodes. induction rs as [|r rs IH]; intros nodes.
  - simpl. induction nodes as [|n nodes IHn]; [done|].
    rewrite filter_cons_True by done. by f_equal.
  - rewrite run_stages_cons. simpl. rewrite IH, list_filter_filter. apply list_filter_iff.
    intros n. destruct (String.eqb_spec (r n) ""); intuition congruence.
Qed.

Lemma run_stages_events rs nodes :
  (run_stages true rs nodes).2 ≡ₚ
  map (rejection rs) (filter (fun n => first_reason rs n <> "") nodes).
Proof.
  revert nodes. induction rs as [|r rs IH]; intros nodes.
  - simpl. induction nodes as [|n nodes IHn]; [done|].
    rewrite filter_cons_False by auto. done.
  - rewrite run_stages_cons. simpl. rewrite IH, filter_nodes_events. clear IH.
    induction nodes as [|n nodes IHn]; [done|]. rewrite !filter_cons. simpl.
    destruct (String.eqb_spec (r n) "") as [Hr|Hr].
    + rewrite decide_False, decide_True by naive_solver. rewrite filter_cons.
      destruct (decide (first_reason rs n <> "")) as [Hf|Hf]; [|by rewrite IHn].
      simpl. rewrite <- Permutation_middle, IHn. apply Permutation_refl'. f_equal.
      unfold rejection. simpl. by rewrite Hr.
    + rewrite decide_True, decide_False, decide_True by naive_solver. simpl.
      rewrite IHn. apply Permutation_refl'. f_equal.
      unfold rejection. simpl. apply String.eqb_neq in Hr. by rewrite Hr.
Qed.

Lemma run_stages_no_events rs nodes : (run_stages false rs nodes).2 = [].
Proof.
  revert nodes. induction rs as [|r rs IH]; intros nodes; [done|].
  rewrite run_stages_cons. simpl. by rewrite filter_nodes_no_events, IH.
Qed.

(** The candidates of [evaluateCandidates]: those outside the deployment's
    nodes when anti-affinity is in force and there are any. *)
Definition spread_of (req : Request) (candidates : list Node) : list Node :=
  let outside := filter (fun n => get_bool (ExistingDeploymentNodes req) (ID n) = false) candidates in
  if spreading req then match outside with [] => candidates | _ => outside end else candidates.

Lemma evaluateCandidates_spread p req nodes o :
  (evaluateCandidates p req nodes o).1 =
  spread_of req (passing p req (applyRetryExclusions o) nodes).
Proof.
  unfold evaluateCandidates, spread_of, passing.
  pose proof (run_stages_passed (collectEvents o) (stages (cfg p) req o) nodes) as Hp.
  destruct (run_stages _ _ nodes) as [cs ev]. simpl in Hp. subst cs.
  change (stages (cfg p) req (mkEval (applyRetryExclusions o) true)) with (stages (cfg p) req o).
  fold (spreading req). destruct (spreading req); [|done]. by destruct (filter _ (filter _ nodes)).
Qed.

Lemma spread_of_sub req l : spread_of req l `sublist_of` l.
Proof.
  unfold spread_of. destruct (spreading req); [|done].
  pose proof (sublist_filter (fun n => get_bool (ExistingDeploymentNodes req) (ID n) = false) l) as Hs.
  by destruct (filter _ l).
Qed.

Lemma spread_of_nil req l : spread_of req l = [] <-> l = [].
Proof.
  split; [|intros ->; unfold spread_of; by destruct (spreading req)].
  unfold spread_of. destruct (spreading req); [|done]. by destruct (filter _ l).
Qed.

Lemma spread_of_outside req l n :
  n ∈ spread_of req l -> spreading req = true ->
  (exists m, m ∈ l /\ get_bool (ExistingDeploymentNodes req) (ID m) = false) ->
  get_bool (ExistingDeploymentNodes req) (ID n) = false.
Proof.
  unfold spread_of. intros Hn Hs (m & Hm & Ho). rewrite Hs in Hn. simpl in Hn.
  assert (m ∈ filter (fun n => get_bool (ExistingDeploymentNodes req) (ID n) = false) l) as Hf
    by (by apply list_elem_of_filter).
  destruct (filter _ l) eqn:E; [by apply not_elem_of_nil in Hf|].
  rewrite <- E in Hn. by apply list_elem_of_filter in Hn as [? _].
Qed.

(** What a node must satisfy to receive the machine. *)
Record eligible (c : BestOfKConfig) (req : Request) (n : Node) : Prop := mkEligible {
  el_live : Draining n = false /\ Status n = StatusHealthy;
  el_not_excluded : get_bool (ExcludedNodes req) (ID n) = false;
  el_pool : Pool n = effective_pool req;
  el_labels : forall k v, RLabels req !! k = Some v -> get_str (Labels n) k = v;
  el_features : forall f, f ∈ RequiredFeatures req -> f <> "" -> get_bool (FeatureIDs n) f = true;
  el_fits : canFit n req c = true;
  el_bandwidth : 0 < RBandwidthMbps req -> 0 < BandwidthMbps n -> RBandwidthMbps req <= BandwidthMbps n;
  el_locality : RequiredNodeID req <> "" -> ID n = RequiredNodeID req;
  el_pin : PinnedNodeID req <> "" -> ID n = PinnedNodeID req }.

Lemma join_empty sep l : join sep l = "" -> Forall (fun x => x = "") l.
Proof.
  induction l as [|w ws IH]; [done|]. destruct ws as [|w' ws]; simpl; intros H.
  - by repeat constructor.
  - destruct w as [|ch w]; [|done]. destruct sep; [|done]. constructor; [done|]. by apply IH.
Qed.

Lemma missingFeatures_none have required :
  missingFeatures have required = "" ->
  forall f, f ∈ required -> f <> "" -> get_bool have f = true.
Proof.
  intros Hm f Hf Hne. apply not_false_iff_true. intros Hmiss. apply Hne.
  assert (f ∈ missing_list have required) as Hin by (by apply list_elem_of_filter).
  assert (join "," (missing_list have required) = "") as Hj.
  { unfold missingFeatures in Hm. by destruct (missing_list have required). }
  apply join_empty in Hj. rewrite Forall_forall in Hj. by apply Hj.
Qed.

Lemma labelsMatch_all have want :
  labelsMatch have want = true -> forall k v, want !! k = Some v -> get_str have k = v.
Proof.
  unfold labelsMatch. rewrite forallb_forall. intros H k v Hk.
  specialize (H (k, v)). simpl in H. apply String.eqb_eq, H.
  by apply list_elem_of_In, elem_of_map_to_list.
Qed.

Lemma app_nonempty c s t : String c s +:+ t <> "".
Proof. by rewrite append_cons. Qed.

Lemma passes_eligible p req n :
  first_reason (stages (cfg p) req (mkEval true true)) n = "" -> eligible (cfg p) req n.
Proof.
  rewrite first_reason_passes. unfold stages. simpl.
  rewrite !Forall_cons. intros (Hst & Hex & Hpool & Hfe & Hre & Hbw & Hlo & Hpin & _).
  unfold reject_status in Hst. unfold reject_excluded in Hex. unfold reject_pool in Hpool.
  unfold reject_features in Hfe. unfold reject_resources in Hre. unfold reject_bandwidth in Hbw.
  unfold reject_locality in Hlo. unfold reject_pin in Hpin.
  split_match_in Hst; try (by apply app_nonempty in Hst).
  split_match_in Hex; split_match_in Hpool; split_match_in Hfe; try (by apply app_nonempty in Hfe).
  split_match_in Hre; try (by apply app_nonempty in Hre).
  split_match_in Hbw; try (by apply app_nonempty in Hbw).
  split_match_in Hlo; split_match_in Hpin. bool_to_prop.
  constructor; eauto using labelsMatch_all, missingFeatures_none.
  - unfold bandwidthExceeded in *. intros. bool_to_prop.
    repeat match goal with H : _ \/ _ |- _ => destruct H as [H|H] end; bool_to_prop; lia.
  - intros Hne. repeat match goal with H : _ \/ _ |- _ => destruct H as [H|H] end;
      bool_to_prop; congruence.
  - intros Hne. repeat match goal with H : _ \/ _ |- _ => destruct H as [H|H] end;
      bool_to_prop; congruence.
Qed.

Lemma eligible_passes p req n :
  "" ∉ RequiredFeatures req -> eligible (cfg p) req n ->
  first_reason (stages (cfg p) req (mkEval true true)) n = "".
Proof.
  intros Hne [[Hd Hs] Hex Hpool Hl Hf Hfit Hbw Hlo Hpin]. rewrite first_reason_passes.
  assert (labelsMatch (Labels n) (RLabels req) = true) as Hlab.
  { unfold labelsMatch. apply forallb_forall. intros [k v] Hin.
    apply list_elem_of_In, elem_of_map_to_list in Hin. by apply String.eqb_eq, Hl. }
  assert (missing_list (FeatureIDs n) (RequiredFeatures req) = []) as Hmiss.
  { destruct (missing_list _ _) as [|f l] eqn:E; [done|].
    assert (f ∈ missing_list (FeatureIDs n) (RequiredFeatures req)) as Hin by (rewrite E; by left).
    apply list_elem_of_filter in Hin as [Hb Hin]. rewrite Hf in Hb; [done|done|]. by intros ->. }
  unfold stages; simpl. repeat (apply Forall_cons; split); [..|by constructor].
  - unfold reject_status. by rewrite Hd, Hs.
  - unfold reject_excluded. by rewrite Hex.
  - unfold reject_pool. by rewrite Hpool, String.eqb_refl, Hlab.
  - unfold reject_features, missingFeatures. by rewrite Hmiss.
  - unfold reject_resources. by rewrite Hfit.
  - unfold reject_bandwidth, bandwidthExceeded.
    destruct (0 <? RBandwidthMbps req) eqn:H1; [|done].
    destruct (0 <? BandwidthMbps n) eqn:H2; [|done]. bool_to_prop. simpl.
    by rewrite (proj2 (Z.ltb_ge _ _)) by (by apply Hbw).
  - unfold reject_locality. destruct (String.eqb_spec (RequiredNodeID req) "") as [|H]; [done|].
    by rewrite (Hlo H), String.eqb_refl.
  - unfold reject_pin. destruct (String.eqb_spec (PinnedNodeID req) "") as [|H]; [done|].
    by rewrite (Hpin H), String.eqb_refl.
Qed.

Lemma elem_of_passing p req nodes n :
  n ∈ passing p req true nodes <->
  first_reason (stages (cfg p) req (mkEval true true)) n = "" /\ n ∈ nodes.
Proof. unfold passing. by rewrite list_elem_of_filter. Qed.

(** ** The ranking *)

Lemma key_lt_irrefl a : ~ key_lt a a.
Proof. unfold key_lt. lia. Qed.
Lemma key_lt_trans a b c : key_lt a b -> key_lt b c -> key_lt a c.
Proof. unfold key_lt. lia. Qed.
Lemma key_lt_total a b : ~ key_lt a b -> a = b \/ key_lt b a.
Proof.
  unfold key_lt. destruct a as [a1 [a2 a3]], b as [b1 [b2 b3]]; simpl. intros H.
  destruct (decide (a1 = b1)); [|lia]. destruct (decide (a2 = b2)); [|lia].
  destruct (decide (a3 = b3)); [|lia]. left. congruence.
Qed.

Lemma less_scored_key a b :
  is_nan a.2 = false -> is_nan b.2 = false ->
  less_scored a b = true <->
  key_lt (fkey a.2) (fkey b.2) \/ (fkey a.2 = fkey b.2 /\ String.ltb (ID a.1) (ID b.1) = true).
Proof.
  intros Ha Hb. unfold less_scored. destruct (feqb a.2 b.2) eqn:E; simpl.
  - apply feqb_key in E; [|done..]. rewrite E. pose proof (key_lt_irrefl (fkey b.2)). tauto.
  - rewrite fltb_key by done. assert (fkey a.2 <> fkey b.2); [|tauto].
    intros Hk. apply feqb_key in Hk; congruence.
Qed.

Lemma less_scored_false a b :
  is_nan a.2 = false -> is_nan b.2 = false ->
  less_scored a b = false <->
  key_lt (fkey b.2) (fkey a.2) \/ (fkey a.2 = fkey b.2 /\ String.ltb (ID a.1) (ID b.1) = false).
Proof.
  intros Ha Hb. rewrite <- not_true_iff_false, less_scored_key by done.
  split.
  - intros H. destruct (key_lt_total (fkey a.2) (fkey b.2)) as [E|]; [tauto| |tauto].
    right. split; [done|]. apply not_true_iff_false. tauto.
  - intros [H|[E Hf]] [H'|[E' Ht]]; try congruence.
    + by eapply key_lt_irrefl, key_lt_trans.
    + rewrite E' in H. by apply key_lt_irrefl in H.
    + rewrite E in H'. by apply key_lt_irrefl in H'.
Qed.

Lemma orders_scored l :
  (forall x, x ∈ l -> is_nan x.2 = false) -> orders less_scored l.
Proof.
  intros Hn. split.
  - intros a b Ha Hb. rewrite less_scored_key, less_scored_false by auto.
    intros [?|[-> Hl]]; [by left|]. right. split; [done|]. by apply ltb_asym.
  - intros a b c Ha Hb Hc. rewrite !less_scored_false by auto.
    intros [H1|[E1 H1]] [H2|[E2 H2]].
    + left. by eapply key_lt_trans.
    + left. by rewrite E2.
    + left. by rewrite <- E1.
    + right. split; [congruence|]. destruct (String.ltb (ID c.1) (ID a.1)) eqn:Hca; [|done].
      destruct (String.ltb (ID a.1) (ID b.1)) eqn:Hab.
      * by rewrite (ltb_trans _ _ _ Hca Hab) in H2.
      * by rewrite <- (ltb_total _ _ Hab H1), Hca in H2.
Qed.

(** ** The sample *)

Lemma omap_seq_lookup (l : list Node) : omap (fun i => l !! i) (seq 0 (length l)) = l.
Proof.
  assert (Hshift : forall x (l' : list Node) (idxs : list nat),
    omap (fun i => (x :: l') !! i) (S <$> idxs) = omap (fun i => l' !! i) idxs).
  { intros x l' idxs. induction idxs as [|i idxs IH]; [done|]. csimpl.
    destruct (l' !! i); [f_equal|]; apply IH. }
  induction l as [|x l IH]; [done|]. simpl. f_equal.
  rewrite <- fmap_S_seq, Hshift. apply IH.
Qed.

Lemma length_omap_lookup (l : list Node) idxs :
  Forall (fun i => (i < length l)%nat) idxs -> length (omap (fun i => l !! i) idxs) = length idxs.
Proof.
  induction 1 as [|i idxs Hi Hl IH]; [done|]. simpl.
  apply lookup_lt_is_Some_2 in Hi as [x ->]. simpl. f_equal. apply IH.
Qed.

(** The number of nodes scored. *)
Definition sample_size (k : Z) (m : nat) : nat :=
  if k <=? 0 then m else Nat.min (Z.to_nat k) m.

Lemma sampleK_spec nodes k perm :
  perm ≡ₚ seq 0 (length nodes) ->
  sampleK nodes k perm ⊆+ nodes /\ length (sampleK nodes k perm) = sample_size k (length nodes).
Proof.
  intros Hp. unfold sampleK, sample_size. destruct (k <=? 0) eqn:Hk; simpl; [done|].
  destruct (_ <=? k) eqn:Hl; bool_to_prop; [split; [done|lia]|]. split.
  - transitivity (omap (fun i => nodes !! i) (seq 0 (length nodes)));
      [|by rewrite omap_seq_lookup].
    rewrite <- Hp. rewrite <- (take_drop (Z.to_nat k) perm) at 2. rewrite omap_app.
    by apply submseteq_inserts_r.
  - rewrite length_omap_lookup.
    + rewrite length_take. apply Permutation_length in Hp. rewrite length_seq in Hp. lia.
    + apply Forall_take, Forall_forall. intros i Hi. rewrite Hp in Hi. apply elem_of_seq in Hi. lia.
Qed.

Lemma sampleK_sub nodes k perm n : n ∈ sampleK nodes k perm -> n ∈ nodes.
Proof.
  unfold sampleK. destruct (_ || _); [done|]. intros (i & _ & Hi)%list_elem_of_omap.
  by eapply list_elem_of_lookup_2.
Qed.

(** ** Place *)

Section place_lemmas.
Context (format_f6 : float64 -> string) (Perm : nat -> list nat).
Context (p : Placer) (req : Request) (nodes : list Node).

(** The candidates [Place] samples from, and the sample. *)
Definition place_candidates : list Node := spread_of req (passing p req true nodes).
Definition place_sample : list Node :=
  sampleK place_candidates (K (cfg p)) (Perm (length place_candidates)).

Lemma place_candidates_eval :
  (evaluateCandidates p req nodes (mkEval true true)).1 = place_candidates.
Proof. apply evaluateCandidates_spread. Qed.

Lemma elem_of_place_candidates n : n ∈ place_candidates -> n ∈ passing p req true nodes.
Proof. intros Hn. eapply elem_of_submseteq; [done|]. apply sublist_submseteq, spread_of_sub. Qed.

Lemma Place_ok pl hooks :
  Place format_f6 Perm p req nodes = Some ((pl, None), hooks) ->
  exists best rest,
    sort_by less_scored (map (fun n => (n, score p n req)) place_sample) = best :: rest /\
    PNodeID pl = ID best.1 /\ PScore pl = best.2 /\
    hooks = (if ScoreHook (opts p) then map ID place_sample else []).
Proof.
  unfold Place, place_sample. rewrite <- place_candidates_eval.
  destruct (evaluateCandidates _ _ _ _) as [cs ev]; simpl.
  destruct cs as [|c cs]; [done|].
  destruct (sort_by _ _) as [|best rest]; [done|]. intros [= <- <-]. by exists best, rest.
Qed.

Lemma sorted_member best rest :
  sort_by less_scored (map (fun n => (n, score p n req)) place_sample) = best :: rest ->
  best.2 = score p best.1 req /\ best.1 ∈ place_sample.
Proof.
  intros Hs. assert (best ∈ map (fun n => (n, score p n req)) place_sample) as Hin.
  { rewrite <- (elem_of_sort_by less_scored), Hs. by left. }
  apply list_elem_of_fmap in Hin as (n & -> & Hn). done.
Qed.
End place_lemmas.

Lemma place_spreads format_f6 Perm p req nodes pl hooks :
  Place format_f6 Perm p req nodes = Some ((pl, None), hooks) ->
  AntiAffinity req = true -> DeploymentID req <> "" -> "" ∉ RequiredFeatures req ->
  (exists n, n ∈ nodes /\ eligible (cfg p) req n /\
     get_bool (ExistingDeploymentNodes req) (ID n) = false) ->
  get_bool (ExistingDeploymentNodes req) (PNodeID pl) = false.
Proof.
  intros (best & rest & Hs & -> & _)%Place_ok Haa Hdep Hne (m & Hm & Hel & Hout).
  apply sorted_member in Hs as [_ Hin]. apply sampleK_sub in Hin.
  destruct (spreading req) eqn:Hsp.
  - eapply spread_of_outside; [exact Hin|done|]. exists m. split; [|done].
    apply elem_of_passing. auto using eligible_passes.
  - unfold spreading in Hsp. apply String.eqb_neq in Hdep.
    rewrite Haa, Hdep in Hsp. simpl in Hsp. apply negb_false_iff, Nat.eqb_eq in Hsp.
    apply map_size_empty_inv in Hsp. unfold get_bool. by rewrite Hsp, lookup_empty.
Qed.

(** The node [Place] chooses is one of the offered nodes, with
    the score computed for it, and satisfies every hard constraint: live and
    healthy, not excluded by a retry, right pool, labels, features, capacity,
    bandwidth, volume locality and pin. And anti-affinity is honoured wherever
    it can be: when some node that passes the filters runs no machine of the
    deployment, the chosen node runs none either. *)
Theorem place_sound format_f6 Perm p req nodes pl hooks :
  Place format_f6 Perm p req nodes = Some ((pl, None), hooks) ->
  (exists n, n ∈ nodes /\ ID n = PNodeID pl /\ PScore pl = score p n req /\ eligible (cfg p) req n) /\
  (AntiAffinity req = true -> DeploymentID req <> "" -> "" ∉ RequiredFeatures req ->
   (exists n, n ∈ nodes /\ eligible (cfg p) req n /\
      get_bool (ExistingDeploymentNodes req) (ID n) = false) ->
   get_bool (ExistingDeploymentNodes req) (PNodeID pl) = false).
Proof.
  intros H. split; [|by eapply place_spreads].
  apply Place_ok in H as (best & rest & Hs & -> & -> & _).
  apply sorted_member in Hs as [-> Hin]. apply sampleK_sub, elem_of_place_candidates in Hin.
  apply elem_of_passing in Hin as [Hp Hin]. exists best.1. eauto using passes_eligible.
Qed.

Definition degraded : Event :=
  mkEvent "placement" "" "anti_affinity degraded: no node outside deployment set".

(** Without a candidate every node has its rejection. *)
Lemma evaluate_fail_events p req nodes :
  passing p req true nodes = [] ->
  (evaluateCandidates p req nodes (mkEval true true)).2 ≡ₚ
  map (rejection (stages (cfg p) req (mkEval true true))) nodes ++
  (if spreading req then [degraded] else []).
Proof.
  unfold passing, evaluateCandidates. generalize (stages (cfg p) req (mkEval true true)).
  intros rs Hnil.
  pose proof (run_stages_events rs nodes) as He.
  pose proof (run_stages_passed true rs nodes) as Hr. simpl collectEvents.
  destruct (run_stages true rs nodes) as [cs ev]. simpl in He, Hr. rewrite Hnil in Hr. subst cs.
  assert (filter (fun n => first_reason rs n <> "") nodes = nodes) as Hall.
  { clear -Hnil. induction nodes as [|n nodes IH]; [done|]. rewrite filter_cons in Hnil |- *.
    destruct (decide (first_reason rs n = "")) as [|H]; [done|].
    rewrite decide_True by done. by rewrite IH. }
  rewrite Hall in He. fold (spreading req). destruct (spreading req); simpl.
  - by rewrite He.
  - by rewrite He, app_nil_r.
Qed.

Lemma passing_exists p req nodes :
  "" ∉ RequiredFeatures req ->
  passing p req true nodes <> [] <-> exists n, n ∈ nodes /\ eligible (cfg p) req n.
Proof.
  intros Hne. split.
  - destruct (passing p req true nodes) as [|n l] eqn:E; [done|]. intros _.
    assert (n ∈ passing p req true nodes) as Hn by (rewrite E; by left).
    apply elem_of_passing in Hn as [? ?]. eauto using passes_eligible.
  - intros (n & Hn & Hel) Hnil. assert (n ∈ passing p req true nodes) as Hin
      by (apply elem_of_passing; auto using eligible_passes).
    rewrite Hnil in Hin. by apply not_elem_of_nil in Hin.
Qed.

Lemma sample_nonempty p req nodes perm :
  perm ≡ₚ seq 0 (length (place_candidates p req nodes)) -> place_candidates p req nodes <> [] ->
  sampleK (place_candidates p req nodes) (K (cfg p)) perm <> [].
Proof.
  intros Hp Hne. destruct (sampleK_spec _ (K (cfg p)) _ Hp) as [_ Hl].
  destruct (place_candidates p req nodes); [done|]. intros E. rewrite E in Hl.
  unfold sample_size in Hl. destruct (K (cfg p) <=? 0) eqn:Hk; bool_to_prop; simpl in Hl; lia.
Qed.

(** With a random source that yields permutations, [Place]
    never panics; it fails exactly when no node satisfies the hard constraints,
    so anti-affinity alone never fails a placement; and the failure lists, for
    every node offered, one rejection with the first filter that refused it. *)
Theorem place_complete format_f6 Perm p req nodes :
  (forall m, Perm m ≡ₚ seq 0 m) -> "" ∉ RequiredFeatures req ->
  exists pl err hooks, Place format_f6 Perm p req nodes = Some ((pl, err), hooks) /\
    (err = None <-> exists n, n ∈ nodes /\ eligible (cfg p) req n) /\
    (err <> None ->
       err = Some (ErrNoCandidates "all filters exhausted") /\ hooks = [] /\
       PEvents pl ≡ₚ map (rejection (stages (cfg p) req (mkEval true true))) nodes ++
                     (if spreading req then [degraded] else [])).
Proof.
  intros HP Hne. pose proof (passing_exists p req nodes Hne) as Hex.
  pose proof (place_candidates_eval p req nodes) as Hc.
  pose proof (spread_of_nil req (passing p req true nodes)) as Hnil.
  fold (place_candidates p req nodes) in Hnil.
  unfold Place. destruct (evaluateCandidates p req nodes _) as [cs ev] eqn:Hev. simpl in Hc. subst cs.
  destruct (place_candidates p req nodes) as [|c cs] eqn:Hcs.
  - do 3 eexists. split; [done|]. split; [split; [done|intros Hn; tauto]|].
    intros _. split; [done|]. split; [done|].
    pose proof (evaluate_fail_events p req nodes (proj1 Hnil eq_refl)) as He.
    rewrite Hev in He. exact He.
  - rewrite <- Hcs. set (sample := sampleK _ _ _).
    assert (sample <> []) as Hs by (apply sample_nonempty; rewrite Hcs; [apply HP|done]).
    destruct (sort_by less_scored _) as [|best rest] eqn:Hsort.
    + pose proof (length_sort_by less_scored (map (fun n => (n, score p n req)) sample)) as Hl.
      rewrite Hsort, length_map in Hl. by destruct sample.
    + do 3 eexists. split; [done|]. split; [|done]. split; [|done]. intros _. apply Hex.
      intros Hp. by apply Hnil in Hp.
Qed.

(** C26. The sample is K distinct offered candidates (all of them when
    there are no more than K, or when K is not positive), each is shown to the
    score hook when there is one, and the chosen node has the lowest score of
    the sample, the smallest id among equal scores. *)
Theorem place_best format_f6 Perm p req nodes pl hooks :
  (forall m, Perm m ≡ₚ seq 0 m) ->
  (forall n, n ∈ nodes -> is_nan (score p n req) = false) ->
  Place format_f6 Perm p req nodes = Some ((pl, None), hooks) ->
  exists sample best,
    sample ⊆+ spread_of req (passing p req true nodes) /\
    length sample = sample_size (K (cfg p)) (length (spread_of req (passing p req true nodes))) /\
    hooks = (if ScoreHook (opts p) then map ID sample else []) /\
    best ∈ sample /\ PNodeID pl = ID best /\ PScore pl = score p best req /\
    forall n, n ∈ sample ->
      fltb (score p n req) (score p best req) = false /\
      (feqb (score p n req) (score p best req) = true -> String.ltb (ID n) (ID best) = false).
Proof.
  intros HP Hnan (best & rest & Hs & -> & -> & ->)%Place_ok.
  destruct (sampleK_spec (place_candidates p req nodes) (K (cfg p)) _ (HP _)) as [Hsub Hlen].
  pose proof (sorted_member _ _ _ _ _ _ Hs) as [Hbest Hin].
  exists (place_sample Perm p req nodes), best.1. split_and!; try done. intros n Hn.
  assert (Hsn : forall m, m ∈ place_sample Perm p req nodes -> is_nan (score p m req) = false).
  { intros m Hm. apply sampleK_sub, elem_of_place_candidates, elem_of_passing in Hm as [_ Hm]. auto. }
  assert (less_scored (n, score p n req) best = false) as Hl.
  { eapply sort_by_head; [|exact Hs|by apply (list_elem_of_fmap_2 (fun n => (n, score p n req)))].
    apply orders_scored. intros x (m & -> & Hm)%list_elem_of_fmap. by apply Hsn. }
  unfold less_scored in Hl. simpl in Hl. rewrite Hbest in Hl.
  destruct (feqb (score p n req) (score p best.1 req)) eqn:E; simpl in Hl; [|done].
  split; [|done]. apply not_true_iff_false. rewrite fltb_key by auto.
  apply feqb_key in E; [|by auto..]. rewrite E. apply key_lt_irrefl.
Qed.

(** The request and the node's figures are within what a double holds exactly. *)
Definition exact_figures (req : Request) (n : Node) : Prop :=
  Forall (fun z => 0 <= z < 2 ^ 50)
    [VCPU req; MemMib req; DiskMib req; CPUTotal n; MemTotalMib n; DiskTotalMib n;
     CPUAllocated n; MemAllocated n; DiskAllocated n; CPUPending n; MemPending n; DiskPending n].

Lemma canFit_default o n req :
  exact_figures req n -> canFit n req (cfg (New DefaultBestOfKConfig o)) = true ->
  CPUAllocated n + CPUPending n + VCPU req <= 4 * CPUTotal n /\
  MemAllocated n + MemPending n + MemMib req <= MemTotalMib n /\
  (0 < DiskTotalMib n -> DiskAllocated n + DiskPending n + DiskMib req <= DiskTotalMib n).
Proof.
  unfold exact_figures. rewrite !Forall_cons. intros He. destruct_and! He.
  assert (R (cfg (New DefaultBestOfKConfig o)) = fof_Z (2 ^ 2)) as HR by (by destruct o).
  assert (MemR (cfg (New DefaultBestOfKConfig o)) = fof_Z (2 ^ 0)) as HM by (by destruct o).
  assert (DiskR (cfg (New DefaultBestOfKConfig o)) = fof_Z (2 ^ 0)) as HD by (by destruct o).
  unfold canFit. rewrite HR, HM, HD, !u64_small by lia. clear HR HM HD.
  destruct (_ || _) eqn:Hz; [done|]. bool_to_prop.
  rewrite (fgtb_of_Z_mul _ (CPUTotal n) 2), (fgtb_of_Z_mul _ (MemTotalMib n) 0) by lia.
  destruct (_ <? _) eqn:Hc; [done|]. destruct (_ * 2 ^ 0 <? _) eqn:Hm; [done|].
  destruct (0 <? DiskTotalMib n) eqn:Hd; cbn [andb]; bool_to_prop; [|lia].
  rewrite (fgtb_of_Z_mul _ (DiskTotalMib n) 0) by lia.
  destruct (_ * 2 ^ 0 <? _) eqn:Hk; [done|]. bool_to_prop. lia.
Qed.

(** Under the default configuration a placement never
    brings a node's memory or known disk above its capacity, nor its CPU above
    four times its capacity, counting what is allocated and what is reserved;
    the doubles of the test lose nothing. *)
Theorem place_no_oversubscription format_f6 Perm o req nodes pl hooks :
  Place format_f6 Perm (New DefaultBestOfKConfig o) req nodes = Some ((pl, None), hooks) ->
  (forall n, n ∈ nodes -> exact_figures req n) ->
  exists n, n ∈ nodes /\ ID n = PNodeID pl /\
    CPUAllocated n + CPUPending n + VCPU req <= 4 * CPUTotal n /\
    MemAllocated n + MemPending n + MemMib req <= MemTotalMib n /\
    (0 < DiskTotalMib n -> DiskAllocated n + DiskPending n + DiskMib req <= DiskTotalMib n).
Proof.
  intros (best & rest & Hs & -> & _)%Place_ok Hfig.
  apply sorted_member in Hs as [_ Hin]. apply sampleK_sub, elem_of_place_candidates in Hin.
  apply elem_of_passing in Hin as [Hp Hin]. exists best.1. split; [done|]. split; [done|].
  apply passes_eligible, el_fits, canFit_default in Hp; [done|by apply Hfig].
Qed.

(** [PrefetchTopK] gives the [k] best of the nodes that pass the
    filters (retry exclusions aside), three when [k] is not positive, and no
    other candidate ranks before one of them. *)
Theorem prefetch_top_k p req nodes k :
  (forall n, n ∈ nodes -> is_nan (score p n req) = false) ->
  exists rest,
    PrefetchTopK p req nodes k ++ rest ≡ₚ spread_of req (passing p req false nodes) /\
    length (PrefetchTopK p req nodes k) =
      Nat.min (Z.to_nat (if k <=? 0 then 3 else k)) (length (spread_of req (passing p req false nodes))) /\
    forall a b, a ∈ PrefetchTopK p req nodes k -> b ∈ rest ->
      less_scored (b, score p b req) (a, score p a req) = false.
Proof.
  intros Hnan. unfold PrefetchTopK. rewrite evaluateCandidates_spread. simpl applyRetryExclusions.
  set (cs := spread_of req (passing p req false nodes)).
  set (scored := map (fun n => (n, score p n req)) cs).
  set (kk := if k <=? 0 then 3 else k).
  assert (Hkk : 0 < kk) by (unfold kk; destruct (k <=? 0) eqn:Hk; bool_to_prop; lia).
  assert (Hperm : map fst (sort_by less_scored scored) ≡ₚ cs).
  { rewrite sort_by_Permutation. unfold scored. rewrite map_map. by rewrite map_id. }
  assert (Htake : (if kk <? Z.of_nat (length (map fst (sort_by less_scored scored)))
                   then take (Z.to_nat kk) (map fst (sort_by less_scored scored))
                   else map fst (sort_by less_scored scored)) =
                  take (Z.to_nat kk) (map fst (sort_by less_scored scored))).
  { destruct (_ <? _) eqn:E; [done|]. bool_to_prop. rewrite take_ge; [done|lia]. }
  rewrite Htake. exists (drop (Z.to_nat kk) (map fst (sort_by less_scored scored))).
  split_and!.
  - by rewrite take_drop.
  - by rewrite length_take, Hperm.
  - assert (Hin : forall x, x ∈ scored -> x.2 = score p x.1 req /\ x.1 ∈ nodes).
    { intros x (n & -> & Hn)%list_elem_of_fmap. split; [done|].
      apply (elem_of_submseteq _ (passing p req false nodes)) in Hn;
        [|apply sublist_submseteq, spread_of_sub].
      unfold passing in Hn. by apply list_elem_of_filter in Hn as [_ Hn]. }
    assert (Hsorted : StronglySorted (fun a b => less_scored b a = false) (sort_by less_scored scored)).
    { apply sort_by_sorted, orders_scored. intros x [-> Hx]%Hin. by apply Hnan. }
    intros a b Ha Hb. rewrite <- (take_drop (Z.to_nat kk)) in Hsorted.
    rewrite <- fmap_take in Ha. rewrite <- fmap_drop in Hb.
    apply list_elem_of_fmap in Ha as (xa & -> & Ha), Hb as (xb & -> & Hb).
    assert (Hxa : xa ∈ scored) by (rewrite <- (elem_of_sort_by less_scored), <- (take_drop (Z.to_nat kk)), elem_of_app; by left).
    assert (Hxb : xb ∈ scored).
    { rewrite <- (elem_of_sort_by less_scored), <- (take_drop (Z.to_nat kk)), elem_of_app. by right. }
    apply Hin in Hxa as [Hxa _], Hxb as [Hxb _]. rewrite <- Hxa, <- Hxb, <- !surjective_pairing.
    exact (StronglySorted_app_1_elem_of _ _ _ xa xb Hsorted Ha Hb).
Qed.

(** ** Concrete placements *)

Module Witness.
Definition node (id : string) (cpu_allocated : Z) : Node :=
  mkNode id "compute" ∅ StatusHealthy false 8 8192 cpu_allocated 1024 0 0 fzero 512 0 0 0 ∅ ∅ 0 "" "".
Definition nodes : list Node := [node "n2" 4; node "n1" 4; node "n3" 32; node "n4" 1].
Definition req : Request :=
  mkRequest 2 512 0 "dep" "" ∅ true {["n4" := true]} ∅ "" 0 ∅ ∅ [] "" "".
Definition placer : Placer := New DefaultBestOfKConfig (mkOptions true false).
Definition perm (m : nat) : list nat := seq 0 m.
Definition fmt (_ : float64) : string := "".

Example chooses_n1 :
  (fun r => (PNodeID r.1.1, r.2)) <$> Place fmt perm placer req nodes = Some ("n1", ["n2"; "n1"]).
Proof. vm_compute. reflexivity. Qed.

Lemma chosen : exists pl hooks, Place fmt perm placer req nodes = Some ((pl, None), hooks).
Proof.
  assert ((fun r => r.1.2) <$> Place fmt perm placer req nodes = Some None) as He
    by (vm_compute; reflexivity).
  destruct (Place fmt perm placer req nodes) as [[[pl err] hooks]|]; [|discriminate].
  simplify_eq/=. by exists pl, hooks.
Qed.

Lemma place_sound_witness : exists pl hooks n,
  Place fmt perm placer req nodes = Some ((pl, None), hooks) /\
  n ∈ nodes /\ ID n = PNodeID pl /\ PScore pl = score placer n req /\ eligible (cfg placer) req n /\
  get_bool (ExistingDeploymentNodes req) (PNodeID pl) = false.
Proof.
  destruct chosen as (pl & hooks & H).
  destruct (place_sound _ _ _ _ _ _ _ H) as ((n & Hin & Hid & Hsc & Hel) & Hspread).
  exists pl, hooks, n.
  refine (conj H (conj Hin (conj Hid (conj Hsc (conj Hel _))))).
  apply Hspread; [reflexivity|discriminate|by apply not_elem_of_nil|].
  exists (node "n1" 4). split; [by do 2 constructor|]. split; [|reflexivity].
  apply passes_eligible. vm_compute. reflexivity.
Defined.

Lemma place_complete_witness : exists pl err hooks,
  Place fmt perm placer req [node "n3" 32] = Some ((pl, err), hooks) /\ err <> None /\
  PEvents pl ≡ₚ map (rejection (stages (cfg placer) req (mkEval true true))) [node "n3" 32] ++ [degraded].
Proof.
  destruct (place_complete fmt perm placer req [node "n3" 32]) as (pl & err & hooks & H & Hs & Hf);
    [by intros m|by apply not_elem_of_nil|].
  exists pl, err, hooks. split; [exact H|].
  assert (err <> None) as He by (intros ->; vm_compute in H; discriminate H).
  split; [exact He|]. by apply Hf.
Defined.

Lemma place_best_witness : exists pl hooks sample best,
  Place fmt perm placer req nodes = Some ((pl, None), hooks) /\
  length sample = 2%nat /\ best ∈ sample /\ PNodeID pl = ID best /\
  forall n, n ∈ sample -> fltb (score placer n req) (score placer best req) = false.
Proof.
  destruct chosen as (pl & hooks & H).
  destruct (place_best fmt perm placer req nodes pl hooks) as (s & b & _ & Hl & _ & Hb & Hid & _ & Hmin);
    [by intros m|intros n Hn; each_elem Hn; vm_compute; reflexivity|exact H|].
  exists pl, hooks, s, b. split; [exact H|]. split; [rewrite Hl; vm_compute; reflexivity|].
  split; [exact Hb|]. split; [exact Hid|apply Hmin].
Defined.

Lemma place_no_oversubscription_witness : exists pl hooks n,
  Place fmt perm placer req nodes = Some ((pl, None), hooks) /\ ID n = PNodeID pl /\
  MemAllocated n + MemPending n + MemMib req <= MemTotalMib n.
Proof.
  destruct chosen as (pl & hooks & H).
  destruct (place_no_oversubscription fmt perm (mkOptions true false) req nodes pl hooks)
    as (n & _ & Hid & _ & Hm & _); [exact H| |exists pl, hooks, n; exact (conj H (conj Hid Hm))].
  intros n Hn. each_elem Hn; unfold exact_figures; simpl; repeat constructor; lia.
Defined.

Lemma prefetch_top_k_witness : exists rest,
  PrefetchTopK placer req nodes 1 ++ rest ≡ₚ [node "n2" 4; node "n1" 4] /\
  length (PrefetchTopK placer req nodes 1) = 1%nat.
Proof.
  destruct (prefetch_top_k placer req nodes 1) as (rest & Hp & Hl & _);
    [intros n Hn; each_elem Hn; vm_compute; reflexivity|].
  exists rest. split; [|by rewrite Hl; vm_compute].
  rewrite Hp. apply Permutation_refl'. vm_compute. reflexivity.
Defined.
End Witness.
