(* ===== verification/GoNet.v ===== *)
(** * Addresses, prefixes and base64

    The functions of packages [net], [net/netip] and [encoding/base64] the
    program uses, by their documented behaviour. The text of a library error is
    not modelled: [lib_error] keeps which call failed on what input. *)
From S2P Require Import Prelude GoString.
From Stdlib Require Import Ascii.
Local Open Scope Z_scope.

Definition lib_error (call input : string) : goerr := Errorf call [AStr input].

(** ** netip.Addr

    An IPv4 address is its 32-bit value, an IPv6 address its 128-bit value and
    its zone. *)
Inductive Addr := AddrNone | Addr4 (v : Z) | Addr6 (v : Z) (zone : string).

#[export] Instance Addr_eq_dec : EqDecision Addr.
Proof. solve_decision. Defined.

Definition IsValid (a : Addr) : bool := match a with AddrNone => false | _ => true end.
Definition Is4 (a : Addr) : bool := match a with Addr4 _ => true | _ => false end.
Definition Is6 (a : Addr) : bool := match a with Addr6 _ _ => true | _ => false end.
Definition Is4In6 (a : Addr) : bool :=
  match a with Addr6 v _ => Z.shiftr v 32 =? 65535 | _ => false end.
Definition ZoneOf (a : Addr) : string := match a with Addr6 _ z => z | _ => "" end.
Definition BitLen (a : Addr) : Z := match a with AddrNone => 0 | Addr4 _ => 32 | Addr6 _ _ => 128 end.
Definition value (a : Addr) : Z := match a with AddrNone => 0 | Addr4 v | Addr6 v _ => v end.
Definition Unmap (a : Addr) : Addr :=
  if Is4In6 a then Addr4 (Z.land (value a) (2 ^ 32 - 1)) else a.
Definition withoutZone (a : Addr) : Addr := match a with Addr6 v _ => Addr6 v "" | _ => a end.
(** The first of the sixteen bytes. *)
Definition first_byte (a : Addr) : Z :=
  match a with Addr6 v _ => Z.shiftr v 120 | _ => 0 end.

(** [Addr.Less]. *)
Definition addr_less (a b : Addr) : bool :=
  if BitLen a =? BitLen b then
    if value a =? value b then String.ltb (ZoneOf a) (ZoneOf b) else value a <? value b
  else BitLen a <? BitLen b.

(** The address classes, for an unmapped address. *)
Definition IsLoopback (a : Addr) : bool :=
  match a with Addr4 v => Z.shiftr v 24 =? 127 | Addr6 v _ => v =? 1 | AddrNone => false end.
Definition IsLinkLocalUnicast (a : Addr) : bool :=
  match a with
  | Addr4 v => Z.shiftr v 16 =? 169 * 256 + 254
  | Addr6 v _ => Z.shiftr v 118 =? 1018 (* fe80::/10 *)
  | AddrNone => false
  end.
Definition IsLinkLocalMulticast (a : Addr) : bool :=
  match a with
  | Addr4 v => Z.shiftr v 8 =? 224 * 65536
  | Addr6 v _ => Z.land (Z.shiftr v 112) 65295 =? 65282 (* ff0f mask, ff02 *)
  | AddrNone => false
  end.
Definition IsMulticast (a : Addr) : bool :=
  match a with
  | Addr4 v => Z.land (Z.shiftr v 24) 240 =? 224
  | Addr6 v _ => Z.shiftr v 120 =? 255
  | AddrNone => false
  end.
Definition IsPrivate (a : Addr) : bool :=
  match a with
  | Addr4 v => (Z.shiftr v 24 =? 10) || (Z.shiftr v 20 =? 172 * 16 + 1) || (Z.shiftr v 16 =? 192 * 256 + 168)
  | Addr6 v _ => Z.shiftr v 121 =? 126 (* fc00::/7 *)
  | AddrNone => false
  end.
Definition IsUnspecified (a : Addr) : bool :=
  match a with Addr4 v => v =? 0 | Addr6 v z => (v =? 0) && String.eqb z "" | AddrNone => false end.

(** *** Parsing *)

Fixpoint digits_val (acc : Z) (s : string) : option Z :=
  match s with
  | EmptyString => Some acc
  | String c s' => if is_digit c then digits_val (acc * 10 + digit_val c) s' else None
  end.

(** An octet: decimal digits without a leading zero, at most 255. *)
Definition parse_octet (s : string) : option Z :=
  match s with
  | EmptyString => None
  | String c s' =>
      if Ascii.eqb c "0" && negb (String.eqb s' "") then None
      else if Nat.ltb 3 (String.length s) then None
      else match digits_val 0 s with
           | Some v => if v <=? 255 then Some v else None
           | None => None
           end
  end.

Definition parse4 (s : string) : option Z :=
  match map parse_octet (split_byte "." s) with
  | [Some a; Some b; Some c; Some d] => Some (((a * 256 + b) * 256 + c) * 256 + d)
  | _ => None
  end.

Definition hex_val (c : ascii) : option Z :=
  if is_digit c then Some (digit_val c)
  else if in_range "a" "f" c then Some (byte_of c - byte_of "a" + 10)
  else if in_range "A" "F" c then Some (byte_of c - byte_of "A" + 10)
  else None.

Fixpoint hex_digits (acc : Z) (s : string) : option Z :=
  match s with
  | EmptyString => Some acc
  | String c s' => match hex_val c with Some d => hex_digits (acc * 16 + d) s' | None => None end
  end.

Definition parse_group (s : string) : option Z :=
  if String.eqb s "" || Nat.ltb 4 (String.length s) then None else hex_digits 0 s.

(** Colon-separated groups; the last may be a dotted address when [tail]. *)
Fixpoint parse_groups (tail : bool) (fields : list string) : option (list Z) :=
  match fields with
  | [] => Some []
  | [f] =>
      match parse_group f with
      | Some g => Some [g]
      | None => if tail then v ← parse4 f; Some [Z.shiftr v 16; Z.land v 65535] else None
      end
  | f :: fs => g ← parse_group f; gs ← parse_groups tail fs; Some (g :: gs)
  end.

Definition groups_of (tail : bool) (s : string) : option (list Z) :=
  if String.eqb s "" then Some [] else parse_groups tail (split_byte ":" s).

Definition value_of_groups (gs : list Z) : Z := fold_left (fun acc g => acc * 65536 + g) gs 0.

(** The part before the zone: eight groups, or fewer around one [::]. *)
Definition parse6_body (s : string) : option Z :=
  match index s "::" with
  | None =>
      gs ← groups_of true s;
      if Nat.eqb (length gs) 8 then Some (value_of_groups gs) else None
  | Some i =>
      l ← groups_of false (stake i s);
      r ← groups_of true (sdrop (i + 2) s);
      let n := (length l + length r)%nat in
      if Nat.leb n 7 then Some (value_of_groups (l ++ repeat 0 (8 - n) ++ r)) else None
  end.

Definition parse6 (s : string) : option Addr :=
  match index_byte s "%" with
  | None => v ← parse6_body s; Some (Addr6 v "")
  | Some i =>
      let zone := sdrop (S i) s in
      if String.eqb zone "" then None else v ← parse6_body (stake i s); Some (Addr6 v zone)
  end.

(** The first of [.], [:] and [%] decides. *)
Fixpoint addr_kind (s : string) : option ascii :=
  match s with
  | EmptyString => None
  | String c s' =>
      if Ascii.eqb c "." || Ascii.eqb c ":" || Ascii.eqb c "%" then Some c else addr_kind s'
  end%char.

(** [netip.ParseAddr]. *)
Definition ParseAddr (s : string) : option Addr :=
  match addr_kind s with
  | Some "."%char => v ← parse4 s; Some (Addr4 v)
  | Some ":"%char => parse6 s
  | _ => None
  end.

(** [net.ParseIP]; of the result the program asks whether [To4] is nil. *)
Definition ParseIP (s : string) : option Addr :=
  a ← ParseAddr s; if String.eqb (ZoneOf a) "" then Some a else None.
Definition To4_nil (a : Addr) : bool := negb (Is4 a || Is4In6 a).

(** *** Formatting *)

Definition dotted (v : Z) : string :=
  join "." (map itoa [Z.shiftr v 24; Z.land (Z.shiftr v 16) 255; Z.land (Z.shiftr v 8) 255; Z.land v 255]).

Definition hex_char (d : Z) : ascii :=
  ascii_of_nat (Z.to_nat (if d <? 10 then 48 + d else 87 + d)).
Fixpoint hex_fuel (fuel : nat) (v : Z) (acc : string) : string :=
  match fuel with
  | O => acc
  | S f =>
      let acc := String (hex_char (v mod 16)) acc in
      if v / 16 =? 0 then acc else hex_fuel f (v / 16) acc
  end.
Definition hex (v : Z) : string := hex_fuel 4 v "".

Definition groups6 (v : Z) : list Z := map (fun i => Z.land (Z.shiftr v (16 * (7 - Z.of_nat i))) 65535) (seq 0 8).

(** The length of the run of zero groups at the front. *)
Fixpoint zero_run (gs : list Z) : nat :=
  match gs with 0 :: gs' => S (zero_run gs') | _ => O end.
(** The first longest run: its start and length. *)
Fixpoint longest_run (i : nat) (gs : list Z) (best : nat * nat) : nat * nat :=
  match gs with
  | [] => best
  | _ :: gs' =>
      let n := zero_run gs in
      longest_run (S i) gs' (if Nat.ltb best.2 n then (i, n) else best)
  end.

Definition body6 (v : Z) : string :=
  let gs := groups6 v in
  let '(i, n) := longest_run 0 gs (0%nat, 1%nat) in
  if Nat.leb n 1 then join ":" (map hex gs)
  else join ":" (map hex (take i gs)) +:+ "::" +:+ join ":" (map hex (drop (i + n) gs)).

(** [Addr.String]. *)
Definition addr_string (a : Addr) : string :=
  match a with
  | AddrNone => "invalid IP"
  | Addr4 v => dotted v
  | Addr6 v z =>
      (if Is4In6 a then "::ffff:" +:+ dotted (Z.land v (2 ^ 32 - 1)) else body6 v) +:+
      (if String.eqb z "" then "" else "%" +:+ z)
  end.

(** ** netip.Prefix

    [bits] is -1 in an invalid prefix. *)
Record Prefix := mkPrefix { PAddr : Addr; PBits : Z }.

#[export] Instance Prefix_eq_dec : EqDecision Prefix.
Proof. solve_decision. Defined.

Definition PrefixFrom (a : Addr) (bits : Z) : Prefix :=
  mkPrefix (withoutZone a) (if IsValid a && (0 <=? bits) && (bits <=? BitLen a) then bits else -1).
Definition prefix_valid (p : Prefix) : bool := 0 <=? PBits p.

(** [Prefix.Masked]. *)
Definition mask_value (len bits v : Z) : Z := Z.shiftl (Z.shiftr v (len - bits)) (len - bits).
Definition Masked (p : Prefix) : Prefix :=
  match PAddr p with
  | AddrNone => mkPrefix AddrNone (-1)
  | Addr4 v => mkPrefix (Addr4 (mask_value 32 (PBits p) v)) (PBits p)
  | Addr6 v z => mkPrefix (Addr6 (mask_value 128 (PBits p) v) "") (PBits p)
  end.

(** [Prefix.Contains]. *)
Definition Contains (p : Prefix) (a : Addr) : bool :=
  prefix_valid p && String.eqb (ZoneOf a) "" && negb (BitLen a =? 0) && (BitLen (PAddr p) =? BitLen a) &&
  (Z.shiftr (value a) (BitLen a - PBits p) =? Z.shiftr (value (PAddr p)) (BitLen a - PBits p)).

(** [Prefix.String]. *)
Definition prefix_string (p : Prefix) : string :=
  if prefix_valid p then addr_string (PAddr p) +:+ "/" +:+ itoa (PBits p) else "invalid Prefix".

(** [netip.ParsePrefix]: after the last slash a decimal number without sign or
    leading zero. *)
Definition ParsePrefix (s : string) : option Prefix :=
  match last_index_byte s "/" with
  | None => None
  | Some i =>
      a ← ParseAddr (stake i s);
      let bits := sdrop (S i) s in
      if negb (String.eqb (ZoneOf a) "") then None
      else if String.eqb bits "" then None
      else if Nat.ltb 1 (String.length bits) &&
              match bits with String c _ => negb (in_range "1" "9" c) | EmptyString => false end
      then None
      else n ← digits_val 0 bits;
           if n <=? BitLen a then Some (PrefixFrom a n) else None
  end.

(** [net.ParseCIDR], of which the program uses the address: the mask may have
    leading zeros; its value stays below the parser's bound. *)
Definition ParseCIDR (s : string) : option Addr :=
  match index_byte s "/" with
  | None => None
  | Some i =>
      a ← ParseIP (stake i s);
      let mask := sdrop (S i) s in
      if String.eqb mask "" then None
      else n ← digits_val 0 mask; if n <=? BitLen a then Some a else None
  end.

(** [net.SplitHostPort]. *)
Definition SplitHostPort (s : string) : option (string * string) :=
  match last_index_byte s ":" with
  | None => None
  | Some i =>
      match s with
      | String "[" _ =>
          match index_byte s "]" with
          | None => None
          | Some e =>
              if Nat.eqb (S e) i then
                if contains_byte (sdrop 1 s) "[" || contains_byte (sdrop (S e) s) "]" then None
                else Some (sdrop 1 (stake e s), sdrop (S i) s)
              else None
          end
      | _ =>
          if contains_byte (stake i s) ":" || contains_byte s "[" || contains_byte s "]" then None
          else Some (stake i s, sdrop (S i) s)
      end
  end.

(** ** base64.StdEncoding

    The alphabet's values; carriage returns and newlines are skipped; the last
    group may be padded. Only the number of decoded bytes is kept. *)
Definition b64_char (c : ascii) : bool :=
  in_range "A" "Z" c || in_range "a" "z" c || is_digit c || Ascii.eqb c "+" || Ascii.eqb c "/".

Fixpoint strip_newlines (s : string) : list ascii :=
  match s with
  | EmptyString => []
  | String c s' =>
      if Ascii.eqb c (ascii_of_nat 10) || Ascii.eqb c (ascii_of_nat 13)
      then strip_newlines s' else c :: strip_newlines s'
  end.

Fixpoint b64_groups (l : list ascii) : option nat :=
  match l with
  | [] => Some 0%nat
  | a :: b :: c :: d :: l' =>
      if b64_char a && b64_char b then
        match l' with
        | [] =>
            if b64_char c && b64_char d then Some 3%nat
            else if b64_char c && Ascii.eqb d "=" then Some 2%nat
            else if Ascii.eqb c "=" && Ascii.eqb d "=" then Some 1%nat else None
        | _ => if b64_char c && b64_char d then n ← b64_groups l'; Some (n + 3)%nat else None
        end
      else None
  | _ => None
  end.

Definition b64_decoded_len (s : string) : option nat := b64_groups (strip_newlines s).

(** ** Examples *)

Example parse_v4 : ParseAddr "10.0.200.7" = Some (Addr4 (10 * 2 ^ 24 + 200 * 256 + 7)).
Proof. vm_compute. reflexivity. Qed.
Example parse_v6 : addr_string <$> ParseAddr "fD00:0:0::1:0" = Some "fd00::1:0".
Proof. vm_compute. reflexivity. Qed.
Example parse_mapped : addr_string <$> ParseAddr "::ffff:1.2.3.4%eth0" = Some "::ffff:1.2.3.4%eth0".
Proof. vm_compute. reflexivity. Qed.
Example parse_bad : map ParseAddr ["1.2.3"; "1.2.3.04"; "1:2"; ":::"; "1::2::3"; "::%"; "1.2.3.4::"; "256.1.1.1"] =
  repeat None 8.
Proof. vm_compute. reflexivity. Qed.
Example parse_prefix : prefix_string <$> ParsePrefix "10.1.2.3/8" = Some "10.1.2.3/8".
Proof. vm_compute. reflexivity. Qed.
Example split_hostport : map SplitHostPort ["[::1]:80"; "a:1"; "a"; "a:b:1"; "[::1]"] =
  [Some ("::1", "80"); Some ("a", "1"); None; None; None].
Proof. vm_compute. reflexivity. Qed.

(** ** Lemmas *)

(** Unmapping leaves no mapped address. *)
Lemma Unmap_idemp a : Unmap (Unmap a) = Unmap a.
Proof. unfold Unmap. destruct (Is4In6 a) eqn:H; [done|by rewrite H]. Qed.

(** A prefix and its canonical form contain the same addresses. *)
Lemma Contains_Masked p a : 0 <= PBits p <= BitLen (PAddr p) -> Contains (Masked p) a = Contains p a.
Proof.
  destruct p as [pa b]; simpl. intros Hb.
  assert (Hs : forall len v, 0 <= b <= len ->
    Z.shiftr (mask_value len b v) (len - b) = Z.shiftr v (len - b)).
  { intros len v Hl. unfold mask_value. rewrite Z.shiftr_shiftl_l by lia.
    by rewrite Z.sub_diag, Z.shiftl_0_r. }
  destruct pa as [|v|v z]; simpl in Hb.
  - unfold Contains, Masked, prefix_valid; simpl. destruct a; simpl;
      rewrite ?andb_false_r; done.
  - unfold Contains, Masked, prefix_valid; simpl. destruct a as [|w|w y]; simpl;
      rewrite ?andb_false_r; try done. by rewrite Hs by lia.
  - unfold Contains, Masked, prefix_valid; simpl. destruct a as [|w|w y]; simpl;
      rewrite ?andb_false_r; try done. by rewrite Hs by lia.
Qed.
