(* ===== verification/Ulanet.v ===== *)
(** * ULA prefixes (shared/pkg/ulanet/ulanet.go)

    The single check of RFC 4193 addresses (fd00::/8) both the store and the
    fabric contract use. *)
From S2P Require Import Prelude GoString GoNet.
Local Open Scope Z_scope.

Definition IsULAPrefix (p : Prefix) : bool :=
  if negb (prefix_valid p) then false
  else Is6 (PAddr p) && negb (Is4In6 (PAddr p)) && (first_byte (PAddr p) =? 253).

Definition IsULAAddr (addr : Addr) : bool := IsValid addr && IsULAPrefix (PrefixFrom addr 128).

Definition CanonicalizePrefix (prefix : Prefix) (wantBits : Z) : res Prefix :=
  if negb (PBits prefix =? wantBits) then
    Err (Errorf "%s must be a /%d" [AStr (prefix_string prefix); AInt wantBits])
  else if negb (IsULAPrefix prefix) then
    Err (Errorf "%s is outside RFC 4193 fd00::/8" [AStr (prefix_string prefix)])
  else
    let masked := Masked prefix in
    if bool_decide (PAddr prefix <> PAddr masked) then
      Err (Errorf "%s has host bits set (canonical form %s)"
             [AStr (prefix_string prefix); AStr (prefix_string masked)])
    else Ok masked.

Definition ValidatePrefix (raw : string) (wantBits : Z) : res Prefix :=
  match ParsePrefix (trim_space raw) with
  | None => Err (Errorf "parse %q: %v" [AStr raw; AErr (lib_error "netip.ParsePrefix" (trim_space raw))])
  | Some prefix => CanonicalizePrefix prefix wantBits
  end.

(** ** What an accepted prefix is *)

#[local] Opaque Z.shiftr.

(** The addresses of fd00::/8. *)
Definition ula_value (v : Z) : Prop := Z.shiftr v 120 = 253.

Lemma IsULAPrefix_spec p :
  IsULAPrefix p = true -> exists v z, PAddr p = Addr6 v z /\ ula_value v.
Proof.
  unfold IsULAPrefix. destruct (prefix_valid p); [|done]. simpl.
  destruct (PAddr p) as [|v|v z]; [discriminate|discriminate|].
  intros [_ H]%andb_true_iff. exists v, z. split; [reflexivity|]. by apply Z.eqb_eq.
Qed.

Lemma IsULAAddr_spec a : IsULAAddr a = true <-> exists v z, a = Addr6 v z /\ ula_value v.
Proof.
  unfold IsULAAddr. split.
  - intros [_ H]%andb_true_iff. apply IsULAPrefix_spec in H as (v & z & Ha & Hv).
    destruct a as [|w|w y]; simpl in Ha; simplify_eq. eauto.
  - intros (v & z & -> & Hv). unfold ula_value in Hv.
    unfold IsULAPrefix, prefix_valid. simpl. rewrite Hv. simpl.
    destruct (Z.shiftr v 32 =? 65535) eqn:H4; [|done]. apply Z.eqb_eq in H4.
    assert (Z.shiftr (Z.shiftr v 32) 88 = 253) as H by (rewrite Z.shiftr_shiftr by lia; exact Hv).
    rewrite H4 in H. discriminate H.
Qed.

(** An accepted prefix is its own mask: an IPv6 network of the asked length in
    fd00::/8, without host bits and without a zone. *)
Lemma CanonicalizePrefix_ok p bits q :
  CanonicalizePrefix p bits = Ok q ->
  q = Masked p /\ PAddr q = PAddr p /\ PBits q = bits /\ IsULAPrefix p = true.
Proof.
  unfold CanonicalizePrefix. intros H. split_match_in H. bool_to_prop.
  split; [done|]. split; [by apply dec_stable in Heqb1|]. split; [|done].
  unfold Masked. destruct (PAddr p) eqn:Hp; simpl; try done.
  unfold IsULAPrefix in *. rewrite Hp in *. by destruct (prefix_valid p).
Qed.

(** [ValidatePrefix] accepts exactly the canonical networks: the
    result lies in fd00::/8, has the asked length, no zone and no host bits, and
    validating it again (in its written form's place) changes nothing. *)
Theorem validate_prefix_canonical raw bits q :
  ValidatePrefix raw bits = Ok q ->
  (exists v, PAddr q = Addr6 v "" /\ ula_value v /\ mask_value 128 bits v = v) /\
  PBits q = bits /\ CanonicalizePrefix q bits = Ok q.
Proof.
  unfold ValidatePrefix. destruct (ParsePrefix _) as [p|]; [|done]. intros H.
  pose proof H as Hc. apply CanonicalizePrefix_ok in H as (Hq & Ha & Hb & Hu).
  pose proof (IsULAPrefix_spec p Hu) as (v & z & Hp & Hv).
  unfold Masked in Hq. rewrite Hp in Hq, Ha. subst q. simpl in *. subst bits.
  injection Ha as Hm Hz. subst z. split_and!; [by exists v; rewrite Hm|done|].
  rewrite Hm in Hc |- *. by destruct p as [pa pb]; simpl in *; subst pa.
Qed.

Lemma validate_prefix_canonical_witness :
  exists q, ValidatePrefix " fd12:3456::/64 " 64 = Ok q /\ PBits q = 64 /\ CanonicalizePrefix q 64 = Ok q.
Proof.
  assert (exists q, ValidatePrefix " fd12:3456::/64 " 64 = Ok q) as (q & H)
    by (eexists; vm_compute; reflexivity).
  exists q. split; [exact H|]. apply (validate_prefix_canonical _ _ _ H).
Defined.
