(* ===== verification/AgentContract.v ===== *)
(** * The agent contract (internal/contracts/agentv1/validate.go)

    The checks the control plane and the agent share. A protobuf message is the
    record of the fields the checks read, a message pointer an option, an enum
    its number. [strings.ToLower] outside ASCII is the parameter
    [unicode_lower]. *)
From S2P Require Import Prelude GoString GoNet Ulanet.
From Stdlib Require Import Ascii.
Local Open Scope Z_scope.
Local Open Scope go_scope.

(** ** Messages *)

Record EgressPolicySpec := mkEgressPolicySpec {
  Mode : Z; AllowedCidrs : list string; DeniedCidrs : list string;
  AllowedDomains : list string; MaxTcpConnections : Z; PolicyGeneration : Z; AuditAll : bool }.
Definition MODE_UNSPECIFIED : Z := 0.
Definition UNRESTRICTED : Z := 1.
Definition DENY_ALL : Z := 2.
Definition ALLOWLIST : Z := 3.

Record EastWestPolicyRule := mkRule {
  SrcProject : string; SrcApp : string;
  DstProject : string; DstApp : string; DstService : string; Ports : list Z }.
Record EastWestPolicySpec := mkEastWest { EWGeneration : Z; Rules : list EastWestPolicyRule }.

Record AutoStandbyPolicy := mkAutoStandby { Enabled : bool; IdleTimeoutSeconds : Z }.
Record ServiceSpec := mkService { SName : string; InternalPort : Z }.
Record NetworkSpec := mkNetwork {
  IngressPort : Z; Egress : option EgressPolicySpec; Eastwest : option EastWestPolicySpec }.
Record MachineSpec := mkMachineSpec {
  ProjectId : string; AppId : string; DeploymentId : string; ExecutionId : string;
  ImageRef : string; Vcpu : Z; MemMib : Z;
  AutoStandby : option AutoStandbyPolicy; Services : list ServiceSpec; Network : option NetworkSpec }.
Record CreateMachineRequest := mkCreate {
  CMachineId : string; Spec : option MachineSpec; CGeneration : Z; COperationId : string;
  SecretEnv : gmap string string; SecretLeaseId : string }.

(** A request that carries the fencing keys of a machine operation. *)
Record Fenced := mkFenced { MachineId : string; FExecutionId : string; Generation : Z; OperationId : string }.

Record SnapshotCompressionSpec := mkCompression { Algorithm : Z; Level : Z }.
Definition ALGORITHM_UNSPECIFIED : Z := 0.
Definition NONE : Z := 1.
Definition ZSTD : Z := 2.
Definition LZ4 : Z := 3.
Definition SNAPSHOT_MEMORY : Z := 1.
Definition SNAPSHOT_FILESYSTEM : Z := 2.

Record FabricPeer := mkPeer {
  PNodeId : string; Pubkey : string; Endpoint : string; PNodePrefix : string; PFabricGeneration : Z }.
Record IdentityMapping := mkIdentity {
  IdentityId : Z; TrustDomain : string; IProjectId : string; IAppId : string; Service : string;
  IMachineId : string; IExecutionId : string; IGeneration : Z; Ula : string; IMeshDirect : bool }.
Record DnsRecord := mkDns { DName : string; Aaaa : list string; DGeneration : Z }.
Record ApplyFabricRequest := mkFabric {
  NodeId : string; FabricGeneration : Z; AOperationId : string; NodePrefix : string;
  Peers : list FabricPeer; Identities : list IdentityMapping;
  AEastwest : option EastWestPolicySpec; Dns : list DnsRecord }.

(** ** Fencing and the small requests *)

Definition is_empty (s : string) : bool := String.eqb s "".
Definition e (msg : string) : goerr := errors_New msg.

Definition checkPortRange (port : Z) : bool := negb (port =? 0) && (port <=? 65535).

Definition ValidateFencing (machineID executionID : string) (generation : Z) (operationID : string) : res unit :=
  switch [(is_empty machineID, e "machine_id is required");
          (is_empty executionID, e "execution_id is required");
          (generation =? 0, e "generation must be > 0");
          (is_empty operationID, e "operation_id is required")].

Definition fencing (f : Fenced) : res unit :=
  ValidateFencing (MachineId f) (FExecutionId f) (Generation f) (OperationId f).

Definition requires {A} (req : option A) (k : A -> res unit) : res unit :=
  match req with None => Err (e "request is required") | Some r => k r end.

Definition ValidateDeleteRequest (req : option Fenced) : res unit := requires req fencing.

Definition ValidateOperationRequest (op : option Fenced) : res unit :=
  match op with None => Err (e "operation is required") | Some f => fencing f end.

Definition ValidateRuntimeSessionFence (machineID executionID : string) : res unit :=
  switch [(is_empty machineID, e "machine_id is required");
          (is_empty executionID, e "execution_id is required")].

Definition DefaultDiskMib : Z := 10 * 1024.
Definition EffectiveDiskMib (diskMib : Z) : Z := if diskMib =? 0 then DefaultDiskMib else diskMib.

(** *** Snapshots *)

Definition ValidateSnapshotCompression (c : option SnapshotCompressionSpec) : res unit :=
  match c with
  | None => Ok tt
  | Some c =>
      let l := Level c in
      if (Algorithm c =? ALGORITHM_UNSPECIFIED) || (Algorithm c =? NONE) then Ok tt
      else if Algorithm c =? ZSTD then
        if (l <? 0) || (19 <? l) then Err (Errorf "zstd level must be in [-1,19], got %d" [AInt l]) else Ok tt
      else if Algorithm c =? LZ4 then
        if (l <? 0) || (9 <? l) then Err (Errorf "lz4 level must be in [-1,9], got %d" [AInt l]) else Ok tt
      else Err (Errorf "unsupported compression algorithm %v" [AInt (Algorithm c)])
  end.

Definition wrap (format : string) (err : goerr) : goerr := Errorf format [AErr err].

Definition ValidateCreateSnapshotRequest
    (req : option (Fenced * string * Z * option SnapshotCompressionSpec)) : res unit :=
  requires req (fun '(f, snapshotId, kind, compression) =>
    res_map_err (wrap "snapshot fencing: %w") (fencing f) ;;;
    switch [(is_empty snapshotId, e "snapshot_id is required");
            (negb ((kind =? SNAPSHOT_MEMORY) || (kind =? SNAPSHOT_FILESYSTEM)),
             e "snapshot kind must be memory or filesystem")] ;;;
    ValidateSnapshotCompression compression).

Definition ValidateDeleteSnapshotRequest (req : option (Fenced * string)) : res unit :=
  requires req (fun '(f, snapshotId) =>
    res_map_err (wrap "snapshot delete fencing: %w") (fencing f) ;;;
    switch [(is_empty snapshotId, e "snapshot_id is required")]).

Definition ValidateForkSnapshotRequest (req : option (Fenced * string)) : res unit :=
  requires req (fun '(f, snapshotId) =>
    res_map_err (wrap "fork fencing: %w") (fencing f) ;;;
    switch [(is_empty snapshotId, e "snapshot_id is required")]).

Definition ValidateRestoreSnapshotRequest (req : option (Fenced * string * string)) : res unit :=
  requires req (fun '(f, snapshotId, mode) =>
    res_map_err (wrap "restore fencing: %w") (fencing f) ;;;
    switch [(is_empty snapshotId, e "snapshot_id is required");
            (negb (existsb (String.eqb mode) [""; "memory"; "filesystem"; "auto"]),
             Errorf "restore_mode must be memory, filesystem or auto, got %q" [AStr mode])]).

Definition ValidateScrubSnapshotRequest (req : option (string * string)) : res unit :=
  requires req (fun '(snapshotId, revision) =>
    switch [(is_empty snapshotId, e "snapshot_id is required");
            (is_empty revision, e "expected_revision is required")]).

(** *** Quarantine *)

Definition ValidateQuarantineImageRequest (req : option (string * string * string * string)) : res unit :=
  requires req (fun '(imageRef, claimId, operationId, revision) =>
    switch [(is_empty imageRef || is_empty claimId || is_empty operationId || is_empty revision,
             e "image_ref, claim_id, operation_id and expected_revision are required")]).

Definition ValidateImageQuarantineActionRequest (req : option (string * string * string)) : res unit :=
  requires req (fun '(claimId, token, operationId) =>
    switch [(is_empty claimId || is_empty token || is_empty operationId,
             e "claim_id, token and operation_id are required")]).

Definition ValidateQuarantineVolumeRequest
    (req : option (string * string * string * string * string * bool)) : res unit :=
  requires req (fun '(volumeId, claimId, operationId, revision, mode, rebuildable) =>
    switch [(is_empty volumeId || is_empty claimId || is_empty operationId || is_empty revision,
             e "volume_id, claim_id, operation_id and expected_revision are required");
            (negb (String.eqb mode "DATASET_RO") || negb rebuildable,
             e "only rebuildable DATASET_RO may be quarantined")]).

Definition ValidateVolumeQuarantineActionRequest (req : option (string * string * string)) : res unit :=
  requires req (fun '(claimId, token, operationId) =>
    switch [(is_empty claimId || is_empty token || is_empty operationId,
             e "claim_id, token and operation_id are required")]).

(** *** Guest paths *)

Definition ValidateGuestPath (p : string) : res unit :=
  switch [(is_empty p, e "path is required");
          (negb (has_prefix p "/"), e "path must be absolute");
          (existsb (String.eqb "..") (split_byte "/" p), e "path traversal not allowed");
          (String.eqb (path_clean p) "/", e "path must be a file, not root")].

(** ** Egress *)

(** A byte of a label; the code ranges over runes, and a rune outside ASCII is
    refused as each of its bytes is. *)
Definition label_byte (c : ascii) : bool := in_range "a" "z" c || is_digit c || Ascii.eqb c "-".

Definition valid_label (l : string) : bool :=
  negb (is_empty l) && Nat.leb (String.length l) 63 && sforall label_byte l &&
  negb (has_prefix l "-") && negb (has_suffix l "-").

Definition validEgressDomainLabelSet (d : string) : bool :=
  if is_empty d || Nat.ltb 253 (String.length d) then false
  else forallb valid_label (split_byte "." d).

Section validate.
Context (unicode_lower : string -> string).

Definition NormalizeEgressDomain (raw : string) : res string :=
  let d := trim_suffix (trim_space (to_lower unicode_lower raw)) "." in
  if is_empty d then Err (e "egress domain must be non-empty")
  else if contains_any d "/?#:@" then
    Err (Errorf "egress domain %q must not contain scheme/path/port" [AStr raw])
  else if has_prefix d "*." then
    let suffix := trim_prefix d "*." in
    if is_empty suffix || contains_byte suffix "*" then
      Err (Errorf "egress wildcard domain %q must be *.example.com (single label)" [AStr raw])
    else if negb (validEgressDomainLabelSet suffix) then
      Err (Errorf "egress wildcard domain %q has invalid suffix" [AStr raw])
    else Ok ("*." +:+ suffix)
  else if contains_byte d "*" then
    Err (Errorf "egress domain %q has unsupported wildcard form" [AStr raw])
  else
    match ParseIP d with
    | Some ip =>
        if To4_nil ip then Err (Errorf "egress domain %q: IPv6 egress is not supported" [AStr raw])
        else Ok d
    | None =>
        if negb (validEgressDomainLabelSet d) then
          Err (Errorf "egress domain %q is not a valid hostname" [AStr raw])
        else Ok d
    end.

(** One entry of [allowed_cidrs] or [denied_cidrs]. *)
Definition check_cidr (field : string) (i : Z) (cidr : string) : res unit :=
  match ParseCIDR (trim_space cidr) with
  | None => Err (Errorf ("egress " +:+ field +:+ "[%d] %q: %v")
                   [AInt i; AStr cidr; AErr (lib_error "net.ParseCIDR" (trim_space cidr))])
  | Some ip =>
      if To4_nil ip then
        Err (Errorf ("egress " +:+ field +:+ "[%d] %q: IPv6 egress is not supported") [AInt i; AStr cidr])
      else Ok tt
  end.

Definition ValidateEgressPolicy (p : option EgressPolicySpec) : res unit :=
  match p with
  | None => Ok tt
  | Some p =>
      switch [(negb (existsb (Z.eqb (Mode p)) [MODE_UNSPECIFIED; UNRESTRICTED; DENY_ALL; ALLOWLIST]),
               Errorf "egress mode %d is invalid" [AInt (Mode p)])] ;;;
      check_all (check_cidr "allowed_cidrs") (AllowedCidrs p) ;;;
      check_all (check_cidr "denied_cidrs") (DeniedCidrs p) ;;;
      check_distinct
        (fun i d => res_map_err (fun err => Errorf "egress allowed_domains[%d]: %v" [AInt i; AErr err])
                      (NormalizeEgressDomain d))
        (fun i k => Errorf "egress allowed_domains[%d] %q duplicated" [AInt i; AStr k])
        0 [] (AllowedDomains p) ;;;
      switch [(PolicyGeneration p =? 0, e "egress policy_generation must be > 0")]
  end.

Definition ValidateEgressPolicySubmission (p : option EgressPolicySpec) : res unit :=
  ValidateEgressPolicy p ;;;
  match p with
  | None => Ok tt
  | Some p =>
      switch [(negb (Nat.eqb (length (AllowedDomains p)) 0) && negb (Mode p =? ALLOWLIST),
               Errorf "egress allowed_domains requires mode ALLOWLIST, got mode %d (domains only constrain TCP 80/443; use allowed_cidrs for the rest)"
                 [AInt (Mode p)])]
  end.

(** ** East-west rules *)

Definition checkEastWestRuleFields (i : Z) (r : EastWestPolicyRule) : res unit :=
  switch [(is_empty (SrcProject r), Errorf "eastwest rules[%d].src_project is required" [AInt i]);
          (is_empty (SrcApp r), Errorf "eastwest rules[%d].src_app is required" [AInt i]);
          (is_empty (DstProject r), Errorf "eastwest rules[%d].dst_project is required" [AInt i]);
          (is_empty (DstApp r), Errorf "eastwest rules[%d].dst_app is required" [AInt i]);
          (is_empty (DstService r), Errorf "eastwest rules[%d].dst_service is required" [AInt i]);
          (Nat.eqb (length (Ports r)) 0, Errorf "eastwest rules[%d].ports is required" [AInt i])] ;;;
  check_distinct
    (fun _ port =>
       if negb (checkPortRange port)
       then Err (Errorf "eastwest rules[%d].ports contains %d, want [1,65535]" [AInt i; AInt port])
       else Ok port)
    (fun _ port => Errorf "eastwest rules[%d].ports %d duplicated" [AInt i; AInt port])
    0 [] (Ports r).

Definition dst_key (r : EastWestPolicyRule) : string :=
  DstProject r +:+ "/" +:+ DstApp r +:+ "/" +:+ DstService r.

Definition ValidateEastWestPolicy (p : option EastWestPolicySpec) : res unit :=
  match p with
  | None => Ok tt
  | Some p =>
      switch [(EWGeneration p =? 0, e "eastwest generation must be > 0")] ;;;
      check_distinct (fun i r => checkEastWestRuleFields i r ;;; Ok (dst_key r))
        (fun i k => Errorf "eastwest rules[%d] dst %s duplicated" [AInt i; AStr k]) 0 [] (Rules p)
  end.

(** The arrow of the key is U+2192. *)
Definition table_key (r : EastWestPolicyRule) : string :=
  SrcProject r +:+ "/" +:+ SrcApp r +:+ bytes [226; 134; 146]%nat +:+ dst_key r.

Definition ValidateEastWestPolicyTable (p : option EastWestPolicySpec) : res unit :=
  match p with
  | None => Ok tt
  | Some p =>
      switch [(EWGeneration p =? 0, e "eastwest table generation must be > 0")] ;;;
      check_distinct (fun i r => checkEastWestRuleFields i r ;;; Ok (table_key r))
        (fun i k => Errorf "eastwest table rules[%d] %s duplicated" [AInt i; AStr k]) 0 [] (Rules p)
  end.

(** ** Machine creation *)

Definition uint32 (z : Z) : Z := z mod 2 ^ 32.

(** The loop over the services, with the names and ports seen so far. *)
Fixpoint check_services (i : Z) (names : list string) (ports : list Z) (svcs : list ServiceSpec) : res unit :=
  match svcs with
  | [] => Ok tt
  | s :: svcs' =>
      switch [(is_empty (SName s), Errorf "spec.services[%d].name is required" [AInt i]);
              (bool_decide (SName s ∈ names),
               Errorf "spec.services[%d].name %q duplicated" [AInt i; AStr (SName s)]);
              (negb (checkPortRange (InternalPort s)),
               e "spec.services[].internal_port must be in [1,65535]");
              (bool_decide (InternalPort s ∈ ports),
               Errorf "spec.services[%d].internal_port %d duplicated" [AInt i; AInt (InternalPort s)])] ;;;
      check_services (i + 1) (SName s :: names) (InternalPort s :: ports) svcs'
  end.

Definition ValidateMachineSpecForCreate (spec : option MachineSpec) : res unit :=
  match spec with
  | None => Err (e "spec is required")
  | Some spec =>
      switch [(is_empty (ProjectId spec), e "spec.project_id is required");
              (is_empty (AppId spec), e "spec.app_id is required");
              (is_empty (DeploymentId spec), e "spec.deployment_id is required");
              (is_empty (ExecutionId spec), e "spec.execution_id is required");
              (is_empty (ImageRef spec), e "spec.image_ref is required");
              (Vcpu spec =? 0, e "spec.vcpu must be > 0");
              (MemMib spec =? 0, e "spec.mem_mib must be > 0")] ;;;
      match AutoStandby spec with
      | Some a =>
          switch [(Enabled a && (IdleTimeoutSeconds a =? 0),
                   e "spec.auto_standby.idle_timeout_seconds must be > 0 when enabled")]
      | None => Ok tt
      end ;;;
      match Services spec with
      | [] => Ok tt
      | first :: _ =>
          switch [(Nat.ltb 8 (length (Services spec)), e "spec.services supports at most 8 entries in v1.1")] ;;;
          match Network spec with
          | None => Err (e "spec.network is required when services are declared")
          | Some net =>
              switch [(negb (InternalPort first =? uint32 (IngressPort net)),
                       e "spec.services[0].internal_port must equal spec.network.ingress_port")] ;;;
              check_services 0 [] [] (Services spec)
          end
      end ;;;
      match Network spec with
      | None => Ok tt
      | Some net =>
          ValidateEgressPolicy (Egress net) ;;;
          ValidateEastWestPolicy (Eastwest net) ;;;
          check_all (fun i r =>
            switch [(negb (String.eqb (SrcProject r) (ProjectId spec)) || negb (String.eqb (SrcApp r) (AppId spec)),
                     Errorf "eastwest rules[%d] src %s/%s is not this execution's identity %s/%s"
                       [AInt i; AStr (SrcProject r); AStr (SrcApp r); AStr (ProjectId spec); AStr (AppId spec)])])
            (from_option Rules [] (Eastwest net))
      end
  end.

Definition ValidateCreateRequest (req : option CreateMachineRequest) : res unit :=
  requires req (fun r =>
    res_map_err (wrap "create fencing: %w")
      (ValidateFencing (CMachineId r) (from_option ExecutionId "" (Spec r)) (CGeneration r) (COperationId r)) ;;;
    switch [(negb (Nat.eqb (size (SecretEnv r)) 0) && is_empty (SecretLeaseId r),
             e "secret_lease_id is required when secret_env is present")] ;;;
    ValidateMachineSpecForCreate (Spec r)).

(** ** Fabric snapshots *)

Definition ParseULANodePrefix (raw : string) : res Prefix := ValidatePrefix raw 64.

(** One peer; its node id must not have been seen. *)
Definition check_peer (i : Z) (seen : list string) (p : FabricPeer) : res unit :=
  switch [(is_empty (PNodeId p), Errorf "peers[%d].node_id is required" [AInt i]);
          (bool_decide (PNodeId p ∈ seen), Errorf "peers[%d].node_id %s duplicated" [AInt i; AStr (PNodeId p)]);
          (is_empty (trim_space (Pubkey p)) || contains_any (Pubkey p) (bytes [32; 9; 10]%nat),
           Errorf "peers[%d].pubkey is not a valid base64 key" [AInt i]);
          (PFabricGeneration p =? 0, Errorf "peers[%d].fabric_generation must be > 0" [AInt i]);
          (negb (bool_decide (b64_decoded_len (trim_space (Pubkey p)) = Some 32%nat)),
           Errorf "peers[%d].pubkey must decode to a 32-byte WireGuard key" [AInt i]);
          (negb (bool_decide (is_Some (SplitHostPort (Endpoint p)))),
           Errorf "peers[%d].endpoint %q: %v"
             [AInt i; AStr (Endpoint p); AErr (lib_error "net.SplitHostPort" (Endpoint p))])] ;;;
  res_map_err (fun err => Errorf "peers[%d].node_prefix: %w" [AInt i; AErr err])
    (ParseULANodePrefix (PNodePrefix p)) ;;; Ok tt.

Fixpoint check_peers (i : Z) (seen : list string) (l : list FabricPeer) : res unit :=
  match l with
  | [] => Ok tt
  | p :: l' => check_peer i seen p ;;; check_peers (i + 1) (PNodeId p :: seen) l'
  end.

Definition binding_key (m : IdentityMapping) : string := IMachineId m +:+ "/" +:+ IExecutionId m.

Fixpoint check_identities (i : Z) (bindings : list string) (ulas : list Addr) (l : list IdentityMapping) : res unit :=
  match l with
  | [] => Ok tt
  | m :: l' =>
      switch [(IdentityId m =? 0, Errorf "identities[%d].identity_id is required" [AInt i]);
              (is_empty (TrustDomain m), Errorf "identities[%d].trust_domain is required" [AInt i]);
              (is_empty (IProjectId m), Errorf "identities[%d].project_id is required" [AInt i]);
              (is_empty (IAppId m), Errorf "identities[%d].app_id is required" [AInt i]);
              (is_empty (Service m), Errorf "identities[%d].service is required" [AInt i]);
              (is_empty (IMachineId m), Errorf "identities[%d].machine_id is required" [AInt i]);
              (is_empty (IExecutionId m), Errorf "identities[%d].execution_id is required" [AInt i]);
              (IGeneration m =? 0, Errorf "identities[%d].generation must be > 0" [AInt i]);
              (bool_decide (binding_key m ∈ bindings),
               Errorf "identities[%d] binding %s duplicated" [AInt i; AStr (binding_key m)])] ;;;
      match ParseAddr (Ula m) with
      | Some ula =>
          switch [(negb (IsULAAddr ula),
                   Errorf "identities[%d].ula %q is not a ULA IPv6 address" [AInt i; AStr (Ula m)]);
                  (bool_decide (ula ∈ ulas),
                   Errorf "identities[%d].ula %s duplicated across bindings" [AInt i; AStr (addr_string ula)])] ;;;
          check_identities (i + 1) (binding_key m :: bindings) (ula :: ulas) l'
      | None => Err (Errorf "identities[%d].ula %q is not a ULA IPv6 address" [AInt i; AStr (Ula m)])
      end
  end.

(** The first byte that starts a rune outside [a-z0-9-]. *)
Fixpoint bad_rune (s : string) : option Z :=
  match s with
  | EmptyString => None
  | String c s' => if label_byte c then bad_rune s' else Some (decode_rune s)
  end.

Definition check_dns_label (name p : string) : res unit :=
  if is_empty p || has_prefix p "-" || has_suffix p "-" then
    Err (Errorf "name %q has empty or dash-affixed label" [AStr name])
  else match bad_rune p with
       | Some c => Err (Errorf "name %q has invalid character %q" [AStr name; AInt c])
       | None => Ok tt
       end.

Definition validateDnsRecord (r : DnsRecord) : res unit :=
  let name := DName r in
  switch [(is_empty name, e "name is required");
          (negb (String.eqb name (to_lower unicode_lower name)), Errorf "name %q must be lowercase" [AStr name]);
          (Nat.eqb (length (Aaaa r)) 0, e "at least one aaaa is required");
          (DGeneration r =? 0, e "generation must be > 0")] ;;;
  let parts := split_byte "." name in
  switch [(negb (Nat.eqb (length parts) 3) || negb (bool_decide (parts !! 2%nat = Some "internal")),
           Errorf "name %q must be {app}.{project}.internal" [AStr name])] ;;;
  check_all (fun _ => check_dns_label name) parts ;;;
  check_all (fun _ a =>
    switch [(negb (from_option IsULAAddr false (ParseAddr a)),
             Errorf "aaaa %q is not a ULA IPv6 address" [AStr a])]) (Aaaa r).

Definition ValidateApplyFabricRequest (req : option ApplyFabricRequest) : res unit :=
  requires req (fun r =>
    switch [(is_empty (NodeId r), e "node_id is required");
            (is_empty (AOperationId r), e "operation_id is required");
            (FabricGeneration r =? 0, e "fabric_generation must be > 0")] ;;;
    res_map_err (wrap "node_prefix: %w") (ParseULANodePrefix (NodePrefix r)) ;;;
    check_peers 0 [] (Peers r) ;;;
    check_identities 0 [] [] (Identities r) ;;;
    res_map_err (wrap "eastwest: %w") (ValidateEastWestPolicyTable (AEastwest r)) ;;;
    check_distinct
      (fun i d => res_map_err (fun err => Errorf "dns[%d]: %w" [AInt i; AErr err]) (validateDnsRecord d) ;;;
                  Ok (DName d))
      (fun i k => Errorf "dns[%d].name %s duplicated" [AInt i; AStr k]) 0 [] (Dns r)).
End validate.

(** ** Normal domains

    An accepted domain is made of lower-case letters, digits, dots, dashes and a
    leading star, so that normalising it again changes nothing. *)

Definition domain_byte (c : ascii) : bool := label_byte c || Ascii.eqb c "." || Ascii.eqb c "*".

Lemma sforall_in (p : ascii -> bool) s :
  sforall p s = true <-> Forall (fun c => p c = true) (String.list_ascii_of_string s).
Proof.
  induction s as [|c s IH]; simpl; [done|]. rewrite Forall_cons, andb_true_iff, IH. done.
Qed.

Lemma sforall_smap_id (f : ascii -> ascii) s :
  sforall (fun c => Ascii.eqb (f c) c) s = true -> smap f s = s.
Proof.
  induction s as [|c s IH]; simpl; [done|]. intros [Hc Hs]%andb_true_iff.
  apply Ascii.eqb_eq in Hc. by rewrite Hc, IH.
Qed.

Lemma to_lower_domain ul s : sforall domain_byte s = true -> to_lower ul s = s.
Proof.
  intros H. unfold to_lower.
  rewrite (sforall_impl domain_byte is_ascii), (sforall_smap_id lower_byte); try done.
  - eapply sforall_impl; [|exact H]. intros c.
    apply implb_true, (all_bytes (fun c => implb (domain_byte c) (Ascii.eqb (lower_byte c) c))).
    vm_compute. reflexivity.
  - intros c. apply implb_true, (all_bytes (fun c => implb (domain_byte c) (is_ascii c))).
    vm_compute. reflexivity.
Qed.

Lemma trim_space_domain s : sforall domain_byte s = true -> trim_space s = s.
Proof. apply trim_space_plain. vm_compute. reflexivity. Qed.

Lemma split_bytes_sforall (p : ascii -> bool) c s :
  Forall (fun w => sforall p w = true) (split_byte c s) ->
  sforall (fun d => p d || Ascii.eqb d c) s = true.
Proof.
  induction s as [|d s IH]; [done|]. simpl.
  destruct (Ascii.eqb d c) eqn:Hd.
  - intros [_ H]%Forall_cons. by rewrite orb_true_r, IH.
  - pose proof (split_byte_nonempty c s). destruct (split_byte c s) as [|w ws]; [done|].
    intros [Hw H0]%Forall_cons. simpl in Hw. apply andb_true_iff in Hw as [Hp Hw].
    rewrite Hp. simpl. apply IH. by constructor.
Qed.

(** A trailing separator adds an empty segment. *)
Lemma split_byte_snoc c s : split_byte c (s +:+ String c "") = split_byte c s ++ [""].
Proof.
  induction s as [|d s IH].
  - rewrite append_nil. simpl. by rewrite Ascii.eqb_refl.
  - rewrite append_cons. simpl. rewrite IH. destruct (Ascii.eqb d c); [done|].
    pose proof (split_byte_nonempty c s). by destruct (split_byte c s).
Qed.

Lemma valid_label_bytes l : valid_label l = true -> sforall label_byte l = true /\ l <> "".
Proof. unfold valid_label, is_empty. intros. bool_to_prop. done. Qed.

Lemma label_set_domain d :
  validEgressDomainLabelSet d = true ->
  sforall (fun c => label_byte c || Ascii.eqb c ".") d = true /\ has_suffix d "." = false.
Proof.
  unfold validEgressDomainLabelSet. destruct (_ || _); [done|]. intros H. rewrite forallb_forall in H.
  assert (Forall (fun w => valid_label w = true) (split_byte "." d)) as Hall.
  { apply Forall_forall. intros w Hw. by apply H, list_elem_of_In. }
  split.
  - apply split_bytes_sforall. eapply Forall_impl; [exact Hall|]. intros w Hw. by apply valid_label_bytes.
  - apply not_true_iff_false. intros [u ->]%has_suffix_true. rewrite split_byte_snoc in Hall.
    apply Forall_app in Hall as [_ Hl]. inversion_clear Hl as [|? ? Hv]. done.
Qed.

(** A dotted address is digits and dots, without a dot at the end. *)
Lemma digits_val_digits acc s v : digits_val acc s = Some v -> sforall is_digit s = true.
Proof.
  revert acc. induction s as [|c s IH]; intros acc; simpl; [done|].
  destruct (is_digit c); [|done]. apply IH.
Qed.

Lemma parse_octet_digits s v : parse_octet s = Some v -> sforall is_digit s = true /\ s <> "".
Proof.
  unfold parse_octet. destruct s as [|c s]; [done|]. intros H.
  destruct (_ && _); [done|]. destruct (Nat.ltb _ _); [done|].
  destruct (digits_val _ _) eqn:E; [|done]. apply digits_val_digits in E. done.
Qed.

Lemma parse4_digits d v :
  parse4 d = Some v ->
  sforall (fun c => is_digit c || Ascii.eqb c ".") d = true /\ has_suffix d "." = false.
Proof.
  unfold parse4. intros H.
  assert (Forall (fun w => exists o, parse_octet w = Some o) (split_byte "." d)) as Hall.
  { destruct (map parse_octet (split_byte "." d)) as [|[a|] [|[b|] [|[c|] [|[x|] [|? ?]]]]] eqn:E;
      try discriminate H.
    apply Forall_forall. intros w Hw. apply (list_elem_of_fmap_2 parse_octet) in Hw.
    change (parse_octet <$> split_byte "." d) with (map parse_octet (split_byte "." d)) in Hw.
    rewrite E in Hw. rewrite !elem_of_cons in Hw.
    destruct Hw as [->|[->|[->|[->|Hw]]]]; eauto. by apply not_elem_of_nil in Hw. }
  split.
  - apply split_bytes_sforall. eapply Forall_impl; [exact Hall|]. intros w [o Ho].
    apply parse_octet_digits in Ho as [Ho _]. exact Ho.
  - apply not_true_iff_false. intros [u ->]%has_suffix_true. rewrite split_byte_snoc in Hall.
    apply Forall_app in Hall as [_ Hl]. inversion_clear Hl as [|? ? [o Ho]]. done.
Qed.

Lemma parse4_domain d v :
  parse4 d = Some v -> sforall domain_byte d = true /\ has_suffix d "." = false.
Proof.
  intros [Hd Hs]%parse4_digits. split; [|done]. eapply sforall_impl; [|exact Hd].
  intros c. unfold domain_byte, label_byte. rewrite !orb_true_iff. tauto.
Qed.

Lemma contains_any_colon d : contains_any d "/?#:@" = false -> index_byte d ":" = None.
Proof.
  induction d as [|c d IH]; [done|]. cbn [contains_any index_byte]. intros [Hc Hd]%orb_false_iff.
  destruct (Ascii.eqb_spec ":" c) as [<-|]; [vm_compute in Hc; discriminate Hc|].
  rewrite (IH Hd). reflexivity.
Qed.

(** Without a colon an address is a dotted one. *)
Lemma ParseAddr_no_colon d a :
  index_byte d ":" = None -> ParseAddr d = Some a -> exists v, parse4 d = Some v /\ a = Addr4 v.
Proof.
  unfold ParseAddr. intros Hd.
  assert (addr_kind d <> Some ":"%char) as Hk.
  { revert Hd. induction d as [|c d IH]; [done|]. cbn [index_byte addr_kind].
    destruct (Ascii.eqb_spec ":" c) as [|Hc]; [done|]. intros Hd.
    destruct (_ || _) eqn:E; [congruence|]. apply IH. by destruct (index_byte d ":"). }
  destruct (addr_kind d) as [[[] [] [] [] [] [] [] []]|]; try done.
  destruct (parse4 d) as [v|] eqn:E; [|done]. simpl. intros [= <-]. eauto.
Qed.

Lemma contains_byte_false p c s : sforall p s = true -> p c = false -> contains_byte s c = false.
Proof.
  unfold contains_byte. induction s as [|d s IH]; simpl; [done|].
  intros [Hd Hs]%andb_true_iff Hc. destruct (Ascii.eqb_spec c d) as [->|]; [congruence|].
  specialize (IH Hs Hc). by destruct (index_byte s c).
Qed.

Lemma trim_suffix_none s t : has_suffix s t = false -> trim_suffix s t = s.
Proof. unfold trim_suffix. by intros ->. Qed.

Lemma contains_any_domain d : sforall domain_byte d = true -> contains_any d "/?#:@" = false.
Proof.
  induction d as [|c d IH]; [done|]. cbn [sforall contains_any].
  intros [Hc Hd]%andb_true_iff. rewrite (IH Hd), orb_false_r.
  revert c Hc. intros c Hc. apply negb_true_iff.
  apply (implb_true (domain_byte c)); [|done].
  apply (all_bytes (fun c => implb (domain_byte c) (negb (contains_byte "/?#:@" c)))).
  vm_compute. reflexivity.
Qed.

(** The two shapes an accepted domain has. *)
Inductive normal_domain : string -> Prop :=
  | normal_wildcard suffix : validEgressDomainLabelSet suffix = true -> normal_domain ("*." +:+ suffix)
  | normal_ip d v : parse4 d = Some v -> normal_domain d
  | normal_host d : ParseIP d = None -> validEgressDomainLabelSet d = true -> normal_domain d.

Lemma NormalizeEgressDomain_normal ul raw d : NormalizeEgressDomain ul raw = Ok d -> normal_domain d.
Proof.
  unfold NormalizeEgressDomain. generalize (trim_suffix (trim_space (to_lower ul raw)) ".").
  cbv zeta. intros x H.
  destruct (is_empty x); [done|]. destruct (contains_any x _) eqn:Hc; [done|].
  destruct (has_prefix x "*."). { split_match_in H. bool_to_prop. by constructor. }
  destruct (contains_byte x "*"); [done|].
  destruct (ParseIP x) as [ip|] eqn:Hip.
  - split_match_in H. unfold ParseIP in Hip. destruct (ParseAddr d) as [a|] eqn:Ha; [|done].
    apply ParseAddr_no_colon in Ha as (v & Hv & _); [|by apply contains_any_colon].
    by apply (normal_ip d v).
  - split_match_in H. bool_to_prop. by apply normal_host.
Qed.

(** A normal domain is normalised to itself. *)
Lemma label_dot_domain c : label_byte c || Ascii.eqb c "." = true -> domain_byte c = true.
Proof. unfold domain_byte. rewrite !orb_true_iff. tauto. Qed.

Lemma normal_bytes d : normal_domain d -> sforall domain_byte d = true /\ has_suffix d "." = false /\ d <> "".
Proof.
  intros [suffix Hs|d' v Hv|d' _ Hs].
  - pose proof (label_set_domain _ Hs) as [Hb Hd]. split_and!; [| |done].
    + rewrite sforall_app. apply andb_true_iff. split; [vm_compute; reflexivity|].
      eapply sforall_impl; [|exact Hb]. apply label_dot_domain.
    + apply not_true_iff_false. intros Hsuf. apply not_true_iff_false in Hd. apply Hd.
      apply has_suffix_true in Hsuf as [u Hu]. apply has_suffix_true.
      destruct suffix as [|c suffix]; [by vm_compute in Hs|].
      destruct u as [|c1 [|c2 u]]; [done| |].
      * rewrite !append_cons, !append_nil in Hu. injection Hu as _ Hu.
        by destruct suffix.
      * rewrite !append_cons, append_nil in Hu. injection Hu as _ _ Hu. by exists u.
  - pose proof (parse4_domain _ _ Hv) as [? ?]. split_and!; [done..|]. by intros ->.
  - pose proof (label_set_domain _ Hs) as [Hb Hd]. split_and!; [|done|by intros ->].
    eapply sforall_impl; [|exact Hb]. apply label_dot_domain.
Qed.

Lemma no_star d :
  sforall (fun c => label_byte c || Ascii.eqb c ".") d = true ->
  contains_byte d "*" = false /\ has_prefix d "*." = false.
Proof.
  intros Hb. assert (contains_byte d "*" = false) as Hc
    by (eapply contains_byte_false; [exact Hb|by vm_compute]).
  split; [done|]. apply not_true_iff_false. intros [t ->]%has_prefix_true.
  by rewrite contains_byte_app in Hc.
Qed.

Lemma parse4_no_star d v : parse4 d = Some v -> contains_byte d "*" = false /\ has_prefix d "*." = false.
Proof.
  intros Hv. apply no_star. apply parse4_digits in Hv as [Hv _].
  eapply sforall_impl; [|exact Hv]. intros c. unfold label_byte. rewrite !orb_true_iff. tauto.
Qed.

Lemma split_byte_none c s : index_byte s c = None -> split_byte c s = [s].
Proof.
  induction s as [|d s IH]; [done|]. cbn [index_byte split_byte]. rewrite Ascii.eqb_sym.
  destruct (Ascii.eqb d c); [done|]. destruct (index_byte s c); [done|]. by rewrite IH.
Qed.

Lemma addr_kind_dotted d :
  sforall (fun c => is_digit c || Ascii.eqb c ".") d = true -> index_byte d "." <> None ->
  addr_kind d = Some "."%char.
Proof.
  induction d as [|c d IH]; [done|]. cbn [sforall index_byte addr_kind].
  intros [Hc Hd]%andb_true_iff Hi. rewrite (Ascii.eqb_sym "." c) in Hi.
  destruct (Ascii.eqb_spec c ".") as [->|]; [done|]. rewrite orb_false_r in Hc.
  assert (Ascii.eqb c ":" || Ascii.eqb c "%" = false) as Hn.
  { apply negb_true_iff, (implb_true (is_digit c)); [|done].
    apply (all_bytes (fun c => implb (is_digit c) (negb (Ascii.eqb c ":" || Ascii.eqb c "%")))).
    vm_compute. reflexivity. }
  cbn [orb]. rewrite Hn. apply IH; [done|]. by destruct (index_byte d ".").
Qed.

Lemma ParseAddr_parse4 d v : parse4 d = Some v -> ParseAddr d = Some (Addr4 v).
Proof.
  intros Hv. unfold ParseAddr. rewrite addr_kind_dotted.
  - by rewrite Hv.
  - apply parse4_digits in Hv as [Hv _]. exact Hv.
  - intros Hn. apply split_byte_none in Hn. unfold parse4 in Hv. rewrite Hn in Hv. simpl in Hv.
    by destruct (parse_octet d).
Qed.

Lemma ParseIP_parse4 d v : parse4 d = Some v -> ParseIP d = Some (Addr4 v).
Proof. intros Hv. unfold ParseIP. by rewrite (ParseAddr_parse4 d v Hv). Qed.

(** What normalisation first does leaves a normal domain alone. *)
Lemma normal_prepared ul d :
  normal_domain d -> trim_suffix (trim_space (to_lower ul d)) "." = d /\
  is_empty d = false /\ contains_any d "/?#:@" = false.
Proof.
  intros (Hb & Hs & Hne)%normal_bytes.
  rewrite to_lower_domain, trim_space_domain, trim_suffix_none by done.
  split; [done|]. split; [by apply String.eqb_neq|by apply contains_any_domain].
Qed.

Lemma wildcard_parts suffix :
  validEgressDomainLabelSet suffix = true ->
  has_prefix ("*." +:+ suffix) "*." = true /\ trim_prefix ("*." +:+ suffix) "*." = suffix /\
  is_empty suffix || contains_byte suffix "*" = false.
Proof.
  intros Hs. assert (has_prefix ("*." +:+ suffix) "*." = true) as Hp
    by (apply has_prefix_true; by exists suffix).
  split; [done|]. split; [unfold trim_prefix; rewrite Hp; apply (sdrop_app "*.")|].
  pose proof (label_set_domain _ Hs) as [Hb _]. apply no_star in Hb as [-> _].
  destruct suffix; [by vm_compute in Hs|done].
Qed.

Lemma normal_fixed ul d : normal_domain d -> NormalizeEgressDomain ul d = Ok d.
Proof.
  intros Hn. destruct (normal_prepared ul d Hn) as (Hd & He & Hc).
  unfold NormalizeEgressDomain. rewrite Hd. cbv zeta. rewrite He, Hc.
  destruct Hn as [suffix Hs|d v Hv|d Hip Hs].
  - destruct (wildcard_parts suffix Hs) as (-> & -> & ->). by rewrite Hs.
  - destruct (parse4_no_star d v Hv) as [-> ->]. by rewrite (ParseIP_parse4 d v Hv).
  - pose proof (label_set_domain _ Hs) as [Hb _]. apply no_star in Hb as [-> ->].
    by rewrite Hip, Hs.
Qed.

(** Normalising an egress domain is idempotent: what an accepted
    entry is turned into is accepted again and unchanged, so that the policy a
    data plane persists and reads back names the same hosts. *)
Theorem normalize_idempotent ul raw d :
  NormalizeEgressDomain ul raw = Ok d -> NormalizeEgressDomain ul d = Ok d.
Proof. intros H. apply normal_fixed. by apply NormalizeEgressDomain_normal in H. Qed.

Lemma normalize_idempotent_witness :
  NormalizeEgressDomain id " *.Example.COM. " = Ok "*.example.com" /\
  NormalizeEgressDomain id "*.example.com" = Ok "*.example.com".
Proof.
  split; [vm_compute; reflexivity|].
  apply (normalize_idempotent id " *.Example.COM. "). vm_compute. reflexivity.
Defined.

(** ** Accepted fabric snapshots *)

(** What the data plane may rely on for a peer, a rule, a DNS record. *)
Record peer_ok (p : FabricPeer) : Prop := mkPeerOk {
  peer_named : PNodeId p <> "";
  peer_key : b64_decoded_len (trim_space (Pubkey p)) = Some 32%nat;
  peer_fresh : PFabricGeneration p <> 0;
  peer_endpoint : is_Some (SplitHostPort (Endpoint p));
  peer_prefix : exists q, ParseULANodePrefix (PNodePrefix p) = Ok q }.

Record rule_ok (r : EastWestPolicyRule) : Prop := mkRuleOk {
  rule_src : SrcProject r <> "" /\ SrcApp r <> "";
  rule_dst : DstProject r <> "" /\ DstApp r <> "" /\ DstService r <> "";
  rule_ports : Ports r <> [] /\ NoDup (Ports r) /\ Forall (fun p => 0 <= p -> 1 <= p <= 65535) (Ports r) }.

Record fabric_ok (r : ApplyFabricRequest) : Prop := mkFabricOk {
  fabric_keys : NodeId r <> "" /\ AOperationId r <> "" /\ FabricGeneration r <> 0;
  fabric_prefix : exists q, ParseULANodePrefix (NodePrefix r) = Ok q;
  fabric_peers : NoDup (map PNodeId (Peers r)) /\ Forall peer_ok (Peers r);
  fabric_bindings : NoDup (map (fun m => (IMachineId m, IExecutionId m)) (Identities r));
  fabric_ulas : exists ulas, NoDup ulas /\
    Forall2 (fun m a => ParseAddr (Ula m) = Some a /\ IsULAAddr a = true) (Identities r) ulas;
  fabric_rules : forall t, AEastwest r = Some t ->
    EWGeneration t <> 0 /\ Forall rule_ok (Rules t) /\
    NoDup (map (fun r => (SrcProject r, SrcApp r, DstProject r, DstApp r, DstService r)) (Rules t));
  fabric_dns : NoDup (map DName (Dns r)) /\
    Forall (fun d => exists app project, split_byte "." (DName d) = [app; project; "internal"] /\
      Forall (fun a => exists v z, ParseAddr a = Some (Addr6 v z) /\ ula_value v) (Aaaa d)) (Dns r) }.

Lemma is_empty_false s : is_empty s = false <-> s <> "".
Proof. apply String.eqb_neq. Qed.

Ltac switch_inv H :=
  apply switch_ok in H; rewrite ?Forall_cons in H; cbn [fst] in H; destruct_and? H;
  rewrite ?is_empty_false in *; bool_to_prop.

Lemma check_peer_ok i seen p : check_peer i seen p = Ok tt -> peer_ok p /\ PNodeId p ∉ seen.
Proof.
  unfold check_peer. intros ([] & Hs & Hp)%res_bind_ok.
  apply res_bind_ok in Hp as (q & Hq & _). apply res_map_err_ok in Hq.
  switch_inv Hs. split; [|done]. constructor; eauto.
Qed.

Lemma check_peers_ok i seen l :
  check_peers i seen l = Ok tt ->
  Forall peer_ok l /\ NoDup (map PNodeId l) /\ forall x, x ∈ map PNodeId l -> x ∉ seen.
Proof.
  revert i seen. induction l as [|p l IH]; intros i seen; cbn [check_peers].
  - intros _. split_and!; [constructor|constructor|]. by intros x ?%not_elem_of_nil.
  - intros ([] & [Hp Hn]%check_peer_ok & (Hl & Hnd & Hs)%IH)%res_bind_ok. simpl. split_and!.
    + by constructor.
    + constructor; [|done]. intros Hin. apply (Hs _ Hin). by left.
    + intros x [->|Hx]%elem_of_cons; [done|]. intros Hin. apply (Hs _ Hx). by right.
Qed.

Lemma check_identities_ok i bindings ulas l :
  check_identities i bindings ulas l = Ok tt ->
  (NoDup (map binding_key l) /\ forall x, x ∈ map binding_key l -> x ∉ bindings) /\
  exists new, (NoDup new /\ forall a, a ∈ new -> a ∉ ulas) /\
    Forall2 (fun m a => ParseAddr (Ula m) = Some a /\ IsULAAddr a = true) l new.
Proof.
  revert i bindings ulas. induction l as [|m l IH]; intros i bindings ulas; cbn [check_identities].
  - intros _. split; [split; [constructor|by intros x ?%not_elem_of_nil]|].
    exists []. split; [|constructor]. split; [constructor|by intros x ?%not_elem_of_nil].
  - intros ([] & Hsw & H)%res_bind_ok. switch_inv Hsw.
    destruct (ParseAddr (Ula m)) as [a|] eqn:Ha; [|done].
    apply res_bind_ok in H as ([] & Hsw & H). switch_inv Hsw.
    apply IH in H as ((Hnd & Hb) & new & (Hnd' & Hu) & Hall). split.
    + simpl. split.
      * constructor; [|done]. intros Hin. apply (Hb _ Hin). by left.
      * intros x [->|Hx]%elem_of_cons; [done|]. intros Hin. apply (Hb _ Hx). by right.
    + exists (a :: new). split; [|by constructor]. split.
      * constructor; [|done]. intros Hin. apply (Hu _ Hin). by left.
      * intros x [->|Hx]%elem_of_cons; [done|]. intros Hin. apply (Hu _ Hx). by right.
Qed.

Lemma NoDup_map_coarser {A B C} (f : A -> B) (g : A -> C) l :
  (forall x y, f x = f y -> g x = g y) -> NoDup (map g l) -> NoDup (map f l).
Proof.
  intros Hfg. induction l as [|x l IH]; simpl; [constructor|].
  intros [Hx Hl]%NoDup_cons. constructor; [|by apply IH].
  intros (y & Hy & Hin)%list_elem_of_fmap. apply Hx. rewrite (Hfg _ _ Hy).
  by apply (list_elem_of_fmap_2 g).
Qed.

Lemma checkEastWestRuleFields_ok i r : checkEastWestRuleFields i r = Ok tt -> rule_ok r.
Proof.
  unfold checkEastWestRuleFields. intros ([] & Hsw & Hp)%res_bind_ok. switch_inv Hsw.
  apply check_distinct_ok in Hp as (ks & Hnd & _ & Hlen & Hks).
  assert (ks = Ports r) as ->.
  { apply list_eq_same_length with (length ks); [done|done|]. intros j x y _ Hx Hy.
    destruct (Hks j y Hy) as (k & Hk & Hc). destruct (negb _); [done|]. congruence. }
  constructor; [done..|]. split_and!; [by destruct (Ports r)|done|].
  apply Forall_forall. intros p (j & Hj)%list_elem_of_lookup.
  destruct (Hks j p Hj) as (k & _ & Hc). destruct (negb _) eqn:E; [done|].
  unfold checkPortRange in E. bool_to_prop. lia.
Qed.

Lemma ValidateEastWestPolicyTable_ok t :
  ValidateEastWestPolicyTable (Some t) = Ok tt ->
  EWGeneration t <> 0 /\ Forall rule_ok (Rules t) /\ NoDup (map table_key (Rules t)).
Proof.
  cbn [ValidateEastWestPolicyTable]. intros ([] & Hsw & Hd)%res_bind_ok. switch_inv Hsw.
  apply check_distinct_ok in Hd as (ks & Hnd & _ & Hlen & Hks). split; [done|].
  assert (forall j r, Rules t !! j = Some r -> rule_ok r /\ ks !! j = Some (table_key r)) as Hr.
  { intros j r Hj. destruct (Hks j r Hj) as (k & Hk & Hc).
    apply res_bind_ok in Hc as ([] & Hf & [= <-]). split; [|done].
    by eapply checkEastWestRuleFields_ok. }
  split.
  - apply Forall_forall. intros r (j & Hj)%list_elem_of_lookup. by apply (Hr j).
  - assert (ks = map table_key (Rules t)) as <-; [|done].
    apply list_eq_same_length with (length ks); [by rewrite length_map|done|].
    intros j x y _ Hx Hy. change (map table_key (Rules t)) with (table_key <$> Rules t) in Hy.
    apply list_lookup_fmap_Some in Hy as (r & -> & Hj). apply Hr in Hj as [_ Hj]. congruence.
Qed.

Lemma validateDnsRecord_ok ul d :
  validateDnsRecord ul d = Ok tt ->
  exists app project, split_byte "." (DName d) = [app; project; "internal"] /\
    Forall (fun a => exists v z, ParseAddr a = Some (Addr6 v z) /\ ula_value v) (Aaaa d).
Proof.
  unfold validateDnsRecord. cbv zeta.
  intros ([] & _ & H)%res_bind_ok. apply res_bind_ok in H as ([] & Hsw & H). switch_inv Hsw.
  apply res_bind_ok in H as ([] & _ & H). rewrite check_all_ok in H.
  match goal with Hl : (length (split_byte "." (DName d)) =? 3)%nat = true |- _ =>
    apply Nat.eqb_eq in Hl; rename Hl into Hlen end.
  destruct (split_byte "." (DName d)) as [|app [|project [|top [|? ?]]]] eqn:E; try discriminate Hlen.
  match goal with Ht : [app; project; top] !! 2%nat = _ |- _ => injection Ht as -> end.
  exists app, project. split; [done|]. apply Forall_forall. intros a (j & Hj)%list_elem_of_lookup.
  specialize (H j a Hj). switch_inv H. destruct (ParseAddr a) as [x|]; [|done]. simpl in *.
  match goal with Hu : IsULAAddr x = true |- _ => apply IsULAAddr_spec in Hu as (v & z & -> & Hv) end.
  eauto.
Qed.

(** A fabric snapshot that passes the check is well formed: fencing
    keys set, the node's and every peer's prefix a canonical ULA /64, peers,
    bindings and AAAA records unique where the data plane keys its tables by
    them, every key 32 bytes, every rule with identities, a service and distinct
    ports in range, and every name a three-label .internal name with ULAs. *)
Theorem fabric_request_wellformed ul r :
  ValidateApplyFabricRequest ul (Some r) = Ok tt -> fabric_ok r.
Proof.
  cbn [ValidateApplyFabricRequest requires]. intros ([] & Hsw & H)%res_bind_ok. switch_inv Hsw.
  apply res_bind_ok in H as (q & Hq & H). apply res_map_err_ok in Hq.
  apply res_bind_ok in H as ([] & Hpeers & H). apply check_peers_ok in Hpeers as (? & ? & _).
  apply res_bind_ok in H as ([] & Hid & H).
  apply check_identities_ok in Hid as ((Hb & _) & ulas & (Hu & _) & Hall).
  apply res_bind_ok in H as ([] & Hew & H). apply res_map_err_ok in Hew.
  apply check_distinct_ok in H as (ks & Hnd & _ & Hlen & Hks).
  constructor; eauto.
  - eapply NoDup_map_coarser; [|exact Hb]. unfold binding_key. intros x y [= -> ->]. done.
  - intros t Ht. rewrite Ht in Hew. apply ValidateEastWestPolicyTable_ok in Hew as (? & ? & Hk).
    split_and!; [done..|]. eapply NoDup_map_coarser; [|exact Hk].
    unfold table_key, dst_key. intros x y [= -> -> -> -> ->]. done.
  - assert (forall j d, Dns r !! j = Some d ->
      validateDnsRecord ul d = Ok tt /\ ks !! j = Some (DName d)) as Hd.
    { intros j d Hj. destruct (Hks j d Hj) as (k & Hk & Hc).
      apply res_bind_ok in Hc as ([] & Hv & [= <-]). by apply res_map_err_ok in Hv. }
    split.
    + assert (ks = map DName (Dns r)) as <-; [|done].
      apply list_eq_same_length with (length ks); [by rewrite length_map|done|].
      intros j x y _ Hx Hy. change (map DName (Dns r)) with (DName <$> Dns r) in Hy.
      apply list_lookup_fmap_Some in Hy as (d & -> & Hj). apply Hd in Hj as [_ Hj]. congruence.
    + apply Forall_forall. intros d (j & Hj)%list_elem_of_lookup.
      apply Hd in Hj as [Hv _]. by apply validateDnsRecord_ok in Hv.
Qed.

Lemma check_services_ok i names ports l :
  check_services i names ports l = Ok tt ->
  NoDup (map SName l) /\ NoDup (map InternalPort l) /\
  Forall (fun s => SName s <> "" /\ checkPortRange (InternalPort s) = true) l /\
  (forall x, x ∈ map SName l -> x ∉ names) /\ (forall x, x ∈ map InternalPort l -> x ∉ ports).
Proof.
  revert i names ports. induction l as [|s l IH]; intros i names ports; cbn [check_services].
  - intros _. split_and!; try constructor; by intros x ?%not_elem_of_nil.
  - intros ([] & Hsw & H)%res_bind_ok. switch_inv Hsw.
    apply IH in H as (Hn & Hp & Hall & Hsn & Hsp). simpl. split_and!.
    + constructor; [|done]. intros Hin. apply (Hsn _ Hin). by left.
    + constructor; [|done]. intros Hin. apply (Hsp _ Hin). by left.
    + by constructor.
    + intros x [->|Hx]%elem_of_cons; [done|]. intros Hin. apply (Hsn _ Hx). by right.
    + intros x [->|Hx]%elem_of_cons; [done|]. intros Hin. apply (Hsp _ Hx). by right.
Qed.

(** An accepted creation carries every fencing key, a lease
    whenever it carries secrets, at most eight services with distinct names and
    ports of which the first is the ingress port, and only rules whose source is
    the machine's own identity. *)
Theorem create_request_wellformed ul r :
  ValidateCreateRequest ul (Some r) = Ok tt ->
  exists spec, Spec r = Some spec /\
    CMachineId r <> "" /\ ExecutionId spec <> "" /\ CGeneration r <> 0 /\ COperationId r <> "" /\
    (SecretEnv r <> ∅ -> SecretLeaseId r <> "") /\
    (length (Services spec) <= 8)%nat /\
    NoDup (map SName (Services spec)) /\ NoDup (map InternalPort (Services spec)) /\
    (forall net, Network spec = Some net ->
      (forall s, head (Services spec) = Some s -> InternalPort s = uint32 (IngressPort net)) /\
      ValidateEgressPolicy ul (Egress net) = Ok tt /\
      (forall t rule, Eastwest net = Some t -> rule ∈ Rules t ->
         SrcProject rule = ProjectId spec /\ SrcApp rule = AppId spec)).
Proof.
  cbn [ValidateCreateRequest requires]. intros ([] & Hf & H)%res_bind_ok. apply res_map_err_ok in Hf.
  unfold ValidateFencing in Hf. switch_inv Hf.
  apply res_bind_ok in H as ([] & Hsw & H).
  assert (SecretEnv r <> ∅ -> SecretLeaseId r <> "") as Hlease.
  { intros Hne. apply switch_ok, Forall_cons in Hsw as [Hsw _]. simpl in Hsw.
    apply andb_false_iff in Hsw as [Hsw|Hsw]; [|by apply is_empty_false].
    apply negb_false_iff, Nat.eqb_eq, map_size_empty_inv in Hsw. done. }
  destruct (Spec r) as [spec|]; [|done]. exists spec. split; [done|].
  cbn [ValidateMachineSpecForCreate] in H.
  apply res_bind_ok in H as ([] & _ & H). apply res_bind_ok in H as ([] & _ & H).
  apply res_bind_ok in H as ([] & Hsvc & H).
  assert ((length (Services spec) <= 8)%nat /\ NoDup (map SName (Services spec)) /\
          NoDup (map InternalPort (Services spec)) /\
          forall net s, Network spec = Some net -> head (Services spec) = Some s ->
            InternalPort s = uint32 (IngressPort net)) as (H8 & Hn & Hp & Hhead).
  { destruct (Services spec) as [|s0 l] eqn:E; [split_and!; [simpl; lia|constructor..|done]|].
    apply res_bind_ok in Hsvc as ([] & H8 & Hsvc). apply switch_ok, Forall_cons in H8 as [H8 _].
    cbn [fst] in H8. apply Nat.ltb_ge in H8. destruct (Network spec) as [net|]; [|done].
    apply res_bind_ok in Hsvc as ([] & Hport & Hsvc). switch_inv Hport.
    apply check_services_ok in Hsvc as (? & ? & _). split_and!; [done..|]. by intros ? ? [= <-] [= <-]. }
  split_and!; try done. intros net Hnet. rewrite Hnet in H.
  apply res_bind_ok in H as ([] & Hegr & H). apply res_bind_ok in H as ([] & _ & H).
  split_and!; [by intros s; apply Hhead|done|]. intros t rule Ht (j & Hj)%list_elem_of_lookup.
  rewrite Ht in H. cbn [from_option] in H. rewrite check_all_ok in H. specialize (H j rule Hj).
  apply switch_ok, Forall_cons in H as [H _]. cbn [fst] in H.
  apply orb_false_iff in H as [?%negb_false_iff ?%negb_false_iff]. by bool_to_prop.
Qed.

Module Witness.
Definition rule : EastWestPolicyRule := mkRule "p" "web" "p" "api" "http" [80; 443].
Definition identity (machine ula : string) : IdentityMapping :=
  mkIdentity 7 "td" "p" "web" "http" machine "e1" 1 ula false.
Definition request (ids : list IdentityMapping) : ApplyFabricRequest :=
  mkFabric "n1" 3 "op" "fd00:1::/64"
    [mkPeer "n2" "AAAAAAAAAAAAAAAAAAAAAAAAAAAAAAAAAAAAAAAAAAA=" "10.0.0.2:51820" "fd00:2::/64" 1]
    ids (Some (mkEastWest 1 [rule])) [mkDns "web.p.internal" ["fd00:1::5"] 2].

Lemma fabric_request_wellformed_witness : fabric_ok (request [identity "m1" "fd00:1::5"]).
Proof. apply (fabric_request_wellformed id). vm_compute. reflexivity. Defined.

(** The uniqueness of ULAs across bindings is that of the parsed
    values, which keep a zone the range check ignores: one ULA written with
    two zones is accepted for two bindings. *)
Theorem zoned_ula_accepted_twice :
  ValidateApplyFabricRequest id (Some (request [identity "m1" "fd00:1::5"; identity "m2" "fd00:1::5%x"])) = Ok tt /\
  option_map value (ParseAddr "fd00:1::5") = option_map value (ParseAddr "fd00:1::5%x").
Proof. split; vm_compute; reflexivity. Qed.

Definition create : CreateMachineRequest :=
  mkCreate "m1" (Some (mkMachineSpec "p" "web" "d" "e1" "img" 1 256 None
    [mkService "http" 8080; mkService "admin" 9000]
    (Some (mkNetwork 8080 (Some (mkEgressPolicySpec ALLOWLIST ["10.0.0.0/8"] [] ["*.example.com"] 0 1 false))
      (Some (mkEastWest 1 [rule])))))) 1 "op" {["K" := "V"]} "lease".

Lemma create_request_wellformed_witness :
  SecretLeaseId create <> "" /\ exists spec, Spec create = Some spec /\ NoDup (map InternalPort (Services spec)).
Proof.
  destruct (create_request_wellformed id create) as (spec & Hs & H); [vm_compute; reflexivity|].
  destruct_and! H. split; [discriminate|]. by exists spec.
Defined.
End Witness.
