(* ===== verification/EgressPolicy.v ===== *)
(** * Egress policy (internal/agent/egress/policy.go, resolver.go, proxy.go;
    internal/agent/netpolicy/netpolicy.go)

    The policy an agent compiles from its specification, its decision matrix,
    the reserved networks, and the resolve-decide-dial sequence of the
    transparent proxy. DNS and TCP are parameters: [resolve] and [connect]. *)
From S2P Require Import Prelude GoString GoNet AgentContract.
From Stdlib Require Import Ascii.
Local Open Scope Z_scope.
Local Open Scope go_scope.

Definition ModeUnrestricted : Z := 0.
Definition ModeDenyAll : Z := 1.
Definition ModeAllowlist : Z := 2.

(** DomainEntry: [exact] or, when that is empty, [wildcardSuffix]. *)
Record DomainEntry := mkDomain { exact : string; wildcardSuffix : string }.

Definition matches (d : DomainEntry) (host : string) : bool :=
  if negb (String.eqb (exact d) "") then String.eqb host (exact d)
  else if negb (has_suffix host (wildcardSuffix d)) then false
  else
    let prefix := trim_suffix host (wildcardSuffix d) in
    negb (String.eqb prefix "") && negb (contains_byte prefix ".").

Record Policy := mkPolicy {
  PMode : Z; AllowedCIDRs : list Prefix; DeniedCIDRs : list Prefix;
  PAllowedDomains : list DomainEntry; MaxTCPConns : Z; PGeneration : Z;
  PAuditAll : bool; DomainProtected : bool }.

Fixpoint parseCIDRList (field : string) (i : Z) (raws : list string) : res (list Prefix) :=
  match raws with
  | [] => Ok []
  | raw :: raws' =>
      match ParsePrefix (trim_space raw) with
      | None => Err (Errorf "egress %s[%d] %q: %w"
                  [AStr field; AInt i; AStr raw; AErr (lib_error "netip.ParsePrefix" (trim_space raw))])
      | Some prefix =>
          if Is6 (PAddr prefix) then
            Err (Errorf "egress %s[%d] %q: IPv6 egress is not supported" [AStr field; AInt i; AStr raw])
          else rest <- parseCIDRList field (i + 1) raws' ;; Ok (Masked prefix :: rest)
      end
  end.

Definition validDomain (d : string) : bool :=
  if is_empty d || Nat.ltb 253 (String.length d) then false
  else forallb valid_label (split_byte "." d).

Definition prefix_less (a b : Prefix) : bool := String.ltb (prefix_string a) (prefix_string b).

Section policy.
Context (unicode_lower : string -> string).

Definition normalizeDomain (raw : string) : res string :=
  let d := trim_suffix (trim_space (to_lower unicode_lower raw)) "." in
  if is_empty d then Err (e "domain must be non-empty")
  else if contains_any d "/?#:@" then Err (Errorf "domain %q must not contain scheme/path/port" [AStr raw])
  else if has_prefix d "*." then
    let suffix := trim_prefix d "*." in
    if is_empty suffix || contains_byte suffix "*" then
      Err (Errorf "wildcard domain %q must be *.example.com (single label)" [AStr raw])
    else if negb (validDomain suffix) then
      Err (Errorf "wildcard domain %q has invalid suffix" [AStr raw])
    else Ok ("*." +:+ suffix)
  else if contains_byte d "*" then Err (Errorf "domain %q has unsupported wildcard form" [AStr raw])
  else
    match ParseAddr d with
    | Some addr =>
        if Is6 addr then Err (Errorf "domain %q: IPv6 egress is not supported" [AStr raw]) else Ok d
    | None =>
        if negb (validDomain d) then Err (Errorf "domain %q is not a valid hostname" [AStr raw]) else Ok d
    end.

Definition domain_entry (normalized : string) : DomainEntry :=
  if has_prefix normalized "*." then mkDomain "" ("." +:+ trim_prefix normalized "*.")
  else mkDomain normalized "".

Fixpoint parse_domains (i : Z) (raws : list string) : res (list DomainEntry) :=
  match raws with
  | [] => Ok []
  | raw :: raws' =>
      match normalizeDomain raw with
      | Err err => Err (Errorf "egress allowed_domains[%d]: %w" [AInt i; AErr err])
      | Ok normalized => rest <- parse_domains (i + 1) raws' ;; Ok (domain_entry normalized :: rest)
      end
  end.

Definition mode_of (m : Z) : res Z :=
  if (m =? MODE_UNSPECIFIED) || (m =? UNRESTRICTED) then Ok ModeUnrestricted
  else if m =? DENY_ALL then Ok ModeDenyAll
  else if m =? ALLOWLIST then Ok ModeAllowlist
  else Err (Errorf "invalid egress mode %d" [AInt m]).

Definition FromProto (p : option EgressPolicySpec) : res (option Policy) :=
  match p with
  | None => Ok None
  | Some p =>
      mode <- mode_of (Mode p) ;;
      allowed <- parseCIDRList "allowed_cidrs" 0 (AllowedCidrs p) ;;
      denied <- parseCIDRList "denied_cidrs" 0 (DeniedCidrs p) ;;
      domains <- parse_domains 0 (AllowedDomains p) ;;
      if PolicyGeneration p =? 0 then Err (e "egress policy_generation must be > 0")
      else Ok (Some (mkPolicy mode (sort_by prefix_less allowed) (sort_by prefix_less denied) domains
                       (MaxTcpConnections p) (PolicyGeneration p) (AuditAll p)
                       (negb (Nat.eqb (length domains) 0))))
  end.

(** NormalizeHost: brackets, port, trailing dot and case removed. *)
Definition NormalizeHost (raw : string) : string :=
  let strip_port (h : string) :=
    match last_index_byte h ":" with
    | Some i => if Nat.ltb 0 i && Nat.eqb (count_byte h ":") 1 then stake i h else h
    | None => h
    end in
  let finish (h : string) := to_lower unicode_lower (trim_suffix (strip_port h) ".") in
  let h := trim_space raw in
  if has_prefix h "[" then
    match index_byte h "]" with
    | Some i =>
        if Nat.ltb 0 i then
          let inner := sdrop 1 (stake i h) in
          let rest := sdrop (S i) h in
          if is_empty rest || has_prefix rest ":" then finish inner else to_lower unicode_lower inner
        else finish h
    | None => finish h
    end
  else finish h.

Definition matchesDomain (p : Policy) (host : string) : bool :=
  existsb (fun d => matches d (NormalizeHost host)) (PAllowedDomains p).

(** ** Decisions *)

Definition containsCIDR (list : list Prefix) (addr : Addr) : bool :=
  existsb (fun prefix => Contains prefix (Unmap addr)) list.

Definition filterPrefixes (addrs : list Addr) (prefixes : list Prefix) : list Addr :=
  filter (fun a => containsCIDR prefixes a = true) addrs.

Record Decision := mkDecision {
  Allow : bool; MatchType : string; Reason : string; CIDRAuthorized : bool }.

Definition dialSetFor (decision : Decision) (resolved : list Addr) (allowed : list Prefix) : list Addr :=
  if negb (CIDRAuthorized decision) then resolved else filterPrefixes resolved allowed.

Inductive cidrOutcome := cidrDenied | cidrAllowed | cidrModeAllow | cidrModeDeny | cidrNeedHost | cidrUnknown.

Definition decideCIDR (mode : Z) (deniedHit allowedHit : bool) : cidrOutcome :=
  if mode =? ModeUnrestricted then if deniedHit then cidrDenied else cidrModeAllow
  else if mode =? ModeDenyAll then
    if deniedHit then cidrDenied else if allowedHit then cidrAllowed else cidrModeDeny
  else if mode =? ModeAllowlist then
    if deniedHit then cidrDenied else if allowedHit then cidrAllowed else cidrNeedHost
  else cidrUnknown.

Definition deny (matchType reason : string) : Decision := mkDecision false matchType reason false.
Definition allow (matchType reason : string) : Decision := mkDecision true matchType reason false.

Definition DecideForProxied (p : Policy) (host : string) (resolved : list Addr) : Decision :=
  let host := NormalizeHost host in
  let deniedHit := existsb (containsCIDR (DeniedCIDRs p)) resolved in
  let allowedHit := existsb (containsCIDR (AllowedCIDRs p)) resolved in
  match decideCIDR (PMode p) deniedHit allowedHit with
  | cidrDenied => deny "cidr_denied" "resolved address in denied_cidrs"
  | cidrAllowed => mkDecision true "cidr_allowed" "resolved address in allowed_cidrs" true
  | cidrModeAllow => allow "mode_default" "unrestricted mode"
  | cidrModeDeny => deny "mode_default" "deny_all mode"
  | cidrUnknown => deny "mode_default" "unknown mode"
  | cidrNeedHost =>
      if PMode p =? ModeAllowlist then
        if is_empty host then deny "no_host" "no host/sni to authorize (allowlist default deny)"
        else if Nat.eqb (length resolved) 0 then deny "mode_default" "empty resolved set (fail closed)"
        else if matchesDomain p host then allow "domain" "host matches allowed_domains"
        else deny "mode_default" "host not in allowed_domains"
      else deny "mode_default" "unknown mode"
  end.

Definition DecideByCIDR (p : Policy) (addr : Addr) : Decision :=
  match decideCIDR (PMode p) (containsCIDR (DeniedCIDRs p) addr) (containsCIDR (AllowedCIDRs p) addr) with
  | cidrDenied => deny "cidr_denied" "destination in denied_cidrs"
  | cidrAllowed => allow "cidr_allowed" "destination in allowed_cidrs"
  | cidrModeAllow => allow "mode_default" "unrestricted mode"
  | cidrModeDeny => deny "mode_default" "deny_all mode"
  | cidrNeedHost => deny "mode_default" "allowlist default deny (no host/sni protection)"
  | cidrUnknown => deny "mode_default" "unknown mode"
  end.

Definition ProxyNeeded (p : Policy) : bool := (PMode p =? ModeAllowlist) && DomainProtected p.

Definition ModeString (p : Policy) : string :=
  if PMode p =? ModeDenyAll then "deny_all"
  else if PMode p =? ModeAllowlist then "allowlist" else "unrestricted".

Definition CIDRStrings (p : Policy) : list string * list string :=
  (map prefix_string (AllowedCIDRs p), map prefix_string (DeniedCIDRs p)).

Definition domain_string (d : DomainEntry) : string :=
  if negb (String.eqb (exact d) "") then exact d else "*" +:+ wildcardSuffix d.
Definition DomainStrings (p : Policy) : list string :=
  sort_by String.ltb (map domain_string (PAllowedDomains p)).

(** The snapshot the data plane persists and what is rebuilt from it. *)
Record PolicySnapshot := mkSnapshot {
  SMode : string; SAllowedCIDRs : list string; SDeniedCIDRs : list string;
  SDomains : list string; SMaxTCPConns : Z; SGeneration : Z; SAuditAll : bool;
  SProxyPort80 : Z; SProxyPort443 : Z }.

(** Manager.snapshotFor. *)
Definition snapshotFor (port80 port443 : Z) (p : Policy) : PolicySnapshot :=
  let '(allowed, denied) := CIDRStrings p in
  let ports := if ProxyNeeded p then (port80, port443) else (0, 0) in
  mkSnapshot (ModeString p) allowed denied (DomainStrings p) (MaxTCPConns p) (PGeneration p) (PAuditAll p)
    ports.1 ports.2.

Definition FromSnapshot (snap : PolicySnapshot) : res (option Policy) :=
  let spec mode := mkEgressPolicySpec mode (SAllowedCIDRs snap) (SDeniedCIDRs snap) (SDomains snap)
                     (SMaxTCPConns snap) (SGeneration snap) (SAuditAll snap) in
  if is_empty (SMode snap) then Ok None
  else if String.eqb (SMode snap) "unrestricted" then FromProto (Some (spec UNRESTRICTED))
  else if String.eqb (SMode snap) "deny_all" then FromProto (Some (spec DENY_ALL))
  else if String.eqb (SMode snap) "allowlist" then FromProto (Some (spec ALLOWLIST))
  else Err (Errorf "egress restore: unknown mode %q" [AStr (SMode snap)]).

(** sortedIPs: unmapped, deduplicated, in address order. *)
Fixpoint dedup_addrs (seen : list Addr) (addrs : list Addr) : list Addr :=
  match addrs with
  | [] => []
  | a :: addrs' =>
      let u := Unmap a in
      if negb (IsValid u) || bool_decide (u ∈ seen) then dedup_addrs seen addrs'
      else u :: dedup_addrs (u :: seen) addrs'
  end.
Definition sortedIPs (addrs : list Addr) : list Addr := sort_by addr_less (dedup_addrs [] addrs).

(** ** Reserved networks *)

Definition canonicalReservedIPv4 : list string :=
  ["0.0.0.0/8"; "10.0.0.0/8"; "100.64.0.0/10"; "127.0.0.0/8"; "169.254.0.0/16";
   "172.16.0.0/12"; "192.0.0.0/24"; "192.0.2.0/24"; "192.31.196.0/24"; "192.52.193.0/24";
   "192.88.99.0/24"; "192.168.0.0/16"; "192.175.48.0/24"; "198.18.0.0/15";
   "198.51.100.0/24"; "203.0.113.0/24"; "224.0.0.0/4"; "240.0.0.0/4"].
Definition canonicalReservedIPv6 : list string :=
  ["::/128"; "::1/128"; "::ffff:0:0/96"; "64:ff9b::/96"; "64:ff9b:1::/48"; "100::/64";
   "2001::/23"; "2001:db8::/32"; "3fff::/20"; "2620:4f:8000::/48"; "fc00::/7"; "fe80::/10"; "ff00::/8"].
(** A literal that does not parse panics at start; none does ([reserved_parse]). *)
Definition reservedPrefixes : list Prefix :=
  omap ParsePrefix (canonicalReservedIPv4 ++ canonicalReservedIPv6).

Definition netpolicy_Contains (addr : Addr) : bool :=
  existsb (fun prefix => (BitLen (PAddr prefix) =? BitLen addr) && Contains prefix addr) reservedPrefixes.

(** ReservedChecker, with the platform's own networks. *)
Fixpoint NewReservedChecker (platformCIDRs : list string) : res (list Prefix) :=
  match platformCIDRs with
  | [] => Ok []
  | cidr :: cidrs' =>
      if is_empty (trim_space cidr) then NewReservedChecker cidrs'
      else match ParsePrefix (trim_space cidr) with
           | None => Err (Errorf "reserved platform cidr %q: %w"
                       [AStr cidr; AErr (lib_error "netip.ParsePrefix" (trim_space cidr))])
           | Some prefix => rest <- NewReservedChecker cidrs' ;; Ok (Masked prefix :: rest)
           end
  end.

Definition IsReserved (extra : list Prefix) (addr : Addr) : bool :=
  let a := Unmap addr in
  if negb (IsValid a) then true
  else if netpolicy_Contains a then true
  else if IsLoopback a || IsLinkLocalUnicast a || IsLinkLocalMulticast a ||
          IsPrivate a || IsMulticast a || IsUnspecified a then true
  else existsb (fun prefix => Contains prefix a) extra.

Definition FilterPublic (extra : list Prefix) (addrs : list Addr) : list Addr :=
  filter (fun a => IsReserved extra a = false) addrs.
End policy.

(** ** Dialling *)

Section dial.
Context (unicode_lower : string -> string).
(** The trusted resolver, the TCP connect (the peer's address or an error) and
    [err.Error()]. *)
Context (resolve : string -> res (list Addr)) (connect : Addr -> res string) (err_text : goerr -> string).

(** Connects in order until one succeeds: the addresses tried, the result. *)
Fixpoint dial_in_order (lastErr : option goerr) (addrs : list Addr) : list Addr * res string :=
  match addrs with
  | [] => ([], Err (default (e "empty resolved set") lastErr))
  | a :: addrs' =>
      match connect a with
      | Ok remote => ([a], Ok remote)
      | Err err => let '(tried, r) := dial_in_order (Some err) addrs' in (a :: tried, r)
      end
  end.

Definition dialFirst (addrs : list Addr) : list Addr * res string :=
  dial_in_order None (filter (fun a => Is4 a = true) addrs ++ filter (fun a => Is4 a = false) addrs).

(** dialFor: the addresses tried, the connection (its remote address) and the
    decision. *)
Definition dialFor (extra : list Prefix) (policy : Policy) (host : string) :
    list Addr * option string * Decision :=
  if is_empty host then ([], None, DecideForProxied unicode_lower policy "" [])
  else
    match resolve host with
    | Err err => ([], None, deny "resolution_failed" ("trusted resolution failed: " +:+ err_text err))
    | Ok addrs =>
        let public := FilterPublic extra addrs in
        if Nat.eqb (length public) 0 then
          ([], None, deny "reserved" "all resolved addresses are in reserved segments")
        else
          let decision := DecideForProxied unicode_lower policy host public in
          if negb (Allow decision) then ([], None, decision)
          else
            let dialSet := dialSetFor decision public (AllowedCIDRs policy) in
            if Nat.eqb (length dialSet) 0 then
              ([], None, mkDecision false "cidr_allowed" "no resolved address inside allowed_cidrs" true)
            else
              match dialFirst dialSet with
              | (tried, Err err) =>
                  (tried, None, deny "dial_failed" ("connect to resolved set failed: " +:+ err_text err))
              | (tried, Ok remote) =>
                  (tried, Some remote,
                   mkDecision true (MatchType decision)
                     (Reason decision +:+ " (resolved " +:+ remote +:+ ")") (CIDRAuthorized decision))
              end
    end.
End dial.

(** ** The two normalisations agree *)

(** [net.ParseIP] and [netip.ParseAddr] answer the same for a colon-free name. *)
Lemma ParseIP_ParseAddr d : contains_any d "/?#:@" = false -> ParseIP d = ParseAddr d.
Proof.
  intros Hc%contains_any_colon. unfold ParseIP. destruct (ParseAddr d) as [a|] eqn:Ha; [|done].
  apply ParseAddr_no_colon in Ha as (v & _ & ->); done.
Qed.

Lemma normalizations_iff ul raw d :
  NormalizeEgressDomain ul raw = Ok d <-> normalizeDomain ul raw = Ok d.
Proof.
  unfold NormalizeEgressDomain, normalizeDomain.
  generalize (trim_suffix (trim_space (to_lower ul raw)) "."). cbv zeta. intros x.
  destruct (is_empty x); [done|]. destruct (contains_any x _) eqn:Hc; [done|].
  change validDomain with validEgressDomainLabelSet. rewrite (ParseIP_ParseAddr x Hc).
  destruct (has_prefix x "*."); [by repeat case_match|]. destruct (contains_byte x "*"); [done|].
  destruct (ParseAddr x) as [a|] eqn:Ha; [|by repeat case_match].
  apply ParseAddr_no_colon in Ha as (v & _ & ->); [|by apply contains_any_colon]. done.
Qed.

(** The control plane's and the agent's own normalisation of an
    egress domain refuse the same names and give the same result for the
    others, although one asks [net.ParseIP] and the other [netip.ParseAddr]. *)
Theorem normalizations_agree ul raw :
  match NormalizeEgressDomain ul raw, normalizeDomain ul raw with
  | Ok d, Ok d' => d = d'
  | Err _, Err _ => True
  | _, _ => False
  end.
Proof.
  pose proof (normalizations_iff ul raw) as H.
  destruct (NormalizeEgressDomain ul raw) as [d|], (normalizeDomain ul raw) as [d'|]; [| | |done].
  - specialize (H d) as [H _]. specialize (H eq_refl). congruence.
  - specialize (H d) as [H _]. by specialize (H eq_refl).
  - specialize (H d') as [_ H]. by specialize (H eq_refl).
Qed.

(** ** What an allowed domain matches *)

(** An exact entry matches its own name only; a wildcard entry
    matches exactly the names with one more label: not the suffix itself, and
    not a name two labels below. *)
Theorem domain_entry_matches ul raw d host :
  normalizeDomain ul raw = Ok d ->
  matches (domain_entry d) host = true <->
  (host = d /\ has_prefix d "*." = false) \/
  (exists suffix label, d = "*." +:+ suffix /\ host = label +:+ "." +:+ suffix /\
     label <> "" /\ contains_byte label "." = false).
Proof.
  intros Hd%normalizations_iff%NormalizeEgressDomain_normal.
  pose proof (normal_bytes d Hd) as (_ & _ & Hne). unfold domain_entry, matches.
  destruct (has_prefix d "*.") eqn:Hp; cbn [exact wildcardSuffix].
  - apply has_prefix_true in Hp as [suffix ->]. cbn [String.eqb negb].
    assert (trim_prefix ("*." +:+ suffix) "*." = suffix) as ->.
    { unfold trim_prefix. rewrite (proj2 (has_prefix_true _ _)) by eauto. apply (sdrop_app "*."). }
    split.
    + destruct (has_suffix host _) eqn:Hs; [|done]. apply has_suffix_true in Hs as [label ->].
      rewrite trim_suffix_app. simpl. intros H. bool_to_prop.
      right. by exists suffix, label.
    + intros [[_ ?]|(s & label & Heq & -> & Hl & Hdot)]; [done|].
      rewrite !append_cons, !append_nil in Heq. injection Heq as <-.
      rewrite has_suffix_app, trim_suffix_app, Hdot. simpl. apply String.eqb_neq in Hl. by rewrite Hl.
  - apply String.eqb_neq in Hne. rewrite Hne. cbn [negb]. rewrite String.eqb_eq. split; [by left|].
    intros [[? _]|(s & l & -> & _)]; [done|].
    by rewrite (proj2 (has_prefix_true _ _)) in Hp by eauto.
Qed.

(** ** What a compiled policy dials *)

Lemma dial_in_order_sub (connect : Addr -> res string) last addrs tried r :
  dial_in_order connect last addrs = (tried, r) -> forall a, a ∈ tried -> a ∈ addrs.
Proof.
  revert last tried r. induction addrs as [|x addrs IH]; intros last tried r; simpl.
  - intros [= <- <-] a ?%not_elem_of_nil. done.
  - destruct (connect x) as [remote|err].
    + intros [= <- <-] a ->%list_elem_of_singleton. by left.
    + destruct (dial_in_order connect (Some err) addrs) as [t r'] eqn:E. intros [= <- <-] a.
      intros [->|Ha]%elem_of_cons; [by left|]. right. by eapply IH.
Qed.

Lemma dialFirst_sub (connect : Addr -> res string) addrs tried r a :
  dialFirst connect addrs = (tried, r) -> a ∈ tried -> a ∈ addrs.
Proof.
  intros H Ha. eapply dial_in_order_sub in Ha; [|exact H]. apply elem_of_app in Ha.
  by destruct Ha as [[_ ?]%list_elem_of_filter|[_ ?]%list_elem_of_filter].
Qed.

(** What authorises an address of a connection to [host]. *)
Definition authorised (ul : string -> string) (p : Policy) (host : string) (a : Addr) : Prop :=
  containsCIDR (DeniedCIDRs p) a = false /\
  ((PMode p = ModeUnrestricted) \/
   (PMode p = ModeDenyAll /\ containsCIDR (AllowedCIDRs p) a = true) \/
   (PMode p = ModeAllowlist /\
    (containsCIDR (AllowedCIDRs p) a = true \/ matchesDomain ul p (NormalizeHost ul host) = true))).

Lemma existsb_false_elem {A} (f : A -> bool) l a : existsb f l = false -> a ∈ l -> f a = false.
Proof.
  intros H Ha. destruct (f a) eqn:E; [|done]. rewrite <- H. symmetry. apply existsb_exists.
  exists a. split; [by apply list_elem_of_In|done].
Qed.

Lemma dial_set_authorised ul p host public a :
  Allow (DecideForProxied ul p host public) = true ->
  a ∈ dialSetFor (DecideForProxied ul p host public) public (AllowedCIDRs p) ->
  a ∈ public /\ authorised ul p host a.
Proof.
  unfold DecideForProxied, decideCIDR, dialSetFor, authorised, filterPrefixes.
  destruct (existsb (containsCIDR (DeniedCIDRs p)) public) eqn:Hd.
  { repeat case_match; simpl; done. }
  assert (forall a, a ∈ public -> containsCIDR (DeniedCIDRs p) a = false) as Hnd
    by (intros; by eapply existsb_false_elem).
  intros Hallow Ha. repeat case_match; simpl in *; try done; bool_to_prop;
    try (apply list_elem_of_filter in Ha as [? ?]); eauto 10.
Qed.

(** C27. Whatever the resolver answers and however connects end, the
    proxy tries only addresses the trusted resolver gave for the host, none of
    them in a reserved or denied network, each authorised by the mode, an allowed
    network that contains that very address, or an allowed domain the host
    matches; and a connection is handed over only with an allowing decision. *)
Theorem dial_only_authorised ul resolve connect err_text extra p host tried conn d :
  dialFor ul resolve connect err_text extra p host = (tried, conn, d) ->
  (forall a, a ∈ tried ->
     IsReserved extra a = false /\ authorised ul p host a /\
     exists addrs, resolve host = Ok addrs /\ a ∈ addrs) /\
  (is_Some conn -> Allow d = true).
Proof.
  unfold dialFor. intros H.
  assert (Hnone : forall (t : list Addr) (c : option string), t = [] -> c = None ->
    (forall a, a ∈ t -> IsReserved extra a = false /\ authorised ul p host a /\
       exists addrs, resolve host = Ok addrs /\ a ∈ addrs) /\ (is_Some c -> Allow d = true)).
  { intros t c -> ->. split; [by intros a ?%not_elem_of_nil|by intros [??]]. }
  destruct (is_empty host); [simplify_eq; by apply Hnone|].
  destruct (resolve host) as [addrs|err] eqn:Hres; [|simplify_eq; by apply Hnone].
  cbv zeta in H. destruct (Nat.eqb (length (FilterPublic extra addrs)) 0); [simplify_eq; by apply Hnone|].
  destruct (Allow (DecideForProxied ul p host _)) eqn:Hallow; cbn [negb] in H;
    [|simplify_eq; by apply Hnone].
  destruct (Nat.eqb (length (dialSetFor _ _ _)) 0); [simplify_eq; by apply Hnone|].
  destruct (dialFirst connect _) as [t r] eqn:Hdial.
  assert (Ht : forall a, a ∈ t -> IsReserved extra a = false /\ authorised ul p host a /\
    exists addrs', Ok addrs = Ok addrs' /\ a ∈ addrs').
  { intros a Ha. eapply dialFirst_sub in Ha; [|exact Hdial].
    apply dial_set_authorised in Ha as [Hpub Hauth]; [|done].
    apply list_elem_of_filter in Hpub as [Hr Hin]. eauto. }
  destruct r as [remote|err]; simplify_eq; (split; [done|]); [done|by intros [??]].
Qed.

(** ** Written networks

    An IPv4 network is read back from what it is written as. *)

Lemma small_numbers (P : Z -> bool) n :
  forallb (fun i => P (Z.of_nat i)) (seq 0 n) = true -> forall z, 0 <= z < Z.of_nat n -> P z = true.
Proof.
  intros H z Hz. rewrite forallb_forall in H. rewrite <- (Z2Nat.id z) by lia.
  apply H, list_elem_of_In, elem_of_seq. lia.
Qed.

Lemma octet_written z :
  0 <= z < 256 ->
  parse_octet (itoa z) = Some z /\ contains_byte (itoa z) "." = false.
Proof.
  intros Hz.
  set (P := fun z => bool_decide (parse_octet (itoa z) = Some z) && negb (contains_byte (itoa z) ".")).
  assert (P z = true) as H by (apply (small_numbers P 256); [vm_compute; reflexivity|exact Hz]).
  unfold P in H. clear P.
  bool_to_prop. done.
Qed.

Lemma bits_written z :
  0 <= z <= 128 ->
  digits_val 0 (itoa z) = Some z /\ itoa z <> "" /\ contains_byte (itoa z) "/" = false /\
  sforall is_digit (itoa z) = true /\
  Nat.ltb 1 (String.length (itoa z)) &&
    match itoa z with String c _ => negb (in_range "1" "9" c) | EmptyString => false end = false.
Proof.
  intros Hz.
  set (P := fun z => bool_decide (digits_val 0 (itoa z) = Some z) &&
    bool_decide (itoa z <> "") && negb (contains_byte (itoa z) "/") && sforall is_digit (itoa z) &&
    negb (Nat.ltb 1 (String.length (itoa z)) &&
      match itoa z with String c _ => negb (in_range "1" "9" c) | EmptyString => false end)).
  assert (P z = true) as H by (apply (small_numbers P 129); [vm_compute; reflexivity|lia]).
  unfold P in H. clear P.
  apply andb_true_iff in H as [H Hlead%negb_true_iff]. revert Hlead. bool_to_prop. intros Hlead.
  split_and!; assumption.
Qed.

Lemma split_dotted a b c d :
  0 <= a < 256 -> 0 <= b < 256 -> 0 <= c < 256 -> 0 <= d < 256 ->
  parse4 (join "." (map itoa [a; b; c; d])) = Some (((a * 256 + b) * 256 + c) * 256 + d).
Proof.
  intros Ha Hb Hc Hd. unfold parse4. cbn [map join].
  rewrite !append_cons, !append_nil, !split_byte_app, split_byte_single by (by apply octet_written).
  cbn [map]. by rewrite !(fun z Hz => proj1 (octet_written z Hz)) by done.
Qed.

Lemma land_255 z : Z.land z 255 = z mod 256.
Proof. apply (Z.land_ones z 8). lia. Qed.

Lemma parse4_dotted v : 0 <= v < 2 ^ 32 -> parse4 (dotted v) = Some v.
Proof.
  intros Hv. change (2 ^ 32) with 4294967296 in Hv. unfold dotted.
  rewrite !land_255, !Z.shiftr_div_pow2 by lia.
  change (2 ^ 24) with 16777216. change (2 ^ 16) with 65536. change (2 ^ 8) with 256.
  rewrite split_dotted; [f_equal| | | |]; Z.to_euclidean_division_equations; lia.
Qed.

(** An IPv4 network as the parser gives it. *)
Definition network4 (p : Prefix) : Prop :=
  exists v, PAddr p = Addr4 v /\ 0 <= v < 2 ^ 32 /\ 0 <= PBits p <= 32.

Lemma dotted_plain v : 0 <= v < 2 ^ 32 ->
  sforall (fun c => is_digit c || Ascii.eqb c ".") (dotted v) = true.
Proof. intros [Hp _]%parse4_dotted%parse4_digits. exact Hp. Qed.

Lemma prefix_written p :
  network4 p -> trim_space (prefix_string p) = prefix_string p /\ ParsePrefix (prefix_string p) = Some p.
Proof.
  intros (v & Ha & Hv & Hb). destruct p as [a b]; simpl in Ha, Hb; subst a.
  destruct (bits_written b) as (Hd & Hne & Hs & Hdig & Hlead); [lia|].
  unfold prefix_string, prefix_valid; cbn [PBits PAddr addr_string].
  rewrite (proj2 (Z.leb_le 0 b)) by lia. split.
  - apply (trim_space_plain (fun c => is_digit c || Ascii.eqb c "." || Ascii.eqb c "/"));
      [vm_compute; reflexivity|].
    rewrite !sforall_app. rewrite !andb_true_iff. split_and!; [| |].
    + eapply sforall_impl; [|by apply dotted_plain]. intros c. by intros ->.
    + done.
    + eapply sforall_impl; [|exact Hdig]. intros c. by intros ->.
  - unfold ParsePrefix. rewrite append_cons, append_nil, last_index_byte_app by done.
    rewrite stake_app, (ParseAddr_parse4 _ v) by (by apply parse4_dotted). cbn [mbind option_bind].
    assert (sdrop (S (String.length (dotted v))) (dotted v +:+ String "/" (itoa b)) = itoa b) as ->.
    { generalize (dotted v). intros s. induction s; [by rewrite append_nil|].
      rewrite append_cons. exact IHs. }
    cbn [ZoneOf String.eqb negb]. apply String.eqb_neq in Hne. rewrite Hne, Hlead, Hd.
    cbn [mbind option_bind BitLen]. rewrite (proj2 (Z.leb_le b 32)) by lia.
    unfold PrefixFrom. simpl. rewrite (proj2 (Z.leb_le 0 b)), (proj2 (Z.leb_le b 32)) by lia. done.
Qed.

(** ** Persisting a policy and reading it back *)

Lemma digits_val_nonneg acc s v : 0 <= acc -> digits_val acc s = Some v -> 0 <= v.
Proof.
  revert acc. induction s as [|c s IH]; intros acc Ha; cbn [digits_val]; [by intros [= <-]|].
  destruct (is_digit c) eqn:Hc; [|done]. apply IH. unfold is_digit, in_range in Hc.
  unfold digit_val. bool_to_prop. lia.
Qed.

Lemma parse_octet_range s v : parse_octet s = Some v -> 0 <= v < 256.
Proof.
  unfold parse_octet. destruct s as [|c s]; [done|]. destruct (_ && _); [done|].
  destruct (Nat.ltb _ _); [done|]. destruct (digits_val 0 _) as [n|] eqn:E; [|done].
  apply digits_val_nonneg in E; [|lia]. destruct (n <=? 255) eqn:Hn; [|done].
  intros [= <-]. bool_to_prop. lia.
Qed.

Lemma parse4_range s v : parse4 s = Some v -> 0 <= v < 2 ^ 32.
Proof.
  unfold parse4. intros H.
  destruct (map parse_octet (split_byte "." s)) as [|[a|] [|[b|] [|[c|] [|[d|] [|? ?]]]]] eqn:E;
    try discriminate H. injection H as <-.
  assert (forall o, Some o ∈ map parse_octet (split_byte "." s) -> 0 <= o < 256) as Hr.
  { intros o (w & Hw & _)%list_elem_of_fmap. by apply (parse_octet_range w). }
  rewrite E in Hr. change (2 ^ 32) with 4294967296.
  assert (0 <= a < 256 /\ 0 <= b < 256 /\ 0 <= c < 256 /\ 0 <= d < 256); [|lia].
  split_and!; try (apply Hr; rewrite !elem_of_cons; tauto).
Qed.

Lemma mask_value_range b v : 0 <= b <= 32 -> 0 <= v < 2 ^ 32 ->
  0 <= mask_value 32 b v < 2 ^ 32 /\ mask_value 32 b (mask_value 32 b v) = mask_value 32 b v.
Proof.
  intros Hb Hv. unfold mask_value. set (k := 32 - b). assert (0 <= k) by lia. split.
  - rewrite Z.shiftl_mul_pow2, Z.shiftr_div_pow2 by lia.
    assert (0 < 2 ^ k) by (apply Z.pow_pos_nonneg; lia).
    pose proof (Z.mul_div_le v (2 ^ k)). pose proof (Z.div_pos v (2 ^ k)). nia.
  - rewrite Z.shiftr_shiftl_l, Z.sub_diag, Z.shiftl_0_r by lia. done.
Qed.

Lemma ParseAddr_inv s a :
  ParseAddr s = Some a -> (exists v, parse4 s = Some v /\ a = Addr4 v) \/ exists v z, a = Addr6 v z.
Proof.
  unfold ParseAddr. intros H.
  assert (forall x, parse6 x = Some a -> exists v z, a = Addr6 v z) as H6.
  { intros x. unfold parse6. destruct (index_byte x "%") as [i|]; [destruct (String.eqb _ ""); [done|]|];
      (destruct (parse6_body _) as [v|]; [|done]); intros [= <-]; eauto. }
  destruct (addr_kind s) as [[[] [] [] [] [] [] [] []]|]; try discriminate H; [left|right; eauto].
  destruct (parse4 s) as [v|]; [|done]. injection H as <-. eauto.
Qed.

(** The networks of a compiled policy: IPv4, without host bits. *)
Definition canonical4 (p : Prefix) : Prop := network4 p /\ Masked p = p.

Lemma parsed_canonical s p : ParsePrefix s = Some p -> Is6 (PAddr p) = false -> canonical4 (Masked p).
Proof.
  unfold ParsePrefix. destruct (last_index_byte s "/") as [i|]; [|done].
  destruct (ParseAddr (stake i s)) as [a|] eqn:Ha; [|done]. cbn [mbind option_bind].
  destruct (negb _); [done|]. destruct (String.eqb _ ""); [done|]. destruct (_ && _); [done|].
  destruct (digits_val 0 _) as [n|] eqn:Hn; [|done]. cbn [mbind option_bind].
  apply digits_val_nonneg in Hn; [|lia].
  destruct (n <=? BitLen a) eqn:Hle; [|done]. intros [= <-] H6. bool_to_prop.
  unfold PrefixFrom in *. apply ParseAddr_inv in Ha as [(v & Hv%parse4_range & ->)|(v & z & ->)]; [|done].
  simpl in *. rewrite (proj2 (Z.leb_le 0 n)), (proj2 (Z.leb_le n 32)) by lia. simpl.
  destruct (mask_value_range n v) as [Hm Hmm]; [lia|done|]. split.
  + exists (mask_value 32 n v). done.
  + unfold Masked; simpl. by rewrite Hmm.
Qed.

Lemma parseCIDRList_canonical field i raws l :
  parseCIDRList field i raws = Ok l -> Forall canonical4 l.
Proof.
  revert i l. induction raws as [|raw raws IH]; intros i l; cbn [parseCIDRList]; [by intros [= <-]|].
  destruct (ParsePrefix _) as [p|] eqn:Hp; [|done]. destruct (Is6 _) eqn:H6; [done|].
  intros (rest & Hrest & [= <-])%res_bind_ok. constructor; [by eapply parsed_canonical|by eapply IH].
Qed.

Lemma parseCIDRList_written field i l :
  Forall canonical4 l -> parseCIDRList field i (map prefix_string l) = Ok l.
Proof.
  intros Hl. revert i. induction Hl as [|p l [Hn Hm] Hl IH]; intros i; [done|]. cbn [map parseCIDRList].
  destruct (prefix_written p Hn) as [-> ->]. destruct Hn as (v & Hv & _). rewrite Hv. cbn [Is6].
  rewrite (IH (i + 1)). cbn [res_bind]. by rewrite Hm.
Qed.

Lemma sort_by_id {A} (less : A -> A -> bool) l :
  StronglySorted (fun a b => less b a = false) l -> sort_by less l = l.
Proof.
  induction 1 as [|x l Hs IH Hx]; [done|].
  change (sort_by less (x :: l)) with (insert_by less x (sort_by less l)). rewrite IH.
  destruct Hx as [|y l Hy _]; [done|]. simpl. by rewrite Hy.
Qed.

Lemma orders_prefix l : orders prefix_less l.
Proof.
  unfold orders, prefix_less. split; [intros; by apply ltb_asym|].
  intros a b c _ _ _ Hba Hcb. destruct (String.ltb (prefix_string c) (prefix_string a)) eqn:Hca; [|done].
  destruct (String.ltb (prefix_string a) (prefix_string b)) eqn:Hab.
  - by rewrite (ltb_trans _ _ _ Hca Hab) in Hcb.
  - by rewrite (ltb_total _ _ Hab Hba), Hcb in Hca.
Qed.

Lemma sort_prefix_idemp l : sort_by prefix_less (sort_by prefix_less l) = sort_by prefix_less l.
Proof. apply sort_by_id, sort_by_sorted, orders_prefix. Qed.

(** An entry of a compiled policy and the name it is written as. *)
Lemma domain_entry_written d : normal_domain d -> domain_string (domain_entry d) = d.
Proof.
  intros Hn. pose proof (normal_bytes d Hn) as (_ & _ & Hne). unfold domain_entry, domain_string.
  destruct (has_prefix d "*.") eqn:Hp; cbn [exact wildcardSuffix].
  - apply has_prefix_true in Hp as [s ->]. cbn [String.eqb negb]. unfold trim_prefix.
    rewrite (proj2 (has_prefix_true _ _)) by eauto. by rewrite (sdrop_app "*.").
  - apply String.eqb_neq in Hne. by rewrite Hne.
Qed.

Lemma parse_domains_normal ul i raws l :
  parse_domains ul i raws = Ok l -> exists ds, Forall normal_domain ds /\ l = map domain_entry ds.
Proof.
  revert i l. induction raws as [|raw raws IH]; intros i l; cbn [parse_domains].
  - intros [= <-]. by exists [].
  - destruct (normalizeDomain ul raw) as [d|] eqn:Hd; [|done].
    intros (rest & Hrest & [= <-])%res_bind_ok. apply IH in Hrest as (ds & Hds & ->).
    exists (d :: ds). split; [|done]. constructor; [|done].
    by apply normalizations_iff, NormalizeEgressDomain_normal in Hd.
Qed.

Lemma parse_domains_written ul i ds :
  Forall normal_domain ds -> parse_domains ul i ds = Ok (map domain_entry ds).
Proof.
  intros Hds. revert i. induction Hds as [|d ds Hd Hds IH]; intros i; [done|]. cbn [parse_domains].
  rewrite (proj1 (normalizations_iff ul d d) (normal_fixed ul d Hd)), (IH (i + 1)). done.
Qed.

Lemma existsb_Permutation {A} (f : A -> bool) l l' : l ≡ₚ l' -> existsb f l = existsb f l'.
Proof. induction 1 as [| | |]; simpl; try congruence. by destruct (f x), (f y). Qed.

Lemma FromProto_inv ul p pol :
  FromProto ul (Some p) = Ok (Some pol) ->
  (exists m, mode_of m = Ok (PMode pol)) /\
  Forall canonical4 (AllowedCIDRs pol) /\ Forall canonical4 (DeniedCIDRs pol) /\
  sort_by prefix_less (AllowedCIDRs pol) = AllowedCIDRs pol /\
  sort_by prefix_less (DeniedCIDRs pol) = DeniedCIDRs pol /\
  (exists ds, Forall normal_domain ds /\ PAllowedDomains pol = map domain_entry ds) /\
  PGeneration pol <> 0 /\ DomainProtected pol = negb (Nat.eqb (length (PAllowedDomains pol)) 0).
Proof.
  cbn [FromProto]. intros (mode & Hm & H)%res_bind_ok.
  apply res_bind_ok in H as (allowed & Ha%parseCIDRList_canonical & H).
  apply res_bind_ok in H as (denied & Hd%parseCIDRList_canonical & H).
  apply res_bind_ok in H as (domains & Hdom%parse_domains_normal & H).
  destruct (PolicyGeneration p =? 0) eqn:Hg; [done|]. bool_to_prop. injection H as <-. simpl.
  split_and!; [by eexists|by rewrite sort_by_Permutation|by rewrite sort_by_Permutation|
    apply sort_prefix_idemp|apply sort_prefix_idemp|done|done|done].
Qed.

Lemma FromSnapshot_mode ul pol port80 port443 m :
  mode_of m = Ok (PMode pol) -> PGeneration pol <> 0 ->
  Forall canonical4 (AllowedCIDRs pol) -> Forall canonical4 (DeniedCIDRs pol) ->
  forall ds, Forall normal_domain ds -> DomainStrings pol = ds ->
  FromSnapshot ul (snapshotFor port80 port443 pol) =
  Ok (Some (mkPolicy (PMode pol) (sort_by prefix_less (AllowedCIDRs pol))
    (sort_by prefix_less (DeniedCIDRs pol)) (map domain_entry ds) (MaxTCPConns pol) (PGeneration pol)
    (PAuditAll pol) (negb (Nat.eqb (length ds) 0)))).
Proof.
  intros Hm Hg Ha Hd ds Hds Hs.
  assert (PMode pol = ModeUnrestricted \/ PMode pol = ModeDenyAll \/ PMode pol = ModeAllowlist) as Hmode.
  { unfold mode_of in Hm. repeat case_match; simplify_eq; auto. }
  assert (forall mode m', mode_of m' = Ok mode -> FromProto ul
    (Some (mkEgressPolicySpec m' (map prefix_string (AllowedCIDRs pol)) (map prefix_string (DeniedCIDRs pol))
       ds (MaxTCPConns pol) (PGeneration pol) (PAuditAll pol))) =
    Ok (Some (mkPolicy mode (sort_by prefix_less (AllowedCIDRs pol)) (sort_by prefix_less (DeniedCIDRs pol))
      (map domain_entry ds) (MaxTCPConns pol) (PGeneration pol) (PAuditAll pol)
      (negb (Nat.eqb (length ds) 0))))) as Hp.
  { intros mode m' Hm'. cbn [FromProto Mode AllowedCidrs DeniedCidrs AllowedDomains PolicyGeneration
      MaxTcpConnections AuditAll]. rewrite Hm', !parseCIDRList_written, parse_domains_written by done.
    cbn [res_bind]. rewrite (proj2 (Z.eqb_neq _ _) Hg), length_map. done. }
  unfold FromSnapshot, snapshotFor, CIDRStrings, ModeString. rewrite Hs.
  cbn [SMode SAllowedCIDRs SDeniedCIDRs SDomains SMaxTCPConns SGeneration SAuditAll fst snd].
  by destruct Hmode as [-> | [-> | ->]]; apply Hp.
Qed.

(** A compiled policy survives a restart: rebuilt from the snapshot
    the data plane persisted, it has the same networks, generation and limits and
    decides every connection the same. *)
Theorem snapshot_roundtrip ul p pol port80 port443 :
  FromProto ul (Some p) = Ok (Some pol) ->
  exists pol', FromSnapshot ul (snapshotFor port80 port443 pol) = Ok (Some pol') /\
    AllowedCIDRs pol' = AllowedCIDRs pol /\ DeniedCIDRs pol' = DeniedCIDRs pol /\
    PGeneration pol' = PGeneration pol /\ MaxTCPConns pol' = MaxTCPConns pol /\
    PAuditAll pol' = PAuditAll pol /\ ProxyNeeded pol' = ProxyNeeded pol /\
    (forall host resolved, DecideForProxied ul pol' host resolved = DecideForProxied ul pol host resolved) /\
    (forall a, DecideByCIDR pol' a = DecideByCIDR pol a).
Proof.
  intros H. apply FromProto_inv in H as ((m & Hm) & Ha & Hd & Hsa & Hsd & (ds & Hds & Hdom) & Hg & Hprot).
  assert (DomainStrings pol = sort_by String.ltb ds) as Hstr.
  { unfold DomainStrings. f_equal. rewrite Hdom, map_map. clear -Hds.
    induction Hds as [|d ds Hd _ IH]; [done|]. simpl. by rewrite domain_entry_written, IH. }
  assert (Forall normal_domain (sort_by String.ltb ds)) as Hds' by (by rewrite sort_by_Permutation).
  eexists. split; [by apply (FromSnapshot_mode _ _ _ _ m)|].
  cbn [AllowedCIDRs DeniedCIDRs PGeneration MaxTCPConns PAuditAll]. split_and!; [done..| | |].
  - unfold ProxyNeeded. cbn [PMode DomainProtected].
    by rewrite Hprot, Hdom, length_map, length_sort_by.
  - intros host resolved. unfold DecideForProxied. cbn [DeniedCIDRs AllowedCIDRs PMode].
    rewrite Hsa, Hsd. unfold matchesDomain. cbn [PAllowedDomains]. rewrite Hdom.
    by rewrite (existsb_Permutation _ _ (map domain_entry ds))
      by (apply Permutation_map, sort_by_Permutation).
  - intros a. unfold DecideByCIDR. cbn [DeniedCIDRs AllowedCIDRs PMode]. by rewrite Hsa, Hsd.
Qed.

Lemma parseCIDRList_total field raws i :
  (forall c, c ∈ raws -> exists q, ParsePrefix (trim_space c) = Some q /\ Is6 (PAddr q) = false) ->
  exists l, parseCIDRList field i raws = Ok l /\ length l = length raws.
Proof.
  revert i. induction raws as [|raw raws IH]; intros i Hr; [by exists []|].
  destruct (Hr raw) as (q & Hq & H6); [by left|]. cbn [parseCIDRList]. rewrite Hq, H6.
  destruct (IH (i + 1)) as (l & -> & Hl); [intros c Hin; apply Hr; by right|].
  exists (Masked q :: l). split; [done|]. simpl. by rewrite Hl.
Qed.

Lemma parse_domains_total ul l i :
  (forall d, d ∈ l -> exists k, normalizeDomain ul d = Ok k) ->
  exists ds, parse_domains ul i l = Ok ds /\ length ds = length l.
Proof.
  revert i. induction l as [|d l IH]; intros i Hall; [by exists []|].
  destruct (Hall d) as (k & Hk); [by left|]. cbn [parse_domains]. rewrite Hk.
  destruct (IH (i + 1)) as (ds & -> & Hl); [intros x Hx; apply Hall; by right|].
  eexists. split; [done|]. simpl. by rewrite Hl.
Qed.

(** A policy the contract accepts compiles on the agent when
    the agent's parser reads its networks as IPv4 ones; mode, limits and
    generation carry over. *)
Theorem validated_policy_compiles ul p :
  ValidateEgressPolicy ul (Some p) = Ok tt ->
  (forall c, c ∈ AllowedCidrs p ++ DeniedCidrs p ->
     exists q, ParsePrefix (trim_space c) = Some q /\ Is6 (PAddr q) = false) ->
  exists pol, FromProto ul (Some p) = Ok (Some pol) /\ mode_of (Mode p) = Ok (PMode pol) /\
    length (AllowedCIDRs pol) = length (AllowedCidrs p) /\
    length (DeniedCIDRs pol) = length (DeniedCidrs p) /\
    length (PAllowedDomains pol) = length (AllowedDomains p) /\
    PGeneration pol = PolicyGeneration p.
Proof.
  intros Hv Hc. cbn [ValidateEgressPolicy] in Hv.
  apply res_bind_ok in Hv as ([] & Hmode & Hv). apply switch_ok, Forall_cons in Hmode as [Hmode _].
  apply res_bind_ok in Hv as ([] & _ & Hv). apply res_bind_ok in Hv as ([] & _ & Hv).
  apply res_bind_ok in Hv as ([] & Hdom & Hgen). apply switch_ok, Forall_cons in Hgen as [Hgen _].
  cbn [fst] in Hmode, Hgen. apply negb_false_iff in Hmode.
  assert (exists m, mode_of (Mode p) = Ok m) as (m & Hm).
  { unfold mode_of. apply existsb_exists in Hmode as (x & Hx & ->%Z.eqb_eq).
    simpl in Hx. destruct Hx as [<- | [<- | [<- | [<- | []]]]]; vm_compute; eauto. }
  destruct (parseCIDRList_total "allowed_cidrs" (AllowedCidrs p) 0) as (la & Hla & Hlen_a);
    [intros c Hin; apply Hc, elem_of_app; by left|].
  destruct (parseCIDRList_total "denied_cidrs" (DeniedCidrs p) 0) as (ld & Hld & Hlen_d);
    [intros c Hin; apply Hc, elem_of_app; by right|].
  assert (exists ds, parse_domains ul 0 (AllowedDomains p) = Ok ds /\ length ds = length (AllowedDomains p))
    as (ds & Hds & Hlen).
  { apply check_distinct_ok in Hdom as (ks & _ & _ & _ & Hks). apply parse_domains_total.
    intros d (i & Hi)%list_elem_of_lookup. destruct (Hks i d Hi) as (k & _ & Hk).
    apply res_map_err_ok, normalizations_iff in Hk. eauto. }
  cbn [FromProto]. rewrite Hm, Hla, Hld, Hds, Hgen. cbn [res_bind].
  eexists. split; [done|]. cbn [PMode AllowedCIDRs DeniedCIDRs PAllowedDomains PGeneration].
  by rewrite !length_sort_by.
Qed.

(** ** Concrete policies *)

Module Witness.
Definition spec (allowed : list string) : EgressPolicySpec :=
  mkEgressPolicySpec ALLOWLIST allowed ["10.9.0.0/16"] ["*.Example.com"; "api.dev"] 0 4 false.

Lemma normalizations_iff_example :
  normalizeDomain id "*.Example.com." = Ok "*.example.com" /\
  NormalizeEgressDomain id "*.Example.com." = Ok "*.example.com".
Proof. split; vm_compute; reflexivity. Qed.

Lemma domain_entry_matches_witness :
  matches (domain_entry "*.example.com") "a.example.com" = true /\
  matches (domain_entry "*.example.com") "a.b.example.com" <> true.
Proof.
  assert (Hn : normalizeDomain id "*.example.com" = Ok "*.example.com") by (vm_compute; reflexivity).
  split.
  - apply (domain_entry_matches id "*.example.com" "*.example.com" "a.example.com" Hn).
    right. exists "example.com", "a".
    split; [reflexivity|]. split; [reflexivity|]. split; [discriminate|reflexivity].
  - intros H. vm_compute in H. discriminate H.
Defined.

(** The proxy's resolver answers two public addresses and a reserved one. *)
Definition resolve (host : string) : res (list Addr) :=
  Ok (omap ParseAddr ["8.8.8.8"; "10.0.0.1"; "9.9.9.9"]).
Definition connect (a : Addr) : res string :=
  if bool_decide (Some a = ParseAddr "8.8.8.8") then Err (e "refused") else Ok (addr_string a).

Definition pol : Policy :=
  match FromProto id (Some (spec [])) with
  | Ok (Some p) => p
  | _ => mkPolicy 0 [] [] [] 0 0 false false
  end.
Definition dialled : list Addr * option string * Decision :=
  dialFor id resolve connect (fun _ => "refused") [] pol "a.example.com".

Lemma dial_only_authorised_witness :
  dialled.1.2 = Some "9.9.9.9" /\ length dialled.1.1 = 2%nat /\ Allow dialled.2 = true /\
  forall a, a ∈ dialled.1.1 -> IsReserved [] a = false.
Proof.
  assert (Hc : dialled.1.2 = Some "9.9.9.9") by (vm_compute; reflexivity).
  assert (Hl : length dialled.1.1 = 2%nat) by (vm_compute; reflexivity).
  assert (Hd : dialled = (dialled.1.1, dialled.1.2, dialled.2)) by (by destruct dialled as [[??]?]).
  destruct (dial_only_authorised id resolve connect (fun _ => "refused") [] pol "a.example.com"
    dialled.1.1 dialled.1.2 dialled.2 Hd) as [Ht Hok].
  split; [exact Hc|]. split; [exact Hl|]. split; [apply Hok; exists "9.9.9.9"; exact Hc|].
  intros a Ha. exact (proj1 (Ht a Ha)).
Defined.

Lemma snapshot_roundtrip_witness : exists pol pol',
  FromProto id (Some (spec ["10.1.2.3/8"; "1.2.3.0/24"])) = Ok (Some pol) /\
  FromSnapshot id (snapshotFor 18080 18443 pol) = Ok (Some pol') /\
  AllowedCIDRs pol' = AllowedCIDRs pol.
Proof.
  destruct (FromProto id (Some (spec ["10.1.2.3/8"; "1.2.3.0/24"]))) as [[pol|]|] eqn:H;
    [|vm_compute in H; discriminate H|vm_compute in H; discriminate H].
  destruct (snapshot_roundtrip id _ pol 18080 18443 H) as (pol' & Hs & Ha & _).
  exists pol, pol'. split; [reflexivity|]. exact (conj Hs Ha).
Defined.

Lemma validated_policy_compiles_witness : exists pol,
  FromProto id (Some (spec ["1.2.3.0/24"])) = Ok (Some pol) /\ PGeneration pol = 4.
Proof.
  destruct (validated_policy_compiles id (spec ["1.2.3.0/24"])) as (pol & H & _ & _ & _ & _ & Hg);
    [vm_compute; reflexivity| |exists pol; exact (conj H Hg)].
  intros c Hc. cbn [AllowedCidrs DeniedCidrs spec app] in Hc.
  each_elem Hc; eexists; split; vm_compute; reflexivity.
Defined.

(** The two parsers of networks differ: a mask with a leading
    zero and an IPv4-mapped address pass the shared contract check, and the agent
    then refuses the whole policy. *)
Theorem accepted_cidr_refused_by_agent :
  Forall (fun c => ValidateEgressPolicy id (Some (spec [c])) = Ok tt /\ is_ok (FromProto id (Some (spec [c]))) = false)
    ["11.0.0.0/08"; "::ffff:1.2.3.4/120"].
Proof. repeat constructor; vm_compute; reflexivity. Qed.
End Witness.
