(* ===== verification/EgressProxy.v ===== *)
(** * The egress proxy's registry (internal/agent/egress/proxy.go, manager.go)

    Which policy decides for a source address: two indexes over the published
    entries, by guest address and by machine, and the manager's protocol that
    stages an entry, publishes it, installs the data-plane snapshot and undoes
    the publication when that fails. Entries are pointers: an entry is a number
    in a heap, and two indexes may hold the same one. Each function that holds
    [Proxy.mu] is one transition; [Manager.mu] makes a whole call of the manager
    one sequence. *)
From S2P Require Import Prelude GoString GoNet AgentContract EgressPolicy.
Local Open Scope Z_scope.
Local Open Scope go_scope.

#[export] Instance Addr_countable : Countable Addr.
Proof.
  refine (inj_countable'
    (fun a => match a with AddrNone => inl () | Addr4 v => inr (inl v) | Addr6 v z => inr (inr (v, z)) end)
    (fun s => match s with inl _ => AddrNone | inr (inl v) => Addr4 v | inr (inr (v, z)) => Addr6 v z end) _).
  by intros [|v|v z].
Defined.

Record Entry := mkEntry {
  EMachineID : string; EExecutionID : string; EProjectID : string; EAppID : string; EPolicy : Policy;
  active : Z; limitReject : Z; denied : Z; bucket : gmap string Z; bucket_locked : bool }.

Record Proxy := mkProxy {
  heap : gmap nat Entry; next : nat; byIP : gmap Addr nat; byMach : gmap string nat }.

Definition NewProxy : Proxy := mkProxy ∅ 0 ∅ ∅.

(** An entry built by [stage] and not yet visible. *)
Record stagedEntry := mkStaged { entry : nat; guestIP : Addr }.

(** The entry [byMach] gives for a machine, and the entry of a source address. *)
Definition published (p : Proxy) (machineID : string) : option Entry := i ← byMach p !! machineID; heap p !! i.
Definition at_ip (p : Proxy) (addr : Addr) : option Entry := i ← byIP p !! addr; heap p !! i.

(** A publication of [policy] for this execution would go back in generation. *)
Definition fenced (p : Proxy) (machineID executionID : string) (policy : Policy) : option Z :=
  match published p machineID with
  | Some existing =>
      if String.eqb (EExecutionID existing) executionID && (PGeneration policy <? PGeneration (EPolicy existing))
      then Some (PGeneration (EPolicy existing)) else None
  | None => None
  end.

(** The machine another than [machineID] the address is bound to. *)
Definition taken (p : Proxy) (machineID : string) (addr : Addr) : option string :=
  match at_ip p addr with
  | Some old => if IsValid addr && negb (String.eqb (EMachineID old) machineID) then Some (EMachineID old) else None
  | None => None
  end.

(** stage: validates a generation without making it visible. *)
Definition stage (p : Proxy) (machineID executionID projectID appID ip : string) (policy : Policy) :
    Proxy * res stagedEntry :=
  match (if is_empty ip then Some AddrNone else Unmap <$> ParseAddr ip) with
  | None => (p, Err (Errorf "egress bind ip %q: %w" [AStr ip; AErr (lib_error "netip.ParseAddr" ip)]))
  | Some addr =>
      match fenced p machineID executionID policy with
      | Some gen =>
          (p, Err (Errorf "egress policy generation fencing: machine %s has newer policy generation %d, reject %d"
                     [AStr machineID; AInt gen; AInt (PGeneration policy)]))
      | None =>
          match taken p machineID addr with
          | Some other =>
              (p, Err (Errorf "egress bind ip: guest ip %s already bound to machine %s" [AStr ip; AStr other]))
          | None =>
              let e := mkEntry machineID executionID projectID appID policy 0 0 0 ∅ false in
              (mkProxy (<[next p := e]> (heap p)) (S (next p)) (byIP p) (byMach p), Ok (mkStaged (next p) addr))
          end
      end
  end.

(** The bindings of an entry are dropped. *)
Definition unbind (i : nat) (m : gmap Addr nat) : gmap Addr nat := filter (fun kv => kv.2 <> i) m.

(** swap: publishes policy and binding in one critical section. *)
Definition swap (p : Proxy) (staged : stagedEntry) : Proxy * res unit :=
  match heap p !! entry staged with
  | None => (p, Ok tt)
  | Some e =>
      match fenced p (EMachineID e) (EExecutionID e) (EPolicy e) with
      | Some _ => (p, Err (errors_New "egress policy generation changed while staged"))
      | None =>
          match taken p (EMachineID e) (guestIP staged) with
          | Some _ => (p, Err (errors_New "egress guest ip binding changed while staged"))
          | None =>
              let ips := match byMach p !! EMachineID e with
                         | Some old => unbind old (byIP p)
                         | None => byIP p
                         end in
              (mkProxy (heap p) (next p)
                 (if IsValid (guestIP staged) then <[guestIP staged := entry staged]> ips else ips)
                 (<[EMachineID e := entry staged]> (byMach p)),
               Ok tt)
          end
      end
  end.

(** BindIP. The address is not unmapped here. *)
Definition BindIP (p : Proxy) (ip machineID : string) : Proxy * res unit :=
  match ParseAddr ip with
  | None => (p, Err (Errorf "egress bind ip %q: %w" [AStr ip; AErr (lib_error "netip.ParseAddr" ip)]))
  | Some addr =>
      match byMach p !! machineID with
      | None => (p, Err (Errorf "egress bind ip: machine %s not registered" [AStr machineID]))
      | Some i =>
          match byIP p !! addr with
          | Some old =>
              if negb (Nat.eqb old i)
              then (p, Err (Errorf "egress bind ip: guest ip %s already bound to machine %s"
                              [AStr ip; AStr (from_option EMachineID "" (heap p !! old))]))
              else (mkProxy (heap p) (next p) (<[addr := i]> (byIP p)) (byMach p), Ok tt)
          | None => (mkProxy (heap p) (next p) (<[addr := i]> (byIP p)) (byMach p), Ok tt)
          end
      end
  end.

(** Unregister. *)
Definition Unregister (p : Proxy) (machineID : string) : Proxy :=
  match byMach p !! machineID with
  | None => p
  | Some i => mkProxy (heap p) (next p) (unbind i (byIP p)) (delete machineID (byMach p))
  end.

(** entryForIP. *)
Definition entryForIP (p : Proxy) (source : Addr) : option Entry := at_ip p (Unmap source).

(** recordDeny: at most 32 buckets. [None] is a goroutine that waits for the
    entry's mutex for ever; the early return at the limit keeps it locked. *)
Definition recordDeny (e : Entry) (key : string) : option Entry :=
  let locked b l := mkEntry (EMachineID e) (EExecutionID e) (EProjectID e) (EAppID e) (EPolicy e)
                      (active e) (limitReject e) (denied e + 1) b l in
  if bucket_locked e then None
  else if Nat.leb 32 (size (bucket e)) && negb (bool_decide (is_Some (bucket e !! key)))
  then Some (locked (bucket e) true)
  else Some (locked (<[key := default 0 (bucket e !! key) + 1]> (bucket e)) false).

(** protoLabel and protoPort, as the key of a bucket. *)
Definition deny_key (idx : Z) : string := if idx =? 0 then "http:80" else "tls:443".

(** The connection limit at the start of [handle]: the entry and whether the
    connection goes on. *)
Definition take_slot (e : Entry) (idx : Z) : option (Entry * bool) :=
  let with_active e a r := mkEntry (EMachineID e) (EExecutionID e) (EProjectID e) (EAppID e) (EPolicy e)
                             a r (denied e) (bucket e) (bucket_locked e) in
  let max := MaxTCPConns (EPolicy e) in
  if 0 <? max then
    if max <? active e + 1 then
      e' ← recordDeny (with_active e (active e) (limitReject e + 1)) (deny_key idx); Some (e', false)
    else Some (with_active e (active e + 1) (limitReject e), true)
  else Some (e, true).

Section manager.
(** Which of an entry's addresses the map iteration of [ipForMachine] meets. *)
Context (pick : list Addr -> option Addr).

Definition ips_of (p : Proxy) (i : nat) : list Addr := map fst (filter (fun kv => kv.2 = i) (map_to_list (byIP p))).

Definition ipForMachine (p : Proxy) (machineID : string) : Addr :=
  match byMach p !! machineID with
  | Some i => default AddrNone (pick (ips_of p i))
  | None => AddrNone
  end.

(** current. *)
Definition current (p : Proxy) (machineID : string) : option stagedEntry :=
  i ← byMach p !! machineID; Some (mkStaged i (ipForMachine p machineID)).

(** Register: the existing binding is kept. *)
Definition Register (p : Proxy) (machineID executionID projectID appID : string) (policy : option Policy) :
    Proxy * res unit :=
  match policy with
  | None => (Unregister p machineID, Ok tt)
  | Some policy =>
      let addr := ipForMachine p machineID in
      match stage p machineID executionID projectID appID (if IsValid addr then addr_string addr else "") policy with
      | (p, Err err) => (p, Err err)
      | (p, Ok staged) => swap p staged
      end
  end.

(** The data plane: what it answers to [ApplySnapshot] and [RemoveSnapshot];
    without one the manager has no policy engine. *)
Context (engine : option (res unit)).

Definition removeLocked (p : Proxy) (machineID : string) : Proxy * res unit :=
  match engine with
  | Some (Err err) => (p, Err (Errorf "egress remove datapath snapshot: %w" [AErr err]))
  | _ => (Unregister p machineID, Ok tt)
  end.

(** Apply: stage, publish, install the snapshot, undo when that fails. The
    errors of the undoing calls are dropped. *)
Definition Apply (p : Proxy) (machineID executionID projectID appID ip : string) (policy : option Policy) :
    Proxy * res unit :=
  match policy with
  | None => removeLocked p machineID
  | Some policy =>
      match stage p machineID executionID projectID appID ip policy with
      | (p, Err err) => (p, Err (Errorf "egress stage proxy: %w" [AErr err]))
      | (p, Ok staged) =>
          let old := current p machineID in
          match swap p staged with
          | (p, Err err) => (p, Err (Errorf "egress publish proxy: %w" [AErr err]))
          | (p, Ok _) =>
              match engine with
              | Some (Err err) =>
                  ((match old with Some oldProxy => (swap p oldProxy).1 | None => Unregister p machineID end),
                   Err (Errorf "egress apply datapath snapshot: %w" [AErr err]))
              | _ => (p, Ok tt)
              end
          end
      end
  end.
End manager.

(** ** Consistency of the indexes *)

(** Every published entry is its machine's, and every bound address leads to the
    entry its machine currently publishes. *)
Record wf (p : Proxy) : Prop := mkWf {
  wf_fresh : forall i, (next p <= i)%nat -> heap p !! i = None;
  wf_mach : forall m i, byMach p !! m = Some i -> exists e, heap p !! i = Some e /\ EMachineID e = m;
  wf_ip : forall a i, byIP p !! a = Some i ->
    IsValid a = true /\ exists e, heap p !! i = Some e /\ byMach p !! EMachineID e = Some i }.

Lemma published_spec p m e :
  published p m = Some e <-> exists i, byMach p !! m = Some i /\ heap p !! i = Some e.
Proof. unfold published. destruct (byMach p !! m); simpl; naive_solver. Qed.

Lemma wf_new : wf NewProxy.
Proof. by constructor; simpl; intros; simplify_map_eq. Qed.

(** What [stage] does when it succeeds: one more entry, not visible. *)
Lemma stage_ok p machineID executionID projectID appID ip policy p' staged :
  stage p machineID executionID projectID appID ip policy = (p', Ok staged) ->
  (ip = "" /\ guestIP staged = AddrNone \/ exists a, ParseAddr ip = Some a /\ guestIP staged = Unmap a) /\
  fenced p machineID executionID policy = None /\
  entry staged = next p /\
  p' = mkProxy (<[next p := mkEntry machineID executionID projectID appID policy 0 0 0 ∅ false]> (heap p))
         (S (next p)) (byIP p) (byMach p).
Proof.
  unfold stage. destruct (is_empty ip) eqn:Hip.
  - apply String.eqb_eq in Hip as ->. repeat case_match; intros; simplify_eq.
    split_and!; auto.
  - destruct (ParseAddr ip) as [a|] eqn:Ha; simpl; [|done]. repeat case_match; intros; simplify_eq.
    split_and!; eauto.
Qed.

Lemma stage_err p machineID executionID projectID appID ip policy p' err :
  stage p machineID executionID projectID appID ip policy = (p', Err err) -> p' = p.
Proof. unfold stage. repeat case_match; intros; by simplify_eq. Qed.

Lemma published_grow p i e :
  wf p -> (next p <= i)%nat -> forall m, published (mkProxy (<[i := e]> (heap p)) (S i) (byIP p) (byMach p)) m = published p m.
Proof.
  intros [Hf Hm _] Hi m. unfold published; simpl. destruct (byMach p !! m) as [j|] eqn:Hj; simpl; [|done].
  apply Hm in Hj as (e' & He' & _). rewrite lookup_insert_ne; [done|]. intros ->. rewrite Hf in He'; done || lia.
Qed.

Lemma wf_stage p machineID executionID projectID appID ip policy :
  wf p -> wf (stage p machineID executionID projectID appID ip policy).1.
Proof.
  intros Hwf. destruct (stage _ _ _ _ _ _ _) as [p' [staged|err]] eqn:H; simpl.
  - apply stage_ok in H as (_ & _ & _ & ->). destruct Hwf as [Hf Hm Hi]. constructor; simpl.
    + intros i Hi'. rewrite lookup_insert_ne by lia. apply Hf. lia.
    + intros m i (e & He & Hid)%Hm. exists e. split; [|done]. rewrite lookup_insert_ne; [done|].
      intros <-. rewrite Hf in He; done || lia.
    + intros a i (Hv & e & He & Hb)%Hi. split; [done|]. exists e. split; [|done].
      rewrite lookup_insert_ne; [done|]. intros <-. rewrite Hf in He; done || lia.
  - apply stage_err in H as ->. done.
Qed.

Lemma unbind_lookup i m a j : unbind i m !! a = Some j <-> m !! a = Some j /\ j <> i.
Proof. unfold unbind. apply map_lookup_filter_Some. Qed.

(** A successful [swap] publishes the staged entry and touches no other machine. *)
Lemma swap_ok p staged e p' :
  heap p !! entry staged = Some e -> swap p staged = (p', Ok tt) ->
  fenced p (EMachineID e) (EExecutionID e) (EPolicy e) = None /\
  taken p (EMachineID e) (guestIP staged) = None /\
  heap p' = heap p /\ next p' = next p /\ byMach p' = <[EMachineID e := entry staged]> (byMach p).
Proof.
  intros He. unfold swap. rewrite He. destruct (fenced _ _ _ _); [done|]. destruct (taken _ _ _); [done|].
  intros [= <-]. done.
Qed.

Lemma swap_err p staged p' err : swap p staged = (p', Err err) -> p' = p.
Proof. unfold swap. repeat case_match; intros; by simplify_eq. Qed.

Lemma wf_swap p staged : wf p -> wf (swap p staged).1.
Proof.
  intros Hwf. unfold swap. destruct (heap p !! entry staged) as [e|] eqn:He; [|done].
  destruct (fenced _ _ _ _); [done|]. destruct (taken _ _ _) eqn:Ht; [done|]. simpl.
  destruct Hwf as [Hf Hm Hi]. constructor; simpl; [done| |].
  - intros m i. destruct (decide (m = EMachineID e)) as [->|Hne].
    + rewrite lookup_insert_eq. intros [= <-]. by exists e.
    + rewrite lookup_insert_ne by done. apply Hm.
  - set (ips := match byMach p !! EMachineID e with Some old => unbind old (byIP p) | None => byIP p end).
    assert (Hips : forall a i, ips !! a = Some i ->
      IsValid a = true /\ exists e', heap p !! i = Some e' /\
        <[EMachineID e := entry staged]> (byMach p) !! EMachineID e' = Some i).
    { intros a i Hai. assert (byIP p !! a = Some i /\ byMach p !! EMachineID e <> Some i) as [Hbi Hne].
      { unfold ips in Hai. destruct (byMach p !! EMachineID e) as [old|] eqn:Hold; [|by split].
        apply unbind_lookup in Hai as [? ?]. split; congruence. }
      destruct (Hi a i Hbi) as (Hv & e' & He' & Hb'). split; [done|]. exists e'. split; [done|].
      rewrite lookup_insert_ne; [done|]. congruence. }
    intros a i. destruct (IsValid (guestIP staged)) eqn:Hv; [|apply Hips].
    destruct (decide (a = guestIP staged)) as [->|Hne].
    + rewrite lookup_insert_eq. intros [= <-]. split; [done|]. exists e. split; [done|]. by rewrite lookup_insert_eq.
    + rewrite lookup_insert_ne by done. apply Hips.
Qed.

Lemma wf_Unregister p m : wf p -> wf (Unregister p m).
Proof.
  intros [Hf Hm Hi]. unfold Unregister. destruct (byMach p !! m) as [i|] eqn:Hmi; [|done].
  constructor; simpl; [done| |].
  - intros m' j Hj. apply lookup_delete_Some in Hj as [_ Hj]. eauto.
  - intros a j (Hj & Hne)%unbind_lookup. destruct (Hi a j Hj) as (Hv & e & He & Hb).
    split; [done|]. exists e. split; [done|]. rewrite lookup_delete_ne; [done|].
    intros ->. congruence.
Qed.

Lemma wf_BindIP p ip m : wf p -> wf (BindIP p ip m).1.
Proof.
  intros Hwf. unfold BindIP. destruct (ParseAddr ip) as [addr|] eqn:Ha; [|done].
  destruct (byMach p !! m) as [i|] eqn:Hmi; [|done].
  assert (wf (mkProxy (heap p) (next p) (<[addr := i]> (byIP p)) (byMach p))) as Hok.
  { destruct Hwf as [Hf Hm Hi]. constructor; simpl; [done|done|]. intros a j.
    destruct (decide (a = addr)) as [->|Hne]; [|rewrite lookup_insert_ne by done; apply Hi].
    rewrite lookup_insert_eq. intros [= <-]. split.
    - apply ParseAddr_inv in Ha as [(v & _ & ->)|(v & z & ->)]; done.
    - destruct (Hm m i Hmi) as (e & He & <-). eauto. }
  repeat case_match; done.
Qed.

(** ** The calls of the registry *)

(** A call, with what the data plane answers to it. *)
Inductive call :=
  | CRegister (machineID executionID projectID appID : string) (policy : option Policy)
  | CBindIP (ip machineID : string)
  | CUnregister (machineID : string)
  | CApply (engine : option (res unit)) (machineID executionID projectID appID ip : string) (policy : option Policy)
  | CRemove (engine : option (res unit)) (machineID : string).

Definition run (pick : list Addr -> option Addr) (p : Proxy) (c : call) : Proxy :=
  match c with
  | CRegister m ex pr ap policy => (Register pick p m ex pr ap policy).1
  | CBindIP ip m => (BindIP p ip m).1
  | CUnregister m => Unregister p m
  | CApply engine m ex pr ap ip policy => (Apply pick engine p m ex pr ap ip policy).1
  | CRemove engine m => (removeLocked engine p m).1
  end.

Lemma wf_removeLocked engine p m : wf p -> wf (removeLocked engine p m).1.
Proof. intros H. unfold removeLocked. repeat case_match; simpl; auto using wf_Unregister. Qed.

Lemma wf_run pick p c : wf p -> wf (run pick p c).
Proof.
  intros Hwf. destruct c as [m ex pr ap policy|ip m|m|engine m ex pr ap ip policy|engine m]; simpl.
  - unfold Register. destruct policy as [policy|]; [|by apply wf_Unregister].
    pose proof (wf_stage p m ex pr ap (if IsValid (ipForMachine pick p m) then
      addr_string (ipForMachine pick p m) else "") policy Hwf) as Hs.
    destruct (stage _ _ _ _ _ _ _) as [p1 [staged|err]]; [by apply wf_swap|done].
  - by apply wf_BindIP.
  - by apply wf_Unregister.
  - unfold Apply. destruct policy as [policy|]; [|by apply wf_removeLocked].
    pose proof (wf_stage p m ex pr ap ip policy Hwf) as Hs.
    destruct (stage _ _ _ _ _ _ _) as [p1 [staged|err]]; [|done]. simpl in Hs.
    pose proof (wf_swap p1 staged Hs) as Hw. destruct (swap p1 staged) as [p2 [[]|err]]; [|done].
    simpl in Hw. destruct engine as [[[]|err]|]; [done| |done].
    destruct (current pick p1 m); simpl; [by apply wf_swap|by apply wf_Unregister].
  - by apply wf_removeLocked.
Qed.

(** Whatever calls have been made, a source address decides with
    the policy its machine currently publishes, and an address of a machine that
    is not registered decides nothing: the proxy refuses its connections. *)
Theorem source_decides_with_current pick calls a e :
  let p := fold_left (run pick) calls NewProxy in
  entryForIP p a = Some e ->
  published p (EMachineID e) = Some e /\ IsValid (Unmap a) = true.
Proof.
  intros p. assert (wf p) as Hwf.
  { unfold p. generalize wf_new. generalize NewProxy. induction calls as [|c calls IH]; intros q Hq; [done|].
    simpl. apply IH. by apply wf_run. }
  unfold entryForIP, at_ip. destruct (byIP p !! Unmap a) as [i|] eqn:Hi; [|done]. simpl. intros He.
  destruct (wf_ip p Hwf _ _ Hi) as (Hv & e' & He' & Hb). simplify_eq. split; [|done].
  apply published_spec. eauto.
Qed.

(** ** Generations *)

(** [q] publishes for [m] what [p] does, or an entry no older for its execution. *)
Definition no_older (m : string) (p q : Proxy) : Prop :=
  forall e e', published p m = Some e -> published q m = Some e' -> EExecutionID e = EExecutionID e' ->
    PGeneration (EPolicy e) <= PGeneration (EPolicy e').

Lemma fenced_none p m ex policy e :
  fenced p m ex policy = None -> published p m = Some e -> EExecutionID e = ex ->
  PGeneration (EPolicy e) <= PGeneration policy.
Proof.
  unfold fenced. intros H He <-. rewrite He, String.eqb_refl in H. simpl in H.
  destruct (_ <? _) eqn:E; [done|]. bool_to_prop. done.
Qed.

Lemma no_older_refl m p : no_older m p p.
Proof. intros e e' H H' _. rewrite H in H'. by injection H' as ->. Qed.

Lemma swap_published p staged e p' m :
  heap p !! entry staged = Some e -> swap p staged = (p', Ok tt) ->
  published p' m = if decide (m = EMachineID e) then Some e else published p m.
Proof.
  intros He Hs. destruct (swap_ok _ _ _ _ He Hs) as (_ & _ & Hh & _ & Hb).
  unfold published. rewrite Hb, Hh. case_decide as Hm.
  - subst m. by rewrite lookup_insert_eq.
  - by rewrite lookup_insert_ne by done.
Qed.

Lemma no_older_swap m p staged : no_older m p (swap p staged).1.
Proof.
  destruct (heap p !! entry staged) as [e|] eqn:He.
  - destruct (swap p staged) as [p' [[]|err]] eqn:Hs; simpl.
    + intros e1 e2 H1 H2 Hex. rewrite (swap_published _ _ _ _ m He Hs) in H2.
      case_decide as Hm; [|rewrite H1 in H2; by injection H2 as ->].
      destruct (swap_ok _ _ _ _ He Hs) as (Hf & _). simplify_eq.
      exact (fenced_none _ _ _ _ _ Hf H1 Hex).
    + apply swap_err in Hs as ->. apply no_older_refl.
  - unfold swap. rewrite He. apply no_older_refl.
Qed.

Lemma published_Unregister p m m' :
  published (Unregister p m) m' = if decide (m' = m) then None else published p m'.
Proof.
  unfold Unregister, published. destruct (byMach p !! m) as [i|] eqn:Hi; simpl.
  - case_decide as Hm; [subst; by rewrite lookup_delete_eq|by rewrite lookup_delete_ne].
  - case_decide as Hm; [subst; by rewrite Hi|done].
Qed.

Lemma no_older_Unregister m p m' : no_older m p (Unregister p m').
Proof.
  intros e e' H H' _. rewrite published_Unregister in H'. case_decide; [done|]. rewrite H in H'.
  by injection H' as ->.
Qed.

Lemma published_stage p machineID executionID projectID appID ip policy m :
  wf p -> published (stage p machineID executionID projectID appID ip policy).1 m = published p m.
Proof.
  intros Hwf. destruct (stage _ _ _ _ _ _ _) as [p' [staged|err]] eqn:H; simpl.
  - apply stage_ok in H as (_ & _ & _ & ->). by apply (published_grow p (next p)).
  - by apply stage_err in H as ->.
Qed.

Lemma no_older_ext m p p' q : (forall m, published p' m = published p m) -> no_older m p' q -> no_older m p q.
Proof. intros Heq H e e'. rewrite <- Heq. apply H. Qed.

(** The three ends of an [Apply] that got past staging and publishing. *)
Definition new_entry (m ex pr ap : string) (policy : Policy) : Entry := mkEntry m ex pr ap policy 0 0 0 ∅ false.

Lemma Apply_ends pick engine p m ex pr ap ip policy p' r :
  wf p -> Apply pick engine p m ex pr ap ip (Some policy) = (p', r) ->
  (p' = p /\ exists err, r = Err (Errorf "egress stage proxy: %w" [AErr err])) \/
  (exists p1 staged p2,
     stage p m ex pr ap ip policy = (p1, Ok staged) /\ swap p1 staged = (p2, Ok tt) /\
     fenced p m ex policy = None /\ heap p2 !! entry staged = Some (new_entry m ex pr ap policy) /\
     (forall m', published p2 m' = if decide (m' = m) then Some (new_entry m ex pr ap policy) else published p m') /\
     match engine with
     | Some (Err err) =>
         r = Err (Errorf "egress apply datapath snapshot: %w" [AErr err]) /\
         p' = match current pick p1 m with Some oldProxy => (swap p2 oldProxy).1 | None => Unregister p2 m end
     | _ => r = Ok tt /\ p' = p2
     end) \/
  (exists err, r = Err (Errorf "egress publish proxy: %w" [AErr err]) /\ forall m', published p' m' = published p m').
Proof.
  intros Hwf. cbn [Apply]. pose proof (published_stage p m ex pr ap ip policy) as Hps.
  destruct (stage p m ex pr ap ip policy) as [p1 [staged|err]] eqn:Hst; simpl in Hps.
  2: { intros [= <- <-]. left. split; [by eapply stage_err|by eexists]. }
  pose proof (stage_ok _ _ _ _ _ _ _ _ _ Hst) as (_ & Hf & Hent & Hp1).
  assert (heap p1 !! entry staged = Some (new_entry m ex pr ap policy)) as Hnew
    by (rewrite Hp1, Hent; apply lookup_insert_eq).
  destruct (swap p1 staged) as [p2 [[]|err]] eqn:Hsw.
  2: { intros [= <- <-]. right; right. exists err. split; [done|]. apply swap_err in Hsw as ->. by intros; apply Hps. }
  intros H. right; left. exists p1, staged, p2. split_and!; try done.
  - destruct (swap_ok _ _ _ _ Hnew Hsw) as (_ & _ & -> & _). done.
  - intros m'. rewrite (swap_published _ _ _ _ m' Hnew Hsw). simpl. case_decide; [done|by apply Hps].
  - destruct engine as [[[]|err]|]; by simplify_eq.
Qed.

Lemma current_old pick p m staged :
  wf p -> current pick p m = Some staged ->
  exists e, heap p !! entry staged = Some e /\ EMachineID e = m /\ published p m = Some e.
Proof.
  intros Hwf. unfold current. destruct (byMach p !! m) as [i|] eqn:Hi; simpl; [|done].
  intros [= <-]. destruct (wf_mach p Hwf m i Hi) as (e & He & Hm). exists e. split_and!; [done..|].
  apply published_spec. eauto.
Qed.

Lemma stage_heap p m ex pr ap ip policy p1 staged i e :
  wf p -> stage p m ex pr ap ip policy = (p1, Ok staged) -> heap p !! i = Some e -> heap p1 !! i = Some e.
Proof.
  intros [Hf _ _] (_ & _ & _ & ->)%stage_ok He. simpl. rewrite lookup_insert_ne; [done|].
  intros <-. rewrite Hf in He; [done|lia].
Qed.

(** What a machine publishes after an [Apply]: the new entry or what it was. *)
Lemma Apply_published pick engine p m ex pr ap ip policy m' :
  wf p -> let p' := (Apply pick engine p m ex pr ap ip (Some policy)).1 in
  published p' m' = published p m' \/
  (m' = m /\ published p' m' = Some (new_entry m ex pr ap policy) /\ fenced p m ex policy = None).
Proof.
  intros Hwf. cbv zeta. destruct (Apply _ _ _ _ _ _ _ _ _) as [p' r] eqn:H. simpl.
  apply Apply_ends in H as [[-> _]|[(p1 & staged & p2 & Hst & Hsw & Hf & Hnew & Hpub & Hend)|(err & _ & Hpub)]];
    [by left| |by left; apply Hpub|done].
  assert (Hcase : p' = p2 \/ exists err, engine = Some (Err err) /\
    p' = match current pick p1 m with Some oldProxy => (swap p2 oldProxy).1 | None => Unregister p2 m end).
  { destruct engine as [[[]|err]|]; [by left; apply Hend|right; exists err; by destruct Hend|by left; apply Hend]. }
  destruct Hcase as [->|(err & _ & ->)].
  - rewrite (Hpub m'). case_decide; [right; by subst|by left].
  - pose proof (wf_stage p m ex pr ap ip policy Hwf) as Hw1. rewrite Hst in Hw1. simpl in Hw1.
    assert (Hps : forall x, published p1 x = published p x).
    { intros x. pose proof (published_stage p m ex pr ap ip policy x Hwf) as Hx. by rewrite Hst in Hx. }
    destruct (current pick p1 m) as [old|] eqn:Hc.
    + destruct (current_old _ _ _ _ Hw1 Hc) as (e & He & Hm & Hpe). rewrite Hps in Hpe.
      assert (heap p2 !! entry old = Some e) as He2.
      { assert (heap p1 !! entry staged = Some (new_entry m ex pr ap policy)) as Hn1.
        { destruct (stage_ok _ _ _ _ _ _ _ _ _ Hst) as (_ & _ & -> & ->). apply lookup_insert_eq. }
        by destruct (swap_ok _ _ _ _ Hn1 Hsw) as (_ & _ & -> & _). }
      destruct (swap p2 old) as [p3 [[]|err']] eqn:Hsw2; simpl.
      * rewrite (swap_published _ _ _ _ m' He2 Hsw2), Hm, (Hpub m').
        left. repeat case_decide; subst; congruence.
      * apply swap_err in Hsw2 as ->. rewrite (Hpub m'). case_decide; [right; by subst|by left].
    + rewrite published_Unregister, (Hpub m'). left. case_decide as Hm'; [|done]. subst m'.
      unfold current in Hc. rewrite <- Hps. unfold published. by destruct (byMach p1 !! m).
Qed.

(** No call ever replaces the policy an execution is
    subject to by one of a lower generation, not even the undoing of a failed
    installation; only removing the machine forgets the generation. *)
Theorem generation_never_goes_back pick p c m :
  wf p -> no_older m p (run pick p c).
Proof.
  intros Hwf. destruct c as [m' ex pr ap policy|ip m'|m'|engine m' ex pr ap ip policy|engine m']; simpl.
  - unfold Register. destruct policy as [policy|]; [|apply no_older_Unregister].
    pose proof (published_stage p m' ex pr ap (if IsValid (ipForMachine pick p m') then
      addr_string (ipForMachine pick p m') else "") policy) as Hps.
    destruct (stage _ _ _ _ _ _ _) as [p1 [staged|err]]; simpl in Hps.
    + apply (no_older_ext _ _ p1); [by intros; apply Hps|apply no_older_swap].
    + apply (no_older_ext _ _ p1); [by intros; apply Hps|apply no_older_refl].
  - assert (published (BindIP p ip m').1 m = published p m) as Hb
      by (unfold BindIP; repeat case_match; done).
    intros e e' He He' _. rewrite Hb, He in He'. by injection He' as ->.
  - apply no_older_Unregister.
  - destruct policy as [policy|].
    + intros e e' He He' Hex.
      destruct (Apply_published pick engine p m' ex pr ap ip policy m Hwf) as [Heq|(-> & Hn & Hf)].
      * rewrite Heq, He in He'. by injection He' as ->.
      * rewrite Hn in He'. injection He' as <-. by eapply fenced_none.
    + unfold Apply, removeLocked. repeat case_match; simpl; auto using no_older_refl, no_older_Unregister.
  - unfold removeLocked. repeat case_match; simpl; auto using no_older_refl, no_older_Unregister.
Qed.

(** ** Undoing a publication *)

Lemma ips_of_elem p i a : a ∈ ips_of p i <-> byIP p !! a = Some i.
Proof.
  unfold ips_of. rewrite list_elem_of_fmap. split.
  - intros ([a' j] & -> & [Hj Hin]%list_elem_of_filter). simpl in *. subst j. by apply elem_of_map_to_list.
  - intros Ha. exists (a, i). split; [done|]. apply list_elem_of_filter. split; [done|].
    by apply elem_of_map_to_list.
Qed.

(** The binding [current] saves is free once the new entry is published. *)
Lemma saved_binding_free pick p1 staged e p2 old :
  (forall l a, pick l = Some a -> a ∈ l) -> wf p1 -> heap p1 !! entry staged = Some e ->
  swap p1 staged = (p2, Ok tt) -> current pick p1 (EMachineID e) = Some old ->
  taken p2 (EMachineID e) (guestIP old) = None.
Proof.
  intros Hpick Hwf He Hsw Hc. unfold taken.
  destruct (at_ip p2 (guestIP old)) as [x|] eqn:Hx; [|done].
  destruct (IsValid (guestIP old)) eqn:Hv; [|done]. simpl.
  destruct (String.eqb_spec (EMachineID x) (EMachineID e)) as [|Hne]; [done|]. exfalso. apply Hne.
  unfold current in Hc. destruct (byMach p1 !! EMachineID e) as [i|] eqn:Hi; [|done].
  injection Hc as <-. unfold ipForMachine in *. rewrite Hi in *. cbn [guestIP] in *.
  destruct (pick (ips_of p1 i)) as [a|] eqn:Ha; [|done]. simpl in *.
  apply Hpick, ips_of_elem in Ha. unfold swap in Hsw. rewrite He, Hi in Hsw.
  destruct (fenced _ _ _ _); [done|]. destruct (taken _ _ _); [done|]. injection Hsw as <-.
  unfold at_ip in Hx. simpl in Hx.
  assert (Hun : unbind i (byIP p1) !! a = None).
  { destruct (unbind i (byIP p1) !! a) as [j|] eqn:Hj; [|done]. apply unbind_lookup in Hj as [Hj Hji]. congruence. }
  destruct (IsValid (guestIP staged)); [|by rewrite Hun in Hx].
  destruct (decide (a = guestIP staged)) as [->|Hna].
  - rewrite lookup_insert_eq in Hx. simpl in Hx. by simplify_eq.
  - rewrite lookup_insert_ne, Hun in Hx by done. done.
Qed.

(** When the data plane refuses the policy of a new execution, the
    machine publishes again the entry it had. *)
Theorem failed_install_restores pick err p m ex pr ap ip policy old p' r :
  (forall l a, pick l = Some a -> a ∈ l) -> wf p ->
  published p m = Some old -> EExecutionID old <> ex ->
  Apply pick (Some (Err err)) p m ex pr ap ip (Some policy) = (p', r) ->
  is_ok r = false /\ published p' m = Some old.
Proof.
  intros Hpick Hwf Hold Hex H.
  apply Apply_ends in H as [[-> [err' ->]]|[(p1 & staged & p2 & Hst & Hsw & Hf & Hnew & Hpub & [-> ->])|
    (err' & -> & Hpub)]]; [done| |by rewrite Hpub|done]. split; [done|].
  pose proof (wf_stage p m ex pr ap ip policy Hwf) as Hw1. rewrite Hst in Hw1. simpl in Hw1.
  assert (Hp1 : published p1 m = Some old).
  { pose proof (published_stage p m ex pr ap ip policy m Hwf) as Hx. rewrite Hst in Hx. simpl in Hx.
    by rewrite Hx. }
  assert (Hn1 : heap p1 !! entry staged = Some (new_entry m ex pr ap policy)).
  { destruct (stage_ok _ _ _ _ _ _ _ _ _ Hst) as (_ & _ & -> & ->). apply lookup_insert_eq. }
  destruct (swap_ok _ _ _ _ Hn1 Hsw) as (_ & _ & Hheap & _ & _).
  destruct (current pick p1 m) as [saved|] eqn:Hc.
  2: { unfold current in Hc. unfold published in Hp1. by destruct (byMach p1 !! m). }
  destruct (current_old _ _ _ _ Hw1 Hc) as (e & He & Hm & Hpe). rewrite Hp1 in Hpe. injection Hpe as <-.
  pose proof (saved_binding_free _ _ _ _ _ _ Hpick Hw1 Hn1 Hsw Hc) as Ht. simpl in Ht.
  assert (swap p2 saved = ((swap p2 saved).1, Ok tt)) as Hs2.
  { unfold swap. rewrite Hheap, He, Hm, Ht. unfold fenced. rewrite (Hpub m), decide_True by done.
    cbn [EExecutionID new_entry]. apply not_eq_sym, String.eqb_neq in Hex. by rewrite Hex. }
  rewrite (swap_published p2 saved old _ m); [|by rewrite Hheap|exact Hs2]. by rewrite decide_True.
Qed.

(** When the data plane refuses a newer generation for the
    execution a machine already runs, undoing the publication is itself refused
    by the generation fence, silently: the call fails and the new policy stays
    published, whatever the data plane kept. *)
Theorem failed_install_keeps_new pick err p m ex pr ap ip policy old p' :
  wf p -> published p m = Some old -> EExecutionID old = ex ->
  PGeneration (EPolicy old) < PGeneration policy ->
  Apply pick (Some (Err err)) p m ex pr ap ip (Some policy) =
    (p', Err (Errorf "egress apply datapath snapshot: %w" [AErr err])) ->
  published p' m = Some (new_entry m ex pr ap policy).
Proof.
  intros Hwf Hold Hex Hlt H.
  apply Apply_ends in H as [[-> [err' ?]]|[(p1 & staged & p2 & Hst & Hsw & Hf & Hnew & Hpub & [_ ->])|
    (err' & ? & Hpub)]]; [done| |done|done].
  pose proof (wf_stage p m ex pr ap ip policy Hwf) as Hw1. rewrite Hst in Hw1. simpl in Hw1.
  assert (Hp1 : published p1 m = Some old).
  { pose proof (published_stage p m ex pr ap ip policy m Hwf) as Hx. rewrite Hst in Hx. simpl in Hx.
    by rewrite Hx. }
  assert (Hn1 : heap p1 !! entry staged = Some (new_entry m ex pr ap policy)).
  { destruct (stage_ok _ _ _ _ _ _ _ _ _ Hst) as (_ & _ & -> & ->). apply lookup_insert_eq. }
  destruct (swap_ok _ _ _ _ Hn1 Hsw) as (_ & _ & Hheap & _ & _).
  destruct (current pick p1 m) as [saved|] eqn:Hc.
  2: { unfold current in Hc. unfold published in Hp1. by destruct (byMach p1 !! m). }
  destruct (current_old _ _ _ _ Hw1 Hc) as (e & He & Hm & Hpe). rewrite Hp1 in Hpe. injection Hpe as <-.
  assert (swap p2 saved = (p2, Err (errors_New "egress policy generation changed while staged"))) as ->.
  { unfold swap. rewrite Hheap, He, Hm. unfold fenced. rewrite (Hpub m), decide_True by done.
    cbn [EExecutionID EPolicy new_entry]. rewrite <- Hex, String.eqb_refl. simpl.
    by rewrite (proj2 (Z.ltb_lt _ _) Hlt). }
  simpl. rewrite (Hpub m). by rewrite decide_True.
Qed.

(** ** The deny counters *)

(** The two keys the proxy counts under never reach the limit of
    32 buckets, so the mutex is released after every denial; a counter that did
    reach it would keep the mutex locked at the next new key, and block for ever
    the denial after that. *)
Theorem deny_counter_lock e :
  bucket_locked e = false ->
  (dom (bucket e) ⊆ {["http:80"; "tls:443"]} -> forall idx,
     exists e', recordDeny e (deny_key idx) = Some e' /\ bucket_locked e' = false /\
       dom (bucket e') ⊆ {["http:80"; "tls:443"]} /\ denied e' = denied e + 1) /\
  (forall key key', (32 <= size (bucket e))%nat -> bucket e !! key = None ->
     exists e', recordDeny e key = Some e' /\ recordDeny e' key' = None).
Proof.
  intros Hl. split.
  - intros Hdom idx. assert (size (bucket e) <= 2)%nat as Hsz.
    { rewrite <- size_dom. apply subseteq_size in Hdom. rewrite size_union in Hdom by set_solver.
      by rewrite !size_singleton in Hdom. }
    unfold recordDeny. rewrite Hl. destruct (Nat.leb 32 _) eqn:H32; [apply Nat.leb_le in H32; lia|].
    simpl. eexists. split; [done|]. split; [done|]. split; [|done]. simpl. rewrite dom_insert.
    unfold deny_key. destruct (idx =? 0); set_solver.
  - intros key key' Hsz Hk. unfold recordDeny. rewrite Hl, (proj2 (Nat.leb_le _ _) Hsz), Hk.
    rewrite bool_decide_false by (by intros [??]). simpl. eexists. by split.
Qed.

(** ** Concrete calls *)

Module Witness.
Definition policy (gen : Z) : Policy := mkPolicy ModeAllowlist [] [] [mkDomain "api.dev" ""] 0 gen false true.
Definition pick (l : list Addr) : option Addr := head l.

Definition p1 : Proxy :=
  (Apply pick (Some (Ok tt)) NewProxy "m1" "e1" "p" "a" "10.100.0.7" (Some (policy 1))).1.
Definition old : Entry := new_entry "m1" "e1" "p" "a" (policy 1).

Lemma wf_p1 : wf p1.
Proof. apply (wf_run pick NewProxy (CApply (Some (Ok tt)) "m1" "e1" "p" "a" "10.100.0.7" (Some (policy 1)))), wf_new. Qed.

Lemma published_p1 : published p1 "m1" = Some old.
Proof. vm_compute. reflexivity. Qed.

Lemma pick_member l a : pick l = Some a -> a ∈ l.
Proof. destruct l; [done|]. intros [= ->]. by left. Qed.

Lemma source_decides_with_current_witness :
  entryForIP p1 (Addr4 (10 * 2 ^ 24 + 100 * 2 ^ 16 + 7)) = Some old /\ published p1 "m1" = Some old.
Proof.
  assert (H : entryForIP p1 (Addr4 (10 * 2 ^ 24 + 100 * 2 ^ 16 + 7)) = Some old) by (vm_compute; reflexivity).
  split; [exact H|].
  exact (proj1 (source_decides_with_current pick
    [CApply (Some (Ok tt)) "m1" "e1" "p" "a" "10.100.0.7" (Some (policy 1))] _ old H)).
Defined.

Definition refused : option (res unit) := Some (Err (errors_New "nft failed")).

Lemma generation_never_goes_back_witness :
  no_older "m1" p1 (run pick p1 (CApply refused "m1" "e1" "p" "a" "10.100.0.7" (Some (policy 2)))).
Proof. apply (generation_never_goes_back pick p1). apply wf_p1. Defined.

Lemma failed_install_restores_witness : exists p' r,
  Apply pick refused p1 "m1" "e2" "p" "a" "10.100.0.8" (Some (policy 2)) = (p', r) /\
  is_ok r = false /\ published p' "m1" = Some old.
Proof.
  destruct (Apply pick refused p1 "m1" "e2" "p" "a" "10.100.0.8" (Some (policy 2))) as [p' r] eqn:H.
  exists p', r. split; [reflexivity|].
  apply (failed_install_restores pick (errors_New "nft failed") p1 "m1" "e2" "p" "a" "10.100.0.8" (policy 2) old);
    [exact pick_member|exact wf_p1|exact published_p1|discriminate|exact H].
Defined.

Lemma failed_install_keeps_new_witness :
  published (Apply pick refused p1 "m1" "e1" "p" "a" "10.100.0.7" (Some (policy 2))).1 "m1" =
  Some (new_entry "m1" "e1" "p" "a" (policy 2)).
Proof.
  apply (failed_install_keeps_new pick (errors_New "nft failed") p1 "m1" "e1" "p" "a" "10.100.0.7" (policy 2) old);
    [exact wf_p1|exact published_p1|reflexivity|reflexivity|vm_compute; reflexivity].
Defined.

Lemma deny_counter_lock_witness : exists e', recordDeny old "http:80" = Some e' /\ bucket_locked e' = false.
Proof.
  destruct (deny_counter_lock old) as [H _]; [reflexivity|].
  destruct (H ltac:(vm_compute; set_solver) 0) as (e' & He & Hl & _). exists e'. exact (conj He Hl).
Defined.
End Witness.
