(* ===== verification/Sniff.v ===== *)
(** * First-packet sniffing (internal/agent/egress/sniff.go)

    The Host of an HTTP request and the server name of a TLS ClientHello. Bytes
    are numbers below 256. Indexing and slicing a byte slice out of range panics
    in Go: here it gives [None], as does running out of fuel, and the theorems
    show that neither ever happens. A connection is the bytes it delivers and the error (EOF or another) it ends
    with. *)
From S2P Require Import Prelude GoString EgressPolicy.
From Stdlib Require Import Ascii.
Local Open Scope Z_scope.

Definition maxHTTPHeaderBytes : nat := 8 * 1024.
Definition maxClientHelloSize : Z := 16 * 1024.

Definition string_of (l : list Z) : string :=
  String.string_of_list_ascii (map (fun z => ascii_of_nat (Z.to_nat z)) l).

(** ** Checked access *)

Definition byte_at (l : list Z) (i : nat) : option Z := l !! i.
(** [l[i:j]]. *)
Definition slice (l : list Z) (i j : nat) : option (list Z) :=
  if Nat.leb i j && Nat.leb j (length l) then Some (take (j - i) (drop i l)) else None.
(** [binary.BigEndian.Uint16(l[i:i+2])]. *)
Definition be16 (l : list Z) (i : nat) : option nat :=
  a ← byte_at l i; b ← byte_at l (i + 1); Some (Z.to_nat (a * 256 + b)).

(** The result of a parser: the name and whether it was determined. *)
Definition no_name : option (string * bool) := Some ("", false).

(** ** The server_name extension *)

Fixpoint server_names (fuel : nat) (l : list Z) (i : nat) : option (string * bool) :=
  match fuel with
  | O => None
  | S fuel' =>
      if Nat.leb (i + 3) (length l) then
        nameType ← byte_at l i;
        nameLen ← be16 l (i + 1);
        let i := (i + 3)%nat in
        if Nat.ltb (length l) (i + nameLen) then no_name
        else
          (if nameType =? 0 then
             host ← slice l i (i + nameLen);
             if negb (String.eqb (string_of host) "") then Some (string_of host, true)
             else server_names fuel' l (i + nameLen)
           else server_names fuel' l (i + nameLen))
      else no_name
  end.

Definition parseServerNameExt (ext : list Z) : option (string * bool) :=
  if Nat.ltb (length ext) 5 then no_name
  else
    listLen ← be16 ext 0;
    if Nat.ltb (length ext) (listLen + 2) then no_name
    else l ← slice ext 2 (2 + listLen); server_names (S (length l)) l 0.

(** ** The ClientHello *)

Fixpoint extensions (fuel : nat) (body : list Z) (off en : nat) : option (string * bool) :=
  match fuel with
  | O => None
  | S fuel' =>
      if Nat.leb (off + 4) en then
        extType ← be16 body off;
        extSize ← be16 body (off + 2);
        let off := (off + 4)%nat in
        if Nat.ltb en (off + extSize) then no_name
        else if Nat.eqb extType 0 then
          ext ← slice body off (off + extSize); parseServerNameExt ext
        else extensions fuel' body (off + extSize) en
      else no_name
  end.

Definition parse_body (body : list Z) : option (string * bool) :=
  let n := length body in
  if Nat.ltb n (2 + 2 + 32) then no_name
  else
    let off := (2 + 32)%nat in
    if Nat.ltb n (off + 1) then no_name
    else
      sidLen ← byte_at body off;
      let off := (off + 1)%nat in
      if Nat.ltb n (off + Z.to_nat sidLen) then no_name
      else
        let off := (off + Z.to_nat sidLen)%nat in
        if Nat.ltb n (off + 2) then no_name
        else
          csLen ← be16 body off;
          let off := (off + 2 + csLen)%nat in
          if Nat.ltb n (off + 1) then no_name
          else
            compLen ← byte_at body off;
            let off := (off + 1 + Z.to_nat compLen)%nat in
            if Nat.ltb n (off + 2) then no_name
            else
              extLen ← be16 body off;
              let off := (off + 2)%nat in
              let en := (off + extLen)%nat in
              if Nat.ltb n en then no_name else extensions (S n) body off en.

Definition parseClientHelloSNI (payload : list Z) : option (string * bool) :=
  if Nat.ltb (length payload) 4 then no_name
  else
    t ← byte_at payload 0;
    if negb (t =? 1) then no_name
    else
      a ← byte_at payload 1; b ← byte_at payload 2; c ← byte_at payload 3;
      let hsLen := Z.to_nat (a * 65536 + b * 256 + c) in
      if Nat.ltb (length payload) (hsLen + 4) then no_name
      else body ← slice payload 4 (4 + hsLen); parse_body body.

(** ** Reading *)

Record PeekResult := mkPeek { Host : string; PPrefix : list Z }.
Definition ErrNoHostInfo : goerr := errors_New "no host/sni information".
Definition errSniffTooLarge : goerr := errors_New "http header too large".
Definition EOF : goerr := errors_New "EOF".
Definition ErrUnexpectedEOF : goerr := errors_New "unexpected EOF".

(** The bytes still to come and what follows them; [None] is EOF. *)
Record Reader := mkReader { rest : list Z; final : option goerr }.

(** [io.ReadFull]. *)
Definition ReadFull (r : Reader) (n : nat) : Reader * res (list Z) :=
  if Nat.leb n (length (rest r)) then (mkReader (drop n (rest r)) (final r), Ok (take n (rest r)))
  else (mkReader [] (final r),
        Err (match final r with
             | Some err => err
             | None => if Nat.eqb (length (rest r)) 0 then EOF else ErrUnexpectedEOF
             end)).

Section peek.
Context (unicode_lower : string -> string).

(** PeekTLSSNI. The result and the error, which are both set when there is no
    name; [None] outside is a panic. *)
Definition PeekTLSSNI (r : Reader) : option (Reader * (option PeekResult * option goerr)) :=
  match ReadFull r 5 with
  | (r, Err err) => Some (r, (None, Some err))
  | (r, Ok hdr) =>
      h0 ← byte_at hdr 0;
      if negb (h0 =? 22) then Some (r, (Some (mkPeek "" hdr), Some ErrNoHostInfo))
      else
        recLen ← be16 hdr 3;
        if maxClientHelloSize <? Z.of_nat recLen then Some (r, (Some (mkPeek "" hdr), Some ErrNoHostInfo))
        else
          match ReadFull r recLen with
          | (r, Err err) => Some (r, (None, Some err))
          | (r, Ok payload) =>
              parsed ← parseClientHelloSNI payload;
              let '(sni, ok) := parsed in
              let prefix := hdr ++ payload in
              if negb ok || String.eqb sni "" then Some (r, (Some (mkPeek "" prefix), Some ErrNoHostInfo))
              else Some (r, (Some (mkPeek (NormalizeHost unicode_lower sni) prefix), None))
          end
  end.

(** *** HTTP *)

Definition httpMethodSet : list string :=
  ["GET"; "POST"; "PUT"; "HEAD"; "PATCH"; "DELETE"; "OPTIONS"; "CONNECT"; "TRACE"].

(** The bytes up to and including the first newline; all when there is none. *)
Fixpoint take_line (l : list Z) : list Z * list Z :=
  match l with
  | [] => ([], [])
  | b :: l' => if b =? 10 then ([b], l') else let '(line, l'') := take_line l' in (b :: line, l'')
  end.

(** readCRLFLine. [ReadSlice] hands the line over in chunks of the reader's
    buffer; whatever they are, the call fails when the bytes buffered in all
    exceed [max]. *)
Definition readCRLFLine (r : Reader) (buf : list Z) (max : nat) : Reader * list Z * res string :=
  let '(line, rest') := take_line (rest r) in
  let r' := mkReader rest' (final r) in
  let buf' := buf ++ line in
  let complete := match last line with Some b => b =? 10 | None => false end in
  if Nat.ltb 0 (length line) && Nat.ltb max (length buf') then (r', buf', Err errSniffTooLarge)
  else
    match (if complete then None else final r) with
    | Some err => (r', buf', Err err)
    | None =>
        let s := trim_suffix (trim_suffix (string_of line) (bytes [10]%nat)) (bytes [13]%nat) in
        if negb complete && String.eqb s "" && Nat.eqb (length buf') 0 then (r', buf', Err EOF)
        else (r', buf', Ok s)
    end.

(** [strings.Fields]. *)
Fixpoint fields_fuel (fuel : nat) (s : string) (cur : string) : list string :=
  let flush := if String.eqb cur "" then [] else [cur] in
  match fuel with
  | O => flush
  | S fuel' =>
      match List.find (has_prefix s) spaces with
      | Some w => flush ++ fields_fuel fuel' (sdrop (String.length w) s) ""
      | None =>
          match s with
          | EmptyString => flush
          | String c s' => fields_fuel fuel' s' (cur +:+ String c "")
          end
      end
  end.
Definition Fields (s : string) : list string := fields_fuel (String.length s + 1) s "".

(** [strings.IndexAny] for ASCII characters. *)
Fixpoint index_any (s chars : string) : option nat :=
  match s with
  | EmptyString => None
  | String c s' => if contains_byte chars c then Some O else S <$> index_any s' chars
  end.

Definition hostFromURI (uri : string) : option string :=
  let rest := match index uri "://" with Some i => sdrop (i + 3) uri | None => uri end in
  let host := match index_any rest "/?#" with Some i => stake i rest | None => rest end in
  let host := trim_suffix host "." in
  if String.eqb host "" then None else Some (NormalizeHost unicode_lower host).

Definition request_method (requestLine : string) : string :=
  match index_byte requestLine " " with
  | Some i => if Nat.ltb 0 i then stake i requestLine else ""
  | None => ""
  end.

Definition uri_host (requestLine : string) : string :=
  match Fields requestLine with
  | _ :: uri :: _ => if has_prefix uri "http" then default "" (hostFromURI uri) else ""
  | _ => ""
  end.

(** One header line: the host it names, or the host known so far. *)
Definition header_host (host trimmed : string) : string :=
  match index_byte trimmed ":" with
  | Some i =>
      if Nat.ltb 0 i && String.eqb (to_lower unicode_lower (trim_space (stake i trimmed))) "host"
      then NormalizeHost unicode_lower (sdrop (S i) trimmed) else host
  | None => host
  end.

(** The header loop; the fuel bounds the number of lines. *)
Fixpoint headers (fuel : nat) (r : Reader) (buf : list Z) (host : string) : option (Reader * list Z * res string) :=
  match fuel with
  | O => None
  | S fuel' =>
      match readCRLFLine r buf maxHTTPHeaderBytes with
      | (r, buf, Err err) => Some (r, buf, Err err)
      | (r, buf, Ok line) =>
          let trimmed := trim_space line in
          if String.eqb trimmed "" then Some (r, buf, Ok host)
          else headers fuel' r buf (header_host host trimmed)
      end
  end.

Definition PeekHTTPHost (r : Reader) : option (Reader * (option PeekResult * option goerr)) :=
  match readCRLFLine r [] maxHTTPHeaderBytes with
  | (r, _, Err err) => Some (r, (None, Some err))
  | (r, buf, Ok line) =>
      let requestLine := trim_space line in
      if negb (existsb (String.eqb (request_method requestLine)) httpMethodSet) then
        Some (r, (Some (mkPeek "" buf), Some ErrNoHostInfo))
      else
        match headers (S (length (rest r))) r buf (uri_host requestLine) with
        | None => None
        | Some (r, _, Err err) => Some (r, (None, Some err))
        | Some (r, buf, Ok host) =>
            if String.eqb host "" then Some (r, (Some (mkPeek "" buf), Some ErrNoHostInfo))
            else Some (r, (Some (mkPeek host buf), None))
        end
  end.
End peek.

(** ** No input makes the parser panic *)

Lemma byte_at_some l i : (i < length l)%nat -> exists b, byte_at l i = Some b.
Proof. apply lookup_lt_is_Some_2. Qed.

Lemma be16_some l i : (i + 2 <= length l)%nat -> exists n, be16 l i = Some n.
Proof.
  intros H. unfold be16. destruct (byte_at_some l i) as [a ->]; [lia|].
  destruct (byte_at_some l (i + 1)) as [b ->]; [lia|]. simpl. eauto.
Qed.

Lemma slice_some l i j : (i <= j <= length l)%nat -> exists s, slice l i j = Some s.
Proof.
  intros H. unfold slice. rewrite (proj2 (Nat.leb_le _ _)), (proj2 (Nat.leb_le _ _)) by lia. simpl. eauto.
Qed.

Ltac checked :=
  match goal with
  | |- context [if Nat.ltb ?a ?b then _ else _] =>
      destruct (Nat.ltb a b) eqn:?; [by eexists|]
  | |- context [if Nat.leb ?a ?b then _ else _] =>
      destruct (Nat.leb a b) eqn:?; [|by eexists]
  | |- context [byte_at ?l ?i] =>
      let b := fresh "b" in destruct (byte_at_some l i) as [b ->]; [lia|]; cbn [mbind option_bind]
  | |- context [be16 ?l ?i] =>
      let n := fresh "n" in destruct (be16_some l i) as [n ->]; [lia|]; cbn [mbind option_bind]
  | |- context [slice ?l ?i ?j] =>
      let s := fresh "s" in destruct (slice_some l i j) as [s ->]; [lia|]; cbn [mbind option_bind]
  | H : Nat.ltb _ _ = false |- _ => apply Nat.ltb_ge in H
  | H : Nat.leb _ _ = true |- _ => apply Nat.leb_le in H
  end.

Lemma server_names_total fuel l i :
  (length l < fuel + i)%nat -> (0 < fuel)%nat -> exists r, server_names fuel l i = Some r.
Proof.
  revert i. induction fuel as [|fuel IH]; intros i Hf H0; [lia|]. cbn [server_names]. repeat checked.
  assert (exists r, server_names fuel l (i + 3 + n) = Some r) as Hr by (apply IH; lia).
  destruct (b =? 0); [|done]. repeat checked. by destruct (negb _); [eexists|].
Qed.

Lemma parseServerNameExt_total ext : exists r, parseServerNameExt ext = Some r.
Proof. unfold parseServerNameExt. repeat checked. apply server_names_total; lia. Qed.

Lemma extensions_total fuel body off en :
  (en <= length body)%nat -> (en < fuel + off)%nat -> (0 < fuel)%nat ->
  exists r, extensions fuel body off en = Some r.
Proof.
  revert off. induction fuel as [|fuel IH]; intros off Hen Hf H0; [lia|]. cbn [extensions].
  repeat checked. destruct (Nat.eqb _ 0); [apply parseServerNameExt_total|apply IH; lia].
Qed.

Lemma sni_total payload : exists r, parseClientHelloSNI payload = Some r.
Proof.
  unfold parseClientHelloSNI, parse_body. repeat checked. destruct (negb _); [by eexists|].
  repeat checked. apply extensions_total; lia.
Qed.

(** C29. The ClientHello parser never reads outside its input and always
    ends, whatever the bytes: no first packet can crash the proxy. *)
Theorem sni_never_panics payload : parseClientHelloSNI payload <> None.
Proof. destruct (sni_total payload) as [r ->]. discriminate. Qed.

(** ** A well-formed hello gives its name *)

Definition u16 (n : nat) : list Z := [Z.of_nat n / 256; Z.of_nat n mod 256].
Definition u24 (n : nat) : list Z := [Z.of_nat n / 65536; Z.of_nat n / 256 mod 256; Z.of_nat n mod 256].

Definition extension (type : nat) (data : list Z) : list Z := u16 type ++ u16 (length data) ++ data.
Definition name_list (host : list Z) : list Z :=
  u16 (length host + 3) ++ [0] ++ u16 (length host) ++ host.

(** The parts of a ClientHello before and after its server_name. *)
Record hello := mkHello {
  version : list Z; random : list Z; session : list Z; ciphers : list Z; compression : list Z;
  before : list (nat * list Z); after : list (nat * list Z) }.

Definition exts_of (h : hello) (host : list Z) : list Z :=
  concat (map (fun '(t, d) => extension t d) (before h)) ++ extension 0 (name_list host) ++
  concat (map (fun '(t, d) => extension t d) (after h)).
Definition body_of (h : hello) (host : list Z) : list Z :=
  version h ++ random h ++ [Z.of_nat (length (session h))] ++ session h ++
  u16 (length (ciphers h)) ++ ciphers h ++ [Z.of_nat (length (compression h))] ++ compression h ++
  u16 (length (exts_of h host)) ++ exts_of h host.
Definition payload_of (h : hello) (host : list Z) : list Z :=
  [1] ++ u24 (length (body_of h host)) ++ body_of h host.

(** The lengths fit their fields, and no earlier extension is a server_name. *)
Record encodable (h : hello) (host : list Z) : Prop := mkEncodable {
  enc_fixed : length (version h) = 2%nat /\ length (random h) = 32%nat;
  enc_fields : Z.of_nat (length (session h)) < 2 ^ 8 /\ Z.of_nat (length (ciphers h)) < 2 ^ 16 /\
    Z.of_nat (length (compression h)) < 2 ^ 8;
  enc_exts : Z.of_nat (length (exts_of h host)) < 2 ^ 16 /\ Z.of_nat (length (body_of h host)) < 2 ^ 24;
  enc_host : string_of host <> "";
  enc_before : Forall (fun td => td.1 <> 0%nat /\ Z.of_nat td.1 < 2 ^ 16) (before h) }.

Lemma byte_at_app l x r : byte_at (l ++ x :: r) (length l) = Some x.
Proof. apply list_lookup_middle. done. Qed.

Lemma be16_app l n r : Z.of_nat n < 2 ^ 16 -> be16 (l ++ u16 n ++ r) (length l) = Some n.
Proof.
  intros Hn. unfold be16, u16. change (2 ^ 16) with 65536 in Hn.
  change ([?a; ?b] ++ r) with (a :: b :: r).
  rewrite byte_at_app. cbn [mbind option_bind app].
  replace (length l + 1)%nat with (length (l ++ [Z.of_nat n / 256])) by (rewrite length_app; simpl; lia).
  replace (l ++ Z.of_nat n / 256 :: Z.of_nat n mod 256 :: r)
    with ((l ++ [Z.of_nat n / 256]) ++ Z.of_nat n mod 256 :: r) by (by rewrite <- app_assoc).
  rewrite byte_at_app. cbn [mbind option_bind]. f_equal.
  pose proof (Z.div_mod (Z.of_nat n) 256). lia.
Qed.

Lemma slice_app l m r j : j = (length l + length m)%nat -> slice (l ++ m ++ r) (length l) j = Some m.
Proof.
  intros ->. unfold slice. rewrite !length_app.
  rewrite (proj2 (Nat.leb_le _ _)), (proj2 (Nat.leb_le _ _)) by lia. simpl.
  replace (length l + length m - length l)%nat with (length m) by lia.
  by rewrite drop_app_length, take_app_length.
Qed.

(** [r] is what is left of [body] at offset [off]. *)
Definition left_at (body : list Z) (off : nat) (r : list Z) : Prop :=
  exists l, body = l ++ r /\ length l = off.

Lemma left_skip body off m r : left_at body off (m ++ r) -> left_at body (off + length m) r.
Proof. intros (l & -> & <-). exists (l ++ m). by rewrite <- app_assoc, length_app. Qed.
Lemma left_byte body off x r : left_at body off (x :: r) -> byte_at body off = Some x.
Proof. intros (l & -> & <-). apply byte_at_app. Qed.
Lemma left_be16 body off n r : left_at body off (u16 n ++ r) -> Z.of_nat n < 2 ^ 16 -> be16 body off = Some n.
Proof. intros (l & -> & <-). apply be16_app. Qed.
Lemma left_slice body off m r : left_at body off (m ++ r) -> slice body off (off + length m) = Some m.
Proof. intros (l & -> & <-). by apply slice_app. Qed.
Lemma left_length body off r : left_at body off r -> length body = (off + length r)%nat.
Proof. intros (l & -> & <-). apply length_app. Qed.
Lemma left_start body : left_at body 0 body.
Proof. by exists []. Qed.

Lemma server_names_host fuel l i host r :
  left_at l i ([0] ++ u16 (length host) ++ host ++ r) -> Z.of_nat (length host) < 2 ^ 16 ->
  string_of host <> "" -> (0 < fuel)%nat ->
  server_names fuel l i = Some (string_of host, true).
Proof.
  intros Hl Hlen Hne Hf. destruct fuel as [|fuel]; [lia|]. cbn [server_names].
  pose proof (left_length _ _ _ Hl) as Hn. rewrite !length_app in Hn. cbn [length u16] in Hn.
  rewrite (proj2 (Nat.leb_le _ _)) by lia.
  rewrite (left_byte _ _ _ _ Hl). apply (left_skip _ _ [0]) in Hl. cbn [length] in Hl.
  rewrite (left_be16 _ _ _ _ Hl Hlen). cbn [mbind option_bind].
  apply (left_skip _ _ (u16 (length host))) in Hl. cbn [length u16] in Hl.
  replace (i + 1 + 2)%nat with (i + 3)%nat in Hl by lia.
  rewrite (proj2 (Nat.ltb_ge _ _)) by lia. cbn [Z.eqb].
  rewrite (left_slice _ _ _ _ Hl). cbn [mbind option_bind].
  apply String.eqb_neq in Hne. by rewrite Hne.
Qed.

Lemma length_name_list host : length (name_list host) = (length host + 5)%nat.
Proof. unfold name_list. rewrite !length_app. simpl. lia. Qed.

Lemma parse_name_list host :
  Z.of_nat (length host + 5) < 2 ^ 16 -> string_of host <> "" ->
  parseServerNameExt (name_list host) = Some (string_of host, true).
Proof.
  intros Hlen Hne. assert (length host <> 0%nat) as Hpos by (intros H; by apply nil_length_inv in H as ->).
  unfold parseServerNameExt. rewrite length_name_list.
  rewrite (proj2 (Nat.ltb_ge _ _)) by lia.
  assert (left_at (name_list host) 0 (u16 (length host + 3) ++ [0] ++ u16 (length host) ++ host)) as Hl
    by apply left_start.
  rewrite (left_be16 _ _ _ _ Hl) by lia. cbn [mbind option_bind].
  rewrite (proj2 (Nat.ltb_ge _ _)) by lia.
  apply (left_skip _ _ (u16 (length host + 3))) in Hl. cbn [length u16 Nat.add] in Hl.
  rewrite <- (app_nil_r ([0] ++ _)) in Hl.
  pose proof (left_slice _ _ _ _ Hl) as Hs. rewrite !length_app in Hs. cbn [length u16] in Hs.
  replace (2 + (length host + 3))%nat with (2 + (1 + (2 + length host)))%nat by lia.
  rewrite Hs. cbn [mbind option_bind].
  apply (server_names_host _ _ _ host []); [|lia|done|lia]. rewrite app_nil_r. apply left_start.
Qed.

(** The extensions before the server_name are skipped. *)
Lemma extensions_skip fuel body off en bs host r :
  left_at body off (concat (map (fun '(t, d) => extension t d) bs) ++ extension 0 (name_list host) ++ r) ->
  (off + length (concat (map (fun '(t, d) => extension t d) bs) ++ extension 0 (name_list host)) <= en)%nat ->
  (en <= length body)%nat -> (en < fuel + off)%nat -> Z.of_nat (length body) < 2 ^ 24 ->
  Z.of_nat (en - off) < 2 ^ 16 ->
  Forall (fun td => td.1 <> 0%nat /\ Z.of_nat td.1 < 2 ^ 16) bs -> string_of host <> "" ->
  extensions fuel body off en = Some (string_of host, true).
Proof.
  revert fuel off. induction bs as [|[t d] bs IH]; intros fuel off Hl Hen Hbody Hf Hb24 H16 Hbs Hne;
    (destruct fuel as [|fuel]; [lia|]); cbn [extensions].
  - cbn [map concat] in Hl, Hen. rewrite app_nil_l in Hl, Hen.
    unfold extension in Hl, Hen. rewrite !length_app in Hen. cbn [length u16] in Hen.
    rewrite (proj2 (Nat.leb_le _ _)) by lia.
    rewrite <- !app_assoc in Hl. rewrite (left_be16 _ _ _ _ Hl) by done. cbn [mbind option_bind].
    apply (left_skip _ _ (u16 0)) in Hl. cbn [length u16] in Hl.
    rewrite (left_be16 _ _ _ _ Hl) by lia. cbn [mbind option_bind].
    apply (left_skip _ _ (u16 _)) in Hl. cbn [length u16] in Hl.
    replace (off + 2 + 2)%nat with (off + 4)%nat in Hl by lia.
    rewrite (proj2 (Nat.ltb_ge _ _)) by lia. cbn [Nat.eqb].
    rewrite (left_slice _ _ _ _ Hl). cbn [mbind option_bind].
    apply parse_name_list; [|done]. rewrite length_name_list in Hen. lia.
  - cbn [map concat] in Hl, Hen.
    apply Forall_cons in Hbs as [[Ht Ht16] Hbs]. simpl in Ht, Ht16.
    assert (length (extension t d) = (4 + length d)%nat) as Hel
      by (unfold extension; rewrite !length_app; simpl; lia).
    rewrite !length_app, Hel in Hen.
    rewrite (proj2 (Nat.leb_le _ _)) by lia.
    rewrite <- app_assoc in Hl. pose proof (left_skip _ _ _ _ Hl) as Hnext. rewrite Hel in Hnext.
    unfold extension in Hl at 1. rewrite <- !app_assoc in Hl.
    rewrite (left_be16 _ _ _ _ Hl) by done. cbn [mbind option_bind].
    apply (left_skip _ _ (u16 t)) in Hl. cbn [length u16] in Hl.
    rewrite (left_be16 _ _ _ _ Hl) by lia. cbn [mbind option_bind].
    rewrite (proj2 (Nat.ltb_ge _ _)) by lia. rewrite (proj2 (Nat.eqb_neq _ _)) by done.
    replace (off + 4 + length d)%nat with (off + (4 + length d))%nat by lia.
    apply IH; try done; rewrite ?length_app; try lia.
Qed.

(** For every ClientHello with a server_name extension, whatever
    its random, session, ciphers and other extensions, the parser gives exactly
    the name the client put there. *)
Theorem sni_of_hello h host :
  encodable h host -> parseClientHelloSNI (payload_of h host) = Some (string_of host, true).
Proof.
  intros [[Hv Hr] (Hs & Hc & Hk) [Hx Hb] Hne Hbefore].
  change (2 ^ 24) with 16777216 in Hb. unfold parseClientHelloSNI.
  assert (length (payload_of h host) = (4 + length (body_of h host))%nat) as Hlen
    by (unfold payload_of; rewrite !length_app; simpl; lia).
  rewrite Hlen, (proj2 (Nat.ltb_ge _ _)) by lia.
  unfold payload_of, u24. cbn [app]. unfold byte_at at 1 2 3 4. cbn [lookup list_lookup mbind option_bind].
  cbn [Z.eqb Pos.eqb negb].
  replace (Z.to_nat _) with (length (body_of h host)); cycle 1.
  { pose proof (Z.div_mod (Z.of_nat (length (body_of h host))) 256).
    pose proof (Z.div_mod (Z.of_nat (length (body_of h host)) / 256) 256).
    rewrite Z.div_div in * by lia. change (256 * 256) with 65536 in *. lia. }
  rewrite (proj2 (Nat.ltb_ge _ _)) by lia.
  assert (left_at (payload_of h host) 4 (body_of h host ++ [])) as Hbody.
  { rewrite app_nil_r. unfold payload_of. apply (left_skip _ 0 ([1] ++ u24 (length (body_of h host)))).
    rewrite <- app_assoc. apply left_start. }
  apply left_slice in Hbody. unfold payload_of, u24 in Hbody. cbn [app] in Hbody.
  rewrite Hbody. cbn [mbind option_bind]. clear Hbody Hlen.
  unfold parse_body. set (body := body_of h host) in *.
  assert (Hl : left_at body 0 (body_of h host)) by apply left_start. unfold body_of in Hl.
  pose proof (left_length _ _ _ Hl) as Hn. rewrite !length_app in Hn. cbn [length u16] in Hn.
  rewrite (proj2 (Nat.ltb_ge _ _)) by lia. rewrite (proj2 (Nat.ltb_ge _ _)) by lia.
  apply left_skip, left_skip in Hl. rewrite Hv, Hr in Hl. change (0 + 2 + 32)%nat with (2 + 32)%nat in Hl.
  rewrite (left_byte _ _ _ _ Hl). cbn [mbind option_bind]. rewrite Nat2Z.id.
  apply (left_skip _ _ [_]), left_skip in Hl. cbn [length] in Hl.
  rewrite (proj2 (Nat.ltb_ge _ _)) by lia. rewrite (proj2 (Nat.ltb_ge _ _)) by lia.
  rewrite (left_be16 _ _ _ _ Hl) by done. cbn [mbind option_bind].
  apply (left_skip _ _ (u16 _)), left_skip in Hl. cbn [length u16] in Hl.
  rewrite (proj2 (Nat.ltb_ge _ _)) by lia.
  rewrite (left_byte _ _ _ _ Hl). cbn [mbind option_bind]. rewrite Nat2Z.id.
  apply (left_skip _ _ [_]), left_skip in Hl. cbn [length] in Hl.
  rewrite (proj2 (Nat.ltb_ge _ _)) by lia.
  rewrite (left_be16 _ _ _ _ Hl) by done. cbn [mbind option_bind].
  apply (left_skip _ _ (u16 _)) in Hl. cbn [length u16] in Hl.
  pose proof (left_length _ _ _ Hl) as Hn'.
  rewrite (proj2 (Nat.ltb_ge _ _)) by lia. unfold exts_of in Hl.
  eapply (extensions_skip _ _ _ _ (before h)); [exact Hl|..]; try done; try lia.
  unfold exts_of. rewrite !length_app. lia.
Qed.

(** ** Replay *)

Lemma ReadFull_split r n r' l : ReadFull r n = (r', Ok l) -> l ++ rest r' = rest r /\ length l = n.
Proof.
  unfold ReadFull. destruct (Nat.leb n _) eqn:H; [|done]. apply Nat.leb_le in H.
  intros [= <- <-]. simpl. rewrite take_drop, length_take. split; [done|lia].
Qed.

Lemma take_line_split l line l' : take_line l = (line, l') -> line ++ l' = l.
Proof.
  revert line l'. induction l as [|b l IH]; intros line l'; simpl; [by intros [= <- <-]|].
  destruct (b =? 10); [by intros [= <- <-]|].
  destruct (take_line l) as [line0 l0]. intros [= <- <-]. simpl. by rewrite (IH _ _ eq_refl).
Qed.

Lemma readCRLFLine_split r buf max r' buf' s :
  readCRLFLine r buf max = (r', buf', Ok s) ->
  buf' ++ rest r' = buf ++ rest r /\ (length buf' <= Nat.max max (length buf))%nat /\
  (rest r <> [] -> length (rest r') < length (rest r))%nat.
Proof.
  unfold readCRLFLine. destruct (take_line (rest r)) as [line l'] eqn:Hl.
  pose proof (take_line_split _ _ _ Hl) as Hs.
  intros H. destruct (_ && _) eqn:Hmax; [done|].
  assert (buf' = buf ++ line /\ rest r' = l') as [-> ->] by (repeat case_match; simplify_eq/=; done).
  split_and!.
  - by rewrite <- app_assoc, Hs.
  - apply andb_false_iff in Hmax as [Hmax|Hmax]; apply Nat.ltb_ge in Hmax; [|lia].
    rewrite length_app. lia.
  - rewrite <- Hs, length_app. destruct line as [|b line]; simpl; [|lia]. intros Hne.
    destruct (rest r) as [|b l]; [done|]. simpl in Hl. destruct (b =? 10); [done|]. by destruct (take_line l).
Qed.

Lemma readCRLFLine_end r buf max r' buf' s :
  rest r = [] -> readCRLFLine r buf max = (r', buf', Ok s) -> s = "".
Proof.
  intros Hr. unfold readCRLFLine. rewrite Hr. cbn [take_line length last Nat.ltb Nat.leb andb].
  destruct (final r); [done|]. cbn [negb andb]. intros H. split_match_in H. reflexivity.
Qed.

Lemma headers_split ul fuel r buf host :
  (length (rest r) < fuel)%nat -> (length buf <= maxHTTPHeaderBytes)%nat ->
  exists r' buf' res, headers ul fuel r buf host = Some (r', buf', res) /\
    (is_ok res = true -> buf' ++ rest r' = buf ++ rest r /\ (length buf' <= maxHTTPHeaderBytes)%nat).
Proof.
  revert r buf host. induction fuel as [|fuel IH]; intros r buf host Hf Hb; [lia|]. cbn [headers].
  destruct (readCRLFLine r buf maxHTTPHeaderBytes) as [[r1 buf1] [line|err]] eqn:Hl.
  2: { do 3 eexists. split; [done|]. done. }
  pose proof (readCRLFLine_split _ _ _ _ _ _ Hl) as (Hs & Hmax & Hdec).
  assert (Hb1 : (length buf1 <= maxHTTPHeaderBytes)%nat) by lia.
  destruct (String.eqb (trim_space line) "") eqn:He.
  - do 3 eexists. split; [done|]. intros _. done.
  - destruct (rest r) as [|b l] eqn:Hr.
    { apply readCRLFLine_end in Hl; [|done]. subst line. done. }
    specialize (Hdec ltac:(done)). simpl in Hf.
    destruct (IH r1 buf1 (header_host ul host (trim_space line))) as (r' & buf' & rs & Heq & Hok);
      [simpl in Hdec; lia|done|].
    do 3 eexists. split; [exact Heq|]. intros Hrs. destruct (Hok Hrs) as [H1 H2]. split; [|done].
    by rewrite H1, Hs.
Qed.

(** Sniffing always ends and loses no byte: whenever it returns a
    result, what it kept to replay, followed by what is still unread, is exactly
    what the client sent; and it keeps at most 8 KiB of HTTP or one TLS record
    header with 16 KiB. *)
Theorem peek_keeps_bytes ul r :
  (exists r1 http e1, PeekHTTPHost ul r = Some (r1, (http, e1)) /\
     forall pk, http = Some pk ->
       PPrefix pk ++ rest r1 = rest r /\ (length (PPrefix pk) <= maxHTTPHeaderBytes)%nat /\
       (e1 = None <-> Host pk <> "")) /\
  (exists r2 tls e2, PeekTLSSNI ul r = Some (r2, (tls, e2)) /\
     forall pk, tls = Some pk ->
       PPrefix pk ++ rest r2 = rest r /\ Z.of_nat (length (PPrefix pk)) <= 5 + maxClientHelloSize).
Proof.
  split.
  - unfold PeekHTTPHost.
    destruct (readCRLFLine r [] maxHTTPHeaderBytes) as [[r1 buf1] [line|err]] eqn:Hl.
    2: { do 3 eexists. split; [done|]. done. }
    apply readCRLFLine_split in Hl as (Hs & Hmax & _). cbn [length app Nat.max] in Hs, Hmax.
    destruct (negb _).
    { do 3 eexists. split; [done|]. intros pk [= <-]. cbn [PPrefix Host]. split_and!; [done|lia|done]. }
    destruct (headers_split ul (S (length (rest r1))) r1 buf1 (uri_host ul (trim_space line)))
      as (r' & buf' & rs & -> & Hok); [lia|lia|].
    destruct rs as [host|err]; [|do 3 eexists; split; [done|]; done].
    destruct (Hok eq_refl) as [H1 H2]. rewrite Hs in H1.
    destruct (String.eqb_spec host "") as [->|Hne]; do 3 eexists; (split; [done|]);
      intros pk [= <-]; by split_and!.
  - unfold PeekTLSSNI. destruct (ReadFull r 5) as [r1 [hdr|err]] eqn:H5.
    2: { do 3 eexists. split; [done|]. done. }
    apply ReadFull_split in H5 as [Hs Hlen]. change maxClientHelloSize with 16384.
    destruct (byte_at_some hdr 0) as [h0 ->]; [lia|]. cbn [mbind option_bind].
    destruct (negb _).
    { do 3 eexists. split; [done|]. intros pk [= <-]. split; [done|]. cbn [PPrefix]. lia. }
    destruct (be16_some hdr 3) as [recLen ->]; [lia|]. cbn [mbind option_bind].
    destruct (16384 <? Z.of_nat recLen) eqn:Hbig.
    { do 3 eexists. split; [done|]. intros pk [= <-]. split; [done|]. cbn [PPrefix]. lia. }
    bool_to_prop. destruct (ReadFull r1 recLen) as [r2 [payload|err]] eqn:Hp.
    2: { do 3 eexists. split; [done|]. done. }
    apply ReadFull_split in Hp as [Hs2 Hlen2].
    destruct (sni_total payload) as ([sni ok] & ->). cbn [mbind option_bind].
    destruct (negb ok || _); do 3 eexists; (split; [done|]); intros pk [= <-]; cbn [PPrefix];
      (split; [by rewrite <- app_assoc, Hs2|rewrite length_app; lia]).
Qed.

Module Witness.
Definition host : list Z := [97; 46; 98]. (* a.b *)
Definition h : hello := mkHello [3; 3] (repeat 7 32) [] [19; 1] [0] [(10%nat, [0; 2; 0; 29])] [].

Lemma sni_of_hello_witness : parseClientHelloSNI (payload_of h host) = Some ("a.b", true).
Proof.
  apply (sni_of_hello h host). constructor; try (vm_compute; done); try (split_and!; vm_compute; done).
  repeat constructor; simpl; lia.
Defined.
End Witness.
