(* ===== verification/Reservations.v ===== *)
(** * Reservations (internal/controlplane/reservations/reservations.go)

    The Redis layout and the four Lua scripts, each one atomic transition on it.
    An epoch holds the pending hashes of its nodes and projects, its member sets
    and its operation records with their expiry in milliseconds; a record lives
    up to its expiry. A record is what the script encoded (the scripts are its
    only writers), and its figures are below 10^14, which Lua's numbers and their
    JSON form keep exactly. [PruneStaleOps] is the sequence of commands the code
    sends, the two of its pipeline one by one, so that any script may run between
    them. *)
From S2P Require Import Prelude GoFloat.
Local Open Scope Z_scope.
Local Open Scope go_scope.

Definition ErrProjectQuota : goerr := errors_New "project quota exceeded".
Definition ErrNodeCapacity : goerr := errors_New "node capacity exceeded".
Definition ErrNotHeld : goerr := errors_New "reservation not held".

Record Record_ := mkRecord {
  NodeID : string; ProjectID : string; VCPU : Z; MemMib : Z; DiskMib : Z; Machines : Z }.

#[export] Instance Record_eq_dec : EqDecision Record_.
Proof. solve_decision. Defined.

(** ** The layout *)

(** A Redis hash of counters: HGET ... or '0', and HINCRBY. *)
Abbreviation hash := (gmap string Z).
Definition hget (h : hash) (field : string) : Z := default 0 (h !! field).
Definition hincrby (h : hash) (field : string) (delta : Z) : hash := <[field := hget h field + delta]> h.

(** The counters a record contributes to, and how much to each. *)
Definition node_fields : list (string * (Record_ -> Z)) :=
  [("pending_vcpu", VCPU); ("pending_mem_mib", MemMib); ("pending_disk_mib", DiskMib)].
Definition project_fields : list (string * (Record_ -> Z)) := node_fields ++ [("pending_machines", Machines)].

Definition credit (fields : list (string * (Record_ -> Z))) (sign : Z) (r : Record_) (h : hash) : hash :=
  foldl (fun h fg => hincrby h fg.1 (sign * fg.2 r)) h fields.

Record Epoch := mkEpoch {
  node_hash : gmap string hash; project_hash : gmap string hash;
  nodes : gset string; projects : gset string; ops : gset string;
  recs : gmap string (Record_ * Z) }.
Definition no_epoch : Epoch := mkEpoch ∅ ∅ ∅ ∅ ∅ ∅.

(** [resv:active] (absent is 0), [resv:epoch_seq], and the keys of each epoch. *)
Record Store := mkStore { active : option Z; epoch_seq : Z; epochs : gmap Z Epoch }.
Definition empty_store : Store := mkStore None 0 ∅.

Definition activeEpoch (st : Store) : Z := default 0 (active st).
Definition epoch_of (st : Store) (e : Z) : Epoch := default no_epoch (epochs st !! e).
Definition set_epoch (st : Store) (e : Z) (ep : Epoch) : Store :=
  mkStore (active st) (epoch_seq st) (<[e := ep]> (epochs st)).

(** GET of an operation record at a moment. *)
Definition get_rec (ep : Epoch) (now : Z) (op : string) : option (Record_ * Z) :=
  match recs ep !! op with
  | Some (r, deadline) => if now <=? deadline then Some (r, deadline) else None
  | None => None
  end.

(** HINCRBY of a record's figures on its node and its project. *)
Definition post (sign : Z) (r : Record_) (ep : Epoch) : Epoch :=
  mkEpoch
    (<[NodeID r := credit node_fields sign r (default ∅ (node_hash ep !! NodeID r))]> (node_hash ep))
    (<[ProjectID r := credit project_fields sign r (default ∅ (project_hash ep !! ProjectID r))]> (project_hash ep))
    (nodes ep) (projects ep) (ops ep) (recs ep).

(** SADD of the member sets and SET of the record; SREM and DEL. *)
Definition put_rec (op : string) (r : Record_) (deadline : Z) (ep : Epoch) : Epoch :=
  mkEpoch (node_hash ep) (project_hash ep) ({[NodeID r]} ∪ nodes ep) ({[ProjectID r]} ∪ projects ep)
    ({[op]} ∪ ops ep) (<[op := (r, deadline)]> (recs ep)).
Definition del_rec (op : string) (ep : Epoch) : Epoch :=
  mkEpoch (node_hash ep) (project_hash ep) (nodes ep) (projects ep) (ops ep ∖ {[op]}) (delete op (recs ep)).

Definition pending_node (ep : Epoch) (node field : string) : Z := hget (default ∅ (node_hash ep !! node)) field.
Definition pending_project (ep : Epoch) (project field : string) : Z :=
  hget (default ∅ (project_hash ep !! project)) field.

(** ** The acquire script *)

Record Limits := mkLimits {
  node_vcpu_total : Z; node_mem_total : Z; node_disk_total : Z;
  project_vcpu_quota : Z; project_mem_quota : Z; project_disk_quota : Z; project_machine_quota : Z;
  cpu_oversubscribe : float64 }.

(** The code of the first limit the request would break; 1 when none. *)
Definition check_limits (l : Limits) (r : Record_) (ep : Epoch) : Z :=
  let pn := pending_node ep (NodeID r) in
  let pp := pending_project ep (ProjectID r) in
  if fgtb (fof_Z (pn "pending_vcpu" + VCPU r)) (fmul (fof_Z (node_vcpu_total l)) (cpu_oversubscribe l)) then -3
  else if node_mem_total l <? pn "pending_mem_mib" + MemMib r then -4
  else if (0 <? node_disk_total l) && (node_disk_total l <? pn "pending_disk_mib" + DiskMib r) then -5
  else if project_vcpu_quota l <? pp "pending_vcpu" + VCPU r then -1
  else if project_mem_quota l <? pp "pending_mem_mib" + MemMib r then -2
  else if (0 <? project_disk_quota l) && (project_disk_quota l <? pp "pending_disk_mib" + DiskMib r) then -6
  else if (0 <? project_machine_quota l) && (project_machine_quota l <? pp "pending_machines" + Machines r) then -7
  else 1.

(** The script: a replay of the same request succeeds at once; a different one
    under the same operation first gives back what the operation held. *)
Definition acquire (now ttl : Z) (l : Limits) (op : string) (r : Record_) (st : Store) : Store * Z :=
  let e := activeEpoch st in
  let ep := epoch_of st e in
  match get_rec ep now op with
  | Some (prev, _) =>
      if bool_decide (prev = r) then (st, 1)
      else
        let ep := del_rec op (post (-1) prev ep) in
        let code := check_limits l r ep in
        if code =? 1 then (set_epoch st e (put_rec op r (now + ttl * 1000) (post 1 r ep)), 1)
        else (set_epoch st e ep, code)
  | None =>
      let code := check_limits l r ep in
      if code =? 1 then (set_epoch st e (put_rec op r (now + ttl * 1000) (post 1 r ep)), 1)
      else (st, code)
  end.

Definition defaultNodeCPUOversubscribe : float64 := fof_Z 4.

(** AcquireR: the script's code as an error. *)
Definition AcquireR (now ttl : Z) (l : Limits) (op : string) (r : Record_) (st : Store) : Store * res unit :=
  let R := if fleb (cpu_oversubscribe l) fzero then defaultNodeCPUOversubscribe else cpu_oversubscribe l in
  let l := mkLimits (node_vcpu_total l) (node_mem_total l) (node_disk_total l) (project_vcpu_quota l)
             (project_mem_quota l) (project_disk_quota l) (project_machine_quota l) R in
  let '(st, code) := acquire now ttl l op r st in
  (st,
   if code =? 1 then Ok tt
   else if (code =? -1) || (code =? -2) || (code =? -6) || (code =? -7) then Err ErrProjectQuota
   else if (code =? -3) || (code =? -4) || (code =? -5) then Err ErrNodeCapacity
   else Err (Errorf "reservation acquire %s: unexpected script result %d" [AStr op; AInt code])).

(** Acquire: the historic ratio. *)
Definition Acquire (now ttl : Z) (l : Limits) : string -> Record_ -> Store -> Store * res unit :=
  AcquireR now ttl
    (mkLimits (node_vcpu_total l) (node_mem_total l) (node_disk_total l) (project_vcpu_quota l)
       (project_mem_quota l) (project_disk_quota l) (project_machine_quota l) defaultNodeCPUOversubscribe).

(** ** Release *)

Definition releaseIfHeld (now : Z) (op : string) (st : Store) : Store * Z :=
  let e := activeEpoch st in
  let ep := epoch_of st e in
  match get_rec ep now op with
  | None => (st, 0)
  | Some (r, _) => (set_epoch st e (del_rec op (post (-1) r ep)), 1)
  end.

(** releasePending, which is Commit and Release: the store, the result, and
    whether [release_epoch_moved] was counted. *)
Definition releasePending (now : Z) (op : string) (st : Store) : Store * res unit * bool :=
  let '(st, held) := releaseIfHeld now op st in
  if held =? 0 then (st, Err ErrNotHeld, true) else (st, Ok tt, false).
Definition Commit := releasePending.
Definition Release := releasePending.

Definition Get (now : Z) (op : string) (st : Store) : option Record_ :=
  fst <$> get_rec (epoch_of st (activeEpoch st)) now op.

(** PendingByNode. *)
Definition PendingByNode (st : Store) : list (string * (Z * Z)) :=
  let ep := epoch_of st (activeEpoch st) in
  map (fun n => (n, (pending_node ep n "pending_vcpu", pending_node ep n "pending_mem_mib"))) (elements (nodes ep)).

(** ** Rebuilding *)

(** One operation of the old epoch replayed into the new one, with what is left
    of its lease. *)
Definition replay (now ttl : Z) (old : Epoch) (new : Epoch) (op : string) : Epoch :=
  match get_rec old now op with
  | None => new
  | Some (r, deadline) =>
      let pttl := deadline - now in
      let pttl := if pttl <=? 0 then ttl * 1000 else pttl in
      put_rec op r (now + pttl) (post 1 r new)
  end.

(** The reset script. The keys of the epoch left behind get an expiry; no
    script reads them again. *)
Definition reset (now ttl : Z) (st : Store) : Store * Z :=
  let old := epoch_of st (activeEpoch st) in
  let epoch := epoch_seq st + 1 in
  let new := foldl (replay now ttl old) (epoch_of st epoch) (elements (ops old)) in
  (mkStore (Some epoch) epoch (<[epoch := new]> (epochs st)),
   Z.of_nat (size (nodes old) + size (projects old))).

Definition Reset := reset.

(** PruneStaleOps: the epoch and its operations are read first; the record of each
    stale one is deleted and then its entry among the operations, by two pipelined
    commands on the epoch that was active when it was read. *)
Definition del_op (op : string) (ep : Epoch) : Epoch :=
  mkEpoch (node_hash ep) (project_hash ep) (nodes ep) (projects ep) (ops ep) (delete op (recs ep)).
Definition srem_op (op : string) (ep : Epoch) : Epoch :=
  mkEpoch (node_hash ep) (project_hash ep) (nodes ep) (projects ep) (ops ep ∖ {[op]}) (recs ep).
Definition prune_del (e : Z) (op : string) (st : Store) : Store := set_epoch st e (del_op op (epoch_of st e)).
Definition prune_srem (e : Z) (op : string) (st : Store) : Store := set_epoch st e (srem_op op (epoch_of st e)).
Definition prune_op (e : Z) (op : string) (st : Store) : Store := prune_srem e op (prune_del e op st).

Definition stale_ops (activeOps : gset string) (st : Store) : list string :=
  filter (fun op => op ∉ activeOps) (elements (ops (epoch_of st (activeEpoch st)))).

Definition PruneStaleOps (activeOps : gset string) (st : Store) : Store * Z :=
  let stale := stale_ops activeOps st in
  (foldl (fun s op => prune_op (activeEpoch st) op s) st stale, Z.of_nat (length stale)).

(** ** Histories

    Any interleaving of the scripts and of the commands of a pruning, at any
    moments. *)
Inductive step : Store -> Store -> Prop :=
  | step_acquire now ttl l op r st :
      0 <= VCPU r -> 0 <= MemMib r -> 0 <= DiskMib r -> 0 <= Machines r ->
      step st (acquire now ttl l op r st).1
  | step_release now op st : step st (releaseIfHeld now op st).1
  | step_reset now ttl st : step st (reset now ttl st).1
  | step_prune_del e op st : e <= epoch_seq st -> step st (prune_del e op st)
  | step_prune_srem e op st : e <= epoch_seq st -> step st (prune_srem e op st).

Definition reachable : Store -> Prop := rtc step empty_store.

(** ** Accounting *)

(** One of the two ways records are summed: by node or by project. *)
Record axis := mkAxis {
  key : Record_ -> string; hashes : Epoch -> gmap string hash; fields : list (string * (Record_ -> Z)) }.
Definition node_axis : axis := mkAxis NodeID node_hash node_fields.
Definition project_axis : axis := mkAxis ProjectID project_hash project_fields.
Definition axes : list axis := [node_axis; project_axis].

(** The counter of [k], and what a record adds to a field of its counter. *)
Definition pend (ax : axis) (ep : Epoch) (k field : string) : Z := hget (default ∅ (hashes ax ep !! k)) field.
Definition amount (ax : axis) (field : string) (r : Record_) : Z :=
  foldr (fun fg acc => (if String.eqb fg.1 field then fg.2 r else 0) + acc) 0 (fields ax).
Definition share (ax : axis) (k field : string) (r : Record_) : Z :=
  if String.eqb (key ax r) k then amount ax field r else 0.

(** What the records of an epoch add up to; those alive at a moment. *)
Definition total (ax : axis) (ep : Epoch) (k field : string) : Z :=
  sum_map (fun _ rd => share ax k field rd.1) (recs ep).
Definition held (ax : axis) (ep : Epoch) (now : Z) (k field : string) : Z :=
  sum_map (fun _ rd => if now <=? rd.2 then share ax k field rd.1 else 0) (recs ep).

Definition nonneg (r : Record_) : Prop := 0 <= VCPU r /\ 0 <= MemMib r /\ 0 <= DiskMib r /\ 0 <= Machines r.

(** The invariant of an epoch: records are non-negative, and no counter is below what
    they add up to. *)
Record covered (ep : Epoch) : Prop := mkCovered {
  cov_nonneg : forall op rd, recs ep !! op = Some rd -> nonneg rd.1;
  cov_total : forall ax k f, ax ∈ axes -> total ax ep k f <= pend ax ep k f }.

Lemma hget_hincrby h k d f : hget (hincrby h k d) f = hget h f + (if String.eqb k f then d else 0).
Proof.
  unfold hincrby, hget. destruct (String.eqb_spec k f) as [->|Hne].
  - by rewrite lookup_insert_eq.
  - rewrite lookup_insert_ne by done. simpl. lia.
Qed.

Lemma hget_credit fs s r h f :
  hget (credit fs s r h) f = hget h f + s * foldr (fun fg acc => (if String.eqb fg.1 f then fg.2 r else 0) + acc) 0 fs.
Proof.
  unfold credit. revert h. induction fs as [|[k g] fs IH]; intros h; simpl; [lia|].
  rewrite IH, hget_hincrby. simpl. destruct (String.eqb k f); lia.
Qed.

Lemma pend_post ax s r ep k f :
  ax ∈ axes -> pend ax (post s r ep) k f = pend ax ep k f + s * share ax k f r.
Proof.
  intros Hax. unfold pend, share, amount. unfold axes in Hax.
  apply elem_of_cons in Hax as [->|Hax]; [|apply list_elem_of_singleton in Hax as ->];
    cbn [hashes key fields node_axis project_axis node_hash project_hash post].
  - destruct (String.eqb_spec (NodeID r) k) as [<-|Hne].
    + rewrite lookup_insert_eq. cbn [from_option id]. by rewrite hget_credit.
    + rewrite lookup_insert_ne by done. lia.
  - destruct (String.eqb_spec (ProjectID r) k) as [<-|Hne].
    + rewrite lookup_insert_eq. cbn [from_option id]. by rewrite hget_credit.
    + rewrite lookup_insert_ne by done. lia.
Qed.

Lemma share_nonneg ax k f r : ax ∈ axes -> nonneg r -> 0 <= share ax k f r.
Proof.
  intros Hax (? & ? & ? & ?). unfold share, amount. destruct (String.eqb _ k); [|lia].
  assert (Forall (fun fg => 0 <= fg.2 r) (fields ax)) as Hf.
  { unfold axes in Hax. apply elem_of_cons in Hax as [->|Hax];
      [|apply list_elem_of_singleton in Hax as ->]; repeat constructor; done. }
  induction Hf as [|fg fs Hg _ IH]; simpl; [lia|]. destruct (String.eqb fg.1 f); lia.
Qed.

Lemma pend_same ax ep ep' k f :
  ax ∈ axes -> node_hash ep' = node_hash ep -> project_hash ep' = project_hash ep ->
  pend ax ep' k f = pend ax ep k f.
Proof.
  unfold axes. intros Hax Hn Hp. unfold pend.
  apply elem_of_cons in Hax as [->|Hax]; [|apply list_elem_of_singleton in Hax as ->]; simpl; congruence.
Qed.

Lemma total_delete ax ep op k f :
  total ax (del_rec op ep) k f =
  total ax ep k f - match recs ep !! op with Some rd => share ax k f rd.1 | None => 0 end.
Proof.
  unfold total; simpl. destruct (recs ep !! op) as [rd|] eqn:E.
  - by rewrite (sum_map_delete _ _ _ _ E).
  - rewrite delete_id by done. lia.
Qed.

Lemma total_put ax ep op r d k f :
  total ax (put_rec op r d ep) k f = total ax (del_rec op ep) k f + share ax k f r.
Proof.
  unfold total; simpl. rewrite <- insert_delete_eq.
  rewrite sum_map_insert by apply lookup_delete_eq. simpl. lia.
Qed.

Lemma total_post ax s r ep k f : total ax (post s r ep) k f = total ax ep k f.
Proof. done. Qed.

Lemma covered_empty : covered no_epoch.
Proof.
  constructor; simpl; [by intros; simplify_map_eq|].
  intros ax k f Hax. unfold total. simpl. rewrite sum_map_empty. unfold pend, hget, axes in *.
  apply elem_of_cons in Hax as [->|Hax]; [|apply list_elem_of_singleton in Hax as ->]; simpl;
    by rewrite lookup_empty.
Qed.

Lemma recs_del_lookup op op' ep rd : recs (del_rec op ep) !! op' = Some rd -> op' <> op /\ recs ep !! op' = Some rd.
Proof. simpl. intros H%lookup_delete_Some. destruct H; split; [congruence|done]. Qed.

(** A record may be dropped, whether or not its share is given back. *)
Lemma covered_del op ep : covered ep -> covered (del_rec op ep).
Proof.
  intros [Hn Ht]. constructor.
  - intros op' rd [_ H]%recs_del_lookup. eauto.
  - intros ax k f Hax. rewrite total_delete, (pend_same ax ep) by done. specialize (Ht ax k f Hax).
    destruct (recs ep !! op) as [rd|] eqn:E; [|lia].
    pose proof (share_nonneg ax k f rd.1 Hax (Hn op rd E)). lia.
Qed.

(** So do the two commands of a pruning, each on its own. *)
Lemma covered_srem op ep : covered ep -> covered (srem_op op ep).
Proof. intros [Hn Ht]. constructor; [exact Hn|]. intros ax k f Hax. rewrite (pend_same ax ep) by done. by apply Ht. Qed.
Lemma covered_del_op op ep : covered ep -> covered (del_op op ep).
Proof.
  intros Hc. destruct (covered_del op ep Hc) as [Hn Ht]. constructor; [exact Hn|]. intros ax k f Hax.
  specialize (Ht ax k f Hax). rewrite (pend_same ax ep) in * by done. exact Ht.
Qed.

Lemma covered_give_back op ep r d :
  covered ep -> recs ep !! op = Some (r, d) -> covered (del_rec op (post (-1) r ep)).
Proof.
  intros [Hn Ht] Hr. constructor.
  - intros op' rd [_ H]%recs_del_lookup. eauto.
  - intros ax k f Hax. rewrite total_delete, total_post, (pend_same ax (post (-1) r ep)), pend_post by done.
    simpl. rewrite Hr. specialize (Ht ax k f Hax). simpl. lia.
Qed.

Lemma covered_grant op r d ep : covered ep -> nonneg r -> covered (put_rec op r d (post 1 r ep)).
Proof.
  intros Hc Hr. pose proof (covered_del op ep Hc) as [_ Htd]. destruct Hc as [Hn Ht]. constructor.
  - intros op' rd. simpl. destruct (decide (op' = op)) as [->|Hne].
    + rewrite lookup_insert_eq. intros [= <-]. done.
    + rewrite lookup_insert_ne by done. apply Hn.
  - intros ax k f Hax. rewrite total_put, (pend_same ax (post 1 r ep)), pend_post by done.
    specialize (Htd ax k f Hax). rewrite (pend_same ax ep) in Htd by done.
    change (total ax (del_rec op (post 1 r ep)) k f) with (total ax (del_rec op ep) k f). lia.
Qed.

Lemma get_rec_recs ep now op r d : get_rec ep now op = Some (r, d) -> recs ep !! op = Some (r, d) /\ now <= d.
Proof.
  unfold get_rec. destruct (recs ep !! op) as [[r' d']|]; [|done]. destruct (now <=? d') eqn:H; [|done].
  intros [= -> ->]. bool_to_prop. done.
Qed.

(** The invariant of the store: every epoch is covered, and no epoch was written
    beyond the sequence. *)
Record inv (st : Store) : Prop := mkInv {
  inv_active : activeEpoch st <= epoch_seq st;
  inv_fresh : forall e, epoch_seq st < e -> epochs st !! e = None;
  inv_covered : forall e, covered (epoch_of st e) }.

Lemma epoch_of_set st e ep e' : epoch_of (set_epoch st e ep) e' = if decide (e' = e) then ep else epoch_of st e'.
Proof.
  unfold epoch_of, set_epoch; simpl. case_decide as H; [subst; by rewrite lookup_insert_eq|].
  by rewrite lookup_insert_ne by done.
Qed.

Lemma inv_set st e ep : inv st -> e <= epoch_seq st -> covered ep -> inv (set_epoch st e ep).
Proof.
  intros [Ha Hf Hc] He Hep. constructor; [done| |].
  - intros e' He'. simpl in *. rewrite lookup_insert_ne by lia. by apply Hf.
  - intros e'. rewrite epoch_of_set. by case_decide.
Qed.

Lemma inv_acquire now ttl l op r st : inv st -> nonneg r -> inv (acquire now ttl l op r st).1.
Proof.
  intros Hi Hr. pose proof (inv_covered st Hi (activeEpoch st)) as Hc. pose proof (inv_active st Hi) as Ha.
  unfold acquire. destruct (get_rec _ now op) as [[prev d]|] eqn:Hg.
  - case_bool_decide; [done|]. apply get_rec_recs in Hg as [Hg _].
    pose proof (covered_give_back op _ prev d Hc Hg) as Hc'.
    destruct (_ =? 1); simpl; apply inv_set; auto using covered_grant.
  - destruct (_ =? 1); simpl; [apply inv_set; auto using covered_grant|done].
Qed.

Lemma inv_release now op st : inv st -> inv (releaseIfHeld now op st).1.
Proof.
  intros Hi. unfold releaseIfHeld. destruct (get_rec _ now op) as [[r d]|] eqn:Hg; [|done].
  apply get_rec_recs in Hg as [Hg _]. simpl.
  apply inv_set; [done|apply inv_active, Hi|]. eapply covered_give_back; [apply inv_covered, Hi|exact Hg].
Qed.

(** *** Replaying *)

(** What the new epoch is after the operations of [l] have been replayed. *)
Record replayed (now ttl : Z) (old : Epoch) (l : list string) (new : Epoch) : Prop := mkReplayed {
  rep_covered : covered new;
  rep_exact : forall ax k f, ax ∈ axes -> pend ax new k f = total ax new k f;
  rep_recs : forall op, recs new !! op =
    if decide (op ∈ l) then
      match get_rec old now op with
      | Some (r, d) => Some (r, now + (if d - now <=? 0 then ttl * 1000 else d - now))
      | None => None
      end
    else None }.

Lemma replay_step now ttl old l new op :
  covered old -> replayed now ttl old l new -> op ∉ l -> replayed now ttl old (l ++ [op]) (replay now ttl old new op).
Proof.
  intros Hold [Hc He Hr] Hop. unfold replay.
  assert (Hfresh : recs new !! op = None) by (rewrite Hr; by rewrite decide_False).
  destruct (get_rec old now op) as [[r d]|] eqn:Hg.
  - pose proof (get_rec_recs _ _ _ _ _ Hg) as [Hg' _]. pose proof (cov_nonneg _ Hold _ _ Hg') as Hnn.
    constructor.
    + by apply covered_grant.
    + intros ax k f Hax. rewrite total_put, (pend_same ax (post 1 r new)), pend_post by done.
      rewrite total_delete, total_post. simpl. rewrite Hfresh, He by done. lia.
    + intros op'. simpl. destruct (decide (op' = op)) as [->|Hne].
      * rewrite lookup_insert_eq, decide_True by set_solver. by rewrite Hg.
      * rewrite lookup_insert_ne, Hr by done. repeat case_decide; try done; set_solver.
  - constructor; [done|done|]. intros op'. rewrite Hr. destruct (decide (op' = op)) as [->|Hne].
    + rewrite decide_False by done. rewrite Hg. by case_decide.
    + repeat case_decide; try done; set_solver.
Qed.

Lemma replay_all now ttl old l l0 new :
  covered old -> NoDup (l0 ++ l) -> replayed now ttl old l0 new ->
  replayed now ttl old (l0 ++ l) (foldl (replay now ttl old) new l).
Proof.
  intros Hold. revert l0 new. induction l as [|op l IH]; intros l0 new Hnd Hr; simpl; [by rewrite app_nil_r|].
  replace (l0 ++ op :: l) with ((l0 ++ [op]) ++ l) in * by (by rewrite <- app_assoc).
  apply IH; [done|]. apply replay_step; [done|done|].
  apply NoDup_app in Hnd as (Hnd & _ & _). apply NoDup_app in Hnd as (_ & Hd & _).
  intros Hin. apply (Hd op Hin). by left.
Qed.

Lemma reset_replayed now ttl st :
  inv st ->
  replayed now ttl (epoch_of st (activeEpoch st)) (elements (ops (epoch_of st (activeEpoch st))))
    (epoch_of (reset now ttl st).1 (epoch_seq st + 1)).
Proof.
  intros Hi. set (old := epoch_of st (activeEpoch st)). unfold reset. fold old.
  assert (epoch_of st (epoch_seq st + 1) = no_epoch) as ->.
  { unfold epoch_of. rewrite (inv_fresh st Hi) by lia. done. }
  unfold epoch_of at 1. simpl. rewrite lookup_insert_eq. simpl.
  change (elements (ops old)) with ([] ++ elements (ops old)) at 1.
  apply (replay_all now ttl old (elements (ops old)) []).
  - apply inv_covered, Hi.
  - apply NoDup_elements.
  - constructor; [apply covered_empty| |].
    + intros ax k f Hax. unfold total. simpl. rewrite sum_map_empty. unfold pend, hget, axes in *.
      apply elem_of_cons in Hax as [->|Hax]; [|apply list_elem_of_singleton in Hax as ->]; simpl;
        by rewrite lookup_empty.
    + intros op. by rewrite decide_False by apply not_elem_of_nil.
Qed.

Lemma inv_reset now ttl st : inv st -> inv (reset now ttl st).1.
Proof.
  intros Hi. pose proof (reset_replayed now ttl st Hi) as Hr. constructor.
  - simpl. unfold activeEpoch. simpl. lia.
  - intros e He. simpl in *. rewrite lookup_insert_ne by lia. apply (inv_fresh st Hi). lia.
  - intros e. destruct (decide (e = epoch_seq st + 1)) as [->|Hne]; [apply Hr|].
    unfold epoch_of, reset. simpl. rewrite lookup_insert_ne by done. apply (inv_covered st Hi).
Qed.

Lemma inv_step st st' : step st st' -> inv st -> inv st'.
Proof.
  intros [now ttl l op r s Hv Hm Hd Hc|now op s|now ttl s|e op s He|e op s He] Hi.
  - by apply inv_acquire.
  - by apply inv_release.
  - by apply inv_reset.
  - apply inv_set; [done|done|]. apply covered_del_op, inv_covered, Hi.
  - apply inv_set; [done|done|]. apply covered_srem, inv_covered, Hi.
Qed.

Lemma inv_reachable st : reachable st -> inv st.
Proof.
  unfold reachable. intros H. assert (inv empty_store) as H0.
  { constructor; [done|done|]. intros e. apply covered_empty. }
  revert H0. induction H as [|x y z Hxy _ IH]; [done|]. intros Hx. apply IH. by eapply inv_step.
Qed.

Lemma held_le_total ax ep now k f : ax ∈ axes -> covered ep -> 0 <= held ax ep now k f <= total ax ep k f.
Proof.
  intros Hax [Hn _]. unfold held, total. split.
  - apply sum_map_nonneg. intros op rd H. destruct (now <=? rd.2); [|lia]. by apply share_nonneg, (Hn op).
  - revert Hn. generalize (recs ep). intros m. induction m as [|op rd m Hm IH] using map_ind; intros Hn.
    + by rewrite !sum_map_empty.
    + rewrite !sum_map_insert by done.
      assert (0 <= share ax k f rd.1) by (apply share_nonneg; [done|]; apply (Hn op); by rewrite lookup_insert_eq).
      assert (sum_map (fun _ rd0 => if now <=? rd0.2 then share ax k f rd0.1 else 0) m <=
              sum_map (fun _ rd0 => share ax k f rd0.1) m).
      { apply IH. intros op' rd' H'. apply (Hn op'). rewrite lookup_insert_ne; [done|congruence]. }
      destruct (now <=? rd.2); lia.
Qed.

(** ** Properties *)

(** C25. In every history of the scripts and of the single commands of a
    pruning, however interleaved, no counter of the active epoch is below what its
    live reservations add up to, so an admission test never sees room that is
    taken. *)
Theorem counters_cover_live_reservations st now :
  reachable st ->
  forall k f,
    0 <= held node_axis (epoch_of st (activeEpoch st)) now k f <= pending_node (epoch_of st (activeEpoch st)) k f /\
    0 <= held project_axis (epoch_of st (activeEpoch st)) now k f <=
      pending_project (epoch_of st (activeEpoch st)) k f.
Proof.
  intros Hi%inv_reachable k f. pose proof (inv_covered st Hi (activeEpoch st)) as Hc. unfold axes in *.
  assert (Hn : node_axis ∈ axes) by (by left). assert (Hp : project_axis ∈ axes) by (by right; left).
  pose proof (held_le_total _ _ now k f Hn Hc). pose proof (held_le_total _ _ now k f Hp Hc).
  pose proof (cov_total _ Hc _ k f Hn). pose proof (cov_total _ Hc _ k f Hp).
  unfold pend, pending_node, pending_project in *. simpl hashes in *. lia.
Qed.

Lemma check_limits_1 l r ep :
  check_limits l r ep = 1 ->
  fgtb (fof_Z (pending_node ep (NodeID r) "pending_vcpu" + VCPU r))
       (fmul (fof_Z (node_vcpu_total l)) (cpu_oversubscribe l)) = false /\
  pending_node ep (NodeID r) "pending_mem_mib" + MemMib r <= node_mem_total l /\
  (0 < node_disk_total l -> pending_node ep (NodeID r) "pending_disk_mib" + DiskMib r <= node_disk_total l) /\
  pending_project ep (ProjectID r) "pending_vcpu" + VCPU r <= project_vcpu_quota l /\
  pending_project ep (ProjectID r) "pending_mem_mib" + MemMib r <= project_mem_quota l /\
  (0 < project_disk_quota l ->
     pending_project ep (ProjectID r) "pending_disk_mib" + DiskMib r <= project_disk_quota l) /\
  (0 < project_machine_quota l ->
     pending_project ep (ProjectID r) "pending_machines" + Machines r <= project_machine_quota l).
Proof.
  unfold check_limits. cbv zeta.
  repeat match goal with
  | |- (if ?c then _ else _) = 1 -> _ => destruct c eqn:?; [discriminate|]
  end.
  intros _. bool_to_prop. split_and!; try done; try lia; intros Hpos;
    repeat match goal with H : _ \/ _ |- _ => destruct H end; bool_to_prop; lia.
Qed.

(** What a granted request changes: from an epoch in which the operation holds
    nothing. *)
Lemma acquire_granted now ttl l op r st st' :
  inv st -> acquire now ttl l op r st = (st', 1) -> Get now op st <> Some r ->
  exists ep0, covered ep0 /\ check_limits l r ep0 = 1 /\ activeEpoch st' = activeEpoch st /\
    epoch_of st' (activeEpoch st) = put_rec op r (now + ttl * 1000) (post 1 r ep0).
Proof.
  intros Hi. pose proof (inv_covered st Hi (activeEpoch st)) as Hc. unfold acquire, Get.
  destruct (get_rec _ now op) as [[prev d]|] eqn:Hg; simpl.
  - apply get_rec_recs in Hg as [Hg _]. case_bool_decide as Hp; [intros _ H; congruence|].
    set (ep0 := del_rec op (post (-1) prev _)). destruct (check_limits l r ep0 =? 1) eqn:Hl.
    + intros [= <-] _. apply Z.eqb_eq in Hl. exists ep0. split; [by eapply covered_give_back|].
      split; [done|]. split; [done|]. rewrite epoch_of_set. by rewrite decide_True.
    + intros [= <- Hcode]. by rewrite Hcode in Hl.
  - set (ep0 := epoch_of st (activeEpoch st)) in *. destruct (check_limits l r ep0 =? 1) eqn:Hl.
    + intros [= <-] _. apply Z.eqb_eq in Hl. exists ep0. split; [done|]. split; [done|]. split; [done|].
      rewrite epoch_of_set. by rewrite decide_True.
    + intros [= <- Hcode]. by rewrite Hcode in Hl.
Qed.

(** C28. After a request is granted, the live reservations of its node
    and of its project, the new one included, fit the node's memory and disk, its
    CPU times the oversubscription ratio (a power of two), and each quota of the
    project; the operation holds exactly the request. *)
Theorem granted_within_limits now ttl l op r st st' j :
  reachable st -> nonneg r -> 0 <= ttl ->
  acquire now ttl l op r st = (st', 1) -> Get now op st <> Some r ->
  cpu_oversubscribe l = fof_Z (2 ^ j) -> 0 <= j <= 10 -> 0 < node_vcpu_total l ->
  node_vcpu_total l * 2 ^ j < 2 ^ 53 ->
  pending_node (epoch_of st' (activeEpoch st')) (NodeID r) "pending_vcpu" < 2 ^ 53 ->
  let ep := epoch_of st' (activeEpoch st') in
  Get now op st' = Some r /\
  held node_axis ep now (NodeID r) "pending_vcpu" <= node_vcpu_total l * 2 ^ j /\
  held node_axis ep now (NodeID r) "pending_mem_mib" <= node_mem_total l /\
  (0 < node_disk_total l -> held node_axis ep now (NodeID r) "pending_disk_mib" <= node_disk_total l) /\
  held project_axis ep now (ProjectID r) "pending_vcpu" <= project_vcpu_quota l /\
  held project_axis ep now (ProjectID r) "pending_mem_mib" <= project_mem_quota l /\
  (0 < project_disk_quota l -> held project_axis ep now (ProjectID r) "pending_disk_mib" <= project_disk_quota l) /\
  (0 < project_machine_quota l ->
     held project_axis ep now (ProjectID r) "pending_machines" <= project_machine_quota l).
Proof.
  intros Hi%inv_reachable Hr Httl Hacq Hget HR Hj Hcap Hbig H53. cbv zeta.
  destruct (acquire_granted _ _ _ _ _ _ _ Hi Hacq Hget) as (ep0 & Hc0 & Hl & Hact & Hep).
  rewrite Hact in *. rewrite Hep in *. set (ep := put_rec op r (now + ttl * 1000) (post 1 r ep0)) in *.
  pose proof (covered_grant op r (now + ttl * 1000) ep0 Hc0 Hr) as Hc. fold ep in Hc.
  assert (Hn : node_axis ∈ axes) by (by left). assert (Hp : project_axis ∈ axes) by (by right; left).
  assert (Hheld : forall ax k f, ax ∈ axes -> held ax ep now k f <= pend ax ep0 k f + share ax k f r).
  { intros ax k f Hax. pose proof (held_le_total ax ep now k f Hax Hc).
    pose proof (cov_total _ Hc ax k f Hax) as Ht. unfold ep in Ht at 2.
    rewrite (pend_same ax (post 1 r ep0)), pend_post in Ht by done. lia. }
  assert (Hpos : forall ax k f, ax ∈ axes -> 0 <= pend ax ep0 k f).
  { intros ax k f Hax. pose proof (held_le_total ax ep0 now k f Hax Hc0).
    pose proof (cov_total _ Hc0 ax k f Hax). lia. }
  assert (Hshare : share node_axis (NodeID r) "pending_vcpu" r = VCPU r /\
    share node_axis (NodeID r) "pending_mem_mib" r = MemMib r /\
    share node_axis (NodeID r) "pending_disk_mib" r = DiskMib r /\
    share project_axis (ProjectID r) "pending_vcpu" r = VCPU r /\
    share project_axis (ProjectID r) "pending_mem_mib" r = MemMib r /\
    share project_axis (ProjectID r) "pending_disk_mib" r = DiskMib r /\
    share project_axis (ProjectID r) "pending_machines" r = Machines r).
  { unfold share, amount. simpl. rewrite !String.eqb_refl. lia. }
  destruct Hshare as (S1 & S2 & S3 & S4 & S5 & S6 & S7).
  apply check_limits_1 in Hl as (L1 & L2 & L3 & L4 & L5 & L6 & L7).
  pose proof (Hheld _ (NodeID r) "pending_vcpu" Hn) as H1. pose proof (Hheld _ (NodeID r) "pending_mem_mib" Hn).
  pose proof (Hheld _ (NodeID r) "pending_disk_mib" Hn). pose proof (Hheld _ (ProjectID r) "pending_vcpu" Hp).
  pose proof (Hheld _ (ProjectID r) "pending_mem_mib" Hp). pose proof (Hheld _ (ProjectID r) "pending_disk_mib" Hp).
  pose proof (Hheld _ (ProjectID r) "pending_machines" Hp).
  change (pend node_axis ep0) with (pending_node ep0) in *.
  change (pend project_axis ep0) with (pending_project ep0) in *.
  split; [|split; [|split_and!; lia]].
  - unfold Get. rewrite Hact, Hep. unfold get_rec, ep. simpl. rewrite lookup_insert_eq.
    by rewrite (proj2 (Z.leb_le _ _)) by lia.
  - assert (pending_node ep (NodeID r) "pending_vcpu" = pending_node ep0 (NodeID r) "pending_vcpu" + VCPU r) as Hv.
    { change (pending_node ep) with (pend node_axis ep). unfold ep.
      rewrite (pend_same node_axis (post 1 r ep0)), pend_post by done. rewrite S1.
      change (pend node_axis ep0) with (pending_node ep0). lia. }
    rewrite Hv in H53. specialize (Hpos node_axis (NodeID r) "pending_vcpu" Hn).
    change (pend node_axis ep0) with (pending_node ep0) in Hpos. destruct Hr as (Hr1 & _).
    rewrite HR, fgtb_of_Z_mul in L1 by lia. bool_to_prop. lia.
Qed.

(** Releasing an operation gives back exactly what it holds, on
    its node and its project, touches no other operation, and can happen once: the
    next release reports that nothing is held and changes nothing. *)
Theorem release_exactly_once now now' op r st :
  Get now op st = Some r ->
  exists st', releasePending now op st = (st', Ok tt, false) /\
    (forall ax k f, ax ∈ axes ->
       pend ax (epoch_of st' (activeEpoch st')) k f =
       pend ax (epoch_of st (activeEpoch st)) k f - share ax k f r) /\
    (forall op' t, op' <> op -> Get t op' st' = Get t op' st) /\
    releasePending now' op st' = (st', Err ErrNotHeld, true).
Proof.
  intros Hg. unfold Get in Hg.
  destruct (get_rec (epoch_of st (activeEpoch st)) now op) as [[r' d]|] eqn:Hrec; [|done].
  simpl in Hg. injection Hg as ->.
  set (ep := del_rec op (post (-1) r (epoch_of st (activeEpoch st)))).
  exists (set_epoch st (activeEpoch st) ep).
  assert (Hep : epoch_of (set_epoch st (activeEpoch st) ep) (activeEpoch st) = ep)
    by (rewrite epoch_of_set; by rewrite decide_True).
  assert (Hact : activeEpoch (set_epoch st (activeEpoch st) ep) = activeEpoch st) by done.
  assert (Hgone : forall t, get_rec ep t op = None) by (intros t; unfold get_rec, ep; simpl; by rewrite lookup_delete_eq).
  split_and!.
  - unfold releasePending, releaseIfHeld. by rewrite Hrec.
  - intros ax k f Hax. rewrite Hact, Hep. unfold ep.
    rewrite (pend_same ax (post (-1) r (epoch_of st (activeEpoch st)))), pend_post by done. lia.
  - intros op' t Hne. unfold Get. rewrite Hact, Hep. unfold get_rec, ep. simpl.
    by rewrite lookup_delete_ne.
  - unfold releasePending, releaseIfHeld. by rewrite Hact, Hep, Hgone.
Qed.

Lemma sum_map_omap {A B} (f : string -> B -> Z) (g : A -> option B) (m : gmap string A) :
  sum_map f (omap g m) = sum_map (fun k a => match g a with Some b => f k b | None => 0 end) m.
Proof.
  induction m as [|k a m Hk IH] using map_ind.
  - by rewrite omap_empty, !sum_map_empty.
  - rewrite sum_map_insert by done. rewrite <- IH. destruct (g a) as [b|] eqn:Hg.
    + rewrite (omap_insert_Some _ _ _ _ b) by done. apply sum_map_insert. rewrite lookup_omap, Hk. done.
    + rewrite omap_insert_None by done. rewrite delete_id; [lia|]. by rewrite lookup_omap, Hk.
Qed.

(** Every record is among the operations. Only a pruning that runs into a new reservation of
    the operation it prunes undoes this. *)
Definition enumerated (ep : Epoch) : Prop := forall op rd, recs ep !! op = Some rd -> op ∈ ops ep.

(** Rebuilding forgets nothing alive and keeps nothing dead, when the records of the
    epoch are enumerated: every live operation holds the same reservation afterwards, no other does, and each
    counter is exactly the sum of the live reservations, whatever had leaked into
    the old counters. *)
Theorem reset_rebuilds_exactly now ttl st :
  reachable st -> 0 <= ttl -> enumerated (epoch_of st (activeEpoch st)) ->
  let st' := (reset now ttl st).1 in
  (forall op, Get now op st' = Get now op st) /\
  (forall ax k f, ax ∈ axes ->
     pend ax (epoch_of st' (activeEpoch st')) k f = held ax (epoch_of st (activeEpoch st)) now k f).
Proof.
  intros Hi%inv_reachable Httl Henum. cbv zeta. set (st' := (reset now ttl st).1).
  pose proof (reset_replayed now ttl st Hi) as [_ Hexact Hrecs]. fold st' in Hexact, Hrecs.
  assert (Hact : activeEpoch st' = epoch_seq st + 1) by done. rewrite <- Hact in Hexact, Hrecs.
  set (old := epoch_of st (activeEpoch st)) in *. set (new := epoch_of st' (activeEpoch st')) in *.
  pose proof (inv_covered st Hi (activeEpoch st)) as Hc. fold old in Hc.
  set (renew := fun rd : Record_ * Z => if now <=? rd.2
    then Some (rd.1, now + (if rd.2 - now <=? 0 then ttl * 1000 else rd.2 - now)) else None).
  assert (Hmap : recs new = omap renew (recs old)).
  { apply map_eq. intros op. rewrite Hrecs, lookup_omap. unfold get_rec, renew.
    destruct (recs old !! op) as [[r d]|] eqn:Hop; simpl.
    - rewrite decide_True by (apply elem_of_elements; by eapply Henum).
      by destruct (now <=? d).
    - by case_decide. }
  split.
  - intros op. unfold Get. fold old new. unfold get_rec. rewrite Hmap, lookup_omap.
    destruct (recs old !! op) as [[r d]|]; simpl; [|done]. unfold renew; simpl.
    destruct (now <=? d) eqn:Hd; simpl; [|done]. bool_to_prop.
    rewrite (proj2 (Z.leb_le _ _)); [done|]. destruct (d - now <=? 0) eqn:E; bool_to_prop; lia.
  - intros ax k f Hax. rewrite Hexact by done. unfold total, held. rewrite Hmap, sum_map_omap.
    apply sum_map_ext. intros op [r d] _. unfold renew; simpl. by destruct (now <=? d).
Qed.

(** A pruning between two scripts keeps the operations it is told are active. *)
Lemma prune_ops_keep now op e l st :
  Forall (fun o => o <> op) l -> Get now op (foldl (fun s o => prune_op e o s) st l) = Get now op st.
Proof.
  intros Hf. revert st. induction Hf as [|o l Ho Hf IH]; intros s; [done|]. simpl. rewrite IH.
  unfold Get. change (activeEpoch (prune_op e o s)) with (activeEpoch s). unfold prune_op, prune_srem, prune_del.
  rewrite epoch_of_set. case_decide as He; [|by rewrite epoch_of_set, decide_False].
  rewrite <- He, epoch_of_set, decide_True by done. unfold get_rec. simpl. by rewrite lookup_delete_ne.
Qed.

Lemma PruneStaleOps_keeps activeOps st op now :
  op ∈ activeOps -> Get now op (PruneStaleOps activeOps st).1 = Get now op st.
Proof.
  intros Hop. apply prune_ops_keep, Forall_forall. intros o [Ho _]%list_elem_of_filter. congruence.
Qed.

(** ** Concrete histories *)

Module Witness.
Definition limits : Limits := mkLimits 8 8192 0 100 100000 0 2 (fof_Z 4).
Definition r : Record_ := mkRecord "n1" "p" 2 512 10 1.
Definition st1 : Store := (acquire 1000 120 limits "op" r empty_store).1.

Lemma reachable_st1 : reachable st1.
Proof. apply rtc_once. by apply step_acquire. Qed.

Lemma counters_cover_live_reservations_witness :
  held node_axis (epoch_of st1 0) 1000 "n1" "pending_mem_mib" = 512 /\
  0 <= held node_axis (epoch_of st1 0) 1000 "n1" "pending_mem_mib" <= pending_node (epoch_of st1 0) "n1" "pending_mem_mib".
Proof.
  split; [vm_compute; reflexivity|].
  exact (proj1 (counters_cover_live_reservations st1 1000 reachable_st1 "n1" "pending_mem_mib")).
Defined.

Lemma granted_within_limits_witness :
  held node_axis (epoch_of st1 0) 1000 "n1" "pending_vcpu" <= 32.
Proof.
  destruct (granted_within_limits 1000 120 limits "op" r empty_store st1 2) as (_ & H & _);
    [constructor|by repeat split|done|vm_compute; reflexivity|discriminate|reflexivity|lia|reflexivity|
     reflexivity|reflexivity|exact H].
Defined.

Lemma release_exactly_once_witness : exists st',
  releasePending 2000 "op" st1 = (st', Ok tt, false) /\
  releasePending 3000 "op" st' = (st', Err ErrNotHeld, true).
Proof.
  destruct (release_exactly_once 2000 3000 "op" r st1) as (st' & H & _ & _ & H');
    [vm_compute; reflexivity|]. exists st'. exact (conj H H').
Defined.

Lemma reset_rebuilds_exactly_witness :
  Get 2000 "op" (reset 2000 120 st1).1 = Some r.
Proof.
  destruct (reset_rebuilds_exactly 2000 120 st1 reachable_st1) as [H _]; [lia| |].
  { intros op rd. replace (recs (epoch_of st1 (activeEpoch st1))) with ({["op" := (r, 121000)]} : gmap string (Record_ * Z)) by (by vm_compute).
    intros [<- _]%lookup_singleton_Some. apply (bool_decide_unpack _). vm_compute. reflexivity. }
  etransitivity; [apply H|]. vm_compute. reflexivity.
Defined.
(** A pruning that runs into a new reservation of its operation: the record is there, but
    not among the operations, and the next rebuild forgets it. *)
Definition raced : Store := prune_srem 0 "op" (acquire 1000 120 limits "op" r (prune_del 0 "op" st1)).1.
Example prune_races : Get 1000 "op" raced = Some r /\ Get 1000 "op" (reset 1000 120 raced).1 = None.
Proof. by vm_compute. Qed.
End Witness.
