(* ===== verification/AutoscalePolicy.v ===== *)
(** * The autoscaling policy and its rows (internal/controlplane/store/autoscale.go)

    The policy kept on a row of [apps], its validation, the clamping a reader
    applies, and the statements that write it and the desired replica count.
    A table is a finite map from id to row; each method is one SQL statement
    and so one atomic step. *)
From S2P Require Import Prelude GoFloat.
Local Open Scope Z_scope.

Record AutoscalePolicy := mkPolicy {
  Enabled : bool; MinReplicas : Z; MaxReplicas : Z; TargetConcurrency : Z;
  ScaleDownDelaySec : Z; PanicThreshold : float64;
  TargetRPS : Z; TargetCPURatio : float64;
  CustomPromQuery : string; CustomTarget : float64; CustomMode : string }.

Definition DefaultAutoscalePolicy : AutoscalePolicy :=
  mkPolicy false 1 10 20 120 (fof_Z 2) 0 fzero "" fzero "per_replica".

(** autoscaleBounds. *)
Record bounds_table := mkBounds {
  b_minReplicas : Z * Z; b_maxReplicas : Z * Z; b_targetConcurrency : Z * Z;
  b_scaleDownDelaySec : Z * Z; b_panicThreshold : float64 * float64 }.

Definition autoscaleBounds : bounds_table :=
  mkBounds (0, 100) (1, 100) (1, 256) (30, 600) (fbin 3 (-1), fof_Z 5).

(** clampBound at [int] and at [float64]. *)
Definition clampBound_int (v lo hi : Z) : Z :=
  if v <? lo then lo else if hi <? v then hi else v.
Definition clampBound_float (v lo hi : float64) : float64 :=
  if fltb v lo then lo else if fgtb v hi then hi else v.

Definition ValidateAutoscalePolicy (p : AutoscalePolicy) : res unit :=
  let b := autoscaleBounds in
  switch
    [((MinReplicas p <? (b_minReplicas b).1) || (MaxReplicas p <? (b_minReplicas b).1),
      errors_New "min_replicas and max_replicas must be >= 0");
     (MaxReplicas p <? (b_maxReplicas b).1,
      errors_New "max_replicas must be >= 1 (max=0 would pin an enabled app at zero replicas)");
     ((b_maxReplicas b).2 <? MaxReplicas p, errors_New "max_replicas must be <= 100");
     (MaxReplicas p <? MinReplicas p, errors_New "min_replicas must be <= max_replicas");
     ((TargetConcurrency p <? (b_targetConcurrency b).1) ||
      ((b_targetConcurrency b).2 <? TargetConcurrency p),
      errors_New "target_concurrency must be in [1,256]");
     ((ScaleDownDelaySec p <? (b_scaleDownDelaySec b).1) ||
      ((b_scaleDownDelaySec b).2 <? ScaleDownDelaySec p),
      errors_New "scale_down_delay_sec must be in [30,600]");
     (fltb (PanicThreshold p) (b_panicThreshold b).1 || fgtb (PanicThreshold p) (b_panicThreshold b).2,
      errors_New "panic_threshold must be in [1.5,5.0]");
     ((TargetRPS p <? 0) || (100000 <? TargetRPS p),
      errors_New "target_rps must be in [0,100000] (0 = disabled)");
     (fltb (TargetCPURatio p) fzero || fgtb (TargetCPURatio p) (fof_Z 1),
      errors_New "target_cpu_ratio must be in [0,1] (0 = disabled)");
     (fltb (CustomTarget p) fzero, errors_New "custom_target must be >= 0 (0 = disabled)");
     (negb (String.eqb (CustomMode p) "") && negb (String.eqb (CustomMode p) "per_replica") &&
      negb (String.eqb (CustomMode p) "absolute"),
      errors_New "custom_mode must be per_replica|absolute");
     (fgtb (CustomTarget p) fzero && String.eqb (CustomPromQuery p) "",
      errors_New "custom_target requires custom_prom_query")].

(** clampAutoscalePolicy. *)
Definition clampAutoscalePolicy (p : AutoscalePolicy) : AutoscalePolicy :=
  let b := autoscaleBounds in
  let min := clampBound_int (MinReplicas p) (b_minReplicas b).1 (b_minReplicas b).2 in
  let max := clampBound_int (MaxReplicas p) (b_maxReplicas b).1 (b_maxReplicas b).2 in
  let min := if max <? min then max else min in
  let target := clampBound_int (TargetConcurrency p) (b_targetConcurrency b).1 (b_targetConcurrency b).2 in
  let delay := clampBound_int (ScaleDownDelaySec p) (b_scaleDownDelaySec b).1 (b_scaleDownDelaySec b).2 in
  let panic := clampBound_float (PanicThreshold p) (b_panicThreshold b).1 (b_panicThreshold b).2 in
  let rps := if TargetRPS p <? 0 then 0 else TargetRPS p in
  let rps := if 100000 <? rps then 100000 else rps in
  let cpu := if fltb (TargetCPURatio p) fzero || fgtb (TargetCPURatio p) (fof_Z 1)
             then fzero else TargetCPURatio p in
  let ctarget := if fltb (CustomTarget p) fzero then fzero else CustomTarget p in
  let cquery := if feqb ctarget fzero then "" else CustomPromQuery p in
  let cmode := if negb (String.eqb (CustomMode p) "absolute") then "per_replica" else CustomMode p in
  mkPolicy (Enabled p) min max target delay panic rps cpu cquery ctarget cmode.

Definition NormalizeAutoscalePolicy : AutoscalePolicy -> AutoscalePolicy := clampAutoscalePolicy.

(** ** The rows *)

(** An [apps] row: the columns the autoscaler and its writers use. *)
Record App := mkApp {
  ID : string; ProjectID : string; Hostname : string; DesiredReplicas : Z; Deleted : bool;
  policy_cols : AutoscalePolicy; UpdatedAt : Z }.

(** App.Autoscale. *)
Definition Autoscale (a : App) : AutoscalePolicy := clampAutoscalePolicy (policy_cols a).

Abbreviation apps := (gmap string App).

(** [UPDATE apps SET set WHERE id = $1 AND guard]: the table and the number of
    rows affected. *)
Definition update_row (d : apps) (id : string) (guard : App -> bool) (set : App -> App) : apps * Z :=
  match d !! id with
  | Some row => if guard row then (<[id := set row]> d, 1) else (d, 0)
  | None => (d, 0)
  end.

Definition exec (wrap : goerr -> goerr) (o : exec_outcome) (r : apps * Z) (d : apps) : apps * res Z :=
  match o with
  | Done => (r.1, Ok r.2)
  | FailedBefore e => (d, Err (wrap e))
  | FailedAfter e => (r.1, Err (wrap e))
  end.

Definition set_replicas (n : Z) (now : Z) (a : App) : App :=
  mkApp (ID a) (ProjectID a) (Hostname a) n (Deleted a) (policy_cols a) now.
Definition set_policy (p : AutoscalePolicy) (now : Z) (a : App) : App :=
  mkApp (ID a) (ProjectID a) (Hostname a) (DesiredReplicas a) (Deleted a) p now.
Definition disable (p : AutoscalePolicy) : AutoscalePolicy :=
  mkPolicy false (MinReplicas p) (MaxReplicas p) (TargetConcurrency p) (ScaleDownDelaySec p)
    (PanicThreshold p) (TargetRPS p) (TargetCPURatio p) (CustomPromQuery p) (CustomTarget p) (CustomMode p).
Definition take_over (n : Z) (now : Z) (a : App) : App :=
  mkApp (ID a) (ProjectID a) (Hostname a) n (Deleted a) (disable (policy_cols a)) now.

Definition ErrNotFound : goerr := errors_New "not found".
Definition ErrAppDeleted : goerr := errors_New "app deleted".

(** The error of a statement that touched no row; [get] is what [GetApp]
    answers then. *)
Definition no_row_error (get : res (option App)) : goerr :=
  match get with
  | Ok (Some a) => if Deleted a then ErrAppDeleted else ErrNotFound
  | _ => ErrNotFound
  end.

Definition GetAutoscalePolicy (get : res (option App)) : res AutoscalePolicy :=
  match get with
  | Err e => Err e
  | Ok None => Err ErrNotFound
  | Ok (Some app) => Ok (Autoscale app)
  end.

Definition SetAutoscalePolicy (now : Z) (o : exec_outcome) (get : apps -> res (option App))
    (d : apps) (id : string) (p : AutoscalePolicy) : apps * res unit :=
  match ValidateAutoscalePolicy p with
  | Err e => (d, Err e)
  | Ok _ =>
      let p := clampAutoscalePolicy p in
      let '(d', r) := exec (fun e => Errorf "set autoscale policy: %w" [AErr e]) o
        (update_row d id (fun a => negb (Deleted a)) (set_policy p now)) d in
      (d', match r with
           | Err e => Err e
           | Ok n => if n =? 0 then Err (no_row_error (get d')) else Ok tt
           end)
  end.

Definition cas_guard (expect : Z) (a : App) : bool :=
  negb (Deleted a) && Enabled (policy_cols a) && (DesiredReplicas a =? expect).

Definition SetAppReplicasCAS (now : Z) (o : exec_outcome) (d : apps) (id : string)
    (want expect : Z) : apps * res bool :=
  let '(d', r) := exec (fun e => Errorf "cas set replicas: %w" [AErr e]) o
    (update_row d id (cas_guard expect) (set_replicas want now)) d in
  (d', match r with Err e => Err e | Ok n => Ok (n =? 1) end).

Definition TakeoverScale (now : Z) (o : exec_outcome) (get : apps -> res (option App))
    (d : apps) (id : string) (replicas : Z) : apps * res unit :=
  let '(d', r) := exec (fun e => Errorf "takeover scale: %w" [AErr e]) o
    (update_row d id (fun a => negb (Deleted a)) (take_over replicas now)) d in
  (d', match r with
       | Err e => Err e
       | Ok n => if n =? 0 then Err (no_row_error (get d')) else Ok tt
       end).

Definition TakeoverScaleCAS (now : Z) (o : exec_outcome) (d : apps) (id : string)
    (replicas expect expectUpdated : Z) : apps * res bool :=
  let '(d', r) := exec (fun e => Errorf "takeover scale cas: %w" [AErr e]) o
    (update_row d id
       (fun a => negb (Deleted a) && (DesiredReplicas a =? expect) && (UpdatedAt a =? expectUpdated))
       (take_over replicas now)) d in
  (d', match r with Err e => Err e | Ok n => Ok (n =? 1) end).

(** ** Lemmas *)

Lemma clampBound_int_range v lo hi : lo <= hi -> lo <= clampBound_int v lo hi <= hi.
Proof. intros. unfold clampBound_int. repeat case_match; bool_to_prop; lia. Qed.

Lemma clampBound_int_id v lo hi : lo <= v <= hi -> clampBound_int v lo hi = v.
Proof. intros. unfold clampBound_int. repeat case_match; bool_to_prop; lia. Qed.

Lemma clampBound_float_kept v lo hi :
  fltb v lo = false -> fgtb v hi = false -> clampBound_float v lo hi = v.
Proof. intros Hlo Hhi. unfold clampBound_float. by rewrite Hlo, Hhi. Qed.

(** A clamped value passes both bounds: NaN passes every comparison. *)
Lemma clampBound_float_passes v lo hi :
  fltb lo lo = false -> fgtb lo hi = false -> fltb hi lo = false -> fgtb hi hi = false ->
  fltb (clampBound_float v lo hi) lo = false /\ fgtb (clampBound_float v lo hi) hi = false.
Proof. intros. unfold clampBound_float. by repeat case_match. Qed.

(** What clamping promises, field by field. *)
Record clamped (p : AutoscalePolicy) : Prop := mkClamped {
  c_min : 0 <= MinReplicas p <= MaxReplicas p;
  c_max : 1 <= MaxReplicas p <= 100;
  c_target : 1 <= TargetConcurrency p <= 256;
  c_delay : 30 <= ScaleDownDelaySec p <= 600;
  c_panic : fltb (PanicThreshold p) (fbin 3 (-1)) = false /\ fgtb (PanicThreshold p) (fof_Z 5) = false;
  c_rps : 0 <= TargetRPS p <= 100000;
  c_cpu : fltb (TargetCPURatio p) fzero = false /\ fgtb (TargetCPURatio p) (fof_Z 1) = false;
  c_ctarget : fltb (CustomTarget p) fzero = false;
  c_cquery : feqb (CustomTarget p) fzero = true -> CustomPromQuery p = "";
  c_cmode : CustomMode p = "per_replica" \/ CustomMode p = "absolute" }.

Lemma clamp_clamped p : clamped (clampAutoscalePolicy p).
Proof.
  unfold clampAutoscalePolicy. cbv zeta.
  cbn [autoscaleBounds b_minReplicas b_maxReplicas b_targetConcurrency b_scaleDownDelaySec
       b_panicThreshold fst snd].
  pose proof (clampBound_int_range (MinReplicas p) 0 100 ltac:(lia)).
  pose proof (clampBound_int_range (MaxReplicas p) 1 100 ltac:(lia)).
  constructor; cbn [MinReplicas MaxReplicas TargetConcurrency ScaleDownDelaySec PanicThreshold
    TargetRPS TargetCPURatio CustomPromQuery CustomTarget CustomMode].
  - case_match; bool_to_prop; lia.
  - lia.
  - apply clampBound_int_range; lia.
  - apply clampBound_int_range; lia.
  - apply clampBound_float_passes; vm_compute; reflexivity.
  - repeat case_match; bool_to_prop; lia.
  - destruct (fltb (TargetCPURatio p) fzero) eqn:Hlo; [by vm_compute|].
    destruct (fgtb (TargetCPURatio p) (fof_Z 1)) eqn:Hhi; [by vm_compute|done].
  - destruct (fltb (CustomTarget p) fzero) eqn:Hlo; [by vm_compute|done].
  - intros ->. done.
  - destruct (String.eqb_spec (CustomMode p) "absolute") as [->|]; [by right|by left].
Qed.

(** On a clamped policy clamping changes nothing. *)
Lemma clamped_id p : clamped p -> clampAutoscalePolicy p = p.
Proof.
  intros [Hmin Hmax Ht Hd [Hp1 Hp2] Hr [Hc1 Hc2] Hct Hcq Hcm].
  destruct p as [en mn mx tc sd pt tr cpu cq ct cm].
  unfold clampAutoscalePolicy. cbv zeta.
  cbn [autoscaleBounds b_minReplicas b_maxReplicas b_targetConcurrency b_scaleDownDelaySec
       b_panicThreshold fst snd Enabled MinReplicas MaxReplicas TargetConcurrency ScaleDownDelaySec
       PanicThreshold TargetRPS TargetCPURatio CustomPromQuery CustomTarget CustomMode] in *.
  rewrite !clampBound_int_id by lia. rewrite clampBound_float_kept, Hc1, Hc2, Hct by done.
  rewrite (proj2 (Z.ltb_ge mx mn)), (proj2 (Z.ltb_ge tr 0)), (proj2 (Z.ltb_ge 100000 tr)) by lia.
  cbn [orb]. f_equal.
  - destruct (feqb ct fzero); [by rewrite Hcq|done].
  - by destruct Hcm as [-> | ->].
Qed.

Lemma validate_ok p :
  ValidateAutoscalePolicy p = Ok tt <->
  (0 <= MinReplicas p <= MaxReplicas p /\ 1 <= MaxReplicas p <= 100 /\
   1 <= TargetConcurrency p <= 256 /\ 30 <= ScaleDownDelaySec p <= 600 /\
   (fltb (PanicThreshold p) (fbin 3 (-1)) = false /\ fgtb (PanicThreshold p) (fof_Z 5) = false) /\
   0 <= TargetRPS p <= 100000 /\
   (fltb (TargetCPURatio p) fzero = false /\ fgtb (TargetCPURatio p) (fof_Z 1) = false) /\
   fltb (CustomTarget p) fzero = false /\
   (CustomMode p = "" \/ CustomMode p = "per_replica" \/ CustomMode p = "absolute") /\
   (fgtb (CustomTarget p) fzero = true -> CustomPromQuery p <> "")).
Proof.
  unfold ValidateAutoscalePolicy. rewrite switch_ok. rewrite !Forall_cons.
  cbn [autoscaleBounds b_minReplicas b_maxReplicas b_targetConcurrency b_scaleDownDelaySec
       b_panicThreshold fst snd].
  rewrite !orb_false_iff, !andb_false_iff, !negb_false_iff, !Z.ltb_ge, !String.eqb_eq, String.eqb_neq.
  split.
  - intros (H1 & H2 & H3 & H4 & H5 & H6 & H7 & H8 & H9 & H10 & H11 & H12 & _).
    split_and!; try lia; try tauto. intros Hc. destruct H12; [congruence|done].
  - intros (H1 & H2 & H3 & H4 & H5 & H6 & H7 & H8 & H9 & H10).
    split_and!; try lia; try tauto; [|constructor].
    destruct (fgtb (CustomTarget p) fzero); [right; auto|by left].
Qed.

(** What clamping cannot repair: a positive custom target without a query. *)
Lemma clamped_valid p :
  clamped p ->
  (ValidateAutoscalePolicy p = Ok tt <->
   ~ (fgtb (CustomTarget p) fzero = true /\ CustomPromQuery p = "")).
Proof.
  intros Hp. rewrite validate_ok. destruct Hp. split; [tauto|].
  intros Hn. split_and!; try lia; tauto.
Qed.

(** ** Properties of the policy *)

(** Whatever the columns of a row hold, the policy read from them is
    within the documented bounds with [min <= max]; reading it again changes
    nothing; and it passes the validation of the write path unless a positive
    custom target comes without a query, the one inconsistency clamping keeps. *)
Theorem clamp_normalises (p : AutoscalePolicy) :
  let q := clampAutoscalePolicy p in
  clamped q /\ clampAutoscalePolicy q = q /\
  (ValidateAutoscalePolicy q = Ok tt <->
   ~ (fgtb (CustomTarget q) fzero = true /\ CustomPromQuery q = "")).
Proof.
  intros q. assert (clamped q) as Hq by apply clamp_clamped.
  split_and!; [done|by apply clamped_id|by apply clamped_valid].
Qed.

(** ** Properties of the rows *)

Lemma update_row_other d id guard set id' :
  id <> id' -> (update_row d id guard set).1 !! id' = d !! id'.
Proof.
  intros Hne. unfold update_row. destruct (d !! id) as [row|]; [|done].
  destruct (guard row); [|done]. by apply lookup_insert_ne.
Qed.

(** The compare-and-set: it answers true only when it wrote, and it writes only
    a live enabled row whose count is the expected one. *)
Lemma cas_cases now o d id want expect :
  let r := SetAppReplicasCAS now o d id want expect in
  (r.1 = d /\ r.2 <> Ok true) \/
  (exists row, d !! id = Some row /\ cas_guard expect row = true /\
     r.1 = <[id := set_replicas want now row]> d /\
     (r.2 = Ok true \/ exists e, r.2 = Err e)).
Proof.
  cbv zeta. unfold SetAppReplicasCAS, update_row.
  destruct (d !! id) as [row|] eqn:Hd; [destruct (cas_guard expect row) eqn:Hg|];
    destruct o; cbn; try (left; split; [done|discriminate]); right; exists row; eauto 10.
Qed.

(** The writes of the autoscaler, on any app, from any stale view. *)
Inductive autoscaler_write : apps -> apps -> Prop :=
  | AWrite now o d id want expect :
      autoscaler_write d (SetAppReplicasCAS now o d id want expect).1.

Lemma disabled_row_kept d d' id row :
  rtc autoscaler_write d d' -> d !! id = Some row -> Enabled (policy_cols row) = false ->
  d' !! id = Some row.
Proof.
  intros Hs. induction Hs as [|d0 d1 d2 Hw _ IH]; intros Hrow Hen; [done|].
  apply IH; [|done]. destruct Hw as [now o d id' want expect].
  destruct (cas_cases now o d id' want expect) as [[-> _]|(row' & Hrow' & Hg & -> & _)]; [done|].
  destruct (decide (id' = id)) as [->|Hne]; [|by rewrite lookup_insert_ne].
  unfold cas_guard in Hg. bool_to_prop. simplify_eq. congruence.
Qed.

(** Once a manual scale has taken an app over, no write of the
    autoscaler changes its row: however many decisions, made from views as old
    as one likes, are still on their way, the replica count stays the one the
    operator asked for, and each of them is told that it did not apply. *)
Theorem takeover_sticks now get d id replicas d1 d2 t want expect :
  TakeoverScale now Done get d id replicas = (d1, Ok tt) ->
  rtc autoscaler_write d1 d2 ->
  (exists row, d2 !! id = Some row /\ DesiredReplicas row = replicas /\
     Enabled (policy_cols row) = false) /\
  SetAppReplicasCAS t Done d2 id want expect = (d2, Ok false).
Proof.
  unfold TakeoverScale, update_row. intros Ht Hs.
  destruct (d !! id) as [row|] eqn:Hd; [|by simplify_eq/=].
  destruct (negb (Deleted row)) eqn:Hdel; [|by simplify_eq/=]. simplify_eq/=.
  pose proof (disabled_row_kept _ _ id (take_over replicas now row) Hs (lookup_insert_eq _ _ _)
    eq_refl) as Hrow.
  split; [eauto|]. unfold SetAppReplicasCAS, update_row. rewrite Hrow.
  unfold cas_guard. cbn. by rewrite andb_false_r.
Qed.

(** A policy the store accepts is the policy every later reader
    sees: the row holds the normalised policy, reading does not change it
    further, it is itself valid, and neither the replica count nor any other
    row was touched. *)
Theorem stored_policy_is_read_back now get d id p d' :
  SetAutoscalePolicy now Done get d id p = (d', Ok tt) ->
  exists row row', d !! id = Some row /\ d' !! id = Some row' /\
    GetAutoscalePolicy (Ok (d' !! id)) = Ok (NormalizeAutoscalePolicy p) /\
    ValidateAutoscalePolicy (policy_cols row') = Ok tt /\
    DesiredReplicas row' = DesiredReplicas row /\
    (forall id', id' <> id -> d' !! id' = d !! id').
Proof.
  unfold SetAutoscalePolicy, update_row. intros Hs.
  destruct (ValidateAutoscalePolicy p) as [[]|] eqn:Hv; [|done].
  destruct (d !! id) as [row|] eqn:Hd; [|by simplify_eq/=].
  destruct (negb (Deleted row)); [|by simplify_eq/=]. simplify_eq/=.
  exists row, (set_policy (clampAutoscalePolicy p) now row). rewrite lookup_insert_eq.
  split_and!; try done.
  - simpl. unfold Autoscale. cbn [set_policy policy_cols].
    by rewrite (clamped_id _ (clamp_clamped p)).
  - cbn [set_policy policy_cols]. apply clamped_valid; [apply clamp_clamped|]. intros [Hgt Hq].
    apply validate_ok in Hv as (_ & _ & _ & _ & _ & _ & _ & Hct & _ & Hcq).
    unfold clampAutoscalePolicy in Hgt, Hq. cbn [CustomTarget CustomPromQuery] in Hgt, Hq.
    rewrite Hct in Hgt, Hq. destruct (feqb (CustomTarget p) fzero) eqn:He; [|by apply Hcq].
    unfold fgtb, fltb in Hgt. unfold feqb in He. clear -Hgt He.
    destruct (CustomTarget p) as [[]|[]| |[] m e]; done.
  - intros id' Hne. by apply lookup_insert_ne.
Qed.

Module Witness.

Definition row : App :=
  mkApp "a1" "p1" "app.example" 7 false
    (mkPolicy true 1 10 20 120 (fof_Z 2) 0 fzero "" fzero "per_replica") 1000.
Definition table : apps := {[ "a1" := row ]}.
Definition get (d : apps) : res (option App) := Ok (d !! "a1").
Definition taken : apps := <["a1" := take_over 3 1001 row]> table.

Lemma takeover_sticks_witness :
  (exists row', taken !! "a1" = Some row' /\ DesiredReplicas row' = 3 /\
     Enabled (policy_cols row') = false) /\
  SetAppReplicasCAS 1003 Done taken "a1" 9 3 = (taken, Ok false).
Proof.
  apply (takeover_sticks 1001 get table "a1" 3 taken taken 1003 9 3); [reflexivity|].
  eapply rtc_l; [|apply rtc_refl]. exact (AWrite 1002 Done taken "a1" 8 7).
Defined.

Definition new_policy : AutoscalePolicy :=
  mkPolicy true 0 5 10 60 (fof_Z 3) 50 fzero "up" fzero "".

Lemma stored_policy_is_read_back_witness :
  exists r r', table !! "a1" = Some r /\
    (SetAutoscalePolicy 2000 Done get table "a1" new_policy).1 !! "a1" = Some r' /\
    GetAutoscalePolicy (Ok ((SetAutoscalePolicy 2000 Done get table "a1" new_policy).1 !! "a1")) =
      Ok (NormalizeAutoscalePolicy new_policy) /\
    ValidateAutoscalePolicy (policy_cols r') = Ok tt /\
    DesiredReplicas r' = DesiredReplicas r /\
    (forall id', id' <> "a1" ->
       (SetAutoscalePolicy 2000 Done get table "a1" new_policy).1 !! id' = table !! id').
Proof.
  apply (stored_policy_is_read_back 2000 get table "a1" new_policy).
  vm_compute. reflexivity.
Defined.

End Witness.
