(* ===== verification/Autoscale.v ===== *)
(** * The autoscaling loop
      (internal/controlplane/controller/autoscale.go, autoscale_multi.go)

    The decision kernel over the aggregated load signal, the leader's bounded
    in-memory state, and one tick of the loop on one app with every answer of
    the database, the catalog and Prometheus as an input. Times and durations
    are nanoseconds. *)
From S2P Require Import Prelude GoFloat GoString AutoscalePolicy.
From S2P Require Scheduler.
Local Open Scope Z_scope.

Definition Second : Z := 1000000000.
Definition Minute : Z := 60 * Second.

(** ** The load signal *)

(** catalog.SignalSample. *)
Record SignalSample := mkSample {
  EWMA : float64; RPS : float64; HardRejected : Z; s_Unserved : Z; TsMs : Z; WinMs : Z }.

Record AutoscaleSignal := mkSignal {
  Served : float64; Unserved : float64; TotalRPS : float64; WindowSec : float64;
  PanicReject : bool; HasFresh : bool; HasStaleNonzero : bool }.

Definition autoscaleFreshPast : Z := 20 * Second.
Definition autoscaleFreshFuture : Z := 5 * Second.
Definition autoscaleResourceStreakThreshold : Z := 3.
Definition autoscalePrefetchCooldown : Z := 5 * Minute.

Definition autoscaleSampleFresh (tsMs now : Z) : bool :=
  let ts := tsMs * 1000000 in
  (now - autoscaleFreshPast <=? ts) && (ts <=? now + autoscaleFreshFuture).

(** The locals of the aggregation loop. *)
Record aggregation := mkAgg { agg_sig : AutoscaleSignal; unservedSum : Z; winMsMax : Z }.

Definition sample_nonzero (s : SignalSample) : bool :=
  negb (feqb (EWMA s) fzero) || negb (feqb (RPS s) fzero) ||
  negb (HardRejected s =? 0) || negb (s_Unserved s =? 0).

Section aggregate.
(** [json.Unmarshal] into a sample; [None] is an error. *)
Context (unmarshal : string -> option SignalSample).

(** The body of the loop, for one field. *)
Definition aggregate_field (now : Z) (a : aggregation) (raw : string) : aggregation :=
  let g := agg_sig a in
  match unmarshal raw with
  | None => a
  | Some s =>
      if negb (autoscaleSampleFresh (TsMs s) now) then
        if sample_nonzero s
        then mkAgg (mkSignal (Served g) (Unserved g) (TotalRPS g) (WindowSec g) (PanicReject g)
                      (HasFresh g) true) (unservedSum a) (winMsMax a)
        else a
      else
        mkAgg
          (mkSignal (fadd (Served g) (EWMA s)) (Unserved g) (fadd (TotalRPS g) (RPS s)) (WindowSec g)
             (if 0 <? HardRejected s then true else PanicReject g) true (HasStaleNonzero g))
          (i64 (unservedSum a + s_Unserved s))
          (if winMsMax a <? WinMs s then WinMs s else winMsMax a)
  end.

(** aggregateAutoscaleSignal; each field set lists its values in the order
    the map is iterated in. *)
Definition aggregateAutoscaleSignal (fieldSets : list (list string)) (target now : Z) : AutoscaleSignal :=
  let target := if target <? 1 then 1 else target in
  let a := foldl (foldl (aggregate_field now))
             (mkAgg (mkSignal fzero fzero fzero fzero false false false) 0 0) fieldSets in
  let g := agg_sig a in
  let w := fdiv (fof_Z (winMsMax a)) (fof_Z 1000) in
  mkSignal (Served g) (fceil (fdiv (fof_Z (unservedSum a)) (fof_Z target))) (TotalRPS g)
    (if fleb w fzero then fof_Z 10 else w) (PanicReject g) (HasFresh g) (HasStaleNonzero g).
End aggregate.

(** ** The decision kernel *)

(** ceilDiv; [None] is the run-time panic of a division by zero. *)
Definition ceilDiv (a b : Z) : option Z :=
  if a <=? 0 then Some 0
  else if b =? 0 then None
  else Some (Z.quot (i64 (i64 (a + b) - 1)) b).

(** [int(math.Ceil(f))]. *)
Definition int_ceil (f : float64) : Z := fto_int (fceil f).

Definition over_panic_threshold (policy : AutoscalePolicy) (load : float64) (eff : Z) : bool :=
  fgtb load (fmul (PanicThreshold policy) (fof_Z (i64 (TargetConcurrency policy * eff)))).

Definition computeAutoscaleWant (policy : AutoscalePolicy) (sg : AutoscaleSignal) (ready warming : Z) :
    option (Z * bool) :=
  let eff := i64 (ready + warming) in
  let load := fadd (Served sg) (Unserved sg) in
  want ← ceilDiv (int_ceil load) (TargetConcurrency policy);
  let want := if want <? MinReplicas policy then MinReplicas policy else want in
  let want := if MaxReplicas policy <? want then MaxReplicas policy else want in
  if (0 <? eff) && (PanicReject sg || over_panic_threshold policy load eff) then
    let boosted := Z.max (Z.max want (int_ceil (fmul (PanicThreshold policy) (fof_Z eff)))) (i64 (eff + 2)) in
    let boosted := if MaxReplicas policy <? boosted then MaxReplicas policy else boosted in
    Some (if want <? boosted then boosted else want, true)
  else Some (want, false).

Record extraSignals := mkExtra {
  rpsRate : float64; rpsOK : bool; cpuUtil : float64; cpuOK : bool;
  customValue : float64; customOK : bool }.

Definition no_extra : extraSignals := mkExtra fzero false fzero false fzero false.

(** [byDim]: the wants the code records per dimension. *)
Abbreviation byDimension := (gmap string Z).

(** The three optional dimensions of computeAutoscaleWantMulti. *)
Definition want_rps (policy : AutoscalePolicy) (extra : extraSignals) (st : Z * byDimension) :
    option (Z * byDimension) :=
  let '(want, byDim) := st in
  if (0 <? TargetRPS policy) && rpsOK extra then
    w ← ceilDiv (int_ceil (rpsRate extra)) (TargetRPS policy);
    Some (if want <? w then w else want, <["rps" := w]> byDim)
  else Some st.

Definition want_cpu (policy : AutoscalePolicy) (eff : Z) (extra : extraSignals) (st : Z * byDimension) :
    Z * byDimension :=
  let '(want, byDim) := st in
  if fgtb (TargetCPURatio policy) fzero && cpuOK extra then
    let w := int_ceil (fdiv (fmul (fof_Z eff) (cpuUtil extra)) (TargetCPURatio policy)) in
    (if want <? w then w else want, <["cpu" := w]> byDim)
  else st.

Definition want_custom (policy : AutoscalePolicy) (eff : Z) (extra : extraSignals) (st : Z * byDimension) :
    Z * byDimension :=
  let '(want, byDim) := st in
  if fgtb (CustomTarget policy) fzero && negb (String.eqb (CustomPromQuery policy) "") && customOK extra then
    let w :=
      if String.eqb (CustomMode policy) "absolute"
      then int_ceil (fdiv (customValue extra) (CustomTarget policy))
      else int_ceil (fdiv (fmul (fof_Z eff) (customValue extra)) (CustomTarget policy)) in
    (if want <? w then w else want, <["custom" := w]> byDim)
  else st.

Definition computeAutoscaleWantMulti (policy : AutoscalePolicy) (sg : AutoscaleSignal)
    (ready warming : Z) (extra : extraSignals) : option (Z * bool * byDimension) :=
  let eff := i64 (ready + warming) in
  let load := fadd (Served sg) (Unserved sg) in
  wantConcurrency ← ceilDiv (int_ceil load) (TargetConcurrency policy);
  st ← want_rps policy extra (wantConcurrency, {[ "concurrency" := wantConcurrency ]});
  let '(want, byDim) := want_custom policy eff extra (want_cpu policy eff extra st) in
  let want := if want <? MinReplicas policy then MinReplicas policy else want in
  let want := if MaxReplicas policy <? want then MaxReplicas policy else want in
  if (0 <? eff) && (PanicReject sg || over_panic_threshold policy load eff) then
    let boosted :=
      Z.max (Z.max wantConcurrency (int_ceil (fmul (PanicThreshold policy) (fof_Z eff)))) (i64 (eff + 2)) in
    let boosted := if MaxReplicas policy <? boosted then MaxReplicas policy else boosted in
    Some (if want <? boosted then boosted else want, true, byDim)
  else Some (want, false, byDim).

(** ** The loop's state *)

Record scaleDownEntry := mkEntry { e_want : Z; e_since : Z }.

Record autoscaleLoopState := mkLoop {
  scaleDown : gmap string scaleDownEntry; frozenUntil : gmap string Z;
  frozenNoted : gmap string bool; resourceStreak : gmap string Z;
  prefetched : gmap string Z; policyHash : gmap string string }.

Definition newAutoscaleLoopState : autoscaleLoopState := mkLoop ∅ ∅ ∅ ∅ ∅ ∅.

Definition with_scaleDown (f : gmap string scaleDownEntry -> gmap string scaleDownEntry)
    (s : autoscaleLoopState) : autoscaleLoopState :=
  mkLoop (f (scaleDown s)) (frozenUntil s) (frozenNoted s) (resourceStreak s) (prefetched s) (policyHash s).

Definition clearApp (s : autoscaleLoopState) (appID : string) : autoscaleLoopState :=
  mkLoop (delete appID (scaleDown s)) (delete appID (frozenUntil s)) (delete appID (frozenNoted s))
    (delete appID (resourceStreak s)) (prefetched s) (delete appID (policyHash s)).

Definition is_noted (s : autoscaleLoopState) (appID : string) : bool :=
  default false (frozenNoted s !! appID).

(** collectExpiredFreeze. *)
Definition collectExpiredFreeze (s : autoscaleLoopState) (appID : string) (now : Z) : autoscaleLoopState :=
  match frozenUntil s !! appID with
  | Some until =>
      if negb (now <? until) && negb (is_noted s appID)
      then mkLoop (scaleDown s) (delete appID (frozenUntil s)) (frozenNoted s) (resourceStreak s)
             (prefetched s) (policyHash s)
      else s
  | None => s
  end.

Definition freezeApp (s : autoscaleLoopState) (appID : string) (until : Z) : autoscaleLoopState :=
  mkLoop (scaleDown s) (<[appID := until]> (frozenUntil s)) (frozenNoted s) (resourceStreak s)
    (prefetched s) (policyHash s).

(** frozen: the end of a freeze that is still running. *)
Definition frozen (s : autoscaleLoopState) (appID : string) (now : Z) : option Z :=
  match frozenUntil s !! appID with
  | Some until => if now <? until then Some until else None
  | None => None
  end.

(** markFreezeNoted: whether it had been noted before. *)
Definition markFreezeNoted (s : autoscaleLoopState) (appID : string) : autoscaleLoopState * bool :=
  if is_noted s appID then (s, true)
  else (mkLoop (scaleDown s) (frozenUntil s) (<[appID := true]> (frozenNoted s)) (resourceStreak s)
          (prefetched s) (policyHash s), false).

Definition isFreezeNoted : autoscaleLoopState -> string -> bool := is_noted.

Definition clearFreeze (s : autoscaleLoopState) (appID : string) : autoscaleLoopState :=
  mkLoop (scaleDown s) (delete appID (frozenUntil s)) (delete appID (frozenNoted s)) (resourceStreak s)
    (prefetched s) (policyHash s).

Definition deleteScaleDown (s : autoscaleLoopState) (appID : string) : autoscaleLoopState :=
  with_scaleDown (delete appID) s.

(** scaleDownElapsed. *)
Definition scaleDownElapsed (s : autoscaleLoopState) (appID : string) (want now delaySec : Z) :
    autoscaleLoopState * bool :=
  let start := (with_scaleDown <[appID := mkEntry want now]> s, false) in
  match scaleDown s !! appID with
  | Some e => if e_want e =? want then (s, delaySec * Second <=? now - e_since e) else start
  | None => start
  end.

Definition streak (s : autoscaleLoopState) (appID : string) : Z := default 0 (resourceStreak s !! appID).

(** bumpStreak; [now] is its own reading of the clock. *)
Definition bumpStreak (s : autoscaleLoopState) (appID : string) (freezeFor now : Z) : autoscaleLoopState * Z :=
  let n := i64 (streak s appID + 1) in
  (mkLoop (scaleDown s)
     (if autoscaleResourceStreakThreshold <=? n then <[appID := now + freezeFor]> (frozenUntil s)
      else frozenUntil s)
     (frozenNoted s) (<[appID := n]> (resourceStreak s)) (prefetched s) (policyHash s), n).

Definition clearStreak (s : autoscaleLoopState) (appID : string) : autoscaleLoopState :=
  mkLoop (scaleDown s) (frozenUntil s) (frozenNoted s) (delete appID (resourceStreak s))
    (prefetched s) (policyHash s).

(** prefetchAllowed. *)
Definition prefetchAllowed (s : autoscaleLoopState) (depID : string) (now : Z) : autoscaleLoopState * bool :=
  let mark :=
    let m := <[depID := now]> (prefetched s) in
    (mkLoop (scaleDown s) (frozenUntil s) (frozenNoted s) (resourceStreak s)
       (if 1024 <? Z.of_nat (size m) then {[ depID := now ]} else m) (policyHash s), true) in
  match prefetched s !! depID with
  | Some last => if now - last <? autoscalePrefetchCooldown then (s, false) else mark
  | None => mark
  end.

(** purgeUnknown: each map keeps the entries of the known apps. *)
Definition keep_known {V} (known : gset string) (m : gmap string V) : gmap string V :=
  filter (fun kv : string * V => kv.1 ∈ known) m.

Definition purgeUnknown (s : autoscaleLoopState) (known : gset string) : autoscaleLoopState :=
  mkLoop (keep_known known (scaleDown s)) (keep_known known (frozenUntil s))
    (keep_known known (frozenNoted s)) (keep_known known (resourceStreak s))
    (prefetched s) (keep_known known (policyHash s)).

(** ** One tick *)

Definition autoscaleResultScaleUp : string := "scale_up".
Definition autoscaleResultScaleDown : string := "scale_down".
Definition autoscaleResultHoldSignal : string := "hold_signal".
Definition autoscaleResultHoldRollout : string := "hold_rollout".
Definition autoscaleResultHoldQuota : string := "hold_quota".
Definition autoscaleResultConflict : string := "conflict".
Definition autoscaleResultError : string := "error".

(** What a tick does besides its writes: the decision counter with the hold's
    detail, the decision events, the image pulls it starts. *)
Inductive effect :=
  | Hold (result detail : string)
  | Metric (result : string)
  | Event (action : string) (from to : Z) (reason : string)
  | WarnNotConfigured (detail : string)
  | PullImage (node image : string).

(** The configuration the loop reads; [cfg_placer] is [None] where the
    controller has no placer or no placement service. *)
Record Config := mkCfg {
  AutoscaleInterval : Z; AutoscaleQuotaFreeze : Z; AgentRPCTimeout : Z;
  PrometheusAddr : string; cfg_PrefetchTopK : Z; cfg_placer : option Scheduler.Placer }.

Definition autoscaleInterval (c : Config) : Z :=
  if 0 <? AutoscaleInterval c then AutoscaleInterval c else 10 * Second.
Definition autoscaleQuotaFreeze (c : Config) : Z :=
  if 0 <? AutoscaleQuotaFreeze c then AutoscaleQuotaFreeze c else i64 (10 * autoscaleInterval c).
Definition autoscaleCreateTimeout (c : Config) : Z :=
  if 0 <? AgentRPCTimeout c then AgentRPCTimeout c else 2 * Minute.

Definition noteQuotaRejection (c : Config) (s : autoscaleLoopState) (appID : string) (now : Z) :
    autoscaleLoopState :=
  if String.eqb appID "" then s
  else clearStreak (freezeApp s appID (now + autoscaleQuotaFreeze c)) appID.

Definition notePlacementSuccess (s : autoscaleLoopState) (appID : string) : autoscaleLoopState :=
  if String.eqb appID "" then s else clearStreak s appID.

(** store.SchedulerEvent, as far as it is read here. *)
Record SchedulerEvent := mkSchedEvent { OperationID : string; Kind : string; Reason : string }.

Definition is_resource_rejection (opID : string) (e : SchedulerEvent) : bool :=
  String.eqb (OperationID e) opID && String.eqb (Kind e) "filter_rejection" &&
  has_prefix (Reason e) "resources:".

(** notePlacementFailure; [evs] is the answer of ListSchedulerEvents. *)
Definition notePlacementFailure (c : Config) (s : autoscaleLoopState) (opID appID : string)
    (evs : res (list SchedulerEvent)) (now : Z) : autoscaleLoopState :=
  if String.eqb appID "" then s
  else match evs with
       | Err _ => s
       | Ok evs =>
           if existsb (is_resource_rejection opID) evs
           then (bumpStreak s appID (autoscaleQuotaFreeze c) now).1 else s
       end.

Record Machine := mkMachine {
  m_ID : string; m_DeploymentID : string; m_NodeID : string; DesiredState : string;
  ObservedState : string; ObservedReadiness : string; CreatedAt : Z }.

(** capabilities.IsServingReadiness and machineServing. *)
Definition IsServingReadiness (s : string) : bool := String.eqb s "READY" || String.eqb s "UNCONFIGURED".
Definition machineServing (m : Machine) : bool :=
  if String.eqb (ObservedState m) "RUNNING" || String.eqb (ObservedState m) "PAUSED"
  then IsServingReadiness (ObservedReadiness m) else false.

Record Deployment := mkDeployment { d_ID : string; Generation : Z; ImageRef : string }.
Record Rollout := mkRollout { r_Status : string; FromGeneration : Z; ToGeneration : Z }.

(** deploymentForGeneration, on the answer of ListDeployments. *)
Definition deploymentForGeneration (deps : res (list Deployment)) (gen : Z) : res (option Deployment) :=
  match deps with
  | Err e => Err e
  | Ok l => Ok (find (fun d => Generation d =? gen) l)
  end.

Definition targetDeployment (active : res (option Rollout)) (deps : res (list Deployment))
    (active_dep : res (option Deployment)) : res (option Deployment) :=
  match active with
  | Err e => Err e
  | Ok (Some r) =>
      deploymentForGeneration deps
        (if String.eqb (r_Status r) "ROLLING_BACK" then FromGeneration r else ToGeneration r)
  | Ok None => active_dep
  end.

(** The counting loop: the serving machines of the target generation outside
    draining nodes, and those still starting. *)
Definition count_machine (target : string) (createTimeout now : Z) (inflight draining : gset string)
    (acc : Z * Z) (m : Machine) : Z * Z :=
  let '(ready, warming) := acc in
  if negb (String.eqb (m_DeploymentID m) target) then acc
  else if machineServing m then
    if bool_decide (m_NodeID m ∈ draining) then acc else (ready + 1, warming)
  else if String.eqb (DesiredState m) "DELETED" then acc
  else if String.eqb (ObservedState m) "STOPPED" || String.eqb (ObservedState m) "STOPPING" then acc
  else if (now - CreatedAt m <=? createTimeout) || bool_decide (m_ID m ∈ inflight)
  then (ready, warming + 1) else acc.

Definition count_machines (target : string) (createTimeout now : Z) (inflight draining : gset string)
    (ms : list Machine) : Z * Z :=
  foldl (count_machine target createTimeout now inflight draining) (0, 0) ms.

(** The answer to a Prometheus query: a value, or the text of the error. *)
Abbreviation prom_answer := (float64 + string)%type.

(** fetchExtraSignals: the signals, the reason of a hold and whether to hold. *)
Definition fetchExtraSignals (c : Config) (policy : AutoscalePolicy) (sg : AutoscaleSignal) (eff : Z)
    (cpu custom : prom_answer) : extraSignals * string * bool :=
  let extra :=
    if (0 <? TargetRPS policy) && fgtb (WindowSec sg) fzero
    then mkExtra (fdiv (TotalRPS sg) (WindowSec sg)) true fzero false fzero false else no_extra in
  let needCPU := fgtb (TargetCPURatio policy) fzero in
  let needCustom := fgtb (CustomTarget policy) fzero && negb (String.eqb (CustomPromQuery policy) "") in
  if negb (needCPU || needCustom) then (extra, "", false)
  else if eff =? 0 then (extra, "", false)
  else if String.eqb (PrometheusAddr c) ""
  then (extra, "prometheus not configured for cpu/custom signals", true)
  else
    match (if needCPU
           then match cpu with
                | inr e => inr e
                | inl v => inl (mkExtra (rpsRate extra) (rpsOK extra) v true (customValue extra) (customOK extra))
                end
           else inl extra) with
    | inr e => (extra, "cpu signal unavailable: " +:+ e, true)
    | inl extra =>
        if needCustom then
          match custom with
          | inr e => (extra, "custom signal unavailable: " +:+ e, true)
          | inl v => (mkExtra (rpsRate extra) (rpsOK extra) (cpuUtil extra) (cpuOK extra) v true, "", false)
          end
        else (extra, "", false)
    end.

(** Everything a tick on one app is told by the rest of the system. The table
    at the time of the compare-and-set is the one the tick is given, after what
    the other writers did to it meanwhile. *)
Record Answers := mkAnswers {
  a_active1 : res (option Rollout); a_deployments : res (list Deployment);
  a_active_dep : res (option Deployment); a_active2 : res (option Rollout);
  a_fields : res (list string); a_machines : res (list Machine);
  a_cpu : prom_answer; a_custom : prom_answer;
  a_others : apps -> apps; a_exec : exec_outcome; a_cas_time : Z;
  a_prefetch_time : Z; a_candidates : res (list Scheduler.Node * Scheduler.Request);
  a_view : string -> option string; a_client : string -> bool }.

(** maybePrefetchAutoscale: the pulls it starts. *)
Definition maybePrefetchAutoscale (c : Config) (s : autoscaleLoopState) (target : Deployment)
    (a : Answers) : autoscaleLoopState * list effect :=
  match cfg_placer c with
  | None => (s, [])
  | Some placer =>
      let '(s, allowed) := prefetchAllowed s (d_ID target) (a_prefetch_time a) in
      if negb allowed then (s, [])
      else match a_candidates a with
           | Err _ => (s, [])
           | Ok (nodes, req) =>
               (s, omap (fun n => match a_view a (Scheduler.ID n) with
                                  | Some nomad => if a_client a nomad
                                                  then Some (PullImage (Scheduler.ID n) (ImageRef target))
                                                  else None
                                  | None => None
                                  end)
                        (Scheduler.PrefetchTopK placer req nodes (cfg_PrefetchTopK c)))
           end
  end.

Section tick.
Context (unmarshal : string -> option SignalSample).
(** Go's [%v] of a float64: the shortest text that reads back. *)
Context (fmt_v : float64 -> string).
Context (c : Config).

Definition fmt_bool (b : bool) : string := if b then "true" else "false".

Definition autoscalePolicyHash (p : AutoscalePolicy) : string :=
  join "|" [fmt_bool (Enabled p); itoa (MinReplicas p); itoa (MaxReplicas p);
            itoa (TargetConcurrency p); itoa (ScaleDownDelaySec p); fmt_v (PanicThreshold p);
            itoa (TargetRPS p); fmt_v (TargetCPURatio p); CustomPromQuery p;
            fmt_v (CustomTarget p); CustomMode p].

(** checkPolicy. *)
Definition checkPolicy (s : autoscaleLoopState) (appID : string) (policy : AutoscalePolicy) :
    autoscaleLoopState * bool :=
  let h := autoscalePolicyHash policy in
  if String.eqb (default "" (policyHash s !! appID)) h then (s, false)
  else (mkLoop (delete appID (scaleDown s)) (frozenUntil s) (frozenNoted s) (resourceStreak s)
          (prefetched s) (<[appID := h]> (policyHash s)), true).

(** The quota freeze: hold a scale-up while it runs; after it, note the thaw.
    [inl] means the tick ends here. *)
Definition freeze_gate (s : autoscaleLoopState) (app : App) (want now : Z) :
    (autoscaleLoopState * list effect) + (autoscaleLoopState * list effect) :=
  match frozen s (ID app) now with
  | Some _ =>
      if DesiredReplicas app <? want then
        let '(s, noted) := markFreezeNoted s (ID app) in
        inl (deleteScaleDown s (ID app),
             (if negb noted then [Event "freeze" (DesiredReplicas app) want "quota"] else []) ++
             [Hold autoscaleResultHoldQuota "quota frozen"])
      else inr (s, [])
  | None =>
      if isFreezeNoted s (ID app)
      then inr (clearFreeze s (ID app), [Event "unfreeze" (DesiredReplicas app) want "quota_recovered"])
      else inr (s, [])
  end.

(** The final switch: scale up at once, scale down after the stable window. *)
Definition apply_want (s : autoscaleLoopState) (d : apps) (app : App) (policy : AutoscalePolicy)
    (sg : AutoscaleSignal) (target : Deployment) (want : Z) (panic : bool) (now : Z) (a : Answers) :
    autoscaleLoopState * apps * list effect :=
  let id := ID app in
  let cas (d : apps) := SetAppReplicasCAS (a_cas_time a) (a_exec a) d id want (DesiredReplicas app) in
  if DesiredReplicas app <? want then
    match cas (a_others a d) with
    | (d, Err _) => (s, d, [Hold autoscaleResultError "cas store error"])
    | (d, Ok false) => (deleteScaleDown s id, d, [Hold autoscaleResultConflict "cas conflict"])
    | (d, Ok true) =>
        let '(s, pulls) := maybePrefetchAutoscale c (deleteScaleDown s id) target a in
        (s, d, [Metric autoscaleResultScaleUp;
                Event "scale_up" (DesiredReplicas app) want (if panic then "panic" else "load")] ++ pulls)
    end
  else if want <? DesiredReplicas app then
    if HasStaleNonzero sg
    then (deleteScaleDown s id, d, [Hold autoscaleResultHoldSignal "stale nonzero signal"])
    else
      let '(s, elapsed) := scaleDownElapsed s id want now (ScaleDownDelaySec policy) in
      if negb elapsed then (s, d, [Hold autoscaleResultHoldSignal "stable window"])
      else if (want =? 0) && fgtb (TotalRPS sg) fzero
      then (deleteScaleDown s id, d,
            [Hold autoscaleResultHoldSignal "inflight rps blocks scale-to-zero"])
      else
        match cas (a_others a d) with
        | (d, Err _) => (s, d, [Hold autoscaleResultError "cas store error"])
        | (d, Ok false) => (deleteScaleDown s id, d, [Hold autoscaleResultConflict "cas conflict"])
        | (d, Ok true) =>
            (deleteScaleDown s id, d,
             [Metric autoscaleResultScaleDown;
              Event "scale_down" (DesiredReplicas app) want "below_target"])
        end
  else (deleteScaleDown s id, d, []).

(** What the tick decides on, once the gates have passed. *)
Record Reading := mkReading {
  rd_target : Deployment; rd_signal : AutoscaleSignal; rd_ready : Z; rd_warming : Z;
  rd_extra : extraSignals }.

(** The gates of reconcileAutoscaleApp before the decision, in order: the
    reading, or the hold of the first gate that fails with whether it resets
    the stable window. *)
Definition gather (app : App) (policy : AutoscalePolicy) (now : Z) (inflight draining : gset string)
    (a : Answers) : (bool * list effect) + Reading :=
  match targetDeployment (a_active1 a) (a_deployments a) (a_active_dep a) with
  | Err _ | Ok None => inl (false, [Hold autoscaleResultError "target deployment missing"])
  | Ok (Some target) =>
  match a_active2 a with
  | Err _ | Ok (Some _) => inl (true, [Hold autoscaleResultHoldRollout "rollout active or unknown"])
  | Ok None =>
  match (if String.eqb (Hostname app) "" then Ok [] else a_fields a) with
  | Err _ => inl (true, [Hold autoscaleResultHoldSignal "signal read failed"])
  | Ok fields =>
      let sg := aggregateAutoscaleSignal unmarshal [fields] (TargetConcurrency policy) now in
      if negb (HasFresh sg)
      then inl (true, [Hold autoscaleResultHoldSignal
             "no fresh signal (edge restarted or never reported recovers on next real request)"])
      else match a_machines a with
      | Err _ => inl (true, [Hold autoscaleResultError "list machines failed"])
      | Ok machines =>
          let '(ready, warming) :=
            count_machines (d_ID target) (autoscaleCreateTimeout c) now inflight draining machines in
          let '(extra, holdReason, hold) :=
            fetchExtraSignals c policy sg (i64 (ready + warming)) (a_cpu a) (a_custom a) in
          if hold
          then inl (true, [Hold autoscaleResultHoldSignal holdReason] ++
                          (if index holdReason "not configured" is Some _
                           then [WarnNotConfigured holdReason] else []))
          else inr (mkReading target sg ready warming extra)
      end
  end end end.

(** reconcileAutoscaleApp; [None] is a run-time panic. *)
Definition reconcileAutoscaleApp (s : autoscaleLoopState) (d : apps) (app : App) (now : Z)
    (inflight draining : gset string) (a : Answers) :
    option (autoscaleLoopState * apps * list effect) :=
  let policy := Autoscale app in
  if negb (Enabled policy) || Deleted app then Some (clearApp s (ID app), d, [])
  else
    let s := (checkPolicy s (ID app) policy).1 in
    let s := collectExpiredFreeze s (ID app) now in
    match gather app policy now inflight draining a with
    | inl (reset, effects) =>
        Some (if reset then deleteScaleDown s (ID app) else s, d, effects)
    | inr r =>
        '(want, panic, _) ← computeAutoscaleWantMulti policy (rd_signal r) (rd_ready r) (rd_warming r)
                              (rd_extra r);
        match freeze_gate s app want now with
        | inl (s, effects) => Some (s, d, effects)
        | inr (s, effects) =>
            let '(s, d, effects') :=
              apply_want s d app policy (rd_signal r) (rd_target r) want panic now a in
            Some (s, d, effects ++ effects')
        end
    end.

Record Operation := mkOp { op_Kind : string; op_MachineID : string }.
Record StoreNode := mkStoreNode { n_ID : string; NomadNodeID : string; n_Draining : bool }.

Fixpoint reconcile_apps (s : autoscaleLoopState) (d : apps) (now : Z) (inflight draining : gset string)
    (l : list (App * Answers)) : option (autoscaleLoopState * apps * list effect) :=
  match l with
  | [] => Some (s, d, [])
  | (app, a) :: l' =>
      '(s, d, e) ← reconcileAutoscaleApp s d app now inflight draining a;
      '(s, d, e') ← reconcile_apps s d now inflight draining l';
      Some (s, d, e ++ e')
  end.

(** reconcileAutoscale: the answers of the three lists, and those each app's
    tick gets. *)
Definition reconcileAutoscale (s : autoscaleLoopState) (d : apps) (now : Z)
    (listed : res (list (App * Answers))) (ops : res (list Operation)) (nodes : res (list StoreNode)) :
    option (autoscaleLoopState * apps * list effect * res unit) :=
  match listed with
  | Err e => Some (s, d, [], Err e)
  | Ok listed =>
      let s := purgeUnknown s (list_to_set (map (fun aa : App * Answers => ID aa.1) listed)) in
      let inflight : gset string :=
        match ops with
        | Ok ops => list_to_set (map op_MachineID (List.filter (fun o => String.eqb (op_Kind o) "create") ops))
        | Err _ => ∅
        end in
      let draining : gset string :=
        match nodes with
        | Ok nodes => list_to_set (concat (map (fun n => [n_ID n; NomadNodeID n])
                                             (List.filter n_Draining nodes)))
        | Err _ => ∅
        end in
      '(s, d, e) ← reconcile_apps s d now inflight draining listed;
      Some (s, d, e, Ok tt)
  end.
End tick.

(** ** The decision kernel: lemmas *)

Lemma ceilDiv_pos a b : 1 <= b -> exists w, ceilDiv a b = Some w.
Proof.
  intros Hb. unfold ceilDiv. destruct (a <=? 0); [eauto|].
  destruct (Z.eqb_spec b 0); [lia|eauto].
Qed.

Lemma ceilDiv_spec a b w n :
  ceilDiv a b = Some w -> 0 <= a <= 2 ^ 62 -> 1 <= b < 2 ^ 61 -> 0 <= n -> (w <= n <-> a <= n * b).
Proof.
  unfold ceilDiv. intros Hw Ha Hb Hn. destruct (Z.leb_spec a 0); [simplify_eq; nia|].
  destruct (Z.eqb_spec b 0); [lia|]. injection Hw as <-.
  rewrite (i64_small (a + b)) by lia. rewrite i64_small by lia.
  rewrite Z.quot_div_nonneg by lia.
  pose proof (Z.div_mod (a + b - 1) b) as Hdm. pose proof (Z.mod_pos_bound (a + b - 1) b).
  set (q := (a + b - 1) / b) in *. set (r := (a + b - 1) mod b) in *. nia.
Qed.

(** Clamping into the replica bounds. *)
Definition clamp_replicas (policy : AutoscalePolicy) (w : Z) : Z :=
  let w := if w <? MinReplicas policy then MinReplicas policy else w in
  if MaxReplicas policy <? w then MaxReplicas policy else w.

Lemma clamp_replicas_range policy w :
  MinReplicas policy <= MaxReplicas policy ->
  MinReplicas policy <= clamp_replicas policy w <= MaxReplicas policy.
Proof. intros. unfold clamp_replicas. repeat case_match; bool_to_prop; lia. Qed.

Lemma want_rps_total policy extra st : exists st', want_rps policy extra st = Some st'.
Proof.
  destruct st as [w m]. unfold want_rps.
  destruct (Z.ltb_spec 0 (TargetRPS policy)) as [Hr|Hr]; simpl; [|eauto].
  destruct (rpsOK extra); [|eauto].
  destruct (ceilDiv_pos (int_ceil (rpsRate extra)) (TargetRPS policy)) as [w' ->]; [lia|].
  simpl. eauto.
Qed.

Lemma clamp_below w boosted max :
  exists b, (if w <? (if max <? boosted then max else boosted)
             then (if max <? boosted then max else boosted) else w) = Z.max w (Z.min b max).
Proof.
  exists boosted. destruct (Z.ltb_spec max boosted); case_match eqn:Hw; bool_to_prop; lia.
Qed.

(** What the kernel computes once the dimensions are known. *)
Lemma multi_unfold policy sg ready warming extra r :
  computeAutoscaleWantMulti policy sg ready warming extra = Some r ->
  exists wc want, ceilDiv (int_ceil (fadd (Served sg) (Unserved sg))) (TargetConcurrency policy) = Some wc /\
    (r.1.1 = clamp_replicas policy want \/
     r.1.2 = true /\ exists b, r.1.1 = Z.max (clamp_replicas policy want) (Z.min b (MaxReplicas policy))).
Proof.
  unfold computeAutoscaleWantMulti. cbv zeta.
  destruct (ceilDiv _ _) as [wc|] eqn:Hc; [|done]. cbn [mbind option_bind].
  destruct (want_rps _ _ _) as [st|]; [|done]. cbn [mbind option_bind].
  destruct (want_custom _ _ _ _) as [want byDim].
  intros Hr. exists wc, want. split; [done|].
  fold (clamp_replicas policy want) in Hr. destruct (_ && _) in Hr; simplify_eq/=; [right|by left].
  split; [done|]. apply clamp_below.
Qed.

(** ** Properties of the decision *)

(** Whatever the row, the signal, the fleet and the external
    dimensions are (overflowing, NaN and negative samples included), the kernel
    does not panic and the count it wants is within the policy's bounds. *)
Lemma want_in_bounds p sg ready warming extra :
  let policy := clampAutoscalePolicy p in
  exists want panic byDim,
    computeAutoscaleWantMulti policy sg ready warming extra = Some (want, panic, byDim) /\
    MinReplicas policy <= want <= MaxReplicas policy.
Proof.
  intros policy. destruct (clamp_clamped p) as [Hmin Hmax Ht _ _ _ _ _ _ _]. fold policy in Hmin, Hmax, Ht.
  clearbody policy.
  destruct (computeAutoscaleWantMulti policy sg ready warming extra) as [[[want panic] byDim]|] eqn:Hr.
  - exists want, panic, byDim. split; [done|].
    apply multi_unfold in Hr as (wc & w & _ & Hw). cbn [fst snd] in Hw.
    pose proof (clamp_replicas_range policy w ltac:(lia)).
    destruct Hw as [-> | (_ & b & ->)]; lia.
  - exfalso. revert Hr. unfold computeAutoscaleWantMulti. cbv zeta.
    destruct (ceilDiv_pos (int_ceil (fadd (Served sg) (Unserved sg))) (TargetConcurrency policy))
      as [wc ->]; [lia|]. cbn [mbind option_bind].
    destruct (want_rps_total policy extra (wc, {["concurrency" := wc]})) as [st ->].
    cbn [mbind option_bind]. destruct (want_custom _ _ _ _) as [want byDim].
    by destruct (_ && _).
Qed.

(** With every optional dimension off the multi-signal kernel decides
    exactly what the single-signal one does, panic included. *)
Theorem multi_extends_single policy sg ready warming extra :
  MinReplicas policy <= MaxReplicas policy ->
  TargetRPS policy <= 0 -> fgtb (TargetCPURatio policy) fzero = false ->
  fgtb (CustomTarget policy) fzero = false ->
  fst <$> computeAutoscaleWantMulti policy sg ready warming extra =
  computeAutoscaleWant policy sg ready warming.
Proof.
  intros Hmm Hr Hcpu Hcus. unfold computeAutoscaleWantMulti, computeAutoscaleWant. cbv zeta.
  destruct (ceilDiv _ _) as [wc|] eqn:Hc; [|done]. cbn [mbind option_bind].
  unfold want_rps, want_cpu, want_custom. rewrite (proj2 (Z.ltb_ge 0 (TargetRPS policy))) by lia.
  cbn [andb mbind option_bind]. rewrite Hcpu, Hcus. cbn [andb].
  fold (clamp_replicas policy wc).
  set (x := int_ceil (fmul _ _)). set (y := i64 (i64 _ + 2)).
  destruct (_ && _); cbn [fmap option_fmap option_map fst]; [|done].
  do 2 f_equal. unfold clamp_replicas. repeat case_match; bool_to_prop; lia.
Qed.

(** The optional dimensions only ever raise the want. *)
Lemma dimensions_raise policy eff extra wc byDim st :
  want_rps policy extra (wc, byDim) = Some st ->
  wc <= (want_custom policy eff extra (want_cpu policy eff extra st)).1.
Proof.
  intros Hst. assert (wc <= st.1) as Hrps.
  { revert Hst. unfold want_rps. destruct (_ && _); [|by intros [= <-]].
    destruct (ceilDiv _ _); [|done]. cbn [mbind option_bind]. intros [= <-].
    cbn [fst]. case_match; bool_to_prop; lia. }
  destruct st as [w1 m1]. cbn [fst] in Hrps. unfold want_cpu.
  destruct (_ && _).
  - unfold want_custom. destruct (_ && _); cbn [fst]; repeat case_match; bool_to_prop; lia.
  - unfold want_custom. destruct (_ && _); cbn [fst]; repeat case_match; bool_to_prop; lia.
Qed.

(** The count the kernel wants carries the load: [m * 2^e], the exact
    value of the double [served + unserved], is at most [target_concurrency]
    per replica unless the policy's maximum is what binds; and, with no other
    dimension on and no panic, one replica fewer would not carry it or would be
    below the minimum. Exact up to 2^62 requests, rounding included. *)
Theorem want_covers_load policy sg ready warming extra want panic byDim m e :
  clamped policy ->
  fadd (Served sg) (Unserved sg) = S754_finite false m e ->
  Zpos (digits m) <= 53 -> finite_le_Z m e (2 ^ 62) ->
  computeAutoscaleWantMulti policy sg ready warming extra = Some (want, panic, byDim) ->
  (finite_le_Z m e (want * TargetConcurrency policy) \/ want = MaxReplicas policy) /\
  (panic = false -> extra = no_extra ->
   want = MinReplicas policy \/ ~ finite_le_Z m e ((want - 1) * TargetConcurrency policy)).
Proof.
  intros [Hmin Hmax Ht _ _ _ _ _ _ _] Hload Hd Hfit Hc.
  assert (Hceil : forall n, int_ceil (fadd (Served sg) (Unserved sg)) <= n <-> finite_le_Z m e n).
  { intros n. rewrite Hload. by apply fto_int_ceil. }
  set (L := int_ceil (fadd (Served sg) (Unserved sg))) in *.
  assert (0 <= L <= 2 ^ 62) as HL.
  { split; [|by apply Hceil]. apply Z.nlt_ge. intros Hlt. assert (L <= -1) as Hm1 by lia.
    apply Hceil in Hm1. unfold finite_le_Z in Hm1. destruct (Z.leb_spec 0 e).
    - assert (0 < 2 ^ e) by (apply Z.pow_pos_nonneg; lia). nia.
    - assert (0 < 2 ^ (- e)) by (apply Z.pow_pos_nonneg; lia). nia. }
  revert Hc. unfold computeAutoscaleWantMulti. cbv zeta. fold L.
  destruct (ceilDiv L (TargetConcurrency policy)) as [wc|] eqn:Hwc; [|done]. cbn [mbind option_bind].
  assert (forall n, 0 <= n -> wc <= n <-> finite_le_Z m e (n * TargetConcurrency policy)) as Hspec.
  { intros n Hn. rewrite <- Hceil. apply (ceilDiv_spec L _ _ n Hwc); lia. }
  destruct (want_rps _ _ _) as [st|] eqn:Hst; [|done]. cbn [mbind option_bind].
  pose proof (dimensions_raise policy (i64 (ready + warming)) _ _ _ _ Hst) as Hraise.
  assert (extra = no_extra ->
    want_custom policy (i64 (ready + warming)) extra (want_cpu policy (i64 (ready + warming)) extra st) =
    (wc, {["concurrency" := wc]})) as Hplain.
  { intros ->. revert Hst. unfold want_rps. cbn [no_extra rpsOK]. rewrite andb_false_r. intros [= <-].
    unfold want_cpu. cbn [cpuOK]. rewrite andb_false_r. unfold want_custom. cbn [customOK].
    by rewrite andb_false_r. }
  destruct (want_custom _ _ _ _) as [w bd]. cbn [fst] in Hraise. fold (clamp_replicas policy w).
  assert (wc <= clamp_replicas policy w \/ clamp_replicas policy w = MaxReplicas policy) as Hcl.
  { unfold clamp_replicas. repeat case_match; bool_to_prop; lia. }
  pose proof (clamp_replicas_range policy w ltac:(lia)) as Hrange.
  destruct (_ && _); intros [= <- <- <-].
  - destruct (clamp_below (clamp_replicas policy w)
      (Z.max (Z.max wc (int_ceil (fmul (PanicThreshold policy) (fof_Z (i64 (ready + warming))))))
         (i64 (i64 (ready + warming) + 2))) (MaxReplicas policy)) as [b ->].
    split; [|done]. destruct Hcl as [Hcl|Hcl]; [left; apply Hspec; lia|right; lia].
  - split; [destruct Hcl as [Hcl|Hcl]; [left; apply Hspec; lia|by right]|].
    intros _ Hex. apply Hplain in Hex as [= -> ->].
    destruct (Z.eq_dec (clamp_replicas policy wc) (MinReplicas policy)) as [|Hne]; [by left|].
    right. intros Hle. apply Hspec in Hle; [|lia].
    unfold clamp_replicas in *. repeat case_match; bool_to_prop; lia.
Qed.

(** ** The tick: lemmas *)

Section tick_facts.
Context (unmarshal : string -> option SignalSample) (fmt_v : float64 -> string) (c : Config).

Abbreviation tick := (reconcileAutoscaleApp unmarshal fmt_v c).
Abbreviation hash p := (autoscalePolicyHash fmt_v p).

(** The state after the policy comparison and the expired-freeze sweep. *)
Definition entered (s : autoscaleLoopState) (app : App) (now : Z) : autoscaleLoopState :=
  collectExpiredFreeze (checkPolicy fmt_v s (ID app) (Autoscale app)).1 (ID app) now.

Lemma hash_nonempty p : hash p <> "".
Proof. unfold autoscalePolicyHash. simpl. by destruct (Enabled p). Qed.

Lemma entered_hash s app now : policyHash (entered s app now) !! ID app = Some (hash (Autoscale app)).
Proof.
  unfold entered, collectExpiredFreeze, checkPolicy.
  destruct (String.eqb_spec (default "" (policyHash s !! ID app)) (hash (Autoscale app))) as [Heq|Hne];
    cbn [fst].
  - assert (policyHash s !! ID app = Some (hash (Autoscale app))) as Hh.
    { destruct (policyHash s !! ID app) as [h|]; simpl in Heq; [by subst|].
      exfalso. by apply (hash_nonempty (Autoscale app)). }
    destruct (frozenUntil s !! ID app); [|done]. by destruct (_ && _).
  - assert (forall x, <[ID app := x]> (policyHash s) !! ID app = Some x) as Hins
      by (intros; apply lookup_insert_eq).
    match goal with |- context [frozenUntil ?z !! _] => destruct (frozenUntil z !! ID app) end;
      [destruct (_ && _)|]; apply Hins.
Qed.

(** Entering a tick keeps the window entry only under the same policy. *)
Lemma entered_entry s app now e :
  scaleDown (entered s app now) !! ID app = Some e ->
  scaleDown s !! ID app = Some e /\ policyHash s !! ID app = Some (hash (Autoscale app)).
Proof.
  unfold entered. intros He.
  assert (scaleDown (checkPolicy fmt_v s (ID app) (Autoscale app)).1 !! ID app = Some e) as He'.
  { revert He. unfold collectExpiredFreeze. case_match; [|done]. by destruct (_ && _). }
  clear He. revert He'. unfold checkPolicy.
  destruct (String.eqb_spec (default "" (policyHash s !! ID app)) (hash (Autoscale app))) as [Heq|Hne];
    cbn [fst scaleDown].
  - intros He. split; [done|]. destruct (policyHash s !! ID app) as [h|]; simpl in Heq; [by subst|].
    exfalso. by apply (hash_nonempty (Autoscale app)).
  - by rewrite lookup_delete_eq.
Qed.

Lemma entered_frozen s app now until :
  frozen s (ID app) now = Some until -> frozen (entered s app now) (ID app) now = Some until.
Proof.
  assert (frozenUntil (checkPolicy fmt_v s (ID app) (Autoscale app)).1 = frozenUntil s) as Hc
    by (unfold checkPolicy; by case_match).
  unfold entered, frozen, collectExpiredFreeze. rewrite Hc. intros Hf.
  destruct (frozenUntil s !! ID app) as [u|] eqn:Hu; [|done].
  destruct (now <? u) eqn:Hlt; [|done]. simpl. by rewrite Hc, Hu, Hlt.
Qed.

(** The switch: what it leaves of the window, and when it writes. *)
Lemma scaleDownElapsed_cases s id want now delay :
  let r := scaleDownElapsed s id want now delay in
  policyHash r.1 = policyHash s /\
  exists e, scaleDown r.1 !! id = Some e /\ e_want e = want /\
    (scaleDown s !! id = Some e \/ e_since e = now /\ r.2 = false) /\
    (r.2 = true -> delay * Second <= now - e_since e).
Proof.
  cbv zeta. unfold scaleDownElapsed.
  destruct (scaleDown s !! id) as [e|] eqn:He; [destruct (Z.eqb_spec (e_want e) want) as [Hw|Hw]|].
  - cbn [fst snd]. split; [done|]. exists e. split_and!; [done|done|by left|].
    intros Hle. by apply Z.leb_le.
  - cbn [fst snd with_scaleDown policyHash scaleDown]. split; [done|].
    exists (mkEntry want now). rewrite lookup_insert_eq. split_and!; try done. by right.
  - cbn [fst snd with_scaleDown policyHash scaleDown]. split; [done|].
    exists (mkEntry want now). rewrite lookup_insert_eq. split_and!; try done. by right.
Qed.

Lemma prefetch_keeps s target a :
  scaleDown (maybePrefetchAutoscale c s target a).1 = scaleDown s /\
  policyHash (maybePrefetchAutoscale c s target a).1 = policyHash s.
Proof.
  unfold maybePrefetchAutoscale. destruct (cfg_placer c); [|done]. unfold prefetchAllowed.
  destruct (prefetched s !! d_ID target) as [last|]; [destruct (_ <? _)|]; cbn [negb]; [done|..];
    by destruct (a_candidates a) as [[nodes req]|].
Qed.

(** The window after the switch, for the app itself. *)
Lemma apply_want_entry s d app policy sg target want panic now a s' d' eff e :
  apply_want c s d app policy sg target want panic now a = (s', d', eff) ->
  policyHash s' = policyHash s /\
  (scaleDown s' !! ID app = Some e ->
   (want < DesiredReplicas app /\ HasStaleNonzero sg = false /\ e_want e = want /\
    (scaleDown s !! ID app = Some e \/ e_since e = now)) \/
   (DesiredReplicas app < want /\ a_exec a <> Done /\ scaleDown s !! ID app = Some e)).
Proof.
  unfold apply_want. cbv zeta.
  destruct (Z.ltb_spec (DesiredReplicas app) want) as [Hup|Hup].
  - destruct (SetAppReplicasCAS _ _ _ _ _ _) as [d0 r] eqn:Hcas.
    destruct r as [[]|err].
    + pose proof (prefetch_keeps (deleteScaleDown s (ID app)) target a) as [Hp1 Hp2].
      destruct (maybePrefetchAutoscale c (deleteScaleDown s (ID app)) target a) as [s1 pulls].
      cbn [fst] in Hp1, Hp2. intros [= <- <- <-]. split; [by rewrite Hp2|].
      rewrite Hp1. cbn [deleteScaleDown with_scaleDown scaleDown]. by rewrite lookup_delete_eq.
    + intros [= <- <- <-]. split; [done|].
      cbn [deleteScaleDown with_scaleDown scaleDown]. by rewrite lookup_delete_eq.
    + intros [= <- <- <-]. split; [done|]. intros He. right. split; [done|]. split; [|done]. intros Hd. rewrite Hd in Hcas.
      unfold SetAppReplicasCAS in Hcas. by simplify_eq/=.
  - destruct (Z.ltb_spec want (DesiredReplicas app)) as [Hdn|Hdn].
    + destruct (HasStaleNonzero sg).
      { intros [= <- <- <-]. split; [done|].
        cbn [deleteScaleDown with_scaleDown scaleDown]. by rewrite lookup_delete_eq. }
      destruct (scaleDownElapsed_cases s (ID app) want now (ScaleDownDelaySec policy))
        as (Hh & e0 & He0 & Hw & Hor & _).
      destruct (scaleDownElapsed s (ID app) want now (ScaleDownDelaySec policy)) as [s1 el].
      cbn [fst snd] in *.
      assert (forall s2, policyHash s2 = policyHash s1 ->
        (scaleDown s2 = scaleDown s1 \/ scaleDown s2 !! ID app = None) -> policyHash s2 = policyHash s /\
        (scaleDown s2 !! ID app = Some e ->
         (want < DesiredReplicas app /\ false = false /\ e_want e = want /\
          (scaleDown s !! ID app = Some e \/ e_since e = now)) \/
         (DesiredReplicas app < want /\ a_exec a <> Done /\ scaleDown s !! ID app = Some e))) as Hfin.
      { intros s2 Hs2 Hd2. split; [congruence|]. destruct Hd2 as [-> | ->]; [|done].
        rewrite He0. intros [= ->]. left. split_and!; [lia|done|done|]. tauto. }
      assert (scaleDown (deleteScaleDown s1 (ID app)) !! ID app = None) as Hdel
        by apply lookup_delete_eq.
      destruct el; cbn [negb].
      * destruct (_ && _); [intros [= <- <- <-]; apply Hfin; auto|].
        destruct (SetAppReplicasCAS _ _ _ _ _ _) as [d0 [[]|err]]; intros [= <- <- <-]; apply Hfin; auto.
      * intros [= <- <- <-]. apply Hfin; auto.
    + intros [= <- <- <-]. split; [done|].
      cbn [deleteScaleDown with_scaleDown scaleDown]. by rewrite lookup_delete_eq.
Qed.

(** Nothing the tick does to the window or the fingerprint of one app shows
    in those of another. *)
Definition same_off (id : string) (s s' : autoscaleLoopState) : Prop :=
  forall id', id' <> id ->
    scaleDown s' !! id' = scaleDown s !! id' /\ policyHash s' !! id' = policyHash s !! id'.

#[local] Instance same_off_preorder id : PreOrder (same_off id).
Proof.
  split; [by intros s id'|]. intros s1 s2 s3 H12 H23 id' Hne.
  destruct (H12 id' Hne), (H23 id' Hne). split; congruence.
Qed.

Ltac off :=
  intros ?id' ?Hne; cbn [scaleDown policyHash with_scaleDown deleteScaleDown clearFreeze fst];
  rewrite ?lookup_delete_ne, ?lookup_insert_ne by done; done.

Lemma entered_off s app now : same_off (ID app) s (entered s app now).
Proof.
  unfold entered. etransitivity; [|unfold collectExpiredFreeze; case_match; [case_match|]; try reflexivity; off].
  unfold checkPolicy. case_match; off.
Qed.

Lemma deleteScaleDown_off s id : same_off id s (deleteScaleDown s id).
Proof. off. Qed.

Lemma apply_want_off s d app policy sg target want panic now a s' d' eff :
  apply_want c s d app policy sg target want panic now a = (s', d', eff) -> same_off (ID app) s s'.
Proof.
  unfold apply_want. cbv zeta. destruct (_ <? want).
  - destruct (SetAppReplicasCAS _ _ _ _ _ _) as [d0 [[]|err]].
    + pose proof (prefetch_keeps (deleteScaleDown s (ID app)) target a) as [Hp1 Hp2].
      destruct (maybePrefetchAutoscale c (deleteScaleDown s (ID app)) target a) as [s1 pulls].
      cbn [fst] in *. intros [= <- <- <-]. intros id' Hne. rewrite Hp1, Hp2.
      by apply deleteScaleDown_off.
    + intros [= <- <- <-]. apply deleteScaleDown_off.
    + by intros [= <- <- <-].
  - destruct (want <? _); [|intros [= <- <- <-]; apply deleteScaleDown_off].
    destruct (HasStaleNonzero sg); [intros [= <- <- <-]; apply deleteScaleDown_off|].
    assert (same_off (ID app) s (scaleDownElapsed s (ID app) want now (ScaleDownDelaySec policy)).1)
      as Hel by (unfold scaleDownElapsed; repeat case_match; off).
    destruct (scaleDownElapsed _ _ _ _ _) as [s1 el]. cbn [fst] in Hel.
    assert (same_off (ID app) s (deleteScaleDown s1 (ID app))) as Hdel
      by (etransitivity; [exact Hel|apply deleteScaleDown_off]).
    destruct el; cbn [negb]; [|by intros [= <- <- <-]].
    destruct (_ && _); [by intros [= <- <- <-]|].
    destruct (SetAppReplicasCAS _ _ _ _ _ _) as [d0 [[]|err]]; by intros [= <- <- <-].
Qed.

(** The quota freeze: it stops a scale-up while it runs, and lets the rest
    through with the window as it was. *)
Lemma freeze_gate_cases s app want now :
  match freeze_gate s app want now with
  | inl (s', _) => frozen s (ID app) now <> None /\ DesiredReplicas app < want /\
      scaleDown s' !! ID app = None /\ policyHash s' = policyHash s /\ same_off (ID app) s s'
  | inr (s', _) => (frozen s (ID app) now <> None -> want <= DesiredReplicas app) /\
      scaleDown s' = scaleDown s /\ policyHash s' = policyHash s
  end.
Proof.
  unfold freeze_gate. destruct (frozen s (ID app) now) as [until|] eqn:Hf.
  - destruct (Z.ltb_spec (DesiredReplicas app) want).
    + unfold markFreezeNoted. destruct (is_noted s (ID app)).
      * split_and!; try done; [apply lookup_delete_eq|apply deleteScaleDown_off].
      * split_and!; try done; [apply lookup_delete_eq|off].
    + split_and!; done.
  - by destruct (isFreezeNoted s (ID app)).
Qed.

(** The want of a tick that reaches the scale-down branch with a trustworthy
    signal. *)
Definition lower_want (app : App) (now : Z) (inflight draining : gset string) (a : Answers) : option Z :=
  match gather unmarshal c app (Autoscale app) now inflight draining a with
  | inl _ => None
  | inr r =>
      '(want, _, _) ← computeAutoscaleWantMulti (Autoscale app) (rd_signal r) (rd_ready r)
                        (rd_warming r) (rd_extra r);
      if (want <? DesiredReplicas app) && negb (HasStaleNonzero (rd_signal r)) then Some want else None
  end.

(** The two errors that end a tick without resetting the window: it found no target
    deployment, or it wanted more replicas than the app has and the database did not
    acknowledge its compare-and-set. *)
Definition tick_error (app : App) (now : Z) (inflight draining : gset string) (a : Answers) : Prop :=
  (exists eff, gather unmarshal c app (Autoscale app) now inflight draining a = inl (false, eff)) \/
  (exists r want panic bd, gather unmarshal c app (Autoscale app) now inflight draining a = inr r /\
     computeAutoscaleWantMulti (Autoscale app) (rd_signal r) (rd_ready r) (rd_warming r) (rd_extra r) =
       Some (want, panic, bd) /\
     DesiredReplicas app < want /\ a_exec a <> Done).

(** What a window entry that survives a tick says of it. *)
Lemma tick_entry s d app now inflight draining a s' d' eff e :
  tick s d app now inflight draining a = Some (s', d', eff) ->
  scaleDown s' !! ID app = Some e ->
  policyHash s' !! ID app = Some (hash (Autoscale app)) /\
  (lower_want app now inflight draining a = Some (e_want e) /\ e_since e = now \/
   scaleDown s !! ID app = Some e /\ policyHash s !! ID app = Some (hash (Autoscale app)) /\
   (lower_want app now inflight draining a = Some (e_want e) \/
    tick_error app now inflight draining a)).
Proof.
  unfold reconcileAutoscaleApp. destruct (_ || _) eqn:Hoff.
  { intros [= <- <- <-]. unfold clearApp. cbn [scaleDown]. by rewrite lookup_delete_eq. }
  fold (entered s app now).
  pose proof (entered_hash s app now) as Hh. pose proof (entered_entry s app now) as Hent.
  set (s1 := entered s app now) in *. unfold lower_want, tick_error.
  destruct (gather _ _ _ _ _ _ _ _) as [[reset heff]|r] eqn:Hg.
  - intros [= <- <- <-] He. destruct reset.
    + exfalso. revert He. cbn [deleteScaleDown with_scaleDown scaleDown]. by rewrite lookup_delete_eq.
    + split; [done|]. right. destruct (Hent e He). split_and!; try done. right. left. eauto.
  - destruct (computeAutoscaleWantMulti _ _ _ _ _) as [[[want panic] bd]|] eqn:Hc; [|done].
    cbn [mbind option_bind]. pose proof (freeze_gate_cases s1 app want now) as Hfg.
    destruct (freeze_gate s1 app want now) as [[s2 ef]|[s2 ef]].
    + intros [= <- <- <-] He. destruct Hfg as (_ & _ & Hn & _). congruence.
    + destruct Hfg as (_ & Hsd & Hph).
      destruct (apply_want _ _ _ _ _ _ _ _ _ _ _) as [[s3 d3] ef3] eqn:Haw.
      intros [= <- <- <-] He. apply apply_want_entry with (e := e) in Haw as [Hph3 Hcase].
      split; [congruence|]. rewrite Hsd in Hcase.
      destruct (Hcase He) as [(Hlt & Hst & Hw & [Hs1|Hnow])|(Hup & Hx & Hs1)].
      * right. destruct (Hent e Hs1). split_and!; try done. left.
        rewrite (proj2 (Z.ltb_lt _ _) Hlt), Hst. by subst.
      * left. rewrite (proj2 (Z.ltb_lt _ _) Hlt), Hst. by subst.
      * right. destruct (Hent e Hs1). split_and!; try done. right. right. by exists r, want, panic, bd.
Qed.

Lemma tick_off s d app now inflight draining a s' d' eff :
  tick s d app now inflight draining a = Some (s', d', eff) -> same_off (ID app) s s'.
Proof.
  unfold reconcileAutoscaleApp. destruct (_ || _).
  { intros [= <- <- <-]. unfold clearApp; off. }
  fold (entered s app now). pose proof (entered_off s app now) as Hent.
  destruct (gather _ _ _ _ _ _ _ _) as [[reset heff]|r].
  - intros [= <- <- <-]. etransitivity; [exact Hent|]. destruct reset; [|done]. apply deleteScaleDown_off.
  - destruct (computeAutoscaleWantMulti _ _ _ _ _) as [[[want panic] bd]|]; [|done].
    cbn [mbind option_bind]. pose proof (freeze_gate_cases (entered s app now) app want now) as Hfg.
    destruct (freeze_gate (entered s app now) app want now) as [[s2 ef]|[s2 ef]].
    + intros [= <- <- <-]. destruct Hfg as (_ & _ & _ & _ & Hfg). by etransitivity.
    + destruct Hfg as (_ & Hsd & Hph).
      destruct (apply_want _ _ _ _ _ _ _ _ _ _ _) as [[s3 d3] ef3] eqn:Haw.
      intros [= <- <- <-]. apply apply_want_off in Haw. etransitivity; [exact Hent|].
      intros id' Hne. destruct (Haw id' Hne) as [-> ->]. by rewrite Hsd, Hph.
Qed.
Lemma elapsed_entry s id want now delay s1 :
  scaleDownElapsed s id want now delay = (s1, true) ->
  exists e, scaleDown s !! id = Some e /\ e_want e = want /\ e_since e + delay * Second <= now.
Proof.
  intros H. pose proof (scaleDownElapsed_cases s id want now delay) as Hc. rewrite H in Hc.
  destruct Hc as (_ & e & _ & Hw & [Hs|[_ ?]] & Hle); [|done]. cbn [snd] in Hle.
  exists e. split_and!; [done..|]. specialize (Hle eq_refl). lia.
Qed.

Lemma cas_write t o d id want expect d' r :
  SetAppReplicasCAS t o d id want expect = (d', r) ->
  d' = d /\ r <> Ok true \/
  exists row, d !! id = Some row /\ cas_guard expect row = true /\ d' = <[id := set_replicas want t row]> d.
Proof.
  intros Hc. pose proof (cas_cases t o d id want expect) as Hcas. rewrite Hc in Hcas.
  destruct Hcas as [[Hd Hr]|(row & ? & ? & ? & _)]; [left; done|right; eauto].
Qed.

(** When the switch reaches the database, and why. *)
Definition may_lower (s : autoscaleLoopState) (app : App) (policy : AutoscalePolicy)
    (sg : AutoscaleSignal) (want now : Z) : Prop :=
  want < DesiredReplicas app /\ HasStaleNonzero sg = false /\
  (want = 0 -> fgtb (TotalRPS sg) fzero = false) /\
  exists e, scaleDown s !! ID app = Some e /\ e_want e = want /\
    e_since e + ScaleDownDelaySec policy * Second <= now.

(** The write of a tick: none, or its own row under the guard. *)
Definition wrote (s : autoscaleLoopState) (d : apps) (app : App) (policy : AutoscalePolicy)
    (sg : AutoscaleSignal) (want now : Z) (a : Answers) (d' : apps) : Prop :=
  d' = d \/ d' = a_others a d \/
  (DesiredReplicas app < want \/ may_lower s app policy sg want now) /\
  exists row, a_others a d !! ID app = Some row /\ cas_guard (DesiredReplicas app) row = true /\
    d' = <[ID app := set_replicas want (a_cas_time a) row]> (a_others a d).

Lemma cas_wrote s d app policy sg want now a d' r :
  SetAppReplicasCAS (a_cas_time a) (a_exec a) (a_others a d) (ID app) want (DesiredReplicas app) = (d', r) ->
  DesiredReplicas app < want \/ may_lower s app policy sg want now ->
  wrote s d app policy sg want now a d'.
Proof.
  intros Hc Hj. right. destruct (cas_write _ _ _ _ _ _ _ _ Hc) as [[-> _]|(row & ? & ? & ?)];
    [by left|right]. split; [done|]. eauto.
Qed.

(** No scale-down event among the effects of a hold. *)
Ltac no_event :=
  intros ??? Hin; repeat (apply elem_of_cons in Hin as [?|Hin]; [done|]);
  by apply not_elem_of_nil in Hin.

Lemma apply_want_write s d app policy sg target want panic now a s' d' eff :
  apply_want c s d app policy sg target want panic now a = (s', d', eff) ->
  ((forall from w reason, Event "scale_down" from w reason ∈ eff ->
      w = want /\ may_lower s app policy sg want now)) /\
  wrote s d app policy sg want now a d'.
Proof.
  unfold apply_want. cbv zeta. destruct (Z.ltb_spec (DesiredReplicas app) want) as [Hup|Hup].
  - destruct (SetAppReplicasCAS _ _ _ _ _ _) as [d0 r] eqn:Hcas.
    apply (cas_wrote s _ _ policy sg _ now) in Hcas as Hd0; [|by left].
    destruct r as [[]|err]; [|intros [= <- <- <-]; split; [no_event|done]..].
    destruct (maybePrefetchAutoscale c (deleteScaleDown s (ID app)) target a) as [s1 pulls] eqn:Hp.
    intros [= <- <- <-]. split; [|done]. intros from w reason Hin. exfalso.
    do 2 (apply elem_of_cons in Hin as [?|Hin]; [done|]).
    revert Hp. unfold maybePrefetchAutoscale. destruct (cfg_placer c); [|intros [= <- <-]; by apply not_elem_of_nil in Hin].
    destruct (prefetchAllowed _ _ _) as [s2 al]. destruct (negb al); [intros [= <- <-]; by apply not_elem_of_nil in Hin|].
    destruct (a_candidates a) as [[nodes req]|]; intros [= <- <-]; [|by apply not_elem_of_nil in Hin].
    apply list_elem_of_omap in Hin as (n & _ & Hn). by repeat case_match.
  - destruct (Z.ltb_spec want (DesiredReplicas app)) as [Hdn|Hdn];
      [|intros [= <- <- <-]; split; [no_event|by left]].
    destruct (HasStaleNonzero sg) eqn:Hst;
      [intros [= <- <- <-]; split; [no_event|by left]|].
    destruct (scaleDownElapsed s (ID app) want now (ScaleDownDelaySec policy)) as [s1 el] eqn:Hel.
    destruct el; cbn [negb];
      [|intros [= <- <- <-]; split; [no_event|by left]].
    destruct (_ && _) eqn:Hz;
      [intros [= <- <- <-]; split; [no_event|by left]|].
    assert (may_lower s app policy sg want now) as Hml.
    { split_and!; [done|done| |by eapply elapsed_entry]. intros ->. simpl in Hz. done. }
    destruct (SetAppReplicasCAS _ _ _ _ _ _) as [d0 r] eqn:Hcas.
    apply (cas_wrote s _ _ policy sg _ now) in Hcas as Hd0; [|by right].
    destruct r as [[]|err]; intros [= <- <- <-]; (split; [|done]); [|no_event..].
    intros ??? Hin. apply elem_of_cons in Hin as [?|Hin]; [done|]. apply list_elem_of_singleton in Hin.
    by simplify_eq.
Qed.
Ltac hold_only Hin :=
  repeat (apply elem_of_cons in Hin as [?|Hin]; [done|]); by apply not_elem_of_nil in Hin.

Lemma gather_no_event app policy now inflight draining a reset eff from w reason :
  gather unmarshal c app policy now inflight draining a = inl (reset, eff) ->
  Event "scale_down" from w reason ∉ eff.
Proof.
  intros Hg Hin. revert Hg. unfold gather.
  destruct (targetDeployment _ _ _) as [[target|]|]; [|intros [= <- <-]; hold_only Hin..].
  destruct (a_active2 a) as [[]|]; [intros [= <- <-]; hold_only Hin| |intros [= <- <-]; hold_only Hin].
  match goal with |- context [if ?b then Ok [] else a_fields a] =>
    destruct (if b then Ok [] else a_fields a) as [fields|] end; [|intros [= <- <-]; hold_only Hin].
  destruct (negb _); [intros [= <- <-]; hold_only Hin|].
  destruct (a_machines a) as [ms|]; [|intros [= <- <-]; hold_only Hin].
  destruct (count_machines _ _ _ _ _ _) as [rd wm].
  destruct (fetchExtraSignals _ _ _ _ _ _) as [[ex why] []]; [|done].
  intros [= <- <-]. case_match; hold_only Hin.
Qed.

(** A tick that is not stopped by a gate decides by the kernel's want. *)
Lemma tick_decides s d app now inflight draining a s' d' eff :
  tick s d app now inflight draining a = Some (s', d', eff) ->
  (d' = d /\ forall from w reason, Event "scale_down" from w reason ∉ eff) \/
  (exists r want panic bd s2,
     Enabled (Autoscale app) = true /\ Deleted app = false /\
     gather unmarshal c app (Autoscale app) now inflight draining a = inr r /\
     computeAutoscaleWantMulti (Autoscale app) (rd_signal r) (rd_ready r) (rd_warming r) (rd_extra r) =
       Some (want, panic, bd) /\
     (frozen s (ID app) now <> None -> want <= DesiredReplicas app) /\
     scaleDown s2 = scaleDown (entered s app now) /\
     (forall from w reason, Event "scale_down" from w reason ∈ eff ->
        w = want /\ may_lower s2 app (Autoscale app) (rd_signal r) want now) /\
     wrote s2 d app (Autoscale app) (rd_signal r) want now a d').
Proof.
  unfold reconcileAutoscaleApp. destruct (_ || _) eqn:Hoff.
  { intros [= <- <- <-]. left. split; [done|]. intros. apply not_elem_of_nil. }
  apply orb_false_iff in Hoff as [Hen Hdel]. apply negb_false_iff in Hen.
  fold (entered s app now). destruct (gather _ _ _ _ _ _ _ _) as [[reset heff]|r] eqn:Hg.
  { intros [= <- <- <-]. left. split; [done|]. intros. by eapply gather_no_event. }
  destruct (computeAutoscaleWantMulti _ _ _ _ _) as [[[want panic] bd]|] eqn:Hc; [|done].
  cbn [mbind option_bind]. pose proof (freeze_gate_cases (entered s app now) app want now) as Hfg.
  destruct (freeze_gate (entered s app now) app want now) as [[s2 ef]|[s2 ef]] eqn:Hgate.
  - intros [= <- <- <-]. left. split; [done|]. revert Hgate. unfold freeze_gate.
    destruct (frozen _ _ _); [destruct (_ <? _)|destruct (isFreezeNoted _ _)]; try done.
    destruct (markFreezeNoted _ _) as [s3 noted]. intros [= <- <-].
    destruct noted; cbn; no_event.
  - destruct Hfg as (Hfr & Hsd & _).
    destruct (apply_want _ _ _ _ _ _ _ _ _ _ _) as [[s3 d3] ef3] eqn:Haw.
    intros [= <- <- <-]. apply apply_want_write in Haw as [Hev Hw].
    right. exists r, want, panic, bd, s2. split_and!; try done.
    + intros Hf. apply Hfr. destruct (frozen s (ID app) now) as [until|] eqn:Hs; [|done].
      by rewrite (entered_frozen _ _ _ _ Hs).
    + intros from w reason [Hin|Hin]%elem_of_app; [|by eapply Hev]. exfalso.
      revert Hgate. unfold freeze_gate.
      destruct (frozen _ _ _); [destruct (_ <? _)|destruct (isFreezeNoted _ _)].
      * by destruct (markFreezeNoted _ _).
      * intros [= <- <-]. by apply not_elem_of_nil in Hin.
      * intros [= <- <-]. by apply list_elem_of_singleton in Hin.
      * intros [= <- <-]. by apply not_elem_of_nil in Hin.
Qed.
(** A tick never panics, and the database write it makes, if any, is
    one compare-and-set of its own app's row, on top of whatever the other
    writers did meanwhile: the row is live, still enabled and still at the
    count the tick started from, only the replica count changes, the new
    count is within the policy's bounds, a raise happens only while scale-up
    is not frozen, and a reduction only with no stale nonzero signal, with a
    stable window that has run its length, and never to zero while requests
    are in flight. *)
Theorem tick_write_justified s d app now inflight draining a :
  exists s' d' eff, tick s d app now inflight draining a = Some (s', d', eff) /\
  (d' = d \/ d' = a_others a d \/
   exists row want sg, a_others a d !! ID app = Some row /\
     d' = <[ID app := set_replicas want (a_cas_time a) row]> (a_others a d) /\
     Deleted row = false /\ Enabled (policy_cols row) = true /\
     DesiredReplicas row = DesiredReplicas app /\
     MinReplicas (Autoscale app) <= want <= MaxReplicas (Autoscale app) /\
     (DesiredReplicas app < want /\ frozen s (ID app) now = None \/
      may_lower (entered s app now) app (Autoscale app) sg want now)).
Proof.
  assert (exists r, tick s d app now inflight draining a = Some r) as [[[s' d'] eff] Ht].
  { unfold reconcileAutoscaleApp. destruct (_ || _); [eauto|].
    destruct (gather _ _ _ _ _ _ _ _) as [[]|r]; [eauto|].
    destruct (want_in_bounds (policy_cols app) (rd_signal r) (rd_ready r) (rd_warming r) (rd_extra r))
      as (want & panic & bd & Hw & _).
    change (clampAutoscalePolicy (policy_cols app)) with (Autoscale app) in Hw. rewrite Hw.
    cbn [mbind option_bind]. destruct (freeze_gate _ _ _ _) as [[]|[]]; [eauto|].
    destruct (apply_want _ _ _ _ _ _ _ _ _ _ _) as [[]]. eauto. }
  exists s', d', eff. split; [done|].
  destruct (tick_decides _ _ _ _ _ _ _ _ _ _ Ht)
    as [[? _]|(r & want & panic & bd & s2 & _ & _ & _ & Hc & Hfr & Hsd & _ & Hw)]; [by left|].
  destruct Hw as [->|[->|(Hj & row & Hrow & Hg & ->)]]; [by left|by right; left|right; right].
  destruct (want_in_bounds (policy_cols app) (rd_signal r) (rd_ready r) (rd_warming r) (rd_extra r))
    as (w & p & b & Hw & Hb).
  change (clampAutoscalePolicy (policy_cols app)) with (Autoscale app) in *. rewrite Hw in Hc.
  simplify_eq. unfold cas_guard in Hg. bool_to_prop.
  exists row, want, (rd_signal r). split_and!; try done; try lia.
  destruct Hj as [Hup|Hdn].
  - left. split; [done|]. destruct (frozen s (ID app) now); [|done]. exfalso.
    assert (want <= DesiredReplicas app) by (by apply Hfr). lia.
  - right. revert Hdn. unfold may_lower. by rewrite Hsd.
Qed.
(** *** Runs of the loop

    The steps that touch the leader's state, newest first: ticks on apps, in
    any order, on any table, and the notes of the dispatch workers between
    them. *)
Inductive loop_event :=
  | ETick (app : App) (now : Z) (inflight draining : gset string) (a : Answers)
  | EQuotaRejection (id : string) (now : Z)
  | EPlaced (id : string)
  | ENotPlaced (op id : string) (evs : res (list SchedulerEvent)) (now : Z)
  | EPurge (known : gset string).

Inductive reaches : list loop_event -> autoscaleLoopState -> Prop :=
  | R_new : reaches [] newAutoscaleLoopState
  | R_tick h s d app now inflight draining a s' d' eff :
      reaches h s -> tick s d app now inflight draining a = Some (s', d', eff) ->
      reaches (ETick app now inflight draining a :: h) s'
  | R_quota h s id now :
      reaches h s -> reaches (EQuotaRejection id now :: h) (noteQuotaRejection c s id now)
  | R_placed h s id : reaches h s -> reaches (EPlaced id :: h) (notePlacementSuccess s id)
  | R_not_placed h s op id evs now :
      reaches h s -> reaches (ENotPlaced op id evs now :: h) (notePlacementFailure c s op id evs now)
  | R_purge h s known : reaches h s -> reaches (EPurge known :: h) (purgeUnknown s known).

(** A step that does not contradict a pending reduction of an app to [want]
    under the policy fingerprint [hp]. *)
Definition confirms (id : string) (want : Z) (hp : string) (ev : loop_event) : Prop :=
  match ev with
  | ETick app now inflight draining a =>
      ID app = id ->
      hash (Autoscale app) = hp /\
      (lower_want app now inflight draining a = Some want \/ tick_error app now inflight draining a)
  | _ => True
  end.

(** The history of a window entry. *)
Definition window_since (h : list loop_event) (id : string) (e : scaleDownEntry) (hp : string) : Prop :=
  exists recent app inflight draining a old,
    h = recent ++ ETick app (e_since e) inflight draining a :: old /\ ID app = id /\
    lower_want app (e_since e) inflight draining a = Some (e_want e) /\ hash (Autoscale app) = hp /\
    Forall (confirms id (e_want e) hp) recent.

Lemma window_since_cons h id e hp ev :
  window_since h id e hp -> confirms id (e_want e) hp ev -> window_since (ev :: h) id e hp.
Proof.
  intros (recent & app & i & dr & a & old & -> & Hid & Hw & Hh & Hall) Hev.
  exists (ev :: recent), app, i, dr, a, old. split_and!; try done. by constructor.
Qed.

Definition windows_explained (h : list loop_event) (s : autoscaleLoopState) : Prop :=
  forall id e, scaleDown s !! id = Some e ->
    exists hp, policyHash s !! id = Some hp /\ window_since h id e hp.

(** A step that leaves every window and fingerprint as it was, or drops both. *)
Lemma windows_kept h s s' ev :
  windows_explained h s ->
  (forall id e, scaleDown s' !! id = Some e ->
     scaleDown s !! id = Some e /\ policyHash s' !! id = policyHash s !! id) ->
  (forall id w hp, confirms id w hp ev) -> windows_explained (ev :: h) s'.
Proof.
  intros Hinv Hs Hev id e He. destruct (Hs id e He) as [He' ->].
  destruct (Hinv id e He') as (hp & Hp & Hw). exists hp. split; [done|].
  by apply window_since_cons.
Qed.

Lemma reaches_explained h s : reaches h s -> windows_explained h s.
Proof.
  induction 1 as [|h s d app now i dr a s' d' eff _ IH Ht|h s id now _ IH|h s id _ IH
                 |h s op id evs now _ IH|h s known _ IH].
  - intros id e He. cbn [newAutoscaleLoopState scaleDown] in He. by rewrite lookup_empty in He.
  - intros id e He. destruct (decide (id = ID app)) as [->|Hne].
    + destruct (tick_entry _ _ _ _ _ _ _ _ _ _ _ Ht He) as [Hp [[Hw Hnow]|(Hs & Hps & Hc)]];
        exists (hash (Autoscale app)); (split; [done|]).
      * exists [], app, i, dr, a, h. rewrite Hnow. split_and!; done.
      * destruct (IH _ _ Hs) as (hp & Hhp & Hws). rewrite Hps in Hhp. injection Hhp as <-.
        by apply window_since_cons.
    + destruct (tick_off _ _ _ _ _ _ _ _ _ _ Ht id Hne) as [Hs1 Hs2].
      rewrite Hs1 in He. destruct (IH _ _ He) as (hp & Hhp & Hws). exists hp.
      rewrite Hs2. split; [done|]. apply window_since_cons; [done|]. intros Hid. by subst.
  - apply (windows_kept h s); [done| |done]. unfold noteQuotaRejection. by case_match.
  - apply (windows_kept h s); [done| |done]. unfold notePlacementSuccess. by case_match.
  - apply (windows_kept h s); [done| |done]. unfold notePlacementFailure.
    destruct (String.eqb id ""); [done|]. destruct evs as [evs|]; [|done].
    by destruct (existsb _ _).
  - apply (windows_kept h s); [done| |done]. intros id e.
    unfold purgeUnknown, keep_known; cbn [scaleDown policyHash].
    intros [He Hk]%map_lookup_filter_Some. split; [done|].
    destruct (policyHash s !! id) as [hp|] eqn:Hp.
    + by apply map_lookup_filter_Some.
    + apply map_lookup_filter_None. by left.
Qed.

(** C14. The stable window, over whole runs: when a tick records a
    scale-down, at least [scale_down_delay_sec] earlier a tick of the same
    app, under the same policy fingerprint, already wanted exactly this
    count, and every tick of the app since then wanted it too, with a fresh
    signal, no stale nonzero sample and no rollout - but for the ticks that ended
    in one of two errors, which leave the window as it is: no target deployment
    was found, or the tick wanted more replicas than the app has and its write was
    not acknowledged. (So a peak can fall into the window, against the comment of
    the code: [Witness.failed_scale_up_keeps_window].) Ticks of other apps and the
    workers' notes may come in any order between. *)
Theorem scale_down_after_stable_window h s d app now inflight draining a s' d' eff from want reason :
  reaches h s -> tick s d app now inflight draining a = Some (s', d', eff) ->
  Event "scale_down" from want reason ∈ eff ->
  exists since recent app0 inflight0 draining0 a0 old,
    h = recent ++ ETick app0 since inflight0 draining0 a0 :: old /\
    since + ScaleDownDelaySec (Autoscale app) * Second <= now /\
    ID app0 = ID app /\ hash (Autoscale app0) = hash (Autoscale app) /\
    lower_want app0 since inflight0 draining0 a0 = Some want /\
    lower_want app now inflight draining a = Some want /\
    Forall (confirms (ID app) want (hash (Autoscale app))) recent.
Proof.
  intros Hr Ht Hev.
  destruct (tick_decides _ _ _ _ _ _ _ _ _ _ Ht)
    as [[_ Hno]|(r & w & panic & bd & s2 & _ & _ & Hg & Hc & _ & Hsd & Hall & _)];
    [by apply Hno in Hev|].
  destruct (Hall _ _ _ Hev) as [-> (Hlt & Hst & _ & e & He & Hw & Hle)]. rewrite Hsd in He.
  destruct (entered_entry s app now e He) as [Hs Hp].
  destruct (reaches_explained h s Hr (ID app) e Hs) as (hp & Hhp & Hws).
  rewrite Hp in Hhp. injection Hhp as <-.
  destruct Hws as (recent & app0 & i0 & dr0 & a0 & old & -> & Hid & Hlw & Hh & Hconf).
  rewrite Hw in *. exists (e_since e), recent, app0, i0, dr0, a0, old. split_and!; try done.
  unfold lower_want. rewrite Hg, Hc. cbn [mbind option_bind].
  by rewrite (proj2 (Z.ltb_lt _ _) Hlt), Hst.
Qed.
End tick_facts.

Module Witness.

Definition sample (load ts : Z) : SignalSample := mkSample (fof_Z load) fzero 0 0 ts 10000.

(** Three fields an edge could have written, by the second they are from. *)
Definition unmarshal (raw : string) : option SignalSample :=
  if String.eqb raw "low at 0" then Some (sample 10 0)
  else if String.eqb raw "high at 10" then Some (sample 160 10000)
  else if String.eqb raw "low at 30" then Some (sample 10 30000)
  else None.
Definition fmt_v (_ : float64) : string := "2".

Definition cfg : Config := mkCfg 0 0 0 "" 3 None.
Definition policy : AutoscalePolicy :=
  mkPolicy true 1 10 20 30 (fof_Z 2) 0 fzero "" fzero "per_replica".
Definition app : App := mkApp "a1" "p1" "app.example" 5 false policy 0.
Definition table : apps := {[ "a1" := app ]}.

Definition answers (field : string) (o : exec_outcome) : Answers :=
  mkAnswers (Ok None) (Ok []) (Ok (Some (mkDeployment "d1" 1 "img"))) (Ok None)
    (Ok [field]) (Ok []) (inr "") (inr "") (fun d => d) o 0 0 (Ok ([], Scheduler.mkRequest 0 0 0 ""
      "" ∅ false ∅ ∅ "" 0 ∅ ∅ [] "" "")) (fun _ => None) (fun _ => false).

Definition tick_at (s : autoscaleLoopState) (seconds : Z) (field : string) (o : exec_outcome) :
    autoscaleLoopState * apps * list effect :=
  default (s, table, [])
    (reconcileAutoscaleApp unmarshal fmt_v cfg s table app (seconds * Second) ∅ ∅ (answers field o)).

Definition lost : goerr := errors_New "connection reset".
Definition s1 : autoscaleLoopState := (tick_at newAutoscaleLoopState 0 "low at 0" Done).1.1.
Definition s2 : autoscaleLoopState := (tick_at s1 10 "high at 10" (FailedBefore lost)).1.1.

Lemma multi_extends_single_witness :
  fst <$> computeAutoscaleWantMulti policy (mkSignal (fof_Z 90) fzero fzero (fof_Z 10) true true false)
            2 1 no_extra =
  computeAutoscaleWant policy (mkSignal (fof_Z 90) fzero fzero (fof_Z 10) true true false) 2 1.
Proof. apply multi_extends_single; vm_compute; first [reflexivity|discriminate]. Defined.

Lemma want_covers_load_witness :
  exists m e,
    fadd (fof_Z 90) (fof_Z 3) = S754_finite false m e /\
    (finite_le_Z m e (5 * TargetConcurrency policy) \/ 5 = MaxReplicas policy) /\
    (false = false -> no_extra = no_extra ->
     5 = MinReplicas policy \/ ~ finite_le_Z m e ((5 - 1) * TargetConcurrency policy)).
Proof.
  eexists _, _. split; [vm_compute; reflexivity|].
  apply (want_covers_load policy (mkSignal (fof_Z 90) (fof_Z 3) fzero (fof_Z 10) false true false)
           4 0 no_extra 5 false {["concurrency" := 5]}).
  - apply (clamp_clamped policy).
  - vm_compute. reflexivity.
  - vm_compute. discriminate.
  - vm_compute. discriminate.
  - vm_compute. reflexivity.
Defined.

Lemma s1_reached : reaches unmarshal fmt_v cfg [ETick app 0 ∅ ∅ (answers "low at 0" Done)] s1.
Proof.
  eapply (R_tick _ _ _ [] _ table _ _ _ _ _ _ table _ (R_new _ _ _)). vm_compute. reflexivity.
Qed.

Lemma scale_down_after_stable_window_witness :
  exists since recent app0 inflight0 draining0 a0 old,
    [ETick app 0 ∅ ∅ (answers "low at 0" Done)] =
      recent ++ ETick app0 since inflight0 draining0 a0 :: old /\
    since + ScaleDownDelaySec (Autoscale app) * Second <= 30 * Second /\
    ID app0 = ID app /\ autoscalePolicyHash fmt_v (Autoscale app0) = autoscalePolicyHash fmt_v (Autoscale app) /\
    lower_want unmarshal cfg app0 since inflight0 draining0 a0 = Some 1 /\
    lower_want unmarshal cfg app (30 * Second) ∅ ∅ (answers "low at 30" Done) = Some 1 /\
    Forall (confirms unmarshal fmt_v cfg (ID app) 1 (autoscalePolicyHash fmt_v (Autoscale app))) recent.
Proof.
  apply (scale_down_after_stable_window unmarshal fmt_v cfg
           [ETick app 0 ∅ ∅ (answers "low at 0" Done)] s1 table app (30 * Second) ∅ ∅
           (answers "low at 30" Done) (tick_at s1 30 "low at 30" Done).1.1
           (tick_at s1 30 "low at 30" Done).1.2 (tick_at s1 30 "low at 30" Done).2 5 1 "below_target").
  - exact s1_reached.
  - vm_compute. reflexivity.
  - vm_compute. right. left.
Defined.

(** A tick that wants more replicas than the app has, but whose
    compare-and-set the database does not answer, does not reset the stable
    window: the window opened at 0 s is counted through the peak at 10 s, and
    at 30 s the app is scaled down to 1 although only 20 s have passed since a
    tick wanted 8. *)
Theorem failed_scale_up_keeps_window :
  scaleDown s1 !! "a1" = Some (mkEntry 1 0) /\
  (tick_at s1 10 "high at 10" (FailedBefore lost)).2 = [Hold autoscaleResultError "cas store error"] /\
  scaleDown s2 !! "a1" = Some (mkEntry 1 0) /\
  Event "scale_down" 5 1 "below_target" ∈ (tick_at s2 30 "low at 30" Done).2 /\
  (* where the raise had gone through, the window would have been opened anew *)
  scaleDown (tick_at s1 10 "high at 10" Done).1.1 !! "a1" = None.
Proof.
  split; [vm_compute; reflexivity|]. split; [vm_compute; reflexivity|].
  split; [vm_compute; reflexivity|]. split; [vm_compute; right; left|vm_compute; reflexivity].
Qed.

End Witness.
