(* ===== verification/Catalog.v ===== *)
(** * The Redis projection (internal/controlplane/catalog/catalog.go)

    The keys the catalog keeps, by family: [route:{host}:{port}],
    [hostidx:{host}], [routerev:{host}], [dns:internal:{name}] and the two
    [mesh:] families, each a map from its variable part. A value is kept as the
    structure whose JSON is stored. A script is one atomic transition; of a
    method that sends several commands each command has an outcome of its own.
    [history] interleaves the commands of any number of processes. *)
From S2P Require Import Prelude GoString.
Local Open Scope Z_scope.

Record Backend := mkBackend {
  MachineID : string; ExecutionID : string; NodeProxyEndpoint : string; AppPort : Z;
  Readiness : string; Weight : Z; Draining : bool;
  ULA : string; IdentityID : Z; Generation : Z; DeploymentGeneration : Z }.

Record Route := mkRoute { RouteGeneration : Z; Revision : Z; Backends : list Backend }.

(** RouteRevision: nil reads as 0. *)
Definition RouteRevision (r : option Route) : Z := match r with None => 0 | Some r => Revision r end.

Record HostRoute := mkHostRoute { Port : Z; HRoute : Route }.

Record InternalDNSRecord := mkDNS { Name : string; AAAA : list string; DGeneration : Z }.

Record MeshPeerRecord := mkPeer {
  PNodeID : string; Pubkey : string; Endpoint : string; NodePrefix : string; UpdatedAt : Z }.
Record MeshEndpointRecord := mkEndpoint {
  EMachineID : string; EExecutionID : string; ENodeID : string; NodeULA : string;
  IngressPort : Z; WorkloadULA : string; EGeneration : Z }.

(** The value of a [hostidx] key: the JSON array of ports, the bare number the
    first version wrote, or anything else. *)
Inductive host_index := IdxPorts (ports : list Z) | IdxLegacy (port : Z) | IdxBad (raw : string).

(** A value with a TTL carries the time it expires at. *)
Record Redis := mkRedis {
  routes : gmap (string * Z) Route; hostidx : gmap string host_index; routerev : gmap string Z;
  dns : gmap string (InternalDNSRecord * Z);
  peers : gmap string (MeshPeerRecord * Z);
  endpoints : gmap string (MeshEndpointRecord * Z) }.

Definition empty_redis : Redis := mkRedis ∅ ∅ ∅ ∅ ∅ ∅.

Definition with_routes (rt : gmap (string * Z) Route) (hi : gmap string host_index) (rv : gmap string Z)
    (st : Redis) : Redis :=
  mkRedis rt hi rv (dns st) (peers st) (endpoints st).
Definition with_dns (d : gmap string (InternalDNSRecord * Z)) (st : Redis) : Redis :=
  mkRedis (routes st) (hostidx st) (routerev st) d (peers st) (endpoints st).
Definition with_mesh (ps : gmap string (MeshPeerRecord * Z)) (es : gmap string (MeshEndpointRecord * Z))
    (st : Redis) : Redis :=
  mkRedis (routes st) (hostidx st) (routerev st) (dns st) ps es.

(** GET of a key with a TTL. *)
Definition live {V} (now : Z) (v : option (V * Z)) : option V :=
  match v with Some (x, deadline) => if now <? deadline then Some x else None | None => None end.

(** The outcome of each command, by the key or the pattern it names. *)
Record redis_io := mkIO {
  io_get : string -> option goerr; io_scan : string -> option goerr;
  io_set : string -> exec_outcome; io_del : string -> exec_outcome; io_eval : exec_outcome }.
Definition healthy : redis_io := mkIO (fun _ => None) (fun _ => None) (fun _ => Done) (fun _ => Done) Done.

(** ** Keys *)

Definition routeKey (hostname : string) (port : Z) : string :=
  ("route:" +:+ hostname +:+ ":" +:+ pretty port)%string.
Definition hostIndexKey (hostname : string) : string := ("hostidx:" +:+ hostname)%string.
(** internalDNSKey and the mesh keys, without their fixed prefixes. *)
Definition internalDNSKey (name : string) : string := trim_suffix name ".internal".
Definition meshEndpointKey (machineID executionID : string) : string :=
  (machineID +:+ ":" +:+ executionID)%string.

(** ** Publishing the routes of a hostname *)

Definition route_revision (st : Redis) (hostname : string) : Z := default 0 (routerev st !! hostname).

(** The ports an old index names, as the script reads them. *)
Definition old_ports (st : Redis) (hostname : string) : list Z :=
  match hostidx st !! hostname with
  | Some (IdxPorts ports) => ports
  | Some (IdxLegacy p) => [p]
  | _ => []
  end.

Definition route_entries (hostname : string) (items : list HostRoute) : list ((string * Z) * Route) :=
  map (fun item => ((hostname, Port item), HRoute item)) items.

Definition del_ports (hostname : string) (ports : list Z) (rt : gmap (string * Z) Route) :
    gmap (string * Z) Route :=
  foldl (fun rt p => delete (hostname, p) rt) rt ports.

(** The ports of the new index: the primary first. *)
Definition ordered_ports (primary : Z) (items : list HostRoute) : list Z :=
  primary :: filter (fun p => p <> primary) (map Port items).

(** The script replaceHostRoutes: 1 when applied, 0 when the revision is not
    above the high-water mark. *)
Definition replaceHostRoutes (hostname : string) (primary revision : Z) (items : list HostRoute)
    (st : Redis) : Redis * Z :=
  if revision <=? route_revision st hostname then (st, 0)
  else
    let wanted := map Port items in
    let stale := filter (fun p => p ∉ wanted) (old_ports st hostname) in
    (with_routes
       (del_ports hostname stale (insert_all (route_entries hostname items) (routes st)))
       (<[hostname := IdxPorts (ordered_ports primary items)]> (hostidx st))
       (<[hostname := revision]> (routerev st)) st, 1).

(** The revision written into an entry. *)
Definition stamp (revision : Z) (item : HostRoute) : HostRoute :=
  mkHostRoute (Port item) (mkRoute (RouteGeneration (HRoute item)) revision (Backends (HRoute item))).

(** The loop over the arguments: each port positive and new. *)
Fixpoint check_routes (hostname : string) (revision : Z) (seen : list Z) (items : list HostRoute) :
    res (list HostRoute) :=
  match items with
  | [] => Ok []
  | item :: items' =>
      if (Port item <=? 0) || bool_decide (Port item ∈ seen) then
        Err (Errorf "replace host routes %q: invalid or duplicate port %d" [AStr hostname; AInt (Port item)])
      else
        match check_routes hostname revision (Port item :: seen) items' with
        | Err e => Err e
        | Ok l => Ok (stamp revision item :: l)
        end
  end.

(** What the method refuses before it talks to Redis. *)
Definition checked_routes (hostname : string) (revision : Z) (items : list HostRoute) (primaryPort : Z) :
    res (list HostRoute) :=
  if Nat.eqb (length items) 0
  then Err (Errorf "replace host routes %q: empty route set" [AStr hostname])
  else
    match check_routes hostname revision [] items with
    | Err e => Err e
    | Ok items =>
        if (primaryPort <=? 0) || negb (bool_decide (primaryPort ∈ map Port items)) then
          Err (Errorf "replace host routes %q: primary port %d not declared" [AStr hostname; AInt primaryPort])
        else Ok items
    end.

Definition ReplaceHostRoutes (io : redis_io) (hostname : string) (revision : Z)
    (items : list HostRoute) (primaryPort : Z) : cmd Redis bool := fun st =>
  match checked_routes hostname revision items primaryPort with
  | Err e => (st, Err e)
  | Ok items =>
      let '(st', applied) := replaceHostRoutes hostname primaryPort revision items st in
      match io_eval io with
      | Done => (st', Ok (applied =? 1))
      | FailedBefore e => (st, Err (wrap "replace host routes: %w" e))
      | FailedAfter e => (st', Err (wrap "replace host routes: %w" e))
      end
  end.

(** ** Looking up *)

(** parsePorts on the forms a value can have. *)
Definition parsePorts (val : host_index) : res (list Z) :=
  match val with
  | IdxPorts ports => Ok ports
  | IdxLegacy p => Ok [p]
  | IdxBad raw => Err (Errorf "bad host index: %w" [AStr raw])
  end.

Definition HostPorts (io : redis_io) (hostname : string) (st : Redis) : res (list Z) :=
  match io_get io (hostIndexKey hostname) with
  | Some e => Err (wrap "get host index: %w" e)
  | None => match hostidx st !! hostname with None => Ok [] | Some val => parsePorts val end
  end.

Definition GetRoute (io : redis_io) (hostname : string) (port : Z) (st : Redis) : res (option Route) :=
  match io_get io (routeKey hostname port) with
  | Some e => Err (wrap "get route: %w" e)
  | None => Ok (routes st !! (hostname, port))
  end.

Definition GetRouteForHostname (io : redis_io) (hostname : string) (st : Redis) : res (option Route) :=
  match HostPorts io hostname st with
  | Err e => Err e
  | Ok [] => Ok None
  | Ok (p :: _) => GetRoute io hostname p st
  end.

(** The three results of GetRouteForPort: route, declared, err. *)
Definition GetRouteForPort (io : redis_io) (hostname : string) (port : Z) (st : Redis) :
    option Route * bool * option goerr :=
  match HostPorts io hostname st with
  | Err e => (None, false, Some e)
  | Ok [] => (None, false, None)
  | Ok ((p0 :: _) as ports) =>
      let declared := port =? p0 in
      let declared := if negb declared then bool_decide (port ∈ ports) else declared in
      if negb declared then (None, false, None)
      else match GetRoute io hostname port st with
           | Ok r => (r, true, None)
           | Err e => (None, true, Some e)
           end
  end.

(** ** Pruning *)

(** What a scan finds that is not to be kept. *)
Definition stale_routes (keepRoutes : gset (string * Z)) (st : Redis) : gset (string * Z) :=
  dom (routes st) ∖ keepRoutes.
Definition stale_hosts (keepHosts : gset string) (st : Redis) : gset string := dom (hostidx st) ∖ keepHosts.

(** DEL of route keys and of index keys. *)
Definition del_routes (keys : gset (string * Z)) (st : Redis) : Redis :=
  with_routes (filter (fun kv : (string * Z) * Route => kv.1 ∉ keys) (routes st)) (hostidx st) (routerev st) st.
Definition del_hosts (keys : gset string) (st : Redis) : Redis :=
  with_routes (routes st) (filter (fun kv : string * host_index => kv.1 ∉ keys) (hostidx st)) (routerev st) st.

(** DEL is sent only when there is something to delete. *)
Definition del_some {K} `{Countable K} (o : exec_outcome) (format : string) (keys : gset K)
    (del : gset K -> Redis -> Redis) : cmd Redis unit :=
  if Nat.eqb (size keys) 0 then cmd_ret (Ok tt) else cmd_exec o (wrap format) (del keys).

(** PruneRoutes; the high-water keys stay. *)
Definition PruneRoutes (io : redis_io) (keepRoutes : gset (string * Z)) (keepHosts : gset string) :
    cmd Redis unit :=
  (staleRoutes <~ cmd_read (io_scan io "route:*") (wrap "scan routes: %w")
                    (fun st => Ok (stale_routes keepRoutes st)) ;;
   staleHosts <~ cmd_read (io_scan io "hostidx:*") (wrap "scan host indexes: %w")
                    (fun st => Ok (stale_hosts keepHosts st)) ;;
   _ <~ del_some (io_del io "route:*") "prune routes: %w" staleRoutes del_routes ;;
   del_some (io_del io "hostidx:*") "prune host indexes: %w" staleHosts del_hosts)%go.

(** WipeProjections: every route and index key; how many were deleted comes
    back beside an error too. *)
Definition wipe {K} `{Countable K} (io : redis_io) (pattern : string) (keys : Redis -> gset K)
    (del : gset K -> Redis -> Redis) (k : Z -> Redis -> Redis * (Z * option goerr)) (total : Z) (st : Redis) :
    Redis * (Z * option goerr) :=
  match io_scan io pattern with
  | Some e => (st, (total, Some (Errorf "scan %s: %w" [AStr pattern; AErr e])))
  | None =>
      if Nat.eqb (size (keys st)) 0 then k total st
      else match cmd_exec (io_del io pattern) (fun e => Errorf "wipe %s: %w" [AStr pattern; AErr e])
                   (del (keys st)) st with
           | (st', Ok _) => k (total + Z.of_nat (size (keys st))) st'
           | (st', Err e) => (st', (total, Some e))
           end
  end.

Definition WipeProjections (io : redis_io) : Redis -> Redis * (Z * option goerr) :=
  wipe io "route:*" (fun st => dom (routes st)) del_routes
    (wipe io "hostidx:*" (fun st => dom (hostidx st)) del_hosts (fun total st => (st, (total, None)))) 0.

(** ** The .internal projection *)

(** The writing loop: stops at the first invalid record or failed SET. *)
Fixpoint set_dns (io : redis_io) (deadline : Z) (records : list InternalDNSRecord) : cmd Redis unit :=
  match records with
  | [] => cmd_ret (Ok tt)
  | r :: records' =>
      if String.eqb (Name r) "" || Nat.eqb (length (AAAA r)) 0
      then cmd_ret (Err (Errorf "replace internal dns: record %q invalid" [AStr (Name r)]))
      else
        (_ <~ cmd_exec (io_set io (internalDNSKey (Name r)))
               (fun e => Errorf "set internal dns %s: %w" [AStr (Name r); AErr e])
               (fun st => with_dns (<[internalDNSKey (Name r) := (r, deadline)]> (dns st)) st) ;;
         set_dns io deadline records')%go
  end.

Definition ReplaceInternalDNS (io : redis_io) (now : Z) (records : list InternalDNSRecord) (ttl : Z) :
    cmd Redis unit :=
  if ttl <=? 0 then cmd_ret (Err (errors_New "replace internal dns: ttl must be > 0"))
  else
    (_ <~ set_dns io (now + ttl) records ;;
     let seen : gset string := list_to_set (map Name records) in
     stale <~ cmd_read (io_scan io "dns:internal:*") (wrap "scan internal dns: %w")
                (fun st => Ok (filter (fun k : string => (k +:+ ".internal")%string ∉ seen) (dom (dns st)))) ;;
     del_some (io_del io "dns:internal:*") "prune internal dns: %w" stale
       (fun keys st => with_dns (filter (fun kv : string * _ => kv.1 ∉ keys) (dns st)) st))%go.

(** The values of a family at a time; the failure of any GET fails the listing. *)
Definition list_live {V} (get : string -> option goerr) (fail : goerr -> goerr) (now : Z)
    (m : gmap string (V * Z)) : res (list V) :=
  foldr (fun kv acc =>
    match get kv.1 with
    | Some e => Err (fail e)
    | None => match acc with
              | Err e => Err e
              | Ok l => Ok (match live now (Some kv.2) with Some v => v :: l | None => l end)
              end
    end) (Ok []) (map_to_list m).

Definition dns_less (a b : InternalDNSRecord) : bool := String.ltb (Name a) (Name b).

Definition ListInternalDNS (io : redis_io) (now : Z) (st : Redis) : res (list InternalDNSRecord) :=
  match io_scan io "dns:internal:*" with
  | Some e => Err (wrap "scan internal dns: %w" e)
  | None =>
      match list_live (fun k => io_get io ("dns:internal:" +:+ k)%string) (wrap "get internal dns: %w")
              now (dns st) with
      | Err e => Err e
      | Ok out => Ok (sort_by dns_less out)
      end
  end.

(** ** The mesh projection *)

Definition peer_complete (p : MeshPeerRecord) : bool :=
  negb (String.eqb (PNodeID p) "" || String.eqb (Pubkey p) "" || String.eqb (Endpoint p) ""
        || String.eqb (NodePrefix p) "").
Definition endpoint_complete (e : MeshEndpointRecord) : bool :=
  negb (String.eqb (EMachineID e) "" || String.eqb (EExecutionID e) "" || String.eqb (NodeULA e) ""
        || (IngressPort e <=? 0)).

(** UpdatedAt is set to the time of the write, in seconds. *)
Definition touch (now : Z) (p : MeshPeerRecord) : MeshPeerRecord :=
  mkPeer (PNodeID p) (Pubkey p) (Endpoint p) (NodePrefix p) (now / 10 ^ 9).

Fixpoint set_peers (io : redis_io) (now ttl : Z) (ps : list MeshPeerRecord) : cmd Redis unit :=
  match ps with
  | [] => cmd_ret (Ok tt)
  | p :: ps' =>
      if negb (peer_complete p)
      then cmd_ret (Err (Errorf "replace mesh projection: peer %q incomplete" [AStr (PNodeID p)]))
      else
        (_ <~ cmd_exec (io_set io ("mesh:peer:" +:+ PNodeID p)%string)
               (fun e => Errorf "set mesh peer %s: %w" [AStr (PNodeID p); AErr e])
               (fun st => with_mesh (<[PNodeID p := (touch now p, now + ttl)]> (peers st)) (endpoints st) st) ;;
         set_peers io now ttl ps')%go
  end.

Definition endpoint_key (e : MeshEndpointRecord) : string := meshEndpointKey (EMachineID e) (EExecutionID e).

Fixpoint set_endpoints (io : redis_io) (deadline : Z) (es : list MeshEndpointRecord) : cmd Redis unit :=
  match es with
  | [] => cmd_ret (Ok tt)
  | e :: es' =>
      if negb (endpoint_complete e)
      then cmd_ret (Err (Errorf "replace mesh projection: endpoint %s/%s incomplete"
                           [AStr (EMachineID e); AStr (EExecutionID e)]))
      else
        (_ <~ cmd_exec (io_set io ("mesh:endpoint:" +:+ endpoint_key e)%string) (wrap "set mesh endpoint: %w")
               (fun st => with_mesh (peers st) (<[endpoint_key e := (e, deadline)]> (endpoints st)) st) ;;
         set_endpoints io deadline es')%go
  end.

(** Deleting the keys of a family that were not written. *)
Definition prune_family {V} (io : redis_io) (pattern : string) (get : Redis -> gmap string (V * Z))
    (put : gmap string (V * Z) -> Redis -> Redis) (seen : gset string) : cmd Redis unit :=
  let fmt verb e := Errorf verb [AStr pattern; AErr e] in
  (stale <~ cmd_read (io_scan io pattern) (fmt "scan %s: %w") (fun st => Ok (dom (get st) ∖ seen)) ;;
   if Nat.eqb (size stale) 0 then cmd_ret (Ok tt)
   else cmd_exec (io_del io pattern) (fmt "prune %s: %w")
          (fun st => put (filter (fun kv : string * _ => kv.1 ∉ stale) (get st)) st))%go.

Definition ReplaceMeshProjection (io : redis_io) (now : Z) (ps : list MeshPeerRecord)
    (es : list MeshEndpointRecord) (ttl : Z) : cmd Redis unit :=
  if ttl <=? 0 then cmd_ret (Err (errors_New "replace mesh projection: ttl must be > 0"))
  else
    (_ <~ set_peers io now ttl ps ;;
     _ <~ set_endpoints io (now + ttl) es ;;
     _ <~ prune_family io "mesh:peer:*" peers (fun m st => with_mesh m (endpoints st) st)
            (list_to_set (map PNodeID ps)) ;;
     prune_family io "mesh:endpoint:*" endpoints (fun m st => with_mesh (peers st) m st)
       (list_to_set (map endpoint_key es)))%go.

Definition peer_less (a b : MeshPeerRecord) : bool := String.ltb (PNodeID a) (PNodeID b).

Definition ListMeshPeers (io : redis_io) (now : Z) (st : Redis) : res (list MeshPeerRecord) :=
  match io_scan io "mesh:peer:*" with
  | Some e => Err (wrap "scan mesh peers: %w" e)
  | None =>
      match list_live (fun k => io_get io ("mesh:peer:" +:+ k)%string) (wrap "get mesh peer: %w")
              now (peers st) with
      | Err e => Err e
      | Ok out => Ok (sort_by peer_less out)
      end
  end.

Definition GetMeshEndpoint (io : redis_io) (now : Z) (machineID executionID : string) (st : Redis) :
    res (option MeshEndpointRecord) :=
  let key := meshEndpointKey machineID executionID in
  match io_get io ("mesh:endpoint:" +:+ key)%string with
  | Some e => Err (wrap "get mesh endpoint: %w" e)
  | None => Ok (live now (endpoints st !! key))
  end.

(** ** Histories *)

(** A publication that reached Redis with valid arguments. *)
Record publication := mkPublication { p_rev : Z; p_primary : Z; p_items : list HostRoute }.

(** The commands on the route families, from whatever process: the keys of a
    DEL come from a scan made at any earlier time. *)
Inductive event :=
  | Publish (io : redis_io) (hostname : string) (revision : Z) (items : list HostRoute) (primaryPort : Z)
  | DelRoutes (keys : gset (string * Z))
  | DelHosts (keys : gset string)
  | WriteDNS (d : gmap string (InternalDNSRecord * Z))
  | WriteMesh (ps : gmap string (MeshPeerRecord * Z)) (es : gmap string (MeshEndpointRecord * Z)).

Definition apply_event (st : Redis) (ev : event) : Redis :=
  match ev with
  | Publish io h rev items primary => (ReplaceHostRoutes io h rev items primary st).1
  | DelRoutes keys => del_routes keys st
  | DelHosts keys => del_hosts keys st
  | WriteDNS d => with_dns d st
  | WriteMesh ps es => with_mesh ps es st
  end.

Definition history (evs : list event) : Redis := foldl apply_event empty_redis evs.

(** The publication of [h] an event is, when its script ran. *)
Definition publication_of (h : string) (ev : event) : option publication :=
  match ev with
  | Publish io h' rev items primary =>
      if decide (h' = h) then
        match checked_routes h' rev items primary, io_eval io with
        | Ok items', (Done | FailedAfter _) => Some (mkPublication rev primary items')
        | _, _ => None
        end
      else None
  | _ => None
  end.

Definition published (h : string) (evs : list event) : list publication := omap (publication_of h) evs.

Definition is_delete (ev : event) : bool :=
  match ev with DelRoutes _ | DelHosts _ => true | _ => false end.

(** ** Lemmas: arguments *)

Lemma check_routes_ok h rev seen items items' :
  check_routes h rev seen items = Ok items' <->
  items' = map (stamp rev) items /\ NoDup (map Port items) /\
  Forall (fun i => 0 < Port i /\ Port i ∉ seen) items.
Proof.
  revert seen items'. induction items as [|i items IH]; intros seen items'; simpl.
  { split; [intros [= <-]; repeat constructor|]. by intros (-> & _). }
  destruct (_ || _) eqn:Hc.
  { split; [done|]. intros (_ & _ & Hall). apply Forall_cons in Hall as [[Hp Hs] _].
    bool_to_prop. destruct Hc; bool_to_prop; [lia|done]. }
  bool_to_prop. destruct (check_routes _ _ _ _) as [l|e] eqn:Hl.
  - apply IH in Hl as (-> & Hnd & Hall). split.
    + intros [= <-]. split_and!; [done| |].
      * constructor; [|done]. intros (j & Hj & Hin)%list_elem_of_fmap.
        rewrite Forall_forall in Hall. destruct (Hall j Hin) as [_ Hns]. apply Hns. set_solver.
      * constructor; [split; [lia|done]|]. eapply Forall_impl; [exact Hall|]. set_solver.
    + intros (-> & _). done.
  - split; [done|]. intros (-> & Hnd & Hall). apply NoDup_cons in Hnd as [Hni Hnd].
    apply Forall_cons in Hall as [_ Hall].
    enough (check_routes h rev (Port i :: seen) items = Ok (map (stamp rev) items)) by congruence.
    apply IH. split_and!; [done..|]. rewrite Forall_forall in Hall |- *. intros j Hj.
    destruct (Hall j Hj) as [? Hns]. split; [done|].
    intros [Heq|?]%elem_of_cons; [|done]. apply Hni. rewrite <- Heq. by apply list_elem_of_fmap_2.
Qed.

(** What the method accepts: a primary among distinct positive ports. *)
Lemma checked_routes_ok h rev items primary items' :
  checked_routes h rev items primary = Ok items' <->
  items' = map (stamp rev) items /\ NoDup (map Port items) /\
  Forall (fun i => 0 < Port i) items /\ primary ∈ map Port items.
Proof.
  unfold checked_routes. destruct (Nat.eqb _ _) eqn:Hlen.
  { apply Nat.eqb_eq, nil_length_inv in Hlen as ->. split; [done|].
    intros (_ & _ & _ & Hp). by apply not_elem_of_nil in Hp. }
  assert (forall l : list HostRoute, map Port (map (stamp rev) l) = map Port l) as Hports.
  { intros l. by rewrite map_map. }
  destruct (check_routes h rev [] items) as [l|e] eqn:Hl.
  - apply check_routes_ok in Hl as (-> & Hnd & Hall). rewrite Hports.
    assert (Forall (fun i => 0 < Port i) items) as Hpos by (eapply Forall_impl; [exact Hall|]; naive_solver).
    destruct (_ || _) eqn:Hc; bool_to_prop.
    + split; [done|]. intros (_ & _ & _ & Hp).
      destruct Hc as [Hc|Hc]; bool_to_prop; [|done].
      apply list_elem_of_fmap in Hp as (i & -> & Hi). rewrite Forall_forall in Hpos.
      specialize (Hpos i Hi). lia.
    + split; [intros [= <-]; split_and!; done|]. by intros (-> & _).
  - split; [done|]. intros (-> & Hnd & Hall & Hp).
    assert (check_routes h rev [] items = Ok (map (stamp rev) items)) as Heq; [|congruence].
    apply check_routes_ok. split_and!; [done..|]. eapply Forall_impl; [exact Hall|]. set_solver.
Qed.

Lemma stamp_ports rev items : map Port (map (stamp rev) items) = map Port items.
Proof. by rewrite map_map. Qed.

Lemma NoDup_route_entries h items : NoDup (map Port items) -> NoDup (route_entries h items).*1.
Proof.
  intros Hnd. unfold route_entries. rewrite <- list_fmap_compose.
  change (NoDup (map (fun i => (h, Port i)) items)).
  rewrite <- (map_map Port (pair h)). apply NoDup_fmap_2; [|done]. intros ? ? [=]; done.
Qed.

Lemma lookup_del_ports h ports rt h' p :
  del_ports h ports rt !! (h', p) = if decide (h' = h /\ p ∈ ports) then None else rt !! (h', p).
Proof.
  revert rt. induction ports as [|q ports IH]; intros rt; cbn.
  { case_decide as Hd; [|done]. destruct Hd as [_ Hd]. by apply not_elem_of_nil in Hd. }
  unfold del_ports in IH |- *. rewrite IH. repeat case_decide; try set_solver.
  - destruct (decide (h' = h /\ p = q)) as [[-> ->]|Hne]; [by rewrite lookup_delete_eq|].
    exfalso. set_solver.
  - apply lookup_delete_ne. intros [=]; set_solver.
Qed.

(** ** Lemmas: the script *)

(** What an applied script leaves at each key. *)
Lemma script_applied h primary rev items st st' n :
  replaceHostRoutes h primary rev items st = (st', n) -> route_revision st h < rev ->
  NoDup (map Port items) ->
  n = 1 /\
  routerev st' = <[h := rev]> (routerev st) /\
  hostidx st' = <[h := IdxPorts (ordered_ports primary items)]> (hostidx st) /\
  (forall i, i ∈ items -> routes st' !! (h, Port i) = Some (HRoute i)) /\
  (forall p, p ∉ map Port items -> p ∈ old_ports st h -> routes st' !! (h, p) = None) /\
  (forall h' p, h' <> h -> routes st' !! (h', p) = routes st !! (h', p)).
Proof.
  unfold replaceHostRoutes. intros Heq Hrev Hnd. destruct (Z.leb_spec rev (route_revision st h)); [lia|].
  injection Heq as <- <-. cbn [routerev hostidx routes with_routes].
  split_and!; [done..| | |].
  - intros i Hi. rewrite lookup_del_ports. rewrite decide_False.
    + apply lookup_insert_all; [by apply NoDup_route_entries|].
      unfold route_entries. change (map ?f ?l) with (f <$> l). by apply (list_elem_of_fmap_2 (fun item => ((h, Port item), HRoute item))).
    + intros [_ Hp]. apply list_elem_of_filter in Hp as [Hp _]. apply Hp. by apply list_elem_of_fmap_2.
  - intros p Hp Hold. rewrite lookup_del_ports, decide_True; [done|]. split; [done|].
    by apply list_elem_of_filter.
  - intros h' p Hh. rewrite lookup_del_ports, decide_False by naive_solver.
    apply lookup_insert_all_ne. unfold route_entries.
    intros (x & Hx & Hin)%list_elem_of_fmap. apply list_elem_of_fmap in Hin as (i & -> & _).
    cbn in Hx. congruence.
Qed.

Lemma script_refused h primary rev items st :
  rev <= route_revision st h -> replaceHostRoutes h primary rev items st = (st, 0).
Proof. intros Hle. unfold replaceHostRoutes. by rewrite (proj2 (Z.leb_le _ _) Hle). Qed.

Lemma elem_of_ordered_ports primary items p :
  p ∈ ordered_ports primary items <-> p = primary \/ p ∈ map Port items.
Proof.
  unfold ordered_ports. rewrite elem_of_cons, list_elem_of_filter.
  destruct (decide (p = primary)); naive_solver.
Qed.

(** Looking up where the index is there. *)
Lemma lookup_declared h port primary items st :
  hostidx st !! h = Some (IdxPorts (ordered_ports primary items)) -> primary ∈ map Port items ->
  GetRouteForPort healthy h port st =
    if bool_decide (port ∈ map Port items) then (routes st !! (h, port), true, None) else (None, false, None).
Proof.
  intros Hidx Hprim. unfold GetRouteForPort, HostPorts, GetRoute. cbn [io_get healthy]. rewrite Hidx.
  cbn [parsePorts]. pose proof (elem_of_ordered_ports primary items port) as Hiff.
  unfold ordered_ports in Hiff |- *. destruct (Z.eqb_spec port primary) as [->|Hne]; cbn [negb].
  - by rewrite bool_decide_eq_true_2.
  - rewrite (bool_decide_ext _ (port ∈ map Port items)) by naive_solver. by case_bool_decide.
Qed.

(** The effect of an event on the route families. *)
Lemma apply_event_none h ev st :
  publication_of h ev = None ->
  let st' := apply_event st ev in
  routerev st' !! h = routerev st !! h /\
  (hostidx st' !! h = None \/ hostidx st' !! h = hostidx st !! h) /\
  (forall p, routes st' !! (h, p) = None \/ routes st' !! (h, p) = routes st !! (h, p)).
Proof.
  destruct ev as [io h' rev items primary|keys|keys|d|ps es]; cbn -[checked_routes]; [|intros _..].
  - unfold ReplaceHostRoutes. destruct (checked_routes _ _ _ _) as [items'|e] eqn:Hc; [|by auto].
    destruct (decide (h' = h)) as [->|Hne].
    + destruct (replaceHostRoutes _ _ _ _ _) as [st' n]. destruct (io_eval io); by auto.
    + intros _. destruct (replaceHostRoutes h' primary rev items' st) as [st' n] eqn:Hs.
      assert (routerev st' !! h = routerev st !! h /\ hostidx st' !! h = hostidx st !! h /\
              forall p, routes st' !! (h, p) = routes st !! (h, p)) as (H1 & H2 & H3).
      { destruct (Z.leb_spec rev (route_revision st h')) as [Hle|Hgt].
        - rewrite script_refused in Hs by done. by simplify_eq.
        - apply checked_routes_ok in Hc as (-> & Hnd & _ & _).
          apply script_applied in Hs as (_ & -> & -> & _ & _ & Hr); [|done|by rewrite map_map].
          split_and!; [by rewrite lookup_insert_ne..|]. intros p. by apply Hr. }
      destruct (io_eval io); cbn; by auto.
  - split_and!; [done|by right|]. intros p. cbn.
    destruct (routes st !! (h, p)) as [r|] eqn:Hr.
    + destruct (decide ((h, p) ∈ keys)) as [Hin|Hin].
      * left. apply map_lookup_filter_None. right. intros ? _ Hn. by apply Hn.
      * right. apply map_lookup_filter_Some. done.
    + left. apply map_lookup_filter_None. by left.
  - split_and!; [done| |by right]. cbn.
    destruct (hostidx st !! h) as [r|] eqn:Hr.
    + destruct (decide (h ∈ keys)) as [Hin|Hin].
      * left. apply map_lookup_filter_None. right. intros ? _ Hn. by apply Hn.
      * right. apply map_lookup_filter_Some. done.
    + left. apply map_lookup_filter_None. by left.
  - by auto.
  - by auto.
Qed.

Lemma apply_event_some h ev st pub :
  publication_of h ev = Some pub ->
  apply_event st ev = (replaceHostRoutes h (p_primary pub) (p_rev pub) (p_items pub) st).1 /\
  NoDup (map Port (p_items pub)) /\ p_primary pub ∈ map Port (p_items pub) /\
  Forall (fun i => 0 < Port i /\ Revision (HRoute i) = p_rev pub) (p_items pub).
Proof.
  destruct ev as [io h' rev items primary| | | |]; cbn -[checked_routes]; try done.
  unfold ReplaceHostRoutes. case_decide as Hh; [subst h'|done].
  destruct (checked_routes _ _ _ _) as [items'|e] eqn:Hc; [|done]. intros Hp.
  assert (pub = mkPublication rev primary items') as -> by (destruct (io_eval io); congruence). cbn.
  apply checked_routes_ok in Hc as (-> & Hnd & Hpos & Hprim). rewrite map_map. cbn. split_and!; [|done..|].
  - destruct (replaceHostRoutes _ _ _ _ _) as [st' n]. by destruct (io_eval io).
  - rewrite Forall_map. eapply Forall_impl; [exact Hpos|]. done.
Qed.

(** ** The invariant of a history *)

Definition at_most (z : Z) (pub : publication) : Prop := p_rev pub <= z.

(** [pub] is the publication of [h] the projection shows, as far as it shows one. *)
Definition shows (st : Redis) (h : string) (pub : publication) : Prop :=
  0 < p_rev pub /\ routerev st !! h = Some (p_rev pub) /\
  (hostidx st !! h = None \/ hostidx st !! h = Some (IdxPorts (ordered_ports (p_primary pub) (p_items pub)))) /\
  (forall i, i ∈ p_items pub ->
     routes st !! (h, Port i) = None \/ routes st !! (h, Port i) = Some (HRoute i)).

Definition tracked (evs : list event) (h : string) (st : Redis) : Prop :=
  (routerev st !! h = None /\ hostidx st !! h = None /\ Forall (at_most 0) (published h evs)) \/
  exists pub, pub ∈ published h evs /\ Forall (at_most (p_rev pub)) (published h evs) /\
    p_primary pub ∈ map Port (p_items pub) /\ shows st h pub.

Lemma published_snoc h evs ev :
  published h (evs ++ [ev]) =
  published h evs ++ match publication_of h ev with Some p => [p] | None => [] end.
Proof. unfold published. rewrite omap_app. cbn. by destruct (publication_of h ev). Qed.

Lemma history_snoc evs ev : history (evs ++ [ev]) = apply_event (history evs) ev.
Proof. unfold history. by rewrite foldl_app. Qed.

Lemma at_most_weaken a b l : a <= b -> Forall (at_most a) l -> Forall (at_most b) l.
Proof. intros Hab Hl. eapply Forall_impl; [exact Hl|]. unfold at_most. intros; lia. Qed.

Lemma shows_event st h pub ev : publication_of h ev = None -> shows st h pub -> shows (apply_event st ev) h pub.
Proof.
  intros Hn (Hpos & Hrev & Hidx & Hr). pose proof (apply_event_none h ev st Hn) as (H1 & H2 & H3).
  split_and!; [done|by rewrite H1| |].
  - destruct H2 as [->| ->]; auto.
  - intros i Hi. destruct (H3 (Port i)) as [->| ->]; auto.
Qed.

Lemma history_tracked evs h : tracked evs h (history evs).
Proof.
  induction evs as [|ev evs IH] using rev_ind; [left; by repeat constructor|].
  rewrite history_snoc. unfold tracked. rewrite published_snoc.
  destruct (publication_of h ev) as [pub|] eqn:Hp.
  - pose proof (apply_event_some h ev (history evs) pub Hp) as (-> & Hnd & Hprim & Hall).
    destruct (replaceHostRoutes h (p_primary pub) (p_rev pub) (p_items pub) (history evs)) as [st' n] eqn:Hs.
    destruct (Z.leb_spec (p_rev pub) (route_revision (history evs) h)) as [Hle|Hgt].
    + rewrite script_refused in Hs by done. simplify_eq. cbn. unfold route_revision in Hle.
      destruct IH as [(Hr & Hi & Hle')|(pub' & Hin & Hmax & Hprim' & Hsh)].
      * left. rewrite Hr in Hle. cbn in Hle. split_and!; [done..|]. apply Forall_app_2; [done|].
        constructor; [exact Hle|constructor].
      * right. exists pub'. pose proof Hsh as (_ & Hr & _). rewrite Hr in Hle. cbn in Hle.
        split_and!; [set_solver| |done..]. apply Forall_app_2; [done|]. constructor; [exact Hle|constructor].
    + right. exists pub. apply script_applied in Hs as (_ & Hr & Hi & Hrt & _ & _); [|done..]. cbn.
      unfold route_revision in Hgt. split_and!; [set_solver| |done|].
      * apply Forall_app_2; [|repeat constructor; unfold at_most; lia].
        destruct IH as [(Hr' & _ & Hle)|(pub' & _ & Hmax & _ & (_ & Hr' & _))]; rewrite Hr' in Hgt; cbn in Hgt.
        -- eapply at_most_weaken; [|exact Hle]. lia.
        -- eapply at_most_weaken; [|exact Hmax]. lia.
      * split_and!.
        -- destruct IH as [(Hr' & _)|(pub' & _ & _ & _ & (? & Hr' & _))]; rewrite Hr' in Hgt; cbn in Hgt; lia.
        -- rewrite Hr. apply lookup_insert_eq.
        -- right. rewrite Hi. apply lookup_insert_eq.
        -- intros i Hin. right. by apply Hrt.
  - rewrite app_nil_r. destruct IH as [(Hr & Hi & Hle)|(pub' & Hin & Hmax & Hprim & Hsh)].
    + left. pose proof (apply_event_none h ev (history evs) Hp) as (H1 & H2 & _).
      rewrite H1. split_and!; [done| |done]. destruct H2 as [->| ->]; done.
    + right. exists pub'. split_and!; [done..|]. by apply shows_event.
Qed.

(** What an applied publication leaves at each key. *)
Lemma replace_applied h rev items primary st :
  NoDup (map Port items) -> Forall (fun i => 0 < Port i) items -> primary ∈ map Port items ->
  route_revision st h < rev ->
  exists st', ReplaceHostRoutes healthy h rev items primary st = (st', Ok true) /\
    routerev st' = <[h := rev]> (routerev st) /\
    hostidx st' = <[h := IdxPorts (ordered_ports primary (map (stamp rev) items))]> (hostidx st) /\
    (forall i, i ∈ items -> routes st' !! (h, Port i) = Some (HRoute (stamp rev i))) /\
    (forall p, p ∉ map Port items -> p ∈ old_ports st h -> routes st' !! (h, p) = None) /\
    (forall h' p, h' <> h -> routes st' !! (h', p) = routes st !! (h', p)).
Proof.
  intros Hnd Hpos Hprim Hrev.
  assert (checked_routes h rev items primary = Ok (map (stamp rev) items)) as Hc
    by (by apply checked_routes_ok).
  assert (map Port (map (stamp rev) items) = map Port items) as Hports by (by rewrite map_map).
  destruct (replaceHostRoutes h primary rev (map (stamp rev) items) st) as [st' n] eqn:Hs.
  pose proof Hs as Hs'.
  apply script_applied in Hs' as (-> & Hr & Hi & Hrt & Hold & Hoth); [|done|by rewrite Hports].
  exists st'. unfold ReplaceHostRoutes. rewrite Hc, Hs, <- Hports. split_and!; [done..| |done|done].
  intros i Hin. apply (Hrt (stamp rev i)). by apply list_elem_of_fmap_2.
Qed.

(** Whatever the outcome, the high-water mark only moves to the revision of a
    publication above it. *)
Lemma replace_routerev io h rev items primary st h' :
  let st' := (ReplaceHostRoutes io h rev items primary st).1 in
  routerev st' !! h' = routerev st !! h' \/ h' = h /\ routerev st' !! h' = Some rev /\ route_revision st h < rev.
Proof.
  cbn zeta. unfold ReplaceHostRoutes. destruct (checked_routes _ _ _ _) as [items'|e]; [|by left].
  unfold replaceHostRoutes. destruct (Z.leb_spec rev (route_revision st h)) as [|Hlt].
  - destruct (io_eval io); by left.
  - destruct (io_eval io); [|by left|];
      (destruct (decide (h' = h)) as [->|Hne];
       [right; cbn; by rewrite lookup_insert_eq|left; cbn; by rewrite lookup_insert_ne]).
Qed.

(** ** Properties *)

(** Whatever publications (of any process, in any order, with lost
    replies), prunes and wipes have reached Redis, a route an edge finds for a
    declared port is the one of the publication of that hostname with the
    highest revision of all that were ever received: never that of an older one. *)
Theorem lookup_latest evs h port route :
  GetRouteForPort healthy h port (history evs) = (Some route, true, None) ->
  exists pub i, pub ∈ published h evs /\ Forall (at_most (p_rev pub)) (published h evs) /\
    i ∈ p_items pub /\ Port i = port /\ HRoute i = route.
Proof.
  destruct (history_tracked evs h) as [(_ & Hi & _)|(pub & Hin & Hmax & Hprim & (_ & _ & [Hidx|Hidx] & Hr))].
  1, 2: unfold GetRouteForPort, HostPorts; cbn [io_get healthy]; by rewrite ?Hi, ?Hidx.
  rewrite (lookup_declared _ _ _ _ _ Hidx Hprim). case_bool_decide as Hp; [|done]. intros [= Hroute].
  apply list_elem_of_fmap in Hp as (i & -> & Hi). exists pub, i. split_and!; [done..|].
  destruct (Hr i Hi) as [Hr'|Hr']; congruence.
Qed.

(** After a publication of a hostname has been received, one that does not
    carry a higher revision is refused and changes nothing, whatever prunes,
    wipes and other publications came in between: deleting a projection does
    not forget the revision it had. *)
Theorem replay_refused evs h pub io rev items primary items' :
  pub ∈ published h evs -> rev <= p_rev pub -> 0 <= rev ->
  checked_routes h rev items primary = Ok items' -> io_eval io = Done ->
  ReplaceHostRoutes io h rev items primary (history evs) = (history evs, Ok false).
Proof.
  intros Hin Hle H0 Hc Ho. unfold ReplaceHostRoutes. rewrite Hc, Ho.
  rewrite script_refused; [done|].
  unfold route_revision.
  destruct (history_tracked evs h) as [(-> & _ & Hall)|(pub' & _ & Hall & _ & (_ & -> & _))];
    rewrite Forall_forall in Hall; specialize (Hall pub Hin); unfold at_most in Hall; cbn; lia.
Qed.

(** A publication with valid ports and a revision above the high-water mark
    is applied: each of its ports then resolves to its routes stamped with
    that revision, the hostname itself to the primary's, every other port is
    undeclared, the routes the old index named are gone, and no other
    hostname is touched. *)
Theorem publish_then_lookup h rev items primary st :
  NoDup (map Port items) -> Forall (fun i => 0 < Port i) items -> primary ∈ map Port items ->
  route_revision st h < rev ->
  exists st', ReplaceHostRoutes healthy h rev items primary st = (st', Ok true) /\
    route_revision st' h = rev /\
    (forall i, i ∈ items ->
       GetRouteForPort healthy h (Port i) st' = (Some (HRoute (stamp rev i)), true, None) /\
       (Port i = primary -> GetRouteForHostname healthy h st' = Ok (Some (HRoute (stamp rev i))))) /\
    (forall p, p ∉ map Port items -> GetRouteForPort healthy h p st' = (None, false, None)) /\
    (forall p, p ∉ map Port items -> p ∈ old_ports st h -> routes st' !! (h, p) = None) /\
    (forall h' p, h' <> h -> GetRouteForPort healthy h' p st' = GetRouteForPort healthy h' p st).
Proof.
  intros Hnd Hpos Hprim Hrev.
  destruct (replace_applied h rev items primary st) as (st' & Heq & Hr & Hi & Hlook & Hold & Hoth); [done..|].
  exists st'. split; [done|].
  assert (map Port (map (stamp rev) items) = map Port items) as Hports by (by rewrite map_map).
  assert (hostidx st' !! h = Some (IdxPorts (ordered_ports primary (map (stamp rev) items)))) as Hidx
    by (rewrite Hi; apply lookup_insert_eq).
  split_and!.
  - unfold route_revision. rewrite Hr, lookup_insert_eq. done.
  - intros i Hin. split.
    + rewrite (lookup_declared _ _ _ _ _ Hidx), Hports, (Hlook i Hin) by (by rewrite Hports).
      rewrite bool_decide_eq_true_2; [done|]. by apply list_elem_of_fmap_2.
    + intros Hp. unfold GetRouteForHostname, HostPorts, GetRoute. cbn [io_get healthy]. rewrite Hidx. cbn.
      by rewrite <- Hp, (Hlook i Hin).
  - intros p Hp. rewrite (lookup_declared _ _ _ _ _ Hidx), Hports by (by rewrite Hports).
    by rewrite bool_decide_eq_false_2.
  - done.
  - intros h' p Hne. unfold GetRouteForPort, HostPorts, GetRoute. cbn [io_get healthy].
    rewrite Hi, lookup_insert_ne by done. by rewrite Hoth.
Qed.

(** ** Lemmas: projections with a TTL *)

Lemma del_filter {V} (seen : gset string) (m : gmap string V) :
  filter (fun kv : string * V => kv.1 ∉ dom m ∖ seen) m = filter (fun kv : string * V => kv.1 ∈ seen) m.
Proof.
  apply map_filter_ext. intros k v Hv. cbn. rewrite elem_of_difference.
  assert (k ∈ dom m) by (by eapply elem_of_dom_2). destruct (decide (k ∈ seen)); naive_solver.
Qed.

Lemma filter_empty_set {V} (keys : gset string) (m : gmap string V) :
  size keys = 0%nat -> filter (fun kv : string * V => kv.1 ∉ keys) m = m.
Proof.
  intros Hs. apply size_empty_inv in Hs. apply map_filter_id. intros k v _. cbn. set_solver.
Qed.

Lemma list_live_ok {V} fail now (m : gmap string (V * Z)) :
  list_live (fun _ => None) fail now m = Ok (omap (fun kv => live now (Some kv.2)) (map_to_list m)).
Proof.
  unfold list_live. induction (map_to_list m) as [|[k [v d]] l IH]; [done|]. cbn in IH |- *. rewrite IH.
  cbn. by destruct (now <? d).
Qed.

(** Listing a family that was just written. *)
Lemma omap_live_written {V} (key : V -> string) (vs : list V) now t ttl :
  NoDup (map key vs) ->
  omap (fun kv => live t (Some kv.2))
    (map_to_list (list_to_map (map (fun v => (key v, (v, now + ttl))) vs) : gmap string (V * Z)))
  ≡ₚ (if t <? now + ttl then vs else []).
Proof.
  intros Hnd. rewrite map_to_list_to_map by (rewrite <- list_fmap_compose; exact Hnd).
  assert (omap (fun kv : string * (V * Z) => live t (Some kv.2)) (map (fun v => (key v, (v, now + ttl))) vs)
          = if t <? now + ttl then vs else []) as ->; [|done].
  clear Hnd. induction vs as [|v vs IH]; [by destruct (t <? _)|]. cbn in IH |- *. rewrite IH.
  by destruct (t <? now + ttl).
Qed.

Lemma set_dns_ok deadline records st :
  Forall (fun r => Name r <> ""%string /\ AAAA r <> []) records ->
  set_dns healthy deadline records st =
    (with_dns (insert_all (map (fun r => (internalDNSKey (Name r), (r, deadline))) records) (dns st)) st, Ok tt).
Proof.
  intros Hall. revert st. induction Hall as [|r records [Hn Ha] _ IH]; intros st; [by destruct st|].
  cbn -[String.eqb Nat.eqb]. apply String.eqb_neq in Hn as ->.
  destruct (Nat.eqb_spec (length (AAAA r)) 0) as [Hl|_]; [by apply nil_length_inv in Hl|].
  cbn -[String.eqb Nat.eqb set_dns]. unfold cmd_bind. cbn -[set_dns]. by rewrite IH.
Qed.

Lemma set_peers_ok now ttl ps st :
  Forall (fun p => peer_complete p = true) ps ->
  set_peers healthy now ttl ps st =
    (with_mesh (insert_all (map (fun p => (PNodeID p, (touch now p, now + ttl))) ps) (peers st))
       (endpoints st) st, Ok tt).
Proof.
  intros Hall. revert st. induction Hall as [|p ps Hp _ IH]; intros st; [by destruct st|].
  cbn -[peer_complete]. rewrite Hp. cbn. unfold cmd_bind. cbn -[set_peers]. by rewrite IH.
Qed.

Lemma set_endpoints_ok deadline es st :
  Forall (fun e => endpoint_complete e = true) es ->
  set_endpoints healthy deadline es st =
    (with_mesh (peers st) (insert_all (map (fun e => (endpoint_key e, (e, deadline))) es) (endpoints st)) st,
     Ok tt).
Proof.
  intros Hall. revert st. induction Hall as [|e es He _ IH]; intros st; [by destruct st|].
  cbn -[endpoint_complete]. rewrite He. cbn. unfold cmd_bind. cbn -[set_endpoints]. by rewrite IH.
Qed.

Lemma prune_family_ok {V} pattern (get : Redis -> gmap string (V * Z)) put seen st :
  put (get st) st = st ->
  prune_family healthy pattern get put seen st =
    (put (filter (fun kv : string * _ => kv.1 ∈ seen) (get st)) st, Ok tt).
Proof.
  intros Hid. unfold prune_family, cmd_bind. cbn -[Nat.eqb size].
  destruct (Nat.eqb_spec (size (dom (get st) ∖ seen)) 0) as [Hs|_].
  - rewrite <- del_filter, (filter_empty_set _ _ Hs). cbn. by rewrite Hid.
  - cbn. by rewrite del_filter.
Qed.

Lemma NoDup_keys {V} (key : V -> string) (deadline : Z) (vs : list V) :
  NoDup (map key vs) -> NoDup (map (fun v => (key v, (v, deadline))) vs).*1.
Proof. by rewrite <- list_fmap_compose. Qed.

(** A written and pruned family is the list that was given. *)
Lemma written_family {V W} (key : V -> string) (f : V -> W) (deadline : Z) (vs : list V)
    (m : gmap string (W * Z)) :
  NoDup (map key vs) ->
  filter (fun kv : string * _ => kv.1 ∈@{gset string} list_to_set (map key vs))
    (insert_all (map (fun v => (key v, (f v, deadline))) vs) m)
  = list_to_map (map (fun v => (key v, (f v, deadline))) vs).
Proof.
  intros Hnd.
  assert ((map (fun v => (key v, (f v, deadline))) vs).*1 = map key vs) as Hk
    by (by rewrite <- list_fmap_compose).
  rewrite <- (replace_all _ m) by (by rewrite Hk).
  apply map_filter_ext. intros k v _. cbn. rewrite Hk. by rewrite elem_of_list_to_set.
Qed.

(** The listing sorted by a name the entries differ in. *)
Lemma sort_listed {V} (name : V -> string) (vs : list V) (c : bool) l :
  NoDup (map name vs) -> l ≡ₚ (if c then vs else []) ->
  sort_by (fun a b => String.ltb (name a) (name b)) l =
  if c then sort_by (fun a b => String.ltb (name a) (name b)) vs else [].
Proof.
  intros Hnd Hp. rewrite (sort_by_name name l (if c then vs else [])); [by destruct c| |done].
  rewrite Hp. destruct c; [done|constructor].
Qed.

(** Records a round may publish. *)
Definition dns_valid (r : InternalDNSRecord) : Prop :=
  AAAA r <> [] /\ exists base, Name r = (base +:+ ".internal")%string.

Lemma dns_keys_distinct records :
  NoDup (map Name records) -> Forall dns_valid records ->
  NoDup (map (fun r => internalDNSKey (Name r)) records).
Proof.
  intros Hnd Hall.
  rewrite <- (map_map Name internalDNSKey). rewrite <- list_fmap_compose.
  apply (NoDup_fmap_2_strong (fun r => internalDNSKey (Name r))); [|by apply NoDup_fmap_1 in Hnd].
  intros r1 r2 H1 H2 Heq. rewrite Forall_forall in Hall.
  destruct (Hall r1 H1) as [_ [b1 E1]], (Hall r2 H2) as [_ [b2 E2]].
  unfold internalDNSKey in Heq. rewrite E1, E2, !trim_suffix_app in Heq. subst b2.
  apply list_elem_of_lookup in H1 as [i Hi], H2 as [j Hj].
  assert (i = j) as ->; [|congruence].
  eapply NoDup_lookup; [exact Hnd|by rewrite list_lookup_fmap, Hi|].
  rewrite list_lookup_fmap, Hj. cbn. congruence.
Qed.

Definition dns_entries (deadline : Z) (records : list InternalDNSRecord) :
    list (string * (InternalDNSRecord * Z)) :=
  map (fun r => (internalDNSKey (Name r), (r, deadline))) records.

(** What a round leaves. *)
Lemma replace_internal_dns_ok now records ttl st :
  0 < ttl -> NoDup (map Name records) -> Forall dns_valid records ->
  ReplaceInternalDNS healthy now records ttl st =
    (with_dns (list_to_map (dns_entries (now + ttl) records)) st, Ok tt).
Proof.
  intros Httl Hnd Hall. unfold ReplaceInternalDNS. rewrite (proj2 (Z.leb_gt ttl 0)) by done.
  pose proof (dns_keys_distinct records Hnd Hall) as Hkeys.
  set (entries := dns_entries (now + ttl) records).
  assert (forall m : gmap string (InternalDNSRecord * Z),
    filter (fun kv : string * _ =>
              kv.1 ∉ filter (fun k : string => (k +:+ ".internal")%string ∉@{gset string} list_to_set (map Name records))
                       (dom (insert_all entries m)))
      (insert_all entries m) = list_to_map entries) as Hfinal.
  { intros m. unfold entries, dns_entries.
    rewrite <- (written_family (fun r => internalDNSKey (Name r)) (fun r => r) (now + ttl) records m Hkeys).
    apply map_filter_ext. intros k v Hv. cbn. rewrite elem_of_filter, !elem_of_list_to_set.
    apply elem_of_dom_2 in Hv.
    assert ((k +:+ ".internal")%string ∈ map Name records <->
            k ∈ map (fun r => internalDNSKey (Name r)) records) as Hiff; [|destruct (decide (k ∈ map (fun r => internalDNSKey (Name r)) records)); naive_solver].
    rewrite Forall_forall in Hall. split; intros (r & E & Hr)%list_elem_of_fmap.
    - apply list_elem_of_fmap. exists r. split; [|done]. unfold internalDNSKey.
      by rewrite <- E, trim_suffix_app.
    - apply list_elem_of_fmap. exists r. split; [|done].
      destruct (Hall r Hr) as [_ [b Eb]]. subst k. unfold internalDNSKey. by rewrite Eb, trim_suffix_app. }
  unfold cmd_bind at 1. rewrite set_dns_ok.
    2: { eapply Forall_impl; [exact Hall|]. intros r [Ha [b ->]]. split; [|done].
         intros E. apply (f_equal String.length) in E. rewrite string_app_length in E. cbn in E. lia. }
    fold (dns_entries (now + ttl) records) entries. cbv beta iota. unfold cmd_bind, cmd_read, del_some. cbn [io_scan io_del healthy with_dns dns].
    set (stale := filter _ (dom (insert_all entries (dns st)))).
    pose proof (Hfinal (dns st)) as Hst. change (filter _ (dom (insert_all entries (dns st)))) with stale in Hst.
    clearbody stale. destruct (Nat.eqb_spec (size stale) 0) as [Hs|_].
    + rewrite (filter_empty_set _ _ Hs) in Hst. cbn. unfold with_dns. cbn. by rewrite Hst.
    + cbn. unfold with_dns. cbn. by rewrite Hst.
Qed.

Lemma list_internal_dns t deadline records st :
  NoDup (map Name records) -> Forall dns_valid records ->
  ListInternalDNS healthy t (with_dns (list_to_map (dns_entries deadline records)) st) =
    Ok (if t <? deadline then sort_by dns_less records else []).
Proof.
  intros Hnd Hall. pose proof (dns_keys_distinct records Hnd Hall) as Hkeys.
  unfold ListInternalDNS. cbn [io_scan io_get healthy dns with_dns]. rewrite list_live_ok. f_equal.
  pose proof (omap_live_written (fun r => internalDNSKey (Name r)) records 0 t deadline Hkeys) as Hp.
  rewrite Z.add_0_l in Hp. apply (sort_listed Name records _ _ Hnd Hp).
Qed.

(** The .internal records a round publishes are the records a
    listing gives, sorted by name, until the TTL has passed; afterwards, and
    for every name the round left out, nothing is served. *)
Theorem internal_dns_round_trip now records ttl t st :
  0 < ttl -> NoDup (map Name records) ->
  Forall dns_valid records ->
  exists st', ReplaceInternalDNS healthy now records ttl st = (st', Ok tt) /\
    ListInternalDNS healthy t st' = Ok (if t <? now + ttl then sort_by dns_less records else []).
Proof.
  intros Httl Hnd Hall. eexists. split; [by apply replace_internal_dns_ok|by apply list_internal_dns].
Qed.

(** After a mesh projection was replaced, and until its TTL has passed, the
    peers listed are the ones given, with the time of the write, and the entry
    of an execution is found exactly when the round named it; afterwards both
    are gone. *)
Theorem mesh_projection_round_trip now ps es ttl t st :
  0 < ttl -> NoDup (map PNodeID ps) -> NoDup (map endpoint_key es) ->
  Forall (fun p => peer_complete p = true) ps -> Forall (fun e => endpoint_complete e = true) es ->
  exists st', ReplaceMeshProjection healthy now ps es ttl st = (st', Ok tt) /\
    ListMeshPeers healthy t st' =
      Ok (if t <? now + ttl then sort_by peer_less (map (touch now) ps) else []) /\
    (forall e, e ∈ es -> t < now + ttl ->
       GetMeshEndpoint healthy t (EMachineID e) (EExecutionID e) st' = Ok (Some e)) /\
    (forall m x, meshEndpointKey m x ∉ map endpoint_key es \/ now + ttl <= t ->
       GetMeshEndpoint healthy t m x st' = Ok None).
Proof.
  intros Httl Hps Hes Hpc Hec. unfold ReplaceMeshProjection. rewrite (proj2 (Z.leb_gt ttl 0)) by done.
  exists (with_mesh (list_to_map (map (fun p => (PNodeID p, (touch now p, now + ttl))) ps))
            (list_to_map (map (fun e => (endpoint_key e, (e, now + ttl))) es)) st).
  split_and!.
  - unfold cmd_bind at 1. rewrite (set_peers_ok _ _ _ _ Hpc).
    unfold cmd_bind at 1. rewrite (set_endpoints_ok _ _ _ Hec).
    unfold cmd_bind at 1. rewrite prune_family_ok by done. rewrite prune_family_ok by done.
    unfold with_mesh. cbn -[insert_all]. by rewrite !written_family.
  - unfold ListMeshPeers. cbn [io_scan io_get healthy peers with_mesh]. rewrite list_live_ok. f_equal.
    assert (map (fun p => (PNodeID p, (touch now p, now + ttl))) ps
            = map (fun q => (PNodeID q, (q, now + ttl))) (map (touch now) ps)) as ->
      by (by rewrite map_map).
    assert (NoDup (map PNodeID (map (touch now) ps))) as Hnd by (by rewrite map_map).
    apply (sort_listed PNodeID (map (touch now) ps)); [done|]. by apply omap_live_written.
  - intros e He Ht. unfold GetMeshEndpoint. cbn [io_get healthy endpoints with_mesh].
    change (meshEndpointKey (EMachineID e) (EExecutionID e)) with (endpoint_key e).
    assert ((list_to_map (map (fun e => (endpoint_key e, (e, now + ttl))) es) : gmap string _)
              !! endpoint_key e = Some (e, now + ttl)) as ->.
    { apply elem_of_list_to_map; [by apply NoDup_keys|].
      apply (list_elem_of_fmap_2 (fun e => (endpoint_key e, (e, now + ttl)))). done. }
    cbn. by rewrite (proj2 (Z.ltb_lt _ _) Ht).
  - intros m x Hmx. unfold GetMeshEndpoint. cbn [io_get healthy endpoints with_mesh].
    destruct ((list_to_map _ : gmap string _) !! meshEndpointKey m x) as [[e d]|] eqn:Hl; [|done].
    apply elem_of_list_to_map_2, list_elem_of_fmap in Hl as (e' & [= Hk -> ->] & He).
    destruct Hmx as [Hn|Ht].
    + exfalso. apply Hn. rewrite Hk. by apply list_elem_of_fmap_2.
    + cbn. by rewrite (proj2 (Z.ltb_ge _ _) Ht).
Qed.

(** ** Prunes and wipes as commands of a history *)

Lemma del_some_routes o format keys st :
  exists evs, Forall (fun ev => is_delete ev = true) evs /\
    (del_some o format keys del_routes st).1 = foldl apply_event st evs.
Proof.
  unfold del_some. destruct (Nat.eqb _ _); [by exists []|].
  destruct o; [exists [DelRoutes keys]|by exists []|exists [DelRoutes keys]]; by repeat constructor.
Qed.

Lemma del_some_hosts o format keys st :
  exists evs, Forall (fun ev => is_delete ev = true) evs /\
    (del_some o format keys del_hosts st).1 = foldl apply_event st evs.
Proof.
  unfold del_some. destruct (Nat.eqb _ _); [by exists []|].
  destruct o; [exists [DelHosts keys]|by exists []|exists [DelHosts keys]]; by repeat constructor.
Qed.

(** A prune, also one that fails half way, is some deletions of a history. *)
Lemma prune_is_commands io kr kh st :
  exists evs, Forall (fun ev => is_delete ev = true) evs /\
    (PruneRoutes io kr kh st).1 = foldl apply_event st evs.
Proof.
  unfold PruneRoutes, cmd_bind, cmd_read.
  destruct (io_scan io "route:*"); [by exists []|]. destruct (io_scan io "hostidx:*"); [by exists []|].
  destruct (del_some_routes (io_del io "route:*") "prune routes: %w" (stale_routes kr st) st) as (evs & Hall & Heq).
  destruct (del_some _ _ _ del_routes st) as [st1 [u|e]]; cbn in Heq; subst st1; [|by exists evs].
  destruct (del_some_hosts (io_del io "hostidx:*") "prune host indexes: %w" (stale_hosts kh st)
              (foldl apply_event st evs)) as (evs' & Hall' & Heq).
  exists (evs ++ evs'). rewrite foldl_app. split; [by apply Forall_app_2|done].
Qed.

Lemma prune_healthy kr kh st :
  PruneRoutes healthy kr kh st =
    (with_routes (filter (fun kv : (string * Z) * Route => kv.1 ∈ kr) (routes st))
       (filter (fun kv : string * host_index => kv.1 ∈ kh) (hostidx st)) (routerev st) st, Ok tt).
Proof.
  assert (forall s, del_some Done "prune routes: %w" (stale_routes kr st) del_routes s =
            (del_routes (stale_routes kr st) s, Ok tt)) as H1.
  { intros s. unfold del_some. destruct (Nat.eqb_spec (size (stale_routes kr st)) 0) as [Hs|]; [|done].
    apply size_empty_inv in Hs. unfold cmd_ret, del_routes. f_equal.
    rewrite map_filter_id; [by destruct s|]. intros k v _. cbn. set_solver. }
  assert (forall s, del_some Done "prune host indexes: %w" (stale_hosts kh st) del_hosts s =
            (del_hosts (stale_hosts kh st) s, Ok tt)) as H2.
  { intros s. unfold del_some. destruct (Nat.eqb_spec (size (stale_hosts kh st)) 0) as [Hs|]; [|done].
    apply size_empty_inv in Hs. unfold cmd_ret, del_hosts. f_equal.
    rewrite map_filter_id; [by destruct s|]. intros k v _. cbn. set_solver. }
  unfold PruneRoutes, cmd_bind, cmd_read. cbn [io_scan io_del healthy]. rewrite H1, H2. f_equal.
  unfold del_hosts, del_routes, with_routes. cbn. f_equal.
  - apply map_filter_ext. intros k v Hv. cbn. unfold stale_routes. rewrite elem_of_difference.
    apply elem_of_dom_2 in Hv. destruct (decide (k ∈ kr)); naive_solver.
  - apply map_filter_ext. intros k v Hv. cbn. unfold stale_hosts. rewrite elem_of_difference.
    apply elem_of_dom_2 in Hv. destruct (decide (k ∈ kh)); naive_solver.
Qed.

(** A wipe is the deletion of everything, with the count. *)
Lemma wipe_healthy st :
  WipeProjections healthy st =
    (with_routes ∅ ∅ (routerev st) st, (Z.of_nat (size (routes st)) + Z.of_nat (size (hostidx st)), None)).
Proof.
  assert (forall {K V} `{Countable K} (m : gmap K V), filter (fun kv : K * V => kv.1 ∉ dom m) m = ∅) as Hall.
  { intros K V ?? m. apply map_eq. intros k. rewrite lookup_empty. apply map_lookup_filter_None. right.
    intros v Hv Hn. apply Hn. by eapply elem_of_dom_2. }
  assert (forall s, (if Nat.eqb (size (dom (routes s))) 0 then (0, s)
                     else (Z.of_nat (size (dom (routes s))), del_routes (dom (routes s)) s)) =
                    (Z.of_nat (size (routes s)), with_routes ∅ (hostidx s) (routerev s) s)) as H1.
  { intros s. rewrite size_dom. destruct (Nat.eqb_spec (size (routes s)) 0) as [Hs|_].
    - rewrite Hs. apply map_size_empty_iff in Hs. unfold with_routes. rewrite <- Hs. by destruct s.
    - unfold del_routes. by rewrite Hall. }
  assert (forall s, (if Nat.eqb (size (dom (hostidx s))) 0 then (0, s)
                     else (Z.of_nat (size (dom (hostidx s))), del_hosts (dom (hostidx s)) s)) =
                    (Z.of_nat (size (hostidx s)), with_routes (routes s) ∅ (routerev s) s)) as H2.
  { intros s. rewrite size_dom. destruct (Nat.eqb_spec (size (hostidx s)) 0) as [Hs|_].
    - rewrite Hs. apply map_size_empty_iff in Hs. unfold with_routes. rewrite <- Hs. by destruct s.
    - unfold del_hosts. by rewrite Hall. }
  assert (forall K V `{Countable K} (keys : Redis -> gset K) del (k : Z -> Redis -> V) total s r,
    (if Nat.eqb (size (keys s)) 0 then (0, s) else (Z.of_nat (size (keys s)), del (keys s) s)) = r ->
    (if Nat.eqb (size (keys s)) 0 then k total s else k (total + Z.of_nat (size (keys s))) (del (keys s) s)) =
    k (total + r.1) r.2) as Hk.
  { intros K V ?? keys del k total s r <-. destruct (Nat.eqb _ _); cbn; [by rewrite Z.add_0_r|done]. }
  unfold WipeProjections, wipe. cbn [io_scan io_del healthy cmd_exec].
  rewrite (Hk _ _ _ _ (fun s => dom (routes s)) del_routes
             (fun total s => if Nat.eqb (size (dom (hostidx s))) 0 then (s, (total, None))
                             else (del_hosts (dom (hostidx s)) s,
                                   (total + Z.of_nat (size (dom (hostidx s))), None))) 0 st _ (H1 st)).
  cbn [fst snd].
  rewrite (Hk _ _ _ _ (fun s => dom (hostidx s)) del_hosts (fun total s => (s, (total, None)))
             _ (with_routes ∅ (hostidx st) (routerev st) st) _ (H2 _)).
  done.
Qed.

(** ** Concrete histories *)

Module Witness.
Definition backend (m : string) (w : Z) : Backend := mkBackend m "x1" "10.0.0.1:5107" 8080 "READY" w false "" 0 0 1.
Definition items (m : string) : list HostRoute :=
  [mkHostRoute 9090 (mkRoute 1 0 [backend m 100]); mkHostRoute 8080 (mkRoute 1 0 [backend m 100])].
Definition publish (rev : Z) (m : string) : event := Publish healthy "a.example" rev (items m) 8080.
Definition prune : list event := [DelRoutes {[("a.example", 8080); ("a.example", 9090)]}; DelHosts {["a.example"]}].
Definition evs : list event := [publish 1 "m1"; publish 3 "m3"; publish 2 "m2"].

Lemma lookup_latest_witness :
  exists pub i, pub ∈ published "a.example" evs /\
    Forall (at_most (p_rev pub)) (published "a.example" evs) /\
    i ∈ p_items pub /\ Port i = 8080 /\ HRoute i = mkRoute 1 3 [backend "m3" 100].
Proof. apply (lookup_latest evs). vm_compute. reflexivity. Defined.

Lemma replay_refused_witness :
  ReplaceHostRoutes healthy "a.example" 2 (items "m2") 8080 (history (evs ++ prune)) =
    (history (evs ++ prune), Ok false).
Proof.
  apply (replay_refused (evs ++ prune) "a.example" (mkPublication 3 8080 (map (stamp 3) (items "m3")))
           healthy 2 (items "m2") 8080 (map (stamp 2) (items "m2"))).
  - unfold published. cbn -[checked_routes]. right. left.
  - vm_compute. discriminate.
  - vm_compute. discriminate.
  - vm_compute. reflexivity.
  - reflexivity.
Defined.

Lemma publish_then_lookup_witness :
  exists st', ReplaceHostRoutes healthy "a.example" 4 (items "m4") 8080 (history evs) = (st', Ok true) /\
    route_revision st' "a.example" = 4.
Proof.
  destruct (publish_then_lookup "a.example" 4 (items "m4") 8080 (history evs)) as (st' & H1 & H2 & _).
  - apply (bool_decide_unpack _). vm_compute. exact I.
  - repeat constructor.
  - apply (bool_decide_unpack _). vm_compute. exact I.
  - vm_compute. reflexivity.
  - by exists st'.
Defined.

Definition records : list InternalDNSRecord :=
  [mkDNS "web.p1.internal" ["fd00::2"] 3; mkDNS "api.p1.internal" ["fd00::1"] 2].

Lemma internal_dns_round_trip_witness :
  exists st', ReplaceInternalDNS healthy 100 records 120 empty_redis = (st', Ok tt) /\
    ListInternalDNS healthy 130 st' = Ok (if 130 <? 100 + 120 then sort_by dns_less records else []).
Proof.
  apply internal_dns_round_trip.
  - lia.
  - apply (bool_decide_unpack _). vm_compute. exact I.
  - repeat constructor; try discriminate; cbn; eexists; cbn; [instantiate (1 := "web.p1"%string)|instantiate (1 := "api.p1"%string)];
      reflexivity.
Defined.

Definition mesh_peers : list MeshPeerRecord := [mkPeer "n1" "k1" "1.2.3.4:51820" "fd00:1::/64" 0].
Definition mesh_endpoints : list MeshEndpointRecord := [mkEndpoint "m1" "x1" "n1" "fd00:1::" 5109 "fd00:1::2" 1].

Lemma mesh_projection_round_trip_witness :
  exists st', ReplaceMeshProjection healthy (5 * 10 ^ 9) mesh_peers mesh_endpoints (120 * 10 ^ 9) empty_redis = (st', Ok tt) /\
    GetMeshEndpoint healthy (6 * 10 ^ 9) "m1" "x1" st' = Ok (Some (mkEndpoint "m1" "x1" "n1" "fd00:1::" 5109 "fd00:1::2" 1)).
Proof.
  destruct (mesh_projection_round_trip (5 * 10 ^ 9) mesh_peers mesh_endpoints (120 * 10 ^ 9) (6 * 10 ^ 9) empty_redis)
    as (st' & H1 & _ & H2 & _).
  - lia.
  - apply (bool_decide_unpack _). vm_compute. exact I.
  - apply (bool_decide_unpack _). vm_compute. exact I.
  - repeat constructor.
  - repeat constructor.
  - exists st'. split; [done|]. apply (H2 (mkEndpoint "m1" "x1" "n1" "fd00:1::" 5109 "fd00:1::2" 1)); [left|lia].
Defined.

(** A publication whose revision was allocated before a deletion, and which
    arrives after it, is applied: a deletion allocates no revision, so the
    high-water mark is still the one of the last applied publication. *)
Example late_publication_resurrects :
  let st := history ([publish 1 "m1"] ++ prune) in
  GetRouteForPort healthy "a.example" 8080 st = (None, false, None) /\
  GetRouteForPort healthy "a.example" 8080 (apply_event st (publish 2 "m2")) =
    (Some (mkRoute 1 2 [backend "m2" 100]), true, None).
Proof. vm_compute. done. Qed.
End Witness.
