(* ===== verification/RoutePublisher.v ===== *)
(** * Publishing routes (internal/controlplane/routepublisher/publisher.go)

    [Derive] turns the machines, deployments and rollouts of a snapshot into
    route rows; [Rebuild] reads the snapshot, commits the rows with a revision
    per hostname to PostgreSQL (store.SyncRoutes) and replaces the Redis
    projection of [Catalog]. Of each store record the fields the publisher
    reads are kept. *)
From S2P Require Import Prelude GoString Catalog.
Local Open Scope Z_scope.

(** ** The records of the store *)

Record Machine := mkMachine {
  m_ID : string; m_AppID : string; m_DeploymentID : string; m_ReplicaOrdinal : Z; m_Hostname : string;
  m_CurrentExecutionID : string; m_IngressPort : Z; m_NodeID : string;
  m_ObservedState : string; m_ObservedReadiness : string }.
Record ServiceSpec := mkService { s_Name : string; s_InternalPort : Z; s_MeshDirect : bool }.
Record Deployment := mkDeployment {
  d_ID : string; d_AppID : string; d_Generation : Z; d_Port : Z; d_Status : string;
  d_Services : list ServiceSpec; d_Strategy : string }.
Record Rollout := mkRollout {
  r_AppID : string; r_FromGeneration : Z; r_ToGeneration : Z; r_Status : string; r_CanaryWeight : Z }.

(** The ULA in the form [String] gives it; [None] is the invalid address. *)
Record FabricIdentityRow := mkIdentity {
  f_IdentityID : Z; f_ProjectID : string; f_ULA : option string; f_MachineID : string;
  f_ExecutionID : string; f_Generation : Z }.
Definition no_identity : FabricIdentityRow := mkIdentity 0 "" None "" "" 0.

Record RouteBackendRow := mkBackendRow {
  rb_MachineID : string; rb_ExecutionID : string; rb_NodeProxyEndpoint : string; rb_AppPort : Z;
  rb_Weight : Z; rb_Readiness : string; rb_Draining : bool; rb_ULA : string; rb_IdentityID : Z;
  rb_Generation : Z; rb_DeploymentGeneration : Z }.
Record RouteRow := mkRow {
  rr_Hostname : string; rr_Port : Z; rr_AppID : string; rr_Generation : Z;
  rr_Backends : list RouteBackendRow }.

Definition EffectiveServices (d : Deployment) : list ServiceSpec :=
  if Nat.ltb 0 (length (d_Services d)) then d_Services d
  else
    let port := d_Port d in
    let port := if port =? 0 then 8080 else port in
    [mkService "default" port false].

Definition EffectiveStrategy (d : Deployment) : string :=
  if String.eqb (d_Strategy d) "rolling" then "rolling" else "bluegreen".

Definition NormalizeCanaryWeight (w : Z) : Z := if w <? 0 then 0 else if 99 <? w then 99 else w.

Definition IsServingReadiness (s : string) : bool := String.eqb s "READY" || String.eqb s "UNCONFIGURED".

(** ** Derivation *)

Record Input := mkInput {
  Machines : list Machine; Deployments : list Deployment; Rollouts : list Rollout;
  ProxyByNode : gmap string string; DefaultAppPort : Z; LegacyProxyAddr : string;
  FabricByIdentity : gmap string FabricIdentityRow }.

Record Projection := mkProjection {
  Routes : list RouteRow; PrimaryPorts : gmap string Z; InternalDNS : list InternalDNSRecord }.

Definition machineServing (m : Machine) : bool :=
  if negb (String.eqb (m_ObservedState m) "RUNNING") && negb (String.eqb (m_ObservedState m) "PAUSED")
  then false else IsServingReadiness (m_ObservedReadiness m).

Definition weightOrDefault (weights : gmap string Z) (machineID : string) : Z :=
  let w := default 0 (weights !! machineID) in
  if 0 <? w then w else 100.

(** The key machineID + "\x00" + executionID. *)
Definition identity_key (machineID executionID : string) : string :=
  (machineID +:+ String (Ascii.ascii_of_nat 0) executionID)%string.

Definition fabricHint (ids : gmap string FabricIdentityRow) (meshDirect : bool)
    (machineID executionID : string) : FabricIdentityRow :=
  if negb meshDirect then no_identity else default no_identity (ids !! identity_key machineID executionID).

Definition appendUniqueAAA (l : list string) (ula : string) : list string :=
  if existsb (String.eqb ula) l then l else l ++ [ula].

Definition sort_strings (l : list string) : list string := sort_by String.ltb l.

(** The weights of the machines of one deployment whose share is [share]. *)
Definition share_weights (share : Z) (ids : list string) : list (string * Z) :=
  let ids := sort_strings ids in
  let n := Z.of_nat (length ids) in
  let base := share / n in
  let remainder := share mod n in
  imap (fun j id =>
    let w := base in
    let w := if Z.of_nat j <? remainder then w + 1 else w in
    let w := if w <? 1 then 1 else w in
    (id, w)) ids.

(** The share of a deployment in a canary window, if it has one. *)
Definition canary_share (rolloutByApp : gmap string Rollout) (toDepByApp : gmap string string)
    (dep : Deployment) : option Z :=
  match rolloutByApp !! d_AppID dep with
  | None => None
  | Some rollout =>
      if negb (String.eqb (r_Status rollout) "PREPARING")
         && negb (String.eqb (r_Status rollout) "PAUSED_FOR_APPROVAL") then None
      else
        let weight := NormalizeCanaryWeight (r_CanaryWeight rollout) in
        if weight =? 0 then None
        else if String.eqb (d_ID dep) (default ""%string (toDepByApp !! d_AppID dep)) then Some weight
        else if d_Generation dep =? r_FromGeneration rollout then Some (100 - weight)
        else None
  end.

Definition deriveCanaryWeights (deployments : list Deployment) (rolloutByApp : gmap string Rollout)
    (toDepByApp : gmap string string) (publishableByDep : string -> list string) : gmap string Z :=
  foldl (fun out dep =>
    match canary_share rolloutByApp toDepByApp dep with
    | None => out
    | Some share =>
        if Nat.eqb (length (publishableByDep (d_ID dep))) 0 then out
        else insert_all (share_weights share (publishableByDep (d_ID dep))) out
    end) ∅ deployments.

(** What the loop over the machines collects. *)
Record collected := mkCollected {
  grouped : gmap (string * Z) RouteRow; primaryPorts : gmap string Z;
  dnsSet : gmap string (list string); dnsGen : gmap string Z }.

Definition row_less (a b : RouteRow) : bool :=
  if negb (String.eqb (rr_Hostname a) (rr_Hostname b)) then String.ltb (rr_Hostname a) (rr_Hostname b)
  else rr_Port a <? rr_Port b.
Definition backend_less (a b : RouteBackendRow) : bool :=
  if negb (String.eqb (rb_MachineID a) (rb_MachineID b)) then String.ltb (rb_MachineID a) (rb_MachineID b)
  else String.ltb (rb_ExecutionID a) (rb_ExecutionID b).

Definition sort_backends (r : RouteRow) : RouteRow :=
  mkRow (rr_Hostname r) (rr_Port r) (rr_AppID r) (rr_Generation r) (sort_by backend_less (rr_Backends r)).

Section derive.
(** [strings.ToLower] above ASCII. *)
Context (unicode_lower : string -> string) (inp : Input).

Definition rolloutByApp : gmap string Rollout := insert_all (map (fun r => (r_AppID r, r)) (Rollouts inp)) ∅.
Definition depByID : gmap string Deployment := insert_all (map (fun d => (d_ID d, d)) (Deployments inp)) ∅.
Definition depGen (id : string) : Z := from_option d_Generation 0 (depByID !! id).
Definition depServices (id : string) : list ServiceSpec := from_option EffectiveServices [] (depByID !! id).
Definition depStrategy (id : string) : string := from_option EffectiveStrategy ""%string (depByID !! id).
Definition depStatus (id : string) : string := from_option d_Status ""%string (depByID !! id).

Definition to_entry (dep : Deployment) : option (string * string) :=
  match rolloutByApp !! d_AppID dep with
  | Some rollout => if d_Generation dep =? r_ToGeneration rollout then Some (d_AppID dep, d_ID dep) else None
  | None => None
  end.
Definition toDepByApp : gmap string string := insert_all (omap to_entry (Deployments inp)) ∅.
Definition toDep (app : string) : string := default ""%string (toDepByApp !! app).

Definition cuts (app : string) (ordinal : Z) (m : Machine) : bool :=
  String.eqb (toDep (m_AppID m)) (m_DeploymentID m) && machineServing m &&
  String.eqb (m_AppID m) app && (m_ReplicaOrdinal m =? ordinal).
Definition cutOrdinals (app : string) (ordinal : Z) : bool := existsb (cuts app ordinal) (Machines inp).

Definition drainingOf (m : Machine) : bool :=
  let s := depStatus (m_DeploymentID m) in
  if String.eqb s "SUPERSEDED" || String.eqb s "FAILED" then true
  else
    match rolloutByApp !! m_AppID m with
    | None => false
    | Some rollout =>
        let generation := depGen (m_DeploymentID m) in
        let status := r_Status rollout in
        if String.eqb status "PREPARING" || String.eqb status "PAUSED_FOR_APPROVAL" then
          if String.eqb (depStrategy (toDep (m_AppID m))) "rolling" then
            let cut := cutOrdinals (m_AppID m) (m_ReplicaOrdinal m) in
            if generation =? r_ToGeneration rollout then negb cut else cut
          else negb (generation =? r_FromGeneration rollout)
        else if String.eqb status "CUTOVER" then negb (generation =? r_ToGeneration rollout)
        else if String.eqb status "ROLLING_BACK" then negb (generation =? r_FromGeneration rollout)
        else false
    end.

Definition proxyOf (m : Machine) : string :=
  let p := default ""%string (ProxyByNode inp !! m_NodeID m) in
  if negb (String.eqb p "") then p else LegacyProxyAddr inp.

Definition publishable (m : Machine) : bool :=
  negb (negb (machineServing m) || drainingOf m || String.eqb (proxyOf m) "").

Definition publishableByDep (id : string) : list string :=
  omap (fun m => if publishable m && String.eqb (m_DeploymentID m) id then Some (m_ID m) else None)
    (Machines inp).

Definition weightByMachine : gmap string Z :=
  deriveCanaryWeights (Deployments inp) rolloutByApp toDepByApp publishableByDep.

Definition services_of (m : Machine) : list ServiceSpec :=
  let port := m_IngressPort m in
  let port := if port =? 0 then DefaultAppPort inp else port in
  let services := depServices (m_DeploymentID m) in
  if Nat.eqb (length services) 0 then [mkService "default" port false] else services.

Definition hint_of (m : Machine) (service : ServiceSpec) : FabricIdentityRow :=
  fabricHint (FabricByIdentity inp) (s_MeshDirect service && String.eqb (m_ObservedReadiness m) "READY")
    (m_ID m) (m_CurrentExecutionID m).

Definition backend_of (m : Machine) (service : ServiceSpec) : RouteBackendRow :=
  let hint := hint_of m service in
  let valid := match f_ULA hint with Some _ => true | None => false end in
  mkBackendRow (m_ID m) (m_CurrentExecutionID m) (proxyOf m) (s_InternalPort service)
    (weightOrDefault weightByMachine (m_ID m)) (m_ObservedReadiness m) false
    (default ""%string (f_ULA hint)) (if valid then f_IdentityID hint else 0)
    (if valid then f_Generation hint else 0) (depGen (m_DeploymentID m)).

Definition dns_name (m : Machine) (hint : FabricIdentityRow) : string :=
  (to_lower unicode_lower (m_AppID m) +:+ "." +:+ to_lower unicode_lower (f_ProjectID hint) +:+ ".internal")%string.

Definition add_service (m : Machine) (acc : collected) (serviceIndex : nat) (service : ServiceSpec) : collected :=
  let key := (m_Hostname m, s_InternalPort service) in
  let route := default (mkRow (m_Hostname m) (s_InternalPort service) (m_AppID m) 0 []) (grouped acc !! key) in
  let primary := default 0 (primaryPorts acc !! m_Hostname m) in
  let primaryPorts' :=
    if Nat.eqb serviceIndex 0 && ((primary =? 0) || (s_InternalPort service <? primary))
    then <[m_Hostname m := s_InternalPort service]> (primaryPorts acc) else primaryPorts acc in
  let hint := hint_of m service in
  let '(dnsSet', dnsGen') :=
    match f_ULA hint with
    | Some ula =>
        let name := dns_name m hint in
        (<[name := appendUniqueAAA (default [] (dnsSet acc !! name)) ula]> (dnsSet acc),
         if default 0 (dnsGen acc !! name) <? f_Generation hint
         then <[name := f_Generation hint]> (dnsGen acc) else dnsGen acc)
    | None => (dnsSet acc, dnsGen acc)
    end in
  let generation := depGen (m_DeploymentID m) in
  let route' :=
    mkRow (rr_Hostname route) (rr_Port route) (rr_AppID route)
      (if rr_Generation route <? generation then generation else rr_Generation route)
      (rr_Backends route ++ [backend_of m service]) in
  mkCollected (<[key := route']> (grouped acc)) primaryPorts' dnsSet' dnsGen'.

Definition add_machine (acc : collected) (m : Machine) : collected :=
  if negb (publishable m) then acc
  else foldl (fun acc ix => add_service m acc ix.1 ix.2) acc (imap pair (services_of m)).

Definition collect : collected := foldl add_machine (mkCollected ∅ ∅ ∅ ∅) (Machines inp).

Definition Derive : Projection :=
  let c := collect in
  mkProjection
    (sort_by row_less (map (fun kr => sort_backends kr.2) (map_to_list (grouped c))))
    (primaryPorts c)
    (sort_by dns_less
       (map (fun na => mkDNS na.1 (sort_strings na.2) (default 0 (dnsGen c !! na.1)))
          (map_to_list (dnsSet c)))).
End derive.

(** ** The authority: store.SyncRoutes *)

(** The tables routes with route_backends, and route_publication_revisions. *)
Record PG := mkPG { pg_routes : gmap string RouteRow; pg_revisions : gmap string Z }.

Definition routeRowID (hostname : string) (port : Z) : string := (hostname +:+ ":" +:+ pretty port)%string.
Definition row_id (r : RouteRow) : string := routeRowID (rr_Hostname r) (rr_Port r).

(** The columns of route_backends: the deployment generation is not one. *)
Definition stored_backend (b : RouteBackendRow) : RouteBackendRow :=
  mkBackendRow (rb_MachineID b) (rb_ExecutionID b) (rb_NodeProxyEndpoint b) (rb_AppPort b) (rb_Weight b)
    (rb_Readiness b) (rb_Draining b) (rb_ULA b) (rb_IdentityID b) (rb_Generation b) 0.
Definition stored_row (r : RouteRow) : RouteRow :=
  mkRow (rr_Hostname r) (rr_Port r) (rr_AppID r) (rr_Generation r) (map stored_backend (rr_Backends r)).

(** The hostnames of the active set, each once, in order of appearance. *)
Fixpoint distinct_hostnames (seen : list string) (active : list RouteRow) : list string :=
  match active with
  | [] => []
  | r :: active' =>
      if bool_decide (rr_Hostname r ∈ seen) then distinct_hostnames seen active'
      else rr_Hostname r :: distinct_hostnames (rr_Hostname r :: seen) active'
  end.

(** The upsert that allocates a revision, per hostname; the map returned. *)
Definition allocate (hostnames : list string) (pg : gmap string Z) : gmap string Z * gmap string Z :=
  foldl (fun st h =>
    let rev := match st.1 !! h with Some r => r + 1 | None => 1 end in
    (<[h := rev]> st.1, <[h := rev]> st.2)) (pg, ∅) hostnames.

(** One transaction; a failed COMMIT may have taken effect. *)
Definition SyncRoutes (o : exec_outcome) (active : list RouteRow) (pg : PG) : PG * res (gmap string Z) :=
  let activeIDs : gset string := list_to_set (map row_id active) in
  let kept := filter (fun kv : string * RouteRow => kv.1 ∈ activeIDs) (pg_routes pg) in
  let rows := insert_all (map (fun r => (row_id r, stored_row r)) active) kept in
  let '(revs, revisions) := allocate (distinct_hostnames [] active) (pg_revisions pg) in
  match o with
  | Done => (mkPG rows revs, Ok revisions)
  | FailedBefore e => (pg, Err e)
  | FailedAfter e => (mkPG rows revs, Err e)
  end.

(** ** Publication to Redis *)

Definition converted_backend (b : RouteBackendRow) : Backend :=
  mkBackend (rb_MachineID b) (rb_ExecutionID b) (rb_NodeProxyEndpoint b) (rb_AppPort b) (rb_Readiness b)
    (rb_Weight b) (rb_Draining b) (rb_ULA b) (rb_IdentityID b) (rb_Generation b) (rb_DeploymentGeneration b).
Definition converted (r : RouteRow) : Route := mkRoute (rr_Generation r) 0 (map converted_backend (rr_Backends r)).

Definition hostRoutes (rows : list RouteRow) : gmap string (list HostRoute) :=
  foldl (fun acc r =>
    <[rr_Hostname r := default [] (acc !! rr_Hostname r) ++ [mkHostRoute (rr_Port r) (converted r)]]> acc)
    ∅ rows.

(** The loop over the sorted hostnames: stops at the first error. *)
Fixpoint publish_hosts (io : string -> redis_io) (revisions : gmap string Z) (hr : gmap string (list HostRoute))
    (primaries : gmap string Z) (hostnames : list string) : cmd Redis unit :=
  match hostnames with
  | [] => cmd_ret (Ok tt)
  | h :: hostnames' =>
      (_ <~ ReplaceHostRoutes (io h) h (default 0 (revisions !! h)) (default [] (hr !! h))
              (default 0 (primaries !! h)) ;;
       publish_hosts io revisions hr primaries hostnames')%go
  end.

Definition publishRedis (io : string -> redis_io) (prune_io : redis_io) (projection : Projection)
    (revisions : gmap string Z) : cmd Redis unit :=
  let rows := Routes projection in
  let keepRoutes : gset (string * Z) := list_to_set (map (fun r => (rr_Hostname r, rr_Port r)) rows) in
  let keepHosts : gset string := list_to_set (map rr_Hostname rows) in
  let hr := hostRoutes rows in
  let hostnames := sort_strings (elements (dom hr)) in
  (_ <~ publish_hosts io revisions hr (PrimaryPorts projection) hostnames ;;
   PruneRoutes prune_io keepRoutes keepHosts)%go.

Definition publishInternalDNS (dns_io : redis_io) (now dnsStaleWindow : Z) (projection : Projection) :
    cmd Redis unit :=
  ReplaceInternalDNS dns_io now (InternalDNS projection) dnsStaleWindow.

(** The outcomes of the Redis commands of one rebuild. *)
Record publish_io := mkPublishIO { host_io : string -> redis_io; prune_io : redis_io; dns_io : redis_io }.

Definition publishAll (io : publish_io) (now dnsStaleWindow : Z) (projection : Projection)
    (revisions : gmap string Z) : cmd Redis unit :=
  (_ <~ publishRedis (host_io io) (prune_io io) projection revisions ;;
   publishInternalDNS (dns_io io) now dnsStaleWindow projection)%go.

Definition defaultDNSStaleWindow : Z := 120 * 10 ^ 9.
Definition SetDNSStaleWindow (d : Z) : Z := if d <=? 0 then defaultDNSStaleWindow else d.

(** ** Rebuild *)

(** What the reads of a rebuild return. *)
Record Reads := mkReads {
  active_machines : res (list Machine); active_rollouts : res (list Rollout);
  deployments_of : string -> res (list Deployment); fabric_identities : res (list FabricIdentityRow) }.

Record Publisher := mkPublisher {
  defaultAppPort : Z; legacyProxyAddr : string; dnsStaleWindow : Z; to_lower_unicode : string -> string }.

Record World := mkWorld { pg : PG; redis : Redis }.

Definition app_ids (machines : list Machine) : list string :=
  sort_strings (elements (list_to_set (map m_AppID machines) : gset string)).

Fixpoint list_deployments (list_of : string -> res (list Deployment)) (apps : list string) :
    res (list Deployment) :=
  match apps with
  | [] => Ok []
  | a :: apps' => (deps <- list_of a ;; rest <- list_deployments list_of apps' ;; Ok (deps ++ rest))%go
  end.

(** Identities that cannot be read cost the mesh hints, not the publication. *)
Definition fabric_by_identity (ids : res (list FabricIdentityRow)) : gmap string FabricIdentityRow :=
  match ids with
  | Ok l => insert_all (map (fun id => (identity_key (f_MachineID id) (f_ExecutionID id), id)) l) ∅
  | Err _ => ∅
  end.

(** The snapshot a rebuild derives from. *)
Definition read_input (p : Publisher) (r : Reads) (proxyByNode : gmap string string) : res Input :=
  (machines <- active_machines r ;;
   rollouts <- active_rollouts r ;;
   deployments <- list_deployments (deployments_of r) (app_ids machines) ;;
   Ok (mkInput machines deployments rollouts proxyByNode (defaultAppPort p) (legacyProxyAddr p)
         (fabric_by_identity (fabric_identities r))))%go.

Definition Rebuild (p : Publisher) (r : Reads) (commit : exec_outcome) (io : publish_io) (now : Z)
    (proxyByNode : gmap string string) : cmd World unit := fun w =>
  match read_input p r proxyByNode with
  | Err e => (w, Err e)
  | Ok inp =>
      let projection := Derive (to_lower_unicode p) inp in
      match SyncRoutes commit (Routes projection) (pg w) with
      | (pg', Err e) => (mkWorld pg' (redis w), Err e)
      | (pg', Ok revisions) =>
          let '(redis', r) := publishAll io now (dnsStaleWindow p) projection revisions (redis w) in
          (mkWorld pg' redis', r)
      end
  end.

(** ** Lemmas: what the loop collects *)

Section collected.
Context (unicode_lower : string -> string) (inp : Input).

(** A published machine with one of its services and its index. *)
Definition offer : Type := Machine * nat * ServiceSpec.
Definition o_machine (o : offer) : Machine := o.1.1.
Definition o_index (o : offer) : nat := o.1.2.
Definition o_service (o : offer) : ServiceSpec := o.2.
Definition o_key (o : offer) : string * Z := (m_Hostname (o_machine o), s_InternalPort (o_service o)).
Definition o_generation (o : offer) : Z := depGen inp (m_DeploymentID (o_machine o)).
Definition o_backend (o : offer) : RouteBackendRow := backend_of inp (o_machine o) (o_service o).
Definition o_hint (o : offer) : FabricIdentityRow := hint_of inp (o_machine o) (o_service o).

Definition offers : list offer :=
  flat_map (fun m => if publishable inp m then imap (fun i s => (m, i, s)) (services_of inp m) else [])
    (Machines inp).

Definition add_offer (acc : collected) (o : offer) : collected :=
  add_service unicode_lower inp (o_machine o) acc (o_index o) (o_service o).

Definition collect_list (l : list offer) : collected := foldl add_offer (mkCollected ∅ ∅ ∅ ∅) l.

Lemma foldl_imap {A B} (f : B -> nat -> A -> B) (m : Machine) (acc : B) (l : list A) (g : B -> Machine * nat * A -> B) :
  (forall acc i s, g acc (m, i, s) = f acc i s) ->
  foldl (fun acc ix => f acc ix.1 ix.2) acc (imap pair l) = foldl g acc (imap (fun i s => (m, i, s)) l).
Proof.
  intros Hg.
  assert (forall (h : nat -> nat) acc, foldl (fun acc ix => f acc ix.1 ix.2) acc (imap (fun i => pair (h i)) l) =
            foldl g acc (imap (fun i s => (m, h i, s)) l)) as Hgen; [|by apply (Hgen (fun i => i))].
  induction l as [|a l IH]; intros h b; [done|]. cbn. rewrite Hg. apply (IH (fun i => h (S i))).
Qed.

Lemma collect_offers : collect unicode_lower inp = collect_list offers.
Proof.
  unfold collect, collect_list, offers. generalize (mkCollected ∅ ∅ ∅ ∅).
  induction (Machines inp) as [|m ms IH]; intros acc; [done|]. cbn. rewrite foldl_app, IH. f_equal.
  unfold add_machine. destruct (publishable inp m); [|done]. cbn. by apply foldl_imap.
Qed.

Lemma services_nonempty m : services_of inp m <> [].
Proof.
  unfold services_of. destruct (Nat.eqb_spec (length (depServices inp (m_DeploymentID m))) 0) as [|Hl]; [done|].
  intros E. by rewrite E in Hl.
Qed.

Lemma elem_of_offers o :
  o ∈ offers <-> o_machine o ∈ Machines inp /\ publishable inp (o_machine o) = true /\
    services_of inp (o_machine o) !! o_index o = Some (o_service o).
Proof.
  unfold offers. rewrite list_elem_of_In, in_flat_map. split.
  - intros (m & Hm & Ho). rewrite <- list_elem_of_In in Hm. destruct (publishable inp m) eqn:Hp; [|done].
    apply list_elem_of_In, elem_of_lookup_imap_1 in Ho as (i & s & -> & Hs). done.
  - intros (Hm & Hp & Hs). exists (o_machine o). rewrite <- list_elem_of_In. split; [done|]. rewrite Hp.
    apply list_elem_of_In. destruct o as [[m i] s]. cbn in *.
    by apply (elem_of_lookup_imap_2 (fun i s => (m, i, s))).
Qed.

(** The first service of a published machine is offered. *)
Lemma offer_first m :
  m ∈ Machines inp -> publishable inp m = true -> exists s, (m, 0%nat, s) ∈ offers.
Proof.
  intros Hm Hp. destruct (services_of inp m) as [|s l] eqn:Hs; [by apply services_nonempty in Hs|].
  exists s. apply elem_of_offers. cbn. by rewrite Hs.
Qed.

Definition max_generation (l : list offer) : Z :=
  foldl (fun g o => if g <? o_generation o then o_generation o else g) 0 l.

Definition at_key (key : string * Z) (o : offer) : Prop := o_key o = key.
#[export] Instance at_key_dec key o : Decision (at_key key o).
Proof. unfold at_key. apply _. Defined.

(** The row of a key, from the offers at that key. *)
Definition row_of (key : string * Z) (l : list offer) : option RouteRow :=
  match l with
  | [] => None
  | o :: _ => Some (mkRow key.1 key.2 (m_AppID (o_machine o)) (max_generation l) (map o_backend l))
  end.

Lemma collect_list_snoc l o : collect_list (l ++ [o]) = add_offer (collect_list l) o.
Proof. unfold collect_list. by rewrite foldl_app. Qed.

Lemma grouped_add acc o :
  grouped (add_offer acc o) =
    let route := default (mkRow (o_key o).1 (o_key o).2 (m_AppID (o_machine o)) 0 []) (grouped acc !! o_key o) in
    <[o_key o := mkRow (rr_Hostname route) (rr_Port route) (rr_AppID route)
                   (if rr_Generation route <? o_generation o then o_generation o else rr_Generation route)
                   (rr_Backends route ++ [o_backend o])]> (grouped acc).
Proof. unfold add_offer, add_service. by destruct (f_ULA _). Qed.

Lemma grouped_spec l key : grouped (collect_list l) !! key = row_of key (filter (at_key key) l).
Proof.
  revert key. induction l as [|o l IH] using rev_ind; intros key; [done|].
  rewrite collect_list_snoc, grouped_add, filter_app. cbn zeta. rewrite IH.
  destruct (decide (o_key o = key)) as [<-|Hne].
  - rewrite lookup_insert_eq. rewrite filter_cons_True by done. rewrite filter_nil.
    destruct (filter (at_key (o_key o)) l) as [|o' l'] eqn:Hf; [done|].
    rewrite <- app_comm_cons. unfold row_of, default. cbn [from_option].
    rewrite app_comm_cons, map_app. unfold max_generation. by rewrite foldl_app.
  - rewrite lookup_insert_ne by done. rewrite filter_cons_False by done. by rewrite filter_nil, app_nil_r.
Qed.

Lemma row_of_some key l row :
  row_of key (filter (at_key key) l) = Some row ->
  rr_Hostname row = key.1 /\ rr_Port row = key.2 /\
  forall b, b ∈ rr_Backends row <-> exists o, o ∈ l /\ o_key o = key /\ b = o_backend o.
Proof.
  intros Hrow.
  assert (rr_Hostname row = key.1 /\ rr_Port row = key.2 /\
          rr_Backends row = map o_backend (filter (at_key key) l)) as (-> & -> & ->).
  { destruct (filter (at_key key) l); [done|]. by injection Hrow as <-. }
  split_and!; [done..|]. intros b. split.
  - intros (x & -> & Hx)%list_elem_of_fmap. apply list_elem_of_filter in Hx as [? ?]. by exists x.
  - intros (x & Hx & Hk & ->). apply list_elem_of_fmap_2. by apply list_elem_of_filter.
Qed.

Lemma elem_of_routes r :
  r ∈ Routes (Derive unicode_lower inp) <->
  exists key row, row_of key (filter (at_key key) offers) = Some row /\ r = sort_backends row.
Proof.
  cbn [Routes Derive]. rewrite elem_of_sort_by, collect_offers. split.
  - intros ([key row] & -> & Hin)%list_elem_of_fmap. apply elem_of_map_to_list in Hin.
    rewrite grouped_spec in Hin. by exists key, row.
  - intros (key & row & Hr & ->). apply (list_elem_of_fmap_2' _ _ (key, row)); [|done].
    apply elem_of_map_to_list. by rewrite grouped_spec.
Qed.

Definition rr_key (r : RouteRow) : string * Z := (rr_Hostname r, rr_Port r).

Lemma routes_keys_unique : NoDup (map rr_key (Routes (Derive unicode_lower inp))).
Proof.
  cbn [Routes Derive]. rewrite sort_by_Permutation, collect_offers, map_map.
  assert (map (fun kr : string * Z * RouteRow => rr_key (sort_backends kr.2)) (map_to_list (grouped (collect_list offers)))
          = (map_to_list (grouped (collect_list offers))).*1) as ->; [|apply NoDup_fst_map_to_list].
  apply list_fmap_ext. intros i [key row] Hi. cbn.
  apply list_elem_of_lookup_2, elem_of_map_to_list in Hi. rewrite grouped_spec in Hi.
  apply row_of_some in Hi as (H1 & H2 & _). unfold rr_key. cbn. rewrite H1, H2. by destruct key.
Qed.

Lemma orders_rows l : orders row_less l.
Proof.
  assert (forall a b, row_less a b = true <->
            String.ltb (rr_Hostname a) (rr_Hostname b) = true \/
            rr_Hostname a = rr_Hostname b /\ rr_Port a < rr_Port b) as Hless.
  { intros a b. unfold row_less. destruct (String.eqb_spec (rr_Hostname a) (rr_Hostname b)) as [E|E]; cbn [negb].
    - rewrite E, ltb_irrefl, Z.ltb_lt. naive_solver.
    - naive_solver. }
  assert (forall a b, row_less a b = false <->
            String.ltb (rr_Hostname b) (rr_Hostname a) = true \/
            rr_Hostname a = rr_Hostname b /\ rr_Port b <= rr_Port a) as Hnless.
  { intros a b. rewrite <- not_true_iff_false, Hless. split.
    - intros Hn. destruct (decide (rr_Hostname a = rr_Hostname b)) as [E|E].
      + right. split; [done|]. destruct (Z.le_gt_cases (rr_Port b) (rr_Port a)); [done|]. exfalso. apply Hn. by right.
      + left. destruct (String.ltb (rr_Hostname b) (rr_Hostname a)) eqn:H1; [done|].
        destruct (String.ltb (rr_Hostname a) (rr_Hostname b)) eqn:H2; [exfalso; apply Hn; by left|].
        by rewrite (ltb_total _ _ H1 H2) in E.
    - intros [H|[E H]] [H'|[E' H']].
      + by rewrite (ltb_asym _ _ H) in H'.
      + by rewrite E', ltb_irrefl in H.
      + by rewrite E, ltb_irrefl in H'.
      + lia. }
  split.
  - intros a b _ _ [H|[E H]]%Hless; apply Hnless; [by left|right]. split; [done|lia].
  - intros a b c _ _ _ [H|[E H]]%Hnless [H'|[E' H']]%Hnless; apply Hnless.
    + left. by eapply ltb_trans.
    + left. by rewrite E'.
    + left. by rewrite <- E.
    + right. split; [congruence|lia].
Qed.

(** The lookup of a derived row by its key. *)
Lemma route_at key r :
  r ∈ Routes (Derive unicode_lower inp) -> rr_key r = key ->
  exists row, row_of key (filter (at_key key) offers) = Some row /\ r = sort_backends row.
Proof.
  intros (key' & row & Hrow & ->)%elem_of_routes Hk. pose proof (row_of_some _ _ _ Hrow) as (H1 & H2 & _).
  unfold rr_key in Hk. cbn in Hk. rewrite H1, H2, <- surjective_pairing in Hk. subst. by exists row.
Qed.

End collected.

(** ** Lemmas: who is published *)

(** What the store's unique keys say of a snapshot. *)
Record well_formed (inp : Input) : Prop := mkWellFormed {
  wf_machines : NoDup (map m_ID (Machines inp));
  wf_deployments : NoDup (map d_ID (Deployments inp));
  wf_rollouts : NoDup (map r_AppID (Rollouts inp));
  wf_deployed : Forall (fun m => m_DeploymentID m <> ""%string) (Machines inp) }.

Lemma publishable_spec inp m :
  publishable inp m = true <->
  machineServing m = true /\ drainingOf inp m = false /\ proxyOf inp m <> ""%string.
Proof.
  unfold publishable. rewrite negb_true_iff, !orb_false_iff, negb_false_iff, String.eqb_neq. tauto.
Qed.

Lemma lookup_by {A} (key : A -> string) (l : list A) a :
  NoDup (map key l) -> a ∈ l -> insert_all (map (fun a => (key a, a)) l) (∅ : gmap string A) !! key a = Some a.
Proof.
  intros Hnd Ha. apply lookup_insert_all.
  - by rewrite <- list_fmap_compose.
  - by apply (list_elem_of_fmap_2 (fun a => (key a, a))).
Qed.

Lemma insert_all_elem {K V} `{Countable K} (l : list (K * V)) m k v :
  insert_all l m !! k = Some v -> (k, v) ∈ l \/ m !! k = Some v.
Proof.
  revert m. induction l as [|[k' v'] l IH]; intros m Hl; [by right|].
  change (insert_all ((k', v') :: l) m) with (insert_all l (<[k':=v']> m)) in Hl.
  apply IH in Hl as [Hl|Hl]; [left; by right|].
  apply lookup_insert_Some in Hl as [[<- <-]|[_ Hl]]; [left; by left|by right].
Qed.

Definition preparing (r : Rollout) : bool :=
  String.eqb (r_Status r) "PREPARING" || String.eqb (r_Status r) "PAUSED_FOR_APPROVAL".
Definition terminal (s : string) : bool := String.eqb s "SUPERSEDED" || String.eqb s "FAILED".
Definition rolling (inp : Input) (app : string) : bool :=
  String.eqb (depStrategy inp (toDep inp app)) "rolling".

(** [drainingOf] by cases, in the terms of the three predicates. *)
Lemma drainingOf_spec inp m r :
  rolloutByApp inp !! m_AppID m = Some r ->
  drainingOf inp m =
    terminal (depStatus inp (m_DeploymentID m)) ||
    (let generation := depGen inp (m_DeploymentID m) in
     if preparing r then
       if rolling inp (m_AppID m) then
         xorb (generation =? r_ToGeneration r) (cutOrdinals inp (m_AppID m) (m_ReplicaOrdinal m))
       else negb (generation =? r_FromGeneration r)
     else if String.eqb (r_Status r) "CUTOVER" then negb (generation =? r_ToGeneration r)
     else if String.eqb (r_Status r) "ROLLING_BACK" then negb (generation =? r_FromGeneration r)
     else false).
Proof.
  intros Hr. unfold drainingOf, terminal, preparing, rolling. rewrite Hr.
  destruct (_ || _); [done|]. cbn [orb]. destruct (_ || _); [|done].
  destruct (String.eqb _ "rolling"); [|done]. by destruct (_ =? _).
Qed.

Lemma draining_terminal inp m : drainingOf inp m = false -> terminal (depStatus inp (m_DeploymentID m)) = false.
Proof. unfold drainingOf, terminal. by destruct (_ || _). Qed.

(** The deployment of the target generation. *)
Lemma toDep_spec inp app :
  well_formed inp -> toDep inp app <> ""%string ->
  exists dep r, dep ∈ Deployments inp /\ d_ID dep = toDep inp app /\ d_AppID dep = app /\
    rolloutByApp inp !! app = Some r /\ d_Generation dep = r_ToGeneration r /\
    depByID inp !! toDep inp app = Some dep.
Proof.
  intros Hwf Hne. unfold toDep in *. destruct (toDepByApp inp !! app) as [id|] eqn:Hl; [|done]. cbn in *.
  apply insert_all_elem in Hl as [Hl|Hl]; [|done].
  apply list_elem_of_omap in Hl as (dep & Hdep & Hto). unfold to_entry in Hto.
  destruct (rolloutByApp inp !! d_AppID dep) as [r|] eqn:Hr; [|done].
  destruct (_ =? _) eqn:Hg; [|done]. bool_to_prop. injection Hto as <- <-.
  exists dep, r. split_and!; [done..|]. apply lookup_by; [apply Hwf|done].
Qed.

(** ** Properties of the derivation *)

(** The route rows are sorted by hostname and port and have distinct keys,
    and the backends at a hostname and port are exactly those of the machines
    that are serving, not draining and behind a known proxy, one for each
    service of theirs at that port. *)
Theorem derive_exact unicode_lower inp :
  let rows := Routes (Derive unicode_lower inp) in
  StronglySorted (fun a b => row_less b a = false) rows /\
  NoDup (map rr_key rows) /\
  forall host port b,
    (exists row, row ∈ rows /\ rr_key row = (host, port) /\ b ∈ rr_Backends row) <->
    (exists m s, m ∈ Machines inp /\ machineServing m = true /\ drainingOf inp m = false /\
       proxyOf inp m <> ""%string /\ s ∈ services_of inp m /\
       m_Hostname m = host /\ s_InternalPort s = port /\ b = backend_of inp m s).
Proof.
  split_and!; [apply sort_by_sorted, orders_rows|apply routes_keys_unique|].
  intros host port b. split.
  - intros (row & Hin & Hk & Hb). apply (route_at _ _ _ _ Hin) in Hk as (row' & Hrow & ->).
    cbn [rr_Backends sort_backends] in Hb. rewrite elem_of_sort_by in Hb.
    apply row_of_some in Hrow as (_ & _ & Hbs). apply Hbs in Hb as (o & Ho & Hkey & ->).
    apply elem_of_offers in Ho as (Hm & (H1 & H2 & H3)%publishable_spec & Hs).
    unfold o_key in Hkey. injection Hkey as Hh Hp.
    exists (o_machine o), (o_service o). split_and!; try done. by eapply list_elem_of_lookup_2.
  - intros (m & s & Hm & H1 & H2 & H3 & Hs & <- & <- & ->).
    apply list_elem_of_lookup in Hs as [i Hs].
    assert ((m, i, s) ∈ offers inp) as Ho.
    { apply elem_of_offers. split_and!; [done|by apply publishable_spec|done]. }
    set (key := (m_Hostname m, s_InternalPort s)).
    destruct (row_of inp key (filter (at_key key) (offers inp))) as [row|] eqn:Hrow.
    + exists (sort_backends row). split_and!.
      * apply elem_of_routes. by exists key, row.
      * pose proof (row_of_some _ _ _ _ Hrow) as (E1 & E2 & _). unfold rr_key. cbn. by rewrite E1, E2.
      * cbn. rewrite elem_of_sort_by. apply (row_of_some _ _ _ _ Hrow). by exists (m, i, s).
    + exfalso. destruct (filter (at_key key) (offers inp)) as [|o l] eqn:Hf; [|done].
      assert ((m, i, s) ∈ filter (at_key key) (offers inp)) as Hin by (by apply list_elem_of_filter).
      rewrite Hf in Hin. by apply not_elem_of_nil in Hin.
Qed.

(** The generation traffic reaches follows the rollout: never a
    superseded or failed deployment; the old generation before the cutover
    and on the way back, the new one after it; and in a rolling update, per
    replica ordinal, never both the new generation and another one. *)
Theorem rollout_generations inp m r :
  well_formed inp -> m ∈ Machines inp -> publishable inp m = true ->
  r ∈ Rollouts inp -> r_AppID r = m_AppID m ->
  let generation := depGen inp (m_DeploymentID m) in
  terminal (depStatus inp (m_DeploymentID m)) = false /\
  (r_Status r = "CUTOVER"%string -> generation = r_ToGeneration r) /\
  (r_Status r = "ROLLING_BACK"%string -> generation = r_FromGeneration r) /\
  (preparing r = true -> rolling inp (m_AppID m) = false -> generation = r_FromGeneration r) /\
  (preparing r = true -> rolling inp (m_AppID m) = true ->
   forall m', m' ∈ Machines inp -> publishable inp m' = true -> m_AppID m' = m_AppID m ->
     m_ReplicaOrdinal m' = m_ReplicaOrdinal m ->
     generation = r_ToGeneration r <-> depGen inp (m_DeploymentID m') = r_ToGeneration r).
Proof.
  intros Hwf Hm Hp Hr Happ generation.
  assert (rolloutByApp inp !! m_AppID m = Some r) as Hlook by (rewrite <- Happ; apply lookup_by; [apply Hwf|done]).
  apply publishable_spec in Hp as (_ & Hd & _).
  pose proof (draining_terminal _ _ Hd) as Hterm. rewrite (drainingOf_spec _ _ _ Hlook), Hterm in Hd.
  cbn zeta in Hd. fold generation in Hd. cbn [orb] in Hd. split_and!; [done| | | |].
  - intros Hst. unfold preparing in Hd. rewrite Hst in Hd. cbn in Hd. by bool_to_prop.
  - intros Hst. unfold preparing in Hd. rewrite Hst in Hd. cbn in Hd. by bool_to_prop.
  - intros Hpr Hro. rewrite Hpr, Hro in Hd. by bool_to_prop.
  - intros Hpr Hro m' Hm' (_ & Hd' & _)%publishable_spec Happ' Hord.
    pose proof (draining_terminal _ _ Hd') as Hterm'.
    rewrite <- Happ' in Hlook. rewrite (drainingOf_spec _ _ _ Hlook), Hterm', Happ', Hord in Hd'.
    rewrite Hpr, Hro in Hd, Hd'. cbn zeta in Hd'. cbn [orb] in Hd'.
    rewrite <- !Z.eqb_eq. destruct (cutOrdinals _ _ _), (generation =? _), (depGen inp _ =? _); naive_solver.
Qed.

(** A rolling update never takes a replica out of traffic: where an
    old machine serves behind a proxy, some machine of that ordinal stays
    published, as long as new machines that serve have a proxy too. *)
Theorem rolling_keeps_serving inp m r :
  well_formed inp -> m ∈ Machines inp -> r ∈ Rollouts inp -> r_AppID r = m_AppID m ->
  preparing r = true -> rolling inp (m_AppID m) = true ->
  machineServing m = true -> proxyOf inp m <> ""%string ->
  terminal (depStatus inp (m_DeploymentID m)) = false ->
  depGen inp (m_DeploymentID m) <> r_ToGeneration r ->
  terminal (depStatus inp (toDep inp (m_AppID m))) = false ->
  (forall m', m' ∈ Machines inp -> m_DeploymentID m' = toDep inp (m_AppID m) ->
     machineServing m' = true -> proxyOf inp m' <> ""%string) ->
  exists m', m' ∈ Machines inp /\ publishable inp m' = true /\ m_AppID m' = m_AppID m /\
    m_ReplicaOrdinal m' = m_ReplicaOrdinal m.
Proof.
  intros Hwf Hm Hr Happ Hpr Hro Hs Hpx Hterm Hgen Hterm' Hnew.
  assert (rolloutByApp inp !! m_AppID m = Some r) as Hlook by (rewrite <- Happ; apply lookup_by; [apply Hwf|done]).
  destruct (cutOrdinals inp (m_AppID m) (m_ReplicaOrdinal m)) eqn:Hcut.
  - unfold cutOrdinals in Hcut. apply existsb_exists in Hcut as (m' & Hin & Hc).
    apply list_elem_of_In in Hin. unfold cuts in Hc. bool_to_prop.
    match goal with H : m_AppID m' = _ |- _ => rename H into Ha end.
    match goal with H : toDep _ _ = _ |- _ => rename H into Ht end.
    rewrite Ha in Ht. exists m'. split_and!; [done| |done|done].
    apply publishable_spec. split_and!; [done| |by apply Hnew].
    assert (toDep inp (m_AppID m) <> ""%string) as Hne.
    { rewrite Ht. pose proof (wf_deployed _ Hwf) as Hdep. rewrite Forall_forall in Hdep. by apply Hdep. }
    destruct (toDep_spec _ _ Hwf Hne) as (dep & r' & _ & _ & _ & Hr' & Hg & Hby).
    assert (r' = r) as -> by congruence.
    rewrite (drainingOf_spec _ _ r) by (by rewrite Ha). rewrite Ha, <- Ht, Hterm', Hpr, Hro. cbn [orb]. cbn zeta.
    unfold depGen. rewrite Hby. cbn [from_option]. rewrite Hg, Z.eqb_refl.
    assert (cutOrdinals inp (m_AppID m) (m_ReplicaOrdinal m') = true) as ->; [|done].
    unfold cutOrdinals. apply existsb_exists. exists m'. rewrite <- list_elem_of_In. split; [done|].
    unfold cuts. rewrite Ha, Ht, !String.eqb_refl, Z.eqb_refl. match goal with H : machineServing m' = true |- _ => by rewrite H end.
  - exists m. split_and!; [done| |done|done]. apply publishable_spec. split_and!; [done| |done].
    rewrite (drainingOf_spec _ _ r) by done. rewrite Hterm, Hpr, Hro, Hcut. cbn.
    by rewrite (proj2 (Z.eqb_neq _ _) Hgen).
Qed.

(** ** Canary weights *)

Definition zsum (l : list Z) : Z := foldr Z.add 0 l.

Lemma zsum_app l1 l2 : zsum (l1 ++ l2) = zsum l1 + zsum l2.
Proof. unfold zsum. induction l1 as [|z l1 IH]; cbn; lia. Qed.

#[export] Instance zsum_proper : Proper (Permutation ==> eq) zsum.
Proof. intros l1 l2 Hp. unfold zsum. induction Hp; cbn in *; lia. Qed.

(** The weight of the [j]-th machine. *)
Definition jth_weight (share n : Z) (j : nat) : Z :=
  let w := if Z.of_nat j <? share mod n then share / n + 1 else share / n in
  if w <? 1 then 1 else w.

Lemma zsum_seq (base r : Z) (n : nat) :
  0 <= r -> zsum (map (fun j => if Z.of_nat j <? r then base + 1 else base) (seq 0 n)) =
    Z.of_nat n * base + Z.min r (Z.of_nat n).
Proof.
  intros Hr. induction n as [|n IH]; [cbn; lia|]. rewrite seq_S, map_app, zsum_app, IH. cbn.
  destruct (Z.ltb_spec (Z.of_nat n) r); lia.
Qed.

Lemma zsum_jth (share : Z) (n : nat) :
  0 < share -> (0 < n)%nat ->
  zsum (map (jth_weight share (Z.of_nat n)) (seq 0 n)) = Z.max share (Z.of_nat n).
Proof.
  intros Hs Hn. set (N := Z.of_nat n). assert (0 < N) as HN by lia.
  pose proof (Z.div_mod share N ltac:(lia)) as Hdm. pose proof (Z.mod_pos_bound share N HN) as Hm.
  pose proof (Z.div_pos share N ltac:(lia) HN) as Hq.
  destruct (Z.leb_spec 1 (share / N)) as [Hbig|Hsmall].
  - transitivity (zsum (map (fun j => if Z.of_nat j <? share mod N then share / N + 1 else share / N) (seq 0 n))).
    + f_equal. apply map_ext. intros j. unfold jth_weight. destruct (Z.of_nat j <? _);
        destruct (Z.ltb_spec (share / N + 1) 1), (Z.ltb_spec (share / N) 1); lia.
    + rewrite zsum_seq by lia. fold N. nia.
  - assert (share / N = 0) as H0 by lia.
    transitivity (zsum (map (fun j => if Z.of_nat j <? 0 then 1 + 1 else 1) (seq 0 n))).
    + f_equal. apply map_ext. intros j. unfold jth_weight. rewrite H0.
      destruct (Z.ltb_spec (Z.of_nat j) 0); [lia|]. fold N. by destruct (Z.of_nat j <? share mod N).
    + rewrite zsum_seq by lia. fold N. nia.
Qed.

Lemma share_weights_keys share ids : (share_weights share ids).*1 = sort_strings ids.
Proof.
  unfold share_weights. apply list_eq. intros i. rewrite list_lookup_fmap, list_lookup_imap.
  by destruct (sort_strings ids !! i).
Qed.

Lemma share_weights_lookup share ids j id :
  sort_strings ids !! j = Some id -> (id, jth_weight share (Z.of_nat (length ids)) j) ∈ share_weights share ids.
Proof.
  intros Hj. unfold share_weights.
  assert (length (sort_strings ids) = length ids) as -> by apply length_sort_by.
  by apply (elem_of_lookup_imap_2 (fun j id => (id, jth_weight share (Z.of_nat (length ids)) j))).
Qed.

Section canary.
Context (inp : Input).

Lemma publishable_ids_unique id : well_formed inp -> NoDup (publishableByDep inp id).
Proof.
  intros [Hnd _ _ _]. unfold publishableByDep. eapply sublist_NoDup; [exact Hnd|]. clear Hnd.
  induction (Machines inp) as [|m ms IH]; [constructor|]. cbn [omap list_omap map].
  destruct (_ && _); by constructor.
Qed.

Lemma publishable_id_dep id1 id2 x :
  well_formed inp -> x ∈ publishableByDep inp id1 -> x ∈ publishableByDep inp id2 -> id1 = id2.
Proof.
  intros [Hnd _ _ _] (m1 & Hm1 & E1)%list_elem_of_omap (m2 & Hm2 & E2)%list_elem_of_omap.
  destruct (_ && _) eqn:H1 in E1; [|done]. destruct (_ && _) eqn:H2 in E2; [|done].
  injection E1 as <-. injection E2 as E. bool_to_prop.
  apply list_elem_of_lookup in Hm1 as [i Hi], Hm2 as [j Hj].
  assert (i = j) as ->; [|congruence].
  eapply NoDup_lookup; [exact Hnd| |]; rewrite list_lookup_fmap; [by rewrite Hi|by rewrite Hj, <- E].
Qed.

Definition weigh (out : gmap string Z) (dep : Deployment) : gmap string Z :=
  match canary_share (rolloutByApp inp) (toDepByApp inp) dep with
  | None => out
  | Some share =>
      if Nat.eqb (length (publishableByDep inp (d_ID dep))) 0 then out
      else insert_all (share_weights share (publishableByDep inp (d_ID dep))) out
  end.

Lemma weigh_other out deps x :
  (forall dep, dep ∈ deps -> x ∉ publishableByDep inp (d_ID dep)) -> foldl weigh out deps !! x = out !! x.
Proof.
  revert out. induction deps as [|dep deps IH]; intros out Hx; [done|]. cbn. rewrite IH by set_solver.
  unfold weigh. destruct (canary_share _ _ dep) as [share|]; [|done]. destruct (Nat.eqb _ _); [done|].
  apply lookup_insert_all_ne. rewrite share_weights_keys. unfold sort_strings. rewrite elem_of_sort_by.
  apply Hx. by left.
Qed.

(** The weight of a machine of a deployment with a share. *)
Lemma weight_lookup dep share j id :
  well_formed inp -> dep ∈ Deployments inp ->
  canary_share (rolloutByApp inp) (toDepByApp inp) dep = Some share ->
  sort_strings (publishableByDep inp (d_ID dep)) !! j = Some id ->
  weightByMachine inp !! id = Some (jth_weight share (Z.of_nat (length (publishableByDep inp (d_ID dep)))) j).
Proof.
  intros Hwf Hdep Hshare Hj. unfold weightByMachine, deriveCanaryWeights.
  change (foldl weigh ∅ (Deployments inp) !! id = Some (jth_weight share (Z.of_nat (length (publishableByDep inp (d_ID dep)))) j)).
  pose proof (wf_deployments _ Hwf) as Hnd.
  apply list_elem_of_split in Hdep as (l1 & l2 & Heq). rewrite Heq in Hnd |- *.
  rewrite foldl_app. cbn.
  assert (id ∈ publishableByDep inp (d_ID dep)) as Hid.
  { rewrite <- (elem_of_sort_by String.ltb). by eapply list_elem_of_lookup_2. }
  rewrite weigh_other.
  - unfold weigh at 1. rewrite Hshare.
    destruct (Nat.eqb_spec (length (publishableByDep inp (d_ID dep))) 0) as [Hl|_].
    { apply nil_length_inv in Hl. rewrite Hl in Hid. by apply not_elem_of_nil in Hid. }
    apply lookup_insert_all; [|by apply share_weights_lookup].
    rewrite share_weights_keys. unfold sort_strings. rewrite sort_by_Permutation. by apply publishable_ids_unique.
  - intros dep' Hin Hid'. pose proof (publishable_id_dep _ _ _ Hwf Hid Hid') as E.
    rewrite map_app in Hnd. apply NoDup_app in Hnd as (_ & _ & Hnd). cbn in Hnd.
    apply NoDup_cons in Hnd as [Hn _]. apply Hn. rewrite E. by apply list_elem_of_fmap_2.
Qed.

Lemma canary_share_pos dep share :
  canary_share (rolloutByApp inp) (toDepByApp inp) dep = Some share -> 1 <= share <= 99.
Proof.
  unfold canary_share, NormalizeCanaryWeight. destruct (rolloutByApp inp !! _) as [r|]; [|done].
  destruct (_ && _); [done|]. destruct (_ =? 0) eqn:H0; [done|]. bool_to_prop.
  destruct (Z.ltb_spec (r_CanaryWeight r) 0), (Z.ltb_spec 99 (r_CanaryWeight r)); try lia.
  all: destruct (String.eqb _ _); [intros [= <-]; lia|]; destruct (_ =? _); [intros [= <-]; lia|done].
Qed.
End canary.

(** In a canary window the weights of the published machines of a
    generation add up to the generation's share, or to their number when there
    are more machines than the share has percent; they differ by at most
    one, and none is zero. *)
Theorem canary_shares inp dep share :
  well_formed inp -> dep ∈ Deployments inp ->
  canary_share (rolloutByApp inp) (toDepByApp inp) dep = Some share ->
  let ids := publishableByDep inp (d_ID dep) in
  let n := Z.of_nat (length ids) in
  ids <> [] ->
  zsum (map (weightOrDefault (weightByMachine inp)) ids) = Z.max share n /\
  forall id, id ∈ ids -> let w := weightOrDefault (weightByMachine inp) id in
    1 <= w /\ (w = Z.max 1 (share / n) \/ w = share / n + 1).
Proof.
  intros Hwf Hdep Hshare ids n Hne. pose proof (canary_share_pos _ _ _ Hshare) as Hpos.
  assert (0 < length ids)%nat as Hlen by (destruct ids; cbn; [done|lia]).
  assert (0 < n) as Hn by lia. pose proof (Z.div_pos share n ltac:(lia) Hn) as Hq.
  assert (forall j, 1 <= jth_weight share n j) as Hj1.
  { intros j. unfold jth_weight. destruct (_ <? share mod n);
      [destruct (Z.ltb_spec (share / n + 1) 1)|destruct (Z.ltb_spec (share / n) 1)]; lia. }
  assert (forall j id, sort_strings ids !! j = Some id ->
            weightOrDefault (weightByMachine inp) id = jth_weight share n j) as Hw.
  { intros j id Hj. unfold weightOrDefault. rewrite (weight_lookup inp dep share j id) by done. cbn.
    fold ids n. specialize (Hj1 j). destruct (Z.ltb_spec 0 (jth_weight share n j)); [done|lia]. }
  split.
  - rewrite <- (sort_by_Permutation String.ltb ids) at 1.
    change (sort_by String.ltb ids) with (sort_strings ids).
    unfold n at 1. rewrite <- (zsum_jth share (length ids)) by lia. f_equal. apply list_eq. intros j.
    rewrite !list_lookup_fmap. fold n.
    destruct (sort_strings ids !! j) as [id|] eqn:Hj; cbn.
    + assert (j < length ids)%nat as Hlt
        by (rewrite <- (length_sort_by String.ltb ids); by eapply lookup_lt_Some).
      rewrite lookup_seq_lt by done. cbn. f_equal. by apply Hw.
    + apply lookup_ge_None in Hj. unfold sort_strings in Hj. rewrite length_sort_by in Hj.
      rewrite lookup_seq_ge by done. done.
  - intros id Hid w. rewrite <- (elem_of_sort_by String.ltb) in Hid.
    apply list_elem_of_lookup in Hid as [j Hj]. unfold w. rewrite (Hw j id Hj). split; [apply Hj1|].
    unfold jth_weight. destruct (_ <? share mod n);
      [destruct (Z.ltb_spec (share / n + 1) 1)|destruct (Z.ltb_spec (share / n) 1)]; lia.
Qed.

(** ** Lemmas: publication *)

Definition host_item (r : RouteRow) : HostRoute := mkHostRoute (rr_Port r) (converted r).
Definition of_host (h : string) (r : RouteRow) : Prop := rr_Hostname r = h.
#[export] Instance of_host_dec h r : Decision (of_host h r).
Proof. unfold of_host. apply _. Defined.

Lemma hostRoutes_spec rows h :
  hostRoutes rows !! h =
    match filter (of_host h) rows with [] => None | l => Some (map host_item l) end.
Proof.
  induction rows as [|r rows IH] using rev_ind; [done|].
  unfold hostRoutes in *. rewrite foldl_app, filter_app. cbn [foldl]. destruct (decide (rr_Hostname r = h)) as [<-|Hne].
  - rewrite lookup_insert_eq, IH. rewrite filter_cons_True by done. rewrite filter_nil.
    destruct (filter (of_host (rr_Hostname r)) rows) as [|r' l]; [done|].
    cbn [default from_option]. unfold id. rewrite <- app_comm_cons, app_comm_cons, map_app. done.
  - rewrite lookup_insert_ne, IH by done. rewrite filter_cons_False by done. by rewrite filter_nil, app_nil_r.
Qed.

Lemma host_items_spec rows h : default [] (hostRoutes rows !! h) = map host_item (filter (of_host h) rows).
Proof. rewrite hostRoutes_spec. by destruct (filter _ _). Qed.

Lemma hostRoutes_dom rows h : h ∈ dom (hostRoutes rows) <-> h ∈ map rr_Hostname rows.
Proof.
  rewrite elem_of_dom, hostRoutes_spec. split.
  - intros [x Hx]. destruct (filter (of_host h) rows) as [|r l] eqn:Hf; [done|].
    assert (r ∈ filter (of_host h) rows) as Hr by (rewrite Hf; left).
    apply list_elem_of_filter in Hr as [<- Hr]. by apply list_elem_of_fmap_2.
  - intros (r & -> & Hr)%list_elem_of_fmap.
    assert (r ∈ filter (of_host (rr_Hostname r)) rows) as Hin by (by apply list_elem_of_filter).
    destruct (filter _ _); [by apply not_elem_of_nil in Hin|by eexists].
Qed.

(** The ports of one hostname are distinct where the rows have distinct keys. *)
Lemma host_ports_distinct rows h :
  NoDup (map rr_key rows) -> NoDup (map Port (map host_item (filter (of_host h) rows))).
Proof.
  intros Hnd. rewrite map_map. change (NoDup (map rr_Port (filter (of_host h) rows))).
  induction rows as [|r rows IH]; [constructor|]. apply NoDup_cons in Hnd as [Hn Hnd]. rewrite filter_cons.
  case_decide as Hr; [|by apply IH]. cbn. constructor; [|by apply IH].
  intros (r' & Hp & Hr')%list_elem_of_fmap. apply list_elem_of_filter in Hr' as [Hh Hr'].
  apply Hn. apply list_elem_of_fmap. exists r'. split; [|done]. unfold rr_key. unfold of_host in *. congruence.
Qed.

(** ** Lemmas: allocation of revisions *)

Lemma distinct_hostnames_spec seen active h :
  h ∈ distinct_hostnames seen active <-> h ∈ map rr_Hostname active /\ h ∉ seen.
Proof.
  revert seen. induction active as [|r active IH]; intros seen; cbn -[bool_decide]; [set_solver|].
  case_bool_decide as Hin; rewrite ?elem_of_cons, IH; [set_solver|].
  destruct (decide (h = rr_Hostname r)); set_solver.
Qed.

Lemma distinct_hostnames_NoDup seen active : NoDup (distinct_hostnames seen active).
Proof.
  revert seen. induction active as [|r active IH]; intros seen; cbn -[bool_decide]; [constructor|].
  case_bool_decide; [done|]. constructor; [|done]. rewrite distinct_hostnames_spec. set_solver.
Qed.

Lemma allocate_spec hs revs :
  NoDup hs ->
  let '(revs', out) := allocate hs revs in
  (forall h, h ∈ hs -> revs' !! h = Some (default 0 (revs !! h) + 1) /\ out !! h = revs' !! h) /\
  (forall h, h ∉ hs -> revs' !! h = revs !! h /\ out !! h = None).
Proof.
  induction hs as [|h hs IH] using rev_ind; intros Hnd.
  { split; [|done]. intros h Hh. by apply not_elem_of_nil in Hh. }
  unfold allocate in *. rewrite foldl_app. apply NoDup_app in Hnd as (Hnd & Hdisj & _).
  destruct (foldl _ _ hs) as [revs1 out1]. destruct (IH Hnd) as [Hin Hout]. cbn.
  assert (h ∉ hs) as Hh by (intros H; apply (Hdisj _ H); set_solver). split.
  - intros h' [Hh'|[->|Hn]%elem_of_cons]%elem_of_app; [| |by apply not_elem_of_nil in Hn].
    + rewrite !lookup_insert_ne by set_solver. by apply Hin.
    + rewrite !lookup_insert_eq. split; [|done]. destruct (Hout h Hh) as [-> _]. by destruct (revs !! h).
  - intros h' Hh'. rewrite !lookup_insert_ne by set_solver. apply Hout. set_solver.
Qed.

(** ** Lemmas: the ports of the rows *)

(** The services of the published machines have positive ports. *)
Definition ports_positive (inp : Input) : Prop :=
  forall m s, m ∈ Machines inp -> publishable inp m = true -> s ∈ services_of inp m -> 0 < s_InternalPort s.

Section primary.
Context (unicode_lower : string -> string) (inp : Input).

Lemma primary_add acc o :
  primaryPorts (add_offer unicode_lower inp acc o) =
    let primary := default 0 (primaryPorts acc !! m_Hostname (o_machine o)) in
    if Nat.eqb (o_index o) 0 && ((primary =? 0) || (s_InternalPort (o_service o) <? primary))
    then <[m_Hostname (o_machine o) := s_InternalPort (o_service o)]> (primaryPorts acc) else primaryPorts acc.
Proof. unfold add_offer, add_service. by destruct (f_ULA _). Qed.

(** The primary of a hostname is the port of an offer, and there is one where
    a machine is published. *)
Lemma primary_spec l :
  Forall (fun o => 0 < s_InternalPort (o_service o)) l ->
  (forall h p, primaryPorts (collect_list unicode_lower inp l) !! h = Some p ->
     0 < p /\ exists o, o ∈ l /\ o_key o = (h, p)) /\
  (forall o, o ∈ l -> o_index o = 0%nat ->
     is_Some (primaryPorts (collect_list unicode_lower inp l) !! m_Hostname (o_machine o))).
Proof.
  induction l as [|o l IH] using rev_ind; intros Hpos.
  { split; [done|]. intros o Ho. by apply not_elem_of_nil in Ho. }
  apply Forall_app in Hpos as [Hpos Ho]. apply Forall_cons in Ho as [Ho _]. destruct (IH Hpos) as [H1 H2]. clear IH.
  rewrite collect_list_snoc, primary_add. cbv zeta.
  set (acc := collect_list unicode_lower inp l) in *. set (h := m_Hostname (o_machine o)).
  destruct (_ && _) eqn:Hc.
  - split.
    + intros h' p [[<- <-]|[Hne Hp]]%lookup_insert_Some.
      * split; [exact Ho|]. exists o. split; [set_solver|done].
      * destruct (H1 h' p Hp) as (? & o' & ? & ?). split; [done|]. exists o'. set_solver.
    + intros o' Hin Hi. destruct (decide (h = m_Hostname (o_machine o'))) as [<-|Hne].
      * rewrite lookup_insert_eq. by eexists.
      * rewrite lookup_insert_ne by done. apply H2; [|done].
        apply elem_of_app in Hin as [|Hin]; [done|]. apply list_elem_of_singleton in Hin as ->. done.
  - split.
    + intros h' p Hp. destruct (H1 h' p Hp) as (? & o' & ? & ?). split; [done|]. exists o'. set_solver.
    + intros o' Hin Hi. apply elem_of_app in Hin as [|Hin]; [by apply H2|].
      apply list_elem_of_singleton in Hin as ->. fold h. rewrite Hi in Hc. cbn in Hc. bool_to_prop.
      destruct (primaryPorts acc !! h); [by eexists|done].
Qed.

Lemma offers_positive : ports_positive inp -> Forall (fun o => 0 < s_InternalPort (o_service o)) (offers inp).
Proof.
  intros Hpos. apply Forall_forall. intros o (Hm & Hp & Hs)%elem_of_offers.
  apply (Hpos (o_machine o)); [done..|]. by eapply list_elem_of_lookup_2.
Qed.

Lemma offer_row o : o ∈ offers inp -> o_key o ∈ map rr_key (Routes (Derive unicode_lower inp)).
Proof.
  intros Ho. destruct (row_of inp (o_key o) (filter (at_key (o_key o)) (offers inp))) as [row|] eqn:Hrow.
  - pose proof (row_of_some _ _ _ _ Hrow) as (E1 & E2 & _).
    apply (list_elem_of_fmap_2' _ _ (sort_backends row)); [apply elem_of_routes; by exists (o_key o), row|].
    unfold rr_key. cbn. rewrite E1, E2. apply surjective_pairing.
  - exfalso. destruct (filter (at_key (o_key o)) (offers inp)) as [|o' l] eqn:Hf; [|done].
    assert (o ∈ filter (at_key (o_key o)) (offers inp)) as Hin by (by apply list_elem_of_filter).
    rewrite Hf in Hin. by apply not_elem_of_nil in Hin.
Qed.

Lemma row_offer r :
  r ∈ Routes (Derive unicode_lower inp) -> exists o, o ∈ offers inp /\ o_key o = rr_key r.
Proof.
  intros (key & row & Hrow & ->)%elem_of_routes. pose proof (row_of_some _ _ _ _ Hrow) as (E1 & E2 & _).
  destruct (filter (at_key key) (offers inp)) as [|o l] eqn:Hf; [done|].
  assert (o ∈ filter (at_key key) (offers inp)) as Hin by (rewrite Hf; left).
  apply list_elem_of_filter in Hin as [Hk Ho]. exists o. split; [done|]. unfold rr_key. cbn.
  rewrite E1, E2. rewrite Hk. apply surjective_pairing.
Qed.

(** Every hostname with rows has a primary port among them. *)
Lemma primary_declared r :
  ports_positive inp -> r ∈ Routes (Derive unicode_lower inp) ->
  let h := rr_Hostname r in
  let p := default 0 (PrimaryPorts (Derive unicode_lower inp) !! h) in
  0 < rr_Port r /\ PrimaryPorts (Derive unicode_lower inp) !! h = Some p /\
  (h, p) ∈ map rr_key (Routes (Derive unicode_lower inp)).
Proof.
  intros Hpos Hr h p. pose proof (offers_positive Hpos) as Hall.
  destruct (primary_spec (offers inp) Hall) as [H1 H2].
  destruct (row_offer r Hr) as (o & Ho & Hk). split.
  { rewrite Forall_forall in Hall. specialize (Hall o Ho). unfold o_key, rr_key in Hk. injection Hk as _ <-. done. }
  pose proof Ho as (Hm & Hpub & _)%elem_of_offers. destruct (offer_first inp (o_machine o) Hm Hpub) as [s Hs].
  destruct (H2 _ Hs eq_refl) as [q Hq]. cbn [o_machine fst] in Hq.
  assert (m_Hostname (o_machine o) = h) as Hh by (unfold o_key, rr_key in Hk; by injection Hk).
  rewrite Hh in Hq. rewrite <- collect_offers in Hq.
  assert (PrimaryPorts (Derive unicode_lower inp) !! h = Some q) as Hq' by done.
  unfold p. rewrite Hq'. split; [done|]. cbn. rewrite collect_offers in Hq.
  destruct (H1 h q Hq) as (_ & o' & Ho' & <-). by apply offer_row.
Qed.

(** ** Lemmas: the .internal records *)

Lemma dnsSet_add acc o :
  dnsSet (add_offer unicode_lower inp acc o) =
    match f_ULA (o_hint inp o) with
    | Some ula =>
        let name := dns_name unicode_lower (o_machine o) (o_hint inp o) in
        <[name := appendUniqueAAA (default [] (dnsSet acc !! name)) ula]> (dnsSet acc)
    | None => dnsSet acc
    end.
Proof. unfold add_offer, add_service, o_hint. by destruct (f_ULA _). Qed.

Lemma elem_of_appendUnique l ula a : a ∈ appendUniqueAAA l ula <-> a ∈ l \/ a = ula.
Proof.
  unfold appendUniqueAAA. destruct (existsb _ l) eqn:He; [|set_solver].
  apply existsb_exists in He as (b & Hb & E). apply String.eqb_eq in E as <-. apply list_elem_of_In in Hb.
  split; [by left|]. by intros [? | ->].
Qed.

(** The addresses collected under a name, for every name. *)
Lemma dnsSet_spec l name a :
  (exists l', dnsSet (collect_list unicode_lower inp l) !! name = Some l' /\ a ∈ l') <->
  (exists o, o ∈ l /\ f_ULA (o_hint inp o) = Some a /\ dns_name unicode_lower (o_machine o) (o_hint inp o) = name).
Proof.
  induction l as [|o l IH] using rev_ind.
  { split; [by intros (? & ? & _)|]. intros (o & Ho & _). by apply not_elem_of_nil in Ho. }
  rewrite collect_list_snoc, dnsSet_add.
  set (d := dnsSet (collect_list unicode_lower inp l)) in *. destruct (f_ULA (o_hint inp o)) as [ula|] eqn:Hu; cbv zeta.
  - set (n0 := dns_name _ _ _). destruct (decide (n0 = name)) as [<-|Hne].
    + rewrite lookup_insert_eq. split.
      * intros (l' & [= <-] & [Ha| ->]%elem_of_appendUnique).
        -- destruct (d !! n0) as [l'|] eqn:Hd; [|by apply not_elem_of_nil in Ha].
           destruct (proj1 IH (ex_intro _ l' (conj eq_refl Ha))) as (o' & ? & ?). exists o'. set_solver.
        -- exists o. split; [set_solver|done].
      * intros (o' & Ho' & Ha & Hn). eexists. split; [done|]. apply elem_of_appendUnique.
        apply elem_of_app in Ho' as [Ho'|Ho'%list_elem_of_singleton].
        -- left. destruct (proj2 IH) as (l' & Hl' & Hin); [by exists o'|]. by rewrite Hl'.
        -- right. subst o'. congruence.
    + rewrite lookup_insert_ne by done. rewrite IH. split; intros (o' & Ho' & Ha & Hn); exists o'.
      * set_solver.
      * apply elem_of_app in Ho' as [Ho'|Ho'%list_elem_of_singleton]; [done|]. subst o'. done.
  - rewrite IH. split; intros (o' & Ho' & Ha & Hn); exists o'; [set_solver|].
    apply elem_of_app in Ho' as [Ho'|Ho'%list_elem_of_singleton]; [done|]. subst o'. congruence.
Qed.

Lemma dnsSet_valid l name l' :
  dnsSet (collect_list unicode_lower inp l) !! name = Some l' ->
  l' <> [] /\ exists base, name = (base +:+ ".internal")%string.
Proof.
  revert name l'. induction l as [|o l IH] using rev_ind; intros name l'; [done|].
  rewrite collect_list_snoc, dnsSet_add. destruct (f_ULA (o_hint inp o)) as [ula|]; [|apply IH]. cbv zeta.
  intros [[<- <-]|[_ Hl]]%lookup_insert_Some; [|by eapply IH]. split.
  - unfold appendUniqueAAA. destruct (default [] _); [done|]. by destruct (existsb _ _).
  - unfold dns_name. eexists. rewrite !(assoc_L String.append). reflexivity.
Qed.

Lemma internal_names_distinct : NoDup (map Name (InternalDNS (Derive unicode_lower inp))).
Proof.
  cbn [InternalDNS Derive]. rewrite sort_by_Permutation, map_map. cbn. apply NoDup_fst_map_to_list.
Qed.

Lemma internal_dns_valid : Forall dns_valid (InternalDNS (Derive unicode_lower inp)).
Proof.
  apply Forall_forall. intros r. cbn [InternalDNS Derive]. rewrite elem_of_sort_by, collect_offers.
  intros ([name l] & -> & Hin)%list_elem_of_fmap. apply elem_of_map_to_list, dnsSet_valid in Hin as [Hl Hb].
  split; [|done]. intros E. change (sort_by String.ltb l = []) in E. apply (f_equal length) in E.
  rewrite length_sort_by in E. by apply nil_length_inv in E.
Qed.
End primary.

(** ** Lemmas: the loop over the hostnames *)

(** The hostname [h] shows exactly the publication given. *)
Definition shows_routes (st : Redis) (h : string) (rev : Z) (items : list HostRoute) (primary : Z) : Prop :=
  routerev st !! h = Some rev /\
  hostidx st !! h = Some (IdxPorts (ordered_ports primary (map (stamp rev) items))) /\
  forall i, i ∈ items -> routes st !! (h, Port i) = Some (HRoute (stamp rev i)).

(** The loop leaves the keys of the hostnames it does not name alone. *)
Lemma publish_hosts_keeps io revisions hr primaries hs h st st' :
  publish_hosts io revisions hr primaries hs st = (st', Ok tt) -> h ∉ hs ->
  (forall h', h' ∈ hs -> io h' = healthy) ->
  hostidx st' !! h = hostidx st !! h /\ forall p, routes st' !! (h, p) = routes st !! (h, p).
Proof.
  revert st. induction hs as [|h1 hs IH]; intros st Hl Hh Hio; [by injection Hl as <-|].
  cbn [publish_hosts] in Hl. apply cmd_bind_ok in Hl as (s & b & Hl1 & Hl2).
  apply not_elem_of_cons in Hh as [Hne Hh].
  destruct (IH s Hl2 Hh) as [H1 H2]; [intros h' Hh'; apply Hio; by right|]. rewrite H1.
  rewrite (Hio h1) in Hl1 by (by left). unfold ReplaceHostRoutes in Hl1.
  destruct (checked_routes _ _ _ _) as [items|] eqn:Hc; [|done].
  apply checked_routes_ok in Hc as (-> & Hnd & _ & _).
  destruct (replaceHostRoutes _ _ _ _ _) as [s' n] eqn:Hs. cbn in Hl1. injection Hl1 as <- <-.
  destruct (Z.leb_spec (default 0 (revisions !! h1)) (route_revision st h1)) as [Hle|Hgt].
  { rewrite script_refused in Hs by done. by injection Hs as <- <-. }
  apply script_applied in Hs as (_ & _ & Hi & _ & _ & Hoth); [|done|by rewrite map_map].
  split; [rewrite Hi; by apply lookup_insert_ne|]. intros p. rewrite H2. by apply Hoth.
Qed.

Lemma publish_hosts_ok io revisions hr primaries hs st :
  NoDup hs ->
  (forall h, h ∈ hs -> io h = healthy /\
     let items := default [] (hr !! h) in
     NoDup (map Port items) /\ Forall (fun i => 0 < Port i) items /\
     default 0 (primaries !! h) ∈ map Port items /\
     route_revision st h < default 0 (revisions !! h)) ->
  exists st', publish_hosts io revisions hr primaries hs st = (st', Ok tt) /\
    (forall h, h ∈ hs -> shows_routes st' h (default 0 (revisions !! h)) (default [] (hr !! h))
                           (default 0 (primaries !! h))) /\
    (forall h, h ∉ hs -> routerev st' !! h = routerev st !! h).
Proof.
  intros Hnd. revert st. induction Hnd as [|h hs Hh Hnd IH]; intros st Hok.
  { exists st. split_and!; [done| |done]. intros h Hh. by apply not_elem_of_nil in Hh. }
  destruct (Hok h ltac:(by left)) as (Hio & Hp & Hpos & Hprim & Hrev).
  destruct (replace_applied h (default 0 (revisions !! h)) (default [] (hr !! h)) (default 0 (primaries !! h)) st)
    as (st1 & Heq & Hr & Hi & Hrt & _ & Hoth); [done..|].
  destruct (IH st1) as (st' & Hloop & Hin & Hout).
  { intros h' Hh'. assert (h' <> h) as Hne by set_solver.
    destruct (Hok h' ltac:(by right)) as (? & ? & ? & ? & Hrev'). split_and!; try done.
    unfold route_revision in Hrev' |- *. by rewrite Hr, lookup_insert_ne. }
  exists st'. cbn [publish_hosts]. unfold cmd_bind. rewrite Hio, Heq. split_and!; [done| |].
  - intros h' [->|Hh']%elem_of_cons; [|by apply Hin].
    destruct (publish_hosts_keeps _ _ _ _ _ h _ _ Hloop Hh) as [Hki Hkr]; [intros h' Hh'; apply Hok; by right|].
    split_and!.
    + by rewrite Hout, Hr, lookup_insert_eq.
    + by rewrite Hki, Hi, lookup_insert_eq.
    + intros i Hin'. rewrite Hkr. by apply Hrt.
  - intros h' Hh'. rewrite Hout, Hr by set_solver. apply lookup_insert_ne. set_solver.
Qed.

(** The high-water marks after a publication that may have failed anywhere. *)
Lemma publish_hosts_routerev io revisions hr primaries hs st h :
  let st' := (publish_hosts io revisions hr primaries hs st).1 in
  routerev st' !! h = routerev st !! h \/
  h ∈ hs /\ routerev st' !! h = Some (default 0 (revisions !! h)).
Proof.
  cbn zeta. revert st. induction hs as [|h1 hs IH]; intros st; [by left|]. cbn [publish_hosts]. unfold cmd_bind.
  pose proof (replace_routerev (io h1) h1 (default 0 (revisions !! h1)) (default [] (hr !! h1))
                (default 0 (primaries !! h1)) st h) as Hr. cbn zeta in Hr.
  destruct (ReplaceHostRoutes _ _ _ _ _ st) as [st1 [b|e]]; cbn in Hr |- *.
  - destruct (IH st1) as [-> | [? Hs]]; [|right; split; [by right|done]].
    destruct Hr as [-> | (-> & -> & _)]; [by left|right; split; [by left|done]].
  - destruct Hr as [-> | (-> & -> & _)]; [by left|right; split; [by left|done]].
Qed.

(** ** Rebuild *)

(** No high-water mark in Redis is above the revision PostgreSQL has allocated. *)
Definition ahead (w : World) : Prop :=
  forall h, route_revision (redis w) h <= default 0 (pg_revisions (pg w) !! h).

(** The publication of a row once its hostname has revision [rev]. *)
Definition published_route (rev : Z) (r : RouteRow) : Route :=
  mkRoute (rr_Generation r) rev (map converted_backend (rr_Backends r)).

Lemma sync_revisions o active pg pg' r h :
  SyncRoutes o active pg = (pg', r) ->
  default 0 (pg_revisions pg !! h) <= default 0 (pg_revisions pg' !! h) /\
  match r with
  | Err _ => True
  | Ok revisions =>
      (h ∈ map rr_Hostname active ->
         pg_revisions pg' !! h = Some (default 0 (pg_revisions pg !! h) + 1) /\
         revisions !! h = pg_revisions pg' !! h) /\
      (h ∉ map rr_Hostname active -> revisions !! h = None)
  end.
Proof.
  unfold SyncRoutes. pose proof (allocate_spec (distinct_hostnames [] active) (pg_revisions pg)
    (distinct_hostnames_NoDup [] active)) as Hspec.
  destruct (allocate _ _) as [revs out]. destruct Hspec as [Hin Hout].
  assert (default 0 (pg_revisions pg !! h) <= default 0 (revs !! h)) as Hle.
  { destruct (decide (h ∈ distinct_hostnames [] active)) as [Hd|Hd].
    - destruct (Hin h Hd) as [-> _]. cbn. lia.
    - by destruct (Hout h Hd) as [-> _]. }
  intros Heq. destruct o; injection Heq as <- <-; cbn; split; try done.
  split; intros Hh.
  - apply Hin. apply distinct_hostnames_spec. set_solver.
  - apply Hout. rewrite distinct_hostnames_spec. naive_solver.
Qed.

Lemma publishRedis_routerev io pio projection revisions st h :
  let st' := (publishRedis io pio projection revisions st).1 in
  routerev st' !! h = routerev st !! h \/
  h ∈ map rr_Hostname (Routes projection) /\ routerev st' !! h = Some (default 0 (revisions !! h)).
Proof.
  cbn zeta. unfold publishRedis, cmd_bind.
  pose proof (publish_hosts_routerev io revisions (hostRoutes (Routes projection)) (PrimaryPorts projection)
    (sort_strings (elements (dom (hostRoutes (Routes projection))))) st h) as Hr. cbn zeta in Hr.
  unfold sort_strings in Hr at 2. rewrite elem_of_sort_by, elem_of_elements, hostRoutes_dom in Hr.
  destruct (publish_hosts _ _ _ _ _ st) as [st1 [u|e]]; [|done]. cbn [fst] in Hr.
  destruct (prune_is_commands pio (list_to_set (map (fun r => (rr_Hostname r, rr_Port r)) (Routes projection)))
              (list_to_set (map rr_Hostname (Routes projection))) st1) as (evs & Hdel & ->).
  assert (routerev (foldl apply_event st1 evs) = routerev st1) as ->; [|done].
  clear Hr. revert st1. induction Hdel as [|ev evs Hev _ IH]; intros st1; [done|]. cbn. rewrite IH.
  by destruct ev.
Qed.

Lemma set_dns_routerev io deadline records st :
  routerev (set_dns io deadline records st).1 = routerev st.
Proof.
  revert st. induction records as [|r records IH]; intros st; [done|]. cbn [set_dns].
  destruct (_ || _); [done|]. unfold cmd_bind, cmd_exec. destruct (io_set io _); cbn [fst]; [|done..].
  by rewrite IH.
Qed.

Lemma replace_dns_routerev io now records ttl st :
  routerev (ReplaceInternalDNS io now records ttl st).1 = routerev st.
Proof.
  unfold ReplaceInternalDNS. destruct (ttl <=? 0); [done|]. unfold cmd_bind at 1.
  pose proof (set_dns_routerev io (now + ttl) records st) as Hr.
  destruct (set_dns _ _ _ _) as [st1 [u|e]]; [|done]. cbn in Hr. rewrite <- Hr.
  unfold cmd_bind, cmd_read, del_some. destruct (io_scan io _); [done|]. destruct (Nat.eqb _ _); [done|].
  by destruct (io_del io _).
Qed.

(** However a rebuild ends - reads that fail, a commit that fails or
    whose reply is lost, any Redis command failing before or after it took
    effect - the revisions allocated in PostgreSQL stay at or above what Redis
    has seen, so that the next rebuild is never refused as stale. *)
Theorem rebuild_keeps_ahead p r commit io now proxyByNode w :
  ahead w -> ahead (Rebuild p r commit io now proxyByNode w).1.
Proof.
  intros Hahead. unfold Rebuild. destruct (read_input p r proxyByNode) as [inp|e]; [|done].
  set (projection := Derive _ inp).
  destruct (SyncRoutes commit (Routes projection) (pg w)) as [pg' [revisions|e]] eqn:Hsync; intros h; cbn [fst].
  - pose proof (sync_revisions _ _ _ _ _ h Hsync) as (Hle & Hin & Hout).
    destruct (publishAll io now (dnsStaleWindow p) projection revisions (redis w)) as [redis' r'] eqn:Hpub.
    cbn [fst redis pg]. specialize (Hahead h).
    assert (routerev redis' !! h = routerev (redis w) !! h \/
            h ∈ map rr_Hostname (Routes projection) /\ routerev redis' !! h = Some (default 0 (revisions !! h)))
      as [Hr|[Hh Hr]].
    { unfold publishAll, cmd_bind in Hpub.
      pose proof (publishRedis_routerev (host_io io) (prune_io io) projection revisions (redis w) h) as Hr.
      destruct (publishRedis _ _ _ _ _) as [st1 [u|e]]; cbn in Hr; [|by injection Hpub as <- _].
      unfold publishInternalDNS in Hpub.
      pose proof (replace_dns_routerev (dns_io io) now (InternalDNS projection) (dnsStaleWindow p) st1) as Hd.
      rewrite Hpub in Hd. cbn in Hd. by rewrite Hd. }
    + unfold route_revision in *. rewrite Hr. lia.
    + unfold route_revision in *. rewrite Hr. cbn. by destruct (Hin Hh) as [_ ->].
  - pose proof (sync_revisions _ _ _ _ _ h Hsync) as (Hle & _). specialize (Hahead h). cbn. lia.
Qed.

(** The ports published for a hostname are those of its rows. *)
Lemma items_ports rows h port :
  port ∈ map Port (default [] (hostRoutes rows !! h)) <-> (h, port) ∈ map rr_key rows.
Proof.
  rewrite host_items_spec, map_map. split.
  - intros (row & -> & Hrow)%list_elem_of_fmap. apply list_elem_of_filter in Hrow as [<- Hrow].
    by apply (list_elem_of_fmap_2' _ _ row).
  - intros (row & [= -> ->] & Hrow)%list_elem_of_fmap. apply (list_elem_of_fmap_2' _ _ row); [|done].
    by apply list_elem_of_filter.
Qed.

(** Redis shows the rows of [d] under [revisions], and no other hostname. *)
Definition projected (d : Projection) (revisions : gmap string Z) (st : Redis) : Prop :=
  (forall row, row ∈ Routes d ->
     let h := rr_Hostname row in
     let rev := default 0 (revisions !! h) in
     hostidx st !! h = Some (IdxPorts (ordered_ports (default 0 (PrimaryPorts d !! h))
                              (map (stamp rev) (default [] (hostRoutes (Routes d) !! h))))) /\
     routes st !! (h, rr_Port row) = Some (published_route rev row)) /\
  (forall h, h ∉ map rr_Hostname (Routes d) -> hostidx st !! h = None).

Section projected.
Context (unicode_lower : string -> string) (inp : Input) (Hpos : ports_positive inp).

Local Abbreviation d := (Derive unicode_lower inp).

Lemma publishRedis_ok revisions st :
  (forall h, h ∈ map rr_Hostname (Routes d) -> route_revision st h < default 0 (revisions !! h)) ->
  exists st', publishRedis (fun _ => healthy) healthy d revisions st = (st', Ok tt) /\ projected d revisions st'.
Proof.
  intros Hrev. set (hr := hostRoutes (Routes d)). set (hs := sort_strings (elements (dom hr))).
  assert (forall h, h ∈ hs <-> h ∈ map rr_Hostname (Routes d)) as Hhs.
  { intros h. unfold hs, sort_strings. rewrite elem_of_sort_by, elem_of_elements. apply hostRoutes_dom. }
  destruct (publish_hosts_ok (fun _ => healthy) revisions hr (PrimaryPorts d) hs st) as (st1 & Hloop & Hshow & _).
  { unfold hs, sort_strings. rewrite sort_by_Permutation. apply NoDup_elements. }
  { intros h Hh. apply Hhs in Hh. split; [done|]. cbv zeta. pose proof Hh as (row & -> & Hrow)%list_elem_of_fmap.
    destruct (primary_declared unicode_lower inp row Hpos Hrow) as (_ & _ & Hprim). split_and!.
    - unfold hr. rewrite host_items_spec. apply host_ports_distinct, routes_keys_unique.
    - unfold hr. rewrite host_items_spec. apply Forall_forall. intros i (row' & -> & Hrow')%list_elem_of_fmap.
      apply list_elem_of_filter in Hrow' as [_ Hrow'].
      by destruct (primary_declared unicode_lower inp row' Hpos Hrow') as (? & _).
    - by apply items_ports.
    - by apply Hrev. }
  eexists. split.
  { unfold publishRedis. fold hr hs. unfold cmd_bind at 1. rewrite Hloop. apply prune_healthy. }
  split.
  - intros row Hrow h rev. assert (h ∈ map rr_Hostname (Routes d)) as Hh by (by apply list_elem_of_fmap_2).
    destruct (Hshow h) as (_ & Hi & Hr); [by apply Hhs|]. cbn [hostidx routes with_routes]. split.
    + apply map_lookup_filter_Some. split; [done|]. cbn. by apply elem_of_list_to_set.
    + apply map_lookup_filter_Some. split.
      * apply (Hr (host_item row)). unfold hr. rewrite host_items_spec. apply list_elem_of_fmap_2.
        by apply list_elem_of_filter.
      * cbn. apply elem_of_list_to_set. by apply (list_elem_of_fmap_2' _ _ row).
  - intros h Hh. cbn [hostidx with_routes]. apply map_lookup_filter_None. right.
    intros v _. cbn. by rewrite elem_of_list_to_set.
Qed.

(** What the lookups return then. *)
Lemma projected_found revisions st row :
  projected d revisions st -> row ∈ Routes d ->
  let route := published_route (default 0 (revisions !! rr_Hostname row)) row in
  GetRouteForPort healthy (rr_Hostname row) (rr_Port row) st = (Some route, true, None) /\
  (PrimaryPorts d !! rr_Hostname row = Some (rr_Port row) ->
   GetRouteForHostname healthy (rr_Hostname row) st = Ok (Some route)).
Proof.
  intros [Hin _] Hrow route. destruct (Hin row Hrow) as [Hidx Hrt]. fold route in Hrt.
  destruct (primary_declared unicode_lower inp row Hpos Hrow) as (_ & _ & Hprim). split.
  - rewrite (lookup_declared _ _ _ _ _ Hidx), stamp_ports by (rewrite stamp_ports; by apply items_ports).
    rewrite bool_decide_eq_true_2; [by rewrite Hrt|]. apply items_ports. by apply (list_elem_of_fmap_2' _ _ row).
  - intros Hp. unfold GetRouteForHostname, HostPorts, GetRoute. cbn [io_get healthy]. rewrite Hidx.
    cbn [parsePorts ordered_ports]. unfold ordered_ports. rewrite Hp. cbn [default from_option]. unfold id.
    by rewrite Hrt.
Qed.

Lemma projected_missing revisions st h port :
  projected d revisions st -> (h, port) ∉ map rr_key (Routes d) ->
  GetRouteForPort healthy h port st = (None, false, None).
Proof.
  intros [Hin Hout] Hn. destruct (decide (h ∈ map rr_Hostname (Routes d))) as [Hh|Hh].
  - pose proof Hh as (row & -> & Hrow)%list_elem_of_fmap. destruct (Hin row Hrow) as [Hidx _].
    destruct (primary_declared unicode_lower inp row Hpos Hrow) as (_ & _ & Hprim).
    rewrite (lookup_declared _ _ _ _ _ Hidx), stamp_ports by (rewrite stamp_ports; by apply items_ports).
    rewrite bool_decide_eq_false_2; [done|]. by rewrite items_ports.
  - unfold GetRouteForPort, HostPorts. cbn [io_get healthy]. by rewrite (Hout h Hh).
Qed.

(** Listing the derived records, which are sorted already. *)
Lemma list_derived_dns t deadline st :
  ListInternalDNS healthy t (with_dns (list_to_map (dns_entries deadline (InternalDNS d))) st) =
    Ok (if t <? deadline then InternalDNS d else []).
Proof.
  rewrite list_internal_dns; [|apply internal_names_distinct|apply internal_dns_valid].
  destruct (t <? deadline); [|done]. f_equal. cbn [InternalDNS Derive]. apply (sort_by_name Name).
  - rewrite sort_by_Permutation, map_map. cbn. apply NoDup_fst_map_to_list.
  - apply sort_by_Permutation.
Qed.
End projected.

(** C15. A rebuild that meets no failure, with derived ports that are positive, makes
    Redis say exactly what was derived, whatever routes it held before - provided that
    it has seen no revision of a hostname above the one in the tables, which every
    rebuild keeps so but a table restored from a backup need not
    ([Witness.redis_from_the_future]): each derived hostname and port resolves
    to the derived backends under the revision just allocated, every other
    lookup finds nothing declared, a hostname alone resolves to its primary
    port, and the .internal names are the derived ones for the stale window. *)
Theorem rebuild_publishes p r now t proxyByNode w inp :
  read_input p r proxyByNode = Ok inp -> ports_positive inp -> 0 < dnsStaleWindow p -> ahead w ->
  let d := Derive (to_lower_unicode p) inp in
  exists w', Rebuild p r Done (mkPublishIO (fun _ => healthy) healthy healthy) now proxyByNode w = (w', Ok tt) /\
    (forall row, row ∈ Routes d ->
       let rev := default 0 (pg_revisions (pg w) !! rr_Hostname row) + 1 in
       pg_revisions (pg w') !! rr_Hostname row = Some rev /\
       GetRouteForPort healthy (rr_Hostname row) (rr_Port row) (redis w') =
         (Some (published_route rev row), true, None) /\
       (PrimaryPorts d !! rr_Hostname row = Some (rr_Port row) ->
        GetRouteForHostname healthy (rr_Hostname row) (redis w') = Ok (Some (published_route rev row)))) /\
    (forall h port, (h, port) ∉ map rr_key (Routes d) ->
       GetRouteForPort healthy h port (redis w') = (None, false, None)) /\
    ListInternalDNS healthy t (redis w') = Ok (if t <? now + dnsStaleWindow p then InternalDNS d else []).
Proof.
  intros Hread Hpos Hwin Hahead d. unfold Rebuild. rewrite Hread. cbv zeta. subst d.
  destruct (SyncRoutes Done (Routes (Derive (to_lower_unicode p) inp)) (pg w)) as [pg' [revisions|e]] eqn:Hsync.
  2: { unfold SyncRoutes in Hsync. by destruct (allocate _ _). }
  assert (forall h, h ∈ map rr_Hostname (Routes (Derive (to_lower_unicode p) inp)) ->
            default 0 (revisions !! h) = default 0 (pg_revisions (pg w) !! h) + 1 /\
            pg_revisions pg' !! h = Some (default 0 (pg_revisions (pg w) !! h) + 1)) as Hrevs.
  { intros h Hh. pose proof (sync_revisions _ _ _ _ _ h Hsync) as (_ & Hin & _).
    destruct (Hin Hh) as [E ->]. by rewrite E. }
  destruct (publishRedis_ok (to_lower_unicode p) inp Hpos revisions (redis w)) as (st1 & Hpub & Hproj).
  { intros h Hh. destruct (Hrevs h Hh) as [-> _]. specialize (Hahead h). lia. }
  unfold publishAll, cmd_bind. cbn [host_io prune_io dns_io]. rewrite Hpub. unfold publishInternalDNS.
  rewrite replace_internal_dns_ok; [|done|apply internal_names_distinct|apply internal_dns_valid].
  eexists. split; [done|]. cbn [pg redis].
  split_and!.
  - intros row Hrow. destruct (Hrevs (rr_Hostname row)) as [Hrev Hpg]; [by apply list_elem_of_fmap_2|].
    split; [done|]. rewrite <- Hrev. by apply projected_found.
  - intros h port. by apply (projected_missing _ inp Hpos revisions).
  - apply list_derived_dns.
Qed.

(** ** A concrete rebuild *)

Module Witness.
Definition machine (id dep : string) (ordinal : Z) (ready : string) : Machine :=
  mkMachine id "web" dep ordinal "web.example" "x1" 8080 "n1" "RUNNING" ready.
Definition services : list ServiceSpec := [mkService "http" 8080 true; mkService "admin" 9090 false].
Definition deployment (id : string) (gen : Z) (status strategy : string) : Deployment :=
  mkDeployment id "web" gen 8080 status services strategy.
Definition rollout (status : string) (canary : Z) : Rollout := mkRollout "web" 1 2 status canary.
Definition machines : list Machine :=
  [machine "m1" "d1" 0 "READY"; machine "m2" "d1" 1 "READY"; machine "m3" "d2" 0 "READY"; machine "m4" "d2" 1 "NOT_READY"].
Definition inp (strategy : string) (canary : Z) : Input :=
  mkInput machines [deployment "d1" 1 "ACTIVE" strategy; deployment "d2" 2 "PENDING" strategy]
    [rollout "PREPARING" canary] {["n1" := "10.0.0.1:5107"]} 8080 ""
    {[identity_key "m3" "x1" := mkIdentity 7 "p1" (Some "fd00::3") "m3" "x1" 4]}.

Lemma inp_well_formed strategy canary : well_formed (inp strategy canary).
Proof.
  split; [apply (bool_decide_unpack _); vm_compute; exact I..|].
  repeat constructor; discriminate.
Qed.

Lemma rollout_generations_witness :
  depGen (inp "rolling" 0) "d2" = 2 <-> depGen (inp "rolling" 0) "d2" = 2.
Proof.
  destruct (rollout_generations (inp "rolling" 0) (machine "m3" "d2" 0 "READY") (rollout "PREPARING" 0))
    as (_ & _ & _ & _ & H).
  - apply inp_well_formed.
  - do 2 right. left.
  - vm_compute. reflexivity.
  - left.
  - reflexivity.
  - apply (H eq_refl eq_refl (machine "m3" "d2" 0 "READY")); [do 2 right; left|vm_compute; reflexivity|done|done].
Defined.

Lemma rolling_keeps_serving_witness :
  exists m', m' ∈ machines /\ publishable (inp "rolling" 0) m' = true /\ m_AppID m' = "web"%string /\ m_ReplicaOrdinal m' = 0.
Proof.
  apply (rolling_keeps_serving (inp "rolling" 0) (machine "m1" "d1" 0 "READY") (rollout "PREPARING" 0)).
  - apply inp_well_formed.
  - left.
  - left.
  - reflexivity.
  - reflexivity.
  - vm_compute. reflexivity.
  - reflexivity.
  - vm_compute. discriminate.
  - vm_compute. reflexivity.
  - vm_compute. discriminate.
  - vm_compute. reflexivity.
  - intros m' Hm' _ _. unfold inp, machines in Hm'. cbn [Machines] in Hm'.
    each_elem Hm'; vm_compute; discriminate.
Defined.

(** A blue-green canary at 99 percent: both old machines share the one percent
    left and get one each, so the generation carries two. *)
Lemma canary_shares_witness :
  publishableByDep (inp "bluegreen" 99) "d1" = ["m1"; "m2"]%string /\
  zsum (map (weightOrDefault (weightByMachine (inp "bluegreen" 99)))
          (publishableByDep (inp "bluegreen" 99) "d1")) = 2.
Proof.
  split; [vm_compute; reflexivity|].
  destruct (canary_shares (inp "bluegreen" 99) (deployment "d1" 1 "ACTIVE" "bluegreen") 1) as [H _].
  - apply inp_well_formed.
  - left.
  - vm_compute. reflexivity.
  - vm_compute. discriminate.
  - etransitivity; [exact H|]. vm_compute. reflexivity.
Defined.

Definition publisher : Publisher := mkPublisher 8080 "" defaultDNSStaleWindow id.
Definition reads : Reads :=
  mkReads (Ok machines) (Ok [rollout "PREPARING" 0])
    (fun _ => Ok [deployment "d1" 1 "ACTIVE" "rolling"; deployment "d2" 2 "PENDING" "rolling"])
    (Ok [mkIdentity 7 "p1" (Some "fd00::3") "m3" "x1" 4]).
Definition world : World := mkWorld (mkPG ∅ {["web.example" := 5]}) empty_redis.

Lemma world_ahead : ahead world.
Proof.
  intros h. unfold route_revision. cbn [redis world empty_redis routerev pg pg_revisions]. rewrite lookup_empty. cbn.
  destruct (decide (h = "web.example"%string)) as [->|Hne]; [vm_compute; discriminate|].
  rewrite lookup_singleton_ne by done. cbn. lia.
Qed.

Lemma rebuild_keeps_ahead_witness :
  ahead (Rebuild publisher reads Done (mkPublishIO (fun _ => healthy) healthy healthy) 0
           {["n1" := "10.0.0.1:5107"]} world).1.
Proof. apply rebuild_keeps_ahead, world_ahead. Defined.

Lemma rebuild_publishes_witness :
  exists w', Rebuild publisher reads Done (mkPublishIO (fun _ => healthy) healthy healthy) 0
               {["n1" := "10.0.0.1:5107"]} world = (w', Ok tt) /\
    GetRouteForPort healthy "web.example" 7070 (redis w') = (None, false, None) /\
    ListInternalDNS healthy 100 (redis w') =
      Ok [mkDNS "web.p1.internal" ["fd00::3"] 4].
Proof.
  destruct (rebuild_publishes publisher reads 0 100 {["n1" := "10.0.0.1:5107"]} world (inp "rolling" 0))
    as (w' & H1 & _ & H2 & H3).
  - vm_compute. reflexivity.
  - intros m s Hm _ Hs. unfold inp, machines in Hm. cbn [Machines] in Hm.
    each_elem Hm; vm_compute in Hs; each_elem Hs; vm_compute; reflexivity.
  - vm_compute. reflexivity.
  - apply world_ahead.
  - exists w'. split; [done|]. split.
    + apply H2. apply (bool_decide_unpack _). vm_compute. exact I.
    + rewrite H3. vm_compute. reflexivity.
Defined.

(** Redis has seen revision 6 of the hostname, the restored tables say 1: the rebuild
    succeeds, and the hostname keeps the routes of revision 6. *)
Definition published_world : World :=
  (Rebuild publisher reads Done (mkPublishIO (fun _ => healthy) healthy healthy) 0
     {["n1" := "10.0.0.1:5107"]} world).1.
Definition restored : World := mkWorld (mkPG ∅ {["web.example" := 1]}) (redis published_world).
Example redis_from_the_future :
  let r := Rebuild publisher reads Done (mkPublishIO (fun _ => healthy) healthy healthy) 0
             {["n1" := "10.0.0.1:5107"]} restored in
  r.2 = Ok tt /\ pg_revisions (pg r.1) !! "web.example" = Some 2 /\
  (GetRouteForPort healthy "web.example" 8080 (redis r.1)).1.1 =
    (GetRouteForPort healthy "web.example" 8080 (redis published_world)).1.1 /\
  is_Some (GetRouteForPort healthy "web.example" 8080 (redis r.1)).1.1.
Proof. vm_compute. split; [reflexivity|]. split; [reflexivity|]. split; [reflexivity|eexists; reflexivity]. Qed.

(** The rolling switch at ordinal 0: the new machine replaces the old one,
    ordinal 1 still serves the old generation. *)
Example rolling_switch :
  map (fun r => (rr_Port r, map rb_MachineID (rr_Backends r))) (Routes (Derive id (inp "rolling" 0))) =
    [(8080, ["m2"; "m3"]); (9090, ["m2"; "m3"])]%string.
Proof. vm_compute. reflexivity. Qed.
End Witness.
