(* ===== verification/Rollouts.v ===== *)
(** * Rollouts (controller/apps.go, rollout.go, rollout_analysis.go,
    rollout_prometheus.go; the statements of store/apps.go)

    A transaction of the store is one atomic transition of [DB]. A controller
    pass decides from what its reads returned, possibly at an earlier time, and
    then sends its statement: the reads are an argument of their own, apart from
    the state the statement finds. At most one rollout of an application is
    active (the partial unique index of the rollouts table), so the active rows
    are a map from the application; COMPLETE rows are in [finished]. *)
From S2P Require Import Prelude GoFloat GoString.
Local Open Scope Z_scope.

(** ** Rows *)

(** The active statuses; COMPLETE is being in [finished]. *)
Inductive rollout_status := PREPARING | PAUSED_FOR_APPROVAL | CUTOVER | ROLLING_BACK.
#[export] Instance rollout_status_dec : EqDecision rollout_status.
Proof. solve_decision. Defined.

Record Rollout := mkRollout {
  r_ID : string; r_AppID : string; FromGeneration : Z; ToGeneration : Z; Status : rollout_status;
  CutoverAt : option Z; DrainDeadline : option Z; StartedAt : Z;
  CanaryWeight : Z; ApprovalRequired : bool; ApprovedBy : string; ApprovedAt : option Z }.

Record Finished := mkFinished { f_rollout : Rollout; Failed : bool; CompletedAt : Z }.

Record Deployment := mkDeployment {
  d_ID : string; d_AppID : string; d_Generation : Z; d_Status : string; d_Strategy : string; d_ImageRef : string }.

Record App := mkApp {
  a_ID : string; a_ProjectID : string; a_Hostname : string; DesiredReplicas : Z; a_Generation : Z; Deleted : bool }.

Record Machine := mkMachine {
  m_ID : string; m_AppID : string; m_DeploymentID : string; ReplicaOrdinal : Z; DesiredState : string;
  CurrentExecutionID : string; m_Generation : Z; ObservedState : string; ObservedReadiness : string }.

Record DB := mkDB {
  active : gmap string Rollout; finished : list Finished;
  deployments : gmap string Deployment; apps : gmap string App }.

Definition with_active (f : gmap string Rollout -> gmap string Rollout) (db : DB) : DB :=
  mkDB (f (active db)) (finished db) (deployments db) (apps db).
Definition with_deployments (f : gmap string Deployment -> gmap string Deployment) (db : DB) : DB :=
  mkDB (active db) (finished db) (f (deployments db)) (apps db).
Definition with_apps (f : gmap string App -> gmap string App) (db : DB) : DB :=
  mkDB (active db) (finished db) (deployments db) (f (apps db)).

Definition set_status (s : rollout_status) (r : Rollout) : Rollout :=
  mkRollout (r_ID r) (r_AppID r) (FromGeneration r) (ToGeneration r) s (CutoverAt r) (DrainDeadline r)
    (StartedAt r) (CanaryWeight r) (ApprovalRequired r) (ApprovedBy r) (ApprovedAt r).
Definition cut_over (now deadline : Z) (r : Rollout) : Rollout :=
  mkRollout (r_ID r) (r_AppID r) (FromGeneration r) (ToGeneration r) CUTOVER (Some now) (Some deadline)
    (StartedAt r) (CanaryWeight r) (ApprovalRequired r) (ApprovedBy r) (ApprovedAt r).
Definition approved (now : Z) (by_ : string) (r : Rollout) : Rollout :=
  mkRollout (r_ID r) (r_AppID r) (FromGeneration r) (ToGeneration r) (Status r) (CutoverAt r) (DrainDeadline r)
    (StartedAt r) (CanaryWeight r) (ApprovalRequired r) by_ (Some now).
Definition set_deployment_status (id status : string) (db : DB) : DB :=
  with_deployments (alter (fun d => mkDeployment (d_ID d) (d_AppID d) (d_Generation d) status (d_Strategy d)
                                      (d_ImageRef d)) id) db.

(** ** Statements (store/apps.go) *)

Definition ErrNoRows : goerr := errors_New "no rows in result set".
Definition ErrNotFound : goerr := errors_New "not found".
Definition ErrRolloutBusy : goerr := errors_New "rollout already in progress".
Definition ErrAppDeleted : goerr := errors_New "app deleted".
Definition unique_violation : goerr := errors_New "23505".

Definition put (r : Rollout) (db : DB) : DB := with_active <[r_AppID r := r]> db.

Definition finish (r : Rollout) (failed : bool) (now : Z) (db : DB) : DB :=
  mkDB (delete (r_AppID r) (active db)) (finished db ++ [mkFinished r failed now]) (deployments db) (apps db).

Definition ActiveRolloutForApp (db : DB) (appID : string) : option Rollout := active db !! appID.

Definition NormalizeCanaryWeight (w : Z) : Z := if w <? 0 then 0 else if 99 <? w then 99 else w.

Definition RolloutToCutover (o : exec_outcome) (now : Z) (appID : string) (deadline : Z) : cmd DB unit :=
  inTx o (fun db =>
    match ActiveRolloutForApp db appID with
    | None => (db, Err ErrNoRows)
    | Some r =>
        match Status r with
        | PREPARING => (put (cut_over now deadline r) db, Ok tt)
        | _ => (db, Ok tt)
        end
    end).

Definition RolloutToPaused (o : exec_outcome) (appID : string) : cmd DB unit :=
  inTx o (fun db =>
    match ActiveRolloutForApp db appID with
    | None => (db, Ok tt)
    | Some r =>
        match Status r with
        | PREPARING => (put (set_status PAUSED_FOR_APPROVAL r) db, Ok tt)
        | _ => (db, Ok tt)
        end
    end).

Definition ApproveRollout (o : exec_outcome) (now : Z) (appID by_ : string) (deadline : Z) : cmd DB bool :=
  let by_ := if String.eqb by_ "" then "unknown"%string else by_ in
  inTx o (fun db =>
    match ActiveRolloutForApp db appID with
    | None => (db, Ok false)
    | Some r =>
        match Status r with
        | PAUSED_FOR_APPROVAL => (put (approved now by_ (cut_over now deadline r)) db, Ok true)
        | _ => (db, Ok false)
        end
    end).

Definition RolloutToRollback (o : exec_outcome) (appID : string) : cmd DB unit :=
  inTx o (fun db =>
    match ActiveRolloutForApp db appID with
    | None => (db, Err ErrNoRows)
    | Some r =>
        match Status r with
        | ROLLING_BACK => (db, Ok tt)
        | _ => (put (set_status ROLLING_BACK r) db, Ok tt)
        end
    end).

Definition CompleteRollout (o : exec_outcome) (now : Z) (appID : string) (failed : bool) : cmd DB unit :=
  inTx o (fun db =>
    match ActiveRolloutForApp db appID with
    | None => (db, Err ErrNoRows)
    | Some r => (finish r failed now db, Ok tt)
    end).

Definition CompleteRolloutWithStatus (o : exec_outcome) (now : Z) (appID : string) (failed : bool)
    (toDepID toStatus fromDepID fromStatus : string) : cmd DB unit :=
  inTx o (fun db =>
    match ActiveRolloutForApp db appID with
    | None => (db, Ok tt)
    | Some r =>
        let db := finish r failed now db in
        let db := if negb (String.eqb toDepID "") && negb (String.eqb toStatus "")
                  then set_deployment_status toDepID toStatus db else db in
        let db := if negb (String.eqb fromDepID "") && negb (String.eqb fromStatus "")
                  then set_deployment_status fromDepID fromStatus db else db in
        (db, Ok tt)
    end).

(** The keys of the rollouts and deployments tables. *)
Definition rollout_id_taken (db : DB) (id : string) : bool :=
  existsb (fun kr : string * Rollout => String.eqb (r_ID kr.2) id) (map_to_list (active db))
  || existsb (fun f => String.eqb (r_ID (f_rollout f)) id) (finished db).
Definition deployment_taken (db : DB) (d : Deployment) : bool :=
  existsb (fun kd : string * Deployment =>
    String.eqb kd.1 (d_ID d)
    || (String.eqb (d_AppID kd.2) (d_AppID d) && (d_Generation kd.2 =? d_Generation d)))
    (map_to_list (deployments db)).

(** The row an INSERT INTO rollouts makes. *)
Definition new_rollout (now : Z) (r : Rollout) : Rollout :=
  mkRollout (r_ID r) (r_AppID r) (FromGeneration r) (ToGeneration r) PREPARING None None now
    (NormalizeCanaryWeight (CanaryWeight r)) (ApprovalRequired r) "" None.

Definition insert_rollout (now : Z) (r : Rollout) (db : DB) : DB * res unit :=
  match ActiveRolloutForApp db (r_AppID r) with
  | Some _ => (db, Err ErrRolloutBusy)
  | None => if rollout_id_taken db (r_ID r) then (db, Err ErrRolloutBusy)
            else (put (new_rollout now r) db, Ok tt)
  end.

Definition CreateRollout (o : exec_outcome) (now : Z) (r : Rollout) : cmd DB unit :=
  inTx o (insert_rollout now r).

Definition set_app_generation (appID : string) (generation : Z) (db : DB) : DB :=
  with_apps (alter (fun a => mkApp (a_ID a) (a_ProjectID a) (a_Hostname a) (DesiredReplicas a) generation
                               (Deleted a)) appID) db.

Definition effectiveStrategyLiteral (strategy : string) : string :=
  if String.eqb strategy "rolling" then "rolling" else "bluegreen".

(** The row an INSERT INTO deployments makes. *)
Definition stored_deployment (d : Deployment) : Deployment :=
  mkDeployment (d_ID d) (d_AppID d) (d_Generation d) (d_Status d) (effectiveStrategyLiteral (d_Strategy d)) (d_ImageRef d).

(** DeployApp, without the audit row an egress policy adds. *)
Definition DeployApp (o : exec_outcome) (now : Z) (d : Deployment) (r : Rollout) (appGeneration : Z) : cmd DB unit :=
  inTx o (fun db =>
    match apps db !! r_AppID r with
    | None => (db, Err ErrNotFound)
    | Some app =>
        if Deleted app then (db, Err ErrNotFound)
        else match ActiveRolloutForApp db (r_AppID r) with
             | Some _ => (db, Err ErrRolloutBusy)
             | None =>
                 if deployment_taken db d then (db, Err (wrap "create deployment: %w" unique_violation))
                 else
                   let db := with_deployments <[d_ID d := stored_deployment d]> db in
                   match insert_rollout now r db with
                   | (_, Err e) => (db, Err e)
                   | (db, Ok _) => (set_app_generation (r_AppID r) appGeneration db, Ok tt)
                   end
             end
    end).

Definition tombstone (a : App) : App := mkApp (a_ID a) (a_ProjectID a) (a_Hostname a) 0 (a_Generation a) true.
Definition supersede (appID : string) (d : Deployment) : Deployment :=
  if String.eqb (d_AppID d) appID && String.eqb (d_Status d) "ACTIVE"
  then mkDeployment (d_ID d) (d_AppID d) (d_Generation d) "SUPERSEDED" (d_Strategy d) (d_ImageRef d) else d.

(** The row of the application, its active rollout and its ACTIVE deployments
    as the deletion leaves them. *)
Definition bury (now : Z) (appID : string) (app : App) (db : DB) : DB :=
  let db := with_apps <[appID := tombstone app]> db in
  let db := match ActiveRolloutForApp db appID with
            | Some r => finish r true now db
            | None => db
            end in
  with_deployments (fmap (supersede appID)) db.

Definition SoftDeleteApp (o : exec_outcome) (now : Z) (appID : string) : cmd DB unit :=
  inTx o (fun db =>
    match apps db !! appID with
    | None => (db, Ok tt)
    | Some app => if Deleted app then (db, Ok tt) else (bury now appID app db, Ok tt)
    end).

Record AppDeleteResult := mkDeleteResult { AlreadyDeleted : bool; Pending : Z }.

(** SoftDeleteAppAndEnqueueDeletes: [scan] is the scan of the machines, [enqueue]
    the insertion of one delete operation in the same transaction. *)
Definition SoftDeleteAppAndEnqueueDeletes (o : exec_outcome) (now : Z) (appID : string)
    (scan : res (list Machine)) (enqueue : Machine -> res unit) : cmd DB AppDeleteResult :=
  inTx o (fun db =>
    match apps db !! appID with
    | None => (db, Err ErrNotFound)
    | Some app =>
        let db := if Deleted app then db else bury now appID app db in
        match scan with
        | Err e => (db, Err e)
        | Ok machines =>
            match check_all (fun _ m => res_map_err (wrap "enqueue delete for %s: %w") (enqueue m)) machines with
            | Err e => (db, Err e)
            | Ok _ => (db, Ok (mkDeleteResult (Deleted app) (Z.of_nat (length machines))))
            end
        end
    end).

Definition SetAppReplicas (o : exec_outcome) (appID : string) (replicas : Z) : cmd DB unit :=
  inTx o (fun db =>
    match apps db !! appID with
    | None => (db, Err ErrNotFound)
    | Some app =>
        if Deleted app then (db, Err ErrAppDeleted)
        else (with_apps <[appID := mkApp (a_ID app) (a_ProjectID app) (a_Hostname app) replicas
                                     (a_Generation app) false]> db, Ok tt)
    end).

(** ** Predicates on machines *)

Definition IsServingReadiness (s : string) : bool := String.eqb s "READY" || String.eqb s "UNCONFIGURED".

Definition machineServing (m : Machine) : bool :=
  if String.eqb (ObservedState m) "RUNNING" || String.eqb (ObservedState m) "PAUSED"
  then IsServingReadiness (ObservedReadiness m) else false.

(** The ordinals 0 .. replicas-1. *)
Definition ordinals (replicas : Z) : list Z := map Z.of_nat (seq 0 (Z.to_nat replicas)).

Definition ready_ordinals (machines : list Machine) : gset Z :=
  list_to_set (map ReplicaOrdinal (filter (fun m => machineServing m = true) machines)).

Definition allReady (machines : list Machine) (replicas : Z) : bool :=
  forallb (fun i => bool_decide (i ∈ ready_ordinals machines)) (ordinals replicas).

Definition servingOrdinals (ms : list Machine) : Z := Z.of_nat (size (ready_ordinals ms)).

Definition rollingBatchSize (replicas : Z) : Z :=
  let b := Z.quot replicas 4 in
  if b <? 1 then 1 else b.

(** ** Who owns a generation (rollout.go) *)

Definition rolloutHoldDecision (status : rollout_status) (depGen fromGen toGen : Z) : bool :=
  match status with
  | PREPARING | PAUSED_FOR_APPROVAL => depGen =? toGen
  | CUTOVER => negb (depGen =? toGen)
  | ROLLING_BACK => negb (depGen =? fromGen)
  end.

Definition rolloutOwnsReplacement (status : rollout_status) (depGen fromGen toGen : Z) : bool :=
  match status with
  | PREPARING | CUTOVER | PAUSED_FOR_APPROVAL => depGen =? toGen
  | ROLLING_BACK => depGen =? fromGen
  end.

(** The reads can fail; an unknown owner suppresses a restart. *)
Definition rolloutHoldsRecreate (active : res (option Rollout)) (dep : res (option Deployment)) (m : Machine) : bool :=
  if String.eqb (m_DeploymentID m) "" then false
  else match active with
       | Err _ => true
       | Ok None => false
       | Ok (Some rl) =>
           match dep with
           | Ok (Some d) => rolloutHoldDecision (Status rl) (d_Generation d) (FromGeneration rl) (ToGeneration rl)
           | _ => true
           end
       end.

Definition rolloutRepairsMachine (active : res (option Rollout)) (dep : res (option Deployment)) : bool :=
  match active, dep with
  | Ok (Some rl), Ok (Some d) =>
      rolloutOwnsReplacement (Status rl) (d_Generation d) (FromGeneration rl) (ToGeneration rl)
  | _, _ => false
  end.

(** ** The cutover analysis *)

Inductive CutoverVerdict := VerdictWait | VerdictProceed | VerdictRollback.

(** AnalysisProvider.AssessCutover; the reason as the format of its message. *)
Definition AnalysisProvider : Type := App -> Rollout -> list Machine -> bool -> Z -> CutoverVerdict * string.

Definition Second : Z := 10 ^ 9.

Record CutoverAnalysisConfig := mkAnalysis { MinServingRatio : float64; ZeroServingGrace : Z }.

Definition fone : float64 := fof_Z 1.
Definition DefaultCutoverAnalysisConfig : CutoverAnalysisConfig := mkAnalysis fone (30 * Second).

Definition normalized (c : CutoverAnalysisConfig) : CutoverAnalysisConfig :=
  let ratio := MinServingRatio c in
  let ratio := if fleb ratio fzero then fone else ratio in
  let ratio := if fgtb ratio fone then fone else ratio in
  mkAnalysis ratio (if ZeroServingGrace c <=? 0 then 30 * Second else ZeroServingGrace c).

Definition cutoverBase (r : Rollout) : Z :=
  match CutoverAt r with
  | Some t => if t =? zero_time then StartedAt r else t
  | None => StartedAt r
  end.

Definition cutoverAnalysisEnd (r : Rollout) (window drainGraceFallback : Z) : Z :=
  if 0 <? window then cutoverBase r + window else drainGraceFallback.

Definition ServingRatioAnalysis (cfg : CutoverAnalysisConfig) : AnalysisProvider :=
  fun app r toMachines atWindowEnd now =>
    let cfg := normalized cfg in
    let desired := DesiredReplicas app in
    if desired <=? 0 then (VerdictProceed, "no desired replicas: nothing to observe"%string)
    else
      let serving := servingOrdinals toMachines in
      if (serving =? 0) && negb (now <? cutoverBase r + ZeroServingGrace cfg) then
        (VerdictRollback, "new generation serves zero traffic past grace; auto-rollback"%string)
      else if negb atWindowEnd then (VerdictWait, "within observation window"%string)
      else if fleb (MinServingRatio cfg) (fdiv (fof_Z serving) (fof_Z desired))
      then (VerdictProceed, "new generation meets serving ratio"%string)
      else (VerdictRollback, "new generation below serving ratio at window end; auto-rollback"%string).

(** The two PromQL questions asked about a generation. *)
Inductive prom_query := ErrorRate (host : string) (generation window : Z) | P99 (host : string) (generation window : Z).

Record PrometheusAnalysisConfig := mkProm {
  Querier : option (prom_query -> res float64); MaxErrorRate : float64; P99LatencySec : float64; Window : Z }.

Definition prom_window (c : PrometheusAnalysisConfig) : Z := if 0 <? Window c then Window c else 300 * Second.

Definition queryFailure (atWindowEnd : bool) : CutoverVerdict * string :=
  if negb atWindowEnd then (VerdictWait, "prometheus %s query failed (waiting): %v"%string)
  else (VerdictRollback, "prometheus %s unavailable at window end; auto-rollback: %v"%string).

Definition PrometheusAnalysis (cfg : PrometheusAnalysisConfig) : AnalysisProvider :=
  fun app r _ atWindowEnd _ =>
    match Querier cfg with
    | None => (VerdictWait, "prometheus analysis disabled"%string)
    | Some query =>
        if negb (fgtb (MaxErrorRate cfg) fzero || fgtb (P99LatencySec cfg) fzero)
        then (VerdictWait, "prometheus analysis disabled"%string)
        else
          let host := a_Hostname app in
          let gen := ToGeneration r in
          if String.eqb host "" || (gen <=? 0)
          then (VerdictWait, "prometheus analysis: missing host/generation"%string)
          else
            let latency :=
              if fgtb (P99LatencySec cfg) fzero then
                match query (P99 host gen (prom_window cfg)) with
                | Err _ => Some (queryFailure atWindowEnd)
                | Ok p99 => if fgtb p99 (P99LatencySec cfg)
                            then Some (VerdictRollback, "to-generation p99 %.2fs exceeds %.2fs; auto-rollback"%string)
                            else None
                end
              else None in
            let errors :=
              if fgtb (MaxErrorRate cfg) fzero then
                match query (ErrorRate host gen (prom_window cfg)) with
                | Err _ => Some (queryFailure atWindowEnd)
                | Ok rate => if fgtb rate (MaxErrorRate cfg)
                             then Some (VerdictRollback, "to-generation error rate %.3f exceeds %.3f; auto-rollback"%string)
                             else latency
                end
              else latency in
            match errors with
            | Some v => v
            | None => if negb atWindowEnd then (VerdictWait, "within observation window"%string)
                      else (VerdictProceed, "to-generation meets error-rate/latency gates"%string)
            end
    end.

(** CompositeAnalysis: the loop over the providers. *)
Fixpoint composite_loop (providers : list AnalysisProvider) (reasons : list string)
    (app : App) (r : Rollout) (ms : list Machine) (atEnd : bool) (now : Z) : CutoverVerdict * string :=
  match providers with
  | [] => match reasons with
          | [] => (VerdictProceed, "all analyses proceed"%string)
          | _ => (VerdictWait, ("waiting: " +:+ join "; " reasons)%string)
          end
  | p :: providers' =>
      match p app r ms atEnd now with
      | (VerdictRollback, reason) => (VerdictRollback, reason)
      | (VerdictWait, reason) => composite_loop providers' (reasons ++ [reason]) app r ms atEnd now
      | (VerdictProceed, _) => composite_loop providers' reasons app r ms atEnd now
      end
  end.
Definition CompositeAnalysis (providers : list AnalysisProvider) : AnalysisProvider :=
  fun app r ms atEnd now => composite_loop providers [] app r ms atEnd now.

(** ** The controller (apps.go) *)

Record Config := mkConfig {
  RolloutTimeout : Z; RolloutDrainGrace : Z; CutoverAnalysisWindow : Z;
  CutoverAnalysis : option AnalysisProvider; CutoverMinServingRatio : float64; CutoverZeroServingGrace : Z;
  PrometheusAddr : string; CutoverMaxErrorRate : float64; CutoverP99LatencySec : float64;
  promquery : prom_query -> res float64 }.

Definition rolloutDefaultTimeout : Z := 300 * Second.
Definition rolloutDefaultDrainGrace : Z := 30 * Second.
Definition rolloutMaxRetries : Z := 3.

Definition rolloutTimeout (c : Config) : Z := if 0 <? RolloutTimeout c then RolloutTimeout c else rolloutDefaultTimeout.
Definition rolloutDrainGrace (c : Config) : Z :=
  if 0 <? RolloutDrainGrace c then RolloutDrainGrace c else rolloutDefaultDrainGrace.

Definition prometheusAnalysis (c : Config) : option PrometheusAnalysisConfig :=
  if String.eqb (PrometheusAddr c) "" ||
     (fleb (CutoverMaxErrorRate c) fzero && fleb (CutoverP99LatencySec c) fzero)
  then None
  else Some (mkProm (Some (promquery c)) (CutoverMaxErrorRate c) (CutoverP99LatencySec c) 0).

Definition cutoverAssessment (c : Config) : AnalysisProvider :=
  match CutoverAnalysis c with
  | Some p => p
  | None =>
      let p := ServingRatioAnalysis (mkAnalysis (CutoverMinServingRatio c) (CutoverZeroServingGrace c)) in
      match prometheusAnalysis c with
      | Some ext => CompositeAnalysis [p; PrometheusAnalysis ext]
      | None => p
      end
  end.

Definition EffectiveStrategy (d : Deployment) : string :=
  if String.eqb (d_Strategy d) "rolling" then "rolling" else "bluegreen".

Definition approvalGateApplies (r : Rollout) (toDep : Deployment) : bool :=
  if ApprovalRequired r then true
  else if NormalizeCanaryWeight (CanaryWeight r) =? 0 then false
  else String.eqb (EffectiveStrategy toDep) "rolling".

Definition deploymentForGeneration (deps : res (list Deployment)) (gen : Z) : res (option Deployment) :=
  match deps with
  | Err e => Err e
  | Ok deps => Ok (List.find (fun d => d_Generation d =? gen) deps)
  end.

(** The last eight bytes of an execution id, all of it when it is shorter;
    [fresh] stands for the uuid taken when there is none. *)
Definition UserDeleteOpID (fresh : string) (machineID executionID : string) : string :=
  let n := String.length executionID in
  let suffix := if Nat.leb 8 n then sdrop (n - 8) executionID
                else if negb (String.eqb executionID "") then executionID else "" in
  let suffix := if String.eqb suffix "" then fresh else suffix in
  ("op-del-" +:+ machineID +:+ "-" +:+ suffix)%string.

(** What a pass hands to other components: an operation enqueued, a scheduling
    event, an event of the tenant, an image prefetch. *)
Inductive output :=
  | EnqueueDelete (opID machineID executionID : string) (generation : Z) (reason : string)
  | EnqueueCreate (opID machineID executionID deploymentID : string) (generation ordinal : Z)
  | RecordEvent (reason : string)
  | UserEvent (status : string)
  | Prefetch (rolloutID ref digest : string).

Definition enqueueUserDelete (fresh : string -> string) (m : Machine) (reason : string) : output :=
  EnqueueDelete (UserDeleteOpID (fresh (m_ID m)) (m_ID m) (CurrentExecutionID m)) (m_ID m)
    (CurrentExecutionID m) (m_Generation m) reason.

(** What the reads of a rollout pass return; the deployments are listed anew
    for the old generation. *)
Record Reads := mkReads {
  read_deployments : res (list Deployment); read_from_deployments : res (list Deployment);
  read_machines : res (list Machine);
  LatestCreateAttempt : string -> res (Z * string); FailedCreateAttempts : string -> res Z;
  fresh_id : string -> string }.

Definition failedCreateAttemptsExhausted (rd : Reads) (machineID : string) : bool :=
  match LatestCreateAttempt rd machineID with
  | Ok (attempts, status) => negb (String.eqb status "SUCCEEDED") && (rolloutMaxRetries <=? attempts)
  | Err _ => false
  end ||
  match FailedCreateAttempts rd machineID with Ok n => rolloutMaxRetries <=? n | Err _ => false end.

(** The digest behind the last @ of an image reference. *)
Definition image_digest (ref : string) : option string :=
  match last_index_byte ref (Ascii.ascii_of_nat 64) with
  | Some i => if Nat.eqb i (String.length ref - 1) then None else Some (sdrop (S i) ref)
  | None => None
  end.

(** The leader remembers which rollouts it prefetched for. *)
Definition maybePrefetchRolloutImage (prefetched : gset string) (r : Rollout) (toDep : Deployment) :
    gset string * list output :=
  if bool_decide (r_ID r ∈ prefetched) then (prefetched, [])
  else ({[r_ID r]} ∪ prefetched,
        match image_digest (d_ImageRef toDep) with
        | Some digest => [Prefetch (r_ID r) (d_ImageRef toDep) digest]
        | None => []
        end).

(** A pass: the leader's memory and the database, what was handed out, the error. *)
Definition pass : Type := (gset string * DB) * list output * res unit.

(** The statement of a transition, and what is recorded when it went through. *)
Definition transition (pre : gset string) (m : cmd DB unit) (db : DB) (before after : list output) : pass :=
  match m db with
  | (db', Ok _) => ((pre, db'), before ++ after, Ok tt)
  | (db', Err e) => ((pre, db'), before, Err e)
  end.

Definition startRollback (o : exec_outcome) (pre : gset string) (r : Rollout) (db : DB) (before : list output) : pass :=
  transition pre (RolloutToRollback o (r_AppID r)) db before
    [RecordEvent "start rollback to previous generation"; UserEvent "rollback_started"].

Definition of_deployment (id : string) (ms : list Machine) : list Machine :=
  filter (fun m => m_DeploymentID m = id) ms.

Definition rollingOldGenerationDeleteAllowed (s : rollout_status) (target : list Machine) (replicas : Z) : bool :=
  match s with CUTOVER => allReady target replicas | _ => false end.

Definition reconcilePreparing (c : Config) (now : Z) (rd : Reads) (o : exec_outcome) (app : App) (r : Rollout)
    (toDep : Deployment) (toMachines : list Machine) (pre : gset string) (db : DB) : pass :=
  if StartedAt r =? zero_time then
    startRollback o pre r db [RecordEvent "preparing timeout (missing started_at), rollback"]
  else if rolloutTimeout c <? now - StartedAt r then
    startRollback o pre r db [RecordEvent "preparing timeout, rollback"]
  else if existsb (fun m => failedCreateAttemptsExhausted rd (m_ID m)) toMachines then
    startRollback o pre r db [RecordEvent "create retries exhausted, rollback"]
  else
    let '(pre, prefetch) := maybePrefetchRolloutImage pre r toDep in
    if allReady toMachines (DesiredReplicas app) then
      if approvalGateApplies r toDep then
        transition pre (RolloutToPaused o (a_ID app)) db prefetch
          [RecordEvent "paused for approval: new generation ready, awaiting promotion"; UserEvent "approval_pending"]
      else
        transition pre (RolloutToCutover o now (a_ID app) (now + rolloutDrainGrace c)) db prefetch
          [RecordEvent "cutover: new generation ready, old draining"; UserEvent "cutover"]
    else ((pre, db), prefetch, Ok tt).

(** When the observation must end: the later of the two deadlines. *)
Definition cutover_decision_at (c : Config) (r : Rollout) (drainDeadline : Z) : Z :=
  let windowEnd := cutoverAnalysisEnd r (CutoverAnalysisWindow c) drainDeadline in
  if drainDeadline <? windowEnd then windowEnd else drainDeadline.

Definition reconcileCutover (c : Config) (now : Z) (rd : Reads) (o : exec_outcome) (app : App) (r : Rollout)
    (toDep : Deployment) (machines toMachines : list Machine) (pre : gset string) (db : DB) : pass :=
  match DrainDeadline r with
  | None => ((pre, db), [], Ok tt)
  | Some drainDeadline =>
      let atEnd := negb (now <? cutover_decision_at c r drainDeadline) in
      let '(verdict, reason) := cutoverAssessment c app r toMachines atEnd now in
      match verdict with
      | VerdictRollback =>
          startRollback o pre r db [RecordEvent ("cutover analysis: " +:+ reason)%string; UserEvent "auto_rollback"]
      | _ =>
          if negb atEnd then ((pre, db), [], Ok tt)
          else if negb (rollingOldGenerationDeleteAllowed (Status r) toMachines (DesiredReplicas app))
          then ((pre, db), [], Ok tt)
          else
            let deletes := map (fun m => enqueueUserDelete (fresh_id rd) m "rollout drain: recycle old generation")
                             (filter (fun m => m_DeploymentID m <> d_ID toDep) machines) in
            let '(fromID, fromStatus) :=
              match deploymentForGeneration (read_from_deployments rd) (FromGeneration r) with
              | Ok (Some fromDep) => (d_ID fromDep, "SUPERSEDED"%string)
              | _ => (""%string, ""%string)
              end in
            transition pre (CompleteRolloutWithStatus o now (a_ID app) false (d_ID toDep) "ACTIVE" fromID fromStatus)
              db deletes [RecordEvent "complete: old generation recycled"; UserEvent "complete"]
      end
  end.

Definition reconcileRollingBack (now : Z) (rd : Reads) (o : exec_outcome) (app : App) (r : Rollout)
    (toDep : Deployment) (machines toMachines : list Machine) (pre : gset string) (db : DB) : pass :=
  match deploymentForGeneration (read_from_deployments rd) (FromGeneration r) with
  | Ok (Some fromDep) =>
      if negb (allReady (of_deployment (d_ID fromDep) machines) (DesiredReplicas app)) then ((pre, db), [], Ok tt)
      else
        let remaining := filter (fun m => DesiredState m <> "DELETED"%string) toMachines in
        let deletes := map (fun m => enqueueUserDelete (fresh_id rd) m "rollback: remove new generation") remaining in
        if Nat.eqb (length remaining) 0 then
          transition pre (CompleteRolloutWithStatus o now (a_ID app) true (d_ID toDep) "FAILED" (d_ID fromDep) "ACTIVE")
            db deletes [RecordEvent "rollback complete; previous generation retained"]
        else ((pre, db), deletes, Ok tt)
  | Ok None => ((pre, db), [], Err (errors_New "rollback source deployment missing: %w"))
  | Err e => ((pre, db), [], Err (wrap "rollback source deployment missing: %w" e))
  end.

Definition reconcileRollout (c : Config) (now : Z) (rd : Reads) (o : exec_outcome) (app : App) (r : Rollout)
    (pre : gset string) (db : DB) : pass :=
  match deploymentForGeneration (read_deployments rd) (ToGeneration r) with
  | Err e => ((pre, db), [], Err (wrap "rollout target deployment missing: %w" e))
  | Ok None => ((pre, db), [], Err (errors_New "rollout target deployment missing: %w"))
  | Ok (Some toDep) =>
      match read_machines rd with
      | Err e => ((pre, db), [], Err e)
      | Ok machines =>
          let toMachines := of_deployment (d_ID toDep) machines in
          match Status r with
          | PREPARING => reconcilePreparing c now rd o app r toDep toMachines pre db
          | PAUSED_FOR_APPROVAL => ((pre, db), [], Ok tt)
          | CUTOVER => reconcileCutover c now rd o app r toDep machines toMachines pre db
          | ROLLING_BACK => reconcileRollingBack now rd o app r toDep machines toMachines pre db
          end
      end
  end.

(** ** Scale (reconcileApp) *)

(** targetDeployment, from its two reads. *)
Definition targetDeployment (active : res (option Rollout)) (deps : res (list Deployment)) : res (option Deployment) :=
  match active with
  | Err e => Err e
  | Ok (Some r) =>
      let gen := match Status r with ROLLING_BACK => FromGeneration r | _ => ToGeneration r end in
      deploymentForGeneration deps gen
  | Ok None =>
      match deps with
      | Err e => Err e
      | Ok deps => Ok (List.find (fun d => String.eqb (d_Status d) "ACTIVE") deps)
      end
  end.

Record ScaleReads := mkScaleReads {
  sr_active : res (option Rollout); sr_deployments : res (list Deployment); sr_machines : res (list Machine);
  sr_rolling : res (option Rollout);
  GetMachine : string -> res (option Machine); new_id : Z -> string;
  create_error : Z -> option goerr; sr_fresh : string -> string }.

Definition machine_id (app : App) (ordinal generation : Z) : string :=
  (a_ID app +:+ "-r" +:+ pretty ordinal +:+ "-g" +:+ pretty generation)%string.

(** The execution a create is for: that of a live row, otherwise a new one. *)
Definition create_execution (sr : ScaleReads) (machineID : string) (ordinal : Z) : string :=
  match GetMachine sr machineID with
  | Ok (Some existing) =>
      if negb (String.eqb (DesiredState existing) "DELETED") && negb (String.eqb (CurrentExecutionID existing) "")
      then CurrentExecutionID existing else ("exec-" +:+ new_id sr ordinal)%string
  | _ => ("exec-" +:+ new_id sr ordinal)%string
  end.

(** enqueueAppMachineCreate up to the specification it carries; [None] is the
    slice bound panic of an execution id under eight bytes. *)
Definition enqueueAppMachineCreate (sr : ScaleReads) (app : App) (dep : Deployment) (ordinal : Z) : option (list output) :=
  let machineID := machine_id app ordinal (d_Generation dep) in
  let executionID := create_execution sr machineID ordinal in
  let n := String.length executionID in
  if Nat.ltb n 8 then None
  else
    let opID := ("op-" +:+ machineID +:+ "-" +:+ sdrop (n - 8) executionID)%string in
    Some (match create_error sr ordinal with
          | Some _ => []
          | None => [EnqueueCreate opID machineID executionID (d_ID dep) (d_Generation dep) ordinal]
          end).

(** The loop over the missing ordinals; a panic ends the pass. *)
Fixpoint create_missing (sr : ScaleReads) (app : App) (target : Deployment) (missing : list Z) : list output * bool :=
  match missing with
  | [] => ([], true)
  | i :: missing' =>
      match enqueueAppMachineCreate sr app target i with
      | None => ([], false)
      | Some out => let '(outs, ok) := create_missing sr app target missing' in (out ++ outs, ok)
      end
  end.

(** The bound a rolling update puts on the ordinals to create, -1 for none. *)
Definition rolling_limit (app : App) (rl : option Rollout) (target : Deployment) (machines : list Machine) : Z :=
  match rl with
  | Some rl =>
      if (bool_decide (Status rl = PREPARING) || bool_decide (Status rl = PAUSED_FOR_APPROVAL))
         && (ToGeneration rl =? d_Generation target) && String.eqb (EffectiveStrategy target) "rolling"
      then servingOrdinals (of_deployment (d_ID target) machines) + rollingBatchSize (DesiredReplicas app)
      else -1
  | None => -1
  end.

Definition missing_ordinals (app : App) (target : Deployment) (machines : list Machine) (rollingLimit : Z) : list Z :=
  let have : gset Z := list_to_set (map ReplicaOrdinal (of_deployment (d_ID target) machines)) in
  filter (fun i => i ∉ have /\ ~ (0 <= rollingLimit /\ rollingLimit <= i)) (ordinals (DesiredReplicas app)).

Definition excess (app : App) (target : Deployment) (machines : list Machine) : list Machine :=
  filter (fun m => m_DeploymentID m = d_ID target /\ DesiredReplicas app <= ReplicaOrdinal m /\
                   DesiredState m <> "DELETED"%string) machines.

(** Outputs, whether the pass ran to its end, the error. *)
Definition reconcileApp (sr : ScaleReads) (app : App) : list output * bool * res unit :=
  if Deleted app then ([], true, Ok tt)
  else
    match targetDeployment (sr_active sr) (sr_deployments sr) with
    | Err e => ([], true, Err e)
    | Ok None => ([], true, Ok tt)
    | Ok (Some target) =>
        match sr_machines sr with
        | Err e => ([], true, Err e)
        | Ok machines =>
            match sr_rolling sr with
            | Err e => ([], true, Err (wrap "get active rollout for rolling scale: %w" e))
            | Ok rl =>
                let rollingLimit := rolling_limit app rl target machines in
                match create_missing sr app target (missing_ordinals app target machines rollingLimit) with
                | (creates, false) => (creates, false, Ok tt)
                | (creates, true) =>
                    (creates ++ map (fun m => enqueueUserDelete (sr_fresh sr) m "scale down")
                                  (excess app target machines), true, Ok tt)
                end
            end
        end
    end.

(** ** The loops over all rollouts and all applications *)

(** What the pass over the rollouts reads for each of them. *)
Record RolloutTick := mkTick { t_app : res (option App); t_reads : Reads; t_outcome : exec_outcome; t_now : Z }.

(** reconcileRollouts over the rows that were listed; an error of one pass is
    only logged, an error reading the application ends the loop. *)
Fixpoint reconcileRollouts (c : Config) (tick : Rollout -> RolloutTick) (rollouts : list Rollout)
    (st : gset string * DB) : (gset string * DB) * list output * res unit :=
  match rollouts with
  | [] => (st, [], Ok tt)
  | r :: rollouts' =>
      match t_app (tick r) with
      | Err e => (st, [], Err e)
      | Ok None => reconcileRollouts c tick rollouts' st
      | Ok (Some app) =>
          let '(st', outs, _) := reconcileRollout c (t_now (tick r)) (t_reads (tick r)) (t_outcome (tick r)) app r
                                   st.1 st.2 in
          let '(st'', outs', e) := reconcileRollouts c tick rollouts' st' in
          (st'', outs ++ outs', e)
      end
  end.

Definition reconcileAppScale (reads : App -> ScaleReads) (apps : res (list App)) : list output * res unit :=
  match apps with
  | Err e => ([], Err e)
  | Ok apps => (flat_map (fun a => (reconcileApp (reads a) a).1.1) apps, Ok tt)
  end.

(** ** The API handlers *)

Inductive http_status := Http (code : Z).

Definition rollbackApp (read : res (option Rollout)) (o : exec_outcome) (appID : string) (db : DB) : DB * http_status :=
  match read with
  | Err _ => (db, Http 500)
  | Ok None => (db, Http 404)
  | Ok (Some rl) =>
      if bool_decide (Status rl = ROLLING_BACK) then (db, Http 409)
      else match RolloutToRollback o appID db with
           | (db', Ok _) => (db', Http 202)
           | (db', Err _) => (db', Http 500)
           end
  end.

Definition approveDrainGrace (drainGrace : Z) : Z := if 0 <? drainGrace then drainGrace else 30 * Second.

(** approveRollout; [read] is GetRollout by its id: [Ok (Some None)] is a row
    that is COMPLETE by now. *)
Definition approveRollout (read : res (option (option Rollout))) (o : exec_outcome) (now drainGrace : Z) (caller : string)
    (db : DB) : DB * http_status :=
  match read with
  | Err _ => (db, Http 500)
  | Ok None => (db, Http 404)
  | Ok (Some None) => (db, Http 409)
  | Ok (Some (Some rl)) =>
      if negb (bool_decide (Status rl = PAUSED_FOR_APPROVAL)) then (db, Http 409)
      else
        let by_ := if String.eqb caller "" then "unknown"%string else caller in
        match ApproveRollout o now (r_AppID rl) by_ (now + approveDrainGrace drainGrace) db with
        | (db', Err _) => (db', Http 500)
        | (db', Ok false) => (db', Http 409)
        | (db', Ok true) => (db', Http 202)
        end
  end.

Definition ErrRequestConflict : goerr := errors_New "operation idempotency key reused with a different request".
Definition deleteApp (scan : res (list Machine)) (enqueue : Machine -> res unit)
    (o : exec_outcome) (now : Z) (appID : string) (db : DB) : DB * http_status :=
  match SoftDeleteAppAndEnqueueDeletes o now appID scan enqueue db with
  | (db', Ok _) => (db', Http 202)
  | (db', Err e) => (db', if errors_Is e ErrNotFound then Http 404 else if errors_Is e ErrRequestConflict then Http 409 else Http 500)
  end.

(** ** The controller and the API over one database

    The loop lists the active rollouts, then handles the rows one after the
    other; the API runs in between. [listed] are the rows still to be handled. *)
Record Sys := mkSys { db : DB; listed : gmap string Rollout }.

(** The deployments a pass reads are rows of the table, up to their status. *)
Definition same_deployment (d d' : Deployment) : Prop :=
  d_ID d = d_ID d' /\ d_AppID d = d_AppID d' /\ d_Generation d = d_Generation d' /\ d_Strategy d = d_Strategy d'.
Definition reads_deployments (db : DB) (appID : string) (rd : Reads) : Prop :=
  forall l, read_deployments rd = Ok l ->
  Forall (fun d => d_AppID d = appID /\ exists d', deployments db !! d_ID d = Some d' /\ same_deployment d d') l.

Definition pass_db (p : pass) : DB := p.1.1.2.

Inductive step : Sys -> Sys -> Prop :=
  | s_list st : step st (mkSys (db st) (active (db st)))
  | s_skip st a : step st (mkSys (db st) (delete a (listed st)))
  | s_tick st r c now rd o app pre :
      listed st !! a_ID app = Some r -> reads_deployments (db st) (a_ID app) rd ->
      step st (mkSys (pass_db (reconcileRollout c now rd o app r pre (db st))) (delete (a_ID app) (listed st)))
  | s_deploy st o now d r gen :
      d_AppID d = r_AppID r -> d_Generation d = ToGeneration r ->
      step st (mkSys (DeployApp o now d r gen (db st)).1 (listed st))
  | s_approve st read o now grace caller :
      step st (mkSys (approveRollout read o now grace caller (db st)).1 (listed st))
  | s_rollback st read o appID :
      step st (mkSys (rollbackApp read o appID (db st)).1 (listed st))
  | s_delete st scan enqueue o now appID :
      step st (mkSys (deleteApp scan enqueue o now appID (db st)).1 (listed st))
  | s_scale st o appID n :
      step st (mkSys (SetAppReplicas o appID n (db st)).1 (listed st)).

Inductive reachable (init : DB) : Sys -> Prop :=
  | reach_init : reachable init (mkSys init ∅)
  | reach_step st st' : reachable init st -> step st st' -> reachable init st'.

(** A database before its first deployment. *)
Definition fresh_db (d : DB) : Prop := active d = ∅ /\ finished d = [] /\ deployments d = ∅.

(** What makes an approval necessary: the flag, or a canary of a rolling deployment. *)
Definition gated (d : DB) (r : Rollout) : Prop :=
  ApprovalRequired r = true \/
  (NormalizeCanaryWeight (CanaryWeight r) <> 0 /\
   exists dep, deployments d !! d_ID dep = Some dep /\ d_AppID dep = r_AppID r /\
     d_Generation dep = ToGeneration r /\ EffectiveStrategy dep = "rolling"%string).

(** ** Effects of a pass *)

(** What a pass does to the database, by the status of the row it read. *)
Inductive effect (c : Config) (rd : Reads) (r : Rollout) (app : App) (d : DB) : DB -> Prop :=
  | eff_none : effect c rd r app d d
  | eff_rollback o : Status r = PREPARING \/ Status r = CUTOVER ->
      effect c rd r app d (RolloutToRollback o (r_AppID r) d).1
  | eff_paused o : Status r = PREPARING -> effect c rd r app d (RolloutToPaused o (a_ID app) d).1
  | eff_cutover o now toDep deadline : Status r = PREPARING ->
      deploymentForGeneration (read_deployments rd) (ToGeneration r) = Ok (Some toDep) ->
      approvalGateApplies r toDep = false ->
      effect c rd r app d (RolloutToCutover o now (a_ID app) deadline d).1
  | eff_complete o now t ts f fs : Status r = CUTOVER ->
      effect c rd r app d (CompleteRolloutWithStatus o now (a_ID app) false t ts f fs d).1
  | eff_failed o now t ts f fs : Status r = ROLLING_BACK ->
      effect c rd r app d (CompleteRolloutWithStatus o now (a_ID app) true t ts f fs d).1.

Lemma transition_db pre (m : cmd DB unit) d before after : pass_db (transition pre m d before after) = (m d).1.
Proof. unfold transition. by destruct (m d) as [? []]. Qed.

Lemma pass_effect c now rd o app r pre d :
  effect c rd r app d (pass_db (reconcileRollout c now rd o app r pre d)).
Proof.
  unfold reconcileRollout.
  destruct (deploymentForGeneration (read_deployments rd) (ToGeneration r)) as [[toDep|]|e] eqn:Hdep;
    [|constructor|constructor].
  destruct (read_machines rd) as [machines|]; [|constructor].
  destruct (Status r) eqn:Hs; [| constructor | |].
  - unfold reconcilePreparing, startRollback. destruct (maybePrefetchRolloutImage _ _ _).
    repeat (match goal with |- context [if ?b then _ else _] => destruct b eqn:? end);
      rewrite ?transition_db; try constructor; auto.
    eapply eff_cutover; eauto.
  - unfold reconcileCutover, startRollback. destruct (DrainDeadline r); [|constructor].
    destruct (cutoverAssessment _ _ _ _ _ _) as [[] reason]; rewrite ?transition_db; try (constructor; auto);
    repeat (match goal with |- context [if ?b then _ else _] => destruct b eqn:? end); try constructor;
      destruct (deploymentForGeneration (read_from_deployments rd) _) as [[]|]; rewrite transition_db;
      by constructor.
  - unfold reconcileRollingBack.
    destruct (deploymentForGeneration (read_from_deployments rd) _) as [[]|]; try constructor.
    repeat (match goal with |- context [if ?b then _ else _] => destruct b eqn:? end); rewrite ?transition_db;
      try constructor; auto.
Qed.

(** ** What the statements do to the tables *)

(** The transitions of a row. *)
Inductive edge (r : Rollout) : Rollout -> Prop :=
  | edge_pause : Status r = PREPARING -> edge r (set_status PAUSED_FOR_APPROVAL r)
  | edge_cutover now deadline : Status r = PREPARING -> edge r (cut_over now deadline r)
  | edge_approve now by_ deadline : Status r = PAUSED_FOR_APPROVAL -> by_ <> ""%string ->
      edge r (approved now by_ (cut_over now deadline r))
  | edge_rollback : Status r <> ROLLING_BACK -> edge r (set_status ROLLING_BACK r).

(** Deployments only change their status, a deleted application stays deleted. *)
Definition deps_same (m m' : gmap string Deployment) : Prop := forall k, option_Forall2 same_deployment (m !! k) (m' !! k).
Definition apps_later (m m' : gmap string App) : Prop :=
  forall k a, m !! k = Some a -> exists a', m' !! k = Some a' /\ (Deleted a = true -> Deleted a' = true).

(** The changes of the tables; [cut] and [success] are what is known of a row
    that goes from PREPARING to CUTOVER, and of one that succeeds; [ends] are the
    applications whose rollout may end while they stay. *)
Inductive change (cut success : Rollout -> Prop) (ends : string -> Prop) (d : DB) : DB -> Prop :=
  | ch_edge a r r' : active d !! a = Some r -> edge r r' ->
      (Status r = PREPARING -> Status r' = CUTOVER -> cut r) ->
      change cut success ends d (mkDB (<[a := r']> (active d)) (finished d) (deployments d) (apps d))
  | ch_finish a r failed now ds asl : active d !! a = Some r -> (failed = false -> success r) ->
      deps_same (deployments d) ds -> apps_later (apps d) asl ->
      (ends a \/ exists app, asl !! a = Some app /\ Deleted app = true) ->
      change cut success ends d (mkDB (delete a (active d)) (finished d ++ [mkFinished r failed now]) ds asl)
  | ch_deploy now dep r app asl : active d !! r_AppID r = None -> apps d !! r_AppID r = Some app ->
      Deleted app = false -> deployment_taken d dep = false -> rollout_id_taken d (r_ID r) = false ->
      d_AppID dep = r_AppID r -> d_Generation dep = ToGeneration r -> apps_later (apps d) asl ->
      change cut success ends d (mkDB (<[r_AppID r := new_rollout now r]> (active d)) (finished d)
                              (<[d_ID dep := dep]> (deployments d)) asl)
  | ch_rest ds asl : deps_same (deployments d) ds -> apps_later (apps d) asl ->
      change cut success ends d (mkDB (active d) (finished d) ds asl).

#[export] Instance same_deployment_refl : Reflexive same_deployment.
Proof. done. Qed.
#[export] Instance same_deployment_trans : Transitive same_deployment.
Proof. unfold same_deployment. intros x y z. intuition congruence. Qed.
#[export] Instance same_deployment_sym : Symmetric same_deployment.
Proof. unfold same_deployment. intros x y. intuition congruence. Qed.
#[export] Instance deps_same_refl : Reflexive deps_same.
Proof. intros m k. reflexivity. Qed.
#[export] Instance deps_same_trans : Transitive deps_same.
Proof. intros m1 m2 m3 H1 H2 k. etransitivity; [apply H1|apply H2]. Qed.
#[export] Instance apps_later_refl : Reflexive apps_later.
Proof. intros m k a Ha. eauto. Qed.
#[export] Instance apps_later_trans : Transitive apps_later.
Proof.
  intros m1 m2 m3 H1 H2 k a Ha. destruct (H1 k a Ha) as (a' & Ha' & ?).
  destruct (H2 k a' Ha') as (a'' & ? & ?). eauto.
Qed.

Lemma deps_same_alter f id m : (forall d, same_deployment d (f d)) -> deps_same m (alter f id m).
Proof.
  intros Hf k. destruct (decide (k = id)) as [->|Hk].
  - rewrite lookup_alter_eq. destruct (m !! id); constructor. apply Hf.
  - by rewrite lookup_alter_ne.
Qed.

Lemma deps_same_fmap f m : (forall d, same_deployment d (f d)) -> deps_same m (f <$> m).
Proof. intros Hf k. rewrite lookup_fmap. destruct (m !! k); constructor. apply Hf. Qed.

Lemma deps_same_set id status d : deps_same (deployments d) (deployments (set_deployment_status id status d)).
Proof. by apply deps_same_alter. Qed.

Lemma apps_later_insert m k a a' :
  m !! k = Some a -> (Deleted a = true -> Deleted a' = true) -> apps_later m (<[k := a']> m).
Proof.
  intros Ha Hd k' b Hb. destruct (decide (k' = k)) as [->|Hk].
  - rewrite Ha in Hb. simplify_eq. exists a'. by rewrite lookup_insert_eq.
  - exists b. by rewrite lookup_insert_ne.
Qed.

Lemma supersede_same appID d : same_deployment d (supersede appID d).
Proof. unfold supersede. by destruct (_ && _). Qed.

#[export] Hint Resolve deps_same_set supersede_same : firepaas.

Lemma change_refl cut success ends d : change cut success ends d d.
Proof. destruct d. by apply (ch_rest _ _ _ (mkDB _ _ _ _)). Qed.

Section changes.
Context (cut success : Rollout -> Prop) (ends : string -> Prop) (d : DB).
Abbreviation changed m := (change cut success ends d (m d).1) (only parsing).

Lemma inTx_change {A} o (body : DB -> DB * res A) :
  (forall a d', body d = (d', Ok a) -> change cut success ends d d') -> changed (inTx o body).
Proof. intros H. destruct (inTx_cases o body d) as [-> | (a & d' & Hb & ->)]; [apply change_refl|eauto]. Qed.

Context (keyed : forall k r, active d !! k = Some r -> r_AppID r = k).

Lemma put_edge a r r' : active d !! a = Some r -> edge r r' ->
  (Status r = PREPARING -> Status r' = CUTOVER -> cut r) -> change cut success ends d (put r' d).
Proof.
  intros Hr He Hc. assert (r_AppID r' = a) as Happ by (rewrite <- (keyed _ _ Hr); by destruct He).
  unfold put. rewrite Happ. by eapply ch_edge.
Qed.

Lemma RolloutToPaused_change o a : changed (RolloutToPaused o a).
Proof.
  apply inTx_change. unfold ActiveRolloutForApp. intros [] d'. destruct (active d !! a) as [r|] eqn:Hr.
  - destruct (Status r) eqn:Hs; intros ?; simplify_eq; try apply change_refl.
    eapply put_edge; [done|by constructor|done].
  - intros ?; simplify_eq. apply change_refl.
Qed.

Lemma RolloutToRollback_change o a : changed (RolloutToRollback o a).
Proof.
  apply inTx_change. unfold ActiveRolloutForApp. intros [] d'. destruct (active d !! a) as [r|] eqn:Hr; [|done].
  destruct (Status r) eqn:Hs; intros ?; simplify_eq; try apply change_refl;
    (eapply put_edge; [done|constructor; by rewrite Hs|done]).
Qed.

Lemma RolloutToCutover_change o now a deadline :
  (forall r, active d !! a = Some r -> Status r = PREPARING -> cut r) -> changed (RolloutToCutover o now a deadline).
Proof.
  intros Hc. apply inTx_change. unfold ActiveRolloutForApp. intros [] d'.
  destruct (active d !! a) as [r|] eqn:Hr; [|done].
  destruct (Status r) eqn:Hs; intros ?; simplify_eq; try apply change_refl.
  eapply put_edge; [done|by constructor|eauto].
Qed.

Lemma ApproveRollout_change o now a by_ deadline : changed (ApproveRollout o now a by_ deadline).
Proof.
  unfold ApproveRollout. set (b := if String.eqb by_ "" then _ else _).
  assert (b <> ""%string) as Hb by (subst b; destruct (String.eqb_spec by_ ""); done).
  apply inTx_change. unfold ActiveRolloutForApp. intros ok d'. destruct (active d !! a) as [r|] eqn:Hr.
  - destruct (Status r) eqn:Hs; intros ?; simplify_eq; try apply change_refl.
    eapply put_edge; [done|by constructor|congruence].
  - intros ?; simplify_eq. apply change_refl.
Qed.

Lemma CompleteRolloutWithStatus_change o now a failed t ts f fs :
  ends a -> (failed = false -> forall r, active d !! a = Some r -> success r) ->
  changed (CompleteRolloutWithStatus o now a failed t ts f fs).
Proof.
  intros Hends Hsucc. apply inTx_change. unfold ActiveRolloutForApp. intros [] d'.
  destruct (active d !! a) as [r|] eqn:Hr; intros ?; simplify_eq; [|apply change_refl].
  pose proof (keyed _ _ Hr) as Hk.
  repeat case_match; unfold set_deployment_status, with_deployments, finish; cbn; rewrite Hk;
    (eapply ch_finish; [done|eauto| |reflexivity|by left]);
    repeat (etransitivity; [|by apply deps_same_alter]); reflexivity.
Qed.

Lemma bury_change now a app : apps d !! a = Some app -> change cut success ends d (bury now a app d).
Proof.
  intros Ha. unfold bury, ActiveRolloutForApp. cbn.
  assert (apps_later (apps d) (<[a := tombstone app]> (apps d))) by by eapply apps_later_insert.
  assert (deps_same (deployments d) (supersede a <$> deployments d)) by (apply deps_same_fmap; auto with firepaas).
  destruct (active d !! a) as [r|] eqn:Hr.
  - unfold finish, with_deployments; cbn. rewrite (keyed _ _ Hr). eapply ch_finish; try done.
    right. exists (tombstone app). by rewrite lookup_insert_eq.
  - unfold with_deployments; cbn. by eapply ch_rest.
Qed.

Lemma deleteApp_change scan enqueue o now a : changed (deleteApp scan enqueue o now a).
Proof.
  assert (changed (SoftDeleteAppAndEnqueueDeletes o now a scan enqueue)) as H.
  { apply inTx_change. intros res d'. destruct (apps d !! a) as [app|] eqn:Ha; [|done].
    destruct scan as [ms|]; [|done]. destruct (check_all _ _); [|done]. intros [= <- _].
    destruct (Deleted app); [apply change_refl|by apply bury_change]. }
  unfold deleteApp. by destruct (SoftDeleteAppAndEnqueueDeletes _ _ _ _ _ _) as [? []].
Qed.

Lemma SetAppReplicas_change o a n : changed (SetAppReplicas o a n).
Proof.
  apply inTx_change. intros [] d'. destruct (apps d !! a) as [app|] eqn:Ha; [|done].
  destruct (Deleted app) eqn:Hd; [done|]. intros [= <-]. eapply ch_rest; [reflexivity|].
  eapply apps_later_insert; [done|congruence].
Qed.

Lemma apps_later_generation a gen d0 : apps_later (apps d0) (apps (set_app_generation a gen d0)).
Proof.
  unfold set_app_generation. cbn. intros k app Hk. destruct (decide (k = a)) as [->|Hne].
  - rewrite lookup_alter_eq, Hk. cbn. eexists; split; [done|done].
  - rewrite lookup_alter_ne by done. eauto.
Qed.

Lemma DeployApp_change o now dep r gen :
  d_AppID dep = r_AppID r -> d_Generation dep = ToGeneration r -> changed (DeployApp o now dep r gen).
Proof.
  intros Happ Hgen. apply inTx_change. unfold ActiveRolloutForApp. intros [] d'.
  destruct (apps d !! r_AppID r) as [app|] eqn:Ha; [|done].
  destruct (Deleted app) eqn:Hd; [done|]. destruct (active d !! r_AppID r) eqn:Hr; [done|].
  destruct (deployment_taken d dep) eqn:Ht; [done|].
  unfold insert_rollout, ActiveRolloutForApp, rollout_id_taken. cbn. rewrite Hr.
  destruct (_ || _) eqn:Hid; [done|]. intros [= <-].
  unfold put, with_active, with_deployments, set_app_generation, with_apps. cbn.
  eapply (ch_deploy _ _ _ _ now (stored_deployment dep)); try done. apply (apps_later_generation _ _ d).
Qed.

Lemma rollbackApp_change read o a : changed (rollbackApp read o a).
Proof.
  unfold rollbackApp. destruct read as [[rl|]|]; try apply change_refl.
  destruct (bool_decide _); [apply change_refl|]. pose proof (RolloutToRollback_change o a) as H.
  by destruct (RolloutToRollback o a d) as [? []].
Qed.

Lemma approveRollout_change read o now grace caller : changed (approveRollout read o now grace caller).
Proof.
  unfold approveRollout. destruct read as [[[rl|]|]|]; try apply change_refl.
  destruct (negb _); [apply change_refl|].
  match goal with |- context [ApproveRollout ?o ?n ?a ?b ?dl d] => pose proof (ApproveRollout_change o n a b dl) as H end.
  by destruct (ApproveRollout _ _ _ _ _ d) as [? [[]|]].
Qed.

(** A pass over a row read before. *)
Lemma pass_change c now rd o app r pre :
  ends (a_ID app) ->
  (forall toDep r', Status r = PREPARING ->
     deploymentForGeneration (read_deployments rd) (ToGeneration r) = Ok (Some toDep) ->
     approvalGateApplies r toDep = false -> active d !! a_ID app = Some r' -> Status r' = PREPARING -> cut r') ->
  (forall r', Status r = CUTOVER -> active d !! a_ID app = Some r' -> success r') ->
  change cut success ends d (pass_db (reconcileRollout c now rd o app r pre d)).
Proof.
  intros Hends Hc Hs. destruct (pass_effect c now rd o app r pre d).
  - apply change_refl.
  - apply RolloutToRollback_change.
  - apply RolloutToPaused_change.
  - apply RolloutToCutover_change. eauto.
  - apply CompleteRolloutWithStatus_change; eauto.
  - by apply CompleteRolloutWithStatus_change.
Qed.
End changes.

(** ** The invariant of the system *)

Definition same_rollout (r r' : Rollout) : Prop :=
  r_ID r = r_ID r' /\ r_AppID r = r_AppID r' /\ FromGeneration r = FromGeneration r' /\
  ToGeneration r = ToGeneration r' /\ CanaryWeight r = CanaryWeight r' /\ ApprovalRequired r = ApprovalRequired r'.

(** How far a row is; a row only moves on. *)
Definition stage (s : rollout_status) : nat :=
  match s with PREPARING => 0 | PAUSED_FOR_APPROVAL => 1 | CUTOVER => 2 | ROLLING_BACK => 3 end.

Definition has_target (d : DB) (r : Rollout) : Prop :=
  exists dep, deployments d !! d_ID dep = Some dep /\ d_AppID dep = r_AppID r /\ d_Generation dep = ToGeneration r.

(** A gated row beyond the gate carries who let it pass. *)
Definition gate_kept (d : DB) (r : Rollout) : Prop := gated d r -> Status r = CUTOVER -> ApprovedBy r <> ""%string.

(** A later version of a row that was read. *)
Definition later_row (r r' : Rollout) : Prop :=
  same_rollout r r' /\ (stage (Status r) <= stage (Status r'))%nat /\
  ((2 <= stage (Status r))%nat -> ApprovedBy r' = ApprovedBy r).

Record tables_ok (d : DB) : Prop := {
  ok_keys : forall k r, active d !! k = Some r -> r_AppID r = k;
  ok_deps : forall k dep, deployments d !! k = Some dep -> d_ID dep = k;
  ok_unique : forall dep dep', deployments d !! d_ID dep = Some dep -> deployments d !! d_ID dep' = Some dep' ->
      d_AppID dep = d_AppID dep' -> d_Generation dep = d_Generation dep' -> dep = dep' }.

Record inv (st : Sys) : Prop := {
  inv_tables : tables_ok (db st);
  inv_active : forall k r, active (db st) !! k = Some r -> has_target (db st) r /\ gate_kept (db st) r;
  inv_finished : forall f, f ∈ finished (db st) -> has_target (db st) (f_rollout f) /\
      (Failed f = false -> gated (db st) (f_rollout f) -> ApprovedBy (f_rollout f) <> ""%string);
  inv_listed : forall k r, listed st !! k = Some r -> r_AppID r = k /\ has_target (db st) r /\ gate_kept (db st) r /\
      match active (db st) !! k with
      | Some r' => later_row r r'
      | None => exists a, apps (db st) !! k = Some a /\ Deleted a = true
      end }.

#[export] Instance later_row_refl : Reflexive later_row.
Proof. done. Qed.
#[export] Instance later_row_trans : Transitive later_row.
Proof.
  unfold later_row, same_rollout. intros r1 r2 r3 (? & ? & H1) (? & ? & H2).
  split_and!; try (intuition congruence); [lia|]. intros Hs. rewrite H2, H1 by lia. done.
Qed.

Lemma edge_later r r' : edge r r' -> later_row r r'.
Proof.
  intros [H | ? ? H | ? ? ? H ? | H]; unfold later_row, same_rollout; cbn; try rewrite H; cbn;
    (split_and!; [done..| |intros; first [done|lia]]); first [lia|by destruct (Status r); cbn; lia].
Qed.

Lemma same_rollout_refl r : same_rollout r r.
Proof. done. Qed.

Definition deps_ext (m m' : gmap string Deployment) : Prop :=
  forall k dep, m !! k = Some dep -> exists dep', m' !! k = Some dep' /\ same_deployment dep dep'.

Lemma deps_same_ext m m' : deps_same m m' -> deps_ext m m'.
Proof. intros H k dep Hk. specialize (H k). rewrite Hk in H. inversion H. eauto. Qed.

Lemma has_target_ext d d' r r' :
  tables_ok d -> deps_ext (deployments d) (deployments d') -> same_rollout r r' -> has_target d r -> has_target d' r'.
Proof.
  intros Hok Hext Hsame (dep & Hdep & Happ & Hgen). destruct (Hext _ _ Hdep) as (dep' & Hdep' & Hst).
  destruct Hsame as (_ & Ha & _ & Ht & _), Hst as (Hid & Ha' & Hg' & _).
  exists dep'. rewrite <- Hid. split_and!; congruence.
Qed.

(** The gate of a row is decided when it is created. *)
Lemma gated_back d d' r r' :
  tables_ok d' -> deps_ext (deployments d) (deployments d') -> same_rollout r r' -> has_target d r ->
  gated d' r' -> gated d r.
Proof.
  intros Hok Hext (_ & Ha & _ & Ht & Hw & Hreq) (dep0 & Hdep0 & Ha0 & Hg0).
  intros [Hr|(Hw' & dep & Hdep & Hda & Hdg & Hst)]; [left; congruence|]. right. split; [congruence|].
  destruct (Hext _ _ Hdep0) as (dep0' & Hdep0' & Hid & Ha' & Hg' & Hs').
  assert (dep = dep0') as -> by (apply (ok_unique d' Hok); congruence).
  exists dep0. split_and!; try done. unfold EffectiveStrategy in *. by rewrite Hs'.
Qed.

Lemma deployment_taken_false d dep :
  deployment_taken d dep = false ->
  deployments d !! d_ID dep = None /\
  forall k dep', deployments d !! k = Some dep' -> d_AppID dep' = d_AppID dep -> d_Generation dep' <> d_Generation dep.
Proof.
  unfold deployment_taken. intros H.
  assert (forall k dep', deployments d !! k = Some dep' ->
    (String.eqb k (d_ID dep) || (String.eqb (d_AppID dep') (d_AppID dep) && (d_Generation dep' =? d_Generation dep))) = false)
    as Hall.
  { intros k dep' Hk. apply elem_of_map_to_list, list_elem_of_In in Hk.
    destruct (_ || _) eqn:Ht; [|done]. rewrite <- not_true_iff_false in H. exfalso. apply H.
    apply existsb_exists. by exists (k, dep'). }
  split.
  - destruct (deployments d !! d_ID dep) as [dep'|] eqn:Hd; [|done]. apply Hall in Hd. by rewrite String.eqb_refl in Hd.
  - intros k dep' Hk Ha Hg. apply Hall in Hk. by rewrite Ha, Hg, String.eqb_refl, Z.eqb_refl, orb_true_r in Hk.
Qed.

Section preserved.
Context (cut success : Rollout -> Prop) (ends : string -> Prop) (d d' : DB).
Context (Hok : tables_ok d) (Hch : change cut success ends d d').

Lemma change_ext : deps_ext (deployments d) (deployments d').
Proof.
  destruct Hch as [a r r' Ha He Hc|a r failed now ds asl Ha Hs Hds|now dep r app asl Ha Happ Hd Ht|ds asl Hds]; cbn;
    [by intros k dep Hk; exists dep|by apply deps_same_ext| |by apply deps_same_ext].
  destruct (deployment_taken_false _ _ Ht) as [Hnone _].
  intros k dep0 Hk. exists dep0. rewrite lookup_insert_ne; [done|congruence].
Qed.

Lemma deps_same_tables ds ac fi asl :
  deps_same (deployments d) ds -> (forall k r, ac !! k = Some r -> r_AppID r = k) -> tables_ok (mkDB ac fi ds asl).
Proof.
  intros Hds Hac. assert (forall k dep, ds !! k = Some dep ->
    exists dep0, deployments d !! k = Some dep0 /\ same_deployment dep0 dep) as Hback.
  { intros k dep Hk. specialize (Hds k). rewrite Hk in Hds. inversion Hds. eauto. }
  split; cbn; [done| |].
  - intros k dep Hk. destruct (Hback _ _ Hk) as (dep0 & Hk0 & Hid & _). rewrite <- Hid. by eapply ok_deps.
  - intros dep dep' Hk Hk' Ha Hg.
    destruct (Hback _ _ Hk) as (e & He & Hie & Hae & Hge & _), (Hback _ _ Hk') as (e' & He' & Hie' & Hae' & Hge' & _).
    rewrite <- Hie in He, Hk. rewrite <- Hie' in He', Hk'.
    assert (e = e') as <- by (eapply ok_unique; eauto; congruence). congruence.
Qed.

Lemma change_tables : tables_ok d'.
Proof.
  pose proof Hok as [Hk Hdk Hu].
  destruct Hch as [a r r' Ha He Hc|a r failed now ds asl Ha Hs Hds|now dep r app asl Ha Happ Hd Ht Hid Hda Hdg|ds asl Hds].
  - split; cbn; [|done|done]. intros k r0 Hk0. apply lookup_insert_Some in Hk0 as [[<- <-]|[Hne Hk0]]; [|by apply Hk].
    rewrite <- (Hk _ _ Ha). by destruct He.
  - apply deps_same_tables; [done|]. intros k r0 Hk0. apply lookup_delete_Some in Hk0 as [_ Hk0]. by apply Hk.
  - destruct (deployment_taken_false _ _ Ht) as [Hnone Hgen]. split; cbn.
    + intros k r0 Hk0. apply lookup_insert_Some in Hk0 as [[<- <-]|[Hne Hk0]]; [done|by apply Hk].
    + intros k e He. apply lookup_insert_Some in He as [[<- <-]|[Hne He]]; [done|by apply Hdk].
    + intros e e' He He' Hae Hge.
      apply lookup_insert_Some in He as [[_ <-]|[_ He]]; apply lookup_insert_Some in He' as [[_ <-]|[_ He']];
        [done| | |by apply Hu].
      * by destruct (Hgen _ _ He').
      * by destruct (Hgen _ _ He).
  - by apply deps_same_tables.
Qed.

(** A property of rows that lasts while a row moves on. *)
Lemma change_target r : has_target d r -> has_target d' r.
Proof. intros H. eapply has_target_ext; [done|apply change_ext|apply same_rollout_refl|done]. Qed.
Lemma change_gated r r' : same_rollout r r' -> has_target d r -> gated d' r' -> gated d r.
Proof. intros Hs H. eapply gated_back; [apply change_tables|apply change_ext|done|done]. Qed.
Lemma change_gate_kept r : has_target d r -> gate_kept d r -> gate_kept d' r.
Proof. intros Ht Hg Hg' Hs. apply Hg; [|done]. by eapply change_gated; [apply same_rollout_refl| |]. Qed.

Context (Hcut : forall k r, active d !! k = Some r -> cut r -> Status r = PREPARING -> ~ gated d r).
Context (Hsucc : forall k r, active d !! k = Some r -> success r -> gated d r -> ApprovedBy r <> ""%string).
Context (Hact : forall k r, active d !! k = Some r -> has_target d r /\ gate_kept d r).

Lemma edge_gate k r r' :
  active d !! k = Some r -> edge r r' -> (Status r = PREPARING -> Status r' = CUTOVER -> cut r) ->
  has_target d' r' /\ gate_kept d' r'.
Proof.
  intros Hk He Hc. destruct (Hact _ _ Hk) as [Ht Hg]. pose proof (edge_later _ _ He) as (Hsame & _ & _).
  split; [eapply has_target_ext; [exact Hok|apply change_ext|exact Hsame|exact Ht]|].
  intros Hgd Hs. assert (gated d r) as Hgr by (by eapply change_gated).
  destruct He as [Hp|n dl Hp|n b dl Hp Hb|Hp]; cbn in *; try done.
  exfalso. by eapply Hcut; eauto.
Qed.

Lemma change_active k r : active d' !! k = Some r -> has_target d' r /\ gate_kept d' r.
Proof.
  intros Hk. assert (forall r0, active d !! k = Some r0 -> has_target d' r0 /\ gate_kept d' r0) as Hold.
  { intros r0 Hr0. destruct (Hact _ _ Hr0). split; [by apply change_target|by apply change_gate_kept]. }
  pose proof edge_gate as Hedge.
  destruct Hch as [a r0 r' Ha He Hc|a r0 failed now ds asl Ha Hs Hds|now dep r0 app asl Ha Happ Hd Ht Hid Hda Hdg|ds asl Hds];
    cbn in *; [| | |eauto].
  - apply lookup_insert_Some in Hk as [[<- <-]|[_ Hk]]; [by eapply Hedge|eauto].
  - apply lookup_delete_Some in Hk as [_ Hk]. eauto.
  - apply lookup_insert_Some in Hk as [[<- <-]|[_ Hk]]; [|eauto]. split; [|done].
    exists dep. cbn. by rewrite lookup_insert_eq.
Qed.

Lemma change_finished f :
  (forall f, f ∈ finished d -> has_target d (f_rollout f) /\
     (Failed f = false -> gated d (f_rollout f) -> ApprovedBy (f_rollout f) <> ""%string)) ->
  f ∈ finished d' -> has_target d' (f_rollout f) /\
     (Failed f = false -> gated d' (f_rollout f) -> ApprovedBy (f_rollout f) <> ""%string).
Proof.
  intros Hfin Hf. assert (f ∈ finished d \/ exists k r now, active d !! k = Some r /\ exists failed,
    f = mkFinished r failed now /\ (failed = false -> success r)) as [Hin|(k & r & now & Hk & failed & -> & Hs)].
  { destruct Hch as [| a r failed now ds asl Ha Hs | |]; cbn in Hf; auto.
    apply elem_of_app in Hf as [|[->|Hf]%elem_of_cons]; [by left| |by apply not_elem_of_nil in Hf]. right. eauto 10. }
  - destruct (Hfin _ Hin) as [Ht Hg]. split; [by apply change_target|]. intros Hf0 Hgd. apply Hg; [done|].
    by eapply change_gated; [apply same_rollout_refl| |].
  - destruct (Hact _ _ Hk) as [Ht _]. split; cbn; [by apply change_target|]. intros -> Hgd.
    eapply Hsucc; eauto. by eapply change_gated; [apply same_rollout_refl| |].
Qed.

(** A listed row of an application whose rollout does not end. *)
Lemma change_listed k r :
  ~ ends k -> match active d !! k with
              | Some r' => later_row r r'
              | None => exists a, apps d !! k = Some a /\ Deleted a = true
              end ->
  match active d' !! k with
  | Some r' => later_row r r'
  | None => exists a, apps d' !! k = Some a /\ Deleted a = true
  end.
Proof.
  intros Hne H. assert (forall asl, apps_later (apps d) asl -> active d !! k = None ->
    exists a, asl !! k = Some a /\ Deleted a = true) as Hdel.
  { intros asl Hasl Hn. rewrite Hn in H. destruct H as (a & Ha & Hd). destruct (Hasl _ _ Ha) as (a' & ? & ?). eauto. }
  destruct Hch as [a r0 r' Ha He Hc|a r0 failed now ds asl Ha Hs Hds Hasl Hends|
                   now dep r0 app asl Ha Happ Hd Ht Hid Hda Hdg Hasl|ds asl Hds Hasl]; cbn.
  - destruct (decide (k = a)) as [->|Hka]; [|by rewrite lookup_insert_ne].
    rewrite lookup_insert_eq. rewrite Ha in H. etransitivity; [exact H|by apply edge_later].
  - destruct (decide (k = a)) as [->|Hka].
    + rewrite lookup_delete_eq. by destruct Hends.
    + rewrite lookup_delete_ne by done. destruct (active d !! k) eqn:Hk; [done|by apply Hdel].
  - destruct (decide (k = r_AppID r0)) as [->|Hka].
    + rewrite Ha in H. destruct H as (a & Ha' & Hd'). congruence.
    + rewrite lookup_insert_ne by done. destruct (active d !! k) eqn:Hk; [done|by apply Hdel].
  - destruct (active d !! k) eqn:Hk; [done|by apply Hdel].
Qed.
End preserved.

Lemma change_inv cut success ends st d' l :
  inv st -> change cut success ends (db st) d' ->
  (forall k r, active (db st) !! k = Some r -> cut r -> Status r = PREPARING -> ~ gated (db st) r) ->
  (forall k r, active (db st) !! k = Some r -> success r -> gated (db st) r -> ApprovedBy r <> ""%string) ->
  l ⊆ listed st -> (forall k, ends k -> l !! k = None) -> inv (mkSys d' l).
Proof.
  intros [Hok Hact Hfin Hlis] Hch Hcut Hsucc Hl Hends. split; cbn.
  - by eapply change_tables.
  - intros. by eapply change_active.
  - intros. by eapply change_finished.
  - intros k r Hk. destruct (Hlis k r (lookup_weaken _ _ _ _ Hk Hl)) as (Ha & Ht & Hg & Hm).
    split_and!; [done|by eapply change_target|by eapply change_gate_kept|].
    eapply change_listed; [exact Hch| |exact Hm]. intros He. by rewrite (Hends k He) in Hk.
Qed.

(** The gate the controller asks is the gate of the row. *)
Lemma gate_open_sound d appID rd r toDep :
  tables_ok d -> r_AppID r = appID -> reads_deployments d appID rd ->
  deploymentForGeneration (read_deployments rd) (ToGeneration r) = Ok (Some toDep) ->
  approvalGateApplies r toDep = false -> ~ gated d r.
Proof.
  intros Hok Happ Hrd Hdep Hgate. unfold deploymentForGeneration in Hdep.
  destruct (read_deployments rd) as [l|] eqn:Hl; [|done]. injection Hdep as Hdep.
  apply List.find_some in Hdep as [Hin Hgen]. apply Z.eqb_eq in Hgen.
  pose proof (proj1 (List.Forall_forall _ _) (Hrd l Hl) _ Hin) as (Ha & d' & Hd' & Hid & Ha' & Hg' & Hs').
  unfold approvalGateApplies in Hgate. intros [Hr|(Hw & dep & Hk & Hda & Hdg & Hst)]; [by rewrite Hr in Hgate|].
  destruct (ApprovalRequired r); [done|]. rewrite (proj2 (Z.eqb_neq _ _) Hw) in Hgate.
  assert (dep = d') as -> by (apply (ok_unique d Hok); congruence).
  unfold EffectiveStrategy in *. by rewrite Hs', Hst in Hgate.
Qed.

Definition api_change (d d' : DB) : Prop := change (fun _ => False) (fun _ => False) (fun _ => False) d d'.

Lemma api_inv st d' : inv st -> api_change (db st) d' -> inv (mkSys d' (listed st)).
Proof. intros Hi Hch. by eapply change_inv. Qed.

(** A pass changes the tables the way its row allows. *)
Lemma tick_change st r c now rd o app pre :
  inv st -> listed st !! a_ID app = Some r -> reads_deployments (db st) (a_ID app) rd ->
  change (fun r' => ~ gated (db st) r') (fun r' => gated (db st) r' -> ApprovedBy r' <> ""%string)
    (fun a => a = a_ID app) (db st) (pass_db (reconcileRollout c now rd o app r pre (db st))).
Proof.
  intros [Hok Hact Hfin Hlis] Hr Hrd. destruct (Hlis _ _ Hr) as (Ha & Ht & Hg & Hm).
  apply pass_change; [by apply ok_keys|done| |].
  - intros toDep r' Hs Hdep Hgate Hr' _ Hgd. rewrite Hr' in Hm. destruct Hm as (Hsame & _ & _).
    eapply gate_open_sound; [done..|]. eapply gated_back; [done|by intros k dep Hk; exists dep|exact Hsame|done|done].
  - intros r' Hs Hr' Hgd. rewrite Hr' in Hm. destruct Hm as (Hsame & _ & Hby). rewrite Hby by (rewrite Hs; cbn; lia).
    apply Hg; [|done]. eapply gated_back; [done|by intros k dep Hk; exists dep|exact Hsame|done|done].
Qed.

Lemma rollout_inv_step st st' : inv st -> step st st' -> inv st'.
Proof.
  intros Hi Hst. pose proof Hi as [Hok Hact Hfin Hlis]. pose proof (ok_keys _ Hok) as Hk.
  destruct Hst; try (apply api_inv; [done|];
    first [by apply DeployApp_change|by apply approveRollout_change|by apply rollbackApp_change
          |by apply deleteApp_change|by apply SetAppReplicas_change]).
  - split; cbn; [done..|]. intros k r Hr. destruct (Hact _ _ Hr). rewrite Hr. split_and!; [by apply Hk|done..].
  - eapply change_inv; [done|apply (change_refl (fun _ => False) (fun _ => False) (fun _ => False))|done|done|
                        apply delete_subseteq|done].
  - eapply change_inv; [done|by eapply tick_change|by intros ? ? _ ? _|by intros ? ? _ ?|apply delete_subseteq|].
    intros k ->. apply lookup_delete_eq.
Qed.

Lemma rollout_inv_reachable init st : fresh_db init -> reachable init st -> inv st.
Proof.
  intros (Ha & Hf & Hd). induction 1 as [|st st' _ IH Hst]; [|by eapply rollout_inv_step].
  split; cbn; [split|..]; rewrite ?Ha, ?Hf, ?Hd; try done; intros ?; rewrite ?lookup_empty; try done.
  intros H. by apply not_elem_of_nil in H.
Qed.

(** C16. No rollout goes live behind the back of its approvers: in every history of
    deployments, approvals, rollbacks, deletions, scalings and controller passes - each
    acting on a row it listed any number of API calls ago - a rollout that requires
    approval, or is the canary of a rolling deployment, is in CUTOVER or has completed
    successfully only with the name of the approver in its row. *)
Theorem approval_never_bypassed init st r :
  fresh_db init -> reachable init st -> gated (db st) r ->
  (active (db st) !! r_AppID r = Some r /\ Status r = CUTOVER) \/
  (exists now, mkFinished r false now ∈ finished (db st)) ->
  ApprovedBy r <> ""%string.
Proof.
  intros Hf Hr Hg. destruct (rollout_inv_reachable init st Hf Hr) as [_ Hact Hfin _]. intros [[Ha Hs]|[now Hin]].
  - destruct (Hact _ _ Ha) as [_ Hk]. by apply Hk.
  - by apply (Hfin _ Hin).
Qed.

Lemma step_change init st st' :
  fresh_db init -> reachable init st -> step st st' -> db st' = db st \/ exists cut success ends, change cut success ends (db st) (db st').
Proof.
  intros Hf Hr Hst. pose proof (rollout_inv_reachable init st Hf Hr) as Hi. pose proof (ok_keys _ (inv_tables _ Hi)) as Hk.
  destruct Hst; cbn; auto; right; first
    [do 3 eexists; by eapply tick_change
    |exists (fun _ => False), (fun _ => False), (fun _ => False);
     first [by apply DeployApp_change|by apply approveRollout_change|by apply rollbackApp_change
           |by apply deleteApp_change|by apply SetAppReplicas_change]].
Qed.

(** The rollouts table follows the state machine on every step of every history:
    an application has at most one active rollout; it starts in PREPARING without an
    approval, moves only along PREPARING to PAUSED_FOR_APPROVAL or CUTOVER, PAUSED to
    CUTOVER with an approver, and any state to ROLLING_BACK once; it leaves the
    active rows only by being recorded as complete, as it was, and what is complete
    stays complete. *)
Theorem rollout_lifecycle init st st' a :
  fresh_db init -> reachable init st -> step st st' ->
  finished (db st) `prefix_of` finished (db st') /\
  match active (db st) !! a, active (db st') !! a with
  | None, None => True
  | None, Some r' => Status r' = PREPARING /\ ApprovedBy r' = ""%string /\ r_AppID r' = a /\
                     Forall (fun f => r_ID (f_rollout f) <> r_ID r') (finished (db st))
  | Some r, Some r' => r' = r \/ edge r r'
  | Some r, None => exists failed now, finished (db st') = finished (db st) ++ [mkFinished r failed now]
  end.
Proof.
  intros Hf Hr Hst. destruct (step_change init st st' Hf Hr Hst) as [->|(cut & success & ends & Hch)].
  { split; [done|]. destruct (active (db st) !! a); auto. }
  destruct Hch as [k r0 r' Hk He Hc|k r0 failed now ds asl Hk|now dep r0 app asl Hk Happ Hd Ht Hid|ds asl Hds]; cbn;
    (split; [first [done|by apply prefix_app_r]|]).
  - destruct (decide (a = k)) as [->|Hne].
    + rewrite Hk, lookup_insert_eq. by right.
    + rewrite lookup_insert_ne by done. destruct (active (db st) !! a); auto.
  - destruct (decide (a = k)) as [->|Hne].
    + rewrite Hk, lookup_delete_eq. eauto.
    + rewrite lookup_delete_ne by done. destruct (active (db st) !! a); auto.
  - destruct (decide (a = r_AppID r0)) as [->|Hne].
    + rewrite Hk, lookup_insert_eq. split_and!; [done..|].
      apply orb_false_iff in Hid as [_ Hid]. apply List.Forall_forall. intros f Hin Heq. cbn in Heq.
      rewrite <- not_true_iff_false in Hid. apply Hid. apply existsb_exists. exists f. split; [done|].
      rewrite Heq. apply String.eqb_refl.
    + rewrite lookup_insert_ne by done. destruct (active (db st) !! a); auto.
  - destruct (active (db st) !! a); auto.
Qed.

(** ** What a pass deletes *)

Lemma elem_of_ordinals i n : i ∈ ordinals n <-> 0 <= i < n.
Proof.
  unfold ordinals. rewrite list_elem_of_In, in_map_iff. split.
  - intros (k & <- & Hk%in_seq). lia.
  - intros H. exists (Z.to_nat i). split; [lia|]. apply in_seq. lia.
Qed.

Lemma elem_of_ready_ordinals i ms :
  i ∈ ready_ordinals ms <-> exists m, m ∈ ms /\ machineServing m = true /\ ReplicaOrdinal m = i.
Proof.
  unfold ready_ordinals. rewrite elem_of_list_to_set, list_elem_of_fmap. split.
  - intros (m & -> & Hm%list_elem_of_filter). naive_solver.
  - intros (m & Hm & Hs & <-). exists m. split; [done|]. by apply list_elem_of_filter.
Qed.

Lemma allReady_true ms n :
  allReady ms n = true <->
  forall i, 0 <= i < n -> exists m, m ∈ ms /\ machineServing m = true /\ ReplicaOrdinal m = i.
Proof.
  unfold allReady. rewrite forallb_forall. split.
  - intros H i Hi. apply elem_of_ready_ordinals. apply elem_of_ordinals in Hi.
    specialize (H i (proj1 (list_elem_of_In _ _) Hi)). by bool_to_prop.
  - intros H i Hi%list_elem_of_In%elem_of_ordinals. apply bool_decide_eq_true, elem_of_ready_ordinals. auto.
Qed.

Definition is_delete (o : output) : bool := match o with EnqueueDelete _ _ _ _ _ => true | _ => false end.

Definition deletes_none (outs : list output) : bool := forallb (fun o => negb (is_delete o)) outs.

Lemma deletes_none_not outs opID id ex g reason :
  deletes_none outs = true -> ~ EnqueueDelete opID id ex g reason ∈ outs.
Proof.
  unfold deletes_none. rewrite forallb_forall. intros H Hin.
  by specialize (H _ (proj1 (list_elem_of_In _ _) Hin)).
Qed.

(** What follows the statement deletes nothing: the deletions came before it. *)
Lemma transition_deletes pre m d before after opID id ex g reason :
  deletes_none after = true ->
  EnqueueDelete opID id ex g reason ∈ (transition pre m d before after).1.2 ->
  EnqueueDelete opID id ex g reason ∈ before.
Proof.
  intros Hn. unfold transition. destruct (m d) as [? []]; cbn; [|done].
  intros [?|Hin]%elem_of_app; [done|]. by eapply deletes_none_not in Hin.
Qed.

(** The generation [keep] carries the traffic and loses no machine. *)
Definition leaves_serving (outs : list output) (machines : list Machine) (keep : string) (n : Z) : Prop :=
  (forall i, 0 <= i < n -> exists m, m ∈ machines /\ m_DeploymentID m = keep /\ machineServing m = true /\ ReplicaOrdinal m = i) /\
  (forall opID id ex g reason, EnqueueDelete opID id ex g reason ∈ outs ->
     exists m, m ∈ machines /\ m_ID m = id /\ m_DeploymentID m <> keep).

Lemma delete_of f reason ms opID id ex g reason' :
  EnqueueDelete opID id ex g reason' ∈ map (fun m => enqueueUserDelete f m reason) ms ->
  exists m, m ∈ ms /\ m_ID m = id.
Proof.
  intros (m & Heq & Hm)%list_elem_of_fmap. unfold enqueueUserDelete in Heq. simplify_eq. eauto.
Qed.

Lemma of_deployment_serving id ms n :
  allReady (of_deployment id ms) n = true ->
  forall i, 0 <= i < n -> exists m, m ∈ ms /\ m_DeploymentID m = id /\ machineServing m = true /\ ReplicaOrdinal m = i.
Proof.
  rewrite allReady_true. intros H i Hi. destruct (H i Hi) as (m & Hm%list_elem_of_filter & ? & ?).
  naive_solver.
Qed.

Lemma nothing_deleted opID id ex g reason : ~ EnqueueDelete opID id ex g reason ∈ [].
Proof. apply not_elem_of_nil. Qed.

Lemma transition_none pre m d before after opID id ex g reason :
  deletes_none before = true -> deletes_none after = true ->
  ~ EnqueueDelete opID id ex g reason ∈ (transition pre m d before after).1.2.
Proof. intros Hb Ha H%transition_deletes; [|done]. by eapply deletes_none_not in H. Qed.

Lemma preparing_deletes_none c now rd o app r toDep ms pre d opID id ex g reason :
  ~ EnqueueDelete opID id ex g reason ∈ (reconcilePreparing c now rd o app r toDep ms pre d).1.2.
Proof.
  unfold reconcilePreparing, startRollback, maybePrefetchRolloutImage.
  repeat case_match; simplify_eq; first [by apply transition_none|by apply nothing_deleted|by apply deletes_none_not].
Qed.

Lemma decision_after_deadline c r dl : dl <= cutover_decision_at c r dl.
Proof. unfold cutover_decision_at. cbv zeta. case_match; bool_to_prop; lia. Qed.

Lemma cutover_deletes c now rd o app r toDep machines pre d opID id ex g reason :
  Status r = CUTOVER ->
  EnqueueDelete opID id ex g reason ∈
    (reconcileCutover c now rd o app r toDep machines (of_deployment (d_ID toDep) machines) pre d).1.2 ->
  allReady (of_deployment (d_ID toDep) machines) (DesiredReplicas app) = true /\
  (exists deadline, DrainDeadline r = Some deadline /\ deadline <= now) /\
  exists m, m ∈ machines /\ m_ID m = id /\ m_DeploymentID m <> d_ID toDep.
Proof.
  intros Hs. unfold reconcileCutover, startRollback, rollingOldGenerationDeleteAllowed. rewrite Hs.
  destruct (DrainDeadline r) as [dl|]; [|by intros H%nothing_deleted].
  destruct (negb (now <? _)) eqn:Hend; destruct (cutoverAssessment _ _ _ _ _ _) as [[] why]; cbn [negb];
    try (by intros H%transition_none); try (by intros H%nothing_deleted);
    (destruct (allReady _ _) eqn:Hall; cbn [negb]; [|by intros H%nothing_deleted]).
  all: intros H; (split; [done|]); split.
  all: try (exists dl; split; [done|]; pose proof (decision_after_deadline c r dl); bool_to_prop; lia).
  all: assert (EnqueueDelete opID id ex g reason ∈ map (fun m => enqueueUserDelete (fresh_id rd) m
      "rollout drain: recycle old generation") (filter (fun m => m_DeploymentID m <> d_ID toDep) machines)) as Hin
      by (destruct (deploymentForGeneration _ (FromGeneration r)) as [[]|]; by apply transition_deletes in H).
  all: apply delete_of in Hin as (m & [Hm Hin]%list_elem_of_filter & <-); eauto.
Qed.

Lemma rollback_deletes now rd o app r toDep machines pre d opID id ex g reason :
  EnqueueDelete opID id ex g reason ∈
    (reconcileRollingBack now rd o app r toDep machines (of_deployment (d_ID toDep) machines) pre d).1.2 ->
  exists keep, deploymentForGeneration (read_from_deployments rd) (FromGeneration r) = Ok (Some keep) /\
    allReady (of_deployment (d_ID keep) machines) (DesiredReplicas app) = true /\
    exists m, m ∈ machines /\ m_ID m = id /\ m_DeploymentID m = d_ID toDep.
Proof.
  unfold reconcileRollingBack.
  destruct (deploymentForGeneration _ _) as [[keep|]|]; [|by intros H%nothing_deleted..].
  destruct (allReady _ _) eqn:Hall; cbn [negb]; [|by intros H%nothing_deleted].
  intros H. exists keep. split_and!; [done..|].
  assert (EnqueueDelete opID id ex g reason ∈ map (fun m => enqueueUserDelete (fresh_id rd) m "rollback: remove new generation")
      (filter (fun m => DesiredState m <> "DELETED"%string) (of_deployment (d_ID toDep) machines))) as Hin
    by (destruct (Nat.eqb _ _); [by apply transition_deletes in H|done]).
  apply delete_of in Hin as (m & [_ [Hm Hin]%list_elem_of_filter]%list_elem_of_filter & <-). eauto.
Qed.

(** The two reads of the deployments agree on the generation of a row. *)
Definition consistent_reads (rd : Reads) : Prop :=
  forall l l' dep dep', read_deployments rd = Ok l -> read_from_deployments rd = Ok l' ->
  dep ∈ l -> dep' ∈ l' -> d_ID dep = d_ID dep' -> d_Generation dep = d_Generation dep'.

Lemma deploymentForGeneration_Some deps gen dep :
  deploymentForGeneration deps gen = Ok (Some dep) -> exists l, deps = Ok l /\ dep ∈ l /\ d_Generation dep = gen.
Proof.
  destruct deps as [l|]; [|done]. cbn. intros [= [Hin Hg]%List.find_some]. exists l.
  split_and!; [done|by apply list_elem_of_In|by apply Z.eqb_eq].
Qed.

(** C17. A pass deletes machines only while the other generation carries the traffic:
    when it hands out deletions, the row it read is in CUTOVER with its drain deadline
    reached and the old generations go, or in ROLLING_BACK and the new generation goes,
    and in both cases the generation that stays has a serving machine for every desired
    ordinal, none of which is deleted. *)
Theorem deletes_leave_serving c now rd o app r pre d opID id ex g reason :
  FromGeneration r <> ToGeneration r -> consistent_reads rd ->
  let p := reconcileRollout c now rd o app r pre d in
  EnqueueDelete opID id ex g reason ∈ p.1.2 ->
  exists machines keep, read_machines rd = Ok machines /\
    leaves_serving p.1.2 machines (d_ID keep) (DesiredReplicas app) /\
    ((Status r = CUTOVER /\ deploymentForGeneration (read_deployments rd) (ToGeneration r) = Ok (Some keep) /\
      exists deadline, DrainDeadline r = Some deadline /\ deadline <= now) \/
     (Status r = ROLLING_BACK /\
      deploymentForGeneration (read_from_deployments rd) (FromGeneration r) = Ok (Some keep))).
Proof.
  intros Hgens Hcons. cbn zeta. unfold reconcileRollout.
  destruct (deploymentForGeneration (read_deployments rd) _) as [[toDep|]|] eqn:Hto; [|by intros H%nothing_deleted..].
  destruct (read_machines rd) as [machines|]; [|by intros H%nothing_deleted].
  destruct (Status r) eqn:Hs; [by intros H%preparing_deletes_none|by intros H%nothing_deleted| |]; intros H.
  - destruct (cutover_deletes _ _ _ _ _ _ _ _ _ _ _ _ _ _ _ Hs H) as (Hall & Hdl & _).
    exists machines, toDep. split_and!; [done| |by left]. split; [by apply of_deployment_serving|].
    intros op' id' ex' g' reason' H'. by apply cutover_deletes in H' as (_ & _ & ?).
  - destruct (rollback_deletes _ _ _ _ _ _ _ _ _ _ _ _ _ _ H) as (keep & Hkeep & Hall & _).
    exists machines, keep. split_and!; [done| |by right]. split; [by apply of_deployment_serving|].
    intros op' id' ex' g' reason' (_ & _ & _ & m & Hm & Hid & Hdep)%rollback_deletes.
    exists m. split_and!; [done..|]. rewrite Hdep. intros Heq.
    apply deploymentForGeneration_Some in Hto as (l & Hl & Hin & Hg), Hkeep as (l' & Hl' & Hin' & Hg').
    apply Hgens. rewrite <- Hg, <- Hg'. symmetry. by eapply Hcons.
Qed.

(** ** The cutover decides *)

(** The quotient of two counts reaches 1.0 exactly when the counts do. *)
Definition ratio_full (a b : Z) : bool := fleb fone (fdiv (fof_Z a) (fof_Z b)).

Lemma ratio_full_correct a b : 0 <= a <= 100 -> 1 <= b <= 100 -> ratio_full a b = (b <=? a).
Proof.
  intros Ha Hb.
  assert (forallb (fun a => forallb (fun b => Bool.eqb (ratio_full (Z.of_nat a) (Z.of_nat b)) (Z.of_nat b <=? Z.of_nat a))
    (seq 1 100)) (seq 0 101) = true) as H by (vm_compute; reflexivity).
  rewrite forallb_forall in H. specialize (H (Z.to_nat a) ltac:(apply in_seq; lia)).
  rewrite forallb_forall in H. specialize (H (Z.to_nat b) ltac:(apply in_seq; lia)).
  rewrite !Z2Nat.id in H by lia. by apply Bool.eqb_prop.
Qed.

Definition in_range_ordinals (ms : list Machine) (n : Z) : Prop := Forall (fun m => 0 <= ReplicaOrdinal m < n) ms.

Lemma size_ordinals n : size (list_to_set (ordinals n) : gset Z) = Z.to_nat n.
Proof.
  rewrite size_list_to_set; [by unfold ordinals; rewrite length_map, length_seq|].
  unfold ordinals. apply NoDup_fmap_2; [intros x y; lia|]. apply NoDup_ListNoDup, seq_NoDup.
Qed.

Lemma serving_full ms n :
  0 <= n -> in_range_ordinals ms n -> servingOrdinals ms <= n /\ (servingOrdinals ms = n <-> allReady ms n = true).
Proof.
  intros Hn Hr. unfold servingOrdinals.
  assert (ready_ordinals ms ⊆ list_to_set (ordinals n)) as Hsub.
  { intros i (m & Hm & _ & <-)%elem_of_ready_ordinals. apply elem_of_list_to_set, elem_of_ordinals.
    unfold in_range_ordinals in Hr. rewrite List.Forall_forall in Hr. by apply Hr, list_elem_of_In. }
  pose proof (subseteq_size _ _ Hsub) as Hle. rewrite size_ordinals in Hle. split; [lia|]. split.
  - intros Hsz. assert (ready_ordinals ms = list_to_set (ordinals n)) as Heq.
    { apply set_subseteq_size_eq; [done|]. rewrite size_ordinals. lia. }
    apply allReady_true. intros i Hi. apply elem_of_ready_ordinals. rewrite Heq.
    by apply elem_of_list_to_set, elem_of_ordinals.
  - intros Hall. assert (list_to_set (ordinals n) ⊆ ready_ordinals ms) as Hsup.
    { intros i Hi%elem_of_list_to_set%elem_of_ordinals. apply elem_of_ready_ordinals. by apply (proj1 (allReady_true ms n)). }
    apply subseteq_size in Hsup. rewrite size_ordinals in Hsup. lia.
Qed.

(** No analysis of its own, no Prometheus gate, the ratio left unset. *)
Definition default_analysis (c : Config) : Prop :=
  CutoverAnalysis c = None /\ prometheusAnalysis c = None /\ fleb (CutoverMinServingRatio c) fzero = true.

Lemma default_verdict c app r ms now :
  default_analysis c -> 0 <= DesiredReplicas app <= 100 -> in_range_ordinals ms (DesiredReplicas app) ->
  (cutoverAssessment c app r ms true now).1 =
    if allReady ms (DesiredReplicas app) then VerdictProceed else VerdictRollback.
Proof.
  intros (Hc & Hp & Hr) Hd Hms. destruct (serving_full ms (DesiredReplicas app) ltac:(lia) Hms) as [Hle Hiff].
  unfold cutoverAssessment. rewrite Hc, Hp. unfold ServingRatioAnalysis, normalized. cbn [MinServingRatio ZeroServingGrace].
  rewrite Hr. replace (fgtb fone fone) with false by (vm_compute; reflexivity).
  cbn [MinServingRatio ZeroServingGrace negb].
  assert (0 <= servingOrdinals ms) by (unfold servingOrdinals; lia).
  destruct (Z.leb_spec (DesiredReplicas app) 0).
  - cbn. replace (allReady ms (DesiredReplicas app)) with true; [done|]. symmetry. apply allReady_true. lia.
  - destruct (_ && _) eqn:Hz.
    + cbn [fst]. bool_to_prop. destruct (allReady _ _); [|done]. lia.
    + fold (ratio_full (servingOrdinals ms) (DesiredReplicas app)). rewrite ratio_full_correct by lia.
      destruct (Z.leb_spec (DesiredReplicas app) (servingOrdinals ms)) as [Hge|Hlt];
        destruct (allReady _ _) eqn:Hall; try done; exfalso.
      * assert (false = true) by (apply Hiff; lia). done.
      * assert (servingOrdinals ms = DesiredReplicas app) by (by apply Hiff). lia.
Qed.

(** An observation ends. With the default analysis, a pass over a rollout in
    CUTOVER once the drain deadline and the observation window are over settles it:
    when every desired ordinal of the new generation serves, the rollout is recorded
    as successful and its deployment becomes ACTIVE; otherwise it goes to ROLLING_BACK
    and nothing is deleted. *)
Theorem cutover_decides c now rd app r toDep machines deadline pre d :
  default_analysis c -> 0 <= DesiredReplicas app <= 100 -> Status r = CUTOVER -> r_AppID r = a_ID app ->
  DrainDeadline r = Some deadline -> cutover_decision_at c r deadline <= now ->
  deploymentForGeneration (read_deployments rd) (ToGeneration r) = Ok (Some toDep) -> d_ID toDep <> ""%string ->
  read_machines rd = Ok machines -> in_range_ordinals (of_deployment (d_ID toDep) machines) (DesiredReplicas app) ->
  active d !! a_ID app = Some r ->
  let p := reconcileRollout c now rd Done app r pre d in
  if allReady (of_deployment (d_ID toDep) machines) (DesiredReplicas app)
  then active (pass_db p) !! a_ID app = None /\ finished (pass_db p) = finished d ++ [mkFinished r false now]
  else active (pass_db p) !! a_ID app = Some (set_status ROLLING_BACK r) /\ deletes_none p.1.2 = true.
Proof.
  intros Hdef Hn Hs Happ Hdl Hnow Hdep Hid Hms Hr Hact. cbn zeta. unfold reconcileRollout. rewrite Hdep, Hms, Hs.
  unfold reconcileCutover, rollingOldGenerationDeleteAllowed. rewrite Hdl, Hs, (proj2 (Z.ltb_ge _ _) Hnow). cbn [negb].
  pose proof (default_verdict c app r _ now Hdef Hn Hr) as Hv.
  destruct (cutoverAssessment _ _ _ _ _ _) as [v why]. cbn in Hv. subst v.
  destruct (allReady _ _); cbn [negb].
  - destruct (deploymentForGeneration (read_from_deployments rd) _) as [[]|]; rewrite transition_db;
      unfold CompleteRolloutWithStatus, inTx, ActiveRolloutForApp; rewrite Hact;
      repeat case_match; cbn; by rewrite Happ, lookup_delete_eq.
  - unfold startRollback. rewrite transition_db. unfold RolloutToRollback, transition, inTx, ActiveRolloutForApp.
    rewrite Happ, Hact, Hs. cbn. by rewrite Happ, lookup_insert_eq.
Qed.

(** Preparing ends too: once a rollout has been in PREPARING for longer than the
    timeout, or its start is missing, or the creation of one of its machines has used up
    its attempts, the next pass puts it into ROLLING_BACK. *)
Theorem preparing_gives_up c now rd app r toDep machines pre d :
  Status r = PREPARING -> r_AppID r = a_ID app ->
  deploymentForGeneration (read_deployments rd) (ToGeneration r) = Ok (Some toDep) -> read_machines rd = Ok machines ->
  StartedAt r = zero_time \/ rolloutTimeout c < now - StartedAt r \/
    (exists m, m ∈ of_deployment (d_ID toDep) machines /\ failedCreateAttemptsExhausted rd (m_ID m) = true) ->
  active d !! a_ID app = Some r ->
  active (pass_db (reconcileRollout c now rd Done app r pre d)) !! a_ID app = Some (set_status ROLLING_BACK r).
Proof.
  intros Hs Happ Hdep Hms Hwhy Hact. unfold reconcileRollout. rewrite Hdep, Hms, Hs. unfold reconcilePreparing, startRollback.
  assert (forall before after, active (pass_db (transition pre (RolloutToRollback Done (r_AppID r)) d before after)) !! a_ID app
    = Some (set_status ROLLING_BACK r)) as Hroll.
  { intros. rewrite transition_db. unfold RolloutToRollback, inTx, ActiveRolloutForApp. rewrite Happ, Hact, Hs. cbn.
    by rewrite Happ, lookup_insert_eq. }
  destruct (Z.eqb_spec (StartedAt r) zero_time); [apply Hroll|].
  destruct (Z.ltb_spec (rolloutTimeout c) (now - StartedAt r)); [apply Hroll|].
  replace (existsb _ _) with true; [apply Hroll|]. symmetry. apply existsb_exists.
  destruct Hwhy as [|[|(m & Hm & Hx)]]; [done|lia|]. exists m. split; [by apply list_elem_of_In|done].
Qed.

(** A rollback the API has accepted can be lost: when it is accepted between a
    pass's read of a rollout in CUTOVER and that pass's completion, the rollout is
    recorded as a success, the new deployment becomes ACTIVE and the machines of the
    old generation are deleted, although the caller was answered 202. *)
Theorem accepted_rollback_lost c now rd app r toDep machines deadline pre d :
  default_analysis c -> 0 <= DesiredReplicas app <= 100 -> Status r = CUTOVER -> r_AppID r = a_ID app ->
  DrainDeadline r = Some deadline -> cutover_decision_at c r deadline <= now ->
  deploymentForGeneration (read_deployments rd) (ToGeneration r) = Ok (Some toDep) -> d_ID toDep <> ""%string ->
  read_machines rd = Ok machines -> in_range_ordinals (of_deployment (d_ID toDep) machines) (DesiredReplicas app) ->
  allReady (of_deployment (d_ID toDep) machines) (DesiredReplicas app) = true ->
  active d !! a_ID app = Some r ->
  exists d', rollbackApp (Ok (Some r)) Done (a_ID app) d = (d', Http 202) /\
    active d' !! a_ID app = Some (set_status ROLLING_BACK r) /\
    let p := reconcileRollout c now rd Done app r pre d' in
    active (pass_db p) !! a_ID app = None /\
    finished (pass_db p) = finished d ++ [mkFinished (set_status ROLLING_BACK r) false now] /\
    Forall (fun m => m_DeploymentID m <> d_ID toDep ->
      enqueueUserDelete (fresh_id rd) m "rollout drain: recycle old generation" ∈ p.1.2) machines.
Proof.
  intros Hdef Hn Hs Happ Hdl Hnow Hdep Hid Hms Hr Hall Hact.
  unfold rollbackApp. rewrite Hs. cbn [bool_decide].
  assert (exists d', RolloutToRollback Done (a_ID app) d = (d', Ok tt) /\ finished d' = finished d /\
    active d' !! a_ID app = Some (set_status ROLLING_BACK r)) as (d' & Hroll & Hfin & Hact').
  { unfold RolloutToRollback, inTx, ActiveRolloutForApp. rewrite Hact, Hs. eexists. split_and!; [done|done|].
    cbn. by rewrite Happ, lookup_insert_eq. }
  exists d'. rewrite Hroll. split; [done|split; [done|cbn zeta]].
  unfold reconcileRollout. rewrite Hdep, Hms, Hs.
  unfold reconcileCutover, rollingOldGenerationDeleteAllowed. rewrite Hdl, Hs, (proj2 (Z.ltb_ge _ _) Hnow). cbn [negb].
  pose proof (default_verdict c app r _ now Hdef Hn Hr) as Hv.
  destruct (cutoverAssessment _ _ _ _ _ _) as [v why]. cbn in Hv. subst v. rewrite Hall. cbn [negb].
  assert (Forall (fun m => m_DeploymentID m <> d_ID toDep ->
      enqueueUserDelete (fresh_id rd) m "rollout drain: recycle old generation" ∈
      map (fun m => enqueueUserDelete (fresh_id rd) m "rollout drain: recycle old generation")
        (filter (fun m => m_DeploymentID m <> d_ID toDep) machines)) machines) as Hdels.
  { apply List.Forall_forall. intros m Hm%list_elem_of_In Hne. apply list_elem_of_fmap. exists m.
    split; [done|]. by apply list_elem_of_filter. }
  destruct (deploymentForGeneration (read_from_deployments rd) _) as [[]|];
    unfold transition, CompleteRolloutWithStatus, inTx, ActiveRolloutForApp; rewrite Hact';
    repeat case_match; cbn; rewrite ?Happ, ?Hfin, ?lookup_delete_eq;
    (split_and!; [done|done|]);
    (eapply Forall_impl; [exact Hdels|]; intros m Hm Hne; apply elem_of_app; left; by apply Hm).
Qed.

(** A ratio below one can leave a rollout undecided for ever: when enough
    ordinals of the new generation serve for the analysis but not all, no pass after
    the end of the observation does anything, whatever the time. *)
Theorem lenient_ratio_stalls c now rd app r toDep machines deadline pre d o :
  CutoverAnalysis c = None -> prometheusAnalysis c = None -> Status r = CUTOVER ->
  DrainDeadline r = Some deadline -> cutover_decision_at c r deadline <= now -> 0 < DesiredReplicas app ->
  deploymentForGeneration (read_deployments rd) (ToGeneration r) = Ok (Some toDep) ->
  read_machines rd = Ok machines ->
  let serving := servingOrdinals (of_deployment (d_ID toDep) machines) in
  0 < serving ->
  fleb (MinServingRatio (normalized (mkAnalysis (CutoverMinServingRatio c) (CutoverZeroServingGrace c))))
       (fdiv (fof_Z serving) (fof_Z (DesiredReplicas app))) = true ->
  allReady (of_deployment (d_ID toDep) machines) (DesiredReplicas app) = false ->
  reconcileRollout c now rd o app r pre d = ((pre, d), [], Ok tt).
Proof.
  intros Hc Hp Hs Hdl Hnow Hn Hdep Hms serving Hserv Hratio Hall. unfold reconcileRollout. rewrite Hdep, Hms, Hs.
  unfold reconcileCutover, rollingOldGenerationDeleteAllowed. rewrite Hdl, Hs, (proj2 (Z.ltb_ge _ _) Hnow). cbn [negb].
  unfold cutoverAssessment. rewrite Hc, Hp. unfold ServingRatioAnalysis.
  rewrite (proj2 (Z.leb_gt _ _) Hn). fold serving. rewrite (proj2 (Z.eqb_neq _ _) (Z.neq_sym _ _ (Z.lt_neq _ _ Hserv))).
  cbn [andb negb]. rewrite Hratio, Hall. done.
Qed.

(** ** Scaling *)

Definition created_ordinals (outs : list output) : list Z :=
  omap (fun o => match o with EnqueueCreate _ _ _ _ _ i => Some i | _ => None end) outs.

(** How far a rolling update has come after one more batch. *)
Definition rolling_round (n k : Z) : Z := Z.min n (k + rollingBatchSize n).

Lemma rollingBatchSize_bounds n : 0 <= n -> 1 <= rollingBatchSize n /\ n <= 7 * rollingBatchSize n.
Proof.
  intros Hn. unfold rollingBatchSize. rewrite Z.quot_div_nonneg by lia.
  pose proof (Z.div_mod n 4 ltac:(lia)). pose proof (Z.mod_pos_bound n 4 ltac:(lia)).
  cbv zeta. destruct (Z.ltb_spec (n / 4) 1); lia.
Qed.

Lemma rolling_rounds n j : 0 <= n -> Nat.iter j (rolling_round n) 0 = Z.min n (Z.of_nat j * rollingBatchSize n).
Proof.
  intros Hn. induction j as [|j IH]; [cbn; lia|]. rewrite Nat.iter_succ, IH. unfold rolling_round.
  pose proof (rollingBatchSize_bounds n Hn). lia.
Qed.

Lemma filter_all {A} (P : A -> Prop) `{!forall x, Decision (P x)} l : Forall P l -> filter P l = l.
Proof. induction 1 as [|x l Hx _ IH]; [done|]. rewrite filter_cons_True by done. by rewrite IH. Qed.
Lemma filter_none {A} (P : A -> Prop) `{!forall x, Decision (P x)} l : Forall (fun x => ~ P x) l -> filter P l = [].
Proof. induction 1 as [|x l Hx _ IH]; [done|]. by rewrite filter_cons_False. Qed.

Definition ordinals_from (k m : Z) : list Z := map Z.of_nat (seq (Z.to_nat k) (Z.to_nat (m - k))).

Lemma elem_of_ordinals_from i k m : 0 <= k -> i ∈ ordinals_from k m <-> k <= i < m.
Proof.
  intros Hk. unfold ordinals_from. rewrite list_elem_of_In, in_map_iff. split.
  - intros (j & <- & Hj%in_seq). lia.
  - intros H. exists (Z.to_nat i). split; [lia|]. apply in_seq. lia.
Qed.

Lemma filter_ordinals (P : Z -> Prop) `{!forall x, Decision (P x)} n k m :
  0 <= k <= m -> m <= n -> (forall i, 0 <= i < n -> P i <-> k <= i < m) -> filter P (ordinals n) = ordinals_from k m.
Proof.
  intros Hk Hm HP.
  assert (ordinals n = ordinals_from 0 k ++ ordinals_from k m ++ ordinals_from m n) as ->.
  { unfold ordinals, ordinals_from. rewrite <- !map_app. f_equal.
    replace (Z.to_nat n) with (Z.to_nat (k - 0) + (Z.to_nat (m - k) + Z.to_nat (n - m)))%nat by lia.
    rewrite !seq_app. do 3 f_equal; lia. }
  rewrite !filter_app, (filter_none _ (ordinals_from 0 k)), (filter_all _ (ordinals_from k m)),
    (filter_none _ (ordinals_from m n)), app_nil_r; [done| | |];
    apply List.Forall_forall; intros i Hi%list_elem_of_In%elem_of_ordinals_from; try lia; rewrite HP; lia.
Qed.

Lemma create_missing_all sr app target l :
  (forall i, i ∈ l -> (8 <= String.length (create_execution sr (machine_id app i (d_Generation target)) i))%nat /\
                      create_error sr i = None) ->
  exists outs, create_missing sr app target l = (outs, true) /\ created_ordinals outs = l /\ deletes_none outs = true.
Proof.
  induction l as [|i l IH]; intros H; [by exists []|].
  destruct IH as (outs & Hc & Ho & Hd); [intros j Hj; apply H; by right|].
  destruct (H i) as [Hlen Herr]; [by left|]. cbn [create_missing]. unfold enqueueAppMachineCreate.
  rewrite (proj2 (Nat.ltb_ge _ _) Hlen), Herr, Hc. eexists. split; [done|].
  split; [|done]. rewrite <- Ho. reflexivity.
Qed.

(** A rolling update exposes one batch at a time: with the first [k] ordinals of
    the new generation serving, a pass creates exactly the next max(1, n/4) of them and
    deletes nothing; and from none to all seven such passes are enough, whatever the
    number of replicas. *)
Theorem rolling_batches sr app rl target machines k :
  Deleted app = false -> targetDeployment (sr_active sr) (sr_deployments sr) = Ok (Some target) ->
  sr_machines sr = Ok machines -> sr_rolling sr = Ok (Some rl) -> Status rl = PREPARING ->
  ToGeneration rl = d_Generation target -> EffectiveStrategy target = "rolling"%string ->
  0 <= k <= DesiredReplicas app ->
  Forall (fun m => machineServing m = true) (of_deployment (d_ID target) machines) ->
  (forall i, i ∈ map ReplicaOrdinal (of_deployment (d_ID target) machines) <-> 0 <= i < k) ->
  (forall i, 0 <= i < DesiredReplicas app ->
     (8 <= String.length (create_execution sr (machine_id app i (d_Generation target)) i))%nat /\ create_error sr i = None) ->
  exists outs, reconcileApp sr app = (outs, true, Ok tt) /\
    created_ordinals outs = ordinals_from k (rolling_round (DesiredReplicas app) k) /\ deletes_none outs = true /\
    Nat.iter 7 (rolling_round (DesiredReplicas app)) 0 = DesiredReplicas app.
Proof.
  intros Hdel Htgt Hms Hrl Hs Hgen Hstrat Hk Hserv Hord Hcreate.
  pose proof (rollingBatchSize_bounds (DesiredReplicas app) ltac:(lia)) as Hb.
  assert (servingOrdinals (of_deployment (d_ID target) machines) = k) as Hso.
  { unfold servingOrdinals, ready_ordinals. rewrite filter_all by done.
    replace (list_to_set _ : gset Z) with (list_to_set (ordinals k) : gset Z); [rewrite size_ordinals; lia|].
    apply set_eq. intros i. by rewrite !elem_of_list_to_set, Hord, elem_of_ordinals. }
  assert (rolling_limit app (Some rl) target machines = k + rollingBatchSize (DesiredReplicas app)) as Hlim.
  { unfold rolling_limit. by rewrite Hs, Hgen, Z.eqb_refl, Hstrat, Hso. }
  assert (missing_ordinals app target machines (k + rollingBatchSize (DesiredReplicas app)) =
          ordinals_from k (rolling_round (DesiredReplicas app) k)) as Hmiss.
  { unfold missing_ordinals, rolling_round. apply filter_ordinals; [lia..|].
    intros i Hi. rewrite elem_of_list_to_set, Hord. lia. }
  assert (excess app target machines = []) as Hex.
  { apply filter_none, List.Forall_forall. intros m Hm%list_elem_of_In (Hd & Hge & _).
    assert (ReplicaOrdinal m ∈ map ReplicaOrdinal (of_deployment (d_ID target) machines)) as Hin.
    { apply list_elem_of_fmap. exists m. split; [done|]. by apply list_elem_of_filter. }
    apply Hord in Hin. lia. }
  destruct (create_missing_all sr app target (ordinals_from k (rolling_round (DesiredReplicas app) k)))
    as (outs & Hc & Ho & Hd).
  { intros i Hi%elem_of_ordinals_from; [|lia]. unfold rolling_round in Hi. apply Hcreate. lia. }
  exists outs. unfold reconcileApp. rewrite Hdel, Htgt, Hms, Hrl, Hlim, Hmiss, Hc, Hex, app_nil_r.
  split_and!; [done..|]. rewrite rolling_rounds by lia. lia.
Qed.

(** ** Concrete histories *)

Module Witness.
Definition app : App := mkApp "a1" "p1" "web.example" 1 1 false.
Definition config : Config := mkConfig 0 0 0 None fzero 0 "" fzero fzero (fun _ => Err (errors_New "no prometheus")).
Definition dep1 := mkDeployment "d1" "a1" 1 "ACTIVE" "bluegreen" "img@sha256:1".
Definition dep2 := mkDeployment "d2" "a1" 2 "PENDING" "rolling" "img@sha256:2".
Definition dep3 := mkDeployment "d3" "a1" 3 "PENDING" "rolling" "img@sha256:3".
Definition machine (id dep : string) (ordinal generation : Z) : Machine :=
  mkMachine id "a1" dep ordinal "RUNNING" ("exec-" +:+ id +:+ "-00000000")%string generation "RUNNING" "READY".
Definition m1 := machine "a1-r0-g1" "d1" 0 1.
Definition m2 := machine "a1-r0-g2" "d2" 0 2.
Definition reads (deps : list Deployment) (ms : list Machine) : Reads :=
  mkReads (Ok deps) (Ok deps) (Ok ms) (fun _ => Err (errors_New "no rows")) (fun _ => Ok 0) (fun _ => "fresh"%string).
Definition rollout (id : string) (from to_ : Z) (approval : bool) : Rollout :=
  mkRollout id "a1" from to_ PREPARING None None 0 0 approval "" None.
Definition now0 : Z := 10 ^ 18.

(** A deployment that requires approval, listed, paused, approved. *)
Definition init : DB := mkDB ∅ [] ∅ {["a1"%string := app]}.
Definition st1 : Sys := mkSys (DeployApp Done now0 dep2 (rollout "r1" 1 2 true) 2 init).1 ∅.
Definition st2 : Sys := mkSys (db st1) (active (db st1)).
Definition row2 : Rollout := new_rollout now0 (rollout "r1" 1 2 true).
Definition st3 : Sys :=
  mkSys (pass_db (reconcileRollout config (now0 + Second) (reads [dep2] [m2]) Done app row2 ∅ (db st2)))
    (delete "a1"%string (listed st2)).
Definition row3 : Rollout := set_status PAUSED_FOR_APPROVAL row2.
Definition st4 : Sys :=
  mkSys (approveRollout (Ok (Some (Some row3))) Done (now0 + 2 * Second) 0 "alice" (db st3)).1 (listed st3).
Definition row4 : Rollout := approved (now0 + 2 * Second) "alice" (cut_over (now0 + 2 * Second) (now0 + 32 * Second) row3).

Lemma fresh_init : fresh_db init.
Proof. done. Qed.

Lemma reads_ok : reads_deployments (db st2) "a1" (reads [dep2] [m2]).
Proof. intros l [= <-]. repeat constructor. exists dep2. split; [vm_compute; reflexivity|done]. Qed.

Lemma reach3 : reachable init st3.
Proof.
  eapply reach_step; [eapply reach_step; [eapply reach_step; [apply reach_init|]|]|].
  - apply (s_deploy (mkSys init ∅) Done now0 dep2 (rollout "r1" 1 2 true) 2); reflexivity.
  - apply (s_list st1).
  - refine (s_tick st2 row2 config (now0 + Second) (reads [dep2] [m2]) Done app ∅ _ reads_ok). vm_compute. reflexivity.
Qed.

Lemma step34 : step st3 st4.
Proof. exact (s_approve st3 (Ok (Some (Some row3))) Done (now0 + 2 * Second) 0 "alice"). Qed.

Lemma reach4 : reachable init st4.
Proof. exact (reach_step init st3 st4 reach3 step34). Qed.

Lemma live_row : active (db st4) !! "a1"%string = Some row4.
Proof. vm_compute. reflexivity. Qed.

Lemma approval_never_bypassed_witness : reachable init st4 /\ gated (db st4) row4 /\ ApprovedBy row4 <> ""%string.
Proof.
  split; [exact reach4|]. assert (gated (db st4) row4) as Hg by (left; reflexivity). split; [exact Hg|].
  apply (approval_never_bypassed init st4 row4 fresh_init reach4 Hg). left. split; [exact live_row|reflexivity].
Defined.

Lemma rollout_lifecycle_witness : finished (db st3) `prefix_of` finished (db st4).
Proof.
  exact (proj1 (rollout_lifecycle init st3 st4 "a1" fresh_init reach3 step34)).
Defined.

(** With two leaders the gate does not hold: the pass of one that still has the row
    of an earlier rollout puts the new rollout, which requires approval, into CUTOVER. *)
Definition past0 : DB := mkDB ∅ [] {["d1"%string := dep1]} {["a1"%string := app]}.
Definition past1 : DB := (DeployApp Done now0 dep2 (rollout "r1" 1 2 false) 2 past0).1.
Definition old_row : Rollout := new_rollout now0 (rollout "r1" 1 2 false).
Definition past2 : DB := (rollbackApp (Ok (Some old_row)) Done "a1" past1).1.
Definition past3 : DB :=
  pass_db (reconcileRollout config (now0 + Second) (reads [dep1; dep2] [m1]) Done app (set_status ROLLING_BACK old_row) ∅ past2).
Definition past4 : DB := (DeployApp Done now0 dep3 (rollout "r2" 1 3 true) 3 past3).1.

Example two_leaders_bypass_approval :
  active past1 !! "a1"%string = Some old_row /\ active past3 !! "a1"%string = None /\
  exists r, active (pass_db (reconcileRollout config (now0 + Second) (reads [dep1; dep2] [m1; m2]) Done app old_row ∅ past4))
              !! "a1"%string = Some r /\
    r_ID r = "r2"%string /\ gated past4 r /\ Status r = CUTOVER /\ ApprovedBy r = ""%string.
Proof.
  split; [vm_compute; reflexivity|]. split; [vm_compute; reflexivity|].
  eexists. split; [vm_compute; reflexivity|]. split_and!; try reflexivity. by left.
Qed.

(** A rollout in CUTOVER after its drain deadline. *)
Definition cut_row : Rollout := cut_over now0 (now0 + 30 * Second) (rollout "r1" 1 2 false).
Definition cut_db : DB := mkDB {["a1"%string := cut_row]} [] {["d1"%string := dep1; "d2"%string := dep2]} {["a1"%string := app]}.
Definition later : Z := now0 + 60 * Second.
Definition both : Reads := reads [dep2; dep1] [m1; m2].

Lemma default_config : default_analysis config.
Proof. repeat split; vm_compute; reflexivity. Qed.

Lemma ordinals_ok : in_range_ordinals (of_deployment (d_ID dep2) [m1; m2]) (DesiredReplicas app).
Proof. repeat constructor; cbn; lia. Qed.

Lemma consistent_both : consistent_reads both.
Proof. intros l l' e e' [= <-] [= <-] H H'. each_elem H; each_elem H'; done. Qed.

Definition del : output := enqueueUserDelete (fresh_id both) m1 "rollout drain: recycle old generation".

Lemma deletes_leave_serving_witness :
  exists machines keep, read_machines both = Ok machines /\
    leaves_serving (reconcileRollout config later both Done app cut_row ∅ cut_db).1.2 machines (d_ID keep) 1.
Proof.
  destruct (deletes_leave_serving config later both Done app cut_row ∅ cut_db
    "op-del-a1-r0-g1-00000000" "a1-r0-g1" "exec-a1-r0-g1-00000000" 1 "rollout drain: recycle old generation")
    as (machines & keep & Hm & Hl & _); [discriminate|exact consistent_both|vm_compute; left|].
  exists machines, keep. split; [exact Hm|exact Hl].
Defined.

Lemma cutover_decides_witness :
  active (pass_db (reconcileRollout config later both Done app cut_row ∅ cut_db)) !! "a1"%string = None.
Proof.
  refine (proj1 (cutover_decides config later both app cut_row dep2 [m1; m2] (now0 + 30 * Second) ∅ cut_db
    default_config _ _ _ _ _ _ _ _ ordinals_ok _)); try reflexivity; vm_compute; discriminate || (split; discriminate).
Defined.

Lemma accepted_rollback_lost_witness :
  exists d', rollbackApp (Ok (Some cut_row)) Done "a1" cut_db = (d', Http 202).
Proof.
  destruct (accepted_rollback_lost config later both app cut_row dep2 [m1; m2] (now0 + 30 * Second) ∅ cut_db
    default_config) as (d' & H & _); try reflexivity; try exact ordinals_ok;
    [cbn; lia|vm_compute; discriminate|discriminate|exists d'; exact H].
Defined.

Lemma preparing_gives_up_witness :
  active (pass_db (reconcileRollout config (now0 + 301 * Second) both Done app old_row ∅ past1)) !! "a1"%string
  = Some (set_status ROLLING_BACK old_row).
Proof.
  apply (preparing_gives_up config (now0 + 301 * Second) both app old_row dep2 [m1; m2] ∅ past1); try reflexivity.
  right. left. vm_compute. reflexivity.
Defined.

(** Half of two replicas is enough for the analysis and not for the completion. *)
Definition half : Config := mkConfig 0 0 0 None (fdiv (fof_Z 1) (fof_Z 2)) 0 "" fzero fzero (fun _ => Err (errors_New "")).
Definition app2 : App := mkApp "a1" "p1" "web.example" 2 1 false.

Lemma lenient_ratio_stalls_witness : reconcileRollout half later both Done app2 cut_row ∅ cut_db = ((∅, cut_db), [], Ok tt).
Proof.
  apply (lenient_ratio_stalls half later both app2 cut_row dep2 [m1; m2] (now0 + 30 * Second) ∅ cut_db Done);
    try reflexivity. vm_compute. discriminate.
Defined.

(** Seven replicas, two of the new generation serving. *)
Definition app7 : App := mkApp "a1" "p1" "web.example" 7 1 false.
Definition m3 := machine "a1-r1-g2" "d2" 1 2.
Definition scale : ScaleReads :=
  mkScaleReads (Ok (Some old_row)) (Ok [dep2; dep1]) (Ok [m1; m2; m3]) (Ok (Some old_row)) (fun _ => Ok None)
    (fun _ => "01234567"%string) (fun _ => None) (fun _ => "fresh"%string).

Lemma scale_serving : Forall (fun m => machineServing m = true) (of_deployment (d_ID dep2) [m1; m2; m3]).
Proof. vm_compute. repeat constructor. Qed.

Lemma scale_ordinals i : i ∈ map ReplicaOrdinal (of_deployment (d_ID dep2) [m1; m2; m3]) <-> 0 <= i < 2.
Proof.
  replace (map _ _) with [0; 1] by (vm_compute; reflexivity). rewrite !elem_of_cons, elem_of_nil. lia.
Qed.

Lemma scale_creates i : 0 <= i < 7 ->
  (8 <= String.length (create_execution scale (machine_id app7 i (d_Generation dep2)) i))%nat /\ create_error scale i = None.
Proof.
  intros _. split; [|reflexivity].
  change (create_execution _ _ _) with "exec-01234567"%string. vm_compute. lia.
Qed.

Lemma rolling_batches_witness :
  exists outs, reconcileApp scale app7 = (outs, true, Ok tt) /\ created_ordinals outs = [2].
Proof.
  destruct (rolling_batches scale app7 old_row dep2 [m1; m2; m3] 2 eq_refl eq_refl eq_refl eq_refl eq_refl eq_refl eq_refl
    ltac:(change (0 <= 2 <= 7); lia) scale_serving scale_ordinals scale_creates) as (outs & H & Ho & _).
  exists outs. split; [exact H|exact Ho].
Defined.
End Witness.
