(* ===== verification/AppCommand.v ===== *)
(** * Deployment commands (appcommand/command.go) and the machine they create
    (enqueueAppMachineCreate of controller/apps.go)

    From an intent of the API to the next immutable deployment, to the rollout in
    the database ([Rollouts.DeployApp]), to the request the controller sends to
    an agent ([AgentContract]). The protojson encodings are a parameter. *)
From S2P Require Import Prelude GoString GoNet RoutePublisher AgentContract Rollouts.
From Stdlib Require Import Ascii.
Local Open Scope string_scope.
Local Open Scope Z_scope.
Local Open Scope go_scope.

(** ** Data *)

Definition ErrAppNotFound : goerr := errors_New "app not found".
Definition ErrNoActiveDeployment : goerr := errors_New "no active deployment".
Definition ErrInvalidIntent : goerr := errors_New "invalid deployment intent".
Definition ErrInvalidActiveDeployment : goerr := errors_New "invalid active deployment".
Definition ErrBusy : goerr := errors_New "rollout already in progress for this app".

(** The service of an intent and of a deployment row. *)
Record Service := mkSvc { sv_Name : string; sv_InternalPort : Z; sv_MeshDirect : bool }.
Record HealthCheck := mkHealth {
  hc_Type : string; hc_Target : string; hc_IntervalSeconds : Z; hc_TimeoutSeconds : Z; hc_UnhealthyThreshold : Z }.
Record AutoStandby := mkStandby { as_Enabled : bool; as_IdleTimeoutSeconds : Z; as_IgnoreDestinationPorts : list Z }.
Record EgressPolicy := mkEgress {
  ep_Mode : string; ep_AllowedCIDRs : list string; ep_DeniedCIDRs : list string; ep_AllowedDomains : list string;
  ep_MaxTCPConnections : Z; ep_AuditAll : bool }.
Record SecretRef := mkRef { Secret : string; Version : option Z }.

(** The messages behind the stored JSON. *)
Record HealthCheckSpec := mkHealthSpec {
  hs_Type : Z; hs_Target : string; hs_IntervalSeconds : Z; hs_TimeoutSeconds : Z; hs_UnhealthyThreshold : Z }.
Record PlacementConstraints := mkPlacement { NodePool : string; Labels : gmap string string; AntiAffinity : Z }.

Record Intent := mkIntent {
  in_AppID : string; in_ProjectID : string; in_Image : string; in_VCPU : Z; in_MemMIB : Z; in_Port : Z;
  in_Services : option (list Service); in_Strategy : string; in_Env : option (gmap string string);
  in_NodePool : string; in_Labels : gmap string string; in_AntiAffinity : string;
  in_HealthCheck : option HealthCheck; in_SecretRefs : option (gmap string SecretRef);
  in_AutoStandby : option AutoStandby; in_Egress : option EgressPolicy;
  InheritAll : bool; ReadActiveFirst : bool; in_CanaryWeight : Z; in_ApprovalRequired : bool }.

Record Result := mkResult {
  rs_AppID : string; rs_DeploymentID : string; rs_Generation : Z; rs_RolloutID : string; rs_Status : string }.

Definition SecretOneShotV1 := "secret.oneshot.v1".
Definition MeshEastWestV1 := "mesh.eastwest.v1".
Definition NetworkEbpfV1 := "network.ebpf.v1".

(** [strings.ToUpper]. *)
Definition upper_byte (c : ascii) : ascii := if in_range "a" "z" c then ascii_of_nat (nat_of_ascii c - 32) else c.
Definition to_upper (unicode_upper : string -> string) (s : string) : string :=
  if sforall is_ascii s then smap upper_byte s else unicode_upper s.

(** protojson of the four messages; [c_null] is [len(raw) == 0 || string(raw) == "null"]. *)
Record Codec (json : Type) := mkCodec {
  c_null : json -> bool;
  enc_egress : EgressPolicySpec -> res json; dec_egress : json -> res EgressPolicySpec;
  enc_standby : AutoStandby -> res json; dec_standby : json -> res AutoStandby;
  enc_health : HealthCheckSpec -> res json; dec_health : json -> res HealthCheckSpec;
  enc_placement : PlacementConstraints -> res json; dec_placement : json -> res PlacementConstraints }.
Arguments c_null {json}.
Arguments enc_egress {json}.
Arguments dec_egress {json}.
Arguments enc_standby {json}.
Arguments dec_standby {json}.
Arguments enc_health {json}.
Arguments dec_health {json}.
Arguments enc_placement {json}.
Arguments dec_placement {json}.

Section command.
Context {json : Type} (codec : Codec json) (unicode_lower unicode_upper : string -> string).

(** A row of deployments; a nil RawMessage is [None]. *)
Record Dep := mkDep {
  dp_ID : string; dp_AppID : string; dp_Generation : Z; dp_ImageRef : string; dp_VCPU : Z; dp_MemMIB : Z; dp_Port : Z;
  dp_Env : option (gmap string string); dp_SecretRefs : option (gmap string SecretRef);
  dp_Placement : option json; dp_HealthCheck : option json; dp_Status : string;
  dp_AutoStandby : option json; dp_Services : list Service; dp_Strategy : string;
  dp_RequiredFeatures : list string; dp_EgressPolicy : option json }.

(** What the rollouts see of it. *)
Definition row (d : Dep) : Deployment :=
  mkDeployment (dp_ID d) (dp_AppID d) (dp_Generation d) (dp_Status d) (dp_Strategy d) (dp_ImageRef d).

(** A stored message that is there. *)
Definition present (raw : option json) : option json :=
  match raw with
  | Some j => if c_null codec j then None else Some j
  | None => None
  end.

Definition invalid (err : goerr) : goerr := Errorf "%w: %v" [AErr ErrInvalidIntent; AErr err].
Definition check {A} (m : res A) : res A := res_map_err invalid m.

(** ** Services and strategy *)

Fixpoint resolve_each (i : Z) (seenPort : list Z) (seenName : list string) (services : list Service) :
    res (list Service) :=
  match services with
  | [] => Ok []
  | svc :: services' =>
      let port := sv_InternalPort svc in
      let name := if String.eqb (sv_Name svc) "" then "svc-" +:+ itoa port else sv_Name svc in
      switch [((port <? 1) || (65535 <? port), Errorf "services[%d].internal_port must be in [1,65535]" [AInt i]);
              (bool_decide (port ∈ seenPort), Errorf "services[%d].internal_port %d duplicated" [AInt i; AInt port]);
              (bool_decide (name ∈ seenName), Errorf "services[%d].name %q duplicated" [AInt i; AStr name])] ;;;
      out <- resolve_each (i + 1) (port :: seenPort) (name :: seenName) services' ;;
      Ok (mkSvc name port (sv_MeshDirect svc) :: out)
  end.

Definition resolveServices (services : list Service) (port : Z) : res (list Service * Z) :=
  match services with
  | [] => if negb (port =? 0) && ((port <? 1) || (65535 <? port)) then Err (errors_New "port must be in [1,65535]")
          else Ok ([], port)
  | first :: _ =>
      if Nat.ltb 8 (length services) then Err (errors_New "services supports at most 8 entries in v1.1")
      else if negb (port =? 0) && negb (port =? sv_InternalPort first)
      then Err (Errorf "port conflicts with services[0].internal_port (%d)" [AInt (sv_InternalPort first)])
      else out <- resolve_each 0 [] [] services ;; Ok (out, sv_InternalPort first)
  end.

Definition resolveStrategy (strategy : string) : res string :=
  if String.eqb strategy "" || String.eqb strategy "bluegreen" then Ok "bluegreen"
  else if String.eqb strategy "rolling" then Ok "rolling"
  else Err (errors_New "strategy must be bluegreen or rolling").

(** ** Policies *)

Definition enc_some {M} (enc : M -> res json) (m : M) : res (option json) := raw <- enc m ;; Ok (Some raw).

Definition marshalHealthCheck (check : option HealthCheck) : res (option json) :=
  match check with
  | None => Ok None
  | Some hc =>
      let typ := to_upper unicode_upper (hc_Type hc) in
      let spec t := enc_some (enc_health codec) (mkHealthSpec t (hc_Target hc) (hc_IntervalSeconds hc) (hc_TimeoutSeconds hc)
                                                (hc_UnhealthyThreshold hc)) in
      if String.eqb typ "HTTP" then spec 1
      else if String.eqb typ "TCP" then spec 2
      else if String.eqb typ "" then Ok None
      else Err (errors_New "health_check.type must be http or tcp")
  end.

Definition marshalPlacement (nodePool : string) (labels : gmap string string) (antiAffinity : string) : res (option json) :=
  let aa := if String.eqb antiAffinity "DEPLOYMENT" then 2 else 1 in
  enc_some (enc_placement codec) (mkPlacement nodePool labels aa).

Definition bad_port (p : Z) : bool := (p =? 0) || (65535 <? p).

Definition marshalAutoStandby (policy : option AutoStandby) : res (option json) :=
  match policy with
  | None => Ok None
  | Some p =>
      if negb (as_Enabled p) then Ok None
      else if as_IdleTimeoutSeconds p <? 5
      then Err (errors_New "auto_standby.idle_timeout_seconds must be >= 5 when enabled")
      else
        check_all (fun _ port => if bad_port port
          then Err (Errorf "auto_standby.ignore_destination_ports entry %d out of range" [AInt port]) else Ok tt)
          (as_IgnoreDestinationPorts p) ;;;
        enc_some (enc_standby codec) (mkStandby true (as_IdleTimeoutSeconds p) (as_IgnoreDestinationPorts p))
  end.

Definition resolveAutoStandby (policy : option AutoStandby) (raw : option json) (strict : bool) :
    res (option json * option AutoStandby) :=
  match policy with
  | Some p => encoded <- check (marshalAutoStandby (Some p)) ;; Ok (encoded, Some p)
  | None =>
      match present raw with
      | None => Ok (None, None)
      | Some j =>
          match dec_standby codec j with
          | Err err => if strict then Err (Errorf "%w: decode active auto_standby: %v" [AErr ErrInvalidActiveDeployment; AErr err])
                       else Ok (None, None)
          | Ok inherited => Ok (Some j, Some inherited)
          end
      end
  end.

(** The name protobuf gives a mode, in the lower case the API uses. *)
Definition mode_name (m : Z) : string :=
  if m =? MODE_UNSPECIFIED then "unspecified" else if m =? UNRESTRICTED then "unrestricted"
  else if m =? DENY_ALL then "deny_all" else if m =? ALLOWLIST then "allowlist" else itoa m.

Definition resolveEgress (policy : option EgressPolicy) (raw : option json) : res (option EgressPolicy) :=
  match policy, present raw with
  | Some p, _ => Ok (Some p)
  | None, None => Ok None
  | None, Some j =>
      let bad := Errorf "%w: active deployment has invalid egress policy" [AErr ErrInvalidActiveDeployment] in
      match dec_egress codec j with
      | Err _ => Err bad
      | Ok s =>
          match ValidateEgressPolicy unicode_lower (Some s) with
          | Err _ => Err bad
          | Ok _ => Ok (Some (mkEgress (mode_name (Mode s)) (AllowedCidrs s) (DeniedCidrs s) (AllowedDomains s)
                                       (MaxTcpConnections s) (AuditAll s)))
          end
      end
  end.

Definition egress_mode (mode : string) : option Z :=
  let m := to_lower unicode_lower mode in
  if String.eqb m "" || String.eqb m "unrestricted" then Some UNRESTRICTED
  else if String.eqb m "deny_all" then Some DENY_ALL
  else if String.eqb m "allowlist" then Some ALLOWLIST
  else None.

Fixpoint normalize_domains (domains : list string) : res (list string) :=
  match domains with
  | [] => Ok []
  | d :: domains' =>
      n <- NormalizeEgressDomain unicode_lower d ;;
      ns <- normalize_domains domains' ;;
      Ok (n :: ns)
  end.

(** marshalEgress up to the message it encodes. *)
Definition egress_spec (p : EgressPolicy) (generation : Z) (strict : bool) : res EgressPolicySpec :=
  match egress_mode (ep_Mode p) with
  | None => Err (errors_New "egress.mode must be unrestricted, deny_all or allowlist")
  | Some mode =>
      if 65535 <? ep_MaxTCPConnections p then Err (errors_New "egress.max_tcp_connections must be <= 65535")
      else
        domains <- normalize_domains (ep_AllowedDomains p) ;;
        let spec := mkEgressPolicySpec mode (ep_AllowedCIDRs p) (ep_DeniedCIDRs p) domains (ep_MaxTCPConnections p)
                      (u64 generation) (ep_AuditAll p) in
        (if strict then ValidateEgressPolicySubmission unicode_lower (Some spec)
         else ValidateEgressPolicy unicode_lower (Some spec)) ;;;
        Ok spec
  end.

Definition marshalEgress (policy : option EgressPolicy) (generation : Z) (strict : bool) : res (option json) :=
  match policy with
  | None => Ok None
  | Some p => spec <- egress_spec p generation strict ;; enc_some (enc_egress codec) spec
  end.

Definition MeshDirectFeatures (services : list Service) : list string :=
  if existsb sv_MeshDirect services then [MeshEastWestV1; NetworkEbpfV1] else [].

Definition refs_of (refs : option (gmap string SecretRef)) : gmap string SecretRef := from_option id ∅ refs.

Definition requiredFeatures (refs : option (gmap string SecretRef)) (services : list Service) : list string :=
  (if Nat.ltb 0 (size (refs_of refs)) then [SecretOneShotV1] else []) ++ MeshDirectFeatures services.

(** ** prepare *)

(** The intent with what it leaves open taken from the active deployment. *)
Definition inherited_services (active : Dep) (i : Intent) : list Service * Z :=
  match in_Services i with
  | None => if in_Port i =? 0
            then if Nat.eqb (length (dp_Services active)) 0 then ([], dp_Port active) else (dp_Services active, 0)
            else ([], in_Port i)
  | Some services => (services, in_Port i)
  end.

Definition enabled (auto : option AutoStandby) : bool := match auto with Some p => as_Enabled p | None => false end.

Definition prepare (active : Dep) (i : Intent) (generation : Z) : res Dep :=
  if (in_VCPU i <? 0) || (in_MemMIB i <? 0) then Err (invalid (errors_New "vcpu and mem_mib must be >= 0"))
  else
    let vcpu := if in_VCPU i =? 0 then dp_VCPU active else in_VCPU i in
    let mem := if in_MemMIB i =? 0 then dp_MemMIB active else in_MemMIB i in
    let '(declared, declaredPort) := inherited_services active i in
    let env := match in_Env i with Some e => Some e | None => dp_Env active end in
    sp <- check (resolveServices declared declaredPort) ;;
    let '(services, port) := sp in
    let strategyInput := if InheritAll i && String.eqb (in_Strategy i) "" then EffectiveStrategy (row active)
                         else in_Strategy i in
    strategy <- check (resolveStrategy strategyInput) ;;
    healthCheck <- check (marshalHealthCheck (in_HealthCheck i)) ;;
    let healthCheck := match in_HealthCheck i, present (dp_HealthCheck active) with
                       | None, Some raw => Some raw
                       | _, _ => healthCheck
                       end in
    placement <- check (marshalPlacement (in_NodePool i) (in_Labels i) (in_AntiAffinity i)) ;;
    let placement := if InheritAll i then dp_Placement active else placement in
    au <- resolveAutoStandby (in_AutoStandby i) (dp_AutoStandby active) (InheritAll i) ;;
    let '(autoJSON, auto) := au in
    (if Nat.ltb 0 (size (refs_of (in_SecretRefs i))) && enabled auto
     then Err (invalid (errors_New
       "secret_refs cannot be combined with enabled auto_standby: secret executions forbid memory snapshots (ADR-0024)"))
     else Ok tt) ;;;
    egress <- resolveEgress (in_Egress i) (dp_EgressPolicy active) ;;
    egressJSON <- check (marshalEgress egress generation (bool_decide (is_Some (in_Egress i)))) ;;
    Ok (mkDep "" "" generation (in_Image i) vcpu mem port env (in_SecretRefs i) placement healthCheck "" autoJSON services
          strategy (requiredFeatures (in_SecretRefs i) services) egressJSON).

(** ** Execute *)

(** The loop over the references, in the order the map is ranged over. *)
Fixpoint check_refs (meta : SecretRef -> bool) (refs : list (string * SecretRef)) (out : gmap string SecretRef) :
    res (gmap string SecretRef) :=
  match refs with
  | [] => Ok out
  | (varName, ref) :: refs' =>
      if String.eqb varName "" then Err (Errorf "secret ref %q: var name is required" [AStr varName])
      else if String.eqb (Secret ref) "" && bool_decide (Version ref = None) then check_refs meta refs' out
      else if String.eqb (Secret ref) "" then Err (Errorf "secret ref %q: secret name is required" [AStr varName])
      else if negb (meta ref) then Err (Errorf "secret %q (ref %q) not found" [AStr (Secret ref); AStr varName])
      else check_refs meta refs' (<[varName := ref]> out)
  end.

(** What the command reads and draws: the application, its active deployment, the
    image validator, whether a secret exists, the order of the references, an id. *)
Record Env := mkEnv {
  GetApp : res (option App); ActiveDeploymentForApp : res (option Dep); Validate : string -> res string;
  GetSecretMeta : string -> SecretRef -> bool; range_refs : gmap string SecretRef -> list (string * SecretRef);
  newID : string }.

Definition with_image (i : Intent) (image : string) : Intent :=
  mkIntent (in_AppID i) (in_ProjectID i) image (in_VCPU i) (in_MemMIB i) (in_Port i) (in_Services i) (in_Strategy i)
    (in_Env i) (in_NodePool i) (in_Labels i) (in_AntiAffinity i) (in_HealthCheck i) (in_SecretRefs i) (in_AutoStandby i)
    (in_Egress i) (InheritAll i) (ReadActiveFirst i) (in_CanaryWeight i) (in_ApprovalRequired i).
Definition with_refs (i : Intent) (refs : option (gmap string SecretRef)) : Intent :=
  mkIntent (in_AppID i) (in_ProjectID i) (in_Image i) (in_VCPU i) (in_MemMIB i) (in_Port i) (in_Services i) (in_Strategy i)
    (in_Env i) (in_NodePool i) (in_Labels i) (in_AntiAffinity i) (in_HealthCheck i) refs (in_AutoStandby i)
    (in_Egress i) (InheritAll i) (ReadActiveFirst i) (in_CanaryWeight i) (in_ApprovalRequired i).

Definition read_active (env : Env) : res Dep :=
  r <- ActiveDeploymentForApp env ;; match r with Some d => Ok d | None => Err ErrNoActiveDeployment end.
Definition read_app (env : Env) : res App :=
  r <- GetApp env ;; match r with Some a => Ok a | None => Err ErrAppNotFound end.

(** The two reads, in the order the intent asks for. *)
Definition read_both (env : Env) (i : Intent) : res (App * Dep) :=
  if ReadActiveFirst i then d <- read_active env ;; a <- read_app env ;; Ok (a, d)
  else a <- read_app env ;; d <- read_active env ;; Ok (a, d).

Definition identified (app : App) (generation : Z) (d : Dep) : Dep :=
  mkDep ("dep-" +:+ a_ID app +:+ "-" +:+ itoa generation) (a_ID app) (dp_Generation d) (dp_ImageRef d) (dp_VCPU d)
    (dp_MemMIB d) (dp_Port d) (dp_Env d) (dp_SecretRefs d) (dp_Placement d) (dp_HealthCheck d) "PREPARING"
    (dp_AutoStandby d) (dp_Services d) (dp_Strategy d) (dp_RequiredFeatures d) (dp_EgressPolicy d).

(** Everything up to the transaction: the deployment and the rollout to store. *)
Definition planned (env : Env) (i : Intent) : res (App * Dep * Rollout) :=
  both <- read_both env i ;;
  let '(app, active) := both in
  image <- (if String.eqb (in_Image i) "" then Ok (dp_ImageRef active) else check (Validate env (in_Image i))) ;;
  let i := with_image i image in
  let refs := match in_SecretRefs i with Some r => Some r | None => dp_SecretRefs active end in
  refs <- check (check_refs (GetSecretMeta env (in_ProjectID i)) (range_refs env (refs_of refs)) ∅) ;;
  let i := with_refs i (Some refs) in
  let generation := a_Generation app + 1 in
  d <- prepare active i generation ;;
  let d := identified app generation d in
  if (in_CanaryWeight i <? 0) || (99 <? in_CanaryWeight i)
  then Err (invalid (errors_New "canary_weight must be in [0,99] (0 = canary weighting disabled)"))
  else if (0 <? in_CanaryWeight i) && negb (String.eqb (dp_Strategy d) "rolling")
  then Err (invalid (errors_New
    "canary_weight requires strategy=rolling (only rolling serves both generations during PREPARING)"))
  else
    Ok (app, d, mkRollout ("rollout-" +:+ newID env) (a_ID app) (dp_Generation active) generation PREPARING None None 0
                  (NormalizeCanaryWeight (in_CanaryWeight i)) (in_ApprovalRequired i) "" None).

Definition Execute (env : Env) (o : exec_outcome) (now : Z) (i : Intent) : cmd DB Result := fun db =>
  match planned env i with
  | Err err => (db, Err err)
  | Ok (app, d, r) =>
      match DeployApp o now (row d) r (dp_Generation d) db with
      | (db', Err err) => (db', Err (if errors_Is err Rollouts.ErrRolloutBusy then ErrBusy else err))
      | (db', Ok _) => (db', Ok (mkResult (a_ID app) (dp_ID d) (dp_Generation d) (r_ID r) "PREPARING"))
      end
  end.

(** ** The request of a replica (enqueueAppMachineCreate) *)

(** A decoded message; one that does not decode is left out. *)
Definition decoded {M} (dec : json -> res M) (raw : option json) : option M :=
  match present raw with
  | Some j => match dec j with Ok m => Some m | Err _ => None end
  | None => None
  end.

(** applyDeploymentSpecExtras: the services of the request and the ingress port, from the one it has. *)
Definition spec_extras (dep : Dep) (ingress : Z) : list Service * Z :=
  match dp_Services dep with
  | first :: _ :: _ =>
      (map (fun s => mkSvc (if String.eqb (sv_Name s) "" then "port-" +:+ itoa (sv_InternalPort s) else sv_Name s)
                           (uint32 (sv_InternalPort s)) (sv_MeshDirect s)) (dp_Services dep),
       u64 (sv_InternalPort first))
  | [s] => ([], if ingress =? 0 then u64 (sv_InternalPort s) else ingress)
  | [] => ([], ingress)
  end.
Definition spec_services (dep : Dep) : list Service * Z := spec_extras dep (u64 (dp_Port dep)).

(** The message with what the contract does not look at. *)
Record CreateSpec := mkCreateSpec {
  cs_spec : MachineSpec; cs_ReplicaOrdinal : Z; cs_Hostname : string; cs_Env : option (gmap string string);
  cs_Services : list Service; cs_Placement : option PlacementConstraints; cs_HealthCheck : option HealthCheckSpec;
  cs_AutoStandby : option AutoStandby }.

Definition egress_of (dep : Dep) : res (option EgressPolicySpec) :=
  match present (dp_EgressPolicy dep) with
  | None => Ok None
  | Some j =>
      match dec_egress codec j with
      | Err err => Err (wrap "decode deployment egress policy: %w" err)
      | Ok ep =>
          res_map_err (wrap "validate deployment egress policy: %w") (ValidateEgressPolicy unicode_lower (Some ep)) ;;;
          Ok (Some ep)
      end
  end.

Definition create_spec (app : App) (dep : Dep) (ordinal : Z) (executionID : string) : res CreateSpec :=
  let '(services, ingress) := spec_services dep in
  let auto := decoded (dec_standby codec) (dp_AutoStandby dep) in
  egress <- egress_of dep ;;
  Ok (mkCreateSpec
        (mkMachineSpec (a_ProjectID app) (a_ID app) (dp_ID dep) executionID (dp_ImageRef dep)
           (u64 (dp_VCPU dep)) (u64 (dp_MemMIB dep))
           (option_map (fun p => mkAutoStandby (as_Enabled p) (as_IdleTimeoutSeconds p)) auto)
           (map (fun s => mkService (sv_Name s) (sv_InternalPort s)) services) (Some (mkNetwork ingress egress None)))
        (uint32 ordinal) (a_Hostname app) (dp_Env dep) services
        (decoded (dec_placement codec) (dp_Placement dep)) (decoded (dec_health codec) (dp_HealthCheck dep)) auto).

(** The request; [None] is the slice bound panic of an execution id under eight bytes. *)
Definition create_request (app : App) (dep : Dep) (ordinal : Z) (executionID : string) : option (res CreateMachineRequest) :=
  match create_spec app dep ordinal executionID with
  | Err e => Some (Err e)
  | Ok spec =>
      let machineID := machine_id app ordinal (dp_Generation dep) in
      let n := String.length executionID in
      if Nat.ltb n 8 then None
      else Some (Ok (mkCreate machineID (Some (cs_spec spec)) (u64 (dp_Generation dep))
                       ("op-" +:+ machineID +:+ "-" +:+ sdrop (n - 8) executionID) ∅ ""))
  end.

(** ** Well-formed deployments *)

(** protojson decodes what it encodes, and no message is encoded as null. *)
Record codec_ok : Prop := {
  egress_rt : forall m raw, enc_egress codec m = Ok raw -> dec_egress codec raw = Ok m /\ c_null codec raw = false;
  standby_rt : forall m raw, enc_standby codec m = Ok raw -> dec_standby codec raw = Ok m /\ c_null codec raw = false }.

(** A policy as the command stores it. *)
Definition stored_egress_ok (s : EgressPolicySpec) : Prop :=
  ValidateEgressPolicy unicode_lower (Some s) = Ok tt /\ Forall normal_domain (AllowedDomains s) /\
  (Mode s = UNRESTRICTED \/ Mode s = DENY_ALL \/ Mode s = ALLOWLIST) /\ MaxTcpConnections s <= 65535.

Record dep_ok (d : Dep) : Prop := {
  ok_image : dp_ImageRef d <> "";
  ok_vcpu : 0 < dp_VCPU d < 2 ^ 63;
  ok_mem : 0 < dp_MemMIB d < 2 ^ 63;
  ok_services : (length (dp_Services d) <= 8)%nat /\ resolve_each 0 [] [] (dp_Services d) = Ok (dp_Services d);
  ok_port : 0 <= dp_Port d <= 65535 /\
    match dp_Services d with first :: _ => dp_Port d = sv_InternalPort first | [] => True end;
  ok_strategy : resolveStrategy (dp_Strategy d) = Ok (dp_Strategy d) /\ dp_Strategy d <> "";
  ok_standby : forall j, present (dp_AutoStandby d) = Some j ->
    exists p, dec_standby codec j = Ok p /\ (as_Enabled p = true -> 5 <= as_IdleTimeoutSeconds p);
  ok_exclusive : size (refs_of (dp_SecretRefs d)) <> 0%nat ->
    enabled (decoded (dec_standby codec) (dp_AutoStandby d)) = false;
  ok_features : dp_RequiredFeatures d = requiredFeatures (dp_SecretRefs d) (dp_Services d);
  ok_egress : forall j, present (dp_EgressPolicy d) = Some j ->
    exists s, dec_egress codec j = Ok s /\ stored_egress_ok s }.

(** The fields of an intent that have a Go type narrower than Z. *)
Definition intent_typed (i : Intent) : Prop := in_VCPU i < 2 ^ 63 /\ in_MemMIB i < 2 ^ 63.

(** ** Services *)

Lemma res_bind_inv {A B} (m : res A) (f : A -> res B) b : (x <- m ;; f x) = Ok b -> exists a, m = Ok a /\ f a = Ok b.
Proof. apply res_bind_ok. Qed.

Lemma check_inv {A} (m : res A) a : check m = Ok a -> m = Ok a.
Proof. apply res_map_err_ok. Qed.

Ltac binds H := let x := fresh "x" in let E := fresh "E" in apply res_bind_inv in H as (x & E & H);
  try match type of x with unit => destruct x end.

Lemma resolve_each_inv i sp sn s l out :
  resolve_each i sp sn (s :: l) = Ok out ->
  exists name out', out = mkSvc name (sv_InternalPort s) (sv_MeshDirect s) :: out' /\ name <> "" /\
    1 <= sv_InternalPort s <= 65535 /\ sv_InternalPort s ∉ sp /\ name ∉ sn /\
    resolve_each (i + 1) (sv_InternalPort s :: sp) (name :: sn) l = Ok out'.
Proof.
  cbn [resolve_each]. intros H. binds H. binds H. injection H as <-.
  apply switch_ok in E. rewrite !Forall_cons in E. cbn in E. destruct E as (Hp & Hsp & Hsn & _). bool_to_prop.
  eexists _, _. split; [done|]. split_and!; try done; try lia.
  destruct (String.eqb_spec (sv_Name s) ""); [|done]. rewrite append_cons. discriminate.
Qed.

Lemma resolve_each_fixed i sp sn l out : resolve_each i sp sn l = Ok out -> forall j, resolve_each j sp sn out = Ok out.
Proof.
  revert i sp sn out. induction l as [|s l IH]; intros i sp sn out; [by intros [= <-]|].
  intros (name & out' & -> & Hne & Hp & Hsp & Hsn & H)%resolve_each_inv j. cbn [resolve_each sv_InternalPort sv_Name sv_MeshDirect].
  rewrite (proj2 (String.eqb_neq _ _) Hne), (proj2 (Z.ltb_ge _ _) (proj1 Hp)), (proj2 (Z.ltb_ge _ _) (proj2 Hp)),
    !bool_decide_false by done. cbn. by rewrite (IH _ _ _ _ H).
Qed.

Lemma resolve_each_length i sp sn l out : resolve_each i sp sn l = Ok out -> length out = length l.
Proof.
  revert i sp sn out. induction l as [|s l IH]; intros i sp sn out; [by intros [= <-]|].
  intros (name & out' & -> & _ & _ & _ & _ & H)%resolve_each_inv. cbn. by rewrite (IH _ _ _ _ H).
Qed.

Lemma resolve_each_ports i sp sn l out :
  resolve_each i sp sn l = Ok out -> Forall (fun s => 1 <= sv_InternalPort s <= 65535 /\ sv_Name s <> "") out.
Proof.
  revert i sp sn out. induction l as [|s l IH]; intros i sp sn out; [by intros [= <-]|].
  intros (name & out' & -> & Hne & Hp & _ & _ & H)%resolve_each_inv. constructor; [done|by eapply IH].
Qed.

Definition contract_service (s : Service) : ServiceSpec := mkService (sv_Name s) (sv_InternalPort s).

(** What the command resolves the agent accepts. *)
Lemma resolve_each_checked i sp sn l out :
  resolve_each i sp sn l = Ok out -> forall j, check_services j sn sp (map contract_service out) = Ok tt.
Proof.
  revert i sp sn out. induction l as [|s l IH]; intros i sp sn out; [by intros [= <-]|].
  intros (name & out' & -> & Hne & Hp & Hsp & Hsn & H)%resolve_each_inv j. cbn [map check_services contract_service SName InternalPort sv_Name sv_InternalPort].
  apply res_bind_ok. exists tt. split; [|by eapply IH]. apply switch_ok. rewrite !Forall_cons. cbn.
  unfold is_empty, checkPortRange. rewrite (proj2 (String.eqb_neq _ _) Hne), !bool_decide_false by done.
  rewrite (proj2 (Z.eqb_neq (sv_InternalPort s) 0)), (proj2 (Z.leb_le (sv_InternalPort s) 65535)) by lia. done.
Qed.

Lemma resolveServices_ok l port out p :
  resolveServices l port = Ok (out, p) ->
  (length out <= 8)%nat /\ resolve_each 0 [] [] out = Ok out /\ 0 <= p <= 65535 /\
  match out with first :: _ => p = sv_InternalPort first | [] => True end.
Proof.
  destruct l as [|s l]; cbn [resolveServices].
  - destruct (_ && _) eqn:Hb; [done|]. intros [= <- <-]. split_and!; try done; bool_to_prop;
      destruct Hb as [Hb|Hb]; bool_to_prop; cbn; lia.
  - destruct (Nat.ltb 8 (length (s :: l))) eqn:Hl; [done|]. destruct (_ && _); [done|].
    intros H. binds H. injection H as <- <-. pose proof (resolve_each_length _ _ _ _ _ E) as Hlen.
    pose proof (resolve_each_fixed _ _ _ _ _ E 0) as Hfix. apply resolve_each_inv in E as (n & o & -> & _ & Hp & _).
    apply Nat.ltb_ge in Hl. split_and!; [by rewrite Hlen|done|lia..|done].
Qed.

(** ** Policies *)

Lemma present_idem x : present (present x) = present x.
Proof. destruct x as [j|]; [|done]. cbn. destruct (c_null codec j) eqn:H; [done|]. cbn. by rewrite H. Qed.

Lemma marshalAutoStandby_ok (Hc : codec_ok) p raw j :
  marshalAutoStandby (Some p) = Ok raw -> present raw = Some j ->
  as_Enabled p = true /\ exists q, dec_standby codec j = Ok q /\ as_Enabled q = true /\ 5 <= as_IdleTimeoutSeconds q.
Proof.
  cbn. destruct (as_Enabled p) eqn:He; cbn; [|by intros [= <-]].
  destruct (Z.ltb_spec (as_IdleTimeoutSeconds p) 5) as [|Hi]; [done|]. intros H. binds H. binds H. injection H as <-.
  destruct (standby_rt Hc _ _ E0) as [Hd Hn]. cbn. rewrite Hn. intros [= <-]. split; [done|]. eexists. split; [exact Hd|done].
Qed.

Definition standby_fine (raw : option json) : Prop := forall j, present raw = Some j ->
  exists p, dec_standby codec j = Ok p /\ (as_Enabled p = true -> 5 <= as_IdleTimeoutSeconds p).

Lemma resolveAutoStandby_ok (Hc : codec_ok) policy raw strict out auto :
  resolveAutoStandby policy raw strict = Ok (out, auto) -> standby_fine raw ->
  standby_fine out /\ (enabled auto = false -> enabled (decoded (dec_standby codec) out) = false).
Proof.
  intros H Hraw. destruct policy as [p|]; cbn in H.
  - binds H. injection H as <- <-. apply check_inv in E.
    assert (forall j, present x = Some j -> as_Enabled p = true /\
      exists q, dec_standby codec j = Ok q /\ as_Enabled q = true /\ 5 <= as_IdleTimeoutSeconds q) as Hx
      by (intros; by eapply marshalAutoStandby_ok).
    split.
    + intros j Hj. destruct (Hx j Hj) as (_ & q & Hq & _ & Hi). eauto.
    + cbn. intros He. unfold decoded. destruct (present x) as [j|] eqn:Hj; [|done].
      destruct (Hx j eq_refl) as (Ht & _). congruence.
  - destruct (present raw) as [j|] eqn:Hj; [|by injection H as <- <-].
    destruct (Hraw j Hj) as (p & Hp & Hi). rewrite Hp in H. injection H as <- <-.
    assert (present (Some j) = Some j) as Hj' by (rewrite <- Hj; apply present_idem).
    split.
    + intros j' Hj0. rewrite Hj' in Hj0. simplify_eq. eauto.
    + cbn [enabled]. intros He. unfold decoded. rewrite Hj', Hp. done.
Qed.

Definition egress_fine (raw : option json) : Prop := forall j, present raw = Some j ->
  exists s, dec_egress codec j = Ok s /\ stored_egress_ok s.

Lemma normalize_domains_normal ds ns : normalize_domains ds = Ok ns -> Forall normal_domain ns.
Proof.
  revert ns. induction ds as [|d ds IH]; cbn; intros ns; [by intros [= <-]|].
  intros H. binds H. binds H. injection H as <-. constructor; [by eapply NormalizeEgressDomain_normal|by apply IH].
Qed.

Lemma normalize_domains_fixed ds : Forall normal_domain ds -> normalize_domains ds = Ok ds.
Proof. induction 1 as [|d ds Hd _ IH]; cbn; [done|]. by rewrite (normal_fixed unicode_lower d Hd), IH. Qed.

Lemma egress_spec_ok p gen strict s :
  egress_spec p gen strict = Ok s -> stored_egress_ok s /\ PolicyGeneration s = u64 gen.
Proof.
  unfold egress_spec. destruct (egress_mode (ep_Mode p)) as [m|] eqn:Hm; [|done].
  destruct (Z.ltb_spec 65535 (ep_MaxTCPConnections p)); [done|]. intros Hs. binds Hs. binds Hs. injection Hs as <-.
  split; [|done]. split_and!; cbn.
  - destruct strict; [|done]. unfold ValidateEgressPolicySubmission in E0. binds E0. done.
  - by eapply normalize_domains_normal.
  - unfold egress_mode in Hm. cbv zeta in Hm. repeat case_match; simplify_eq; auto.
  - lia.
Qed.

Lemma marshalEgress_ok (Hc : codec_ok) p gen strict raw : marshalEgress p gen strict = Ok raw -> egress_fine raw.
Proof.
  intros H j Hj. destruct p as [p|]; cbn in H; [|by injection H as <-].
  binds H. unfold enc_some in H. binds H. injection H as <-.
  destruct (egress_rt Hc _ _ E0) as [Hd Hn]. cbn in Hj. rewrite Hn in Hj. simplify_eq.
  eexists. split; [exact Hd|]. by eapply egress_spec_ok.
Qed.

Lemma resolveStrategy_ok s t : resolveStrategy s = Ok t -> resolveStrategy t = Ok t /\ t <> "".
Proof. unfold resolveStrategy. repeat case_match; intros; simplify_eq; done. Qed.

Lemma prepare_ok active i generation d :
  codec_ok -> dep_ok active -> intent_typed i -> in_Image i <> "" ->
  prepare active i generation = Ok d -> dep_ok d /\ dp_Generation d = generation.
Proof.
  intros Hc [Himg Hcpu Hmem Hsvc Hport Hstr Hsb Hex Hft Heg] [Ht1 Ht2] Hi. unfold prepare.
  destruct (_ || _) eqn:Hneg; [done|]. apply orb_false_iff in Hneg as [Hn1%Z.ltb_ge Hn2%Z.ltb_ge].
  destruct (inherited_services active i) as [decl dport].
  intros H. binds H. destruct x as [services port]. binds H. binds H. binds H. binds H. destruct x2 as [autoJSON auto].
  binds H. binds H. binds H. injection H as <-.
  apply check_inv in E. apply resolveServices_ok in E as (Hlen & Hfix & Hp1 & Hp2).
  apply check_inv in E0. apply resolveStrategy_ok in E0.
  apply resolveAutoStandby_ok in E3 as [Hs1 Hs2]; [|done..].
  apply check_inv in E6. apply marshalEgress_ok in E6; [|done].
  split; [|done]. split; cbn; try done.
  - destruct (Z.eqb_spec (in_VCPU i) 0); [done|]. split; [lia|exact Ht1].
  - destruct (Z.eqb_spec (in_MemMIB i) 0); [done|]. split; [lia|exact Ht2].
  - intros Hsz. apply Hs2. destruct (enabled auto); [|done].
    replace (Nat.ltb 0 (size (refs_of (in_SecretRefs i)))) with true in E4; [done|].
    symmetry. apply Nat.ltb_lt, Nat.neq_0_lt_0. exact Hsz.
Qed.

(** C23. Deployments stay well-formed: whatever intent is submitted, the deployment
    prepared from a well-formed active one has at most eight services with distinct
    names and ports in range, a main port that is the first service's, positive
    resources, policies that decode and validate, no secrets next to an enabled
    auto-standby, and exactly the features its secrets and services need. *)
Theorem prepare_wellformed active i generation d :
  codec_ok -> dep_ok active -> intent_typed i -> in_Image i <> "" ->
  prepare active i generation = Ok d -> dep_ok d /\ dp_Generation d = generation.
Proof. exact (prepare_ok active i generation d). Qed.

(** ** The agent accepts it *)

Lemma u64_id z : 0 <= z < 2 ^ 64 -> u64 z = z.
Proof. intros. by apply Z.mod_small. Qed.

Lemma uint32_id z : 0 <= z < 2 ^ 32 -> uint32 z = z.
Proof. intros. by apply Z.mod_small. Qed.

Lemma egress_of_ok d : egress_fine (dp_EgressPolicy d) ->
  exists ep, egress_of d = Ok ep /\ ValidateEgressPolicy unicode_lower ep = Ok tt.
Proof.
  unfold egress_of. intros H. destruct (present (dp_EgressPolicy d)) as [j|] eqn:Hj; [|by exists None].
  destruct (H j Hj) as (s & -> & Hv & _). rewrite Hv. by exists (Some s).
Qed.

(** The services of a request: what the deployment declares, when it is more than one. *)
Lemma spec_services_ok d services ingress :
  dep_ok d -> spec_services d = (services, ingress) ->
  services = [] \/
  (services = dp_Services d /\ exists first rest, services = first :: rest /\ uint32 ingress = sv_InternalPort first).
Proof.
  intros [_ _ _ [_ Hres] _ _ _ _ _ _]. unfold spec_services, spec_extras. pose proof (resolve_each_ports _ _ _ _ _ Hres) as Hps.
  destruct (dp_Services d) as [|s [|s2 l]] eqn:Hd; [intros [= <- <-]; by left..|]. intros [= <- <-]. right.
  assert (forall l', Forall (fun s => 1 <= sv_InternalPort s <= 65535 /\ sv_Name s <> "") l' ->
    map (fun s => mkSvc (if String.eqb (sv_Name s) "" then "port-" +:+ itoa (sv_InternalPort s) else sv_Name s)
                    (uint32 (sv_InternalPort s)) (sv_MeshDirect s)) l' = l') as Hmap.
  { induction 1 as [|x l' [Hx Hn] _ IH]; cbn; [done|]. rewrite IH, uint32_id by lia.
    rewrite (proj2 (String.eqb_neq _ _) Hn). by destruct x. }
  change (_ :: _ :: map _ _) with (map (fun s => mkSvc (if String.eqb (sv_Name s) "" then "port-" +:+ itoa (sv_InternalPort s)
    else sv_Name s) (uint32 (sv_InternalPort s)) (sv_MeshDirect s)) (s :: s2 :: l)). rewrite Hmap by done.
  split; [done|]. apply Forall_cons in Hps as [[Hp _] _]. eexists _, _. split; [done|].
  rewrite u64_id, uint32_id by lia. done.
Qed.

Lemma app_nonempty_r s t : t <> "" -> s +:+ t <> "".
Proof. destruct s; [done|]. rewrite append_cons. discriminate. Qed.

Ltac passes := apply switch_ok; rewrite ?Forall_cons, ?Forall_nil; cbn [fst]; split_and!.

(** The two parts of the contract that look into the stored policies. *)
Lemma standby_passes d : standby_fine (dp_AutoStandby d) ->
  match option_map (fun p => mkAutoStandby (as_Enabled p) (as_IdleTimeoutSeconds p))
          (decoded (dec_standby codec) (dp_AutoStandby d)) with
  | Some a => switch [(Enabled a && (IdleTimeoutSeconds a =? 0),
                       e "spec.auto_standby.idle_timeout_seconds must be > 0 when enabled")]
  | None => Ok tt
  end = Ok tt.
Proof.
  intros H. unfold decoded. destruct (present (dp_AutoStandby d)) as [j|] eqn:Hj; [|done].
  destruct (H j Hj) as (p & -> & Hp). cbn [option_map]. passes; [|done]. cbn.
  destruct (as_Enabled p); [|done]. apply Z.eqb_neq. specialize (Hp eq_refl). lia.
Qed.

Lemma services_pass d services ingress :
  dep_ok d -> spec_services d = (services, ingress) ->
  match map contract_service services with
  | [] => Ok tt
  | first :: _ =>
      switch [(Nat.ltb 8 (length (map contract_service services)), e "spec.services supports at most 8 entries in v1.1")] ;;;
      switch [(negb (InternalPort first =? uint32 ingress),
               e "spec.services[0].internal_port must equal spec.network.ingress_port")] ;;;
      check_services 0 [] [] (map contract_service services)
  end = Ok tt.
Proof.
  intros Hok Hs. pose proof (ok_services _ Hok) as [Hlen Hres].
  destruct (spec_services_ok d services ingress Hok Hs) as [->|(-> & first & rest & Heq & Hport)]; [done|].
  rewrite (resolve_each_checked _ _ _ _ _ Hres), length_map, (proj2 (Nat.ltb_ge _ _) Hlen), Heq. cbn [map contract_service InternalPort].
  by rewrite Hport, Z.eqb_refl.
Qed.

(** What is well-formed the agent accepts: for every well-formed deployment with
    its row identifiers, every replica ordinal and every execution, the request the
    controller builds passes the whole create contract of the agent - fencing keys,
    resources, services against the ingress port, and the egress policy decoded again. *)
Lemma deployment_creatable app d ordinal executionID :
  dep_ok d -> dp_ID d <> "" -> a_ID app <> "" -> a_ProjectID app <> "" -> (8 <= String.length executionID)%nat ->
  0 < dp_Generation d < 2 ^ 63 ->
  exists req, create_request app d ordinal executionID = Some (Ok req) /\
    ValidateCreateRequest unicode_lower (Some req) = Ok tt.
Proof.
  intros Hok Hid Happ Hproj Hlong Hgen. unfold create_request, create_spec.
  assert (Hex : executionID <> "") by (intros ->; cbn in Hlong; lia).
  destruct (spec_services d) as [services ingress] eqn:Hsvc. pose proof (services_pass d services ingress Hok Hsvc) as Hpass.
  destruct Hok as [Himg Hcpu Hmem [Hlen Hres] Hport Hstr Hsb Hexcl Hft Heg].
  destruct (egress_of_ok d Heg) as (ep & -> & Hep). cbn [res_bind]. rewrite (proj2 (Nat.ltb_ge _ _) Hlong). eexists. split; [reflexivity|].
  unfold ValidateCreateRequest, requires. cbn [CMachineId Spec CGeneration COperationId SecretEnv SecretLeaseId cs_spec from_option ExecutionId].
  assert (ValidateFencing (machine_id app ordinal (dp_Generation d)) executionID (u64 (dp_Generation d))
    ("op-" +:+ machine_id app ordinal (dp_Generation d) +:+ "-" +:+ sdrop (String.length executionID - 8) executionID) = Ok tt)
    as ->.
  { passes; [|by apply is_empty_false|apply Z.eqb_neq; rewrite u64_id; lia|rewrite append_cons; done|done].
    apply is_empty_false. unfold machine_id.
    destruct (a_ID app); [done|]. rewrite append_cons. discriminate. }
  cbn [res_map_err res_bind]. unfold ValidateMachineSpecForCreate.
  cbn [ProjectId AppId DeploymentId ExecutionId ImageRef Vcpu MemMib AgentContract.AutoStandby Services Network Egress Eastwest IngressPort
       from_option Rules].
  assert (forall k, switch [(negb (Nat.eqb (size (∅ : gmap string string)) 0) && is_empty "", e k)] = Ok tt) as -> by done.
  cbn [res_bind]. rewrite (proj2 (switch_ok _)).
  2: { rewrite !Forall_cons, Forall_nil. cbn. rewrite !is_empty_false, !Z.eqb_neq, !u64_id by lia. split_and!; try done; lia. }
  cbn [res_bind]. rewrite standby_passes by done. cbn [res_bind].
  unfold contract_service in Hpass. rewrite Hpass. cbn [res_bind]. by rewrite Hep.
Qed.

(** ** The command *)

Lemma planned_inv env i app d r :
  planned env i = Ok (app, d, r) ->
  exists active image refs d0, read_both env i = Ok (app, active) /\
    (in_Image i = "" /\ image = dp_ImageRef active \/ in_Image i <> "" /\ Validate env (in_Image i) = Ok image) /\
    prepare active (with_refs (with_image i image) (Some refs)) (a_Generation app + 1) = Ok d0 /\
    d = identified app (a_Generation app + 1) d0 /\ 0 <= in_CanaryWeight i <= 99 /\
    (0 < in_CanaryWeight i -> dp_Strategy d = "rolling") /\
    r = mkRollout ("rollout-" +:+ newID env) (a_ID app) (dp_Generation active) (a_Generation app + 1) PREPARING None None 0
          (NormalizeCanaryWeight (in_CanaryWeight i)) (in_ApprovalRequired i) "" None /\
    check_refs (GetSecretMeta env (in_ProjectID i))
      (range_refs env (refs_of (match in_SecretRefs i with Some r => Some r | None => dp_SecretRefs active end))) ∅ = Ok refs.
Proof.
  unfold planned. intros H. binds H. destruct x as [app' active]. binds H. binds H. binds H.
  cbn [in_CanaryWeight in_ApprovalRequired in_SecretRefs in_ProjectID with_refs with_image] in *.
  destruct (_ || _) eqn:Hw; [done|]. destruct (_ && _) eqn:Hroll; [done|]. injection H as <- <- <-.
  apply check_inv in E1. exists active, x, x0, x1. split_and!; try done.
  - destruct (String.eqb_spec (in_Image i) ""); [left; by simplify_eq|right]. split; [done|]. by apply check_inv.
  - apply orb_false_iff in Hw as [Hw%Z.ltb_ge _]. done.
  - apply orb_false_iff in Hw as [_ Hw%Z.ltb_ge]. done.
  - intros Hpos. rewrite (proj2 (Z.ltb_lt _ _) Hpos) in Hroll. cbn [andb] in Hroll. by bool_to_prop.
Qed.

Definition env_typed (env : Env) : Prop := forall image v, Validate env image = Ok v -> v <> "".

Lemma identified_ok app g d : dep_ok d -> dep_ok (identified app g d).
Proof. by intros []. Qed.

(** C22. What the command accepts passes the contract of the agent: a command that is planned
    over a well-formed active deployment yields a well-formed one of the next generation,
    and for every replica ordinal and every execution id of at least eight bytes - on a
    shorter one the controller panics - the request the controller builds from it passes
    ValidateCreateRequest: fencing keys, resources, services against the ingress port,
    auto-standby, and the egress policy decoded again. Whether the agent can then compile
    the policy is another matter: it parses networks more strictly than the contract. *)
Theorem accepted_intent_creatable env i app active d r ordinal executionID :
  codec_ok -> env_typed env -> intent_typed i -> read_both env i = Ok (app, active) -> dep_ok active ->
  a_ID app <> "" -> a_ProjectID app <> "" -> 0 <= a_Generation app < 2 ^ 63 - 1 ->
  (8 <= String.length executionID)%nat ->
  planned env i = Ok (app, d, r) ->
  dep_ok d /\ dp_Generation d = a_Generation app + 1 /\ dp_Generation d = ToGeneration r /\ dp_AppID d = r_AppID r /\
  exists req, create_request app d ordinal executionID = Some (Ok req) /\
    ValidateCreateRequest unicode_lower (Some req) = Ok tt.
Proof.
  intros Hc Henv Hty Hread Hok Hid Hproj Hgen Hex Hp.
  apply planned_inv in Hp as (active' & image & refs & d0 & Hread' & Himg & Hprep & -> & _ & _ & -> & _).
  rewrite Hread in Hread'. injection Hread' as <-.
  apply prepare_ok in Hprep as [Hd0 Hg]; [|done..|].
  2: { destruct Himg as [[_ ->]|[_ Hv]]; [apply Hok|by eapply Henv]. }
  pose proof (identified_ok app (a_Generation app + 1) d0 Hd0) as Hd. cbn [identified dp_Generation r_AppID ToGeneration dp_AppID].
  rewrite Hg. split_and!; [done..|]. apply deployment_creatable; try done. cbn. rewrite Hg. lia.
Qed.

(** What an accepted intent guarantees about secrets, canaries and features: no
    deployment both binds secrets and may be paused to memory, a canary share is only
    taken by a rolling deployment and lies in [0,99], secrets are only sent to nodes
    that inject them once, and a service open to the mesh only to nodes with the eBPF
    and mesh data planes. *)
Theorem accepted_intent_guards env i app active d r :
  codec_ok -> env_typed env -> intent_typed i -> read_both env i = Ok (app, active) -> dep_ok active ->
  planned env i = Ok (app, d, r) ->
  (size (refs_of (dp_SecretRefs d)) <> 0%nat ->
     enabled (decoded (dec_standby codec) (dp_AutoStandby d)) = false /\ SecretOneShotV1 ∈ dp_RequiredFeatures d) /\
  (existsb sv_MeshDirect (dp_Services d) = true ->
     MeshEastWestV1 ∈ dp_RequiredFeatures d /\ NetworkEbpfV1 ∈ dp_RequiredFeatures d) /\
  CanaryWeight r = in_CanaryWeight i /\ 0 <= CanaryWeight r <= 99 /\
  (CanaryWeight r <> 0 -> EffectiveStrategy (row d) = "rolling" /\ approvalGateApplies r (row d) = true).
Proof.
  intros Hc Henv Hty Hread Hok Hp.
  apply planned_inv in Hp as (active' & image & refs & d0 & Hread' & Himg & Hprep & -> & Hw & Hroll & -> & _).
  rewrite Hread in Hread'. injection Hread' as <-.
  apply prepare_ok in Hprep as [Hd0 Hg]; [|done..|].
  2: { destruct Himg as [[_ ->]|[_ Hv]]; [apply Hok|by eapply Henv]. }
  apply (identified_ok app (a_Generation app + 1)) in Hd0. destruct Hd0 as [_ _ _ _ _ _ _ Hex Hft _].
  assert (NormalizeCanaryWeight (in_CanaryWeight i) = in_CanaryWeight i) as Hn.
  { unfold NormalizeCanaryWeight. rewrite (proj2 (Z.ltb_ge _ _) (proj1 Hw)), (proj2 (Z.ltb_ge _ _) (proj2 Hw)). done. }
  cbn [CanaryWeight ApprovalRequired]. rewrite Hn. split_and!; try lia; [| |].
  - intros Hsz. split; [by apply Hex|]. rewrite Hft. unfold requiredFeatures.
    rewrite (proj2 (Nat.ltb_lt 0 _)); [by left|]. by apply Nat.neq_0_lt_0.
  - intros Hm. rewrite Hft. unfold requiredFeatures, MeshDirectFeatures. rewrite Hm.
    split; apply elem_of_app; right; [by left|right; by left].
  - intros Hnz. assert (EffectiveStrategy (row (identified app (a_Generation app + 1) d0)) = "rolling") as Hs.
    { unfold EffectiveStrategy, row. cbn [d_Strategy]. rewrite Hroll by lia. done. }
    split; [done|]. unfold approvalGateApplies. cbn [ApprovalRequired CanaryWeight]. rewrite !Hn, Hs.
    destruct (in_ApprovalRequired i); [done|]. rewrite (proj2 (Z.eqb_neq _ _) Hnz). done.
Qed.

(** ** Updating the secrets alone *)

(** The intent of the secret-binding endpoint: everything left open but the secrets. *)
Definition only_secrets (i : Intent) : Prop :=
  InheritAll i = true /\ in_VCPU i = 0 /\ in_MemMIB i = 0 /\ in_Port i = 0 /\ in_Services i = None /\ in_Strategy i = "" /\
  in_Env i = None /\ in_HealthCheck i = None /\ in_AutoStandby i = None /\ in_Egress i = None.

Lemma egress_mode_name m : m = UNRESTRICTED \/ m = DENY_ALL \/ m = ALLOWLIST -> egress_mode (mode_name m) = Some m.
Proof. by intros [->|[->| ->]]. Qed.

(** The message of the next generation. *)
Definition next_egress (s : EgressPolicySpec) (generation : Z) : EgressPolicySpec :=
  mkEgressPolicySpec (Mode s) (AllowedCidrs s) (DeniedCidrs s) (AllowedDomains s) (MaxTcpConnections s) (u64 generation) (AuditAll s).

Lemma validate_next s generation :
  ValidateEgressPolicy unicode_lower (Some s) = Ok tt -> u64 generation <> 0 ->
  ValidateEgressPolicy unicode_lower (Some (next_egress s generation)) = Ok tt.
Proof.
  unfold ValidateEgressPolicy. cbn [next_egress Mode AllowedCidrs DeniedCidrs AllowedDomains PolicyGeneration].
  intros H Hg. repeat (let E := fresh "E" in binds H; rewrite E; cbn [res_bind]).
  apply switch_ok. rewrite Forall_cons, Forall_nil. split; [|done]. by apply Z.eqb_neq.
Qed.

Lemma inherit_egress j s generation :
  dec_egress codec j = Ok s -> c_null codec j = false -> stored_egress_ok s -> u64 generation <> 0 ->
  exists p, resolveEgress None (Some j) = Ok (Some p) /\ egress_spec p generation false = Ok (next_egress s generation).
Proof.
  intros Hd Hn (Hv & Hdom & Hm & Hmax) Hg. unfold resolveEgress, present. rewrite Hn, Hd, Hv. eexists. split; [done|].
  unfold egress_spec. cbn [ep_Mode ep_MaxTCPConnections ep_AllowedDomains ep_AllowedCIDRs ep_DeniedCIDRs ep_AuditAll].
  rewrite (egress_mode_name _ Hm), (proj2 (Z.ltb_ge _ _) Hmax), (normalize_domains_fixed _ Hdom). cbn [res_bind].
  pose proof (validate_next s generation Hv Hg) as Hnext. unfold next_egress in Hnext. by rewrite Hnext.
Qed.

(** The parts an intent inherits, one after the other. *)
Section inherit.
Context (active : Dep) (Hok : dep_ok active).

Lemma inherit_services i : in_Port i = 0 -> in_Services i = None ->
  resolveServices (inherited_services active i).1 (inherited_services active i).2 = Ok (dp_Services active, dp_Port active).
Proof.
  intros Hp Hsv. destruct (ok_services _ Hok) as [Hlen Hres], (ok_port _ Hok) as [Hport Hfirst].
  unfold inherited_services. rewrite Hsv, Hp. cbn [Z.eqb]. destruct (dp_Services active) as [|s l] eqn:Hs.
  - cbn [length Nat.eqb fst snd resolveServices]. destruct (Z.eqb_spec (dp_Port active) 0); cbn [negb andb]; [congruence|].
    rewrite (proj2 (Z.ltb_ge (dp_Port active) 1)), (proj2 (Z.ltb_ge 65535 (dp_Port active))) by lia. done.
  - change (Nat.eqb (length (s :: l)) 0) with false. cbn [fst snd resolveServices].
    rewrite (proj2 (Nat.ltb_ge 8 (length (s :: l)))) by done. cbn [negb andb Z.eqb]. by rewrite Hres, Hfirst.
Qed.

Lemma inherit_strategy : resolveStrategy (EffectiveStrategy (row active)) = Ok (dp_Strategy active).
Proof.
  destruct (ok_strategy _ Hok) as [Hstr Hne]. unfold EffectiveStrategy, row. cbn [d_Strategy]. unfold resolveStrategy in Hstr |- *.
  destruct (String.eqb_spec (dp_Strategy active) ""); [done|].
  destruct (String.eqb_spec (dp_Strategy active) "bluegreen") as [->|]; [done|].
  by destruct (String.eqb_spec (dp_Strategy active) "rolling") as [->|].
Qed.

Lemma inherit_standby : exists auto,
  resolveAutoStandby None (dp_AutoStandby active) true = Ok (present (dp_AutoStandby active), auto) /\
  enabled auto = enabled (decoded (dec_standby codec) (dp_AutoStandby active)).
Proof.
  pose proof (ok_standby _ Hok) as Hsb.
  unfold resolveAutoStandby, decoded. destruct (present (dp_AutoStandby active)) as [j|] eqn:Hj; [|by exists None].
  destruct (Hsb j eq_refl) as (p & -> & _). by exists (Some p).
Qed.

Lemma inherit_egress_json (Hc : codec_ok) generation :
  0 < generation < 2 ^ 63 -> (forall s, is_ok (enc_egress codec s) = true) ->
  exists p egress, resolveEgress None (dp_EgressPolicy active) = Ok p /\ marshalEgress p generation false = Ok egress /\
    match present (dp_EgressPolicy active) with
    | None => egress = None
    | Some j => exists s j', dec_egress codec j = Ok s /\ egress = Some j' /\ dec_egress codec j' = Ok (next_egress s generation)
    end.
Proof.
  intros Hgen Hence. pose proof (ok_egress _ Hok) as Hego. unfold present in *.
  destruct (dp_EgressPolicy active) as [j|]; [|by exists None, None]. destruct (c_null codec j) eqn:Hn.
  { exists None, None. unfold resolveEgress, present. by rewrite Hn. }
  destruct (Hego j eq_refl) as (s & Hd & Hs).
  destruct (inherit_egress j s generation Hd Hn Hs) as (p & Hp & Hspec); [rewrite u64_id; lia|].
  specialize (Hence (next_egress s generation)). destruct (enc_egress codec (next_egress s generation)) as [j'|] eqn:He; [|done].
  exists (Some p), (Some j'). split; [done|]. unfold marshalEgress, enc_some. rewrite Hspec. cbn [res_bind]. rewrite He.
  split; [done|]. exists s, j'. split_and!; [done..|]. by apply (egress_rt Hc).
Qed.
End inherit.

(** Binding secrets changes nothing else: the deployment made by an intent that
    leaves everything but the secrets open has the image, the resources, ports and
    services, the environment, the strategy, the placement, the health check and the
    auto-standby policy of the active one, and its egress policy under the number of
    the new generation. *)
Theorem secret_update_keeps_the_rest active i generation :
  codec_ok -> dep_ok active -> only_secrets i -> in_Image i = dp_ImageRef active -> 0 < generation < 2 ^ 63 ->
  is_ok (marshalPlacement (in_NodePool i) (in_Labels i) (in_AntiAffinity i)) = true ->
  (forall s, is_ok (enc_egress codec s) = true) ->
  (size (refs_of (in_SecretRefs i)) <> 0%nat -> enabled (decoded (dec_standby codec) (dp_AutoStandby active)) = false) ->
  exists egress,
    prepare active i generation =
      Ok (mkDep "" "" generation (dp_ImageRef active) (dp_VCPU active) (dp_MemMIB active) (dp_Port active) (dp_Env active)
            (in_SecretRefs i) (dp_Placement active) (present (dp_HealthCheck active)) "" (present (dp_AutoStandby active))
            (dp_Services active) (dp_Strategy active) (requiredFeatures (in_SecretRefs i) (dp_Services active)) egress) /\
    match present (dp_EgressPolicy active) with
    | None => egress = None
    | Some j => exists s j', dec_egress codec j = Ok s /\ egress = Some j' /\ dec_egress codec j' = Ok (next_egress s generation)
    end.
Proof.
  intros Hc Hok (Hall & Hv & Hm & Hp & Hsv & Hst & Hen & Hh & Hau & Heg) Himg Hgen Hpl Hence Hsec.
  pose proof (inherit_services active Hok i Hp Hsv) as Hsvc.
  destruct (inherit_standby active Hok) as (auto & Hstand & Hauto).
  destruct (inherit_egress_json active Hok Hc generation Hgen Hence) as (p & egress & Hr & Hmar & Heq).
  exists egress. split; [|exact Heq].
  unfold prepare. rewrite Hall, Hv, Hm, Hst, Hen, Hh, Hau, Heg, Himg. cbn [Z.ltb Z.compare orb].
  destruct (inherited_services active i) as [decl dport]. cbn [fst snd] in Hsvc. rewrite Hsvc. cbn [check res_map_err res_bind].
  cbn [andb String.eqb]. rewrite (inherit_strategy active Hok). cbn [check res_map_err res_bind marshalHealthCheck].
  destruct (marshalPlacement _ _ _) as [pl|]; [|done]. cbn [check res_map_err res_bind]. rewrite Hstand. cbn [res_bind].
  assert (Nat.ltb 0 (size (refs_of (in_SecretRefs i))) && enabled auto = false) as ->.
  { rewrite Hauto. destruct (size _) as [|n]; [done|]. by rewrite Hsec. }
  cbn [res_bind]. rewrite Hr. cbn [res_bind]. rewrite bool_decide_false by (by intros [? ?]). rewrite Hmar.
  cbn [check res_map_err res_bind]. by destruct (present (dp_HealthCheck active)).
Qed.

(** A command is all or nothing: when it reports success the rollout in
    PREPARING, its deployment and the generation of the application are all stored, and
    no rollout was active before; when it reports an error the database is as it was,
    unless the reply of the commit itself was lost. *)
Theorem execute_all_or_nothing env o now i d0 :
  match Execute env o now i d0 with
  | (d1, Ok rs) =>
      exists app d r, planned env i = Ok (app, d, r) /\ rs = mkResult (a_ID app) (dp_ID d) (dp_Generation d) (r_ID r) "PREPARING" /\
        active d0 !! r_AppID r = None /\ active d1 !! r_AppID r = Some (new_rollout now r) /\
        deployments d1 !! dp_ID d = Some (stored_deployment (row d)) /\
        (a_Generation <$> apps d1 !! r_AppID r) = Some (dp_Generation d)
  | (d1, Err _) => d1 = d0 \/ exists err, o = FailedAfter err
  end.
Proof.
  unfold Execute. destruct (planned env i) as [[[app d] r]|err]; [|by left].
  destruct (DeployApp o now (row d) r (dp_Generation d) d0) as [d1 [[]|err]] eqn:Hdep.
  - exists app, d, r. split_and!; [done..| | | |]; revert Hdep; unfold DeployApp, inTx, ActiveRolloutForApp;
      (destruct (apps d0 !! r_AppID r) as [a|] eqn:Ha; [|done]); (destruct (Deleted a); [done|]);
      (destruct (active d0 !! r_AppID r) eqn:Hr; [done|]); (destruct (deployment_taken d0 (row d)); [done|]);
      unfold insert_rollout, ActiveRolloutForApp; cbn [active with_deployments]; rewrite Hr;
      (destruct (rollout_id_taken _ _); [done|]); (destruct o; [|done..]); intros [= <-]; cbn;
      rewrite ?lookup_insert_eq, ?lookup_alter_eq, ?Ha; done.
  - revert Hdep. unfold DeployApp, inTx. destruct (match apps d0 !! r_AppID r with Some _ => _ | None => _ end) as [d' [[]|]].
    + destruct o; intros; simplify_eq; eauto.
    + intros; simplify_eq; by left.
Qed.
End command.

(** ** Concrete commands *)

Module Witness.
(** The messages themselves in place of their JSON. *)
Inductive msg := MEgress (m : EgressPolicySpec) | MStandby (m : AutoStandby) | MHealth (m : HealthCheckSpec)
  | MPlacement (m : PlacementConstraints) | MNull.
Definition bad {A} : res A := Err (errors_New "proto: syntax error").
Definition msgs : Codec msg :=
  mkCodec msg (fun j => match j with MNull => true | _ => false end)
    (fun m => Ok (MEgress m)) (fun j => match j with MEgress m => Ok m | _ => bad end)
    (fun m => Ok (MStandby m)) (fun j => match j with MStandby m => Ok m | _ => bad end)
    (fun m => Ok (MHealth m)) (fun j => match j with MHealth m => Ok m | _ => bad end)
    (fun m => Ok (MPlacement m)) (fun j => match j with MPlacement m => Ok m | _ => bad end).
Definition same (s : string) : string := s.

Lemma msgs_ok : codec_ok msgs.
Proof. split; intros m raw H; injection H as <-; split; reflexivity. Qed.

Definition egress1 : EgressPolicySpec := mkEgressPolicySpec ALLOWLIST ["10.1.0.0/16"] [] ["api.example.com"] 64 1 true.
Definition services : list Service := [mkSvc "http" 8080 true; mkSvc "admin" 9090 false].
Definition dep1 : Dep (json := msg) :=
  mkDep "dep-a1-1" "a1" 1 "img@sha256:1" 2 512 8080 None None None None "ACTIVE" None services "bluegreen"
    [MeshEastWestV1; NetworkEbpfV1] (Some (MEgress egress1)).
Definition app1 : App := mkApp "a1" "p1" "web.example" 1 1 false.

Lemma egress1_ok : stored_egress_ok same egress1.
Proof.
  split; [vm_compute; reflexivity|]. split; [|split; [by do 2 right|cbn; lia]].
  constructor; [|constructor]. apply (NormalizeEgressDomain_normal same "api.example.com"). vm_compute. reflexivity.
Qed.

Lemma dep1_ok : dep_ok msgs same dep1.
Proof.
  split; [discriminate|split; reflexivity|split; reflexivity|split; [cbn; lia|vm_compute; reflexivity]
         |split; [cbn; lia|reflexivity]|split; [reflexivity|discriminate]|discriminate|reflexivity|reflexivity|].
  intros j [= <-]. exists egress1. split; [reflexivity|exact egress1_ok].
Qed.

Definition plain (image : string) (refs : option (gmap string SecretRef)) (canary : Z) (all : bool) : Intent :=
  mkIntent "a1" "p1" image 0 0 0 None (if all then "" else "rolling") None "" ∅ "" None refs None None all all canary false.
Definition env (app : App) (active : Dep (json := msg)) : Env :=
  mkEnv (Ok (Some app)) (Ok (Some active)) (fun s => if String.eqb s "" then bad else Ok s) (fun _ _ => true)
    map_to_list "0001".
Definition refs : gmap string SecretRef := {["TOKEN" := mkRef "token" None]}.
Definition canary : Intent := plain "img@sha256:2" (Some refs) 20 false.

Lemma env_ok : env_typed (env app1 dep1).
Proof. intros image v. cbn. destruct (String.eqb_spec image ""); [discriminate|]. intros [= <-]. done. Qed.

Lemma canary_typed : intent_typed canary.
Proof. split; vm_compute; reflexivity. Qed.

(** The deployment and the rollout planned for it. *)
Definition dep2 : Dep (json := msg) :=
  mkDep "dep-a1-2" "a1" 2 "img@sha256:2" 2 512 8080 None (Some refs) (Some (MPlacement (mkPlacement "" ∅ 1))) None "PREPARING" None services
    "rolling" [SecretOneShotV1; MeshEastWestV1; NetworkEbpfV1] (Some (MEgress (next_egress egress1 2))).
Definition rollout2 : Rollout := mkRollout "rollout-0001" "a1" 1 2 PREPARING None None 0 20 false "" None.

Lemma planned2 : planned msgs same same (env app1 dep1) canary = Ok (app1, dep2, rollout2).
Proof. vm_compute. reflexivity. Qed.

Lemma prepare_wellformed_witness :
  exists d, prepare msgs same same dep1 canary 2 = Ok d /\ dep_ok msgs same d.
Proof.
  destruct (prepare msgs same same dep1 canary 2) as [d|err] eqn:H; [|vm_compute in H; discriminate].
  exists d. split; [reflexivity|].
  apply (prepare_wellformed msgs same same dep1 canary 2 d msgs_ok dep1_ok canary_typed); [discriminate|exact H].
Defined.

Lemma accepted_intent_creatable_witness :
  exists req, create_request msgs same app1 dep2 0 "exec-01234567" = Some (Ok req) /\
    ValidateCreateRequest same (Some req) = Ok tt.
Proof.
  apply (accepted_intent_creatable msgs same same (env app1 dep1) canary app1 dep1 dep2 rollout2 0 "exec-01234567"
    msgs_ok env_ok canary_typed eq_refl dep1_ok); try discriminate; [split; vm_compute; [discriminate|reflexivity]|vm_compute; lia|exact planned2].
Defined.

Lemma accepted_intent_guards_witness :
  EffectiveStrategy (row dep2) = "rolling" /\ approvalGateApplies rollout2 (row dep2) = true.
Proof.
  destruct (accepted_intent_guards msgs same same (env app1 dep1) canary app1 dep1 dep2 rollout2
    msgs_ok env_ok canary_typed eq_refl dep1_ok planned2) as (_ & _ & _ & _ & H).
  apply H. discriminate.
Defined.

(** Only the secrets; the image is that of the active deployment. *)
Definition secrets : Intent := plain "img@sha256:1" (Some refs) 0 true.

Lemma secret_update_keeps_the_rest_witness :
  exists d, prepare msgs same same dep1 secrets 2 = Ok d /\ dp_Services d = services.
Proof.
  destruct (secret_update_keeps_the_rest msgs same same dep1 secrets 2 msgs_ok dep1_ok) as (egress & H & _);
    [repeat split|reflexivity|split; vm_compute; reflexivity|reflexivity|reflexivity|reflexivity|].
  eexists. split; [exact H|reflexivity].
Defined.

(** A rollout from 1 to 2 completes between the reads of a command and its
    transaction: the command is accepted, with the superseded generation as its
    source and the old image; while it prepares, the route publisher has nothing
    to publish although the machine of generation 2 serves. *)
Definition row2 : Deployment := mkDeployment "dep-a1-2" "a1" 2 "PREPARING" "bluegreen" "img@sha256:2".
Definition cut : Rollout := mkRollout "r1" "a1" 1 2 CUTOVER (Some 1) (Some 30) 0 0 false "" None.
Definition db0 : DB :=
  mkDB {["a1" := cut]} [] {["dep-a1-1" := row dep1; "dep-a1-2" := row2]} {["a1" := mkApp "a1" "p1" "web.example" 1 2 false]}.
Definition m2 : Machine := mkMachine "a1-r0-g2" "a1" "dep-a1-2" 0 "RUNNING" "exec-00000002" 2 "RUNNING" "READY".
Definition rd : Reads :=
  mkReads (Ok [row2; row dep1]) (Ok [row2; row dep1]) (Ok [m2]) (fun _ => bad) (fun _ => Ok 0) (fun _ => "fresh").
Definition app2 : App := mkApp "a1" "p1" "web.example" 1 2 false.
Definition db1 : DB := pass_db (reconcileRollout Rollouts.Witness.config (60 * Second) rd Done app2 cut ∅ db0).
Definition stale : DB * res Result := Execute msgs same same (env app2 dep1) Done (70 * Second) (plain "" None 0 true) db1.

(** What the publisher derives for the application from the state after it. *)
Definition published : RoutePublisher.Projection :=
  RoutePublisher.Derive same
    (RoutePublisher.mkInput
       [RoutePublisher.mkMachine "a1-r0-g2" "a1" "dep-a1-2" 0 "web.example" "exec-00000002" 8080 "n1" "RUNNING" "READY"]
       (map (fun d => RoutePublisher.mkDeployment (d_ID d) (d_AppID d) (d_Generation d) 8080 (d_Status d) [] (d_Strategy d))
          (map snd (map_to_list (deployments stale.1))))
       (map (fun r => RoutePublisher.mkRollout (r_AppID r) (FromGeneration r) (ToGeneration r)
               (match Status r with PREPARING => "PREPARING" | PAUSED_FOR_APPROVAL => "PAUSED_FOR_APPROVAL"
                | CUTOVER => "CUTOVER" | ROLLING_BACK => "ROLLING_BACK" end) (CanaryWeight r))
          (map snd (map_to_list (active stale.1))))
       {["n1" := "10.0.0.1:5107"]} 8080 "" ∅).

(** A blue/green command can start from a generation that is no longer served: its source is
    read before its transaction and not looked at again. When a rollout to generation 2
    completes in between, the command still answers PREPARING: its rollout goes from the
    superseded generation 1, its deployment carries the image of generation 1, and
    while it prepares no route of the application is published. *)
Theorem stale_source_accepted :
  active db1 !! "a1" = None /\
  (d_Status <$> deployments db1 !! "dep-a1-1") = Some "SUPERSEDED" /\
  (d_Status <$> deployments db1 !! "dep-a1-2") = Some "ACTIVE" /\
  stale.2 = Ok (mkResult "a1" "dep-a1-3" 3 "rollout-0001" "PREPARING") /\
  (FromGeneration <$> active stale.1 !! "a1") = Some 1 /\
  (d_ImageRef <$> deployments stale.1 !! "dep-a1-3") = Some "img@sha256:1" /\
  RoutePublisher.Routes published = [].
Proof. vm_compute. repeat split; reflexivity. Qed.
End Witness.
