(* ===== verification/Operations.v ===== *)
(** * Operations and machine rows (store/store.go, restart.go, operations.go,
    secret_leases.go)

    The outbox of the control plane: the operations table the dispatcher works off,
    the machines table it reconciles, and the delivery leases of secrets. Each method
    of the store is one transition of [DB], a transaction by [inTx]; [stmt] is the set
    of these transitions, so that a history is a sequence of statements of any number
    of processes. Times are nanoseconds, [now] the time of the transaction. The
    operation ID is the primary key and the idempotency key. A document that is not
    JSON is [None]; documents are compared up to key order. Of the unique indexes the
    ones that can be hit are checked: primary keys, [(app_id, replica_ordinal,
    deployment_id)] of machines from ordinal 0, [(machine_id, execution_id)] of leases. *)
From S2P Require Import Prelude GoString DurableWrite Fences AgentContract AppCommand.
Local Open Scope Z_scope.

(** ** Rows *)

(** The statuses the code writes. *)
Inductive op_status := PENDING | CLAIMED | SUCCEEDED | FAILED | SUPERSEDED.
#[export] Instance op_status_dec : EqDecision op_status.
Proof. solve_decision. Defined.

Inductive lease_state :=
  | SecretLeaseIssued | SecretLeaseClaimed | SecretLeaseDelivered | SecretLeaseUncertain
  | SecretLeaseAcked | SecretLeaseExpired | SecretLeaseRevoked.
#[export] Instance lease_state_dec : EqDecision lease_state.
Proof. solve_decision. Defined.

Section store.
Context {json : Type} `{EqDecision json}.

(** A row of operations: what the insert fixes, then the columns statements change. *)
Record Operation := mkOp {
  o_ID : string; o_ProjectID : string; o_MachineID : string; o_ExecutionID : string; o_Generation : Z;
  o_Kind : string; o_Request : json; o_CreatedAt : Z;
  o_Status : op_status; o_DispatchNodeID : string; o_Result : option json; o_Error : string;
  o_Attempts : Z; o_ClaimedAt : option Z; o_CompletedAt : option Z; o_UpdatedAt : Z }.

(** A row of machines, in the groups its statements write. *)
Record Placed := mkPlaced {
  NodeID : string; ObservedState : string; ObservedSlotIP : string; ObservedReadiness : string;
  LastObservedAt : option Z }.
Record Restart := mkRestart {
  RestartMode : string; RestartMaxAttempts : Z; RestartBackoffSeconds : Z; RestartStableWindowSeconds : Z;
  RestartAttempts : Z; RestartNextAttemptAt : option Z; RestartStableSince : option Z; RestartBlocked : bool;
  RestartFailedExecution : option string }.
Record Shape := mkShape {
  m_ID : string; m_AppID : string; m_DeploymentID : string; m_Hostname : string;
  RequestedVCPU : Z; RequestedMemMIB : Z; RequestedDiskMIB : Z; m_ImageRef : string;
  m_Env : gmap string string; m_CreatedAt : Z }.
Record Machine := mkMachine {
  shape : Shape; ReplicaOrdinal : Z; IngressPort : Z; m_Placement : json;
  DesiredState : string; m_Generation : Z; CurrentExecutionID : string;
  placed : Placed; restart : Restart; ExpiresAt : option Z; DeletePhase : string; m_UpdatedAt : Z }.

Record SecretLease := mkLease {
  sl_ID : string; sl_ProjectID : string; sl_MachineID : string; sl_ExecutionID : string; sl_Generation : Z;
  sl_OperationID : string; sl_RequestHash : string; sl_State : lease_state; sl_ExpiresAt : Z; sl_CreatedAt : Z }.

Record AppRow := mkAppRow { ap_ProjectID : string; ap_Hostname : string; ap_ImageRef : string; ap_VCPU : Z; ap_MemMIB : Z }.

(** The tables; a lease is found by machine and execution, [route_backends] holds the
    machine and execution of every backend row. *)
Record DB := mkDB {
  projects : gset string; apps : gmap string AppRow; deployments : gmap string (Dep (json:=json));
  machines : gmap string Machine; operations : gmap string Operation;
  leases : gmap (string * string) SecretLease; route_backends : gset (string * string) }.

Definition with_apps (f : gmap string AppRow -> gmap string AppRow) (db : DB) : DB :=
  mkDB (projects db) (f (apps db)) (deployments db) (machines db) (operations db) (leases db) (route_backends db).
Definition with_machines (f : gmap string Machine -> gmap string Machine) (db : DB) : DB :=
  mkDB (projects db) (apps db) (deployments db) (f (machines db)) (operations db) (leases db) (route_backends db).
Definition with_operations (f : gmap string Operation -> gmap string Operation) (db : DB) : DB :=
  mkDB (projects db) (apps db) (deployments db) (machines db) (f (operations db)) (leases db) (route_backends db).
Definition with_leases (f : gmap (string * string) SecretLease -> gmap (string * string) SecretLease) (db : DB) : DB :=
  mkDB (projects db) (apps db) (deployments db) (machines db) (operations db) (f (leases db)) (route_backends db).

Definition ErrRequestConflict : goerr := errors_New "operation idempotency key reused with a different request".
Definition ErrMachineNotFound : goerr := errors_New "machine not found".
Definition ErrMachineLifecycleClosed : goerr := errors_New "machine deleted or expired; lifecycle update rejected".
Definition ErrSecretLeaseConflict : goerr := errors_New "secret lease conflict: lease already exists for execution".
Definition ErrSecretLeaseTransition : goerr := errors_New "secret lease transition rejected".
Definition ErrSecretLeaseNotFound : goerr := errors_New "secret lease not found".
Definition ErrSecretLeaseTerminal : goerr := errors_New "secret lease terminal for execution".
Definition ownershipConflict (resource id field : string) : goerr :=
  Errorf "%s %s has conflicting immutable %s" [AStr resource; AStr id; AStr field].
(** The errors PostgreSQL answers with. *)
Definition unique_violation (index : string) : goerr := Errorf "23505 %s" [AStr index].
Definition foreign_key_violation (table : string) : goerr := Errorf "23503 %s" [AStr table].
Definition not_null_violation (column : string) : goerr := Errorf "23502 %s" [AStr column].
Definition invalid_json : goerr := errors_New "22P02".

(** jsonEqual: what does not decode is equal to nothing. *)
Definition jsonEqual (a b : option json) : bool :=
  match a, b with Some a, Some b => bool_decide (a = b) | _, _ => false end.

(** ** Enqueueing operations *)

Definition selectOperationByKey (db : DB) (projectID operationID : string) : option Operation :=
  match operations db !! operationID with
  | Some op => if String.eqb (o_ProjectID op) projectID then Some op else None
  | None => None
  end.

(** [e_DispatchNodeID] is [None] where the insert leaves the column to its default. *)
Record Enqueue := mkEnqueue {
  e_ProjectID : string; e_MachineID : string; e_ExecutionID : string; e_OperationID : string; e_Generation : Z;
  e_Kind : string; e_Request : option json; e_DispatchNodeID : option string }.

(** NULLIF(node, '') into a column that is NOT NULL DEFAULT ''. *)
Definition node_column (node : option string) : res string :=
  match node with
  | None => Ok ""
  | Some n => if String.eqb n "" then Err (not_null_violation "dispatch_node_id") else Ok n
  end.

(** INSERT INTO operations ... ON CONFLICT (project_id, idempotency_key) DO NOTHING. *)
Definition insert_operation (now : Z) (e : Enqueue) (db : DB) : DB * res unit :=
  match e_Request e, node_column (e_DispatchNodeID e) with
  | None, _ => (db, Err invalid_json)
  | _, Err err => (db, Err err)
  | Some request, Ok node =>
      match operations db !! e_OperationID e with
      | Some op => (db, if String.eqb (o_ProjectID op) (e_ProjectID e) then Ok tt else Err (unique_violation "operations_pkey"))
      | None =>
          if negb (bool_decide (e_ProjectID e ∈ projects db)) then (db, Err (foreign_key_violation "operations"))
          else (with_operations <[e_OperationID e :=
                  mkOp (e_OperationID e) (e_ProjectID e) (e_MachineID e) (e_ExecutionID e) (e_Generation e)
                    (e_Kind e) request now PENDING node None "" 0 None None now]> db, Ok tt)
      end
  end.

(** The read back after the insert. *)
Definition inserted (projectID operationID : string) (request : option json) (db : DB) : res Operation :=
  match selectOperationByKey db projectID operationID with
  | None => Err (Errorf "operation %s disappeared after insert" [AStr operationID])
  | Some created => if jsonEqual (Some (o_Request created)) request then Ok created else Err ErrRequestConflict
  end.

Definition set_op (f : Operation -> Operation) (id : string) (db : DB) : DB := with_operations (alter f id) db.

Definition resurrected (now : Z) (op : Operation) : Operation :=
  mkOp (o_ID op) (o_ProjectID op) (o_MachineID op) (o_ExecutionID op) (o_Generation op) (o_Kind op) (o_Request op)
    (o_CreatedAt op) PENDING (o_DispatchNodeID op) (o_Result op) "" (o_Attempts op) None None now.

Definition resurrectOperation (now : Z) (opID : string) (db : DB) : DB * res unit :=
  match operations db !! opID with
  | Some op => match o_Status op with
               | FAILED => (set_op (resurrected now) opID db, Ok tt)
               | _ => (db, Err (Errorf "resurrect op %s: not in FAILED state" [AStr opID]))
               end
  | None => (db, Err (Errorf "resurrect op %s: not in FAILED state" [AStr opID]))
  end.

(** What the caller gets of a revived row: the row as read, with two fields set. *)
Definition as_pending (op : Operation) : Operation :=
  mkOp (o_ID op) (o_ProjectID op) (o_MachineID op) (o_ExecutionID op) (o_Generation op) (o_Kind op) (o_Request op)
    (o_CreatedAt op) PENDING (o_DispatchNodeID op) (o_Result op) "" (o_Attempts op) (o_ClaimedAt op)
    (o_CompletedAt op) (o_UpdatedAt op).

Definition enqueueOperationIdempotentTx (now : Z) (e : Enqueue) (resurrectFailed : bool) : cmd DB Operation := fun db =>
  match selectOperationByKey db (e_ProjectID e) (e_OperationID e) with
  | Some existing =>
      if negb (jsonEqual (Some (o_Request existing)) (e_Request e)) then (db, Err ErrRequestConflict)
      else if resurrectFailed && bool_decide (o_Status existing = FAILED) then
        (_ <~ resurrectOperation now (o_ID existing) ;; cmd_ret (Ok (as_pending existing)))%go db
      else (db, Ok existing)
  | None =>
      (_ <~ insert_operation now e ;; cmd_read None id (inserted (e_ProjectID e) (e_OperationID e) (e_Request e)))%go db
  end.

Definition enqueueDeleteKind (o : exec_outcome) (now : Z) (e : Enqueue) : cmd DB Operation :=
  inTx o (enqueueOperationIdempotentTx now e true).

Definition delete_of (kind projectID machineID executionID operationID : string) (generation : Z)
    (requestJSON : option json) : Enqueue :=
  mkEnqueue projectID machineID executionID operationID generation kind requestJSON None.

Definition EnqueueDelete o now projectID machineID executionID operationID generation requestJSON :=
  enqueueDeleteKind o now (delete_of "delete" projectID machineID executionID operationID generation requestJSON).
Definition EnqueueReapDelete o now projectID machineID executionID operationID generation requestJSON :=
  enqueueDeleteKind o now (delete_of "reap" projectID machineID executionID operationID generation requestJSON).

(** EnqueueLifecycle and EnqueueOperation have this body, without the revival; the second names a node. *)
Definition EnqueueOperation (o : exec_outcome) (now : Z) (p : Enqueue) : cmd DB Operation :=
  inTx o (enqueueOperationIdempotentTx now p false).
Definition EnqueueLifecycle (o : exec_outcome) (now : Z) (projectID machineID executionID operationID : string)
    (generation : Z) (kind : string) (requestJSON : option json) : cmd DB Operation :=
  inTx o (enqueueOperationIdempotentTx now
            (mkEnqueue projectID machineID executionID operationID generation kind requestJSON None) false).

(** ** Enqueueing a create (ensureAppAndEnqueueCreate) *)

Record CreateMachineParams := mkCreateParams {
  cp_ProjectID : string; cp_AppID : string; cp_Hostname : string; cp_ImageRef : string;
  cp_VCPU : Z; cp_MemMIB : Z; cp_DiskMIB : Z; cp_IngressPort : Z;
  cp_MachineID : string; cp_DeploymentID : string; cp_ExecutionID : string; cp_OperationID : string;
  cp_Generation : Z; cp_ReplicaOrdinal : Z; cp_RequestJSON : option json; cp_PlacementJSON : json;
  cp_ExpiresAt : option Z; cp_RestartMode : string; cp_RestartMaxAttempts : Z; cp_RestartBackoffSeconds : Z;
  cp_RestartStableWindowSeconds : Z }.

(** The three reads that check who owns the application, the machine and the deployment. *)
Definition check_ownership (p : CreateMachineParams) (db : DB) : res unit :=
  (match apps db !! cp_AppID p with
   | Some a => if negb (String.eqb (ap_ProjectID a) (cp_ProjectID p))
               then Err (ownershipConflict "app" (cp_AppID p) "project_id") else Ok tt
   | None => Ok tt
   end ;;;
   match machines db !! cp_MachineID p with
   | Some m =>
       match apps db !! m_AppID (shape m) with
       | Some a =>
           if negb (String.eqb (ap_ProjectID a) (cp_ProjectID p))
           then Err (ownershipConflict "machine" (cp_MachineID p) "project_id")
           else if negb (String.eqb (m_AppID (shape m)) (cp_AppID p))
           then Err (ownershipConflict "machine" (cp_MachineID p) "app_id")
           else if negb (String.eqb (m_DeploymentID (shape m)) (cp_DeploymentID p))
           then Err (ownershipConflict "machine" (cp_MachineID p) "deployment_id") else Ok tt
       | None => Ok tt
       end
   | None => Ok tt
   end ;;;
   match deployments db !! cp_DeploymentID p with
   | Some d => if negb (String.eqb (dp_AppID d) (cp_AppID p))
               then Err (ownershipConflict "deployment" (cp_DeploymentID p) "app_id") else Ok tt
   | None => Ok tt
   end)%go.

(** INSERT INTO apps ... ON CONFLICT (id) DO UPDATE ... WHERE apps.project_id=EXCLUDED.project_id. *)
Definition hostname_taken (db : DB) (appID hostname : string) : bool :=
  existsb (fun '(id, a) => String.eqb (ap_Hostname a) hostname && negb (String.eqb id appID)) (map_to_list (apps db)).

Definition upsert_app (p : CreateMachineParams) : cmd DB unit := fun db =>
  match apps db !! cp_AppID p with
  | None =>
      if negb (bool_decide (cp_ProjectID p ∈ projects db)) then (db, Err (wrap "upsert app: %w" (foreign_key_violation "apps")))
      else if hostname_taken db (cp_AppID p) (cp_Hostname p)
      then (db, Err (wrap "upsert app: %w" (unique_violation "apps_hostname_key")))
      else (with_apps <[cp_AppID p := mkAppRow (cp_ProjectID p) (cp_Hostname p) (cp_ImageRef p) (cp_VCPU p) (cp_MemMIB p)]> db, Ok tt)
  | Some a =>
      if String.eqb (ap_ProjectID a) (cp_ProjectID p)
      then (with_apps <[cp_AppID p := mkAppRow (ap_ProjectID a) (ap_Hostname a) (cp_ImageRef p) (cp_VCPU p) (cp_MemMIB p)]> db, Ok tt)
      else (db, Err (ownershipConflict "app" (cp_AppID p) "project_id"))
  end.

(** The partial unique index machines_app_ordinal_deployment. *)
Definition slot_taken (db : DB) (p : CreateMachineParams) : bool :=
  (0 <=? cp_ReplicaOrdinal p) &&
  existsb (fun '(id, m) => negb (String.eqb id (cp_MachineID p)) && String.eqb (m_AppID (shape m)) (cp_AppID p) &&
                           String.eqb (m_DeploymentID (shape m)) (cp_DeploymentID p) &&
                           (ReplicaOrdinal m =? cp_ReplicaOrdinal p)) (map_to_list (machines db)).

Definition unplaced : Placed := mkPlaced "" "" "" "UNKNOWN" None.

Definition new_machine (now : Z) (p : CreateMachineParams) : Machine :=
  mkMachine (mkShape (cp_MachineID p) (cp_AppID p) (cp_DeploymentID p) (cp_Hostname p) (cp_VCPU p) (cp_MemMIB p)
               (cp_DiskMIB p) (cp_ImageRef p) ∅ now)
    (cp_ReplicaOrdinal p) (cp_IngressPort p) (cp_PlacementJSON p) "CREATED" (cp_Generation p) (cp_ExecutionID p)
    unplaced
    (mkRestart (cp_RestartMode p) (cp_RestartMaxAttempts p) (cp_RestartBackoffSeconds p) (cp_RestartStableWindowSeconds p)
       0 None None false None)
    (cp_ExpiresAt p) "ACTIVE" now.

(** The SET list of ON CONFLICT (id) DO UPDATE. *)
Definition recreated (now : Z) (allowResurrect : bool) (p : CreateMachineParams) (m : Machine) : Machine :=
  let deleted := String.eqb (DesiredState m) "DELETED" in
  if deleted && negb allowResurrect
  then mkMachine (shape m) (ReplicaOrdinal m) (IngressPort m) (m_Placement m) (DesiredState m) (m_Generation m)
         (CurrentExecutionID m) (placed m) (restart m) (ExpiresAt m) (DeletePhase m) now
  else mkMachine (shape m) (cp_ReplicaOrdinal p) (cp_IngressPort p) (cp_PlacementJSON p) "CREATED"
         (Z.max (m_Generation m) (cp_Generation p)) (cp_ExecutionID p)
         (if deleted || negb (String.eqb (CurrentExecutionID m) (cp_ExecutionID p)) then unplaced else placed m)
         (restart m) (ExpiresAt m) (DeletePhase m) now.

(** RETURNING desired_state. *)
Definition upsert_machine (now : Z) (allowResurrect : bool) (p : CreateMachineParams) : cmd DB string := fun db =>
  match machines db !! cp_MachineID p with
  | None =>
      if slot_taken db p then (db, Err (wrap "upsert machine: %w" (unique_violation "machines_app_ordinal_deployment")))
      else (with_machines <[cp_MachineID p := new_machine now p]> db, Ok "CREATED")
  | Some m =>
      if negb (String.eqb (m_AppID (shape m)) (cp_AppID p))
      then (db, Err (ownershipConflict "machine" (cp_MachineID p) "app_id"))
      else if negb (String.eqb (m_DeploymentID (shape m)) (cp_DeploymentID p))
      then (db, Err (ownershipConflict "machine" (cp_MachineID p) "deployment_id"))
      else
        let m' := recreated now allowResurrect p m in
        if slot_taken db p && negb (ReplicaOrdinal m' =? ReplicaOrdinal m)
        then (db, Err (wrap "upsert machine: %w" (unique_violation "machines_app_ordinal_deployment")))
        else (with_machines <[cp_MachineID p := m']> db, Ok (DesiredState m'))
  end.

Definition create_of (p : CreateMachineParams) : Enqueue :=
  mkEnqueue (cp_ProjectID p) (cp_MachineID p) (cp_ExecutionID p) (cp_OperationID p) (cp_Generation p) "create"
    (cp_RequestJSON p) None.

Definition ensureAppAndEnqueueCreate (o : exec_outcome) (now : Z) (p : CreateMachineParams) (allowResurrect : bool) :
    cmd DB Operation :=
  inTx o (fun db =>
    match check_ownership p db with
    | Err e => (db, Err e)
    | Ok _ =>
        match selectOperationByKey db (cp_ProjectID p) (cp_OperationID p) with
        | Some existing =>
            if negb (jsonEqual (Some (o_Request existing)) (cp_RequestJSON p)) then (db, Err ErrRequestConflict)
            else (db, Ok existing)
        | None =>
            (_ <~ upsert_app p ;;
             desiredAfter <~ upsert_machine now allowResurrect p ;;
             if String.eqb desiredAfter "DELETED" then cmd_ret (Err ErrMachineLifecycleClosed)
             else
               _ <~ insert_operation now (create_of p) ;;
               cmd_read None id (inserted (cp_ProjectID p) (cp_OperationID p) (cp_RequestJSON p)))%go db
        end
    end).

(** The two entries that fix the lifecycle columns. *)
Definition without_lifecycle (p : CreateMachineParams) : CreateMachineParams :=
  mkCreateParams (cp_ProjectID p) (cp_AppID p) (cp_Hostname p) (cp_ImageRef p) (cp_VCPU p) (cp_MemMIB p) (cp_DiskMIB p)
    (cp_IngressPort p) (cp_MachineID p) (cp_DeploymentID p) (cp_ExecutionID p) (cp_OperationID p) (cp_Generation p)
    (cp_ReplicaOrdinal p) (cp_RequestJSON p) (cp_PlacementJSON p) None "NEVER" 3 10 300.

Definition EnsureAppAndEnqueueCreate o now p := ensureAppAndEnqueueCreate o now (without_lifecycle p) false.
Definition EnsureAppAndEnqueueCreateResurrect o now p := ensureAppAndEnqueueCreate o now (without_lifecycle p) true.
Definition EnsureAppAndEnqueueCreateWithLifecycle o now p := ensureAppAndEnqueueCreate o now p false.

(** ** Claiming and completing *)

Definition seconds (n : Z) : Z := n * 10 ^ 9.

(** interval '2 seconds' * power(2, least(attempts, 5)). *)
Definition claim_backoff (attempts : Z) : Z := seconds 2 * 2 ^ Z.min attempts 5.

Definition claimable (now : Z) (op : Operation) : bool :=
  bool_decide (o_Status op = PENDING) && negb (String.eqb (o_Kind op) "image_prewarm") &&
  ((o_Attempts op =? 0) || (o_UpdatedAt op <? now - claim_backoff (o_Attempts op))).

(** ORDER BY created_at, ties by ID. *)
Definition created_before (a b : Operation) : bool :=
  (o_CreatedAt a <? o_CreatedAt b) || ((o_CreatedAt a =? o_CreatedAt b) && String.ltb (o_ID a) (o_ID b)).

Definition claimed (now : Z) (op : Operation) : Operation :=
  mkOp (o_ID op) (o_ProjectID op) (o_MachineID op) (o_ExecutionID op) (o_Generation op) (o_Kind op) (o_Request op)
    (o_CreatedAt op) CLAIMED (o_DispatchNodeID op) (o_Result op) (o_Error op) (o_Attempts op + 1) (Some now)
    (o_CompletedAt op) now.

(** The rows of the sub-select; [locked] are the ones another transaction has locked (SKIP LOCKED). *)
Definition claim_candidates (now : Z) (locked : gset string) (limit : nat) (db : DB) : list Operation :=
  take limit (sort_by created_before
    (filter (fun op => claimable now op = true /\ o_ID op ∉ locked) (map_to_list (operations db)).*2)).

Definition ClaimPendingOperations (o : exec_outcome) (now : Z) (locked : gset string) (limit : nat) :
    cmd DB (list Operation) :=
  inTx o (fun db =>
    let ops := map (claimed now) (claim_candidates now locked limit db) in
    (with_operations (insert_all (map (fun op => (o_ID op, op)) ops)) db, Ok ops)).

Definition update_op (o : exec_outcome) (format : string) (opID : string) (guard : op_status -> bool)
    (f : Operation -> Operation) : cmd DB unit :=
  cmd_exec o (fun e => Errorf format [AStr opID; AErr e])
    (set_op (fun op => if guard (o_Status op) then f op else op) opID).

Definition in_flight (s : op_status) : bool := match s with PENDING | CLAIMED => true | _ => false end.

Definition requeued (now : Z) (err : string) (claimed_at : option Z) (op : Operation) : Operation :=
  mkOp (o_ID op) (o_ProjectID op) (o_MachineID op) (o_ExecutionID op) (o_Generation op) (o_Kind op) (o_Request op)
    (o_CreatedAt op) PENDING (o_DispatchNodeID op) (o_Result op) err (o_Attempts op) claimed_at (o_CompletedAt op) now.

Definition is_claimed (s : op_status) : bool := match s with CLAIMED => true | _ => false end.

Definition RequeueOperation (o : exec_outcome) (now : Z) (opID opErr : string) : cmd DB unit :=
  update_op o "requeue op %s: %w" opID is_claimed (fun op => requeued now opErr (o_ClaimedAt op) op).

Definition lease_expired : string := "claim lease expired (controller crash or leader switch)".

(** The number of rows it answers with is only logged. *)
Definition RequeueStaleClaimed (o : exec_outcome) (now olderThan : Z) : cmd DB unit :=
  cmd_exec o (wrap "requeue stale claimed: %w")
    (with_operations (fmap (fun op =>
       if is_claimed (o_Status op) && (o_UpdatedAt op <? now - olderThan) then requeued now lease_expired None op else op))).

Definition completed (now : Z) (status : op_status) (result : option json) (err : string) (op : Operation) : Operation :=
  mkOp (o_ID op) (o_ProjectID op) (o_MachineID op) (o_ExecutionID op) (o_Generation op) (o_Kind op) (o_Request op)
    (o_CreatedAt op) status (o_DispatchNodeID op) result err (o_Attempts op) (o_ClaimedAt op) (Some now) now.

Definition CompleteOperation (o : exec_outcome) (now : Z) (opID : string) (statusText : op_status) (result : option json)
    (opErr : string) : cmd DB unit :=
  let statusText := if negb (String.eqb opErr "") && bool_decide (statusText = SUCCEEDED) then FAILED else statusText in
  update_op o "complete op %s: %w" opID in_flight (completed now statusText result opErr).

Definition dispatched (now : Z) (nodeID : string) (op : Operation) : Operation :=
  mkOp (o_ID op) (o_ProjectID op) (o_MachineID op) (o_ExecutionID op) (o_Generation op) (o_Kind op) (o_Request op)
    (o_CreatedAt op) (o_Status op) nodeID (o_Result op) (o_Error op) (o_Attempts op) (o_ClaimedAt op)
    (o_CompletedAt op) now.

Definition UpdateOperationDispatchNode (o : exec_outcome) (now : Z) (opID nodeID : string) : cmd DB unit :=
  update_op o "update dispatch node %s: %w" opID in_flight (dispatched now nodeID).

Definition terminal (s : op_status) : bool := negb (in_flight s).

(** DeleteTerminalOperationsOlderThan (store/operations.go). *)
Definition DeleteTerminalOperationsOlderThan (o : exec_outcome) (cutoff : Z) : cmd DB unit :=
  cmd_exec o (wrap "purge terminal operations: %w")
    (with_operations (filter (fun '(_, op) => terminal (o_Status op) && (o_UpdatedAt op <? cutoff) = false))).

(** ** Questions about the operations of a machine *)

Definition ops_of (db : DB) (machineID : string) : list Operation :=
  filter (fun op => o_MachineID op = machineID) (map_to_list (operations db)).*2.

Definition HasPendingOperationForMachine (db : DB) (machineID : string) : bool :=
  existsb (fun op => in_flight (o_Status op)) (ops_of db machineID).

(** ORDER BY created_at LIMIT 1. *)
Definition PendingOperationForMachine (db : DB) (machineID : string) : option Operation :=
  head (sort_by created_before (filter (fun op => in_flight (o_Status op) = true) (ops_of db machineID))).

(** ORDER BY created_at DESC, id DESC LIMIT 1. *)
Definition GetLatestOperationForMachine (db : DB) (machineID : string) : option Operation :=
  head (sort_by (fun a b => created_before b a) (ops_of db machineID)).

Definition LatestCreateDispatchNode (db : DB) (machineID executionID : string) : string :=
  match head (sort_by (fun a b => created_before b a)
                (filter (fun op => o_ExecutionID op = executionID /\ o_Kind op = "create"%string) (ops_of db machineID))) with
  | Some op => o_DispatchNodeID op
  | None => ""
  end.

(** The FAILED creates after the last SUCCEEDED one. *)
Definition FailedCreateAttempts (db : DB) (machineID : string) : Z :=
  let creates := filter (fun op => o_Kind op = "create"%string) (ops_of db machineID) in
  let succeeded := filter (fun op => o_Status op = SUCCEEDED) creates in
  Z.of_nat (length (filter (fun op => o_Status op = FAILED /\
    forallb (fun s => o_CreatedAt s <? o_CreatedAt op) succeeded = true) creates)).

Definition CreateDispatchedToAgent (db : DB) (machineID executionID : string) : bool :=
  existsb (fun op => String.eqb (o_ExecutionID op) executionID && String.eqb (o_Kind op) "create" &&
                     negb (String.eqb (o_DispatchNodeID op) "")) (ops_of db machineID).

Definition SecretCleanupDischarged (db : DB) (createOperationID : string) : bool :=
  match operations db !! ("op-secret-cleanup-" +:+ createOperationID) with
  | Some op => bool_decide (o_Status op = SUCCEEDED)
  | None => false
  end.

(** ** Machine rows *)

Definition set_machine (f : Machine -> Machine) (id : string) (db : DB) : DB := with_machines (alter f id) db.

(** UPDATE machines SET ... WHERE id=$1 AND guard: the number of rows is 1 or 0. *)
Definition update_machine (id : string) (guard : Machine -> bool) (f : Machine -> Machine) (db : DB) : DB * bool :=
  match machines db !! id with
  | Some m => if guard m then (set_machine f id db, true) else (db, false)
  | None => (db, false)
  end.

Definition exec_machine (o : exec_outcome) (wrap : goerr -> goerr) (id : string) (guard : Machine -> bool)
    (f : Machine -> Machine) : cmd DB unit :=
  cmd_exec o wrap (fun db => (update_machine id guard f db).1).

(** A statement whose RowsAffected the caller reads. *)
Definition count_machine (o : exec_outcome) (wrap : goerr -> goerr) (id : string) (guard : Machine -> bool)
    (f : Machine -> Machine) : cmd DB bool := fun db =>
  let '(db', n) := update_machine id guard f db in
  match o with Done => (db', Ok n) | FailedBefore e => (db, Err (wrap e)) | FailedAfter e => (db', Err (wrap e)) end.

Definition wrap_id (format id : string) (e : goerr) : goerr := Errorf format [AStr id; AErr e].

Definition set_placed (now : Z) (p : Placed) (m : Machine) : Machine :=
  mkMachine (shape m) (ReplicaOrdinal m) (IngressPort m) (m_Placement m) (DesiredState m) (m_Generation m)
    (CurrentExecutionID m) p (restart m) (ExpiresAt m) (DeletePhase m) now.
Definition set_restart (now : Z) (r : Restart) (m : Machine) : Machine :=
  mkMachine (shape m) (ReplicaOrdinal m) (IngressPort m) (m_Placement m) (DesiredState m) (m_Generation m)
    (CurrentExecutionID m) (placed m) r (ExpiresAt m) (DeletePhase m) now.
Definition set_lifecycle (now : Z) (desired : string) (expires : option Z) (phase : string) (m : Machine) : Machine :=
  mkMachine (shape m) (ReplicaOrdinal m) (IngressPort m) (m_Placement m) desired (m_Generation m)
    (CurrentExecutionID m) (placed m) (restart m) expires phase now.
Definition set_fence (now : Z) (executionID : string) (generation : Z) (m : Machine) : Machine :=
  mkMachine (shape m) (ReplicaOrdinal m) (IngressPort m) (m_Placement m) "CREATED" generation executionID
    unplaced (restart m) (ExpiresAt m) (DeletePhase m) now.

Definition not_deleted (m : Machine) : bool := negb (String.eqb (DesiredState m) "DELETED").
Definition is_active (m : Machine) : bool := not_deleted m && String.eqb (DeletePhase m) "ACTIVE".
Definition has_fence (executionID : string) (generation : Z) (m : Machine) : bool :=
  String.eqb (CurrentExecutionID m) executionID && (m_Generation m =? generation).

Definition UpdateMachineObserved (o : exec_outcome) (now : Z) (id executionID state slotIP readiness : string) : cmd DB unit :=
  exec_machine o (wrap_id "update observed %s: %w" id) id (fun m => String.eqb (CurrentExecutionID m) executionID)
    (fun m => set_placed now (mkPlaced (NodeID (placed m)) state slotIP readiness (Some now)) m).

Definition UpdateMachineNodeAndObserved (o : exec_outcome) (now : Z) (id nodeID executionID state slotIP readiness : string) :
    cmd DB unit :=
  exec_machine o (wrap_id "update machine node+observed %s: %w" id) id
    (fun m => String.eqb (CurrentExecutionID m) executionID)
    (fun m => set_placed now (mkPlaced nodeID state slotIP readiness (Some now)) m).

Definition UpdateMachineObservedWithFenceCAS (o : exec_outcome) (now : Z) (id nodeID executionID : string) (generation : Z)
    (state slotIP readiness : string) : cmd DB bool :=
  count_machine o (wrap_id "update observed fence-CAS %s: %w" id) id (has_fence executionID generation)
    (fun m => set_placed now (mkPlaced nodeID state slotIP readiness (Some now)) m).

Definition MarkMachineObservedMissing (o : exec_outcome) (now : Z) (id : string) : cmd DB unit :=
  exec_machine o (wrap_id "mark machine missing %s: %w" id) id (fun _ => true)
    (fun m => set_placed now (mkPlaced (NodeID (placed m)) "UNKNOWN" (ObservedSlotIP (placed m)) "UNKNOWN"
                                (LastObservedAt (placed m))) m).

Definition MarkMachineDeleted (o : exec_outcome) (now : Z) (id : string) : cmd DB unit :=
  exec_machine o (wrap_id "mark deleted %s: %w" id) id (fun _ => true)
    (fun m => set_lifecycle now "DELETED" (ExpiresAt m) (DeletePhase m) m).

Definition ResetMachineForRecreate (o : exec_outcome) (now : Z) (id executionID : string) (generation : Z) : cmd DB unit :=
  exec_machine o (wrap_id "reset machine %s: %w" id) id (fun _ => true) (set_fence now executionID generation).

(** RowsAffected() = 0: the row is closed or missing ([exists_err]: machineExists could not read). *)
Definition lifecycle_result (exists_err : bool) (id : string) (m : cmd DB bool) : cmd DB unit := fun db =>
  match m db with
  | (db', Err e) => (db', Err e)
  | (db', Ok true) => (db', Ok tt)
  | (db', Ok false) =>
      (db', Err (if negb exists_err && bool_decide (is_Some (machines db' !! id))
                 then ErrMachineLifecycleClosed else ErrMachineNotFound))
  end.

Definition unexpired (now : Z) (m : Machine) : bool :=
  match ExpiresAt m with None => true | Some t => now <? t end.

Definition SetMachineExpiry (o : exec_outcome) (exists_err : bool) (now : Z) (id : string) (expiresAt : option Z) : cmd DB unit :=
  lifecycle_result exists_err id
    (count_machine o (wrap "set machine expiry: %w") id (fun m => not_deleted m && unexpired now m)
       (fun m => set_lifecycle now (DesiredState m) expiresAt (DeletePhase m) m)).

Definition SetMachineRestartPolicy (o : exec_outcome) (exists_err : bool) (now : Z) (id mode : string)
    (maxAttempts backoffSeconds stableWindowSeconds : Z) : cmd DB unit :=
  lifecycle_result exists_err id
    (count_machine o (wrap "set restart policy: %w") id not_deleted
       (fun m => let r := restart m in
          set_restart now (mkRestart mode maxAttempts backoffSeconds stableWindowSeconds (RestartAttempts r)
            (RestartNextAttemptAt r) (RestartStableSince r) (RestartBlocked r) (RestartFailedExecution r)) m)).

Definition MarkExpiredRouteDetached (o : exec_outcome) (now : Z) (id : string) : cmd DB unit :=
  exec_machine o (fun e => e) id (fun m => is_active m && negb (unexpired now m))
    (fun m => set_lifecycle now (DesiredState m) (ExpiresAt m) "ROUTE_DETACHED" m).

Definition ExpiredRouteDetached (db : DB) (id executionID : string) : bool :=
  match machines db !! id with
  | Some m => String.eqb (DeletePhase m) "ROUTE_DETACHED" && negb (bool_decide ((id, executionID) ∈ route_backends db))
  | None => false
  end.

(** ORDER BY expires_at. *)
Definition expires_before (a b : Machine) : bool :=
  match ExpiresAt a, ExpiresAt b with Some s, Some t => s <? t | _, _ => false end.
Definition ListExpiredMachines (now : Z) (db : DB) : list Machine :=
  sort_by expires_before
    (filter (fun m => negb (unexpired now m) && not_deleted m = true) (map_to_list (machines db)).*2).

(** ** Restarts (store/restart.go) *)

Definition PrepareRestartBackoff (o : exec_outcome) (now : Z) (id failedExecution : string) (generation nextAt : Z) : cmd DB bool :=
  count_machine o (wrap "prepare restart backoff: %w") id
    (fun m => has_fence failedExecution generation m && is_active m &&
              negb (bool_decide (RestartFailedExecution (restart m) = Some failedExecution)))
    (fun m => let r := restart m in
       set_restart now (mkRestart (RestartMode r) (RestartMaxAttempts r) (RestartBackoffSeconds r)
         (RestartStableWindowSeconds r) (RestartAttempts r) (Some nextAt) (RestartStableSince r) (RestartBlocked r)
         (Some failedExecution)) m).

Definition RestartAttemptNumber (db : DB) (id failedExecution : string) (generation : Z) : res Z :=
  match machines db !! id with
  | Some m => if has_fence failedExecution generation m && is_active m
              then Ok (RestartAttempts (restart m) + 1) else Err ErrMachineLifecycleClosed
  | None => Err ErrMachineLifecycleClosed
  end.

Definition restarted (now : Z) (newExecution : string) (expectedGeneration nextAt : Z) (m : Machine) : Machine :=
  let r := restart m in
  set_restart now (mkRestart (RestartMode r) (RestartMaxAttempts r) (RestartBackoffSeconds r)
    (RestartStableWindowSeconds r) (RestartAttempts r + 1) (Some nextAt) None (RestartBlocked r) (RestartFailedExecution r))
    (set_fence now newExecution (expectedGeneration + 1) m).

Definition restart_due (now : Z) (failedExecution : string) (expectedGeneration : Z) (m : Machine) : bool :=
  has_fence failedExecution expectedGeneration m && is_active m &&
  bool_decide (RestartFailedExecution (restart m) = Some failedExecution) &&
  match RestartNextAttemptAt (restart m) with Some t => t <=? now | None => false end.

Definition EnqueueRestartCAS (o : exec_outcome) (now : Z) (projectID machineID failedExecution newExecution operationID : string)
    (expectedGeneration : Z) (requestJSON : option json) (nextAt : Z) : cmd DB Operation :=
  inTx o (fun db =>
    match machines db !! machineID with
    | None => (db, Err ErrMachineLifecycleClosed)
    | Some m =>
        match apps db !! m_AppID (shape m) with
        | None => (db, Err ErrMachineLifecycleClosed)
        | Some a =>
            if negb (restart_due now failedExecution expectedGeneration m) then (db, Err ErrMachineLifecycleClosed)
            else
              let actualProject := ap_ProjectID a in
              if negb (String.eqb projectID "") && negb (String.eqb projectID actualProject)
              then (db, Err (ownershipConflict "machine" machineID "project_id"))
              else
                (_ <~ insert_operation now (mkEnqueue actualProject machineID newExecution operationID
                        (expectedGeneration + 1) "create" requestJSON None) ;;
                 cmd_read None id (inserted actualProject operationID requestJSON))%go
                  (set_machine (restarted now newExecution expectedGeneration nextAt) machineID db)
        end
    end).

Definition RecordRestartAttempt (o : exec_outcome) (now : Z) (id : string) (attempts nextAt : Z) : cmd DB unit := fun db =>
  let '(db', r) := count_machine o (wrap "record restart attempt: %w") id not_deleted
    (fun m => let r := restart m in
       set_restart now (mkRestart (RestartMode r) (RestartMaxAttempts r) (RestartBackoffSeconds r)
         (RestartStableWindowSeconds r) attempts (Some nextAt) None (RestartBlocked r) (RestartFailedExecution r)) m) db in
  (db', match r with Err e => Err e | Ok true => Ok tt | Ok false => Err ErrMachineLifecycleClosed end).

Definition SetRestartStableSince (o : exec_outcome) (now : Z) (id : string) (t : option Z) : cmd DB unit :=
  exec_machine o (wrap "set restart stable since: %w") id (fun _ => true)
    (fun m => let r := restart m in
       set_restart now (mkRestart (RestartMode r) (RestartMaxAttempts r) (RestartBackoffSeconds r)
         (RestartStableWindowSeconds r) (RestartAttempts r) (RestartNextAttemptAt r) t (RestartBlocked r)
         (RestartFailedExecution r)) m).

Definition ResetRestartAttempts (o : exec_outcome) (now : Z) (id : string) : cmd DB unit := fun db =>
  let '(db', r) := count_machine o (wrap "reset restart attempts: %w") id (fun _ => true)
    (fun m => let r := restart m in
       set_restart now (mkRestart (RestartMode r) (RestartMaxAttempts r) (RestartBackoffSeconds r)
         (RestartStableWindowSeconds r) 0 None None false (RestartFailedExecution r)) m) db in
  (db', match r with Err e => Err e | Ok true => Ok tt | Ok false => Err ErrMachineNotFound end).

Definition BlockRestart (o : exec_outcome) (now : Z) (id : string) (blocked : bool) : cmd DB unit :=
  exec_machine o (wrap "block restart: %w") id (fun _ => true)
    (fun m => let r := restart m in
       set_restart now (mkRestart (RestartMode r) (RestartMaxAttempts r) (RestartBackoffSeconds r)
         (RestartStableWindowSeconds r) (RestartAttempts r) (RestartNextAttemptAt r) (RestartStableSince r) blocked
         (RestartFailedExecution r)) m).

(** ** Secret delivery leases (store/secret_leases.go) *)

Definition SecretLeaseForExecution (db : DB) (machineID executionID : string) : res SecretLease :=
  match leases db !! (machineID, executionID) with Some l => Ok l | None => Err ErrSecretLeaseNotFound end.

Definition MachineHasActiveSecretDelivery (db : DB) (machineID executionID : string) : bool :=
  bool_decide (is_Some (leases db !! (machineID, executionID))).

Definition DefaultSecretLeaseTTL : Z := seconds 600.

Definition lease_conflict (machineID executionID : string) : goerr :=
  Errorf "%w: %s/%s" [AErr ErrSecretLeaseConflict; AStr machineID; AStr executionID].

Definition same_binding (l : SecretLease) (projectID : string) (generation : Z) (operationID requestHash : string) : bool :=
  String.eqb (sl_ProjectID l) projectID && (sl_Generation l =? generation) &&
  String.eqb (sl_OperationID l) operationID && String.eqb (sl_RequestHash l) requestHash.

(** The first lookup is a statement of its own: [seen] is what it answered. [id] is the
    new lease's ID, [ttl] in nanoseconds, rounded to seconds ([%.0f], ties to even). *)
Definition round_seconds (ttl : Z) : Z :=
  let q := ttl / 10 ^ 9 in let r := ttl mod 10 ^ 9 in
  seconds (if 2 * r <? 10 ^ 9 then q else if 10 ^ 9 <? 2 * r then q + 1 else if Z.even q then q else q + 1).

Definition EnsureSecretLease (seen : res SecretLease) (o : exec_outcome) (now : Z) (id projectID machineID executionID : string)
    (generation : Z) (operationID requestHash : string) (ttl : Z) : cmd DB SecretLease := fun db =>
  let ttl := if ttl <=? 0 then DefaultSecretLeaseTTL else ttl in
  let existing l :=
    if same_binding l projectID generation operationID requestHash then Ok l
    else Err (lease_conflict machineID executionID) in
  let l := mkLease id projectID machineID executionID generation operationID requestHash SecretLeaseIssued
             (now + round_seconds ttl) now in
  let again db' e := match leases db' !! (machineID, executionID) with
                     | Some l => (db', existing l)
                     | None => (db', Err (wrap "ensure secret lease: %w" e))
                     end in
  match seen with
  | Ok l => (db, existing l)
  | Err e =>
      if negb (goerr_eqb e ErrSecretLeaseNotFound) then (db, Err (wrap "lookup secret lease: %w" e))
      else match o, leases db !! (machineID, executionID) with
           | FailedBefore e, _ => again db e
           | _, Some _ => again db (unique_violation "sdl_one_per_machine_execution")
           | Done, None => (with_leases <[(machineID, executionID) := l]> db, Ok l)
           | FailedAfter e, None => again (with_leases <[(machineID, executionID) := l]> db) e
           end
  end.

Definition set_lease_state (s : lease_state) (l : SecretLease) : SecretLease :=
  mkLease (sl_ID l) (sl_ProjectID l) (sl_MachineID l) (sl_ExecutionID l) (sl_Generation l) (sl_OperationID l)
    (sl_RequestHash l) s (sl_ExpiresAt l) (sl_CreatedAt l).

(** WHERE id=... AND project_id=... AND generation=... AND operation_id=... AND request_hash=... *)
Definition bound_to (l row : SecretLease) : bool :=
  String.eqb (sl_ID row) (sl_ID l) && same_binding row (sl_ProjectID l) (sl_Generation l) (sl_OperationID l) (sl_RequestHash l).

Definition lease_key (l : SecretLease) : string * string := (sl_MachineID l, sl_ExecutionID l).

Definition update_lease (l : SecretLease) (guard : SecretLease -> bool) (next : lease_state) (db : DB) : DB * bool :=
  match leases db !! lease_key l with
  | Some row => if bound_to l row && guard row then (with_leases <[lease_key l := set_lease_state next row]> db, true) else (db, false)
  | None => (db, false)
  end.

Definition state_name (s : lease_state) : string :=
  match s with
  | SecretLeaseIssued => "ISSUED" | SecretLeaseClaimed => "CLAIMED" | SecretLeaseDelivered => "DELIVERED"
  | SecretLeaseUncertain => "UNCERTAIN" | SecretLeaseAcked => "ACKED" | SecretLeaseExpired => "EXPIRED"
  | SecretLeaseRevoked => "REVOKED"
  end.

Definition lease_rejected (l : SecretLease) (next : lease_state) : goerr :=
  Errorf "%w: %s to %s" [AErr ErrSecretLeaseTransition; AStr (sl_ID l); AStr (state_name next)].

Definition transitionSecretLease (o : exec_outcome) (now : Z) (l : SecretLease) (next : lease_state) (from : list lease_state) :
    cmd DB unit := fun db =>
  let '(db', n) := update_lease l (fun row => (sl_ExpiresAt row =? sl_ExpiresAt l) && (now <? sl_ExpiresAt row) &&
                                              bool_decide (sl_State row ∈ from)) next db in
  let failed e := Errorf "transition secret lease to %s: %w" [AStr (state_name next); AErr e] in
  match o with
  | FailedBefore e => (db, Err (failed e))
  | FailedAfter e => (db', Err (failed e))
  | Done => (db', if n then Ok tt else Err (lease_rejected l next))
  end.

Definition terminal_lease (l : SecretLease) : goerr := Errorf "%w: lease %s is %s" [AErr ErrSecretLeaseTerminal; AStr (sl_ID l); AStr (state_name (sl_State l))].

(** [clock] is the controller's, [now] the database's. *)
Definition ClaimSecretLease (o : exec_outcome) (clock now : Z) (l : SecretLease) : cmd DB unit :=
  match sl_State l with
  | SecretLeaseIssued =>
      if sl_ExpiresAt l =? zero_time
      then cmd_ret (Err (Errorf "%w: lease %s has zero expires_at" [AErr ErrSecretLeaseTransition; AStr (sl_ID l)]))
      else if negb (clock <? sl_ExpiresAt l)
      then cmd_ret (Err (Errorf "%w: lease %s expired at %s" [AErr ErrSecretLeaseTerminal; AStr (sl_ID l); AInt (sl_ExpiresAt l)]))
      else transitionSecretLease o now l SecretLeaseClaimed [SecretLeaseIssued]
  | _ => cmd_ret (Err (terminal_lease l))
  end.

Definition MarkSecretLeaseDelivered (o : exec_outcome) (now : Z) (l : SecretLease) : cmd DB unit :=
  transitionSecretLease o now l SecretLeaseDelivered [SecretLeaseClaimed; SecretLeaseDelivered].

Definition MarkSecretLeaseAcked (o : exec_outcome) (now : Z) (l : SecretLease) : cmd DB unit :=
  transitionSecretLease o now l SecretLeaseAcked [SecretLeaseIssued; SecretLeaseClaimed; SecretLeaseDelivered; SecretLeaseAcked].

Definition not_final (s : op_status) : bool := match s with PENDING | CLAIMED | FAILED => true | _ => false end.

Definition failed_create (now : Z) (cause : string) (op : Operation) : Operation :=
  completed now FAILED (o_Result op) cause op.

Definition MarkSecretCreateUncertainAndEnqueueCleanup (o : exec_outcome) (now : Z) (op : Operation) (l : SecretLease)
    (cleanupOperationID : string) (cleanupRequest : option json) (cause : string) : cmd DB unit :=
  inTx o (fun db =>
    let '(db', n) := update_lease l (fun row => bool_decide (sl_State row ∈ [SecretLeaseClaimed; SecretLeaseUncertain]))
                       SecretLeaseUncertain db in
    if negb n then (db, Err (lease_rejected l SecretLeaseUncertain))
    else
      let db' := set_op (fun row => if not_final (o_Status row) then failed_create now cause row else row) (o_ID op) db' in
      insert_operation now (mkEnqueue (o_ProjectID op) (o_MachineID op) (o_ExecutionID op) cleanupOperationID
        (o_Generation op) "reap" cleanupRequest (Some (o_DispatchNodeID op))) db').

(** Its two statements: REVOKED where the execution is no longer current, EXPIRED past the deadline. *)
Definition revoke_leases (db : DB) : DB :=
  with_leases (fmap (fun l =>
    if bool_decide (sl_State l ∈ [SecretLeaseIssued; SecretLeaseClaimed; SecretLeaseDelivered; SecretLeaseUncertain]) &&
       negb (match machines db !! sl_MachineID l with
             | Some m => String.eqb (CurrentExecutionID m) (sl_ExecutionID l) && not_deleted m
             | None => false
             end)
    then set_lease_state SecretLeaseRevoked l else l)) db.
Definition expire_leases (now : Z) (db : DB) : DB :=
  with_leases (fmap (fun l =>
    if bool_decide (sl_State l ∈ [SecretLeaseIssued; SecretLeaseClaimed; SecretLeaseDelivered]) && (sl_ExpiresAt l <? now)
    then set_lease_state SecretLeaseExpired l else l)) db.
Definition ReapSecretLeases (o1 o2 : exec_outcome) (now : Z) : cmd DB unit :=
  (_ <~ cmd_exec o1 (wrap "revoke secret leases: %w") revoke_leases ;;
   cmd_exec o2 (wrap "expire secret leases: %w") (expire_leases now))%go.

(** ** Histories *)

(** The three kinds of statements that can undo what the others only add to: the
    revival of a deleted machine by its owner, the reset of a machine that is moved off
    its node, and the purge of old operations. *)
Inductive access := Plain | Resurrect | Reset | Purge.
#[local] Instance access_eq_dec : EqDecision access.
Proof. solve_decision. Defined.

(** One statement of any process, with any outcome and at any time. *)
Inductive step : access -> DB -> DB -> Prop :=
  | step_delete o now e db : step Plain db (enqueueDeleteKind o now e db).1
  | step_enqueue o now e db : step Plain db (EnqueueOperation o now e db).1
  | step_create o now p db : step Plain db (ensureAppAndEnqueueCreate o now p false db).1
  | step_resurrect o now p db : step Resurrect db (ensureAppAndEnqueueCreate o now p true db).1
  | step_claim o now locked limit db : step Plain db (ClaimPendingOperations o now locked limit db).1
  | step_requeue o now id err db : step Plain db (RequeueOperation o now id err db).1
  | step_stale o now age db : step Plain db (RequeueStaleClaimed o now age db).1
  | step_complete o now id status result err db : step Plain db (CompleteOperation o now id status result err db).1
  | step_dispatch o now id node db : step Plain db (UpdateOperationDispatchNode o now id node db).1
  | step_observed o now id exec state ip ready db : step Plain db (UpdateMachineObserved o now id exec state ip ready db).1
  | step_placed o now id node exec state ip ready db :
      step Plain db (UpdateMachineNodeAndObserved o now id node exec state ip ready db).1
  | step_fenced o now id node exec gen state ip ready db :
      step Plain db (UpdateMachineObservedWithFenceCAS o now id node exec gen state ip ready db).1
  | step_missing o now id db : step Plain db (MarkMachineObservedMissing o now id db).1
  | step_deleted o now id db : step Plain db (MarkMachineDeleted o now id db).1
  | step_reset o now id exec gen db : step Reset db (ResetMachineForRecreate o now id exec gen db).1
  | step_expiry o x now id t db : step Plain db (SetMachineExpiry o x now id t db).1
  | step_policy o x now id mode a b c db : step Plain db (SetMachineRestartPolicy o x now id mode a b c db).1
  | step_detached o now id db : step Plain db (MarkExpiredRouteDetached o now id db).1
  | step_backoff o now id exec gen t db : step Plain db (PrepareRestartBackoff o now id exec gen t db).1
  | step_restart o now p id failed new op gen req t db : step Plain db (EnqueueRestartCAS o now p id failed new op gen req t db).1
  | step_attempt o now id n t db : step Plain db (RecordRestartAttempt o now id n t db).1
  | step_stable o now id t db : step Plain db (SetRestartStableSince o now id t db).1
  | step_reset_attempts o now id db : step Plain db (ResetRestartAttempts o now id db).1
  | step_block o now id b db : step Plain db (BlockRestart o now id b db).1
  | step_lease seen o now id p m e g op h ttl db : step Plain db (EnsureSecretLease seen o now id p m e g op h ttl db).1
  | step_claim_lease o clock now l db : step Plain db (ClaimSecretLease o clock now l db).1
  | step_delivered o now l db : step Plain db (MarkSecretLeaseDelivered o now l db).1
  | step_acked o now l db : step Plain db (MarkSecretLeaseAcked o now l db).1
  | step_uncertain o now op l cleanup req cause db :
      step Plain db (MarkSecretCreateUncertainAndEnqueueCleanup o now op l cleanup req cause db).1
  | step_revoke_leases o db : step Plain db (cmd_exec o (wrap "revoke secret leases: %w") revoke_leases db).1
  | step_expire_leases o now db : step Plain db (cmd_exec o (wrap "expire secret leases: %w") (expire_leases now) db).1
  | step_purge o cutoff db : step Purge db (DeleteTerminalOperationsOlderThan o cutoff db).1.

Definition steps (allowed : access -> Prop) : DB -> DB -> Prop := rtc (fun db db' => exists a, allowed a /\ step a db db').

(** ** What statements preserve *)

(** What the insert of an operation fixed for ever. *)
Definition ident (op : Operation) :=
  (o_ID op, o_ProjectID op, o_MachineID op, o_ExecutionID op, o_Generation op, o_Kind op, o_Request op, o_CreatedAt op).

Definition final (s : op_status) : bool := match s with SUCCEEDED | SUPERSEDED => true | _ => false end.

(** What one statement may do to a row of operations. *)
Definition op_edge (s s' : op_status) : Prop := s' = s \/ in_flight s = true \/ (s = FAILED /\ s' = PENDING).

Record op_step (op op' : Operation) : Prop := mkOpStep {
  st_ident : ident op' = ident op;
  st_edge : op_edge (o_Status op) (o_Status op');
  st_attempts : o_Attempts op <= o_Attempts op';
  st_final : final (o_Status op) = true -> op' = op }.

Definition ops_step (ops ops' : gmap string Operation) : Prop :=
  (forall id op, ops !! id = Some op -> exists op', ops' !! id = Some op' /\ op_step op op') /\
  (forall id op', ops !! id = None -> ops' !! id = Some op' -> o_ID op' = id /\ o_Status op' = PENDING).

(** The purge leaves a row as it is or, when it is terminal, takes it away. *)
Definition ops_purged (ops ops' : gmap string Operation) : Prop :=
  forall id, ops' !! id = ops !! id \/ (ops' !! id = None /\ exists op, ops !! id = Some op /\ terminal (o_Status op) = true).

(** The fence of a machine: its execution and generation. *)
Definition fence (m : Machine) : string * Z := (CurrentExecutionID m, m_Generation m).

Record machine_step (a : access) (m m' : Machine) : Prop := mkMachineStep {
  ms_shape : shape m' = shape m;
  ms_generation : a <> Reset -> m_Generation m <= m_Generation m';
  ms_deleted : DesiredState m = "DELETED" -> a <> Resurrect -> a <> Reset -> DesiredState m' = "DELETED" /\ fence m' = fence m;
  ms_fence : fence m' <> fence m -> DesiredState m' = "CREATED";
  ms_execution : CurrentExecutionID m' <> CurrentExecutionID m -> placed m' = unplaced }.

(** ISSUED before CLAIMED before the outcome before the end. *)
Definition lease_rank (s : lease_state) : nat :=
  match s with
  | SecretLeaseIssued => 0 | SecretLeaseClaimed => 1 | SecretLeaseDelivered | SecretLeaseUncertain => 2
  | SecretLeaseAcked | SecretLeaseExpired | SecretLeaseRevoked => 3
  end.

Definition lease_step (l l' : SecretLease) : Prop :=
  l' = l \/ (l' = set_lease_state (sl_State l') l /\ (lease_rank (sl_State l) < lease_rank (sl_State l'))%nat).

(** Rows lie under their keys. *)
Record keyed (db : DB) : Prop := mkKeyed {
  k_ops : forall id op, operations db !! id = Some op -> o_ID op = id;
  k_machines : forall id m, machines db !! id = Some m -> m_ID (shape m) = id;
  k_leases : forall k l, leases db !! k = Some l -> lease_key l = k }.

Record db_step (a : access) (db db' : DB) : Prop := mkDbStep {
  ds_apps : forall id ap, apps db !! id = Some ap -> exists ap', apps db' !! id = Some ap' /\ ap_ProjectID ap' = ap_ProjectID ap;
  ds_deployments : deployments db' = deployments db;
  ds_machines : forall id m, machines db !! id = Some m -> exists m', machines db' !! id = Some m' /\ machine_step a m m';
  ds_ops : a <> Purge -> ops_step (operations db) (operations db');
  ds_purged : a = Purge -> ops_purged (operations db) (operations db');
  ds_leases : forall k l, leases db !! k = Some l -> exists l', leases db' !! k = Some l' /\ lease_step l l';
  ds_keyed : keyed db' }.

(** *** Rows *)

Lemma op_step_refl op : op_step op op.
Proof. split; [done|by left|lia|done]. Qed.

Lemma ops_step_refl ops : ops_step ops ops.
Proof. split; [|by intros id op' -> ]. intros id op H. exists op. split; [done|apply op_step_refl]. Qed.

(** A statement that updates rows in place. *)
Lemma ops_step_update ops ops' :
  (forall id op, ops !! id = Some op -> exists op', ops' !! id = Some op' /\ op_step op op') ->
  (forall id, ops !! id = None -> ops' !! id = None) -> ops_step ops ops'.
Proof. intros H1 H2. split; [done|]. intros id op' Hn Hs. apply H2 in Hn. congruence. Qed.

Lemma ops_step_alter f id ops : (forall op, ops !! id = Some op -> op_step op (f op)) -> ops_step ops (alter f id ops).
Proof.
  intros Hf. apply ops_step_update; intros id'; destruct (decide (id = id')) as [<-|Hne].
  - intros op Hop. rewrite lookup_alter_eq, Hop. cbn. eauto.
  - intros op Hop. rewrite lookup_alter_ne, Hop by done. eauto using op_step_refl.
  - intros Hn. by rewrite lookup_alter_eq, Hn.
  - by rewrite lookup_alter_ne.
Qed.

Lemma ops_step_fmap f ops : (forall op, op_step op (f op)) -> ops_step ops (f <$> ops).
Proof.
  intros Hf. apply ops_step_update; intros id; rewrite lookup_fmap.
  - intros op H. rewrite H. cbn. eauto.
  - intros H. by rewrite H.
Qed.

Lemma machine_step_refl a m : machine_step a m m.
Proof. by split. Qed.

Lemma lease_step_refl l : lease_step l l.
Proof. by left. Qed.

Lemma lease_step_set l s : (lease_rank (sl_State l) < lease_rank s)%nat -> lease_step l (set_lease_state s l).
Proof. intros H. by right. Qed.

(** *** Tables *)

Ltac same_rows := intros; eauto using machine_step_refl, lease_step_refl.

Lemma db_step_refl a db : keyed db -> db_step a db db.
Proof. split; same_rows; [apply ops_step_refl|intros id; by left]. Qed.

Lemma db_step_ops a db f :
  keyed db -> a <> Purge -> ops_step (operations db) (f (operations db)) ->
  (forall id op, f (operations db) !! id = Some op -> o_ID op = id) -> db_step a db (with_operations f db).
Proof. intros [] Ha Hf Hk. split; cbn; same_rows; done. Qed.

(** Rows keep their IDs. *)
Lemma ops_step_keyed ops ops' :
  (forall id op, ops !! id = Some op -> o_ID op = id) -> ops_step ops ops' ->
  forall id op, ops' !! id = Some op -> o_ID op = id.
Proof.
  intros Hk [H1 H2] id op' H. destruct (ops !! id) as [op|] eqn:E; [|by destruct (H2 id op' E H)].
  destruct (H1 id op E) as (op2 & E2 & [Hi _ _ _]). rewrite H in E2. injection E2 as <-.
  unfold ident in Hi. injection Hi as Hid. rewrite Hid. by apply Hk.
Qed.

Lemma db_step_ops' a db f :
  keyed db -> a <> Purge -> ops_step (operations db) (f (operations db)) -> db_step a db (with_operations f db).
Proof. intros Hk Ha Hf. apply db_step_ops; [done..|]. eapply ops_step_keyed; [apply Hk|exact Hf]. Qed.

Lemma db_step_set_op a db f id :
  keyed db -> a <> Purge -> (forall op, operations db !! id = Some op -> op_step op (f op)) -> db_step a db (set_op f id db).
Proof. intros Hk Ha Hf. apply db_step_ops'; [done..|]. by apply ops_step_alter. Qed.

Lemma db_step_machine a db f id :
  keyed db -> a <> Purge -> (forall m, machines db !! id = Some m -> machine_step a m (f m)) -> db_step a db (set_machine f id db).
Proof.
  intros Hk Ha Hf. assert (Hm : forall id' m, machines db !! id' = Some m ->
    exists m', alter f id (machines db) !! id' = Some m' /\ machine_step a m m').
  { intros id' m H. destruct (decide (id = id')) as [<-|Hne].
    - rewrite lookup_alter_eq, H. cbn. eauto.
    - rewrite lookup_alter_ne by done. eauto using machine_step_refl. }
  split; cbn; same_rows; [apply ops_step_refl|done|].
  split; cbn; [apply Hk| |apply Hk]. intros id' m'. destruct (decide (id = id')) as [<-|Hne].
  - rewrite lookup_alter_eq. destruct (machines db !! id) as [m|] eqn:E; [|done]. cbn. intros [= <-].
    destruct (Hf m eq_refl) as [Hs _ _ _ _]. rewrite Hs. by apply (k_machines db Hk).
  - rewrite lookup_alter_ne by done. apply Hk.
Qed.

Lemma update_machine_step a db id guard f :
  keyed db -> a <> Purge -> (forall m, machines db !! id = Some m -> guard m = true -> machine_step a m (f m)) ->
  db_step a db (update_machine id guard f db).1.
Proof.
  intros Hk Ha Hf. unfold update_machine. destruct (machines db !! id) as [m|] eqn:E; [|by apply db_step_refl].
  destruct (guard m) eqn:G; [|by apply db_step_refl]. cbn. apply db_step_machine; [done..|].
  intros m' Hm'. rewrite E in Hm'. injection Hm' as <-. auto.
Qed.

Lemma exec_step a (db : DB) o wr (f : DB -> DB) : db_step a db db -> db_step a db (f db) -> db_step a db (cmd_exec o wr f db).1.
Proof. by destruct o. Qed.

Lemma exec_machine_step a db o wr id guard f :
  keyed db -> a <> Purge -> (forall m, machines db !! id = Some m -> guard m = true -> machine_step a m (f m)) ->
  db_step a db (exec_machine o wr id guard f db).1.
Proof. intros. apply exec_step; [by apply db_step_refl|by apply update_machine_step]. Qed.

Lemma count_machine_step a db o wr id guard f :
  keyed db -> a <> Purge -> (forall m, machines db !! id = Some m -> guard m = true -> machine_step a m (f m)) ->
  db_step a db (count_machine o wr id guard f db).1.
Proof.
  intros Hk Ha Hf. pose proof (update_machine_step a db id guard f Hk Ha Hf) as H. revert H.
  unfold count_machine. destruct (update_machine id guard f db) as [db' n]. destruct o; cbn; [done| |done].
  intros _. by apply db_step_refl.
Qed.

Lemma lifecycle_result_db x id m db : (lifecycle_result x id m db).1 = (m db).1.
Proof. unfold lifecycle_result. by destruct (m db) as [db' [[]|]]. Qed.

Lemma update_op_step a db o fmt id guard f :
  keyed db -> a <> Purge ->
  (forall op, operations db !! id = Some op -> guard (o_Status op) = true -> op_step op (f op)) ->
  db_step a db (update_op o fmt id guard f db).1.
Proof.
  intros Hk Ha Hf. apply exec_step; [by apply db_step_refl|]. apply db_step_set_op; [done..|].
  intros op H. destruct (guard (o_Status op)) eqn:G; [auto|apply op_step_refl].
Qed.

Lemma db_step_leases a db f :
  keyed db -> a <> Purge ->
  (forall k l, leases db !! k = Some l -> exists l', f (leases db) !! k = Some l' /\ lease_step l l') ->
  (forall k l, f (leases db) !! k = Some l -> lease_key l = k) -> db_step a db (with_leases f db).
Proof. intros [] Ha Hf Hk. split; cbn; same_rows; [apply ops_step_refl|done|done]. Qed.

Lemma lease_step_key l l' : lease_step l l' -> lease_key l' = lease_key l.
Proof. intros [->|[-> _]]; done. Qed.

Lemma inTx_step {A} a db o (body : DB -> DB * res A) :
  keyed db -> (forall db' r, body db = (db', Ok r) -> db_step a db db') -> db_step a db (inTx o body db).1.
Proof.
  intros Hk Hb. destruct (inTx_cases o body db) as [->|(r & db' & E & ->)]; [by apply db_step_refl|eauto].
Qed.

(** *** Composition *)

Lemma final_in_flight s : in_flight s = true -> final s = false.
Proof. by destruct s. Qed.

Lemma insert_operation_step a db e now db' r :
  keyed db -> a <> Purge -> insert_operation now e db = (db', Ok r) -> db_step a db db'.
Proof.
  intros Hk Ha. unfold insert_operation. destruct (e_Request e) as [req|]; [|done].
  destruct (node_column _) as [node|]; [|done]. destruct (operations db !! e_OperationID e) as [op|] eqn:E.
  - case_match; [|done]. intros [= <- <-]. by apply db_step_refl.
  - case_match; [done|]. intros [= <- <-]. apply db_step_ops'; [done..|]. split.
    + intros id op Hop. exists op. split; [|apply op_step_refl]. rewrite lookup_insert_ne; [done|]. intros <-. congruence.
    + intros id op' Hn. destruct (decide (id = e_OperationID e)) as [->|Hne].
      * rewrite lookup_insert_eq. by intros [= <-].
      * rewrite lookup_insert_ne by done. congruence.
Qed.

Lemma insert_operation_after a db db1 e now db2 r :
  db_step a db db1 -> a <> Purge -> insert_operation now e db1 = (db2, Ok r) -> db_step a db db2.
Proof.
  intros H1 Ha Hi. pose proof (insert_operation_step a db1 e now db2 r (ds_keyed _ _ _ H1) Ha Hi) as H2. revert Hi.
  unfold insert_operation. destruct (e_Request e) as [req|]; [|done].
  destruct (node_column _) as [node|]; [|done]. destruct (operations db1 !! e_OperationID e) as [op|] eqn:E.
  - case_match; [|done]. by intros [= <- <-].
  - case_match; [done|]. intros [= <- <-]. destruct H1 as [A1 A2 A3 A4 A5 A6 A7]. split; try done; [intros _|apply H2].
    destruct (A4 Ha) as [B1 B2]. cbn. split.
    + intros id op Hop. destruct (B1 id op Hop) as (op' & E' & Hs). exists op'. split; [|done].
      rewrite lookup_insert_ne; [done|]. intros <-. congruence.
    + intros id op' Hn. destruct (decide (id = e_OperationID e)) as [->|Hne].
      * rewrite lookup_insert_eq. by intros [= <-].
      * rewrite lookup_insert_ne by done. by apply B2.
Qed.

(** A change of [apps] that keeps owners, before another statement of the transaction. *)
Lemma db_step_after_apps a db f db' :
  (forall id ap, apps db !! id = Some ap -> exists ap', f (apps db) !! id = Some ap' /\ ap_ProjectID ap' = ap_ProjectID ap) ->
  db_step a (with_apps f db) db' -> db_step a db db'.
Proof.
  intros Hf [A1 A2 A3 A4 A5 A6 A7]. split; try done. intros id ap H. destruct (Hf id ap H) as (ap1 & E1 & <-).
  apply A1 in E1. exact E1.
Qed.

Lemma insert_app_owner (apps : gmap string AppRow) id row :
  (forall ap, apps !! id = Some ap -> ap_ProjectID row = ap_ProjectID ap) ->
  forall id' ap, apps !! id' = Some ap -> exists ap', <[id:=row]> apps !! id' = Some ap' /\ ap_ProjectID ap' = ap_ProjectID ap.
Proof.
  intros H id' ap Hap. destruct (decide (id = id')) as [<-|Hne].
  - rewrite lookup_insert_eq. eauto.
  - rewrite lookup_insert_ne by done. eauto.
Qed.

Lemma upsert_app_spec a p db db1 r db' :
  upsert_app p db = (db1, Ok r) -> db_step a db1 db' -> db_step a db db'.
Proof.
  unfold upsert_app. destruct (apps db !! cp_AppID p) as [ap|] eqn:E.
  - case_match; [|done]. intros [= <- <-]. apply db_step_after_apps. apply insert_app_owner. cbn. by intros ? [= <-]%(eq_trans (eq_sym E)).
  - repeat case_match; try done. intros [= <- <-]. apply db_step_after_apps. apply insert_app_owner. cbn. congruence.
Qed.

Lemma upsert_app_keyed p db db1 r : upsert_app p db = (db1, Ok r) -> keyed db -> keyed db1.
Proof. unfold upsert_app. repeat case_match; try done; intros [= <- <-] []; by split. Qed.

Definition create_access (allowResurrect : bool) : access := if allowResurrect then Resurrect else Plain.

Lemma recreated_step now allow p m : machine_step (create_access allow) m (recreated now allow p m).
Proof.
  unfold recreated. destruct (String.eqb_spec (DesiredState m) "DELETED") as [Hd|Hd], allow; cbn; split; cbn; try done; intros; try lia.
  all: destruct (String.eqb_spec (CurrentExecutionID m) (cp_ExecutionID p)); [congruence|done].
Qed.

(** A machine row that is inserted or replaced. *)
Lemma db_step_put_machine a db id m' :
  keyed db -> a <> Purge -> m_ID (shape m') = id ->
  (forall m, machines db !! id = Some m -> machine_step a m m') -> db_step a db (with_machines <[id := m']> db).
Proof.
  intros Hk Ha Hid Hf. split; cbn; same_rows; [|apply ops_step_refl|done|].
  - rename H into Hm. destruct (decide (id = id0)) as [->|Hne].
    + rewrite lookup_insert_eq. eauto.
    + rewrite lookup_insert_ne by done. eauto using machine_step_refl.
  - split; cbn; [apply Hk| |apply Hk]. intros id' m. destruct (decide (id = id')) as [->|Hne].
    + rewrite lookup_insert_eq. by intros [= <-].
    + rewrite lookup_insert_ne by done. apply Hk.
Qed.

Lemma upsert_machine_step now allow p db db1 s :
  keyed db -> upsert_machine now allow p db = (db1, Ok s) -> db_step (create_access allow) db db1.
Proof.
  intros Hk. unfold upsert_machine. assert (create_access allow <> Purge) as Ha by (by destruct allow).
  destruct (machines db !! cp_MachineID p) as [m|] eqn:E.
  - repeat case_match; try done. intros [= <- <-]. apply db_step_put_machine; [done..| |].
    + pose proof (recreated_step now allow p m) as [Hs _ _ _ _]. rewrite Hs. by eapply k_machines.
    + intros m0 Hm0. assert (m0 = m) as -> by congruence. apply recreated_step.
  - repeat case_match; try done. intros [= <- <-]. apply db_step_put_machine; [done..|]. congruence.
Qed.

Lemma ensure_step o now p allow db :
  keyed db -> db_step (create_access allow) db (ensureAppAndEnqueueCreate o now p allow db).1.
Proof.
  intros Hk. assert (create_access allow <> Purge) as Ha by (by destruct allow).
  apply inTx_step; [done|]. intros db' r. destruct (check_ownership p db); [|done].
  destruct (selectOperationByKey db _ _) as [op|].
  { case_match; [done|]. intros [= <- <-]. by apply db_step_refl. }
  intros (db1 & [] & H1 & (db2 & s & H2 & H)%cmd_bind_ok)%cmd_bind_ok. eapply upsert_app_spec; [exact H1|].
  pose proof (upsert_app_keyed _ _ _ _ H1 Hk) as Hk1. pose proof (upsert_machine_step _ _ _ _ _ _ Hk1 H2) as S2.
  revert H. destruct (String.eqb s _); [done|]. intros (db3 & [] & H3 & H)%cmd_bind_ok. injection H as <- _.
  by eapply insert_operation_after.
Qed.

(** *** Every statement *)

Lemma op_step_same op op' :
  ident op' = ident op -> op_edge (o_Status op) (o_Status op') -> o_Attempts op <= o_Attempts op' ->
  final (o_Status op) = false -> op_step op op'.
Proof. intros. split; [done..|]. congruence. Qed.

Ltac op_rows := apply op_step_same; cbn; [done| |lia|]; try done.

Lemma enqueue_step a o now e resurrect db :
  keyed db -> a <> Purge -> db_step a db (inTx o (enqueueOperationIdempotentTx now e resurrect) db).1.
Proof.
  intros Hk Ha. apply inTx_step; [done|]. intros db' r. unfold enqueueOperationIdempotentTx.
  destruct (selectOperationByKey db _ _) as [op|] eqn:Es.
  - destruct (jsonEqual _ _); cbn; [|done]. destruct (resurrect && _) eqn:Er; [|intros [= <- <-]; by apply db_step_refl].
    intros (db1 & [] & H1 & H)%cmd_bind_ok. injection H as <- _. revert H1. unfold resurrectOperation.
    destruct (operations db !! o_ID op) as [row|] eqn:E; [|done]. destruct (o_Status row) eqn:Hs; try done.
    intros [= <-]. apply db_step_set_op; [done..|]. intros row' Hr. assert (row' = row) as -> by congruence.
    op_rows; [by right; right; rewrite Hs|by rewrite Hs].
  - intros (db1 & [] & H1 & H)%cmd_bind_ok. injection H as <- _. by eapply insert_operation_step.
Qed.

(** *** Claims *)

Lemma candidate_row now locked limit db op :
  keyed db -> op ∈ claim_candidates now locked limit db ->
  operations db !! o_ID op = Some op /\ claimable now op = true /\ o_ID op ∉ locked.
Proof.
  intros Hk (i & Hi%list_elem_of_lookup_2 & _)%elem_of_take. rewrite elem_of_sort_by in Hi.
  apply list_elem_of_filter in Hi as [[Hc Hl] Hin].
  apply list_elem_of_fmap in Hin as ([id op'] & -> & Hin). cbn in *. apply elem_of_map_to_list in Hin.
  by rewrite (k_ops db Hk id op' Hin) in *.
Qed.

Lemma rows_NoDup db : keyed db -> NoDup (map_to_list (operations db)).*2.
Proof.
  intros Hk. apply (NoDup_fmap_1 o_ID).
  replace (o_ID <$> (map_to_list (operations db)).*2) with ((map_to_list (operations db)).*1); [apply NoDup_fst_map_to_list|].
  rewrite <- list_fmap_compose. apply list_fmap_ext. intros i [id op] Hi. cbn.
  symmetry. apply (k_ops db Hk). apply elem_of_map_to_list. by eapply list_elem_of_lookup_2.
Qed.

Lemma candidates_NoDup now locked limit db :
  keyed db -> NoDup (o_ID <$> claim_candidates now locked limit db).
Proof.
  intros Hk. apply NoDup_fmap_2_strong.
  - intros x y Hx%candidate_row Hy%candidate_row E; [|done..]. destruct Hx as [Hx _], Hy as [Hy _].
    rewrite E in Hx. congruence.
  - eapply sublist_NoDup; [|apply sublist_take]. rewrite sort_by_Permutation. apply NoDup_filter. by apply rows_NoDup.
Qed.

(** The rows after a claim: the candidates are claimed, the others as they were. *)
Lemma claim_lookup now locked limit db id :
  keyed db ->
  insert_all (map (fun op => (o_ID op, op)) (map (claimed now) (claim_candidates now locked limit db))) (operations db) !! id =
  match operations db !! id with
  | Some op => Some (if bool_decide (id ∈ o_ID <$> claim_candidates now locked limit db) then claimed now op else op)
  | None => None
  end.
Proof.
  intros Hk. set (l := map _ (map _ _)). assert (Hl : l.*1 = o_ID <$> claim_candidates now locked limit db).
  { unfold l. induction (claim_candidates now locked limit db) as [|op ops IH]; [done|]. cbn. by f_equal. }
  assert (Hnd : NoDup l.*1) by (rewrite Hl; by apply candidates_NoDup). rewrite insert_all_union by done.
  destruct ((list_to_map l : gmap string Operation) !! id) as [op'|] eqn:E.
  - rewrite (lookup_union_Some_l _ _ _ _ E). apply elem_of_list_to_map in E; [|done].
    unfold l in E. apply list_elem_of_In, in_map_iff in E as (x & [= <- <-] & Hx).
    apply in_map_iff in Hx as (op & <- & Hop%list_elem_of_In). cbn.
    destruct (candidate_row _ _ _ _ _ Hk Hop) as (-> & _). rewrite bool_decide_true; [done|]. by apply list_elem_of_fmap_2.
  - rewrite lookup_union_r by done. destruct (operations db !! id) as [op|] eqn:Eo; [|done].
    rewrite bool_decide_false; [done|]. rewrite <- Hl. by apply not_elem_of_list_to_map.
Qed.

Lemma claimable_pending now op : claimable now op = true -> o_Status op = PENDING.
Proof. unfold claimable. intros H. bool_to_prop. done. Qed.

Lemma claim_step a o now locked limit db :
  keyed db -> a <> Purge -> db_step a db (ClaimPendingOperations o now locked limit db).1.
Proof.
  intros Hk Ha. apply inTx_step; [done|]. intros db' r [= <- <-]. apply db_step_ops'; [done..|]. apply ops_step_update; intros id.
  - intros op Hop. rewrite claim_lookup, Hop by done. eexists; split; [done|]. case_bool_decide as Hc; [|apply op_step_refl].
    apply list_elem_of_fmap in Hc as (op' & -> & Hc). apply candidate_row in Hc as (Hr & Hc%claimable_pending & _); [|done].
    assert (op' = op) as -> by congruence. op_rows; rewrite Hc; [by right; left|done].
  - intros Hn. by rewrite claim_lookup, Hn.
Qed.

(** *** Leases *)

Lemma update_lease_step a l guard next db :
  keyed db -> a <> Purge ->
  (forall row, leases db !! lease_key l = Some row -> guard row = true -> (lease_rank (sl_State row) < lease_rank next)%nat \/ sl_State row = next) ->
  db_step a db (update_lease l guard next db).1.
Proof.
  intros Hk Ha Hg. unfold update_lease. destruct (leases db !! lease_key l) as [row|] eqn:E; [|by apply db_step_refl].
  destruct (bound_to l row && guard row) eqn:G; [|by apply db_step_refl]. apply andb_true_iff in G as [_ G]. cbn.
  assert (Hs : lease_step row (set_lease_state next row)).
  { destruct (Hg row eq_refl G) as [H|<-]; [by right|]. left. by destruct row. }
  apply db_step_leases; [done..| |]; intros k row'; destruct (decide (lease_key l = k)) as [<-|Hne].
  - intros Hr. assert (row' = row) as -> by congruence. rewrite lookup_insert_eq. eauto.
  - rewrite lookup_insert_ne by done. eauto using lease_step_refl.
  - rewrite lookup_insert_eq. intros [= <-]. change (lease_key row = lease_key l). by apply (k_leases db Hk).
  - rewrite lookup_insert_ne by done. apply Hk.
Qed.

Lemma transition_step a o now l next from db :
  keyed db -> a <> Purge -> (forall s, s ∈ from -> (lease_rank s < lease_rank next)%nat \/ s = next) ->
  db_step a db (transitionSecretLease o now l next from db).1.
Proof.
  intros Hk Ha Hf. unfold transitionSecretLease.
  pose proof (update_lease_step a l (fun row => (sl_ExpiresAt row =? sl_ExpiresAt l) && (now <? sl_ExpiresAt row) &&
    bool_decide (sl_State row ∈ from)) next db Hk Ha) as H. destruct (update_lease _ _ _ _) as [db' n].
  assert (db_step a db db') as Hs.
  { apply H. intros row _ G. apply andb_true_iff in G as [_ G]. apply bool_decide_eq_true in G. auto. }
  destruct o; cbn; try done. by apply db_step_refl.
Qed.

Lemma leases_fmap_step a db f :
  keyed db -> a <> Purge -> (forall l, lease_step l (f l)) -> db_step a db (with_leases (fmap f) db).
Proof.
  intros Hk Ha Hf. apply db_step_leases; [done..| |]; intros k l; rewrite lookup_fmap.
  - intros H. rewrite H. cbn. eauto.
  - destruct (leases db !! k) as [l0|] eqn:E; [|done]. cbn. intros [= <-].
    rewrite (lease_step_key l0); [by apply (k_leases db Hk)|done].
Qed.

Ltac machine_row := apply exec_machine_step || apply count_machine_step; [done..|]; intros m _ G; split; cbn; try done; try lia; try by intros [].

Lemma ensure_lease_step a seen o now id p m e g op h ttl db :
  keyed db -> a <> Purge -> db_step a db (EnsureSecretLease seen o now id p m e g op h ttl db).1.
Proof.
  intros Hk Ha. unfold EnsureSecretLease. destruct seen as [l|err]; [by apply db_step_refl|].
  destruct (negb _); [by apply db_step_refl|]. cbn zeta.
  set (l := mkLease _ _ _ _ _ _ _ _ _ _).
  assert (Hins : leases db !! (m, e) = None -> db_step a db (with_leases <[(m, e) := l]> db)).
  { intros Hn. apply db_step_leases; [done..| |]; intros k l'; destruct (decide ((m, e) = k)) as [<-|Hne].
    - congruence.
    - rewrite lookup_insert_ne by done. eauto using lease_step_refl.
    - rewrite lookup_insert_eq. by intros [= <-].
    - rewrite lookup_insert_ne by done. apply Hk. }
  destruct o; destruct (leases db !! (m, e)) as [row|] eqn:E; cbn; rewrite ?E; cbn; try by apply db_step_refl; auto.
  - by apply Hins.
  - rewrite lookup_insert_eq. by apply Hins.
Qed.

Lemma claim_lease_step a o clock now l db : keyed db -> a <> Purge -> db_step a db (ClaimSecretLease o clock now l db).1.
Proof.
  intros Hk Ha. unfold ClaimSecretLease. destruct (sl_State l); try by apply db_step_refl.
  repeat case_match; try by apply db_step_refl. apply transition_step; [done..|].
  intros s Hs. each_elem Hs. left. cbn. lia.
Qed.

Lemma uncertain_step a o now op l cleanup req cause db :
  keyed db -> a <> Purge -> db_step a db (MarkSecretCreateUncertainAndEnqueueCleanup o now op l cleanup req cause db).1.
Proof.
  intros Hk Ha. apply inTx_step; [done|]. intros db' r.
  pose proof (update_lease_step a l (fun row => bool_decide (sl_State row ∈ [SecretLeaseClaimed; SecretLeaseUncertain]))
    SecretLeaseUncertain db Hk Ha) as H.
  assert (Hops : operations (update_lease l (fun row => bool_decide (sl_State row ∈ [SecretLeaseClaimed; SecretLeaseUncertain]))
    SecretLeaseUncertain db).1 = operations db) by (unfold update_lease; by repeat case_match).
  destruct (update_lease _ _ _ _) as [db1 n]. cbn in Hops. destruct (negb n); [done|]. destruct r. intros Hi.
  eapply insert_operation_after; [|done|exact Hi].
  assert (db_step a db db1) as Hs.
  { apply H. intros row _ G. apply bool_decide_eq_true in G. each_elem G; [left; cbn; lia|by right]. }
  destruct Hs as [A1 A2 A3 A4 A5 A6 A7]. assert (operations db1 = operations db -> ops_step (operations db)
    (alter (fun row => if not_final (o_Status row) then failed_create now cause row else row) (o_ID op) (operations db1))) as Hrow.
  { intros ->. apply ops_step_alter. intros row _. destruct (not_final _) eqn:Hf; [|apply op_step_refl].
    op_rows; destruct (o_Status row); cbn in *; try done; unfold op_edge; auto. }
  split; cbn; try done; [intros _; auto|]. split; cbn; [|apply A7..].
  eapply ops_step_keyed; [apply Hk|auto].
Qed.

Lemma revoke_step a o db :
  keyed db -> a <> Purge -> db_step a db (cmd_exec o (wrap "revoke secret leases: %w") revoke_leases db).1.
Proof.
  intros Hk Ha. apply exec_step; [by apply db_step_refl|]. apply leases_fmap_step; [done..|]. intros l.
  destruct (_ && _) eqn:E; [|by left]. apply andb_true_iff in E as [E _]. apply bool_decide_eq_true in E.
  apply lease_step_set. each_elem E; cbn; lia.
Qed.

Lemma expire_step a o now db :
  keyed db -> a <> Purge -> db_step a db (cmd_exec o (wrap "expire secret leases: %w") (expire_leases now) db).1.
Proof.
  intros Hk Ha. apply exec_step; [by apply db_step_refl|]. apply leases_fmap_step; [done..|]. intros l.
  destruct (_ && _) eqn:E; [|by left]. apply andb_true_iff in E as [E _]. apply bool_decide_eq_true in E.
  apply lease_step_set. each_elem E; cbn; lia.
Qed.

Lemma purge_step o cutoff db : keyed db -> db_step Purge db (DeleteTerminalOperationsOlderThan o cutoff db).1.
Proof.
  intros Hk. apply exec_step; [by apply db_step_refl|]. split; cbn; same_rows; [done| |].
  - intros id. destruct (operations db !! id) as [op|] eqn:E.
    + destruct (terminal (o_Status op) && (o_UpdatedAt op <? cutoff)) eqn:G.
      * right. split; [|apply andb_true_iff in G as [G _]; eauto]. apply map_lookup_filter_None. right.
        intros op' Hop'. assert (op' = op) as -> by congruence. congruence.
      * left. by apply map_lookup_filter_Some.
    + left. apply map_lookup_filter_None. by left.
  - split; cbn; [|apply Hk..]. intros id op [Hop _]%map_lookup_filter_Some. by apply Hk.
Qed.

Lemma restart_step a o now p id failed new op gen req t db :
  keyed db -> a <> Purge -> db_step a db (EnqueueRestartCAS o now p id failed new op gen req t db).1.
Proof.
  intros Hk Ha. apply inTx_step; [done|]. intros db' r. destruct (machines db !! id) as [m|] eqn:E; [|done].
  destruct (apps db !! _) as [ap|]; [|done]. destruct (restart_due now failed gen m) eqn:Hd; [|done]. cbn [negb].
  destruct (negb (String.eqb p "") && _); [done|]. intros (db1 & [] & H1 & H)%cmd_bind_ok. injection H as <- _.
  eapply insert_operation_after; [|done|exact H1]. apply db_step_machine; [done..|]. intros m' Hm'.
  assert (m' = m) as -> by congruence. unfold restart_due, has_fence, is_active, not_deleted in Hd. bool_to_prop.
  split; cbn; try done; lia.
Qed.

Lemma set_placed_step a now p m : machine_step a m (set_placed now p m).
Proof. split; cbn; try done; lia. Qed.

Lemma set_restart_step a now r m : machine_step a m (set_restart now r m).
Proof. split; cbn; try done; lia. Qed.

Lemma set_lifecycle_step a now desired t phase m :
  desired = DesiredState m \/ desired = "DELETED" -> machine_step a m (set_lifecycle now desired t phase m).
Proof. intros H. split; cbn; try done; try lia. intros Hd. destruct H as [->|]; done. Qed.

(** Every statement keeps what [db_step] says. *)
Lemma step_db_step a db db' : keyed db -> step a db db' -> db_step a db db'.
Proof.
  intros Hk Hs. revert Hk. destruct Hs; intros Hk.
  - by apply enqueue_step.
  - by apply enqueue_step.
  - by apply (ensure_step o now p false).
  - by apply (ensure_step o now p true).
  - by apply claim_step.
  - apply update_op_step; [done..|]. intros op _ Hs. destruct (o_Status op) eqn:E; try done. op_rows; rewrite E; [by right; left|done].
  - apply exec_step; [by apply db_step_refl|]. apply db_step_ops'; [done..|]. apply ops_step_fmap. intros op.
    destruct (is_claimed (o_Status op) && _) eqn:E; [|apply op_step_refl]. apply andb_true_iff in E as [E _].
    destruct (o_Status op) eqn:Es; try done. op_rows; rewrite Es; [by right; left|done].
  - apply update_op_step; [done..|]. intros op _ Hs. op_rows; [by right; left|by apply final_in_flight].
  - apply update_op_step; [done..|]. intros op _ Hs. op_rows; [by left|by apply final_in_flight].
  - apply exec_machine_step; [done..|]. intros; apply set_placed_step.
  - apply exec_machine_step; [done..|]. intros; apply set_placed_step.
  - apply count_machine_step; [done..|]. intros; apply set_placed_step.
  - apply exec_machine_step; [done..|]. intros; apply set_placed_step.
  - apply exec_machine_step; [done..|]. intros; apply set_lifecycle_step; auto.
  - apply exec_machine_step; [done..|]. intros. by split.
  - unfold SetMachineExpiry. rewrite lifecycle_result_db. apply count_machine_step; [done..|]. intros; apply set_lifecycle_step; auto.
  - unfold SetMachineRestartPolicy. rewrite lifecycle_result_db. apply count_machine_step; [done..|]. intros; apply set_restart_step.
  - apply exec_machine_step; [done..|]. intros; apply set_lifecycle_step; auto.
  - apply count_machine_step; [done..|]. intros; apply set_restart_step.
  - by apply restart_step.
  - unfold RecordRestartAttempt. rewrite (surjective_pairing (count_machine _ _ _ _ _ _)). cbn.
    apply count_machine_step; [done..|]. intros; apply set_restart_step.
  - apply exec_machine_step; [done..|]. intros; apply set_restart_step.
  - unfold ResetRestartAttempts. rewrite (surjective_pairing (count_machine _ _ _ _ _ _)). cbn.
    apply count_machine_step; [done..|]. intros; apply set_restart_step.
  - apply exec_machine_step; [done..|]. intros; apply set_restart_step.
  - by apply ensure_lease_step.
  - by apply claim_lease_step.
  - apply transition_step; [done..|]. intros s Hs. each_elem Hs; [left; cbn; lia|by right].
  - apply transition_step; [done..|]. intros s Hs. each_elem Hs; try (left; cbn; lia). by right.
  - by apply uncertain_step.
  - by apply revoke_step.
  - by apply expire_step.
  - by apply purge_step.
Qed.

Definition allowed_all (a : access) : Prop := True.
Definition no_purge (a : access) : Prop := a <> Purge.
Definition no_reset (a : access) : Prop := a <> Purge /\ a <> Reset.

Lemma steps_keyed P db db' : keyed db -> steps P db db' -> keyed db'.
Proof. intros Hk. induction 1 as [|db db1 db' (a & _ & Hs) _ IH]; [done|]. apply IH. by eapply ds_keyed, step_db_step. Qed.

(** An invariant of the rows of a machine, an operation or a lease over a history. *)
Lemma steps_ind_row P (R : DB -> DB -> Prop) :
  (forall db, R db db) ->
  (forall a db db1 db', P a -> keyed db -> step a db db1 -> db_step a db db1 -> R db1 db' -> R db db') ->
  forall db db', keyed db -> steps P db db' -> R db db'.
Proof.
  intros Hr Hs db db' Hk. induction 1 as [|db db1 db' (a & Ha & H) _ IH]; [done|].
  pose proof (step_db_step a db db1 Hk H) as Hd. eapply Hs; [done..|]. apply IH, Hd.
Qed.

(** ** What histories keep *)

Lemma later_op P db db' id op :
  (forall a, P a -> a <> Purge) -> keyed db -> steps P db db' -> operations db !! id = Some op ->
  exists op', operations db' !! id = Some op' /\ ident op' = ident op /\ o_Attempts op <= o_Attempts op' /\
    (final (o_Status op) = true -> op' = op).
Proof.
  intros HP Hk Hs. revert id op. revert db db' Hk Hs. apply (steps_ind_row P (fun db db' => forall id op, operations db !! id = Some op ->
    exists op', operations db' !! id = Some op' /\ ident op' = ident op /\ o_Attempts op <= o_Attempts op' /\
    (final (o_Status op) = true -> op' = op))).
  - intros db id op H. exists op. split_and!; [done..|lia|done].
  - intros a db db1 db' Ha _ _ Hd IH id op H. destruct (ds_ops _ _ _ Hd (HP a Ha)) as [H1 _].
    destruct (H1 id op H) as (op1 & E1 & [Hi _ Hn Hf]). destruct (IH id op1 E1) as (op2 & E2 & Hi2 & Hn2 & Hf2).
    exists op2. split_and!; [done|congruence|lia|]. intros Hfin. specialize (Hf Hfin). subst op1. auto.
Qed.

Lemma later_machine P db db' id m :
  keyed db -> steps P db db' -> machines db !! id = Some m ->
  exists m', machines db' !! id = Some m' /\ shape m' = shape m /\
    ((forall a, P a -> a <> Reset) -> m_Generation m <= m_Generation m') /\
    ((forall a, P a -> a <> Reset /\ a <> Resurrect) -> DesiredState m = "DELETED" ->
     DesiredState m' = "DELETED" /\ fence m' = fence m).
Proof.
  intros Hk Hs. revert id m. revert db db' Hk Hs. apply (steps_ind_row P (fun db db' => forall id m, machines db !! id = Some m ->
    exists m', machines db' !! id = Some m' /\ shape m' = shape m /\
    ((forall a, P a -> a <> Reset) -> m_Generation m <= m_Generation m') /\
    ((forall a, P a -> a <> Reset /\ a <> Resurrect) -> DesiredState m = "DELETED" ->
     DesiredState m' = "DELETED" /\ fence m' = fence m))).
  - intros db id m H. exists m. split_and!; [done..|lia|done].
  - intros a db db1 db' Ha _ _ Hd IH id m H. destruct (ds_machines _ _ _ Hd id m H) as (m1 & E1 & [S1 S2 S3 _ _]).
    destruct (IH id m1 E1) as (m2 & E2 & Hs & Hg & Hdel). exists m2. split_and!; [done|congruence| |].
    + intros HP. specialize (S2 (HP a Ha)). specialize (Hg HP). lia.
    + intros HP Hm. destruct (HP a Ha). destruct S3 as [D1 F1]; [done..|]. destruct (Hdel HP D1) as [D2 F2].
      split; congruence.
Qed.

Lemma later_app P db db' id ap :
  keyed db -> steps P db db' -> apps db !! id = Some ap ->
  exists ap', apps db' !! id = Some ap' /\ ap_ProjectID ap' = ap_ProjectID ap.
Proof.
  intros Hk Hs. revert id ap. revert db db' Hk Hs. apply (steps_ind_row P (fun db db' => forall id ap, apps db !! id = Some ap ->
    exists ap', apps db' !! id = Some ap' /\ ap_ProjectID ap' = ap_ProjectID ap)); [eauto|].
  intros a db db1 db' _ _ _ Hd IH id ap H. destruct (ds_apps _ _ _ Hd id ap H) as (ap1 & E1 & H1).
  destruct (IH id ap1 E1) as (ap2 & E2 & H2). exists ap2. split; congruence.
Qed.

Lemma later_deployments P db db' : keyed db -> steps P db db' -> deployments db' = deployments db.
Proof.
  revert db db'. apply (steps_ind_row P (fun db db' => deployments db' = deployments db)); [done|].
  intros a db db1 db' _ _ _ Hd IH. rewrite IH. by apply (ds_deployments _ _ _ Hd).
Qed.

Lemma later_lease P db db' k l :
  keyed db -> steps P db db' -> leases db !! k = Some l ->
  exists l', leases db' !! k = Some l' /\
    (l' = l \/ (l' = set_lease_state (sl_State l') l /\ (lease_rank (sl_State l) < lease_rank (sl_State l'))%nat)).
Proof.
  intros Hk Hs. revert k l. revert db db' Hk Hs. apply (steps_ind_row P (fun db db' => forall k l, leases db !! k = Some l ->
    exists l', leases db' !! k = Some l' /\
    (l' = l \/ (l' = set_lease_state (sl_State l') l /\ (lease_rank (sl_State l) < lease_rank (sl_State l'))%nat)))); [eauto|].
  intros a db db1 db' _ _ _ Hd IH k l H. destruct (ds_leases _ _ _ Hd k l H) as (l1 & E1 & H1).
  destruct (IH k l1 E1) as (l2 & E2 & H2). exists l2. split; [done|].
  destruct H1 as [->|[H1 R1]]; [done|]. right. destruct H2 as [->|[H2 R2]]; [done|]. split; [|lia].
  rewrite H2, H1. reflexivity.
Qed.

(** What the purge does to a row. *)
Lemma purge_cases db db1 id op :
  step Purge db db1 -> operations db !! id = Some op ->
  (exists o cutoff, Purge = Purge /\ db1 = (DeleteTerminalOperationsOlderThan o cutoff db).1 /\
     operations db1 !! id = None /\ terminal (o_Status op) = true /\ o_UpdatedAt op < cutoff) \/
  operations db1 !! id = Some op.
Proof.
  intros Hs Hop. remember Purge as a eqn:Ha. destruct Hs; try discriminate.
  assert (operations (DeleteTerminalOperationsOlderThan o cutoff db).1 = operations db \/
    operations (DeleteTerminalOperationsOlderThan o cutoff db).1 = filter (fun '(_, op) =>
      terminal (o_Status op) && (o_UpdatedAt op <? cutoff) = false) (operations db)) as [E|E]
    by (destruct o; [by right|by left|by right]); [right; by rewrite E|].
  destruct (terminal (o_Status op) && (o_UpdatedAt op <? cutoff)) eqn:G; [left|right].
  - exists o, cutoff. rewrite E. split_and!; [done|done| |by apply andb_true_iff in G as [G _]|].
    + apply map_lookup_filter_None. right. intros op' Hop'. by simplify_eq; rewrite G.
    + apply andb_true_iff in G as [_ G]. by apply Z.ltb_lt.
  - rewrite E. by apply map_lookup_filter_Some.
Qed.

(** ** The theorems *)

(** C3. While its row exists, an operation keeps what it was inserted with; no
    statement of any process lowers its attempts, takes it back from SUCCEEDED or
    SUPERSEDED or touches its result then; and a statement moves a row only along
    the edges of the status machine: from PENDING and CLAIMED, or from FAILED back
    to PENDING. The one statement that removes a row is the purge of the retention
    window, which removes only rows that are terminal and older than its cutoff. *)
Theorem operation_lifecycle db db1 a id op :
  keyed db -> step a db db1 -> operations db !! id = Some op ->
  (exists o cutoff, a = Purge /\ db1 = (DeleteTerminalOperationsOlderThan o cutoff db).1 /\
     operations db1 !! id = None /\ terminal (o_Status op) = true /\ o_UpdatedAt op < cutoff) \/
  (exists op1, operations db1 !! id = Some op1 /\ op_edge (o_Status op) (o_Status op1) /\
     forall db', steps no_purge db1 db' -> exists op', operations db' !! id = Some op' /\
       ident op' = ident op /\ o_Attempts op <= o_Attempts op' /\
       (final (o_Status op) = true -> op' = op)).
Proof.
  intros Hk Hs Hop. pose proof (step_db_step a db db1 Hk Hs) as Hd.
  assert (forall op1, operations db1 !! id = Some op1 -> op_step op op1 ->
    forall db', steps no_purge db1 db' -> exists op', operations db' !! id = Some op' /\
      ident op' = ident op /\ o_Attempts op <= o_Attempts op' /\
      (final (o_Status op) = true -> op' = op)) as Hlater.
  { intros op1 E1 [Hi _ Hn Hf] db' Hrest.
    destruct (later_op no_purge db1 db' id op1 (fun a H => H) (ds_keyed _ _ _ Hd) Hrest E1)
      as (op' & E' & Hi' & Hn' & Hf').
    exists op'. split_and!; [done|congruence|lia|]. intros Hfin. specialize (Hf Hfin). subst op1. auto. }
  destruct (decide (a = Purge)) as [->|Ha].
  - destruct (purge_cases db db1 id op Hs Hop) as [Hgone|Hkept]; [by left|right].
    exists op. split_and!; [done|by left|]. exact (Hlater op Hkept (op_step_refl op)).
  - right. destruct (ds_ops _ _ _ Hd Ha) as [H1 _]. destruct (H1 id op Hop) as (op1 & E1 & Hst).
    exists op1. split_and!; [done|apply Hst|]. exact (Hlater op1 E1 Hst).
Qed.

Lemma jsonEqual_true a b : jsonEqual (Some a) b = true <-> b = Some a.
Proof.
  unfold jsonEqual. destruct b as [b|]; [|done]. rewrite bool_decide_eq_true. split; [by intros ->|by intros [= ->]].
Qed.

Lemma inserted_ok db p id req op : inserted p id req db = Ok op -> operations db !! id = Some op /\ o_ProjectID op = p /\ req = Some (o_Request op).
Proof.
  unfold inserted, selectOperationByKey. destruct (operations db !! id) as [row|]; [|done].
  destruct (String.eqb_spec (o_ProjectID row) p); [|done]. destruct (jsonEqual _ _) eqn:E; [|done].
  apply jsonEqual_true in E. by intros [= ->].
Qed.

Lemma insert_operation_tables now e db db' r :
  insert_operation now e db = (db', Ok r) ->
  machines db' = machines db /\ apps db' = apps db /\ deployments db' = deployments db.
Proof. unfold insert_operation. repeat case_match; try done; by intros [= <- <-]. Qed.

Lemma upsert_app_tables p db db1 r :
  upsert_app p db = (db1, Ok r) ->
  machines db1 = machines db /\ operations db1 = operations db /\ deployments db1 = deployments db /\
  exists a, apps db1 !! cp_AppID p = Some a /\ ap_ProjectID a = cp_ProjectID p.
Proof.
  unfold upsert_app. destruct (apps db !! cp_AppID p) as [a|].
  - destruct (String.eqb_spec (ap_ProjectID a) (cp_ProjectID p)) as [He|]; [|done]. intros [= <- <-]. cbn.
    rewrite lookup_insert_eq. by eauto 6.
  - repeat case_match; try done. intros [= <- <-]. cbn. rewrite lookup_insert_eq. by eauto 6.
Qed.

Lemma upsert_machine_tables now allow p db db1 s :
  upsert_machine now allow p db = (db1, Ok s) ->
  apps db1 = apps db /\ operations db1 = operations db /\ deployments db1 = deployments db /\
  exists m, machines db1 !! cp_MachineID p = Some m /\ m_AppID (shape m) = cp_AppID p /\
    m_DeploymentID (shape m) = cp_DeploymentID p /\ s = DesiredState m /\
    match machines db !! cp_MachineID p with Some m0 => m = recreated now allow p m0 | None => m = new_machine now p end.
Proof.
  unfold upsert_machine. destruct (machines db !! cp_MachineID p) as [m0|].
  - destruct (String.eqb_spec (m_AppID (shape m0)) (cp_AppID p)) as [Ha|]; [|done].
    destruct (String.eqb_spec (m_DeploymentID (shape m0)) (cp_DeploymentID p)) as [Hd|]; [|done]. cbn [negb]. cbn zeta.
    destruct (slot_taken db p && _); [done|]. intros [= <- <-]. cbn. rewrite lookup_insert_eq. split_and!; [done..|].
    eexists. split_and!; [done| | |done..]; unfold recreated; by case_match.
  - destruct (slot_taken db p); [done|]. intros [= <- <-]. cbn. rewrite lookup_insert_eq. by eauto 10.
Qed.

(** What a first submission leaves behind. *)
Lemma first_create now p allow db db1 op :
  ensureAppAndEnqueueCreate Done now p allow db = (db1, Ok op) ->
  selectOperationByKey db (cp_ProjectID p) (cp_OperationID p) = None ->
  operations db1 !! cp_OperationID p = Some op /\ o_ProjectID op = cp_ProjectID p /\
  cp_RequestJSON p = Some (o_Request op) /\ check_ownership p db = Ok tt /\ deployments db1 = deployments db /\
  (exists a, apps db1 !! cp_AppID p = Some a /\ ap_ProjectID a = cp_ProjectID p) /\
  (exists m, machines db1 !! cp_MachineID p = Some m /\ m_AppID (shape m) = cp_AppID p /\
     m_DeploymentID (shape m) = cp_DeploymentID p /\ DesiredState m <> "DELETED" /\
     match machines db !! cp_MachineID p with Some m0 => m = recreated now allow p m0 | None => m = new_machine now p end).
Proof.
  intros H Hsel. unfold ensureAppAndEnqueueCreate in H. rewrite inTx_done in H. destruct (check_ownership p db) as [[]|]; [|done]. rewrite Hsel in H.
  apply cmd_bind_ok in H as (d1 & [] & H1 & H). apply cmd_bind_ok in H as (d2 & s & H2 & H).
  destruct (String.eqb_spec s "DELETED") as [|Hs]; [done|]. apply cmd_bind_ok in H as (d3 & [] & H3 & H).
  injection H as -> H. apply inserted_ok in H as (Ho & Hp & Hr).
  apply upsert_app_tables in H1 as (M1 & O1 & D1 & A1). apply upsert_machine_tables in H2 as (A2 & O2 & D2 & m & M2 & Ma & Md & -> & Hm).
  apply insert_operation_tables in H3 as (M3 & A3 & D3). rewrite M3, A3, D3, A2, D2, D1. rewrite M1 in Hm.
  split_and!; [done..|]. by eauto 10.
Qed.

(** Who owns what does not change once it exists. *)
Lemma ownership_stable P p q db db1 db2 :
  keyed db1 -> steps P db1 db2 -> deployments db1 = deployments db -> check_ownership p db = Ok tt ->
  (exists a, apps db1 !! cp_AppID p = Some a /\ ap_ProjectID a = cp_ProjectID p) ->
  (exists m, machines db1 !! cp_MachineID p = Some m /\ m_AppID (shape m) = cp_AppID p /\
     m_DeploymentID (shape m) = cp_DeploymentID p) ->
  cp_ProjectID q = cp_ProjectID p -> cp_AppID q = cp_AppID p -> cp_MachineID q = cp_MachineID p ->
  cp_DeploymentID q = cp_DeploymentID p -> check_ownership q db2 = Ok tt.
Proof.
  intros Hk Hs Hd Hown (a & Ha & Hp) (m & Hm & Hma & Hmd) Q1 Q2 Q3 Q4.
  destruct (later_app P db1 db2 _ a Hk Hs Ha) as (a' & Ha' & Hp'). destruct (later_machine P db1 db2 _ m Hk Hs Hm) as (m' & Hm' & Hsh & _).
  pose proof (later_deployments P db1 db2 Hk Hs) as Hd2. unfold check_ownership in *. rewrite Q1, Q2, Q3, Q4, Ha', Hm', Hsh, Hma, Ha', Hmd.
  rewrite Hp', Hp, !String.eqb_refl. cbn. rewrite Hd2, Hd. revert Hown.
  destruct (deployments db !! cp_DeploymentID p) as [d|]; [|done].
  destruct (String.eqb (dp_AppID d) (cp_AppID p)); [done|]. intros Hown. exfalso. revert Hown. repeat case_match; done.
Qed.

(** Submitting a create again, whatever other statements ran in between,
    answers with the operation of the first submission, on whichever entry point, and
    writes nothing - no second machine, no new fence, no later expiry; the same key
    with another request is refused and writes nothing either. *)
Theorem resubmission_is_idempotent now now' p q allow allow' db db1 db2 op :
  keyed db -> ensureAppAndEnqueueCreate Done now p allow db = (db1, Ok op) ->
  selectOperationByKey db (cp_ProjectID p) (cp_OperationID p) = None -> steps no_purge db1 db2 ->
  cp_ProjectID q = cp_ProjectID p -> cp_AppID q = cp_AppID p -> cp_MachineID q = cp_MachineID p ->
  cp_DeploymentID q = cp_DeploymentID p -> cp_OperationID q = cp_OperationID p ->
  exists op', ident op' = ident op /\ operations db2 !! cp_OperationID p = Some op' /\
    ensureAppAndEnqueueCreate Done now' q allow' db2 =
      (db2, if jsonEqual (cp_RequestJSON p) (cp_RequestJSON q) then Ok op' else Err ErrRequestConflict).
Proof.
  intros Hk H Hsel Hs Q1 Q2 Q3 Q4 Q5. destruct (first_create _ _ _ _ _ _ H Hsel) as (Ho & Hp & Hr & Hown & Hd & Happ & m & Hm & Ha & Hmd & _).
  pose proof (ensure_step Done now p allow db Hk) as Hst. rewrite H in Hst. cbn in Hst. pose proof (ds_keyed _ _ _ Hst) as Hk1.
  destruct (later_op no_purge db1 db2 _ op (fun a H => H) Hk1 Hs Ho) as (op' & E' & Hi & _ & _). exists op'. split; [done|]. split; [done|].
  unfold ensureAppAndEnqueueCreate, inTx. erewrite (ownership_stable no_purge p q db db1 db2); eauto 10.
  unfold selectOperationByKey. rewrite Q1, Q5, E'. assert (o_ProjectID op' = o_ProjectID op /\ o_Request op' = o_Request op) as [Hpr Hreq]
    by (unfold ident in Hi; split; congruence).
  rewrite Hpr, Hp, String.eqb_refl, Hreq, Hr. by destruct (jsonEqual _ _).
Qed.

(** A machine that is DELETED stays so, with its fence, through every
    statement but its owner's revival and the move off a node; and while it is, no create
    that was not submitted before is accepted for it and no restart. *)
Theorem deletion_is_final db db' id m :
  keyed db -> steps (fun a => a = Plain \/ a = Purge) db db' -> machines db !! id = Some m -> DesiredState m = "DELETED" ->
  (exists m', machines db' !! id = Some m' /\ DesiredState m' = "DELETED" /\ fence m' = fence m) /\
  (forall o now p db2 op, cp_MachineID p = id -> selectOperationByKey db' (cp_ProjectID p) (cp_OperationID p) = None ->
     ensureAppAndEnqueueCreate o now p false db' <> (db2, Ok op)) /\
  (forall o now p failed new opID gen req t db2 op, EnqueueRestartCAS o now p id failed new opID gen req t db' <> (db2, Ok op)).
Proof.
  intros Hk Hs Hm Hdel. destruct (later_machine _ _ _ _ _ Hk Hs Hm) as (m' & Hm' & _ & _ & Hd).
  destruct Hd as [Hd Hf]; [by intros a [-> | ->]|done|]. split_and!; [by eauto| |].
  - intros o now p db2 op <- Hsel H. unfold ensureAppAndEnqueueCreate, inTx in H. destruct (check_ownership p db') as [[]|]; [|done].
    rewrite Hsel in H. destruct ((_ <~ upsert_app p ;; _)%go db') as [d [x|]] eqn:E; [|done]. clear H.
    apply cmd_bind_ok in E as (d1 & [] & H1 & E). apply cmd_bind_ok in E as (d2 & s & H2 & E).
    apply upsert_app_tables in H1 as (M1 & _). apply upsert_machine_tables in H2 as (_ & _ & _ & m2 & _ & _ & _ & -> & H2).
    rewrite M1, Hm' in H2. subst m2. unfold recreated in E. rewrite Hd in E. done.
  - intros o now p failed new opID gen req t db2 op H. unfold EnqueueRestartCAS, inTx in H. rewrite Hm' in H.
    destruct (apps db' !! _); [|done]. unfold restart_due, is_active, not_deleted in H. rewrite Hd in H.
    cbn in H. rewrite andb_false_r in H. done.
Qed.

(** A restart is accepted only for the exact execution and generation that
    failed, after a backoff recorded for that execution has passed; it moves the machine
    to the next generation with nothing observed of it and counts one attempt; and the
    same failure is never restarted twice, whoever tries again and whenever, while
    machines are not reset off their node. *)
Theorem restart_once o now p id failed new opID gen req t db db1 db2 op :
  keyed db -> EnqueueRestartCAS o now p id failed new opID gen req t db = (db1, Ok op) ->
  steps (fun a => a <> Reset) db1 db2 ->
  (exists m m1, machines db !! id = Some m /\ machines db1 !! id = Some m1 /\ fence m = (failed, gen) /\
     RestartFailedExecution (restart m) = Some failed /\ (exists d, RestartNextAttemptAt (restart m) = Some d /\ d <= now) /\
     fence m1 = (new, gen + 1) /\ placed m1 = unplaced /\ RestartAttempts (restart m1) = RestartAttempts (restart m) + 1) /\
  (forall o' now' p' new' opID' req' t', EnqueueRestartCAS o' now' p' id failed new' opID' gen req' t' db2 =
     (db2, Err ErrMachineLifecycleClosed)).
Proof.
  intros Hk H Hs. pose proof (restart_step Plain o now p id failed new opID gen req t db Hk ltac:(done)) as Hst.
  rewrite H in Hst. cbn in Hst. unfold EnqueueRestartCAS in H.
  assert (Hb : o = Done) by (destruct o; [done|unfold inTx in H; repeat case_match; done..]). subst o. rewrite inTx_done in H.
  destruct (machines db !! id) as [m|] eqn:Hm; [|done]. destruct (apps db !! m_AppID (shape m)) as [ap|] eqn:Happ; [|done].
  destruct (restart_due now failed gen m) eqn:Hdue; [|done]. cbn [negb] in H.
  destruct (negb (String.eqb p "") && _); [done|]. apply cmd_bind_ok in H as (d1 & [] & H1 & H). injection H as -> _.
  apply insert_operation_tables in H1 as (M1 & _). cbn in M1.
  assert (Hm1 : machines db1 !! id = Some (restarted now new gen t m)) by (by rewrite M1, lookup_alter_eq, Hm).
  unfold restart_due, has_fence in Hdue. bool_to_prop. split.
  - exists m, (restarted now new gen t m). split_and!; try done; [unfold fence; congruence|].
    destruct (RestartNextAttemptAt (restart m)) as [d|]; [|done]. exists d. by bool_to_prop.
  - destruct (later_machine _ _ _ _ _ (ds_keyed _ _ _ Hst) Hs Hm1) as (m2 & Hm2 & Hsh & Hg & _).
    specialize (Hg ltac:(auto)). cbn in Hg. intros. unfold EnqueueRestartCAS, inTx. rewrite Hm2.
    destruct (apps db2 !! _); [|done]. unfold restart_due, has_fence.
    rewrite (proj2 (Z.eqb_neq (m_Generation m2) gen)) by lia. by rewrite andb_false_r.
Qed.

(** A claim takes the oldest operations it may take: every claimed row was
    PENDING, is not a prewarm, is not locked and its backoff of at most 64 s has passed; it
    is counted as one more attempt; what could have been claimed and was not is younger than all
    that was, and only left when the limit was reached; no other row changes. *)
Theorem claims_oldest_first now locked limit db :
  keyed db ->
  let r := ClaimPendingOperations Done now locked limit db in
  exists rows, r.2 = Ok (map (claimed now) rows) /\ (length rows <= limit)%nat /\ NoDup (map o_ID rows) /\
    (forall op, op ∈ rows -> operations db !! o_ID op = Some op /\ claimable now op = true /\ o_ID op ∉ locked /\
       operations r.1 !! o_ID op = Some (claimed now op)) /\
    (forall id op, operations db !! id = Some op -> claimable now op = true -> id ∉ locked -> id ∉ map o_ID rows ->
       length rows = limit /\ (forall op', op' ∈ rows -> o_CreatedAt op' <= o_CreatedAt op)) /\
    (forall id, id ∉ map o_ID rows -> operations r.1 !! id = operations db !! id).
Proof.
  intros Hk r. exists (claim_candidates now locked limit db).
  assert (Hlook : forall id, operations r.1 !! id = match operations db !! id with
    | Some op => Some (if bool_decide (id ∈ o_ID <$> claim_candidates now locked limit db) then claimed now op else op)
    | None => None end) by (intros id; by apply claim_lookup).
  split_and!; [done| |by apply candidates_NoDup| | |].
  - unfold claim_candidates. rewrite length_take. lia.
  - intros op Hin. pose proof (candidate_row _ _ _ _ _ Hk Hin) as (Hr & Hc & Hl). split_and!; [done..|].
    rewrite Hlook, Hr, bool_decide_true; [done|]. by apply list_elem_of_fmap_2.
  - intros id op Hop Hc Hl Hn. rewrite <- (k_ops db Hk id op Hop) in *. revert Hn. unfold claim_candidates.
    set (all := sort_by created_before _). intros Hn.
    assert (Hin : op ∈ all).
    { unfold all. rewrite elem_of_sort_by. apply list_elem_of_filter. split; [done|]. apply list_elem_of_fmap. exists (id, op).
      split; [done|]. by apply elem_of_map_to_list. }
    rewrite <- (take_drop limit all) in Hin. apply elem_of_app in Hin as [Hin|Hin].
    { destruct Hn. by apply (list_elem_of_fmap_2 o_ID). }
    split.
    + rewrite length_take. apply Nat.min_l. destruct (decide (limit <= length all)%nat); [done|].
      rewrite drop_ge in Hin by lia. by apply not_elem_of_nil in Hin.
    + intros op' Hin'. assert (created_before op op' = false) as Hb.
      { eapply (sorted_take_drop (fun a b => created_before b a = false)); [|exact Hin'|exact Hin].
        apply sort_by_sorted, (orders_stamp o_CreatedAt o_ID). }
      apply orb_false_iff in Hb as [Hb%Z.ltb_ge _]. exact Hb.
  - intros id Hn. rewrite Hlook, bool_decide_false by done. by destruct (operations db !! id).
Qed.

Lemma claim_backoff_bounds n : 0 <= n -> seconds 2 <= claim_backoff n <= seconds 64.
Proof.
  intros Hn. unfold claim_backoff, seconds. assert (2 ^ 0 <= 2 ^ Z.min n 5 <= 2 ^ 5) as H by (split; apply Z.pow_le_mono_r; lia).
  change (2 ^ 0) with 1 in H. change (2 ^ 5) with 32 in H. change (10 ^ 9) with 1000000000. lia.
Qed.

Lemma insert_operation_new now e db db' r op :
  selectOperationByKey db (e_ProjectID e) (e_OperationID e) = None -> insert_operation now e db = (db', Ok r) ->
  operations db' !! e_OperationID e = Some op -> o_ExecutionID op = e_ExecutionID e /\ o_Generation op = e_Generation e.
Proof.
  unfold insert_operation, selectOperationByKey. destruct (e_Request e); [|done]. destruct (node_column _); [|done].
  destruct (operations db !! e_OperationID e) as [row|]; [by destruct (String.eqb _ _)|]. intros _.
  case_match; [done|]. intros [= <- _]. cbn. rewrite lookup_insert_eq. by intros [= <-].
Qed.

(** Reviving a deleted machine keeps the generation its row reached, as its comment wants, but
    the create operation carries the generation of the submission: on a node whose fence
    knows the machine's last generation the operation is refused as stale. *)
Theorem revived_create_is_stale now p db db1 op m f :
  machines db !! cp_MachineID p = Some m -> DesiredState m = "DELETED" -> cp_Generation p < m_Generation m ->
  selectOperationByKey db (cp_ProjectID p) (cp_OperationID p) = None ->
  ensureAppAndEnqueueCreate Done now p true db = (db1, Ok op) ->
  Fences.at_least (cp_MachineID p) (m_Generation m) (mem f) ->
  (exists m1, machines db1 !! cp_MachineID p = Some m1 /\ m_Generation m1 = m_Generation m /\ CurrentExecutionID m1 = cp_ExecutionID p) /\
  o_ExecutionID op = cp_ExecutionID p /\ o_Generation op = cp_Generation p /\
  exists e, Fences.Check_ (cp_MachineID p) (o_Generation op) f = Err e.
Proof.
  intros Hm Hdel Hlt Hsel H Hf. destruct (first_create _ _ _ _ _ _ H Hsel) as (Ho & _ & _ & _ & _ & _ & m1 & Hm1 & _ & _ & _ & E).
  rewrite Hm in E. subst m1. assert (Hop : o_ExecutionID op = cp_ExecutionID p /\ o_Generation op = cp_Generation p).
  { unfold ensureAppAndEnqueueCreate in H. rewrite inTx_done in H. destruct (check_ownership p db) as [[]|]; [|done].
    rewrite Hsel in H. apply cmd_bind_ok in H as (d1 & [] & H1 & H). apply cmd_bind_ok in H as (d2 & s & H2 & H).
    destruct (String.eqb s "DELETED"); [done|]. apply cmd_bind_ok in H as (d3 & [] & H3 & H). injection H as -> _.
    apply upsert_app_tables in H1 as (_ & O1 & _). apply upsert_machine_tables in H2 as (_ & O2 & _).
    apply (insert_operation_new now (create_of p) d2 db1 tt op); [|exact H3|exact Ho].
    revert Hsel. unfold selectOperationByKey. cbn. by rewrite O2, O1. }
  destruct Hop as [-> ->]. split_and!; [|done..|by eapply Fences.at_least_Check].
  eexists. split; [exact Hm1|]. unfold recreated. rewrite Hdel. cbn. split; [lia|done].
Qed.

End store.

(** ** Witnesses *)

Module Witness.
Local Open Scope string_scope.

Definition db0 : DB (json:=nat) := mkDB {["proj"]} ∅ ∅ ∅ ∅ ∅ ∅.
Definition create1 (executionID operationID : string) (generation : Z) (request : nat) : CreateMachineParams (json:=nat) :=
  mkCreateParams "proj" "app" "app.example" "img" 1 512 10240 8080 "m1" "dep1" executionID operationID generation 0
    (Some request) 0%nat None "ON_FAILURE" 3 10 300.
Definition db1 := (EnsureAppAndEnqueueCreateWithLifecycle Done 100 (create1 "exec-1" "op-1" 1 7) db0).1.
Definition op1 : Operation (json:=nat) :=
  mkOp "op-1" "proj" "m1" "exec-1" 1 "create" 7%nat 100 PENDING "" None "" 0 None None 100.
(** Claimed, then completed. *)
Definition db2 := (ClaimPendingOperations Done 200 ∅ 20 db1).1.
Definition db3 := (CompleteOperation Done 300 "op-1" SUCCEEDED (Some 9%nat) "" db2).1.
(** The create returned: the machine is placed. *)
Definition db4 := (UpdateMachineNodeAndObserved Done 310 "m1" "n1" "exec-1" "RUNNING" "10.0.0.2" "READY" db3).1.

Lemma op_keyed0 : keyed db0.
Proof. split; cbn; intros *; by rewrite lookup_empty. Qed.

Lemma op_keyed1 : keyed db1.
Proof. apply (ds_keyed Plain db0). apply step_db_step; [apply op_keyed0|constructor]. Qed.

Lemma op_keyed2 : keyed db2.
Proof. apply (ds_keyed Plain db1). apply step_db_step; [apply op_keyed1|constructor]. Qed.

Lemma op_keyed4 : keyed db4.
Proof.
  apply (ds_keyed Plain db3). apply step_db_step; [|constructor].
  apply (ds_keyed Plain db2). apply step_db_step; [apply op_keyed2|constructor].
Qed.

Lemma op_row1 : operations db1 !! "op-1" = Some op1.
Proof. vm_compute. reflexivity. Qed.

Lemma op_steps14 : steps no_purge db1 db4.
Proof.
  eapply rtc_l; [|eapply rtc_l; [|apply rtc_once]]; exists Plain; (split; [discriminate|]); constructor.
Qed.

(** A requeue that comes late does not take the completed operation back. *)
Lemma operation_lifecycle_witness :
  exists op3 op5, operations db3 !! "op-1" = Some op3 /\
    operations (RequeueOperation Done 400 "op-1" "late" db3).1 !! "op-1" = Some op5 /\
    o_Status op3 = SUCCEEDED /\ op5 = op3 /\ o_Attempts op5 = 1%Z.
Proof.
  assert (H3 : keyed db3) by (apply (ds_keyed Plain db2), step_db_step; [apply op_keyed2|constructor]).
  destruct (operation_lifecycle db3 db3 Plain "op-1"
    (completed 300 SUCCEEDED (Some 9%nat) "" (claimed 200 op1)) H3) as [(o & c & [=] & _)|(opA & _ & _ & H)].
  - exact (step_requeue Done 400 "op-0" "late" db3).
  - vm_compute. reflexivity.
  - destruct (H (RequeueOperation Done 400 "op-1" "late" db3).1) as (opB & HB & _ & _ & Hf).
    { apply rtc_once. exists Plain. split; [discriminate|constructor]. }
    exists (completed 300 SUCCEEDED (Some 9%nat) "" (claimed 200 op1)), opB.
    split; [vm_compute; reflexivity|]. split; [exact HB|]. split; [reflexivity|].
    split; [apply Hf; reflexivity|]. rewrite Hf by reflexivity. reflexivity.
Defined.

(** The purge after the retention window takes the completed operation away. *)
Example purge_forgets :
  operations (DeleteTerminalOperationsOlderThan Done 301 db3).1 !! "op-1" = None /\
  operations (DeleteTerminalOperationsOlderThan Done 300 db3).1 !! "op-1" <> None.
Proof. split; vm_compute; [reflexivity|discriminate]. Qed.

(** The same create 900 ns later, on the completed operation, and the same key with another request. *)
Lemma resubmission_is_idempotent_witness :
  (exists op', ident op' = ident op1 /\
     ensureAppAndEnqueueCreate Done 1000 (create1 "exec-1" "op-1" 1 7) true db4 = (db4, Ok op')) /\
  ensureAppAndEnqueueCreate Done 1000 (create1 "exec-9" "op-1" 1 8) false db4 = (db4, Err ErrRequestConflict).
Proof.
  split.
  - destruct (resubmission_is_idempotent 100 1000 (create1 "exec-1" "op-1" 1 7) (create1 "exec-1" "op-1" 1 7) false true db0 db1 db4 op1)
      as (op' & Hi & _ & H); [apply op_keyed0|vm_compute; reflexivity|reflexivity|apply op_steps14|reflexivity..|].
    exists op'. split; [exact Hi|exact H].
  - destruct (resubmission_is_idempotent 100 1000 (create1 "exec-1" "op-1" 1 7) (create1 "exec-9" "op-1" 1 8) false false db0 db1 db4 op1)
      as (op' & Hi & _ & H); [apply op_keyed0|vm_compute; reflexivity|reflexivity|apply op_steps14|reflexivity..|].
    exact H.
Defined.

Definition db5 := (MarkMachineDeleted Done 500 "m1" db4).1.

(** Deleted, a late observation and a purge later. *)
Lemma deletion_is_final_witness :
  (exists m', machines (DeleteTerminalOperationsOlderThan Done 600 db5).1 !! "m1" = Some m' /\ DesiredState m' = "DELETED" /\
     fence m' = ("exec-1", 1%Z)) /\
  forall db6 op, ensureAppAndEnqueueCreate Done 700 (create1 "exec-2" "op-2" 2 7) false
    (DeleteTerminalOperationsOlderThan Done 600 db5).1 <> (db6, Ok op).
Proof.
  assert (H5 : keyed db5) by (apply (ds_keyed Plain db4), step_db_step; [apply op_keyed4|constructor]).
  assert (Hm : exists m, machines db5 !! "m1" = Some m /\ DesiredState m = "DELETED" /\ fence m = ("exec-1", 1%Z))
    by (eexists; vm_compute; done).
  destruct Hm as (m & Hm & Hd & Hf).
  destruct (deletion_is_final db5 (DeleteTerminalOperationsOlderThan Done 600 db5).1 "m1" m H5) as ((m' & E & D & F) & Hc & _).
  - apply rtc_once. exists Purge. split; [by right|constructor].
  - exact Hm.
  - exact Hd.
  - split; [exists m'; rewrite F, Hf; done|]. intros. apply Hc; [reflexivity|]. vm_compute. reflexivity.
Defined.

(** The machine exits; the backoff is recorded and passes. *)
Definition db6 := (PrepareRestartBackoff Done 1000 "m1" "exec-1" 1 2000 db4).1.
Definition db7 := (EnqueueRestartCAS Done 2500 "proj" "m1" "exec-1" "exec-2" "op-restart" 1 (Some 8%nat) 9000 db6).1.

Lemma restart_once_witness :
  (exists m1, machines db7 !! "m1" = Some m1 /\ fence m1 = ("exec-2", 2%Z) /\ RestartAttempts (restart m1) = 1%Z) /\
  EnqueueRestartCAS Done 3000 "proj" "m1" "exec-1" "exec-3" "op-again" 1 (Some 8%nat) 9000 db7 = (db7, Err ErrMachineLifecycleClosed).
Proof.
  assert (H6 : keyed db6) by (apply (ds_keyed Plain db4), step_db_step; [apply op_keyed4|constructor]).
  assert (Hr : exists op, EnqueueRestartCAS Done 2500 "proj" "m1" "exec-1" "exec-2" "op-restart" 1 (Some 8%nat) 9000 db6 = (db7, Ok op))
    by (eexists; vm_compute; reflexivity).
  destruct Hr as [op Hr].
  destruct (restart_once Done 2500 "proj" "m1" "exec-1" "exec-2" "op-restart" 1 (Some 8%nat) 9000 db6 db7 db7 op H6 Hr)
    as [(m & m1 & Hm & Hm1 & _ & _ & _ & Hf & _ & Ha) Hno]; [constructor|]. split.
  - exists m1. split; [exact Hm1|]. split; [exact Hf|]. rewrite Ha. assert (machines db6 !! "m1" = Some m) as Hm' by exact Hm.
    assert (Hz : match machines db6 !! "m1" with Some m => RestartAttempts (restart m) = 0%Z | None => False end) by (vm_compute; done).
    rewrite Hm' in Hz. rewrite Hz. reflexivity.
  - apply Hno.
Defined.

Lemma claims_oldest_first_witness :
  exists rows, (ClaimPendingOperations Done 200 ∅ 20 db1).2 = Ok (map (claimed 200) rows) /\ (length rows <= 20)%nat.
Proof.
  destruct (claims_oldest_first 200 ∅ 20 db1 op_keyed1) as (rows & H1 & H2 & _). exists rows. split; [exact H1|exact H2].
Defined.

(** The machine went to generation 3 before it was deleted; its owner submits generation 2. *)
Definition db8 := (MarkMachineDeleted Done 600 "m1" (EnsureAppAndEnqueueCreate Done 550 (create1 "exec-3" "op-3" 3 7) db4).1).1.
Definition fences8 : Fences := (Advance "m1" 3 "exec-3" DurableWrite.POk 10 (DurableWrite.mkCell ∅ ∅ ∅)).2.

Lemma revived_create_is_stale_witness :
  exists db9 op e, ensureAppAndEnqueueCreate Done 700 (create1 "exec-4" "op-4" 2 7) true db8 = (db9, Ok op) /\
    Fences.Check_ "m1" (o_Generation op) fences8 = Err e.
Proof.
  assert (Hr : exists db9 op, ensureAppAndEnqueueCreate Done 700 (create1 "exec-4" "op-4" 2 7) true db8 = (db9, Ok op))
    by (do 2 eexists; vm_compute; reflexivity).
  assert (Hm : exists m, machines db8 !! "m1" = Some m /\ DesiredState m = "DELETED" /\ m_Generation m = 3%Z) by (eexists; vm_compute; done).
  destruct Hr as (db9 & op & Hr), Hm as (m & Hm & Hd & Hg). exists db9, op.
  destruct (revived_create_is_stale 700 (create1 "exec-4" "op-4" 2 7) db8 db9 op m fences8) as (_ & _ & _ & e & He).
  - exact Hm.
  - exact Hd.
  - rewrite Hg. reflexivity.
  - vm_compute. reflexivity.
  - exact Hr.
  - rewrite Hg. eexists. split; [vm_compute; reflexivity|]. vm_compute. discriminate.
  - exists e. split; [exact Hr|exact He].
Defined.

End Witness.
