(* ===== verification/Dispatch.v ===== *)
(** * Dispatching operations (controller/operations.go)

    What a worker does with one claimed operation, as a program: a tree of statements on
    the tables of [Operations] and of calls to agents, placement, reservations and the
    fabric. [exec] runs a program against an environment that chooses every answer,
    outcome and clock reading; [pool_step] runs any number of programs of any number of
    controllers in any interleaving, crashes being programs that take no further step.
    Creates, deletes, reaps and lifecycle operations are modelled; the other kinds are
    handed to [Other]. Metrics and events are left out. *)
From S2P Require Import Prelude Programs GoString AgentContract AppCommand Operations.
Local Open Scope Z_scope.
Local Open Scope prog_scope.

(** ** Agents *)

(** The codes of google.golang.org/grpc/codes other than OK. *)
Inductive Code :=
  | Canceled | Unknown | InvalidArgument | DeadlineExceeded | NotFound | AlreadyExists | PermissionDenied
  | ResourceExhausted | FailedPrecondition | Aborted | OutOfRange | Unimplemented | Internal | Unavailable
  | DataLoss | Unauthenticated.
#[export] Instance Code_dec : EqDecision Code.
Proof. solve_decision. Defined.

Record RpcError := mkRpcError { code : Code; desc : string }.

Definition code_name (c : Code) : string :=
  match c with
  | Canceled => "Canceled" | Unknown => "Unknown" | InvalidArgument => "InvalidArgument"
  | DeadlineExceeded => "DeadlineExceeded" | NotFound => "NotFound" | AlreadyExists => "AlreadyExists"
  | PermissionDenied => "PermissionDenied" | ResourceExhausted => "ResourceExhausted"
  | FailedPrecondition => "FailedPrecondition" | Aborted => "Aborted" | OutOfRange => "OutOfRange"
  | Unimplemented => "Unimplemented" | Internal => "Internal" | Unavailable => "Unavailable"
  | DataLoss => "DataLoss" | Unauthenticated => "Unauthenticated"
  end.

(** A status error. *)
Definition rpc_error (e : RpcError) : goerr := Errorf "rpc error: code = %s desc = %s" [AStr (code_name (code e)); AStr (desc e)].

Definition isPermanentAgentError (e : RpcError) : bool :=
  match code e with
  | InvalidArgument | AlreadyExists | FailedPrecondition | PermissionDenied | Unauthenticated | NotFound => true
  | _ => false
  end.

Inductive MachineState :=
  | MS_UNSPECIFIED | MS_PENDING | MS_INITIALIZING | MS_RUNNING | MS_STOPPING | MS_STOPPED | MS_PAUSING | MS_PAUSED
  | MS_RESUMING | MS_DELETING | MS_DELETED.
#[export] Instance MachineState_dec : EqDecision MachineState.
Proof. solve_decision. Defined.

Definition state_String (s : MachineState) : string :=
  match s with
  | MS_UNSPECIFIED => "MACHINE_STATE_UNSPECIFIED" | MS_PENDING => "PENDING" | MS_INITIALIZING => "INITIALIZING"
  | MS_RUNNING => "RUNNING" | MS_STOPPING => "STOPPING" | MS_STOPPED => "STOPPED" | MS_PAUSING => "PAUSING"
  | MS_PAUSED => "PAUSED" | MS_RESUMING => "RESUMING" | MS_DELETING => "DELETING" | MS_DELETED => "DELETED"
  end.

Inductive MachineReadiness := READINESS_UNSPECIFIED | READINESS_UNKNOWN | NOT_READY | READY | UNCONFIGURED.
#[export] Instance MachineReadiness_dec : EqDecision MachineReadiness.
Proof. solve_decision. Defined.

Definition readiness_String (r : MachineReadiness) : string :=
  match r with
  | READINESS_UNSPECIFIED => "READINESS_UNSPECIFIED" | READINESS_UNKNOWN => "UNKNOWN" | NOT_READY => "NOT_READY"
  | READY => "READY" | UNCONFIGURED => "UNCONFIGURED"
  end.

Inductive SecretDelivery := SECRET_UNSPECIFIED | SECRET_NONE | SECRET_DELIVERED | SECRET_ACKED.
#[export] Instance SecretDelivery_dec : EqDecision SecretDelivery.
Proof. solve_decision. Defined.

(** pb.Machine, as far as the controller reads it. *)
Record AgentMachine := mkAgentMachine {
  am_MachineId : string; am_ExecutionId : string; am_State : MachineState; am_ProjectId : option string;
  am_SlotIp : string; am_Readiness : MachineReadiness; am_Generation : Z; am_ExitCode : option Z;
  am_SecretDeliveryState : SecretDelivery;
  (* the policy generation of its egress audit, 0 without one *)
  am_EgressGeneration : Z }.

Record Choice := mkChoice { NodeID : string; NomadID : string }.

(** What ensureFabricAllocation answers; the second is a store.ErrFabricNodePinned. *)
Inductive fabric_reply := FabricDone | FabricPinned (nodeID : string) (e : goerr) | FabricFailed (e : goerr).

Definition ErrProjectQuota : goerr := errors_New "project quota exceeded".
Definition isQuotaError (e : goerr) : bool := goerr_eqb e ErrProjectQuota.

Record Config := mkConfig { has_secrets : bool; fabric_enabled : bool; MaxPlacementAttempts : nat }.

Section dispatch.
Context {json : Type} `{EqDecision json}.
(** protojson, SHA-256 and the rendering of an error. *)
Context (dec_create : json -> res CreateMachineRequest) (dec_fenced : json -> res Fenced)
        (enc_fenced : Fenced -> res json) (enc_machine : AgentMachine -> option json)
        (json_empty : json) (hash : json -> string) (text : goerr -> string).

Abbreviation DB := (Operations.DB (json:=json)).
Abbreviation Operation := (Operations.Operation (json:=json)).
Abbreviation Machine := (Operations.Machine (json:=json)).
Abbreviation Dep := (AppCommand.Dep (json:=json)).

(** ** Programs *)

(** One statement or call. The names are those of the methods called. *)
Inductive eff : Type -> Type :=
  | GetMachine (id : string) : eff (res (option Machine))
  | GetDeployment (id : string) : eff (res (option Dep))
  | DeploymentSecretRefs (deploymentID : string) : eff (res (gmap string SecretRef))
  | SecretLeaseForExecution (machineID executionID : string) : eff (res SecretLease)
  | SecretCleanupDischarged (operationID : string) : eff (res bool)
  | CreateDispatchedToAgent (machineID executionID : string) : eff (res bool)
  | InsertSecretLease (seen : res SecretLease) (projectID machineID executionID : string) (generation : Z)
      (operationID requestHash : string) : eff (res SecretLease)
  | ClaimSecretLease (l : SecretLease) : eff (res unit)
  | MarkSecretLeaseDelivered (l : SecretLease) : eff (res unit)
  | MarkSecretLeaseAcked (l : SecretLease) : eff (res unit)
  | MarkSecretCreateUncertain (op : Operation) (l : SecretLease) (cleanupID : string) (request : json) (cause : string) :
      eff (res unit)
  | CompleteOperation (opID : string) (status : op_status) (result : option json) (err : string) : eff (res unit)
  | RequeueOperation (opID err : string) : eff (res unit)
  | UpdateMachineNodeAndObserved (id nodeID executionID state slotIP readiness : string) : eff (res unit)
  | UpdateMachineObservedWithFenceCAS (id nodeID executionID : string) (generation : Z) (state slotIP readiness : string) :
      eff (res bool)
  | MarkMachineDeleted (id : string) : eff (res unit)
  | Now : eff Z
  (* outside these tables *)
  | ReleaseAttachments (machineID executionID : string) : eff (res unit)
  | ReleaseULA (machineID executionID : string) : eff (res unit)
  | ResolveDeploymentSecretRefs (projectID deploymentID : string) : eff (res (gmap string string))
  | Place (opID : string) (req : CreateMachineRequest) (excluded : gset string) : eff (res Choice)
  | EnsureFabricAllocation (nodeID : string) (req : CreateMachineRequest) : eff fabric_reply
  | NodeViews : eff (list (string * string))
  | Connected (nomadID : string) : eff bool
  | Release (opID : string) : eff unit
  | Commit (opID : string) : eff unit
  | RpcCreate (nomadID : string) (req : CreateMachineRequest) (lease : option SecretLease) : eff (AgentMachine + RpcError)
  | RpcDelete (nomadID : string) (del : Fenced) : eff (unit + RpcError)
  | RpcLifecycle (nomadID kind : string) (req : Fenced) : eff (AgentMachine + RpcError)
  | RecreateMachine (m : Machine) (bump : bool) : eff unit
  | Other (op : Operation) : eff (res unit).

Local Abbreviation prog := (Programs.prog eff).

(** ** Creates *)

Definition secretLeaseConfirmsCreate (l : SecretLease) (op : Operation) (now : Z) : bool :=
  String.eqb (sl_ProjectID l) (o_ProjectID op) && String.eqb (sl_MachineID l) (o_MachineID op) &&
  String.eqb (sl_ExecutionID l) (o_ExecutionID op) && (sl_Generation l =? o_Generation op) &&
  String.eqb (sl_OperationID l) (o_ID op) && String.eqb (sl_RequestHash l) (hash (o_Request op)) &&
  (now <? sl_ExpiresAt l) && bool_decide (sl_State l ∈ [SecretLeaseDelivered; SecretLeaseAcked]).

Definition with_dispatch_node (nodeID : string) (op : Operation) : Operation := dispatched (o_UpdatedAt op) nodeID op.

Definition cleanupUncertainSecretCreate (op : Operation) (l : SecretLease) (nodeID cause : string) : prog (res unit) :=
  let delID := ("op-secret-cleanup-" +:+ o_ID op)%string in
  match enc_fenced (mkFenced (o_MachineID op) (o_ExecutionID op) (u64 (o_Generation op)) delID) with
  | Err e => Ret (Err e)
  | Ok raw =>
      let op := if String.eqb (o_DispatchNodeID op) "" then with_dispatch_node nodeID op else op in
      r <-! MarkSecretCreateUncertain op l delID raw cause ;
      match r with
      | Err e => Ret (Err (wrap "persist uncertain secret create cleanup: %w" e))
      | Ok _ => Release (o_ID op) ;! Ret (Ok tt)
      end
  end.

Definition spec_of (req : CreateMachineRequest) : string * string :=
  match Spec req with Some s => (DeploymentId s, ExecutionId s) | None => (""%string, ""%string) end.
Definition GetDeploymentId (req : CreateMachineRequest) : string := (spec_of req).1.

Definition set_secrets (env : gmap string string) (lease : string) (req : CreateMachineRequest) : CreateMachineRequest :=
  mkCreate (CMachineId req) (Spec req) (CGeneration req) (COperationId req) env lease.

Definition agent_machine_seen (am : AgentMachine) (nodeID : string) : eff (res unit) :=
  UpdateMachineNodeAndObserved (am_MachineId am) nodeID (am_ExecutionId am) (state_String (am_State am)) (am_SlotIp am)
    (readiness_String (am_Readiness am)).

(** After the agent answered a create. *)
Definition record_created (op : Operation) (lease : option SecretLease) (choice : Choice) (machine : AgentMachine) :
    prog (res unit) :=
  let finish :=
    r <-! agent_machine_seen machine (NodeID choice) ;
    match r with
    | Err e => Ret (Err e)
    | Ok _ => r <-! CompleteOperation (o_ID op) SUCCEEDED (enc_machine machine) "" ; Ret r
    end in
  Commit (o_ID op) ;!
  match lease with
  | None => finish
  | Some l =>
      match am_SecretDeliveryState machine with
      | SECRET_DELIVERED =>
          r <-! MarkSecretLeaseDelivered l ;
          match r with Err e => Ret (Err (wrap "mark secret lease delivered: %w" e)) | Ok _ => finish end
      | SECRET_ACKED =>
          r <-! MarkSecretLeaseAcked l ;
          match r with Err e => Ret (Err (wrap "mark secret lease acked: %w" e)) | Ok _ => finish end
      | _ => cleanupUncertainSecretCreate op l (NodeID choice) "agent did not confirm secret delivery"
      end
  end.

Definition attempts_exhausted : goerr := errors_New "placement attempts exhausted".
Definition no_client (node : string) : goerr := Errorf "no agent client for node %s" [AStr node].

(** The create itself; [retry] goes on with the next attempt. *)
Definition send_create (op : Operation) (req : CreateMachineRequest) (lease : option SecretLease) (choice : Choice)
    (retry : goerr -> prog (res unit)) : prog (res unit) :=
  reply <-! RpcCreate (NomadID choice) req lease ;
  match reply with
  | inr e =>
      Release (o_ID op) ;!
      match lease with
      | Some l => cleanupUncertainSecretCreate op l (NodeID choice) ("secret create result uncertain: " +:+ code_name (code e))
      | None =>
          if bool_decide (code e = ResourceExhausted) then retry (rpc_error e)
          else if isPermanentAgentError e
          then CompleteOperation (o_ID op) FAILED None (text (rpc_error e)) ;! Ret (Err (rpc_error e))
          else Ret (Err (wrap "agent create: %w" (rpc_error e)))
      end
  | inl machine => record_created op lease choice machine
  end.

(** The lease is claimed before anything is sent. *)
Definition claim_and_send (op : Operation) (req : CreateMachineRequest) (lease : option SecretLease) (choice : Choice)
    (retry : goerr -> prog (res unit)) : prog (res unit) :=
  match lease with
  | None => send_create op req lease choice retry
  | Some l =>
      r <-! ClaimSecretLease l ;
      match r with
      | Ok _ => send_create op req lease choice retry
      | Err e =>
          if errors_Is e ErrSecretLeaseTerminal
          then cleanupUncertainSecretCreate op l (NodeID choice) "secret create dispatch was already claimed; refusing redispatch"
          else Ret (Err (wrap "claim secret lease: %w" e))
      end
  end.

(** The attempts loop; [n] attempts are left. *)
Fixpoint placement_loop (cfg : Config) (op : Operation) (req : CreateMachineRequest) (lease : option SecretLease) (n : nat)
    (excluded : gset string) (lastErr : option goerr) : prog (res unit) :=
  match n with
  | O => Ret (Err (default attempts_exhausted lastErr))
  | S n =>
      placed <-! Place (o_ID op) req excluded ;
      match placed with
      | Err e =>
          if isQuotaError e then CompleteOperation (o_ID op) FAILED None (text e) ;! Ret (Err e)
          else Ret (Err e)
      | Ok choice =>
          let excluded' := {[NodeID choice]} ∪ excluded in
          let retry e := placement_loop cfg op req lease n excluded' (Some e) in
          connected <-! Connected (NomadID choice) ;
          if negb connected then Release (o_ID op) ;! retry (no_client (NomadID choice))
          else if negb (fabric_enabled cfg) then claim_and_send op req lease choice retry
          else
            reply <-! EnsureFabricAllocation (NodeID choice) req ;
            match reply with
            | FabricDone => claim_and_send op req lease choice retry
            | FabricPinned node e =>
                if bool_decide (node ∈ excluded)
                then Release (o_ID op) ;! Ret (Err (wrap "fabric allocation: %w" e))
                else Release (o_ID op) ;! placement_loop cfg op req lease n excluded' lastErr
            | FabricFailed e => Release (o_ID op) ;! Ret (Err (wrap "fabric allocation: %w" e))
            end
      end
  end.

(** The deployment has secrets and there is no master key: fail closed. *)
Definition failclosed_reason : string :=
  "deployment has secret_refs but FIREPAAS_SECRETS_MASTER_KEY is not configured; refusing to create a VM without its secrets (fail-closed)".

Definition fail_closed (cfg : Config) (op : Operation) (req : CreateMachineRequest) (continue : prog (res unit)) : prog (res unit) :=
  if negb (has_secrets cfg) && negb (String.eqb (GetDeploymentId req) "") then
    refs <-! DeploymentSecretRefs (GetDeploymentId req) ;
    match refs with
    | Err e => Ret (Err (wrap "load deployment secret refs: %w" e))
    | Ok refs =>
        if Nat.ltb 0 (size refs) then CompleteOperation (o_ID op) FAILED None failclosed_reason ;! Ret (Ok tt)
        else continue
    end
  else continue.

Definition has_refs (dep : Dep) : bool :=
  match dp_SecretRefs dep with Some refs => Nat.ltb 0 (size refs) | None => false end.

(** R8: the machine is observed RUNNING under the operation's execution. *)
Definition recover_running (op : Operation) (m : Machine) (secretCreate : bool) : prog (res unit) :=
  let succeed := Release (o_ID op) ;! r <-! CompleteOperation (o_ID op) SUCCEEDED None "" ; Ret r in
  if negb secretCreate then succeed
  else
    lease <-! SecretLeaseForExecution (o_MachineID op) (o_ExecutionID op) ;
    match lease with
    | Err e => Ret (Err (Errorf "load secret lease for running execution %s: %w" [AStr (o_ExecutionID op); AErr e]))
    | Ok l =>
        now <-! Now ;
        if secretLeaseConfirmsCreate l op now then succeed
        else
          let nodeID := if String.eqb (Operations.NodeID (placed m)) "" then o_DispatchNodeID op else Operations.NodeID (placed m) in
          cleanupUncertainSecretCreate op l nodeID "running execution has unconfirmed secret delivery"
    end.

Definition recovery (op : Operation) (req : CreateMachineRequest) (continue : prog (res unit)) : prog (res unit) :=
  m <-! GetMachine (o_MachineID op) ;
  match m with
  | Ok (Some m) =>
      if String.eqb (CurrentExecutionID m) (o_ExecutionID op) && String.eqb (ObservedState (placed m)) "RUNNING" then
        if String.eqb (GetDeploymentId req) "" then recover_running op m false
        else
          dep <-! GetDeployment (GetDeploymentId req) ;
          match dep with
          | Err e => Ret (Err (wrap "load deployment for create recovery: %w" e))
          | Ok None => Ret (Err (Errorf "load deployment for create recovery: deployment %s not found" [AStr (GetDeploymentId req)]))
          | Ok (Some dep) => recover_running op m (has_refs dep)
          end
      else continue
  | _ => continue
  end.

(** The secrets and their lease, then the attempts. *)
Definition lease_and_place (cfg : Config) (op : Operation) (req : CreateMachineRequest) (env : gmap string string) : prog (res unit) :=
  if Nat.eqb (size env) 0 then placement_loop cfg op (set_secrets env (SecretLeaseId req) req) None (MaxPlacementAttempts cfg) ∅ None
  else
    seen <-! SecretLeaseForExecution (o_MachineID op) (o_ExecutionID op) ;
    lease <-! InsertSecretLease seen (o_ProjectID op) (o_MachineID op) (o_ExecutionID op) (o_Generation op) (o_ID op)
               (hash (o_Request op)) ;
    match lease with
    | Err e => CompleteOperation (o_ID op) FAILED None ("secret lease: " +:+ text e) ;! Ret (Err (wrap "secret lease: %w" e))
    | Ok l => placement_loop cfg op (set_secrets env (sl_ID l) req) (Some l) (MaxPlacementAttempts cfg) ∅ None
    end.

Definition resolve_and_place (cfg : Config) (op : Operation) (req : CreateMachineRequest) : prog (res unit) :=
  if has_secrets cfg && negb (String.eqb (GetDeploymentId req) "") then
    env <-! ResolveDeploymentSecretRefs (o_ProjectID op) (GetDeploymentId req) ;
    match env with
    | Err e => CompleteOperation (o_ID op) FAILED None ("resolve secret refs: " +:+ text e) ;!
               Ret (Err (wrap "resolve secret refs: %w" e))
    | Ok env => lease_and_place cfg op req (env ∪ SecretEnv req)
    end
  else lease_and_place cfg op req (SecretEnv req).

Definition processCreate (cfg : Config) (op : Operation) : prog (res unit) :=
  match dec_create (o_Request op) with
  | Err e => CompleteOperation (o_ID op) FAILED None (text e) ;! Ret (Err e)
  | Ok req =>
      m <-! GetMachine (o_MachineID op) ;
      match m with
      | Err e => Ret (Err e)
      | Ok None => CompleteOperation (o_ID op) FAILED None "machine gone" ;! Ret (Ok tt)
      | Ok (Some m) =>
          if String.eqb (DesiredState m) "DELETED"
          then CompleteOperation (o_ID op) SUPERSEDED None "machine deleted; dropping stale create (no dispatch)" ;! Ret (Ok tt)
          else fail_closed cfg op req (recovery op req (resolve_and_place cfg op req))
      end
  end.

(** ** Deletes *)

(** deleteErrorConverges: the target is not on this node. *)
Definition deleteErrorConverges (e : RpcError) (m : option Machine) (opExecution : string) : bool :=
  bool_decide (code e = FailedPrecondition) &&
  match m with
  | None => true
  | Some m => negb (String.eqb (CurrentExecutionID m) "") && negb (String.eqb (CurrentExecutionID m) opExecution)
  end.

(** clientForNodeID: the first view of the agent, by its Nomad ID. *)
Definition nomad_of (agentID : string) (views : list (string * string)) : option string :=
  option_map snd (List.find (fun v => String.eqb v.1 agentID) views).

(** After the agent's answer, or without one. *)
Definition finish_delete (op : Operation) (del : Fenced) (m : option Machine) (markDeleted mismatchConverged : bool) : prog (res unit) :=
  let complete := r <-! CompleteOperation (o_ID op) SUCCEEDED (Some json_empty) "" ; Ret r in
  let release :=
    if mismatchConverged then complete
    else
      r <-! ReleaseAttachments (MachineId del) (FExecutionId del) ;
      match r with
      | Err e => Ret (Err e)
      | Ok _ => ReleaseULA (MachineId del) (FExecutionId del) ;! complete
      end in
  match m with
  | Some row =>
      if markDeleted && String.eqb (FExecutionId del) (CurrentExecutionID row) && negb (String.eqb (DesiredState row) "DELETED") then
        r <-! MarkMachineDeleted (MachineId del) ;
        match r with Err e => Ret (Err e) | Ok _ => release end
      else release
  | None => release
  end.

(** No agent to ask: an uncertain secret create must be discharged or never have been sent. *)
Definition without_agent (op : Operation) (del : Fenced) (nodeID : string) (continue : prog (res unit)) : prog (res unit) :=
  lease <-! SecretLeaseForExecution (MachineId del) (FExecutionId del) ;
  match lease with
  | Ok l =>
      if bool_decide (sl_State l = SecretLeaseUncertain) then
        discharged <-! SecretCleanupDischarged (sl_OperationID l) ;
        match discharged with
        | Err e => Ret (Err e)
        | Ok true => continue
        | Ok false =>
            sent <-! CreateDispatchedToAgent (MachineId del) (FExecutionId del) ;
            match sent with
            | Err e => Ret (Err (wrap "secret cleanup dispatch lookup: %w" e))
            | Ok true => Ret (Err (Errorf "secret cleanup waiting for node %s" [AStr nodeID]))
            | Ok false => continue
            end
        end
      else continue
  | Err _ => continue
  end.

Definition ask_agent (op : Operation) (del : Fenced) (m : option Machine) (markDeleted : bool) (nomad : string) : prog (res unit) :=
  reply <-! RpcDelete nomad del ;
  match reply with
  | inl _ => finish_delete op del m markDeleted false
  | inr e =>
      if deleteErrorConverges e m (o_ExecutionID op)
      then finish_delete op del m markDeleted
             (match m with Some row => negb (String.eqb (DesiredState row) "DELETED") | None => false end)
      else if bool_decide (code e = NotFound) then finish_delete op del m markDeleted false
      else if isPermanentAgentError e
      then CompleteOperation (o_ID op) FAILED None (text (rpc_error e)) ;! Ret (Err (rpc_error e))
      else Ret (Err (wrap "agent delete: %w" (rpc_error e)))
  end.

Definition processDelete (op : Operation) (markDeleted : bool) : prog (res unit) :=
  match dec_fenced (o_Request op) with
  | Err e => CompleteOperation (o_ID op) FAILED None (text e) ;! Ret (Err e)
  | Ok del =>
      row <-! GetMachine (MachineId del) ;
      let m := match row with Ok m => m | Err _ => None end in
      let nodeID := if String.eqb (o_DispatchNodeID op) ""
                    then match m with Some row => Operations.NodeID (placed row) | None => "" end
                    else o_DispatchNodeID op in
      let unreachable := without_agent op del nodeID (finish_delete op del m markDeleted false) in
      if String.eqb nodeID "" then unreachable
      else
        views <-! NodeViews ;
        match nomad_of nodeID views with
        | None => unreachable
        | Some nomad =>
            connected <-! Connected nomad ;
            if connected then ask_agent op del m markDeleted nomad else unreachable
        end
  end.

(** ** Pause and resume *)

Definition lifecycle_want (kind : string) (state : MachineState) : string :=
  match state with
  | MS_PAUSED | MS_RESUMING => "PAUSED"
  | MS_RUNNING => "RUNNING"
  | _ => if String.eqb kind "resume" then "RUNNING" else "PAUSED"
  end.

Definition processLifecycle (op : Operation) : prog (res unit) :=
  match dec_fenced (o_Request op) with
  | Err e => CompleteOperation (o_ID op) FAILED None (text e) ;! Ret (Err e)
  | Ok _ =>
      m <-! GetMachine (o_MachineID op) ;
      match m with
      | Err e => Ret (Err e)
      | Ok None => CompleteOperation (o_ID op) FAILED None "machine gone" ;! Ret (Ok tt)
      | Ok (Some m) =>
          if negb (String.eqb (CurrentExecutionID m) (o_ExecutionID op)) || negb (m_Generation m =? o_Generation op)
          then CompleteOperation (o_ID op) SUPERSEDED None "machine fence moved past this operation (no dispatch)" ;! Ret (Ok tt)
          else
            (* ClientFor(m.NodeID) *)
            connected <-! Connected (Operations.NodeID (placed m)) ;
            if negb connected then Ret (Err (Errorf "no agent client for machine %s" [AStr (o_MachineID op)]))
            else
              reply <-! RpcLifecycle (Operations.NodeID (placed m)) (if String.eqb (o_Kind op) "pause" then "pause" else "resume")
                         (mkFenced (o_MachineID op) (o_ExecutionID op) (u64 (o_Generation op)) (o_ID op)) ;
              match reply with
              | inr e =>
                  if bool_decide (code e = FailedPrecondition) && String.eqb (o_Kind op) "resume" then
                    RecreateMachine m true ;!
                    CompleteOperation (o_ID op) FAILED None "snapshot restore failed; cold-start scheduled" ;! Ret (Ok tt)
                  else Ret (Err (Errorf "agent %s: %w" [AStr (o_Kind op); AErr (rpc_error e)]))
              | inl pbm =>
                  cas <-! UpdateMachineObservedWithFenceCAS (o_MachineID op) (Operations.NodeID (placed m)) (o_ExecutionID op) (o_Generation op)
                           (lifecycle_want (o_Kind op) (am_State pbm)) (ObservedSlotIP (placed m)) (ObservedReadiness (placed m)) ;
                  match cas with
                  | Err e => Ret (Err e)
                  | Ok false =>
                      CompleteOperation (o_ID op) SUPERSEDED None "machine fence drifted during dispatch; result discarded" ;! Ret (Ok tt)
                  | Ok true => r <-! CompleteOperation (o_ID op) SUCCEEDED (enc_machine pbm) "" ; Ret r
                  end
              end
      end
  end.

(** ** The dispatcher *)

(** The kinds whose handlers are not modelled. *)
Definition other_kinds : list string :=
  ["snapshot_create"; "snapshot_delete"; "fork"; "rescue"; "volume_create"; "dataset_import";
   "volume_delete"; "volume_attach"; "volume_detach"; "image_prewarm"].

Definition by_kind (cfg : Config) (op : Operation) : prog (res unit) :=
  let kind := o_Kind op in
  if String.eqb kind "create" then processCreate cfg op
  else if String.eqb kind "delete" then processDelete op true
  else if String.eqb kind "reap" then processDelete op false
  else if String.eqb kind "pause" || String.eqb kind "resume" then processLifecycle op
  else if bool_decide (kind ∈ other_kinds)
  then r <-! Other op ; Ret r
  else
    let err := Errorf "unknown operation kind %q" [AStr kind] in
    CompleteOperation (o_ID op) FAILED None (text err) ;! Ret (Err err).

Definition processOperation (cfg : Config) (op : Operation) : prog (res unit) :=
  if String.eqb (o_Kind op) "create" then
    m <-! GetMachine (o_MachineID op) ;
    match m with
    | Ok (Some m) =>
        if String.eqb (DesiredState m) "DELETED" then
          CompleteOperation (o_ID op) FAILED None "machine deleted; create cancelled" ;! Release (o_ID op) ;! Ret (Ok tt)
        else by_kind cfg op
    | _ => by_kind cfg op
    end
  else by_kind cfg op.

Definition dispatchOne (cfg : Config) (op : Operation) : prog unit :=
  pbind (processOperation cfg op) (fun r =>
    match r with
    | Err e => RequeueOperation (o_ID op) (text e) ;! Ret tt
    | Ok _ => Ret tt
    end).


(** ** Running programs *)

(** What a run did, as far as the theorems speak of it. *)
Inductive ev :=
  | EvMachine (id : string) (m : res (option Machine))
  | EvLease (machineID executionID : string) (l : res SecretLease)
  | EvDischarged (opID : string) (b : res bool)
  | EvSent (machineID executionID : string) (b : res bool)
  | EvCreate (nomadID : string) (req : CreateMachineRequest) (lease : option SecretLease)
  | EvDelete (nomadID : string) (del : Fenced) (reply : unit + RpcError)
  | EvLifecycle (nomadID kind : string) (req : Fenced) (reply : AgentMachine + RpcError)
  | EvObserved (id nodeID executionID : string) (generation : Z) (cas : res bool)
  | EvDeleted (id : string)
  | EvReleased (opID : string)
  | EvCompleted (opID : string) (status : op_status).

Definition event {B} (c : eff B) : B -> list ev :=
  match c in eff B return B -> list ev with
  | GetMachine id => fun m => [EvMachine id m]
  | SecretLeaseForExecution m e => fun l => [EvLease m e l]
  | SecretCleanupDischarged op => fun b => [EvDischarged op b]
  | CreateDispatchedToAgent m e => fun b => [EvSent m e b]
  | RpcCreate n req l => fun _ => [EvCreate n req l]
  | RpcDelete n del => fun r => [EvDelete n del r]
  | RpcLifecycle n kind req => fun r => [EvLifecycle n kind req r]
  | UpdateMachineObservedWithFenceCAS id n e g _ _ _ => fun b => [EvObserved id n e g b]
  | MarkMachineDeleted id => fun _ => [EvDeleted id]
  | Release op => fun _ => [EvReleased op]
  | CompleteOperation op st _ _ => fun _ => [EvCompleted op st]
  | _ => fun _ => []
  end.

(** What a run depends on, by the number of the call: how statements end, both clocks,
    the names of new leases, what everybody else does to the tables just before it, and
    the answers from outside. *)
Record Env := mkEnv {
  outcome : nat -> exec_outcome; clock : nat -> Z; db_clock : nat -> Z; fresh : nat -> string;
  others : nat -> DB -> DB; answer : forall B, nat -> eff B -> B }.

Definition read {A} (o : exec_outcome) (a : A) : res A :=
  match o with Done => Ok a | FailedBefore e | FailedAfter e => Err e end.

(** A placed operation has its node written down; a node that is not is an error of Place. *)
Definition perform_place (o : exec_outcome) (now : Z) (opID : string) (placed : res Choice) (db : DB) : DB * res Choice :=
  match placed with
  | Err e => (db, Err e)
  | Ok choice =>
      let '(db', r) := UpdateOperationDispatchNode o now opID (NodeID choice) db in
      (db', res_bind r (fun _ => Ok choice))
  end.

Definition perform (env : Env) (i : nat) {B} (c : eff B) (db : DB) : DB * B :=
  let o := outcome env i in
  let now := db_clock env i in
  match c in eff B return B -> DB * B with
  | GetMachine id => fun _ => (db, read o (machines db !! id))
  | GetDeployment id => fun _ => (db, read o (deployments db !! id))
  | DeploymentSecretRefs id => fun _ =>
      (db, read o (default ∅ (dep ← deployments db !! id; dp_SecretRefs dep)))
  | SecretLeaseForExecution m e => fun _ => (db, res_bind (read o tt) (fun _ => Operations.SecretLeaseForExecution db m e))
  | SecretCleanupDischarged op => fun _ => (db, read o (Operations.SecretCleanupDischarged db op))
  | CreateDispatchedToAgent m e => fun _ => (db, read o (Operations.CreateDispatchedToAgent db m e))
  | InsertSecretLease seen p m e g op h => fun _ => EnsureSecretLease seen o now (fresh env i) p m e g op h 0 db
  | ClaimSecretLease l => fun _ => Operations.ClaimSecretLease o (clock env i) now l db
  | MarkSecretLeaseDelivered l => fun _ => Operations.MarkSecretLeaseDelivered o now l db
  | MarkSecretLeaseAcked l => fun _ => Operations.MarkSecretLeaseAcked o now l db
  | MarkSecretCreateUncertain op l id req cause => fun _ =>
      MarkSecretCreateUncertainAndEnqueueCleanup o now op l id (Some req) cause db
  | CompleteOperation op st res err => fun _ => Operations.CompleteOperation o now op st res err db
  | RequeueOperation op err => fun _ => Operations.RequeueOperation o now op err db
  | UpdateMachineNodeAndObserved id n e s ip rd => fun _ => Operations.UpdateMachineNodeAndObserved o now id n e s ip rd db
  | UpdateMachineObservedWithFenceCAS id n e g s ip rd => fun _ =>
      Operations.UpdateMachineObservedWithFenceCAS o now id n e g s ip rd db
  | MarkMachineDeleted id => fun _ => Operations.MarkMachineDeleted o now id db
  | Now => fun _ => (db, clock env i)
  | Place op req excluded => fun placed => perform_place o now op placed db
  | _ => fun b => (db, b)
  end (answer env B i c).

(** A run of one program, call by call. *)
Definition exec {A} (env : Env) (p : prog A) (i : nat) (db : DB) : DB * A * list ev :=
  run (@event) (fun j B c db => perform env j c (others env j db)) p i db.

Lemma exec_do {A B} env (c : eff B) (k : B -> prog A) i db :
  exec env (Do c k) i db =
    let '(db1, b) := perform env i c (others env i db) in let '(db2, a, t) := exec env (k b) (S i) db1 in (db2, a, event c b ++ t).
Proof. reflexivity. Qed.

(** ** Any number of workers *)

(** Workers of any controller take operations, with any configuration, make their calls
    and die; anybody else runs statements. *)
Definition starts (op : Operation) (p : prog unit) : Prop := exists cfg, p = dispatchOne cfg op.
Definition acts B (c : eff B) (db db' : DB) (b : B) : Prop := exists env i, perform env i c db = (db', b).
Definition statement (db db' : DB) : Prop := exists a, step a db db'.
Definition dispatch_step := pool_step (@event) starts acts statement.

(** The execution an operation is for, and the creates that carry the secrets of one. *)
Definition execution_of (op : Operation) : string * string := (o_MachineID op, o_ExecutionID op).
Definition is_send (key : string * string) (e : Operation * ev) : bool :=
  match e.2 with EvCreate _ _ (Some _) => bool_decide (execution_of e.1 = key) | _ => false end.
Definition sends (key : string * string) (h : list (Operation * ev)) : nat := length (List.filter (is_send key) h).
#[local] Arguments sends : simpl never.

(** ** Calls are statements *)

Lemma perform_step env i {B} (c : eff B) db : (perform env i c db).1 = db \/ step Plain db (perform env i c db).1.
Proof.
  destruct c; cbn; try (by left); try (right; by constructor).
  destruct (answer env _ i _) as [ch|e]; [|by left]. cbn.
  destruct (UpdateOperationDispatchNode _ _ _ _ _) as [db' r] eqn:E. right. cbn.
  change db' with (db', r).1. rewrite <- E. constructor.
Qed.

Lemma perform_keyed env i {B} (c : eff B) db : keyed db -> keyed (perform env i c db).1.
Proof.
  intros Hk. destruct (perform_step env i c db) as [-> | Hs]; [done|]. exact (ds_keyed _ _ _ (step_db_step _ _ _ Hk Hs)).
Qed.

(** ** Secrets are sent once *)

(** What a create with secrets costs, and what a claim of its lease pays for. *)
Definition cost (key : string * string) {B} (c : eff B) : nat :=
  match c with RpcCreate _ _ (Some l) => if bool_decide (lease_key l = key) then 1 else 0 | _ => 0 end.
Definition credit (key : string * string) {B} (c : eff B) : B -> nat :=
  match c in eff B return B -> nat with
  | ClaimSecretLease l => fun r => if bool_decide (lease_key l = key) && is_ok r then 1 else 0
  | _ => fun _ => 0
  end%nat.
Definition next_credit (key : string * string) B (c : eff B) (b : B) (n : nat) : nat := (n - cost key c + credit key c b)%nat.
Definition paid (own key : string * string) B (c : eff B) (n : nat) : Prop :=
  (cost key c <= n)%nat /\ match c with RpcCreate _ _ (Some l) => lease_key l = own | _ => True end.

(** The leases of an execution are its own. *)
Definition own_lease B (c : eff B) : B -> Prop :=
  match c in eff B return B -> Prop with
  | SecretLeaseForExecution m e => fun r => forall l, r = Ok l -> lease_key l = (m, e)
  | InsertSecretLease seen _ m e _ _ _ => fun r => forall l, r = Ok l -> seen = Ok l \/ lease_key l = (m, e)
  | _ => fun _ => True
  end.

(** Programs that send no create with secrets they have not claimed, and only with
    the lease of their own execution. *)
Abbreviation claims_first own key p n := (obeys (paid own key) own_lease (next_credit key) (fun _ _ => True) p n).

Ltac spends := repeat first
  [ exact I
  | progress cbn
  | match goal with
    | |- (_ <= _)%nat => unfold next_credit; cbn; lia
    | |- _ /\ _ => split
    | |- forall _, _ => intro
    | |- paid _ _ _ _ _ => split; [cbn; lia|exact I]
    | |- obeys _ _ _ _ (if ?b then _ else _) _ => destruct b
    | |- obeys _ _ _ _ (match ?x with _ => _ end) _ => destruct x eqn:?
    | |- obeys _ _ _ _ _ _ => progress cbn
    end ].

Lemma cleanup_pays own key op l node cause n : claims_first own key (cleanupUncertainSecretCreate op l node cause) n.
Proof. unfold cleanupUncertainSecretCreate. spends. Qed.
Lemma record_pays own key op lease ch am n : claims_first own key (record_created op lease ch am) n.
Proof. unfold record_created. repeat (spends; try apply cleanup_pays). Qed.

Lemma claim_and_send_pays own key op req lease ch retry n :
  (forall l, lease = Some l -> lease_key l = own) -> (forall e n, claims_first own key (retry e) n) ->
  claims_first own key (claim_and_send op req lease ch retry) n.
Proof.
  intros Hown Hr.
  assert (Hsend : forall n, match lease with Some l => lease_key l = key -> (1 <= n)%nat | None => True end ->
    claims_first own key (send_create op req lease ch retry) n).
  { intros n' Hn. split.
    - split; destruct lease as [l|]; cbn; [case_bool_decide; auto; lia|lia|auto|done].
    - intros [am|e] _; [apply record_pays|]. destruct lease; repeat (spends; try apply cleanup_pays; try apply Hr). }
  unfold claim_and_send. destruct lease as [l|]; [|by apply Hsend]. split; [split; cbn; [lia|done]|].
  intros [[]|e] _; [|destruct (errors_Is _ _); [apply cleanup_pays|exact I]].
  apply Hsend. intros Hkey. unfold next_credit. cbn. rewrite bool_decide_eq_true_2 by done. cbn. lia.
Qed.

Lemma placement_pays own key cfg op req lease k excluded lastErr n :
  (forall l, lease = Some l -> lease_key l = own) ->
  claims_first own key (placement_loop cfg op req lease k excluded lastErr) n.
Proof.
  intros Hown. revert excluded lastErr n. induction k as [|k IH]; intros excluded lastErr n; [exact I|]. cbn [placement_loop].
  repeat (spends; try (apply claim_and_send_pays; [done|]; intros; apply IH); try apply IH).
Qed.

Lemma lease_and_place_pays key cfg op req env n :
  claims_first (execution_of op) key (lease_and_place cfg op req env) n.
Proof.
  unfold lease_and_place. destruct (Nat.eqb _ _); [by apply placement_pays|].
  split; [split; cbn; [lia|done]|]. intros seen Hseen. cbn in Hseen. split; [split; cbn; [lia|done]|].
  intros [l|e] Hl; [|spends]. apply placement_pays. intros l' [= <-]. destruct (Hl l eq_refl) as [H|H]; [by apply Hseen|done].
Qed.

Lemma create_pays key cfg op n : claims_first (execution_of op) key (processCreate cfg op) n.
Proof.
  unfold processCreate, fail_closed, recovery, recover_running, resolve_and_place.
  repeat (spends; try apply cleanup_pays; try apply lease_and_place_pays).
Qed.

Lemma delete_pays own key op marks n : claims_first own key (processDelete op marks) n.
Proof. unfold processDelete, without_agent, ask_agent, finish_delete. spends. Qed.

Lemma lifecycle_pays own key op n : claims_first own key (processLifecycle op) n.
Proof. unfold processLifecycle. spends. Qed.

Lemma dispatch_pays key cfg op n : claims_first (execution_of op) key (dispatchOne cfg op) n.
Proof.
  apply (obeys_pbind _ _ _ (fun _ _ => True)); [|intros [] m _; spends].
  unfold processOperation, by_kind.
  repeat (spends; try apply create_pays; try apply delete_pays; try apply lifecycle_pays).
Qed.

(** The one claim of a lease is spent for ever. *)
Definition spent (db : DB) (key : string * string) : nat :=
  match leases db !! key with Some l => if Nat.ltb 0 (lease_rank (sl_State l)) then 1 else 0 | None => 0 end%nat.

Lemma spent_step a db db' key : keyed db -> step a db db' -> (spent db key <= spent db' key)%nat.
Proof.
  intros Hk Hs. unfold spent. destruct (leases db !! key) as [l|] eqn:E; [|lia].
  destruct (ds_leases _ _ _ (step_db_step _ _ _ Hk Hs) key l E) as (l' & -> & [-> | [_ Hr]]); [done|].
  destruct (Nat.ltb_spec 0 (lease_rank (sl_State l))), (Nat.ltb_spec 0 (lease_rank (sl_State l'))); lia.
Qed.

(** A claim that is answered well was the first. *)
Lemma claim_spends o clock now l db db' :
  Operations.ClaimSecretLease o clock now l db = (db', Ok tt) ->
  spent db (lease_key l) = 0%nat /\ spent db' (lease_key l) = 1%nat.
Proof.
  unfold Operations.ClaimSecretLease, transitionSecretLease, update_lease, spent. destruct (sl_State l); try done.
  destruct (_ =? zero_time); [done|]. destruct (negb _); [done|].
  destruct (leases db !! lease_key l) as [row|] eqn:E; [|by destruct o].
  destruct (_ && _) eqn:G; [|by destruct o]. destruct o; cbn; try done. intros [= <-]. cbn. rewrite lookup_insert_eq.
  split; [|done]. bool_to_prop.
  match goal with H : _ ∈ [SecretLeaseIssued] |- _ => apply list_elem_of_singleton in H; rewrite H end. done.
Qed.

Lemma perform_credit key env i {B} (c : eff B) db :
  keyed db -> let '(db', b) := perform env i c db in
  (spent db key + credit key c b <= spent db' key)%nat.
Proof.
  intros Hk. destruct (perform env i c db) as [db' b] eqn:E.
  assert (Hle : (spent db key <= spent db' key)%nat).
  { destruct (perform_step env i c db) as [Hd|Hs]; rewrite E in *; cbn in *; [by subst|by eapply spent_step]. }
  destruct c; cbn [credit]; try lia. destruct (bool_decide (lease_key l = key) && is_ok b) eqn:G; [|lia].
  bool_to_prop. subst key. destruct b as [[]|e]; [|done]. cbn in E. apply claim_spends in E as [-> ->]. lia.
Qed.

Lemma perform_own env i {B} (c : eff B) db : keyed db -> own_lease B c (perform env i c db).2.
Proof.
  intros Hk. destruct c; cbn; try exact I.
  - unfold read. intros l. destruct (outcome env i); cbn; try done. unfold Operations.SecretLeaseForExecution.
    destruct (leases db !! _) as [l'|] eqn:E; [|done]. intros [= ->]. by apply (k_leases db Hk).
  - intros l. unfold EnsureSecretLease. destruct seen as [l'|e]; cbn.
    + destruct (same_binding _ _ _ _ _); [|done]. intros [= ->]. by left.
    + intros Hl. right. revert Hl. destruct (negb _); [done|]. cbn.
      destruct (outcome env i), (leases db !! (machineID, executionID)) as [l'|] eqn:E; cbn; rewrite ?E; cbn;
        rewrite ?lookup_insert_eq; cbn; try done; try (by intros [= <-]);
        case_match; try done; intros [= <-]; try done; by apply (k_leases db Hk).
Qed.

Lemma sends_app key h h' : sends key (h ++ h') = (sends key h + sends key h')%nat.
Proof. unfold sends. by rewrite List.filter_app, length_app. Qed.

Lemma event_cost key op {B} (c : eff B) b n :
  paid (execution_of op) key B c n -> sends key (map (pair op) (event c b)) = cost key c.
Proof.
  intros [_ Hown]. destruct c; try done. destruct lease as [l|]; [|done]. unfold sends. cbn in *. rewrite Hown.
  by case_bool_decide.
Qed.

Lemma sum_list_app (l k : list nat) : sum_list (l ++ k) = (sum_list l + sum_list k)%nat.
Proof. induction l; cbn; lia. Qed.

(** Every worker keeps what it has paid for; [n0] was spent at the start. *)
Record sends_paid (key : string * string) (n0 : nat) (db : DB) (credits : list nat) (h : list (Operation * ev)) : Prop := mkSendsPaid {
  sp_keyed : keyed db;
  sp_paid : (n0 + sends key h + sum_list credits <= spent db key)%nat;
  sp_own : Forall (fun e => match e.2 with EvCreate _ _ (Some l) => lease_key l = execution_of e.1 | _ => True end) h }.

Lemma sends_paid_pool key n0 p q :
  rtc dispatch_step p q ->
  (exists gs, Forall2 (fun w n => claims_first (execution_of w.1) key w.2 n) (workers p) gs /\ sends_paid key n0 (tables p) gs (history p)) ->
  exists gs, Forall2 (fun w n => claims_first (execution_of w.1) key w.2 n) (workers q) gs /\ sends_paid key n0 (tables q) gs (history q).
Proof.
  intros Hs. eapply pool_invariant; [..|exact Hs].
  - intros op pr db gs h [cfg ->] [Hk Hp Ho]. exists 0%nat. split; [apply dispatch_pays|by split].
  - intros op B c k db db' b gs g gs' h (env & i & Ha) [Hpre Hk'] [Hk Hp Ho].
    pose proof (perform_credit key env i c db Hk) as Hcr. pose proof (perform_keyed env i c db Hk) as Hk2.
    pose proof (perform_own env i c db Hk) as Hans. rewrite Ha in *. cbn in *. exists (next_credit key B c b g).
    split; [by apply Hk'|]. split; [done| |].
    + rewrite sends_app, (event_cost key op c b g) by done. destruct Hpre as [Hpre _].
      revert Hp. rewrite !sum_list_app. unfold next_credit. cbn. lia.
    + apply Forall_app. split; [done|]. destruct Hpre as [_ Hpre]. destruct c; cbn; repeat constructor; try done.
  - intros db gs g gs' h [Hk Hp Ho]. split; [done| |done]. revert Hp. rewrite !sum_list_app. cbn. lia.
  - intros db db' gs h [a Ha] [Hk Hp Ho]. split; [exact (ds_keyed _ _ _ (step_db_step _ _ _ Hk Ha))| |done].
    pose proof (spent_step a db db' key Hk Ha). lia.
Qed.

(** C2. However many workers of however many controllers dispatch, crash, retry
    and race, whatever the agents, the clocks and the database answer and whatever
    else runs on the tables: the secrets of one execution are sent to agents at most
    once, always under that execution's own lease, and never when the lease had
    already left ISSUED. *)
Theorem secrets_sent_once db p key :
  keyed db -> rtc dispatch_step (mkPool db [] []) p ->
  (sends key (history p) <= 1)%nat /\
  (forall l, leases db !! key = Some l -> sl_State l <> SecretLeaseIssued -> sends key (history p) = 0%nat) /\
  (forall op nomadID req l, (op, EvCreate nomadID req (Some l)) ∈ history p -> lease_key l = execution_of op).
Proof.
  intros Hk Hs. destruct (sends_paid_pool key (spent db key) _ _ Hs) as (gs & _ & [_ Hp Ho]).
  { exists []. split; [constructor|]. split; cbn; [done|unfold sends; cbn; lia|constructor]. }
  assert (spent (tables p) key <= 1)%nat by (unfold spent; repeat case_match; lia).
  split_and!; [lia| |].
  - intros l Hl Hst. assert (spent db key = 1%nat) by (unfold spent; rewrite Hl; by destruct (sl_State l)). lia.
  - intros op n req l Hin. rewrite Forall_forall in Ho. exact (Ho _ Hin).
Qed.

(** ** What a run of one operation does *)

Local Abbreviation op_runs := (runs (@event)).

Lemma exec_runs {A} env (p : prog A) i db : let '(_, a, t) := exec env p i db in op_runs p t a.
Proof. apply run_runs. Qed.

Definition fence_of (op : Operation) : string * Z := (o_ExecutionID op, o_Generation op).

(** A pause or resume reaches an agent only under the fence the operation
    was enqueued with: the machine row read in that run carries its execution and
    generation, and the request repeats them. A row that has moved on ends the
    operation as SUPERSEDED and nothing is sent. It ends as SUCCEEDED only when an agent
    carried it out and the row still had the fence when the result was written. *)
Theorem lifecycle_fenced env op i db :
  let '(_, _, t) := exec env (processLifecycle op) i db in
  (forall nomadID kind req reply, EvLifecycle nomadID kind req reply ∈ t ->
     exists m, EvMachine (o_MachineID op) (Ok (Some m)) ∈ t /\ fence m = fence_of op /\
       req = mkFenced (o_MachineID op) (o_ExecutionID op) (u64 (o_Generation op)) (o_ID op) /\
       (kind = "pause" <-> o_Kind op = "pause")%string) /\
  (forall m, EvMachine (o_MachineID op) (Ok (Some m)) ∈ t -> fence m <> fence_of op ->
     t = [EvMachine (o_MachineID op) (Ok (Some m)); EvCompleted (o_ID op) SUPERSEDED]) /\
  (forall id, EvCompleted id SUCCEEDED ∈ t -> id = o_ID op /\
     exists nomadID kind req pbm, EvLifecycle nomadID kind req (inl pbm) ∈ t /\
       EvObserved (o_MachineID op) nomadID (o_ExecutionID op) (o_Generation op) (Ok true) ∈ t).
Proof.
  pose proof (exec_runs env (processLifecycle op) i db) as H. destruct (exec env (processLifecycle op) i db) as [[db' r] t].
  unfold processLifecycle in H. paths H; repeat (apply orb_false_iff in Heqb0 as [? ?]); bool_to_prop;
    (split_and!;
     [intros ???? Hin; which_event Hin; injection Hin as -> -> -> ->; exists m; unfold fence, fence_of;
        (split_and!; [event_in|congruence|done|destruct (String.eqb_spec (o_Kind op) "pause"); split; congruence])
     |intros m' Hin Hf; which_event Hin; injection Hin as ->; try done; exfalso; apply Hf; unfold fence, fence_of; congruence
     |intros ? Hin; which_event Hin; injection Hin as ->; (split; [done|]); do 4 eexists; split; event_in]).
Qed.

(** The proofs that let a delete succeed: the agent's answer, or that there is nothing
    at an agent to wait for. *)
Definition delete_proved (op : Operation) (del : Fenced) (t : list ev) : Prop :=
  (exists nomadID reply, EvDelete nomadID del reply ∈ t /\
     match reply with
     | inl _ => True
     | inr e => code e = NotFound \/
         (code e = FailedPrecondition /\
          exists row, EvMachine (MachineId del) row ∈ t /\
            (forall m, row = Ok (Some m) -> CurrentExecutionID m <> ""%string /\ CurrentExecutionID m <> o_ExecutionID op))
     end) \/
  ((forall nomadID reply, EvDelete nomadID del reply ∉ t) /\
   exists l, EvLease (MachineId del) (FExecutionId del) l ∈ t /\
     (forall lease, l = Ok lease -> sl_State lease = SecretLeaseUncertain ->
        EvDischarged (sl_OperationID lease) (Ok true) ∈ t \/ EvSent (MachineId del) (FExecutionId del) (Ok false) ∈ t)).

(** What [finish_delete] does. *)
Definition finishes (op : Operation) (del : Fenced) (m : option Machine) (marks : bool) (e : ev) : Prop :=
  e = EvCompleted (o_ID op) SUCCEEDED \/
  (e = EvDeleted (MachineId del) /\ marks = true /\
   exists row, m = Some row /\ CurrentExecutionID row = FExecutionId del /\ DesiredState row <> "DELETED"%string).

Lemma finish_runs op del m marks converged t r :
  op_runs (finish_delete op del m marks converged) t r -> Forall (finishes op del m marks) t.
Proof.
  unfold finish_delete. intros H. paths H; repeat (apply andb_true_iff in Heqb as [Heqb ?]); bool_to_prop;
    rewrite ?Forall_cons; repeat split; try (by apply Forall_nil); try (by left); right; eauto 10.
Qed.

(** What may come before it. *)
Definition asks (e : ev) : Prop :=
  match e with EvCompleted _ st => st = FAILED | EvDeleted _ => False | _ => True end.

Definition answer_proves (op : Operation) (m : option Machine) (reply : unit + RpcError) : Prop :=
  match reply with
  | inl _ => True
  | inr e => code e = NotFound \/
      (code e = FailedPrecondition /\
       forall row, m = Some row -> CurrentExecutionID row <> ""%string /\ CurrentExecutionID row <> o_ExecutionID op)
  end.

Lemma ask_runs op del m marks nomadID t r :
  op_runs (ask_agent op del m marks nomadID) t r ->
  exists reply t', t = EvDelete nomadID del reply :: t' /\
    (Forall asks t' \/ (answer_proves op m reply /\ Forall (finishes op del m marks) t')).
Proof.
  unfold ask_agent. intros (reply & t' & -> & H). exists reply, t'. split; [done|]. destruct reply as [[]|e].
  - right. split; [done|]. by eapply finish_runs.
  - destruct (deleteErrorConverges _ _ _) eqn:Hc.
    + right. split; [|by eapply finish_runs]. right. unfold deleteErrorConverges in Hc. apply andb_true_iff in Hc as [Hc Hm].
      bool_to_prop. split; [done|]. intros row ->. apply andb_true_iff in Hm as [? ?]. by bool_to_prop.
    + case_bool_decide.
      * right. split; [by left|]. by eapply finish_runs.
      * left. paths H; repeat constructor.
Qed.

Lemma without_runs op del nodeID continue t r :
  op_runs (without_agent op del nodeID continue) t r ->
  exists l t1 t2, t = EvLease (MachineId del) (FExecutionId del) l :: t1 ++ t2 /\
    Forall (fun e => asks e /\ match e with EvDelete _ _ _ => False | _ => True end) t1 /\
    (t2 = [] \/ (op_runs continue t2 r /\
      forall lease, l = Ok lease -> sl_State lease = SecretLeaseUncertain ->
        EvDischarged (sl_OperationID lease) (Ok true) ∈ t1 \/ EvSent (MachineId del) (FExecutionId del) (Ok false) ∈ t1)).
Proof.
  unfold without_agent. intros (l & t' & -> & H). exists l. destruct l as [l|e].
  - case_bool_decide.
    + destruct H as (d & t1 & -> & H). destruct d as [[]|e].
      * exists [EvDischarged (sl_OperationID l) (Ok true)], t1. split_and!; [done|by repeat constructor|]. right. split; [done|].
        intros ? [= <-] _. left. event_in.
      * destruct H as (s & t2 & -> & H). destruct s as [[]|e].
        -- paths H. eexists [_; _], []. split_and!; [done|by repeat constructor|by left].
        -- eexists [_; EvSent (MachineId del) (FExecutionId del) (Ok false)], t2. split_and!; [done|by repeat constructor|].
           right. split; [done|]. intros ? [= <-] _. right. event_in.
        -- paths H. eexists [_; _], []. split_and!; [done|by repeat constructor|by left].
      * paths H. eexists [_], []. split_and!; [done|by repeat constructor|by left].
    + exists [], t'. split_and!; [done|done|]. right. split; [done|]. by intros ? [= <-].
  - exists [], t'. split_and!; [done|done|]. right. by split.
Qed.

Lemma without_proves op del m marks nodeID row t r :
  op_runs (without_agent op del nodeID (finish_delete op del m marks false)) t r ->
  Forall asks t \/ (delete_proved op del (EvMachine (MachineId del) row :: t) /\ Forall (fun e => asks e \/ finishes op del m marks e) t).
Proof.
  intros (l & t1 & t2 & -> & H1 & H2)%without_runs. destruct H2 as [->|[H2%finish_runs Hl]].
  - left. rewrite app_nil_r. constructor; [exact I|]. eapply Forall_impl; [exact H1|]. by intros e [? _].
  - right. split.
    + right. split.
      * intros n reply Hin. which_event Hin. apply elem_of_app in Hin as [Hin|Hin].
        -- rewrite Forall_forall in H1. by destruct (H1 _ Hin).
        -- rewrite Forall_forall in H2. destruct (H2 _ Hin) as [?|[? _]]; discriminate.
      * exists l. split; [event_in|]. intros lease Hlease Hst.
        destruct (Hl lease Hlease Hst); [left|right]; do 2 apply list_elem_of_further; apply elem_of_app; by left.
    + constructor; [by left|]. apply Forall_app. split; (eapply Forall_impl; [eassumption|]).
      * intros e [? _]. by left.
      * by right.
Qed.

Lemma ask_proves op del m marks nomadID row t r :
  m = match row with Ok m => m | Err _ => None end -> op_runs (ask_agent op del m marks nomadID) t r ->
  Forall asks t \/ (delete_proved op del (EvMachine (MachineId del) row :: t) /\ Forall (fun e => asks e \/ finishes op del m marks e) t).
Proof.
  intros Hm (reply & t' & -> & H)%ask_runs. destruct H as [H|[Hp H]]; [left; by constructor|]. right. split.
  - left. exists nomadID, reply. split; [event_in|]. destruct reply as [|e]; [done|]. destruct Hp as [Hp|[Hp Hrow]]; [by left|].
    right. split; [done|]. exists row. split; [event_in|]. intros m' ->. by apply Hrow.
  - constructor; [by left|]. eapply Forall_impl; [exact H|]. by right.
Qed.

(** A delete or reap succeeds only with proof. An agent deleted the
    execution, or does not know it, or refused it for its fence while the machine runs
    another execution; without an agent, no secret-bearing create of the execution can
    still be in doubt. The machine is marked DELETED only by a delete, not by a reap,
    of the execution that is current. *)
Theorem delete_needs_proof env op marks i db del :
  dec_fenced (o_Request op) = Ok del ->
  let '(_, _, t) := exec env (processDelete op marks) i db in
  (forall id, EvCompleted id SUCCEEDED ∈ t -> id = o_ID op /\ delete_proved op del t) /\
  (forall id, EvDeleted id ∈ t -> id = MachineId del /\ marks = true /\ delete_proved op del t /\
     exists m, EvMachine (MachineId del) (Ok (Some m)) ∈ t /\ CurrentExecutionID m = FExecutionId del /\ DesiredState m <> "DELETED"%string).
Proof.
  intros Hdel. pose proof (exec_runs env (processDelete op marks) i db) as H.
  destruct (exec env (processDelete op marks) i db) as [[db' r] t].
  unfold processDelete in H. rewrite Hdel in H. destruct H as (row & t1 & -> & H). cbn [event app].
  set (m := match row with Ok m => m | Err _ => None end) in H.
  assert (Hs : Forall asks t1 \/ (delete_proved op del (EvMachine (MachineId del) row :: t1) /\
                                 Forall (fun e => asks e \/ finishes op del m marks e) t1)).
  { destruct (String.eqb _ ""); [by eapply without_proves|]. destruct H as (views & t2 & -> & H).
    destruct (nomad_of _ _) as [nomadID|]; [|by eapply without_proves]. destruct H as ([] & t3 & -> & H).
    - by eapply ask_proves.
    - by eapply without_proves. }
  destruct Hs as [Hs|[Hp Hs]]; rewrite Forall_forall in Hs; (split; intros id Hin; which_event Hin).
  - by pose proof (Hs _ Hin).
  - by pose proof (Hs _ Hin).
  - destruct (Hs _ Hin) as [?|[[= ->]|[? _]]]; done.
  - destruct (Hs _ Hin) as [[]|[[=]|([= ->] & Hmk & row' & Hm & Hrow)]]. split_and!; [done..|]. exists row'.
    split; [|done]. subst m. destruct row as [m|]; [|done]. subst m. event_in.
Qed.

(** ** Nothing stays claimed *)

(** The calls after which the operation is not CLAIMED. *)
Definition closes (id : string) B (c : eff B) : B -> bool :=
  match c in eff B return B -> bool with
  | CompleteOperation op _ _ _ => fun _ => String.eqb op id
  | RequeueOperation op _ => fun _ => String.eqb op id
  | MarkSecretCreateUncertain op _ _ _ _ => fun r => String.eqb (o_ID op) id && is_ok r
  | _ => fun _ => false
  end.
Definition ends_terminal B (c : eff B) (_ : bool) : Prop :=
  match c with CompleteOperation _ st _ _ => terminal st = true | _ => True end.
Definition next_closed (id : string) B (c : eff B) (b : B) (closed : bool) : bool := closed || closes id B c b.

(** Programs that end with an error or after one of them. *)
Definition closed_or_failed (r : res unit) (closed : bool) : Prop := is_ok r = true -> closed = true.
Abbreviation settles id p closed := (obeys ends_terminal (fun _ _ _ => True) (next_closed id) closed_or_failed p closed).

Ltac settle := repeat first
  [ exact I | reflexivity | progress cbn
  | match goal with
    | |- _ /\ _ => split
    | |- forall _, _ => intro
    | |- ends_terminal _ _ _ => first [exact I|reflexivity]
    | |- closed_or_failed _ _ => unfold closed_or_failed, next_closed; cbn;
        rewrite ?String.eqb_refl, ?orb_true_r; cbn; first [done|by intros _|by rewrite ?orb_true_r]
    | |- obeys _ _ _ _ (if ?b then _ else _) _ => destruct b
    | |- obeys _ _ _ _ (match ?x with _ => _ end) _ => destruct x eqn:?
    end ].

Lemma cleanup_settles op l node cause s : settles (o_ID op) (cleanupUncertainSecretCreate op l node cause) s.
Proof. unfold cleanupUncertainSecretCreate. destruct (String.eqb (o_DispatchNodeID op) ""); settle. Qed.
Lemma record_settles op lease ch am s : settles (o_ID op) (record_created op lease ch am) s.
Proof. unfold record_created. repeat (settle; try apply cleanup_settles). Qed.

Lemma claim_and_send_settles op req lease ch retry s :
  (forall e s, settles (o_ID op) (retry e) s) -> settles (o_ID op) (claim_and_send op req lease ch retry) s.
Proof.
  intros Hr. unfold claim_and_send, send_create. repeat (settle; try apply cleanup_settles; try apply record_settles; try apply Hr).
Qed.

Lemma placement_settles cfg op req lease k excluded lastErr s :
  settles (o_ID op) (placement_loop cfg op req lease k excluded lastErr) s.
Proof.
  revert excluded lastErr s. induction k as [|k IH]; intros excluded lastErr s; [by intros ?|]. cbn [placement_loop].
  repeat (settle; try (apply claim_and_send_settles; intros; apply IH); try apply IH).
Qed.

Lemma create_settles cfg op s : settles (o_ID op) (processCreate cfg op) s.
Proof.
  unfold processCreate, fail_closed, recovery, recover_running, resolve_and_place, lease_and_place.
  repeat (settle; try apply cleanup_settles; try apply placement_settles).
Qed.

Lemma delete_settles op marks s : settles (o_ID op) (processDelete op marks) s.
Proof. unfold processDelete, without_agent, ask_agent, finish_delete. settle. Qed.

Lemma lifecycle_settles op s : settles (o_ID op) (processLifecycle op) s.
Proof. unfold processLifecycle. settle. Qed.

Lemma dispatch_closes cfg op :
  o_Kind op ∉ other_kinds ->
  obeys ends_terminal (fun _ _ _ => True) (next_closed (o_ID op)) (fun _ closed => closed = true) (dispatchOne cfg op) false.
Proof.
  intros Hkind. apply (obeys_pbind _ _ _ closed_or_failed).
  - unfold processOperation, by_kind. rewrite (bool_decide_eq_false_2 _ Hkind).
    repeat (settle; try apply create_settles; try apply delete_settles; try apply lifecycle_settles).
  - intros [[]|e] s Hs; [by apply Hs|]. split; [exact I|]. intros b _. cbn. unfold next_closed. cbn.
    by rewrite String.eqb_refl, orb_true_r.
Qed.

Definition present (db : DB) (id : string) : Prop := exists row, operations db !! id = Some row.
Definition unclaimed (db : DB) (id : string) : Prop := exists row, operations db !! id = Some row /\ o_Status row <> CLAIMED.

(** What the calls of a program do to the status of a row. *)
Definition released_status (s s' : op_status) : Prop := s' = s \/ s' <> CLAIMED.

Lemma set_op_row id id' (f : Operation -> Operation) (db : DB) row :
  operations db !! id = Some row ->
  operations (set_op f id' db) !! id = Some (if String.eqb id' id then f row else row).
Proof.
  intros H. cbn. destruct (String.eqb_spec id' id) as [->|Hne].
  - by rewrite lookup_alter_eq, H.
  - by rewrite lookup_alter_ne.
Qed.

Lemma update_op_row o fmt id guard f id' (db : DB) row :
  operations db !! id' = Some row -> (forall r : Operation, o_Status (f r) = o_Status r \/ o_Status (f r) <> CLAIMED) ->
  exists row', operations (update_op o fmt id guard f db).1 !! id' = Some row' /\ released_status (o_Status row) (o_Status row').
Proof.
  intros Hrow Hf. unfold update_op, cmd_exec. destruct o; cbn [fst]; [|by exists row; split; [|left]|];
    (eexists; split; [by apply set_op_row|]); destruct (String.eqb id id'); [|by left| |by left];
    (destruct (guard _); [apply Hf|by left]).
Qed.

Lemma insert_operation_row now e (db db' : DB) r id row :
  insert_operation now e db = (db', r) -> operations db !! id = Some row -> operations db' !! id = Some row.
Proof.
  unfold insert_operation. intros Hi Hrow. destruct (e_Request e), (node_column (e_DispatchNodeID e)) as [node|]; simplify_eq; try done.
  destruct (operations db !! e_OperationID e) eqn:E; [by simplify_eq|]. destruct (negb _); simplify_eq; [done|]. cbn.
  rewrite lookup_insert_ne; [done|congruence].
Qed.

Lemma uncertain_row o now op l cleanup req cause (db db' : DB) r id row :
  MarkSecretCreateUncertainAndEnqueueCleanup o now op l cleanup req cause db = (db', r) -> operations db !! id = Some row ->
  exists row', operations db' !! id = Some row' /\ released_status (o_Status row) (o_Status row') /\
    (is_ok r = true -> o_ID op = id -> o_Status row' <> CLAIMED).
Proof.
  unfold MarkSecretCreateUncertainAndEnqueueCleanup, inTx, update_lease. intros H Hrow.
  assert (Hsame : exists row', operations db !! id = Some row' /\ released_status (o_Status row) (o_Status row')) by (exists row; split; [done|by left]).
  assert (Hbody : forall ls db1 r1, insert_operation now (mkEnqueue (o_ProjectID op) (o_MachineID op) (o_ExecutionID op) cleanup
      (o_Generation op) "reap" req (Some (o_DispatchNodeID op)))
      (set_op (fun row => if not_final (o_Status row) then failed_create now cause row else row) (o_ID op) (with_leases ls db)) = (db1, r1) ->
      exists row', operations db1 !! id = Some row' /\ released_status (o_Status row) (o_Status row') /\
        (o_ID op = id -> o_Status row' <> CLAIMED)).
  { intros ls db1 r1 Hi. pose proof (set_op_row id (o_ID op) (fun row => if not_final (o_Status row) then failed_create now cause row else row)
      (with_leases ls db) row Hrow) as Hs. eexists. split; [by eapply insert_operation_row|].
    destruct (String.eqb_spec (o_ID op) id) as [->|Hne]; [|by split; [left|]].
    destruct (o_Status row) eqn:Es; cbn; rewrite ?Es; (split; [by right|done]). }
  destruct (leases db !! lease_key l) as [lrow|]; [|cbn in H; simplify_eq; naive_solver].
  destruct (bound_to l lrow && _); [|cbn in H; simplify_eq; naive_solver]. cbn [negb] in H.
  destruct (insert_operation _ _ _) as [db1 r1] eqn:Hi. destruct (Hbody _ _ _ Hi) as (row' & Hr & Hst & Hc).
  destruct r1; [|simplify_eq; naive_solver]. destruct o; simplify_eq; naive_solver.
Qed.

(** The calls that leave the operations table alone. *)
Definition writes_operations {B} (c : eff B) : bool :=
  match c with
  | CompleteOperation _ _ _ _ | RequeueOperation _ _ | MarkSecretCreateUncertain _ _ _ _ _ | Place _ _ _ => true
  | _ => false
  end.

Lemma perform_operations env i {B} (c : eff B) (db : DB) :
  writes_operations c = false -> operations (perform env i c db).1 = operations db.
Proof.
  intros Hc. destruct c; try done; cbn;
    unfold EnsureSecretLease, Operations.ClaimSecretLease, Operations.MarkSecretLeaseDelivered, Operations.MarkSecretLeaseAcked,
      transitionSecretLease, update_lease, cmd_ret, Operations.UpdateMachineNodeAndObserved, Operations.UpdateMachineObservedWithFenceCAS,
      Operations.MarkMachineDeleted, exec_machine, count_machine, cmd_exec, update_machine;
    destruct (outcome env i); cbn; try reflexivity; repeat (case_match; cbn in *; simplify_eq; try reflexivity).
Qed.

Lemma complete_status (st : op_status) err :
  terminal st = true -> (if negb (String.eqb err "") && bool_decide (st = SUCCEEDED) then FAILED else st) <> CLAIMED.
Proof. intros Ht. destruct (_ && _); [done|]. by destruct st. Qed.

Lemma update_op_closes o fmt id (guard : op_status -> bool) (f : Operation -> Operation) id' (db : DB) row :
  operations db !! id' = Some row -> (forall r : Operation, o_Status (f r) = o_Status r \/ o_Status (f r) <> CLAIMED) ->
  (forall r : Operation, o_Status (if guard (o_Status r) then f r else r) <> CLAIMED) ->
  exists row', operations (update_op o fmt id guard f db).1 !! id' = Some row' /\ released_status (o_Status row) (o_Status row') /\
    (o = Done -> String.eqb id id' = true -> o_Status row' <> CLAIMED).
Proof.
  intros Hrow Hf Hg. destruct (update_op_row o fmt id guard f id' db row Hrow Hf) as (row' & Hr & Hst).
  exists row'. split_and!; [done..|]. intros -> Hid. unfold update_op, cmd_exec in Hr. cbn [fst] in Hr.
  rewrite (set_op_row id' id _ db row Hrow), Hid in Hr. simplify_eq. by apply Hg.
Qed.

Lemma perform_row env i {B} (c : eff B) (db : DB) id row :
  ends_terminal B c false -> operations db !! id = Some row ->
  exists row', operations (perform env i c db).1 !! id = Some row' /\ released_status (o_Status row) (o_Status row') /\
    (outcome env i = Done -> closes id B c (perform env i c db).2 = true -> o_Status row' <> CLAIMED).
Proof.
  intros Ht Hrow. destruct (writes_operations c) eqn:Hw.
  2:{ exists row. rewrite perform_operations by done. split_and!; [done|by left|]. by destruct c. }
  destruct c; try done; cbn.
  - destruct (uncertain_row (outcome env i) (db_clock env i) op l cleanupID (Some request) cause db _ _ id row (surjective_pairing _) Hrow)
      as (row' & Hr & Hst & Hcl). exists row'. split_and!; [done..|]. intros _ [Hid Hok]%andb_true_iff.
    apply String.eqb_eq in Hid. by apply Hcl.
  - eapply update_op_closes; [done|intros r; right; by apply complete_status|].
    intros r. destruct (o_Status r) eqn:Es; cbn; rewrite ?Es; try done; by apply complete_status.
  - eapply update_op_closes; [done|by right|]. intros r. by destruct (o_Status r) eqn:Es; cbn; rewrite ?Es.
  - destruct (answer env _ i _) as [ch|e]; cbn; [|exists row; split_and!; [done|by left|done]].
    destruct (update_op_row (outcome env i) "update dispatch node %s: %w" opID in_flight (dispatched (db_clock env i) (NodeID ch)) id db row Hrow)
      as (row' & Hr & Hst); [by left|]. unfold UpdateOperationDispatchNode.
    destruct (update_op _ _ _ _ _ _) as [db' r]. exists row'. by split_and!.
Qed.

(** Everybody else neither removes the row nor claims it again. *)
Definition leaves_row (env : Env) (id : string) : Prop := forall j (db : DB) row,
  operations db !! id = Some row ->
  exists row', operations (others env j db) !! id = Some row' /\ released_status (o_Status row) (o_Status row').

Lemma exec_closes {A} env id (post : A -> bool -> Prop) (p : prog A) i db s :
  (forall j, outcome env j = Done) -> leaves_row env id ->
  obeys ends_terminal (fun _ _ _ => True) (next_closed id) post p s ->
  present db id -> (s = true -> unclaimed db id) ->
  let '(db', a, _) := exec env p i db in exists s', post a s' /\ (s' = true -> unclaimed db' id).
Proof.
  intros Hdone Hleave. revert i db s. induction p as [a|B c k IH]; intros i db s Hp [row Hrow] Hs; [cbn in *; eauto|]. rewrite exec_do.
  cbn in Hp. destruct Hp as [Hpre Hk]. destruct (Hleave i db row Hrow) as (row1 & Hrow1 & Hst1).
  destruct (perform_row env i c (others env i db) id row1 Hpre Hrow1) as (row2 & Hrow2 & Hst2 & Hcl).
  destruct (perform env i c (others env i db)) as [db1 b]. cbn in *.
  specialize (IH b (S i) db1 (next_closed id B c b s) (Hk b I)). destruct (exec env (k b) (S i) db1) as [[db2 a] t].
  apply IH; [by exists row2|]. unfold next_closed. intros [H|H]%orb_true_iff; exists row2; (split; [done|]).
  - destruct (Hs H) as (row' & E & Hne). assert (row' = row) as -> by congruence.
    unfold released_status in *. destruct Hst1, Hst2; congruence.
  - by apply Hcl.
Qed.

(** C21. With a database that answers, a worker never leaves its operation
    claimed, when the operation is a create, a delete or a reap, a change of the lifecycle
    or of a kind nobody knows (the handlers of snapshots, volumes, datasets and images are
    not part of the model), and while everybody else neither removes the row nor claims
    it back: whatever agents, placement and fabric answer and the others do beside that,
    the run ends, and then the row is PENDING again or has a final status. *)
Theorem dispatch_releases cfg env op i db :
  o_Kind op ∉ other_kinds -> (forall j, outcome env j = Done) -> leaves_row env (o_ID op) -> present db (o_ID op) ->
  let '(db', _, _) := exec env (dispatchOne cfg op) i db in
  exists row, operations db' !! o_ID op = Some row /\ (o_Status row = PENDING \/ terminal (o_Status row) = true).
Proof.
  intros Hkind Hdone Hleave Hrow.
  pose proof (exec_closes env (o_ID op) _ (dispatchOne cfg op) i db false Hdone Hleave (dispatch_closes cfg op Hkind) Hrow) as H.
  destruct (exec env (dispatchOne cfg op) i db) as [[db' a] t]. destruct H as (s & -> & H); [done|].
  destruct (H eq_refl) as (row & Hr & Hne). exists row. split; [done|]. destruct (o_Status row); auto.
Qed.

(** ** Runs that help nobody *)

(** Statements succeed and nobody else writes. *)
Record calm (env : Env) : Prop := mkCalm {
  calm_done : forall j, outcome env j = Done; calm_alone : forall j db, others env j db = db }.

Lemma exec_call {A B} env (c : eff B) (k : B -> prog A) i db :
  calm env ->
  exec env (Do c k) i db =
    let '(db1, b) := perform env i c db in let '(db2, a, t) := exec env (k b) (S i) db1 in (db2, a, event c b ++ t).
Proof. intros Hc. by rewrite exec_do, (calm_alone _ Hc). Qed.

Lemma exec_pbind {A B} env (p : prog A) (f : A -> prog B) i db :
  exists j, exec env (pbind p f) i db =
    let '(db1, a, t1) := exec env p i db in let '(db2, b, t2) := exec env (f a) j db1 in (db2, b, t1 ++ t2).
Proof. apply run_pbind. Qed.

(** A lease that is over before it was claimed. *)
Definition lease_over (op : Operation) (l : SecretLease) : Prop :=
  same_binding l (o_ProjectID op) (o_Generation op) (o_ID op) (hash (o_Request op)) = true /\
  sl_State l ∈ [SecretLeaseExpired; SecretLeaseRevoked].

Lemma over_claim env i op l db :
  lease_over op l -> perform env i (ClaimSecretLease l) db = (db, Err (terminal_lease l)).
Proof. intros [_ Hst]. cbn. unfold Operations.ClaimSecretLease. by each_elem Hst. Qed.

Lemma over_uncertain env i op op' l db id req cause :
  lease_over op l -> leases db !! lease_key l = Some l ->
  perform env i (MarkSecretCreateUncertain op' l id req cause) db = (db, Err (lease_rejected l SecretLeaseUncertain)).
Proof.
  intros [_ Hst] Hl. cbn. unfold MarkSecretCreateUncertainAndEnqueueCleanup, inTx, update_lease. rewrite Hl.
  assert (Hb : bool_decide (sl_State l ∈ [SecretLeaseClaimed; SecretLeaseUncertain]) = false) by (by each_elem Hst).
  cbv beta. by rewrite Hb, andb_false_r.
Qed.

Lemma errors_Is_terminal l : errors_Is (terminal_lease l) ErrSecretLeaseTerminal = true.
Proof. reflexivity. Qed.

(** A run that sends nothing, gives up nothing and changes nothing but the operation. *)
Definition fruitless_event (e : ev) : Prop :=
  match e with EvCreate _ _ _ | EvReleased _ | EvCompleted _ _ => False | _ => True end.
Record fruitless (op : Operation) (db db' : DB) : Prop := mkFruitless {
  fr_machines : machines db' = machines db; fr_leases : leases db' = leases db;
  fr_row : forall row, operations db !! o_ID op = Some row ->
    exists row', operations db' !! o_ID op = Some row' /\ o_Status row' = o_Status row /\ ident row' = ident row }.
Definition fruitless_run (op : Operation) (db : DB) (x : DB * res unit * list ev) : Prop :=
  is_ok x.1.2 = false /\ fruitless op db x.1.1 /\ Forall fruitless_event x.2.

Lemma fruitless_refl op db : fruitless op db db.
Proof. split; eauto. Qed.

Lemma fruitless_call env op {B} (c : eff B) k i db db1 b :
  calm env -> perform env i c db = (db1, b) -> fruitless op db db1 -> Forall fruitless_event (event c b) ->
  fruitless_run op db1 (exec env (k b) (S i) db1) -> fruitless_run op db (exec env (Do c k) i db).
Proof.
  intros Hcalm Hp [Hm Hl Hr] He. rewrite exec_call, Hp by done. destruct (exec env (k b) (S i) db1) as [[db2 a] t].
  intros (Ha & [Hm' Hl' Hr'] & Ht). split_and!; cbn in *; [done| |by apply Forall_app]. split; [congruence..|].
  intros row Hrow. destruct (Hr row Hrow) as (row1 & E1 & S1 & I1). destruct (Hr' row1 E1) as (row2 & E2 & S2 & I2).
  exists row2. split_and!; congruence.
Qed.

(** A call that reads. *)
Lemma fruitless_read env op {B} (c : eff B) k i db b :
  calm env -> perform env i c db = (db, b) -> Forall fruitless_event (event c b) ->
  fruitless_run op db (exec env (k b) (S i) db) -> fruitless_run op db (exec env (Do c k) i db).
Proof. intros. by eapply fruitless_call; [..|apply fruitless_refl| |]. Qed.

Ltac reads found := eapply fruitless_read; [done|found|by repeat constructor|cbv beta iota zeta].

Lemma place_fruitless env op i req excluded choice db :
  outcome env i = Done -> answer env _ i (Place (o_ID op) req excluded) = Ok choice ->
  exists db1, perform env i (Place (o_ID op) req excluded) db = (db1, Ok choice) /\ fruitless op db db1.
Proof.
  intros Hd Ha. eexists. cbn. rewrite Ha, Hd. cbn. split; [reflexivity|]. split; [done..|]. intros row Hrow.
  eexists. split; [by apply set_op_row|]. rewrite String.eqb_refl. by destruct (in_flight _).
Qed.

Lemma over_placement cfg env op i db req l choice raw n :
  calm env -> fabric_enabled cfg = false -> (forall f, enc_fenced f = Ok raw) ->
  leases db !! lease_key l = Some l -> lease_over op l ->
  (forall j id r x, answer env _ j (Place id r x) = Ok choice) -> (forall j, answer env _ j (Connected (NomadID choice)) = true) ->
  fruitless_run op db (exec env (placement_loop cfg op req (Some l) (S n) ∅ None) i db).
Proof.
  intros Hcalm Hfab Henc Hl Hover Hplace Hconn. cbn [placement_loop].
  destruct (place_fruitless env op i req ∅ choice db (calm_done _ Hcalm i) (Hplace _ _ _ _)) as (db1 & Hp & Hf).
  eapply fruitless_call; [done|exact Hp|done|constructor|]. cbv zeta.
  reads ltac:(cbn; by rewrite Hconn). rewrite Hfab. cbn [negb claim_and_send].
  reads ltac:(by eapply over_claim). rewrite errors_Is_terminal.
  unfold cleanupUncertainSecretCreate. rewrite Henc.
  reads ltac:(eapply over_uncertain; [done|by rewrite (fr_leases _ _ _ Hf)]).
  by split_and!; [|apply fruitless_refl|constructor].
Qed.

Lemma over_create cfg env op i db req m l secrets choice raw n :
  calm env -> keyed db -> has_secrets cfg = true -> fabric_enabled cfg = false -> MaxPlacementAttempts cfg = S n ->
  dec_create (o_Request op) = Ok req -> GetDeploymentId req <> ""%string -> (forall f, enc_fenced f = Ok raw) ->
  machines db !! o_MachineID op = Some m -> DesiredState m <> "DELETED"%string -> ObservedState (placed m) <> "RUNNING"%string ->
  leases db !! execution_of op = Some l -> lease_over op l ->
  (forall j p d, answer env _ j (ResolveDeploymentSecretRefs p d) = Ok secrets) -> secrets ∪ SecretEnv req <> ∅ ->
  (forall j id r x, answer env _ j (Place id r x) = Ok choice) -> (forall j, answer env _ j (Connected (NomadID choice)) = true) ->
  fruitless_run op db (exec env (processCreate cfg op) i db).
Proof.
  intros Hcalm Hk Hsec Hfab Hmax Hreq Hdep Henc Hm Hdes Hobs Hl Hover Hres Hne Hplace Hconn.
  pose proof (calm_done _ Hcalm) as Hdone. apply String.eqb_neq in Hdes, Hobs, Hdep.
  assert (Hread : forall j, perform env j (GetMachine (o_MachineID op)) db = (db, Ok (Some m))) by (intros j; cbn; by rewrite Hdone, Hm).
  unfold processCreate. rewrite Hreq. reads ltac:(apply Hread). rewrite Hdes.
  unfold fail_closed, recovery. rewrite Hsec. cbn [negb andb].
  reads ltac:(apply Hread). rewrite Hobs, andb_false_r.
  unfold resolve_and_place. rewrite Hsec, Hdep. cbn [negb andb].
  reads ltac:(cbn; by rewrite Hres). unfold lease_and_place.
  destruct (Nat.eqb_spec (size (secrets ∪ SecretEnv req)) 0) as [H0|_]; [by apply map_size_empty_iff in H0|].
  reads ltac:(cbn; rewrite Hdone; cbn; unfold Operations.SecretLeaseForExecution; fold (execution_of op); by rewrite Hl).
  reads ltac:(cbn; by rewrite (proj1 Hover)). rewrite Hmax.
  eapply over_placement; try done. by rewrite (k_leases db Hk _ _ Hl).
Qed.

(** A create with secrets whose lease ended before it was claimed (the
    deadline passed while no node had room) is never sent again, although a node takes
    it: the lease of the execution is handed out as it is, claiming it is refused, and
    the cleanup is refused too since the lease is not CLAIMED. The operation goes back to PENDING
    with nothing changed but its error and its node, and its reservation is kept. *)
Theorem spent_lease_starves cfg env op i db req m l row secrets choice raw n :
  calm env -> keyed db -> has_secrets cfg = true -> fabric_enabled cfg = false -> MaxPlacementAttempts cfg = S n ->
  o_Kind op = "create"%string -> dec_create (o_Request op) = Ok req -> GetDeploymentId req <> ""%string ->
  (forall f, enc_fenced f = Ok raw) ->
  machines db !! o_MachineID op = Some m -> DesiredState m <> "DELETED"%string -> ObservedState (placed m) <> "RUNNING"%string ->
  leases db !! execution_of op = Some l -> lease_over op l ->
  operations db !! o_ID op = Some row -> o_Status row = CLAIMED ->
  (forall j p d, answer env _ j (ResolveDeploymentSecretRefs p d) = Ok secrets) -> secrets ∪ SecretEnv req <> ∅ ->
  (forall j id r x, answer env _ j (Place id r x) = Ok choice) -> (forall j, answer env _ j (Connected (NomadID choice)) = true) ->
  let '(db', _, t) := exec env (dispatchOne cfg op) i db in
  machines db' = machines db /\ leases db' = leases db /\
  (exists row', operations db' !! o_ID op = Some row' /\ o_Status row' = PENDING /\ ident row' = ident row) /\
  (forall e, e ∈ t -> fruitless_event e).
Proof.
  intros Hcalm Hk Hsec Hfab Hmax Hkind Hreq Hdep Henc Hm Hdes Hobs Hl Hover Hrow Hst Hres Hne Hplace Hconn.
  pose proof (calm_done _ Hcalm) as Hdone.
  destruct (exec_pbind env (processOperation cfg op) (fun r => match r with Err e => RequeueOperation (o_ID op) (text e) ;! Ret tt | Ok _ => Ret tt end) i db)
    as [j Hexec]. unfold dispatchOne. rewrite Hexec. clear Hexec.
  assert (H : fruitless_run op db (exec env (processOperation cfg op) i db)).
  { unfold processOperation, by_kind. rewrite Hkind. change (String.eqb "create" "create") with true. cbv beta iota zeta.
    eapply (fruitless_read _ _ _ _ _ _ (Ok (Some m))); [done|cbn; by rewrite Hdone, Hm|by repeat constructor|cbv beta iota zeta].
    rewrite (proj2 (String.eqb_neq _ _) Hdes). by eapply over_create. }
  destruct (exec env (processOperation cfg op) i db) as [[db1 r] t1]. destruct H as (Hr & [Hm1 Hl1 Hr1] & Ht). cbn in *.
  destruct (Hr1 row Hrow) as (row1 & Hrow1 & Hst1 & Hid1). destruct r as [|e]; [done|].
  rewrite exec_call by done. cbn. rewrite Hdone. cbn. split_and!; [done..| |].
  - eexists. split; [by apply set_op_row|]. rewrite String.eqb_refl, Hst1, Hst. by split.
  - rewrite app_nil_r. intros ev Hin. rewrite Forall_forall in Ht. exact (Ht ev Hin).
Qed.

(** The delete of a live machine is lost when the one read of its row fails:
    without the row there is no node, so no agent is asked, the machine is not marked
    DELETED, and yet the operation ends as SUCCEEDED; asking for the same delete
    again is answered with that operation. *)
Theorem delete_lost_on_read_error cfg env op del i db row e o :
  o_Kind op = "delete"%string -> o_DispatchNodeID op = ""%string -> dec_fenced (o_Request op) = Ok del ->
  outcome env i = FailedBefore e -> (forall j, j <> i -> outcome env j = Done) -> (forall j db, others env j db = db) ->
  (forall j m x, answer env _ j (ReleaseAttachments m x) = Ok tt) ->
  (forall l, leases db !! (MachineId del, FExecutionId del) = Some l -> sl_State l <> SecretLeaseUncertain) ->
  operations db !! o_ID op = Some row -> o_Status row = CLAIMED -> o_ID row = o_ID op ->
  let '(db', _, t) := exec env (dispatchOne cfg op) i db in
  machines db' = machines db /\
  (forall ev, ev ∈ t -> match ev with EvDelete _ _ _ | EvDeleted _ => False | _ => True end) /\
  exists row', operations db' !! o_ID op = Some row' /\ o_Status row' = SUCCEEDED /\ ident row' = ident row /\
    forall now machineID executionID generation,
      EnqueueDelete o now (o_ProjectID row) machineID executionID (o_ID op) generation (Some (o_Request row)) db' =
        match o with Done => (db', Ok row') | FailedBefore e | FailedAfter e => (db', Err e) end.
Proof.
  intros Hkind Hnode Hdel Hfail Hdone Halone Hatt Hlease Hrow Hst Hid.
  assert (Hrun : exists now, exec env (dispatchOne cfg op) i db =
    (set_op (fun op => if in_flight (o_Status op) then completed now SUCCEEDED (Some json_empty) "" op else op) (o_ID op) db, tt,
     [EvMachine (MachineId del) (Err e); EvLease (MachineId del) (FExecutionId del) (Operations.SecretLeaseForExecution db (MachineId del) (FExecutionId del));
      EvCompleted (o_ID op) SUCCEEDED])).
  { eexists. unfold dispatchOne, processOperation, by_kind. rewrite Hkind.
    change (String.eqb "delete" "create") with false. change (String.eqb "delete" "delete") with true. cbv iota.
    unfold processDelete. rewrite Hdel, Hnode. cbn. rewrite Halone, Hfail. cbn.
    rewrite Halone, Hdone by lia. cbn.
    assert (Hgo : match Operations.SecretLeaseForExecution db (MachineId del) (FExecutionId del) with
      | Ok l => sl_State l <> SecretLeaseUncertain | Err _ => True end).
    { unfold Operations.SecretLeaseForExecution. destruct (leases db !! _) as [l|] eqn:El; [by apply Hlease|done]. }
    destruct (Operations.SecretLeaseForExecution _ _ _) as [l|err]; cbn; [rewrite (bool_decide_eq_false_2 _ Hgo); cbn|];
      rewrite !Halone; cbn; rewrite Hatt; cbn; rewrite !Halone; cbn; rewrite Hdone by lia; cbn; reflexivity. }
  destruct Hrun as [now ->]. split_and!; [done| |].
  - intros v Hv. which_event Hv; by subst v.
  - eexists. split; [by apply set_op_row|]. rewrite String.eqb_refl, Hst. cbn. split_and!; [done..|].
    intros now' m x g. unfold EnqueueDelete, enqueueDeleteKind, inTx, enqueueOperationIdempotentTx, selectOperationByKey. cbn.
    rewrite lookup_alter_eq, Hrow. cbn. rewrite Hst. cbn. rewrite String.eqb_refl. cbn. rewrite bool_decide_eq_true_2 by done. cbn.
    by destruct o.
Qed.

(** A machine row keeps the ID of its agent, connections are kept under Nomad
    IDs. A delete translates one into the other; a pause or resume does not, so that on
    a node whose agent has an ID of its own they are never sent, and requeued for ever. *)
Theorem lifecycle_misses_agent cfg env op i db m f nomadID row :
  calm env -> (o_Kind op = "pause" \/ o_Kind op = "resume")%string -> dec_fenced (o_Request op) = Ok f ->
  machines db !! o_MachineID op = Some m -> fence m = fence_of op ->
  (forall j n, answer env _ j (Connected n) = String.eqb n nomadID) ->
  (forall j, answer env _ j NodeViews = [(Operations.NodeID (placed m), nomadID)]) ->
  Operations.NodeID (placed m) <> nomadID -> Operations.NodeID (placed m) <> ""%string ->
  operations db !! o_ID op = Some row -> o_Status row = CLAIMED ->
  (let '(db', _, t) := exec env (dispatchOne cfg op) i db in
   t = [EvMachine (o_MachineID op) (Ok (Some m))] /\
   exists row', operations db' !! o_ID op = Some row' /\ o_Status row' = PENDING) /\
  (forall del opd marks, dec_fenced (o_Request opd) = Ok del -> MachineId del = o_MachineID op -> o_DispatchNodeID opd = ""%string ->
   let '(_, _, t) := exec env (processDelete opd marks) i db in exists reply, EvDelete nomadID del reply ∈ t).
Proof.
  intros Hcalm Hkind Hf Hm Hfence Hconn Hviews Hne Hnode Hrow Hst.
  pose proof (calm_done _ Hcalm) as Hdone. pose proof (calm_alone _ Hcalm) as Halone.
  unfold fence, fence_of in Hfence. injection Hfence as He Hg. apply String.eqb_neq in Hne. split.
  - assert (Hexec : exec env (dispatchOne cfg op) i db = exec env (pbind (processLifecycle op) (fun r => match r with
        Err e => RequeueOperation (o_ID op) (text e) ;! Ret tt | Ok _ => Ret tt end)) i db)
      by (unfold dispatchOne, processOperation, by_kind; by destruct Hkind as [-> | ->]).
    rewrite Hexec. unfold processLifecycle. rewrite Hf. cbn. rewrite !Halone, Hdone, Hm. cbn.
    rewrite He, Hg, String.eqb_refl, Z.eqb_refl. cbn. rewrite !Halone, Hconn, Hne. cbn. rewrite !Halone, Hdone. cbn.
    split; [done|]. eexists. split; [by apply set_op_row|]. by rewrite String.eqb_refl, Hst.
  - intros del opd marks Hdel Hid Hno. unfold processDelete. rewrite Hdel. cbn. rewrite !Halone, Hdone, Hid, Hm. cbn.
    rewrite Hno. cbn. rewrite (proj2 (String.eqb_neq _ _) Hnode). cbn. rewrite !Halone, Hviews. unfold nomad_of. cbn.
    rewrite String.eqb_refl. cbn. rewrite !Halone, Hconn, String.eqb_refl. cbn. rewrite !Halone.
    destruct (run _ _ _ _ _) as [[db' r] t]. cbn. eexists. event_in.
Qed.

End dispatch.

(** ** Witnesses *)

Module Witness.
Import Operations.Witness.
Local Open Scope string_scope.

Definition req1 : CreateMachineRequest :=
  mkCreate "m1" (Some (mkMachineSpec "proj" "app" "dep1" "exec-1" "img" 1 512 None [] None)) 1 "op-1" ∅ "".
Definition del1 : Fenced := mkFenced "m1" "exec-1" 1 "op-del".
(** Documents are numbers: 7 a create, 8 a request with a fence. *)
Definition dec1 (n : nat) : res CreateMachineRequest := if Nat.eqb n 7 then Ok req1 else Err (errors_New "proto").
Definition decf1 (n : nat) : res Fenced := if Nat.eqb n 8 then Ok del1 else Err (errors_New "proto").
Definition encf1 (f : Fenced) : res nat := Ok 11%nat.
Definition encm1 (m : AgentMachine) : option nat := Some 12%nat.
Definition hash1 (n : nat) : string := "sha".
Definition text1 (e : goerr) : string := "error".
Definition cfg1 : Config := mkConfig true false 3.

Definition machine1 : AgentMachine := mkAgentMachine "m1" "exec-1" MS_RUNNING (Some "proj") "10.0.0.2" READY 1 None SECRET_DELIVERED 0.

(** Everything works; there is one node, [n1] for its agent and [nomad1] for Nomad. *)
Definition answer1 (B : Type) (_ : nat) (c : eff (json:=nat) B) : B :=
  match c in eff B return B with
  | GetMachine _ => Ok None | GetDeployment _ => Ok None | DeploymentSecretRefs _ => Ok ∅
  | SecretLeaseForExecution _ _ => Err ErrSecretLeaseNotFound | SecretCleanupDischarged _ => Ok true
  | CreateDispatchedToAgent _ _ => Ok true | InsertSecretLease _ _ _ _ _ _ _ => Err ErrSecretLeaseNotFound
  | ClaimSecretLease _ => Ok tt | MarkSecretLeaseDelivered _ => Ok tt | MarkSecretLeaseAcked _ => Ok tt
  | MarkSecretCreateUncertain _ _ _ _ _ => Ok tt | CompleteOperation _ _ _ _ => Ok tt | RequeueOperation _ _ => Ok tt
  | UpdateMachineNodeAndObserved _ _ _ _ _ _ => Ok tt | UpdateMachineObservedWithFenceCAS _ _ _ _ _ _ _ => Ok true
  | MarkMachineDeleted _ => Ok tt | Now => 0%Z
  | ReleaseAttachments _ _ => Ok tt | ReleaseULA _ _ => Ok tt
  | ResolveDeploymentSecretRefs _ _ => Ok {["KEY" := "value"]}
  | Place _ _ _ => Ok (mkChoice "n1" "nomad1")
  | EnsureFabricAllocation _ _ => FabricDone
  | NodeViews => [("n1", "nomad1")]
  | Connected n => String.eqb n "nomad1"
  | Release _ => tt | Commit _ => tt
  | RpcCreate _ _ _ => inl machine1 | RpcDelete _ _ => inl tt | RpcLifecycle _ _ _ => inl machine1
  | RecreateMachine _ _ => tt | Other _ => Ok tt
  end.
Definition env1 : Env (json:=nat) :=
  mkEnv (fun _ => Done) (fun _ => 300%Z) (fun _ => 300%Z) (fun _ => "lease-1") (fun _ db => db) answer1.

Definition opc : Operation (json:=nat) := default op1 (operations db2 !! "op-1").
Definition dispatch1 := dispatchOne dec1 decf1 encf1 encm1 0%nat hash1 text1 cfg1.

(** A whole create with secrets: one is sent. *)
Definition run1 := exec env1 (dispatch1 opc) 0 db2.

Lemma run1_pool :
  rtc (dispatch_step dec1 decf1 encf1 encm1 0%nat hash1 text1) (mkPool db2 [] [])
    (mkPool run1.1.1 [(opc, Ret run1.1.2)] (map (pair opc) run1.2)).
Proof.
  eapply rtc_l; [by apply (pool_start _ _ _ _ opc (dispatch1 opc)); exists cfg1|].
  pose proof (pool_alone (@event nat) (starts dec1 decf1 encf1 encm1 0%nat hash1 text1) acts statement opc
    (fun j B c db => perform env1 j c db) (dispatch1 opc) 0 db2 [] []) as H.
  unfold run1, exec. cbn [others env1]. destruct (run _ _ _ _ _) as [[db' a] t]. apply H.
  intros j B c db. exists env1, j. by destruct (perform env1 j c db).
Qed.

Lemma secrets_sent_once_witness :
  sends ("m1", "exec-1") (map (pair opc) run1.2) = 1%nat /\
  (sends ("m1", "exec-1") (map (pair opc) run1.2) <= 1)%nat.
Proof.
  split; [vm_compute; reflexivity|].
  exact (proj1 (secrets_sent_once dec1 decf1 encf1 encm1 0%nat hash1 text1 db2 _ ("m1", "exec-1") op_keyed2 run1_pool)).
Defined.

Lemma dispatch_releases_witness :
  exists row, operations run1.1.1 !! "op-1" = Some row /\ (o_Status row = PENDING \/ terminal (o_Status row) = true).
Proof.
  pose proof (dispatch_releases dec1 decf1 encf1 encm1 0%nat hash1 text1 cfg1 env1 opc 0 db2) as H.
  change (run1.1.1) with (exec env1 (dispatch1 opc) 0 db2).1.1. unfold dispatch1.
  destruct (exec env1 _ 0 db2) as [[db' a] t]. apply H.
  - apply (bool_decide_unpack _). vm_compute. exact I.
  - done.
  - intros j db row Hrow. exists row. split; [exact Hrow|by left].
  - vm_compute. by eexists.
Defined.

Lemma env1_calm : calm env1.
Proof. by split. Qed.

(** The lease of the create ended before a node had room. *)
Definition lease_expired1 : SecretLease := mkLease "lease-1" "proj" "m1" "exec-1" 1 "op-1" "sha" SecretLeaseExpired 500 100.
Definition db_expired : DB (json:=nat) := with_leases <[("m1", "exec-1") := lease_expired1]> db2.

Lemma db_expired_keyed : keyed db_expired.
Proof.
  split; [apply op_keyed2..|]. intros k l. cbn. destruct (decide (("m1", "exec-1") = k)) as [<-|Hne].
  - rewrite lookup_insert_eq. by intros [= <-].
  - rewrite lookup_insert_ne by done. apply op_keyed2.
Qed.

Lemma spent_lease_starves_witness :
  let '(db', _, t) := exec env1 (dispatch1 opc) 0 db_expired in
  leases db' !! execution_of opc = Some lease_expired1 /\
  (exists row', operations db' !! o_ID opc = Some row' /\ o_Status row' = PENDING) /\ (forall e, e ∈ t -> fruitless_event e).
Proof.
  assert (exists m, machines db_expired !! o_MachineID opc = Some m /\ DesiredState m <> "DELETED" /\ ObservedState (placed m) <> "RUNNING")
    as (m & Hm & Hd & Ho) by (vm_compute; eexists; split; [reflexivity|by split]).
  assert (exists row, operations db_expired !! o_ID opc = Some row /\ o_Status row = CLAIMED) as (row & Hrow & Hst)
    by (vm_compute; eexists; split; reflexivity).
  assert (Hkind : o_Kind opc = "create") by (vm_compute; reflexivity).
  assert (Hreq : dec1 (o_Request opc) = Ok req1) by (vm_compute; reflexivity).
  assert (Hl : leases db_expired !! execution_of opc = Some lease_expired1) by (vm_compute; reflexivity).
  assert (Hover : lease_over hash1 opc lease_expired1) by (split; [vm_compute; reflexivity|apply list_elem_of_here]).
  pose proof (spent_lease_starves dec1 decf1 encf1 encm1 0%nat hash1 text1 cfg1 env1 opc 0 db_expired req1 m lease_expired1 row
    {["KEY" := "value"]} (mkChoice "n1" "nomad1") 11%nat 2 env1_calm db_expired_keyed eq_refl eq_refl eq_refl Hkind Hreq ltac:(done)
    ltac:(done) Hm Hd Ho Hl Hover Hrow Hst ltac:(done) ltac:(done) ltac:(done) ltac:(done)) as H.
  unfold dispatch1. destruct (exec env1 _ 0 db_expired) as [[db' a] t]. destruct H as (_ & Hl' & (row' & Hr & Hs & _) & Ht).
  split; [rewrite Hl'; exact Hl|]. split; [exists row'; split; [exact Hr|exact Hs]|exact Ht].
Defined.

(** Deletes and pauses of the running machine. *)
Definition db_delete := (ClaimPendingOperations Done 600 ∅ 20 (EnqueueDelete Done 550 "proj" "m1" "exec-1" "op-del" 1 (Some 8%nat) db4).1).1.
Definition op_delete : Operation (json:=nat) := default op1 (operations db_delete !! "op-del").
Definition env_blip : Env (json:=nat) :=
  mkEnv (fun j => match j with O => FailedBefore (errors_New "conn busy") | _ => Done end) (fun _ => 700%Z) (fun _ => 700%Z)
    (fun _ => "lease-1") (fun _ db => db) answer1.

Lemma delete_needs_proof_witness :
  let t := (exec env1 (processDelete decf1 0%nat text1 op_delete true) 0 db_delete).2 in
  t = [EvMachine "m1" (Ok (machines db_delete !! "m1")); EvDelete "nomad1" del1 (inl tt); EvDeleted "m1"; EvCompleted "op-del" SUCCEEDED] /\
  delete_proved op_delete del1 t.
Proof.
  pose proof (delete_needs_proof decf1 0%nat text1 env1 op_delete true 0 db_delete del1 eq_refl) as H.
  assert (Ht : (exec env1 (processDelete decf1 0%nat text1 op_delete true) 0 db_delete).2 =
    [EvMachine "m1" (Ok (machines db_delete !! "m1")); EvDelete "nomad1" del1 (inl tt); EvDeleted "m1"; EvCompleted "op-del" SUCCEEDED])
    by (vm_compute; reflexivity).
  destruct (exec _ _ _ _) as [[db' r] t]. cbn in *. split; [exact Ht|]. apply (proj1 H "op-del"). rewrite Ht.
  do 3 apply list_elem_of_further. apply list_elem_of_here.
Defined.

Lemma env_blip_alone j : j <> 0%nat -> outcome env_blip j = Done.
Proof. by destruct j. Qed.

Lemma delete_lost_on_read_error_witness :
  let '(db', _, _) := exec env_blip (dispatch1 op_delete) 0 db_delete in
  machines db' = machines db_delete /\ exists row', operations db' !! o_ID op_delete = Some row' /\ o_Status row' = SUCCEEDED.
Proof.
  assert (exists row, operations db_delete !! o_ID op_delete = Some row /\ o_Status row = CLAIMED /\ o_ID row = o_ID op_delete) as (row & Hrow & Hst & Hid)
    by (vm_compute; eexists; split; [reflexivity|by split]).
  assert (Hkind : o_Kind op_delete = "delete") by (vm_compute; reflexivity).
  assert (Hnode : o_DispatchNodeID op_delete = "") by (vm_compute; reflexivity).
  assert (Hdel : decf1 (o_Request op_delete) = Ok del1) by (vm_compute; reflexivity).
  assert (Hnone : leases db_delete !! (MachineId del1, FExecutionId del1) = None) by (vm_compute; reflexivity).
  pose proof (delete_lost_on_read_error dec1 decf1 encf1 encm1 0%nat hash1 text1 cfg1 env_blip op_delete del1 0 db_delete row (errors_New "conn busy") Done
    Hkind Hnode Hdel eq_refl env_blip_alone ltac:(done) ltac:(done) ltac:(by rewrite Hnone) Hrow Hst Hid) as H.
  unfold dispatch1. destruct (exec env_blip _ 0 db_delete) as [[db' a] t]. destruct H as (Hm & _ & row' & Hr & Hs & _).
  split; [exact Hm|exists row'; split; [exact Hr|exact Hs]].
Defined.

Definition db_pause := (ClaimPendingOperations Done 600 ∅ 20 (EnqueueLifecycle Done 550 "proj" "m1" "exec-1" "op-pause" 1 "pause" (Some 8%nat) db4).1).1.
Definition op_pause : Operation (json:=nat) := default op1 (operations db_pause !! "op-pause").

Lemma lifecycle_misses_agent_witness :
  (exists m, (exec env1 (dispatch1 op_pause) 0 db_pause).2 = [EvMachine (o_MachineID op_pause) (Ok (Some m))]) /\
  (exists reply, EvDelete "nomad1" del1 reply ∈ (exec env1 (processDelete decf1 0%nat text1 op_delete true) 0 db_pause).2).
Proof.
  assert (exists m, machines db_pause !! o_MachineID op_pause = Some m /\ fence m = fence_of op_pause /\ Operations.NodeID (placed m) = "n1") as (m & Hm & Hf & Hn)
    by (vm_compute; eexists; split; [reflexivity|by split]).
  assert (exists row, operations db_pause !! o_ID op_pause = Some row /\ o_Status row = CLAIMED) as (row & Hrow & Hst)
    by (vm_compute; eexists; split; reflexivity).
  assert (Hkind : o_Kind op_pause = "pause") by (vm_compute; reflexivity).
  assert (Hreq : decf1 (o_Request op_pause) = Ok del1) by (vm_compute; reflexivity).
  assert (Hdel : decf1 (o_Request op_delete) = Ok del1) by (vm_compute; reflexivity).
  assert (Hid : MachineId del1 = o_MachineID op_pause) by (vm_compute; reflexivity).
  assert (Hnode : o_DispatchNodeID op_delete = "") by (vm_compute; reflexivity).
  assert (Hviews : forall j, answer env1 _ j NodeViews = [(Operations.NodeID (placed m), "nomad1")]) by (intros j; by rewrite Hn).
  assert (Operations.NodeID (placed m) <> "nomad1" /\ Operations.NodeID (placed m) <> "") as (Hne & Hne') by (rewrite Hn; by split).
  destruct (lifecycle_misses_agent dec1 decf1 encf1 encm1 0%nat hash1 text1 cfg1 env1 op_pause 0 db_pause m del1 "nomad1" row env1_calm
    (or_introl Hkind) Hreq Hm Hf ltac:(done) Hviews Hne Hne' Hrow Hst) as [H1 H2].
  split.
  - exists m. unfold dispatch1. destruct (exec env1 _ 0 db_pause) as [[db' a] t]. exact (proj1 H1).
  - specialize (H2 del1 op_delete true Hdel Hid Hnode). by destruct (exec env1 _ 0 db_pause) as [[db' r] t].
Defined.
End Witness.


