(* ===== verification/Observed.v ===== *)
(** * Observing the agents (controller/observed.go)

    One pass of the controller over what the agents report: it lists every node, writes
    the observed columns, and decides per machine what to delete, create or restart. A
    pass is a program of [Programs] over the tables of [Operations]; [runs] are its traces
    whatever it is answered, [exec] runs it on tables. The decisions are theorems about
    every trace: a delete is always for a copy the node reported, with a reason; a new
    execution only where no usable copy was reported. Metrics, events and logs are left
    out, with the reads only they need. *)
From S2P Require Import Prelude Programs GoString AgentContract Rollouts AppCommand Operations Dispatch.
Local Open Scope Z_scope.
Local Open Scope prog_scope.

(** ** Decisions *)

Record nodeView := mkView { v_agentID : string; v_nomadID : string; v_status : string }.

(** nodemanager statuses are HEALTHY, DRAINING, UNHEALTHY and UNKNOWN: total, unhealthy, draining. *)
Definition nodeGaugeCounts (views : list nodeView) : Z * Z * Z :=
  foldl (fun '(total, unhealthy, draining) v =>
           if String.eqb (v_status v) "HEALTHY" then (total, unhealthy, draining)
           else if String.eqb (v_status v) "DRAINING" then (total, unhealthy, draining + 1)
           else (total, unhealthy + 1, draining)) (Z.of_nat (length views), 0, 0) views.

Definition copyLivenessRank (m : AgentMachine) : Z :=
  match am_State m with
  | MS_RUNNING => 4
  | MS_PAUSED | MS_RESUMING => 3
  | MS_PAUSING | MS_PENDING | MS_INITIALIZING => 2
  | MS_STOPPING | MS_STOPPED => 1
  | _ => 0
  end.

Definition agentStateUsable (m : AgentMachine) : bool :=
  match am_State m with
  | MS_PENDING | MS_INITIALIZING | MS_RUNNING | MS_PAUSING | MS_PAUSED | MS_RESUMING | MS_STOPPING | MS_STOPPED => true
  | _ => false
  end.

Inductive action := actionNone | actionWait | actionRecreate | actionRetryCreate.

Definition recreateAction (lastKind : string) (lastStatus : op_status) (sinceLast grace backoff : Z) : action :=
  if String.eqb lastKind "create" && bool_decide (lastStatus = SUCCEEDED) then
    if sinceLast <? grace then actionWait else actionRecreate
  else if String.eqb lastKind "create" && bool_decide (lastStatus = FAILED) then
    if sinceLast <? backoff then actionWait else actionRetryCreate
  else if (String.eqb lastKind "delete" || String.eqb lastKind "reap") && bool_decide (lastStatus = SUCCEEDED) then actionRecreate
  else actionNone.

Definition restartExitClassAllows (mode : string) (exitCode : option Z) : bool :=
  if String.eqb mode "ALWAYS" then true
  else if String.eqb mode "ON_FAILURE" then match exitCode with Some c => negb (c =? 0) | None => false end
  else false.

(** The configuration a pass reads; durations in nanoseconds. *)
Record Config := mkConfig {
  ReconcileGrace : Z; CreateRetryBase : Z; CreateRetryMax : Z; MaxCreateRetryAttempts : Z;
  NodeLossRecreateAfter : Z; NodeMissingThreshold : Z }.

(** The loop of createRetryDelay, [n] iterations left; d *= 2 wraps. *)
Fixpoint retry_delay_loop (maxDelay d : Z) (n : nat) : Z :=
  match n with
  | O => if maxDelay <? d then maxDelay else d
  | S n => if Z.quot maxDelay 2 <? d then maxDelay else retry_delay_loop maxDelay (i64 (d * 2)) n
  end.

Definition createRetryDelay (cfg : Config) (attempts : Z) : Z :=
  let attempts := if attempts <? 1 then 1 else attempts in
  let base := CreateRetryBase cfg in let maxDelay := CreateRetryMax cfg in
  if (base <=? 0) || (maxDelay <=? 0) then 0
  else retry_delay_loop maxDelay base (Z.to_nat (attempts - 1)).

(** A row of nodes, as far as nodeEvacuating reads it. *)
Record NodeRow := mkNodeRow { n_ID : string; n_NomadNodeID : string; n_Draining : bool; n_Evacuate : bool }.

(** What List answered for one node. *)
Inductive fetched := NoClient | ListFailed (e : goerr) | Listed (machines : list AgentMachine).

(** ** Decisions over copies: the observed copies of one machine, by node *)

Abbreviation Copies := (gmap string AgentMachine).

Definition agent_ids (copies : Copies) : list string := sort_by String.ltb (map fst (map_to_list copies)).

Definition dup_ids (current : string) (copies : Copies) : list string :=
  filter (fun id => match copies !! id with Some cp => String.eqb (am_ExecutionId cp) current | None => false end = true)
    (agent_ids copies).

Definition add_pref (ids pref : list string) (id : string) : list string :=
  if String.eqb id "" || negb (bool_decide (id ∈ ids)) || bool_decide (id ∈ pref) then pref else pref ++ [id].

Definition rank_at (copies : Copies) (id : string) : Z :=
  match copies !! id with Some cp => copyLivenessRank cp | None => 0 end.

(** The first of the best, in order of preference. *)
Definition better (copies : Copies) (kept : string * Z) (id : string) : string * Z :=
  let r := rank_at copies id in if kept.2 <? r then (id, r) else kept.
Definition survivor_of (copies : Copies) (first : string) (rest : list string) : string :=
  (foldl (better copies) (first, rank_at copies first) rest).1.

(** ** Programs *)

Section observed.
Context {json : Type} `{EqDecision json} (codec : Codec json).

(** A create request on the wire. *)
Record CreateMessage := mkCreateMessage {
  msg_MachineId : string; msg_Generation : Z; msg_OperationId : string; msg_Spec : CreateSpec; msg_DiskMib : Z }.

(** protojson, the text {}, and time.Format("0601021504"). *)
Context (enc_fenced : Fenced -> res json) (enc_create : CreateMessage -> res json)
        (empty_object : json -> bool) (minute : Z -> string).

Abbreviation DB := (Operations.DB (json:=json)).
Abbreviation Operation := (Operations.Operation (json:=json)).
Abbreviation Machine := (Operations.Machine (json:=json)).
Abbreviation Dep := (AppCommand.Dep (json:=json)).
Abbreviation CreateMachineParams := (Operations.CreateMachineParams (json:=json)).

Definition m_id (m : Machine) : string := m_ID (shape m).
Definition node_of (m : Machine) : string := Operations.NodeID (placed m).

(** One statement or call. *)
Inductive eff : Type -> Type :=
  | GetMachine (id : string) : eff (res (option Machine))
  | ListMachines : eff (res (list Machine))
  | ListMachinesOnNode (nodeID : string) : eff (res (list Machine))
  | ListExpiredMachines (now : Z) : eff (res (list Machine))
  | ExpiredRouteDetached (id executionID : string) : eff (res bool)
  | HasPendingOperationForMachine (id : string) : eff (res bool)
  | PendingOperationForMachine (id : string) : eff (res (option Operation))
  | GetLatestOperationForMachine (id : string) : eff (res (option Operation))
  | FailedCreateAttempts (id : string) : eff (res Z)
  | LatestCreateDispatchNode (machineID executionID : string) : eff (res string)
  | SecretLeaseForExecution (machineID executionID : string) : eff (res SecretLease)
  | ProjectForApp (appID : string) : eff (res string)
  | GetDeployment (id : string) : eff (res (option Dep))
  | RestartAttemptNumber (id failedExecution : string) (generation : Z) : eff (res Z)
  | EnqueueReapDelete (projectID machineID executionID operationID : string) (generation : Z) (request : json) : eff (res Operation)
  | EnqueueDelete (projectID machineID executionID operationID : string) (generation : Z) (request : json) : eff (res Operation)
  | EnsureAppAndEnqueueCreate (p : CreateMachineParams) : eff (res Operation)
  | EnqueueRestartCAS (projectID machineID failedExecution newExecution operationID : string) (expectedGeneration : Z)
      (request : json) (nextAt : Z) : eff (res Operation)
  | UpdateOperationDispatchNode (opID nodeID : string) : eff (res unit)
  | CompleteOperation (opID : string) (status : op_status) (err : string) : eff (res unit)
  | UpdateMachineObserved (id executionID state slotIP readiness : string) : eff (res unit)
  | MarkMachineObservedMissing (id : string) : eff (res unit)
  | MarkMachineDeleted (id : string) : eff (res unit)
  | MarkExpiredRouteDetached (id : string) : eff (res unit)
  | MarkSecretLeaseAcked (l : SecretLease) : eff (res unit)
  | SetRestartStableSince (id : string) (t : option Z) : eff (res unit)
  | ResetRestartAttempts (id : string) : eff (res unit)
  | BlockRestart (id : string) (blocked : bool) : eff (res unit)
  | PrepareRestartBackoff (id failedExecution : string) (generation nextAt : Z) : eff (res bool)
  (* outside these tables *)
  | ListAgent (v : nodeView) : eff fetched
  | NodeViews : eff (list nodeView)
  | ListNodes : eff (res (list NodeRow))
  | ActiveRolloutForApp (appID : string) : eff (res (option Rollout))
  | MachineHasLocalRWAttachment (id : string) : eff (res bool)
  | RecordEgressAudit (m : Machine) (am : AgentMachine) : eff (res unit)
  | Release (opID : string) : eff unit
  | BuildRoutes : eff (res unit)
  | Now : eff Z
  | NewUUID : eff string.

Local Abbreviation prog := (Programs.prog eff).

(** ** Deletes *)

(** A terminal operation under the same key is re-armed under a key of the minute. *)
Definition reap_at (project : prog string) (machineID executionID : string) (generation : Z) (opID nodeID : string) : prog (res unit) :=
  let pin (op : Operation) : prog (res unit) :=
    if String.eqb nodeID "" then Ret (Ok tt) else UpdateOperationDispatchNode (o_ID op) nodeID ;! Ret (Ok tt) in
  match enc_fenced (mkFenced machineID executionID (u64 generation) opID) with
  | Err e => Ret (Err e)
  | Ok raw =>
      project <~! project ;
      op <-! EnqueueReapDelete project machineID executionID opID generation raw ;
      match op with
      | Err e => Ret (Err e)
      | Ok op =>
          if in_flight (o_Status op) then pin op
          else
            now <-! Now ;
            let opID := (opID +:+ "-re" +:+ minute now)%string in
            match enc_fenced (mkFenced machineID executionID (u64 generation) opID) with
            | Err e => Ret (Err e)
            | Ok raw2 =>
                op <-! EnqueueReapDelete project machineID executionID opID generation raw2 ;
                match op with
                | Err e => Ret (Err e)
                | Ok op => pin op
                end
            end
      end
  end.

Definition enqueueOrphanDelete (project : string) (m : AgentMachine) (nodeID : string) (genFallback : Z) : prog unit :=
  let gen := am_Generation m in
  let gen := if gen =? 0 then u64 genFallback else gen in
  let gen := if gen =? 0 then 1 else gen in
  _ <~! reap_at (Ret project) (am_MachineId m) (am_ExecutionId m) (i64 gen)
          ("op-orphan-" +:+ am_MachineId m +:+ "-" +:+ am_ExecutionId m +:+ "-" +:+ nodeID) nodeID ;
  Ret tt.

Definition machine_project (machineID : string) : prog string :=
  pg <-! GetMachine machineID ;
  match pg with
  | Ok (Some pg) =>
      p <-! ProjectForApp (m_AppID (shape pg)) ;
      Ret (match p with Ok p => if String.eqb p "" then "dev" else p | Err _ => "dev" end)
  | _ => Ret "dev"
  end.

Definition enqueueDelete (machineID executionID : string) (generation : Z) (opID nodeID : string) : prog (res unit) :=
  reap_at (machine_project machineID) machineID executionID generation opID nodeID.

(** ** What an agent reports *)

Definition project_of_spec (m : AgentMachine) : string :=
  match am_ProjectId m with Some p => if String.eqb p "" then "dev" else p | None => "dev" end.

(** The stable window of restarts. *)
Definition watch_stability (m : AgentMachine) (pg : Machine) : prog unit :=
  let r := restart pg in
  if (0 <? RestartAttempts r) && bool_decide (am_Readiness m ∈ [READY; UNCONFIGURED]) then
    now <-! Now ;
    match RestartStableSince r with
    | None => SetRestartStableSince (am_MachineId m) (Some now) ;! Ret tt
    | Some since =>
        let window := seconds (RestartStableWindowSeconds r) in
        if (0 <? window) && (window <=? now - since) then ResetRestartAttempts (am_MachineId m) ;! Ret tt else Ret tt
    end
  else if (0 <? RestartAttempts r) && bool_decide (is_Some (RestartStableSince r)) && negb (bool_decide (am_State m = MS_PAUSED))
  then SetRestartStableSince (am_MachineId m) None ;! Ret tt
  else Ret tt.

Definition acknowledge_secret (m : AgentMachine) : prog unit :=
  if bool_decide (am_SecretDeliveryState m = SECRET_ACKED) then
    lease <-! SecretLeaseForExecution (am_MachineId m) (am_ExecutionId m) ;
    match lease with
    | Ok l => if bool_decide (sl_State l = SecretLeaseAcked) then Ret tt else MarkSecretLeaseAcked l ;! Ret tt
    | Err _ => Ret tt
    end
  else Ret tt.

(** R1: the copy is the current execution. *)
Definition observe_current (m : AgentMachine) (pg : Machine) : prog unit :=
  UpdateMachineObserved (am_MachineId m) (am_ExecutionId m) (state_String (am_State m)) (am_SlotIp m)
    (readiness_String (am_Readiness m)) ;!
  _ <~! (if 0 <? am_EgressGeneration m then RecordEgressAudit pg m ;! Ret tt else Ret tt) ;
  _ <~! acknowledge_secret m ;
  watch_stability m pg.

Definition processAgentMachine (m : AgentMachine) (v : nodeView) : prog unit :=
  row <-! GetMachine (am_MachineId m) ;
  match row with
  | Ok (Some pg) =>
      if negb (String.eqb (CurrentExecutionID pg) (am_ExecutionId m))
      then enqueueOrphanDelete (project_of_spec m) m (v_agentID v) (m_Generation pg)
      else observe_current m pg
  | _ =>
      pending <-! HasPendingOperationForMachine (am_MachineId m) ;
      match pending with
      | Ok false => enqueueOrphanDelete (project_of_spec m) m (v_agentID v) 1
      | _ => Ret tt
      end
  end.

(** ** Who owns the lifecycle *)

Definition rolloutHoldsRecreate (m : Machine) : prog bool :=
  if String.eqb (m_DeploymentID (shape m)) "" then Ret false
  else
    rl <-! ActiveRolloutForApp (m_AppID (shape m)) ;
    match rl with
    | Err _ => Ret true
    | Ok None => Ret false
    | Ok (Some rl) =>
        dep <-! GetDeployment (m_DeploymentID (shape m)) ;
        Ret (match dep with
             | Ok (Some dep) => rolloutHoldDecision (Status rl) (dp_Generation dep) (FromGeneration rl) (ToGeneration rl)
             | _ => true
             end)
    end.

Definition rolloutRepairsMachine (m : Machine) : prog bool :=
  rl <-! ActiveRolloutForApp (m_AppID (shape m)) ;
  match rl with
  | Ok (Some rl) =>
      dep <-! GetDeployment (m_DeploymentID (shape m)) ;
      Ret (match dep with
           | Ok (Some dep) => rolloutOwnsReplacement (Status rl) (dp_Generation dep) (FromGeneration rl) (ToGeneration rl)
           | _ => false
           end)
  | _ => Ret false
  end.

Definition nodeEvacuating (nodeID : string) : prog bool :=
  if String.eqb nodeID "" then Ret false
  else
    nodes <-! ListNodes ;
    Ret (match nodes with
         | Err _ => true
         | Ok nodes => existsb (fun n => (String.eqb (n_ID n) nodeID || String.eqb (n_NomadNodeID n) nodeID) &&
                                         n_Draining n && n_Evacuate n) nodes
         end).

Definition viewForAgent (agentID : string) : prog (option nodeView) :=
  views <-! NodeViews ;
  Ret (List.find (fun v => String.eqb (v_agentID v) agentID) views).

(** ** Creating again *)

(** The stored placement: absent, null and {} are none, and so is what does not decode. *)
Definition stored_placement (m : Machine) : option PlacementConstraints :=
  if empty_object (m_Placement m) then None else decoded codec (dec_placement codec) (Some (m_Placement m)).

(** The spec both paths build from the row; [extras] is what the deployment adds. *)
Definition row_spec (m : Machine) (project executionID : string) (services : list Service) (ingress : Z)
    (auto : option AutoStandby) (health : option HealthCheckSpec) (egress : option EgressPolicySpec) : CreateSpec :=
  mkCreateSpec
    (mkMachineSpec project (m_AppID (shape m)) (m_DeploymentID (shape m)) executionID (m_ImageRef (shape m))
       (u64 (RequestedVCPU (shape m))) (u64 (RequestedMemMIB (shape m)))
       (option_map (fun p => mkAutoStandby (as_Enabled p) (as_IdleTimeoutSeconds p)) auto)
       (map (fun s => mkService (sv_Name s) (sv_InternalPort s)) services) (Some (mkNetwork ingress egress None)))
    (uint32 (ReplicaOrdinal m)) (m_Hostname (shape m)) (Some (m_Env (shape m))) services (stored_placement m) health auto.

Definition recreate_spec (m : Machine) (dep : res (option Dep)) (project executionID : string) : CreateSpec :=
  match dep with
  | Ok (Some dep) =>
      let '(services, ingress) := spec_extras dep (u64 (IngressPort m)) in
      row_spec m project executionID services ingress (decoded codec (dec_standby codec) (dp_AutoStandby dep))
        (decoded codec (dec_health codec) (dp_HealthCheck dep)) (decoded codec (dec_egress codec) (dp_EgressPolicy dep))
  | _ => row_spec m project executionID [] (u64 (IngressPort m)) None None None
  end.

Definition restart_spec (m : Machine) (dep : Dep) (project executionID : string) : CreateSpec :=
  let '(services, ingress) := spec_extras dep (u64 (IngressPort m)) in
  row_spec m project executionID services ingress (decoded codec (dec_standby codec) (dp_AutoStandby dep)) None None.

(** The parameters of the first create (enqueueAppMachineCreate). *)
Definition app_create_params (app : App) (dep : Dep) (ordinal : Z) (machineID executionID opID : string) (raw placement : json) :
    CreateMachineParams :=
  mkCreateParams (a_ProjectID app) (a_ID app) (a_Hostname app) (dp_ImageRef dep) (dp_VCPU dep) (dp_MemMIB dep)
    (EffectiveDiskMib 0) (dp_Port dep) machineID (dp_ID dep) executionID opID (dp_Generation dep) ordinal (Some raw) placement
    None "" 0 0 0.

Definition recreate_params (m : Machine) (project executionID opID : string) (gen : Z) (raw : json) : CreateMachineParams :=
  mkCreateParams project (m_AppID (shape m)) (m_Hostname (shape m)) (m_ImageRef (shape m)) (RequestedVCPU (shape m))
    (RequestedMemMIB (shape m)) (EffectiveDiskMib 0) (IngressPort m) (m_id m) (m_DeploymentID (shape m)) executionID opID
    gen (ReplicaOrdinal m) (Some raw) (m_Placement m) None "" 0 0 0.

Definition enqueue_recreate (m : Machine) (executionID opID : string) (gen : Z) : prog unit :=
  dep <-! GetDeployment (m_DeploymentID (shape m)) ;
  project <-! ProjectForApp (m_AppID (shape m)) ;
  let project := match project with Ok p => if String.eqb p "" then "dev" else p | Err _ => "dev" end in
  match enc_create (mkCreateMessage (m_id m) (u64 gen) opID (recreate_spec m dep project executionID) 0) with
  | Err _ => Ret tt
  | Ok raw => EnsureAppAndEnqueueCreate (recreate_params m project executionID opID gen raw) ;! Ret tt
  end.

Definition no_local_volume (m : Machine) (continue : prog unit) : prog unit :=
  attached <-! MachineHasLocalRWAttachment (m_id m) ;
  match attached with
  | Ok false => continue
  | _ => Ret tt
  end.

Definition recreate_new (m : Machine) : prog unit :=
  id <-! NewUUID ;
  enqueue_recreate m ("exec-" +:+ id) ("op-exec-" +:+ id) (m_Generation m + 1).

Definition recreate_same (m : Machine) : prog unit :=
  attempts <-! FailedCreateAttempts (m_id m) ;
  match attempts with
  | Err _ => Ret tt
  | Ok n =>
      id <-! NewUUID ;
      enqueue_recreate m (CurrentExecutionID m)
        ("op-retry-" +:+ CurrentExecutionID m +:+ "-" +:+ itoa (n + 1) +:+ "-" +:+ stake 8 id) (m_Generation m)
  end.

(** A lease at its end cannot be issued again for the same execution. *)
Definition lease_spent (m : Machine) : prog bool :=
  lease <-! SecretLeaseForExecution (m_id m) (CurrentExecutionID m) ;
  Ret (match lease with
       | Ok l => bool_decide (sl_State l ∈ [SecretLeaseExpired; SecretLeaseRevoked; SecretLeaseAcked])
       | Err _ => false
       end).

Definition recreateMachine (m : Machine) (bump : bool) : prog unit :=
  no_local_volume m
    (if bump then recreate_new m
     else if String.eqb (CurrentExecutionID m) "" then no_local_volume m (recreate_new m)
     else
       spent <~! lease_spent m ;
       if spent : bool then recreate_new m else recreate_same m).

(** ** Restarts *)

Definition restartMachine (m : Machine) : prog unit :=
  id <-! NewUUID ;
  failedExecution <~! (if String.eqb (CurrentExecutionID m) "" then id <-! NewUUID ; Ret ("missing-" +:+ id)%string
                       else Ret (CurrentExecutionID m)) ;
  attempt <-! RestartAttemptNumber (m_id m) (CurrentExecutionID m) (m_Generation m) ;
  match attempt with
  | Err _ => Ret tt
  | Ok attempt =>
      let exec := ("exec-" +:+ id)%string in
      let opID := ("op-restart-" +:+ m_id m +:+ "-" +:+ failedExecution +:+ "-" +:+ itoa attempt)%string in
      dep <-! GetDeployment (m_DeploymentID (shape m)) ;
      match dep with
      | Ok (Some dep) =>
          project <-! ProjectForApp (m_AppID (shape m)) ;
          match project with
          | Ok project =>
              if String.eqb project "" then Ret tt
              else
                match enc_create (mkCreateMessage (m_id m) (u64 (m_Generation m + 1)) opID (restart_spec m dep project exec)
                                    (u64 (RequestedDiskMIB (shape m)))) with
                | Err _ => Ret tt
                | Ok raw =>
                    now <-! Now ;
                    EnqueueRestartCAS project (m_id m) (CurrentExecutionID m) exec opID (m_Generation m) raw
                      (now + seconds (RestartBackoffSeconds (restart m))) ;! Ret tt
                end
          | Err _ => Ret tt
          end
      | _ => Ret tt
      end
  end.

(** After the owners have let go: the backoff, then the attempts, then the restart. *)
Definition restart_when_due (m : Machine) : prog bool :=
  let r := restart m in
  let backoff := seconds (RestartBackoffSeconds r) in
  let backoff := if backoff <=? 0 then seconds 10 else backoff in
  now <-! Now ;
  prepared <-! PrepareRestartBackoff (m_id m) (CurrentExecutionID m) (m_Generation m) (now + backoff) ;
  match prepared with
  | Ok false =>
      match RestartNextAttemptAt r with
      | None => Ret true
      | Some next =>
          now <-! Now ;
          if now <? next then Ret true
          else if RestartMaxAttempts r <=? RestartAttempts r then BlockRestart (m_id m) true ;! Ret false
          else _ <~! restartMachine m ; Ret true
      end
  | _ => Ret true
  end.

Definition maybeRestartMachine (m : Machine) (agent : AgentMachine) : prog bool :=
  let r := restart m in
  if negb (String.eqb (RestartMode r) "ON_FAILURE") && negb (String.eqb (RestartMode r) "ALWAYS") then Ret false
  else if RestartBlocked r then Ret false
  else
    held <~! rolloutHoldsRecreate m ;
    if held : bool then Ret false
    else
      evacuating <~! nodeEvacuating (node_of m) ;
      if evacuating : bool then Ret false
      else if negb (restartExitClassAllows (RestartMode r) (am_ExitCode agent)) then Ret false
      else restart_when_due m.

(** ** What the tables say of a machine *)

(** The copy of the current execution: the one at home, or else the first. *)
Definition live_step (m : Machine) (copies : Copies) (live : option (string * AgentMachine)) (id : string) : option (string * AgentMachine) :=
  match copies !! id with
  | Some cp => if String.eqb (am_ExecutionId cp) (CurrentExecutionID m) && (bool_decide (live = None) || String.eqb id (node_of m))
               then Some (id, cp) else live
  | None => live
  end.
Definition live_copy (m : Machine) (copies : Copies) : option (string * AgentMachine) :=
  foldl (live_step m copies) None (agent_ids copies).

Definition foreign_usable (m : Machine) (cp : AgentMachine) : bool :=
  negb (String.eqb (am_ExecutionId cp) (CurrentExecutionID m)) && agentStateUsable cp.
Definition foreignCount (m : Machine) (copies : Copies) : nat :=
  length (filter (fun id => match copies !! id with Some cp => foreign_usable m cp | None => false end = true) (agent_ids copies)).

Definition has_pending (id : string) (continue : prog unit) : prog unit :=
  pending <-! HasPendingOperationForMachine id ;
  match pending with
  | Ok false => continue
  | _ => Ret tt
  end.

(** R2.5: one of several copies of the current execution goes; true when it was enqueued. *)
Definition reapDuplicateLiveCopy (m : Machine) (copies : Copies) : prog bool :=
  let ids := dup_ids (CurrentExecutionID m) copies in
  if String.eqb (CurrentExecutionID m) "" || Nat.ltb (length ids) 2 then Ret false
  else
    dispatchNode <-! LatestCreateDispatchNode (m_id m) (CurrentExecutionID m) ;
    let pref := match dispatchNode with Ok node => add_pref ids [] node | Err _ => [] end in
    match foldl (add_pref ids) pref (node_of m :: ids) with
    | [] => Ret false
    | first :: rest =>
        let survivor := survivor_of copies first rest in
        pending <-! HasPendingOperationForMachine (m_id m) ;
        match pending with
        | Ok false =>
            match List.find (fun id => negb (String.eqb id survivor)) ids with
            | Some id =>
                _ <~! enqueueDelete (m_id m) (CurrentExecutionID m) (m_Generation m)
                        ("op-dup-" +:+ m_id m +:+ "-" +:+ CurrentExecutionID m +:+ "-" +:+ id) id ;
                Ret true
            | None => Ret false
            end
        | _ => Ret false
        end
    end.

(** R5: the row is deleted, copies are left. *)
Definition reap_deleted (m : Machine) (copies : Copies) : prog unit :=
  match live_copy m copies with
  | Some (liveNodeID, _) =>
      _ <~! enqueueDelete (m_id m) (CurrentExecutionID m) (m_Generation m)
              ("op-reap-" +:+ m_id m +:+ "-" +:+ CurrentExecutionID m) liveNodeID ;
      Ret tt
  | None =>
      match List.find (fun id => match copies !! id with
                                 | Some cp => negb (String.eqb (am_ExecutionId cp) (CurrentExecutionID m))
                                 | None => false end) (agent_ids copies) with
      | Some id =>
          match copies !! id with
          | Some cp =>
              let gen := i64 (am_Generation cp) in
              let gen := if gen =? 0 then m_Generation m else gen in
              let gen := if gen =? 0 then 1 else gen in
              _ <~! enqueueDelete (m_id m) (am_ExecutionId cp) gen
                      ("op-orphan-" +:+ m_id m +:+ "-" +:+ am_ExecutionId cp +:+ "-" +:+ id) id ;
              Ret tt
          | None => Ret tt
          end
      | None => Ret tt
      end
  end.

(** An operation in flight stays, except a create, which is given up first. *)
Definition supersede_create (m : Machine) (reason : string) (continue : prog unit) : prog unit :=
  pending <-! PendingOperationForMachine (m_id m) ;
  match pending with
  | Err _ => Ret tt
  | Ok (Some op) =>
      if negb (String.eqb (o_Kind op) "create") then Ret tt
      else CompleteOperation (o_ID op) FAILED reason ;! Release (o_ID op) ;! Ret tt
  | Ok None => continue
  end.

(** R2: the home node holds another execution. *)
Definition supersedePendingCreateAndReap (m : Machine) (agent : AgentMachine) (nodeID : string) : prog unit :=
  supersede_create m "superseded: agent holds stale execution, reap first"
    (_ <~! enqueueDelete (m_id m) (am_ExecutionId agent) (m_Generation m)
             ("op-orphan-" +:+ m_id m +:+ "-" +:+ am_ExecutionId agent +:+ "-" +:+ nodeID) nodeID ;
     Ret tt).

(** The copy of the current execution is neither running nor on its way. *)
Definition reap_dead (m : Machine) (liveNodeID : string) : prog unit :=
  supersede_create m "superseded: dead instance of current execution, reap first"
    (_ <~! enqueueDelete (m_id m) (CurrentExecutionID m) (m_Generation m)
             ("op-reap-" +:+ m_id m +:+ "-" +:+ CurrentExecutionID m) liveNodeID ;
     Ret tt).

(** The copy of the current execution is there; only a stopped one needs a decision. *)
Definition stopped_copy (m : Machine) (liveNodeID : string) (live : AgentMachine) : prog unit :=
  if bool_decide (am_State live = MS_STOPPED) then
    repairs <~! rolloutRepairsMachine m ;
    if repairs : bool then
      has_pending (m_id m)
        (_ <~! enqueueDelete (m_id m) (CurrentExecutionID m) (m_Generation m)
                 ("op-rollout-reap-" +:+ m_id m +:+ "-" +:+ CurrentExecutionID m) liveNodeID ;
         Ret tt)
    else
      held <~! rolloutHoldsRecreate m ;
      if held : bool then Ret tt
      else _ <~! maybeRestartMachine m live ; Ret tt
  else Ret tt.

(** R4: the node is not healthy. *)
Definition node_lost (cfg : Config) (m : Machine) : prog unit :=
  MarkMachineObservedMissing (m_id m) ;!
  volume <-! MachineHasLocalRWAttachment (m_id m) ;
  match volume with
  | Ok false =>
      match LastObservedAt (placed m) with
      | None => Ret tt
      | Some last =>
          now <-! Now ;
          if NodeLossRecreateAfter cfg <=? now - last then
            has_pending (m_id m)
              (held <~! rolloutHoldsRecreate m ;
               if held : bool then Ret tt else recreateMachine m true)
          else Ret tt
      end
  | _ => Ret tt
  end.

(** R3: after the last operation. *)
Definition after_last (cfg : Config) (m : Machine) (last : Operation) : prog unit :=
  let failed_create := String.eqb (o_Kind last) "create" && bool_decide (o_Status last = FAILED) in
  attempts <~! (if failed_create then
                  n <-! FailedCreateAttempts (m_id m) ;
                  Ret (match n with Ok n => n | Err _ => 0 end)
                else Ret 0) ;
  if failed_create && (MaxCreateRetryAttempts cfg <=? attempts) then Ret tt
  else
    now <-! Now ;
    match recreateAction (o_Kind last) (o_Status last) (now - o_UpdatedAt last) (ReconcileGrace cfg) (createRetryDelay cfg attempts) with
    | actionRecreate => recreateMachine m true
    | actionRetryCreate =>
        lease <-! SecretLeaseForExecution (m_id m) (CurrentExecutionID m) ;
        recreateMachine m (is_ok lease)
    | _ => Ret tt
    end.

Definition missing_everywhere (cfg : Config) (m : Machine) : prog unit :=
  has_pending (m_id m)
    (repairs <~! rolloutRepairsMachine m ;
     if repairs : bool then recreateMachine m true
     else
       held <~! rolloutHoldsRecreate m ;
       if held : bool then Ret tt
       else
         last <-! GetLatestOperationForMachine (m_id m) ;
         match last with
         | Ok (Some last) => after_last cfg m last
         | _ => Ret tt
         end).

(** No copy of the current execution anywhere. *)
Definition no_live_copy (cfg : Config) (m : Machine) : prog unit :=
  if String.eqb (node_of m) "" then missing_everywhere cfg m
  else
    v <~! viewForAgent (node_of m) ;
    match (v : option nodeView) with
    | Some v => if String.eqb (v_status v) "HEALTHY" then missing_everywhere cfg m else node_lost cfg m
    | None => node_lost cfg m
    end.

Definition home_stale (m : Machine) (copies : Copies) : option AgentMachine :=
  match copies !! node_of m with
  | Some home => if String.eqb (am_ExecutionId home) (CurrentExecutionID m) then None else Some home
  | None => None
  end.

Definition processPGMachine (cfg : Config) (m : Machine) (copies : Copies) : prog unit :=
  if String.eqb (DesiredState m) "DELETED" then
    if bool_decide (copies = ∅) then Ret tt else has_pending (m_id m) (reap_deleted m copies)
  else if negb (String.eqb (DesiredState m) "CREATED") && negb (String.eqb (DesiredState m) "RUNNING") then Ret tt
  else
    match home_stale m copies with
    | Some home => supersedePendingCreateAndReap m home (node_of m)
    | None =>
        reaped <~! reapDuplicateLiveCopy m copies ;
        if reaped : bool then Ret tt
        else
          match live_copy m copies with
          | None => if Nat.ltb 0 (foreignCount m copies) then Ret tt else no_live_copy cfg m
          | Some (liveNodeID, live) =>
              if negb (agentStateUsable live) then reap_dead m liveNodeID else stopped_copy m liveNodeID live
          end
    end.

(** ** Expiry *)

Definition ttl_delete (m : Machine) : prog unit :=
  let exec := if String.eqb (CurrentExecutionID m) "" then "exec-none"%string else CurrentExecutionID m in
  let opID := ("op-ttl-" +:+ m_id m +:+ "-" +:+ exec)%string in
  match enc_fenced (mkFenced (m_id m) exec (u64 (m_Generation m)) opID) with
  | Err _ => Ret tt
  | Ok raw =>
      p <-! ProjectForApp (m_AppID (shape m)) ;
      let project := match p with Ok p => if String.eqb p "" then "dev"%string else p | Err _ => "dev"%string end in
      op <-! EnqueueDelete project (m_id m) exec opID (m_Generation m) raw ;
      match op with
      | Err _ => Ret tt
      | Ok op => if String.eqb (node_of m) "" then Ret tt else UpdateOperationDispatchNode (o_ID op) (node_of m) ;! Ret tt
      end
  end.

(** First the route, in a later pass the machine. *)
Definition expire_machine (m : Machine) : prog unit :=
  if String.eqb (DesiredState m) "DELETED" then Ret tt
  else
    detached <-! ExpiredRouteDetached (m_id m) (CurrentExecutionID m) ;
    match detached with
    | Err _ => Ret tt
    | Ok false => MarkExpiredRouteDetached (m_id m) ;! Ret tt
    | Ok true =>
        r <-! MarkMachineDeleted (m_id m) ;
        match r with
        | Err _ => Ret tt
        | Ok _ => ttl_delete m
        end
    end.

Fixpoint each {A} (f : A -> prog unit) (l : list A) : prog unit :=
  match l with
  | [] => Ret tt
  | x :: l => _ <~! f x ; each f l
  end.

Definition expireMachines : prog (res unit) :=
  now <-! Now ;
  expired <-! ListExpiredMachines now ;
  match expired with
  | Err e => Ret (Err e)
  | Ok expired => _ <~! each expire_machine expired ; Ret (Ok tt)
  end.

(** ** A pass *)

(** One List per node, at most nodeObservedListParallel at once; the outcomes come back in
    the order of the views, and only they decide. *)
Fixpoint fetchNodeObservations (views : list nodeView) : prog (list (nodeView * fetched)) :=
  match views with
  | [] => Ret []
  | v :: views =>
      o <-! ListAgent v ;
      os <~! fetchNodeObservations views ;
      Ret ((v, o) :: os)
  end.

Abbreviation AllCopies := (gmap string Copies).

Definition add_copy (node : string) (copies : AllCopies) (m : AgentMachine) : AllCopies :=
  <[am_MachineId m := <[node := m]> (default ∅ (copies !! am_MachineId m))]> copies.

Definition mark_node_missing (nodeID : string) : prog unit :=
  rows <-! ListMachinesOnNode nodeID ;
  match rows with
  | Err _ => Ret tt
  | Ok rows => each (fun m => MarkMachineObservedMissing (m_id m) ;! Ret tt) rows
  end.

(** The failures in a row of every node. *)
Abbreviation Failures := (gmap string nat).
Definition failed_again (node : string) (failures : Failures) : Failures := <[node := S (default O (failures !! node))]> failures.

Fixpoint merge_outcomes (cfg : Config) (failures : Failures) (copies : AllCopies) (outcomes : list (nodeView * fetched)) :
    prog (Failures * AllCopies) :=
  match outcomes with
  | [] => Ret (failures, copies)
  | (v, NoClient) :: rest => merge_outcomes cfg (failed_again (v_agentID v) failures) copies rest
  | (v, ListFailed _) :: rest =>
      let failures := failed_again (v_agentID v) failures in
      _ <~! (if Z.of_nat (default O (failures !! v_agentID v)) <? NodeMissingThreshold cfg then Ret tt else mark_node_missing (v_agentID v)) ;
      merge_outcomes cfg failures copies rest
  | (v, Listed machines) :: rest =>
      _ <~! each (fun m => processAgentMachine m v) machines ;
      merge_outcomes cfg (delete (v_agentID v) failures) (foldl (add_copy (v_agentID v)) copies machines) rest
  end.

Definition syncObserved (cfg : Config) (failures : Failures) : prog (Failures * res unit) :=
  _ <~! expireMachines ;
  views <-! NodeViews ;
  outcomes <~! fetchNodeObservations views ;
  seen <~! merge_outcomes cfg failures ∅ outcomes ;
  rows <-! ListMachines ;
  match rows with
  | Err e => Ret (seen.1, Err e)
  | Ok rows =>
      _ <~! each (fun m => processPGMachine cfg m (default ∅ (seen.2 !! m_id m))) rows ;
      r <-! BuildRoutes ;
      Ret (seen.1, r)
  end.

Definition observedStateCounts (machines : list Machine) : gmap string Z :=
  foldl (fun byState m => if String.eqb (DesiredState m) "DELETED" then byState
                          else <[ObservedState (placed m) := default 0 (byState !! ObservedState (placed m)) + 1]> byState) ∅ machines.

(** ** Runs *)

(** What a pass does, and the answers it decides by. *)
Inductive ev :=
  | EvRow (id : string) (r : res (option Machine))
  | EvRows (rows : list Machine)
  | EvNodeRows (nodeID : string) (rows : list Machine)
  | EvExpired (rows : list Machine)
  | EvDetached (id executionID : string) (b : res bool)
  | EvPending (id : string) (b : res bool)
  | EvInFlight (id : string) (op : res (option Operation))
  | EvVolume (id : string) (b : res bool)
  | EvViews (views : list nodeView)
  | EvListed (nodeID : string) (o : fetched)
  | EvReap (machineID executionID opID : string) (generation : Z) (op : res Operation)
  | EvDelete (machineID executionID opID : string) (generation : Z) (op : res Operation)
  | EvCreate (p : CreateMachineParams)
  | EvRestart (machineID failedExecution newExecution opID : string) (expectedGeneration : Z)
  | EvPinned (opID nodeID : string)
  | EvCompleted (opID : string) (status : op_status)
  | EvMissing (id : string)
  | EvDeleted (id : string) (r : res unit).

Definition event {B} (c : eff B) : B -> list ev :=
  match c in eff B return B -> list ev with
  | GetMachine id => fun r => [EvRow id r]
  | ListMachines => fun r => match r with Ok rows => [EvRows rows] | Err _ => [] end
  | ListMachinesOnNode n => fun r => match r with Ok rows => [EvNodeRows n rows] | Err _ => [] end
  | ListExpiredMachines _ => fun r => match r with Ok rows => [EvExpired rows] | Err _ => [] end
  | ExpiredRouteDetached id e => fun b => [EvDetached id e b]
  | HasPendingOperationForMachine id => fun b => [EvPending id b]
  | PendingOperationForMachine id => fun op => [EvInFlight id op]
  | MachineHasLocalRWAttachment id => fun b => [EvVolume id b]
  | NodeViews => fun views => [EvViews views]
  | ListAgent v => fun o => [EvListed (v_agentID v) o]
  | EnqueueReapDelete _ m e op g _ => fun r => [EvReap m e op g r]
  | EnqueueDelete _ m e op g _ => fun r => [EvDelete m e op g r]
  | EnsureAppAndEnqueueCreate p => fun _ => [EvCreate p]
  | EnqueueRestartCAS _ m f e op g _ _ => fun _ => [EvRestart m f e op g]
  | UpdateOperationDispatchNode op n => fun _ => [EvPinned op n]
  | CompleteOperation op s _ => fun _ => [EvCompleted op s]
  | MarkMachineObservedMissing id => fun _ => [EvMissing id]
  | MarkMachineDeleted id => fun r => [EvDeleted id r]
  | _ => fun _ => []
  end.

(** What a run depends on, as in [Dispatch]. *)
Record Env := mkEnv {
  outcome : nat -> exec_outcome; clock : nat -> Z; db_clock : nat -> Z;
  others : nat -> DB -> DB; answer : forall B, nat -> eff B -> B }.

(** ListMachines: the rows whose application is there, oldest first. *)
Definition list_machines (db : DB) : list Machine :=
  sort_by (fun a b => m_CreatedAt (shape a) <? m_CreatedAt (shape b))
    (filter (fun m => is_Some (apps db !! m_AppID (shape m))) (map_to_list (machines db)).*2).
Definition list_machines_on (nodeID : string) (db : DB) : list Machine :=
  filter (fun m => node_of m = nodeID /\ DesiredState m ∈ ["CREATED"; "RUNNING"]%string) (map_to_list (machines db)).*2.
Definition project_for_app (appID : string) (db : DB) : string := from_option ap_ProjectID "" (apps db !! appID).

Definition perform (env : Env) (i : nat) {B} (c : eff B) (db : DB) : DB * B :=
  let o := outcome env i in
  let now := db_clock env i in
  match c in eff B return B -> DB * B with
  | GetMachine id => fun _ => (db, read o (machines db !! id))
  | ListMachines => fun _ => (db, read o (list_machines db))
  | ListMachinesOnNode n => fun _ => (db, read o (list_machines_on n db))
  | ListExpiredMachines t => fun _ => (db, read o (Operations.ListExpiredMachines t db))
  | ExpiredRouteDetached id e => fun _ => (db, read o (Operations.ExpiredRouteDetached db id e))
  | HasPendingOperationForMachine id => fun _ => (db, read o (Operations.HasPendingOperationForMachine db id))
  | PendingOperationForMachine id => fun _ => (db, read o (Operations.PendingOperationForMachine db id))
  | GetLatestOperationForMachine id => fun _ => (db, read o (Operations.GetLatestOperationForMachine db id))
  | FailedCreateAttempts id => fun _ => (db, read o (Operations.FailedCreateAttempts db id))
  | LatestCreateDispatchNode m e => fun _ => (db, read o (Operations.LatestCreateDispatchNode db m e))
  | SecretLeaseForExecution m e => fun _ => (db, res_bind (read o tt) (fun _ => Operations.SecretLeaseForExecution db m e))
  | ProjectForApp a => fun _ => (db, read o (project_for_app a db))
  | GetDeployment id => fun _ => (db, read o (deployments db !! id))
  | RestartAttemptNumber id e g => fun _ => (db, res_bind (read o tt) (fun _ => Operations.RestartAttemptNumber db id e g))
  | EnqueueReapDelete p m e op g raw => fun _ => Operations.EnqueueReapDelete o now p m e op g (Some raw) db
  | EnqueueDelete p m e op g raw => fun _ => Operations.EnqueueDelete o now p m e op g (Some raw) db
  | EnsureAppAndEnqueueCreate p => fun _ => Operations.EnsureAppAndEnqueueCreate o now p db
  | EnqueueRestartCAS p m f e op g raw next => fun _ => Operations.EnqueueRestartCAS o now p m f e op g (Some raw) next db
  | UpdateOperationDispatchNode op n => fun _ => Operations.UpdateOperationDispatchNode o now op n db
  | CompleteOperation op s err => fun _ => Operations.CompleteOperation o now op s None err db
  | UpdateMachineObserved id e s ip rd => fun _ => Operations.UpdateMachineObserved o now id e s ip rd db
  | MarkMachineObservedMissing id => fun _ => Operations.MarkMachineObservedMissing o now id db
  | MarkMachineDeleted id => fun _ => Operations.MarkMachineDeleted o now id db
  | MarkExpiredRouteDetached id => fun _ => Operations.MarkExpiredRouteDetached o now id db
  | MarkSecretLeaseAcked l => fun _ => Operations.MarkSecretLeaseAcked o now l db
  | SetRestartStableSince id t => fun _ => Operations.SetRestartStableSince o now id t db
  | ResetRestartAttempts id => fun _ => Operations.ResetRestartAttempts o now id db
  | BlockRestart id b => fun _ => Operations.BlockRestart o now id b db
  | PrepareRestartBackoff id e g t => fun _ => Operations.PrepareRestartBackoff o now id e g t db
  | Now => fun _ => (db, clock env i)
  | _ => fun b => (db, b)
  end (answer env B i c).

Definition exec {A} (env : Env) (p : prog A) (i : nat) (db : DB) : DB * A * list ev :=
  run (@event) (fun j B c db => perform env j c (others env j db)) p i db.

(** ** What justifies an event *)

Definition reported (h : list ev) (node : string) (am : AgentMachine) : Prop :=
  exists ms, EvListed node (Listed ms) ∈ h /\ am ∈ ms.

(** The copies a trace reports, as the pass keeps them. *)
Definition copies_after (copies : AllCopies) (e : ev) : AllCopies :=
  match e with EvListed node (Listed ms) => foldl (add_copy node) copies ms | _ => copies end.
Definition copies_of (h : list ev) : AllCopies := foldl copies_after ∅ h.

(** A row of the table of machines, as the pass read it. *)
Definition row_read (h : list ev) (pg : Machine) : Prop := exists rows, EvRows rows ∈ h /\ pg ∈ rows.

(** Why a copy may be deleted. *)
Inductive reap_reason (h : list ev) (node : string) (am : AgentMachine) : Prop :=
  | reap_unknown r :
      EvRow (am_MachineId am) r ∈ h -> (forall pg, r <> Ok (Some pg)) -> EvPending (am_MachineId am) (Ok false) ∈ h ->
      reap_reason h node am
  | reap_other_execution pg :
      EvRow (am_MachineId am) (Ok (Some pg)) ∈ h \/ row_read h pg /\ m_id pg = am_MachineId am ->
      CurrentExecutionID pg <> am_ExecutionId am -> reap_reason h node am
  | reap_current pg :
      row_read h pg -> m_id pg = am_MachineId am -> CurrentExecutionID pg = am_ExecutionId am ->
      DesiredState pg = "DELETED"%string \/ agentStateUsable am = false \/ am_State am = MS_STOPPED \/
      (exists node' am', reported h node' am' /\ node' <> node /\ am_MachineId am' = am_MachineId am /\
         am_ExecutionId am' = am_ExecutionId am /\ (node <> ""%string -> copyLivenessRank am <= copyLivenessRank am')) ->
      reap_reason h node am.

Definition reapable (h : list ev) (node : string) (am : AgentMachine) : Prop := reported h node am /\ reap_reason h node am.

(** No usable copy of any execution, and none of the current one. *)
Definition nothing_left (h : list ev) (pg : Machine) : Prop :=
  forall node am, default ∅ (copies_of h !! m_id pg) !! node = Some am ->
    am_ExecutionId am <> CurrentExecutionID pg /\ agentStateUsable am = false.

Definition wanted (pg : Machine) : Prop := DesiredState pg = "CREATED"%string \/ DesiredState pg = "RUNNING"%string.

(** The unsuccessful lists of a node in a trace. *)
Definition list_failed (node : string) (e : ev) : bool :=
  match e with EvListed n NoClient | EvListed n (ListFailed _) => String.eqb n node | _ => false end.
Definition failed_lists (h : list ev) (node : string) : nat := length (filter (fun e => list_failed node e = true) h).

Section justification.
Context (cfg : Config) (failures : Failures).

Definition ok (h : list ev) (e : ev) : Prop :=
  match e with
  | EvReap machineID executionID _ _ _ =>
      exists node am, am_MachineId am = machineID /\ am_ExecutionId am = executionID /\ reapable h node am
  | EvPinned opID node =>
      (exists am key gen op, EvReap (am_MachineId am) (am_ExecutionId am) key gen (Ok op) ∈ h /\ o_ID op = opID /\
         reapable h node am) \/
      (exists pg e key gen op, EvDelete (m_id pg) e key gen (Ok op) ∈ h /\ o_ID op = opID /\ node = node_of pg)
  | EvCreate p =>
      exists pg, row_read h pg /\ wanted pg /\ cp_MachineID p = m_id pg /\ nothing_left h pg /\
        EvPending (m_id pg) (Ok false) ∈ h /\ EvVolume (m_id pg) (Ok false) ∈ h /\
        (cp_Generation p = m_Generation pg + 1 \/
         cp_Generation p = m_Generation pg /\ cp_ExecutionID p = CurrentExecutionID pg /\ CurrentExecutionID pg <> ""%string)
  | EvRestart machineID failedExecution _ _ generation =>
      exists pg node am, row_read h pg /\ wanted pg /\ m_id pg = machineID /\ CurrentExecutionID pg = failedExecution /\
        m_Generation pg = generation /\ reported h node am /\ am_MachineId am = machineID /\
        am_ExecutionId am = failedExecution /\ am_State am = MS_STOPPED /\
        restartExitClassAllows (RestartMode (restart pg)) (am_ExitCode am) = true /\
        RestartBlocked (restart pg) = false /\ RestartAttempts (restart pg) < RestartMaxAttempts (restart pg)
  | EvDelete machineID _ _ generation _ =>
      exists rows pg, EvExpired rows ∈ h /\ pg ∈ rows /\ m_id pg = machineID /\ m_Generation pg = generation /\
        EvDetached machineID (CurrentExecutionID pg) (Ok true) ∈ h /\ EvDeleted machineID (Ok tt) ∈ h
  | EvDeleted machineID _ =>
      exists rows pg, EvExpired rows ∈ h /\ pg ∈ rows /\ m_id pg = machineID /\
        EvDetached machineID (CurrentExecutionID pg) (Ok true) ∈ h
  | EvMissing machineID =>
      (exists node rows pg e, EvNodeRows node rows ∈ h /\ pg ∈ rows /\ m_id pg = machineID /\
         EvListed node (ListFailed e) ∈ h /\
         NodeMissingThreshold cfg <= Z.of_nat (default O (failures !! node) + failed_lists h node)) \/
      (exists pg views, row_read h pg /\ m_id pg = machineID /\ wanted pg /\ nothing_left h pg /\ EvViews views ∈ h /\
         match List.find (fun v => String.eqb (v_agentID v) (node_of pg)) views with
         | Some v => v_status v <> "HEALTHY"%string | None => True end)
  | EvCompleted opID status =>
      exists pg op node am, row_read h pg /\ wanted pg /\ EvInFlight (m_id pg) (Ok (Some op)) ∈ h /\ o_ID op = opID /\
        o_Kind op = "create"%string /\ status = FAILED /\ reported h node am /\ am_MachineId am = m_id pg /\
        (am_ExecutionId am <> CurrentExecutionID pg \/ agentStateUsable am = false)
  | _ => True
  end.

(** A later point of the trace; nothing was listed in between. *)
Definition unlisted (e : ev) : Prop := match e with EvListed _ _ => False | _ => True end.
Definition later (h h' : list ev) : Prop := exists t, h' = h ++ t /\ Forall unlisted t.

Abbreviation quiet p h := (justified (@event) ok (fun _ h' => later h h') p h).

Lemma later_refl h : later h h.
Proof. exists []. by rewrite app_nil_r. Qed.
Lemma later_trans h1 h2 h3 : later h1 h2 -> later h2 h3 -> later h1 h3.
Proof. intros (t & -> & Ht) (t' & -> & Ht'). exists (t ++ t'). rewrite app_assoc. split; [done|]. by apply Forall_app. Qed.
Lemma later_trace h t : Forall unlisted t -> later h (h ++ t).
Proof. intros Ht. by exists t. Qed.
Lemma later_elem h h' e : later h h' -> e ∈ h -> e ∈ h'.
Proof. intros (t & -> & _) He. apply elem_of_app. by left. Qed.
Lemma later_copies h h' : later h h' -> copies_of h' = copies_of h.
Proof.
  intros (t & -> & Ht). unfold copies_of. rewrite foldl_app. generalize (foldl copies_after ∅ h). clear h.
  induction Ht as [|e t He _ IH]; intros c; cbn; [done|]. rewrite IH. by destruct e.
Qed.
Lemma later_reported h h' node am : later h h' -> reported h node am -> reported h' node am.
Proof. intros Hl (ms & Hm & Ha). exists ms. split; [by eapply later_elem|done]. Qed.
Lemma later_row h h' pg : later h h' -> row_read h pg -> row_read h' pg.
Proof. intros Hl (rows & Hm & Ha). exists rows. split; [by eapply later_elem|done]. Qed.
Lemma later_reason h h' node am : later h h' -> reap_reason h node am -> reap_reason h' node am.
Proof.
  intros Hl [r Hr Hn Hp|pg Hr He|pg Hr Hi He Hc].
  - eapply reap_unknown; eauto using later_elem.
  - eapply reap_other_execution; [|exact He]. destruct Hr as [Hr|[Hr Hi]]; eauto using later_elem, later_row.
  - eapply reap_current; eauto using later_row.
    destruct Hc as [Hc|[Hc|[Hc|(node' & am' & Hrep & Hc)]]]; eauto 6.
    right; right; right. exists node', am'. split; [by eapply later_reported|done].
Qed.
Lemma later_reapable h h' node am : later h h' -> reapable h node am -> reapable h' node am.
Proof. intros Hl [Hrep Hr]. split; [by eapply later_reported|by eapply later_reason]. Qed.
Lemma later_left h h' pg : later h h' -> nothing_left h pg -> nothing_left h' pg.
Proof. intros Hl Hn node am. rewrite (later_copies _ _ Hl). apply Hn. Qed.

Lemma quiet_ret {A} (a : A) h : quiet (Ret a) h.
Proof. apply later_refl. Qed.

Lemma quiet_do {A B} (c : eff B) (k : B -> prog A) h :
  (forall b, sound ok h (event c b)) -> (forall b, Forall unlisted (event c b)) ->
  (forall b, quiet (k b) (h ++ event c b)) -> quiet (Do c k) h.
Proof.
  intros Hs Hu Hk. split; [exact Hs|]. intros b _. eapply obeys_weaken; [apply (Hk b)|].
  intros a h' Hl. eapply later_trans; [by apply later_trace|exact Hl].
Qed.

Lemma quiet_bind {A B} (p : prog A) (f : A -> prog B) h :
  quiet p h -> (forall a h', later h h' -> quiet (f a) h') -> quiet (pbind p f) h.
Proof.
  intros Hp Hf. eapply obeys_pbind; [exact Hp|]. intros a h' Hl. eapply obeys_weaken; [by apply Hf|].
  intros b h2 Hl2. eapply later_trans; [exact Hl|exact Hl2].
Qed.

Lemma quiet_each {A} (f : A -> prog unit) l h :
  (forall x h', x ∈ l -> later h h' -> quiet (f x) h') -> quiet (each f l) h.
Proof.
  revert h. induction l as [|x l IH]; intros h Hf; cbn [each]; [apply quiet_ret|].
  apply quiet_bind; [apply Hf; [apply list_elem_of_here|apply later_refl]|]. intros [] h' Hl. apply IH.
  intros y h2 Hy Hl2. apply Hf; [by apply list_elem_of_further|by eapply later_trans].
Qed.

(** Facts read from a trace that has grown since. *)
Ltac grown := repeat first
  [ apply later_refl
  | assumption
  | eapply later_trans; [|apply later_trace; repeat case_match; by repeat constructor]
  | match goal with Hl : later ?h ?h' |- later _ ?h' => eapply later_trans; [|exact Hl] end ].
Ltac known := first
  [ eassumption
  | apply list_elem_of_here
  | match goal with
    | |- _ ∈ _ ++ [_] => apply elem_of_app; first [right; by apply list_elem_of_here | left; known]
    | Hl : later ?h ?h', He : _ ∈ ?h |- _ ∈ ?h' => exact (later_elem _ _ _ Hl He)
    end ].
Ltac unheard := intros; cbn; first [exact (sound_nil _ _) | apply sound_one; exact I | by repeat constructor | idtac].

(** Goes through a program, call by call; events that need a reason are left. *)
Ltac quiets := repeat first
  [ apply quiet_ret
  | match goal with
    | |- justified _ _ _ (Do _ _) _ =>
        apply quiet_do; [intros; cbn [event]; first [exact (sound_nil _ _) | apply sound_one; exact I | case_match; solve [exact (sound_nil _ _) | apply sound_one; exact I] | idtac]
                        | intros; cbn [event]; repeat case_match; by repeat constructor
                        | intros; cbn [event]; rewrite ?app_nil_r]
    | |- justified _ _ _ (pbind _ _) _ => apply quiet_bind; [|intros ? ? ?]
    | |- justified _ _ _ (if ?b then _ else _) _ => destruct b eqn:?
    | |- justified _ _ _ (match ?x with _ => _ end) _ => destruct x eqn:?; cbn [event]
    end ].

Lemma quiet_reap_at project machineID executionID gen opID node am h :
  reapable h node am -> am_MachineId am = machineID -> am_ExecutionId am = executionID ->
  quiet project h -> quiet (reap_at project machineID executionID gen opID node) h.
Proof.
  intros Hr <- <- Hp. unfold reap_at. destruct (enc_fenced _); [|apply quiet_ret].
  apply quiet_bind; [exact Hp|]. intros p h' Hl. pose proof (later_reapable _ _ _ _ Hl Hr) as Hr'.
  quiets; apply sound_one; cbn; [exists node, am|left; exists am|exists node, am|left; exists am];
    repeat first [split; [reflexivity|] | do 3 eexists; split; [known|] | eapply later_reapable; [|exact Hr']; grown].
Qed.

Lemma quiet_enqueueDelete machineID executionID gen opID node am h :
  reapable h node am -> am_MachineId am = machineID -> am_ExecutionId am = executionID ->
  quiet (enqueueDelete machineID executionID gen opID node) h.
Proof. intros. eapply quiet_reap_at; eauto. unfold machine_project. quiets. Qed.

Lemma quiet_orphan project am node gen h : reapable h node am -> quiet (enqueueOrphanDelete project am node gen) h.
Proof.
  intros Hr. unfold enqueueOrphanDelete. apply quiet_bind; [|intros; apply quiet_ret].
  eapply quiet_reap_at; eauto. apply quiet_ret.
Qed.

Lemma quiet_processAgentMachine m v h : reported h (v_agentID v) m -> quiet (processAgentMachine m v) h.
Proof.
  intros Hrep. unfold processAgentMachine, observe_current, acknowledge_secret, watch_stability.
  quiets; apply quiet_orphan;
    (split; [eapply later_reported; [|exact Hrep]; grown|]).
  - eapply reap_other_execution; [left; known|]. intros He. subst. rewrite He, String.eqb_refl in *. done.
  - eapply reap_unknown; [known|congruence|known].
  - eapply reap_unknown; [known|congruence|known].
Qed.

(** ** Rows against copies *)

Lemma add_copies_spec node ms copies id n am :
  default ∅ (foldl (add_copy node) copies ms !! id) !! n = Some am ->
  default ∅ (copies !! id) !! n = Some am \/ (n = node /\ am ∈ ms /\ am_MachineId am = id).
Proof.
  revert copies. induction ms as [|m ms IH]; intros copies; cbn [foldl]; [by left|]. intros Ha.
  destruct (IH _ Ha) as [Hc|(-> & Hin & Hid)]; [|right; split; [done|split; [by apply list_elem_of_further|done]]].
  unfold add_copy in Hc. destruct (decide (am_MachineId m = id)) as [<-|Hne]; [|left; by rewrite lookup_insert_ne in Hc].
  rewrite lookup_insert_eq in Hc. cbn in Hc. destruct (decide (node = n)) as [<-|Hn].
  - rewrite lookup_insert_eq in Hc. injection Hc as <-. right. split; [done|]. split; [apply list_elem_of_here|done].
  - rewrite lookup_insert_ne in Hc by done. by left.
Qed.

Lemma copies_reported h id node am :
  default ∅ (copies_of h !! id) !! node = Some am -> reported h node am /\ am_MachineId am = id.
Proof.
  unfold copies_of. induction h as [|e h IH] using rev_ind; [done|]. rewrite foldl_app. cbn [foldl].
  assert (Hold : default ∅ (foldl copies_after ∅ h !! id) !! node = Some am -> reported (h ++ [e]) node am /\ am_MachineId am = id).
  { intros Ha. destruct (IH Ha) as [(ms & Hm & Hin) Hid]. split; [|done]. exists ms. split; [apply elem_of_app; by left|done]. }
  destruct e; try exact Hold. destruct o as [|?|ms]; try exact Hold. cbn [copies_after]. intros Ha.
  destruct (add_copies_spec _ _ _ _ _ _ Ha) as [Hc|(-> & Hin & Hid)]; [by apply Hold|].
  split; [|done]. exists ms. split; [apply elem_of_app; right; apply list_elem_of_here|done].
Qed.

Lemma elem_of_agent_ids copies id : id ∈ agent_ids copies <-> is_Some (copies !! id).
Proof.
  unfold agent_ids. rewrite elem_of_sort_by, list_elem_of_fmap. split.
  - intros ([k am] & -> & Hin). apply elem_of_map_to_list in Hin. eauto.
  - intros [am Ha]. exists (id, am). split; [done|]. by apply elem_of_map_to_list.
Qed.

Lemma live_fold m copies ids live :
  match foldl (live_step m copies) live ids with
  | Some (id, cp) => live = Some (id, cp) \/ (copies !! id = Some cp /\ am_ExecutionId cp = CurrentExecutionID m)
  | None => live = None /\ forall id cp, id ∈ ids -> copies !! id = Some cp -> am_ExecutionId cp <> CurrentExecutionID m
  end.
Proof.
  revert live. induction ids as [|id ids IH]; intros live; cbn [foldl].
  { destruct live as [[id cp]|]; [by left|]. split; [done|]. intros id cp Hid. by apply not_elem_of_nil in Hid. }
  specialize (IH (live_step m copies live id)).
  assert (Hstep : live_step m copies live id = live \/ exists cp, live_step m copies live id = Some (id, cp) /\
                    copies !! id = Some cp /\ am_ExecutionId cp = CurrentExecutionID m).
  { unfold live_step. destruct (copies !! id) as [cp|] eqn:Hc; [|by left].
    destruct (String.eqb_spec (am_ExecutionId cp) (CurrentExecutionID m)) as [He|]; cbn; [|by left].
    destruct (bool_decide (live = None) || _); [right; by exists cp|by left]. }
  destruct (foldl _ _ ids) as [[id' cp']|].
  - destruct IH as [IH|IH]; [|by right]. destruct Hstep as [E|(cp & E & Hcp)]; rewrite E in IH; [by left|].
    injection IH as <- <-. by right.
  - destruct IH as [IH Hall]. destruct Hstep as [E|(cp & E & _)]; [|by rewrite E in IH]. split; [congruence|].
    intros id' cp' [->|Hin]%elem_of_cons Hc; [|by eauto]. intros He. rewrite E in IH. unfold live_step in E.
    by rewrite Hc, He, String.eqb_refl, IH in E.
Qed.

Lemma live_copy_Some m copies id cp :
  live_copy m copies = Some (id, cp) -> copies !! id = Some cp /\ am_ExecutionId cp = CurrentExecutionID m.
Proof. unfold live_copy. intros E. pose proof (live_fold m copies (agent_ids copies) None) as H. rewrite E in H. by destruct H. Qed.

Lemma nothing_usable m copies :
  live_copy m copies = None -> Nat.ltb 0 (foreignCount m copies) = false ->
  forall id cp, copies !! id = Some cp -> am_ExecutionId cp <> CurrentExecutionID m /\ agentStateUsable cp = false.
Proof.
  unfold live_copy, foreignCount. intros E Hf id cp Hc.
  pose proof (live_fold m copies (agent_ids copies) None) as H. rewrite E in H. destruct H as [_ H].
  assert (Hid : id ∈ agent_ids copies) by (apply elem_of_agent_ids; eauto). specialize (H id cp Hid Hc). split; [done|].
  apply Nat.ltb_ge in Hf. destruct (agentStateUsable cp) eqn:Hu; [|done]. exfalso.
  assert (Hl : id ∈ filter (fun id => match copies !! id with Some cp => foreign_usable m cp | None => false end = true) (agent_ids copies)).
  { apply list_elem_of_filter. split; [|done]. rewrite Hc. unfold foreign_usable. rewrite Hu, andb_true_r.
    by destruct (String.eqb_spec (am_ExecutionId cp) (CurrentExecutionID m)). }
  destruct (filter _ _); [by apply not_elem_of_nil in Hl|cbn in Hf; lia].
Qed.

Lemma better_fold copies l kept :
  kept.2 = rank_at copies kept.1 ->
  let best := foldl (better copies) kept l in
  best.2 = rank_at copies best.1 /\ kept.2 <= best.2 /\ best.1 ∈ kept.1 :: l /\ forall x, x ∈ l -> rank_at copies x <= best.2.
Proof.
  revert kept. induction l as [|y l IH]; intros kept Hk; cbn [foldl].
  - split; [done|]. split; [done|]. split; [apply list_elem_of_here|]. intros x Hx. by apply not_elem_of_nil in Hx.
  - assert (Hb : (better copies kept y).2 = rank_at copies (better copies kept y).1 /\ kept.2 <= (better copies kept y).2 /\
                 rank_at copies y <= (better copies kept y).2 /\ (better copies kept y).1 ∈ [kept.1; y]).
    { unfold better. destruct (Z.ltb_spec kept.2 (rank_at copies y)); cbn; repeat split; try lia; try done; set_solver. }
    destruct Hb as (Hb & Hle & Hy & Hin). destruct (IH _ Hb) as (E & H1 & H2 & H3). split; [exact E|]. split; [lia|].
    split; [|intros x [->|Hx]%elem_of_cons; [lia|by apply H3]].
    apply elem_of_cons in H2 as [->|H2]; [|by apply list_elem_of_further, list_elem_of_further].
    clear -Hin. set_solver.
Qed.

Lemma survivor_best copies first rest x :
  x ∈ first :: rest -> rank_at copies x <= rank_at copies (survivor_of copies first rest).
Proof.
  destruct (better_fold copies rest (first, rank_at copies first) eq_refl) as (E & H1 & _ & H2). unfold survivor_of. rewrite <- E.
  intros [->|Hx]%elem_of_cons; [exact H1|by apply H2].
Qed.

Lemma survivor_elem copies first rest : survivor_of copies first rest ∈ first :: rest.
Proof. by destruct (better_fold copies rest (first, rank_at copies first) eq_refl) as (_ & _ & H & _). Qed.

Lemma elem_of_add_pref ids pref x y : x ∈ add_pref ids pref y <-> x ∈ pref \/ (x = y /\ x <> ""%string /\ x ∈ ids).
Proof.
  unfold add_pref. destruct (String.eqb_spec y "") as [->|Hy]; cbn; [naive_solver|].
  destruct (bool_decide_reflect (y ∈ ids)) as [Hi|Hi]; cbn; [|naive_solver].
  destruct (bool_decide_reflect (y ∈ pref)) as [Hp|Hp]; cbn; [naive_solver|]. rewrite elem_of_app, list_elem_of_singleton. naive_solver.
Qed.

Lemma elem_of_prefs ids l pref x :
  x ∈ foldl (add_pref ids) pref l <-> x ∈ pref \/ (x ∈ l /\ x <> ""%string /\ x ∈ ids).
Proof.
  revert pref. induction l as [|y l IH]; intros pref; cbn [foldl]; [set_solver|]. rewrite IH, elem_of_cons, elem_of_add_pref.
  naive_solver.
Qed.

Lemma elem_of_dup_ids current copies id :
  id ∈ dup_ids current copies -> exists cp, copies !! id = Some cp /\ am_ExecutionId cp = current.
Proof.
  unfold dup_ids. intros [Hp _]%list_elem_of_filter. destruct (copies !! id) as [cp|]; [|done].
  exists cp. split; [done|]. by apply String.eqb_eq.
Qed.

(** ** What the pass over the rows does *)

Lemma quiet_has_pending id k h :
  (forall h', later h h' -> EvPending id (Ok false) ∈ h' -> quiet k h') -> quiet (has_pending id k) h.
Proof. intros Hk. unfold has_pending. quiets. apply Hk; [grown|known]. Qed.

Lemma quiet_rolloutHolds m h : quiet (rolloutHoldsRecreate m) h.
Proof. unfold rolloutHoldsRecreate. quiets. Qed.
Lemma quiet_rolloutRepairs m h : quiet (rolloutRepairsMachine m) h.
Proof. unfold rolloutRepairsMachine. quiets. Qed.
Lemma quiet_nodeEvacuating n h : quiet (nodeEvacuating n) h.
Proof. unfold nodeEvacuating. quiets. Qed.

(** A wanted machine with nothing left of it and nothing in flight. *)
Record gone (h : list ev) (m : Machine) : Prop := mkGone {
  gone_row : row_read h m; gone_wanted : wanted m; gone_left : nothing_left h m;
  gone_pending : EvPending (m_id m) (Ok false) ∈ h }.

Lemma later_gone h h' m : later h h' -> gone h m -> gone h' m.
Proof. intros Hl []. split; eauto using later_row, later_left, later_elem. Qed.

Lemma quiet_enqueue_recreate m executionID opID gen h :
  gone h m -> EvVolume (m_id m) (Ok false) ∈ h ->
  gen = m_Generation m + 1 \/ gen = m_Generation m /\ executionID = CurrentExecutionID m /\ CurrentExecutionID m <> ""%string ->
  quiet (enqueue_recreate m executionID opID gen) h.
Proof.
  intros Hg Hv Hgen. unfold enqueue_recreate. quiets. apply sound_one. cbn. exists m. destruct Hg. auto 8.
Qed.

Lemma quiet_no_local_volume m k h :
  (forall h', later h h' -> EvVolume (m_id m) (Ok false) ∈ h' -> quiet k h') -> quiet (no_local_volume m k) h.
Proof. intros Hk. unfold no_local_volume. quiets. apply Hk; [grown|known]. Qed.

Lemma quiet_recreate_new m h : gone h m -> EvVolume (m_id m) (Ok false) ∈ h -> quiet (recreate_new m) h.
Proof. intros Hg Hv. unfold recreate_new. quiets. apply quiet_enqueue_recreate; auto. Qed.

Lemma quiet_recreateMachine m bump h : gone h m -> quiet (recreateMachine m bump) h.
Proof.
  intros Hg. unfold recreateMachine. apply quiet_no_local_volume. intros h1 Hl1 Hv1. apply (later_gone _ _ _ Hl1) in Hg.
  destruct bump; [by apply quiet_recreate_new|]. destruct (String.eqb_spec (CurrentExecutionID m) "") as [|Hne].
  - apply quiet_no_local_volume. intros h2 Hl2 Hv2. apply quiet_recreate_new; [by eapply later_gone|done].
  - apply quiet_bind; [unfold lease_spent; quiets|]. intros spent h2 Hl2. apply (later_gone _ _ _ Hl2) in Hg.
    pose proof (later_elem _ _ _ Hl2 Hv1) as Hv2. destruct spent; [by apply quiet_recreate_new|].
    unfold recreate_same. quiets. apply quiet_enqueue_recreate; auto.
Qed.

(** A copy of a machine's row, as the pass holds both. *)
Record copy_of (h : list ev) (m : Machine) (node : string) (am : AgentMachine) : Prop := mkCopyOf {
  co_row : row_read h m; co_wanted : wanted m; co_reported : reported h node am; co_id : am_MachineId am = m_id m }.

Lemma later_copy_of h h' m node am : later h h' -> copy_of h m node am -> copy_of h' m node am.
Proof. intros Hl []. split; eauto using later_row, later_reported. Qed.

Lemma quiet_restartMachine m node am h :
  copy_of h m node am -> am_ExecutionId am = CurrentExecutionID m -> am_State am = MS_STOPPED ->
  restartExitClassAllows (RestartMode (restart m)) (am_ExitCode am) = true -> RestartBlocked (restart m) = false ->
  RestartAttempts (restart m) < RestartMaxAttempts (restart m) -> quiet (restartMachine m) h.
Proof.
  intros Hc He Hs Hx Hb Ha. unfold restartMachine. quiets.
  match goal with |- sound _ ?h' _ => assert (Hl : later h h') by grown end.
  apply sound_one. cbn. exists m, node, am. destruct (later_copy_of _ _ _ _ _ Hl Hc). auto 16.
Qed.

Lemma quiet_maybeRestart m node am h :
  copy_of h m node am -> am_ExecutionId am = CurrentExecutionID m -> am_State am = MS_STOPPED -> quiet (maybeRestartMachine m am) h.
Proof.
  intros Hc He Hs. unfold maybeRestartMachine. destruct (_ && _); [apply quiet_ret|]. destruct (RestartBlocked _) eqn:Hb; [apply quiet_ret|].
  apply quiet_bind; [apply quiet_rolloutHolds|]. intros held h1 Hl1. destruct held; [apply quiet_ret|].
  apply quiet_bind; [apply quiet_nodeEvacuating|]. intros ev h2 Hl2. destruct ev; [apply quiet_ret|].
  destruct (restartExitClassAllows _ _) eqn:Hx; [|apply quiet_ret]. cbn [negb]. unfold restart_when_due. quiets.
  eapply quiet_restartMachine; eauto; [eapply later_copy_of; [|exact Hc]; grown|].
  by apply Z.leb_gt.
Qed.

Lemma quiet_node_lost m h views :
  row_read h m -> wanted m -> nothing_left h m -> EvViews views ∈ h ->
  match List.find (fun v => String.eqb (v_agentID v) (node_of m)) views with Some v => v_status v <> "HEALTHY"%string | None => True end ->
  quiet (node_lost cfg m) h.
Proof.
  intros Hr Hw Hn Hv Hs. unfold node_lost. quiets.
  - apply sound_one. cbn. right. exists m, views. by repeat (split; [done|]).
  - apply quiet_has_pending. intros h1 Hl1 Hp. apply quiet_bind; [apply quiet_rolloutHolds|]. intros held h2 Hl2.
    destruct held; [apply quiet_ret|]. apply quiet_recreateMachine. eapply later_gone; [exact Hl2|].
    assert (Hl : later h h1) by grown.
    split; eauto using later_row, later_left.
Qed.

Lemma quiet_missing_everywhere m h : row_read h m -> wanted m -> nothing_left h m -> quiet (missing_everywhere cfg m) h.
Proof.
  intros Hr Hw Hn. apply quiet_has_pending. intros h1 Hl1 Hp.
  assert (Hg : gone h1 m) by (split; eauto using later_row, later_left). clear Hl1 Hp.
  apply quiet_bind; [apply quiet_rolloutRepairs|]. intros repairs h2 Hl2. apply (later_gone _ _ _ Hl2) in Hg.
  destruct repairs; [by apply quiet_recreateMachine|].
  apply quiet_bind; [apply quiet_rolloutHolds|]. intros held h3 Hl3. apply (later_gone _ _ _ Hl3) in Hg.
  destruct held; [apply quiet_ret|]. unfold after_last. quiets; apply quiet_recreateMachine; (eapply later_gone; [|exact Hg]); grown.
Qed.

Lemma quiet_no_live_copy m h : row_read h m -> wanted m -> nothing_left h m -> quiet (no_live_copy cfg m) h.
Proof.
  intros Hr Hw Hn. unfold no_live_copy, viewForAgent. destruct (String.eqb _ ""); [by apply quiet_missing_everywhere|].
  cbn [pbind]. quiets; first
    [ apply quiet_missing_everywhere; eauto; [eapply later_row|eapply later_left]; eauto; grown
    | eapply quiet_node_lost; [eapply later_row|exact Hw|eapply later_left|known|]; eauto; try grown ].
  - cbn in *. rewrite Heqo. by apply String.eqb_neq.
  - cbn in *. by rewrite Heqo.
Qed.

(** A copy that goes for a reason that needs only the row. *)
Lemma reap_known h m node am :
  copy_of h m node am ->
  am_ExecutionId am <> CurrentExecutionID m \/ agentStateUsable am = false \/ am_State am = MS_STOPPED -> reapable h node am.
Proof.
  intros [Hr Hw Hrep Hid] Hwhy. split; [done|].
  destruct (decide (CurrentExecutionID m = am_ExecutionId am)) as [He|He].
  - eapply reap_current; [exact Hr|done|done|]. destruct Hwhy as [Hx|[Hx|Hx]]; auto. by destruct Hx.
  - eapply reap_other_execution; [right; split; [exact Hr|done]|done].
Qed.

Lemma quiet_supersede m node am reason k h :
  copy_of h m node am -> am_ExecutionId am <> CurrentExecutionID m \/ agentStateUsable am = false ->
  (forall h', later h h' -> quiet k h') -> quiet (supersede_create m reason k) h.
Proof.
  intros Hc Hwhy Hk. unfold supersede_create. quiets; [|apply Hk; grown].
  match goal with |- sound _ ?h' _ => assert (Hl : later h h') by grown end.
  apply sound_one. cbn. exists m, o, node, am. destruct (later_copy_of _ _ _ _ _ Hl Hc).
  repeat (split; [solve [done|known|by apply String.eqb_eq, negb_false_iff]|]). done.
Qed.

Section row_pass.
Context (m : Machine) (h : list ev) (Hr : row_read h m).
Local Abbreviation copies := (default ∅ (copies_of h !! m_id m)).

Lemma copy_known node am : wanted m -> copies !! node = Some am -> copy_of h m node am.
Proof. intros Hw Ha. destruct (copies_reported _ _ _ _ Ha). by split. Qed.

Lemma quiet_reap_deleted h' : later h h' -> DesiredState m = "DELETED"%string -> quiet (reap_deleted m copies) h'.
Proof.
  intros Hl Hd. unfold reap_deleted. destruct (live_copy m copies) as [[node am]|] eqn:Hlive.
  - destruct (live_copy_Some _ _ _ _ Hlive) as [Ha He]. destruct (copies_reported _ _ _ _ Ha) as [Hrep Hid]. quiets.
    eapply quiet_enqueueDelete; [|exact Hid|exact He]. eapply later_reapable; [exact Hl|]. split; [done|].
    by eapply reap_current; eauto.
  - destruct (List.find _ _) as [id|] eqn:Hf; [|apply quiet_ret]. apply find_some in Hf as [_ Hf].
    destruct (copies !! id) as [am|] eqn:Ha; [|done]. destruct (copies_reported _ _ _ _ Ha) as [Hrep Hid]. quiets.
    eapply quiet_enqueueDelete; [|exact Hid|done]. eapply later_reapable; [exact Hl|]. split; [done|].
    eapply reap_other_execution; [right; by split|]. apply negb_true_iff, String.eqb_neq in Hf. done.
Qed.

Lemma quiet_reapDuplicate h' : later h h' -> wanted m -> quiet (reapDuplicateLiveCopy m copies) h'.
Proof.
  intros Hl Hw. unfold reapDuplicateLiveCopy. set (ids := dup_ids _ _). quiets.
  match goal with Hf : foldl _ _ _ = ?f :: ?l |- _ => rename f into first; rename l into rest; rename Hf into Hpref end.
  match goal with Hf : List.find _ _ = Some ?i |- _ => rename i into id; apply find_some in Hf as [Hin Hne%negb_true_iff%String.eqb_neq] end.
  apply list_elem_of_In in Hin. destruct (elem_of_dup_ids _ _ _ Hin) as (am & Ha & He).
  assert (Hsurv : survivor_of copies first rest ∈ ids).
  { pose proof (survivor_elem copies first rest) as Hs. rewrite <- Hpref in Hs. apply elem_of_prefs in Hs as [Hs|Hs]; [|by apply Hs].
    destruct b; [|by apply not_elem_of_nil in Hs]. apply elem_of_add_pref in Hs as [Hs|Hs]; [by apply not_elem_of_nil in Hs|by apply Hs]. }
  destruct (elem_of_dup_ids _ _ _ Hsurv) as (am' & Ha' & He').
  destruct (copies_reported _ _ _ _ Ha) as [Hrep Hid]. destruct (copies_reported _ _ _ _ Ha') as [Hrep' Hid'].
  eapply quiet_enqueueDelete; [|exact Hid|exact He].
  eapply (later_reapable h); [eapply later_trans; [exact Hl|]; grown|]. split; [done|].
  eapply reap_current; [exact Hr|done|done|]. right; right; right. exists (survivor_of copies first rest), am'.
  split; [done|]. split; [congruence|]. split; [congruence|]. split; [congruence|]. intros Hnode.
  assert (Hpref' : id ∈ first :: rest).
  { rewrite <- Hpref. apply elem_of_prefs. right. split; [by apply list_elem_of_further|done]. }
  pose proof (survivor_best copies _ _ _ Hpref') as Hbest. unfold rank_at in Hbest. by rewrite Ha, Ha' in Hbest.
Qed.

Lemma quiet_stopped h' node am : later h h' -> wanted m -> copies !! node = Some am -> am_ExecutionId am = CurrentExecutionID m ->
  quiet (stopped_copy m node am) h'.
Proof.
  intros Hl Hw Ha He. pose proof (copy_known _ _ Hw Ha) as Hc. unfold stopped_copy.
  destruct (bool_decide_reflect (am_State am = MS_STOPPED)) as [Hs|]; [|apply quiet_ret].
  apply quiet_bind; [apply quiet_rolloutRepairs|]. intros [] h1 Hl1.
  - apply quiet_has_pending. intros h2 Hl2 _. apply quiet_bind; [|intros; apply quiet_ret].
    eapply quiet_enqueueDelete; [|apply Hc|exact He]. eapply (later_reapable h); [grown|].
    apply (reap_known _ m); auto.
  - apply quiet_bind; [apply quiet_rolloutHolds|]. intros [] h2 Hl2; [apply quiet_ret|].
    apply quiet_bind; [|intros; apply quiet_ret]. eapply quiet_maybeRestart; eauto. eapply (later_copy_of h); [grown|done].
Qed.

Lemma quiet_processPGMachine h' : later h h' -> quiet (processPGMachine cfg m copies) h'.
Proof.
  intros Hl. unfold processPGMachine. destruct (String.eqb_spec (DesiredState m) "DELETED") as [Hd|_].
  { destruct (bool_decide _); [apply quiet_ret|]. apply quiet_has_pending. intros h1 Hl1 _. apply quiet_reap_deleted; [grown|done]. }
  destruct (_ && _) eqn:Hcr; [apply quiet_ret|].
  assert (Hw : wanted m) by (unfold wanted; destruct (String.eqb_spec (DesiredState m) "CREATED"), (String.eqb_spec (DesiredState m) "RUNNING"); [by auto..|done]).
  assert (Hreap : forall node am h1 reason opID, later h h1 -> copies !! node = Some am ->
    am_ExecutionId am <> CurrentExecutionID m \/ agentStateUsable am = false ->
    quiet (supersede_create m reason (_ <~! enqueueDelete (m_id m) (am_ExecutionId am) (m_Generation m) opID node ; Ret tt)) h1).
  { intros node am h1 reason opID Hl1 Ha Hwhy. pose proof (copy_known _ _ Hw Ha) as Hc.
    eapply quiet_supersede; [by eapply later_copy_of|done|]. intros h2 Hl2. apply quiet_bind; [|intros; apply quiet_ret].
    eapply quiet_enqueueDelete; [|apply Hc|done]. eapply (later_reapable h); [grown|]. apply (reap_known _ m); tauto. }
  assert (Htail : quiet (reaped <~! reapDuplicateLiveCopy m copies ;
      if reaped : bool then Ret tt
      else match live_copy m copies with
           | None => if Nat.ltb 0 (foreignCount m copies) then Ret tt else no_live_copy cfg m
           | Some (node, live) => if negb (agentStateUsable live) then reap_dead m node else stopped_copy m node live
           end) h').
  { apply quiet_bind; [by apply quiet_reapDuplicate|]. intros [] h1 Hl1; [apply quiet_ret|].
    assert (Hl' : later h h1) by grown. destruct (live_copy m copies) as [[node am]|] eqn:Hlive.
    - destruct (live_copy_Some _ _ _ _ Hlive) as [Ha He]. destruct (agentStateUsable am) eqn:Hu; cbn [negb].
      + by apply quiet_stopped.
      + unfold reap_dead. rewrite <- He. apply Hreap; auto.
    - destruct (Nat.ltb 0 _) eqn:Hf; [apply quiet_ret|]. apply quiet_no_live_copy; [by eapply later_row|done|].
      eapply later_left; [exact Hl'|]. intros node am Ha. by apply (nothing_usable _ _ Hlive Hf node). }
  unfold home_stale. destruct (copies !! node_of m) as [home|] eqn:Hhome; [|exact Htail].
  destruct (String.eqb_spec (am_ExecutionId home) (CurrentExecutionID m)); [exact Htail|].
  apply (Hreap _ _ _ _ _ Hl Hhome). by left.
Qed.
End row_pass.

(** ** Expiry and the whole pass *)

Lemma quiet_expire_machine m rows h : EvExpired rows ∈ h -> m ∈ rows -> quiet (expire_machine m) h.
Proof.
  intros Hrows Hm. unfold expire_machine, ttl_delete. quiets; apply sound_one; cbn.
  - exists rows, m. split; [known|]. split; [done|]. split; [done|]. known.
  - destruct a0. exists rows, m. split; [known|]. split; [done|]. split; [done|]. split; [done|]. split; known.
  - right. exists m. do 4 eexists. split; [known|]. done.
Qed.

Lemma quiet_expireMachines h : quiet expireMachines h.
Proof.
  unfold expireMachines. quiets. apply quiet_each. intros m h' Hm Hl. eapply quiet_expire_machine; [|exact Hm].
  eapply later_elem; [exact Hl|]. known.
Qed.

Definition listing (o : nodeView * fetched) : ev := EvListed (v_agentID o.1) o.2.

Lemma fetch_lists views h :
  justified (@event) ok (fun os h' => h' = h ++ map listing os) (fetchNodeObservations views) h.
Proof.
  revert h. induction views as [|v views IH]; intros h; cbn [fetchNodeObservations].
  - unfold justified. cbn. by rewrite app_nil_r.
  - split; [intros b; exact (sound_one _ _ _ I)|]. intros o _. eapply obeys_pbind; [apply IH|]. intros os h' ->. cbn.
    by rewrite <- app_assoc.
Qed.

Lemma failed_lists_app h t node : failed_lists (h ++ t) node = (failed_lists h node + failed_lists t node)%nat.
Proof. unfold failed_lists. by rewrite filter_app, length_app. Qed.

Lemma later_failed h h' node : later h h' -> failed_lists h' node = failed_lists h node.
Proof.
  intros (t & -> & Ht). rewrite failed_lists_app. enough (failed_lists t node = 0%nat) by lia. unfold failed_lists.
  induction Ht as [|e t He _ IH]; [done|]. rewrite filter_cons_False; [done|]. by destruct e.
Qed.

(** The failures counted so far are failures in the trace. *)
Definition counted (h : list ev) (now : Failures) (rest : list (nodeView * fetched)) : Prop :=
  forall node, (default 0 (now !! node) + failed_lists (map listing rest) node <= default 0 (failures !! node) + failed_lists h node)%nat.

Lemma counted_again h now v o rest :
  list_failed (v_agentID v) (listing (v, o)) = true -> counted h now ((v, o) :: rest) ->
  counted h (failed_again (v_agentID v) now) rest.
Proof.
  intros Hf Hc node. specialize (Hc node). cbn [map] in Hc. change (listing (v, o) :: map listing rest) with ([listing (v, o)] ++ map listing rest) in Hc.
  rewrite failed_lists_app in Hc. unfold failed_again. destruct (decide (node = v_agentID v)) as [->|Hn].
  - rewrite lookup_insert_eq. cbn [default]. unfold failed_lists at 1 in Hc. rewrite filter_cons_True in Hc by done. cbn in *. lia.
  - rewrite lookup_insert_ne by done. lia.
Qed.

Lemma counted_heard h now v o rest : counted h now ((v, o) :: rest) -> counted h (delete (v_agentID v) now) rest.
Proof.
  intros Hc node. specialize (Hc node). cbn [map] in Hc. change (listing (v, o) :: map listing rest) with ([listing (v, o)] ++ map listing rest) in Hc.
  rewrite failed_lists_app in Hc. destruct (decide (node = v_agentID v)) as [->|Hn].
  - rewrite lookup_delete_eq. cbn. lia.
  - rewrite lookup_delete_ne by done. lia.
Qed.

Lemma quiet_mark_node_missing node e h :
  EvListed node (ListFailed e) ∈ h ->
  NodeMissingThreshold cfg <= Z.of_nat (default 0 (failures !! node) + failed_lists h node)%nat -> quiet (mark_node_missing node) h.
Proof.
  intros He Hn. unfold mark_node_missing. quiets. apply quiet_each. intros m h' Hm Hl. quiets. apply sound_one. left.
  exists node, a, m, e. split; [eapply later_elem; [exact Hl|]; known|]. split; [done|]. split; [done|].
  assert (Hl' : later h h') by grown. split; [by eapply later_elem|]. by rewrite (later_failed _ _ _ Hl').
Qed.

Lemma merge_keeps outcomes now copies h :
  (forall o, o ∈ outcomes -> listing o ∈ h) -> counted h now outcomes ->
  justified (@event) ok (fun r h' => later h h' /\ r.2 = foldl copies_after copies (map listing outcomes))
    (merge_outcomes cfg now copies outcomes) h.
Proof.
  revert now copies h. induction outcomes as [|[v o] rest IH]; intros now copies h Hin Hc; [by split; [apply later_refl|]|].
  assert (Hrest : forall h', later h h' -> forall o, o ∈ rest -> listing o ∈ h').
  { intros h' Hl o' Ho. eapply later_elem; [exact Hl|]. apply Hin. by apply list_elem_of_further. }
  assert (Hcount : forall h' now, later h h' -> counted h now rest -> counted h' now rest).
  { intros h' now' Hl Hn node. rewrite (later_failed _ _ _ Hl). apply Hn. }
  assert (Hhead : EvListed (v_agentID v) o ∈ h) by exact (Hin (v, o) (list_elem_of_here _ _)).
  assert (Hgo : forall (p : prog unit) now' copies', quiet p h -> counted h now' rest ->
    foldl copies_after copies' (map listing rest) = foldl copies_after copies (map listing ((v, o) :: rest)) ->
    justified (@event) ok (fun r h' => later h h' /\ r.2 = foldl copies_after copies (map listing ((v, o) :: rest)))
      (_ <~! p ; merge_outcomes cfg now' copies' rest) h).
  { intros p now' copies' Hp Hn Heq. eapply obeys_pbind; [exact Hp|]. intros [] h1 Hl1. eapply obeys_weaken; [apply IH; auto|].
    intros r h2 [Hl2 Hr]. split; [by eapply later_trans|]. by rewrite Hr. }
  destruct o as [|e|machines]; cbn [merge_outcomes].
  - apply (Hgo (Ret tt)); [apply quiet_ret| |done]. apply counted_again with NoClient; [apply String.eqb_refl|done].
  - pose proof (counted_again h now v (ListFailed e) rest (String.eqb_refl _) Hc) as Hc'.
    apply Hgo; [|done|done]. destruct (Z.ltb_spec (Z.of_nat (default O (failed_again (v_agentID v) now !! v_agentID v))) (NodeMissingThreshold cfg)); [apply quiet_ret|].
    eapply quiet_mark_node_missing; [exact Hhead|]. specialize (Hc' (v_agentID v)). lia.
  - apply Hgo; [|by eapply counted_heard|done]. apply quiet_each. intros m h' Hm Hl. apply quiet_processAgentMachine.
    exists machines. split; [by eapply later_elem|done].
Qed.

Lemma sync_sound t r : runs (@event) (syncObserved cfg failures) t r -> sound ok [] t.
Proof.
  intros Hr. refine (proj1 (justified_runs _ _ (fun _ _ => True) _ [] t r _ Hr)). unfold syncObserved.
  eapply obeys_pbind; [apply quiet_expireMachines|]. intros er h1 Hl1.
  split; [intros; by apply sound_one|]. intros views _. cbn [event].
  eapply obeys_pbind; [apply fetch_lists|]. intros outcomes h2 ->.
  set (h2 := (h1 ++ [EvViews views]) ++ map listing outcomes).
  assert (Hempty : copies_of (h1 ++ [EvViews views]) = ∅) by (apply (later_copies []); grown).
  eapply obeys_pbind; [apply merge_keeps|].
  - intros o Ho. apply elem_of_app. right. apply list_elem_of_fmap. eauto.
  - intros node. unfold h2. rewrite failed_lists_app. lia.
  - intros seen h3 [Hl3 Hseen]. split; [intros; cbn [event]; case_match; [by apply sound_one|apply sound_nil]|]. intros [rows|e] _; [|exact I].
    assert (Hcopies : copies_of (h3 ++ [EvRows rows]) = seen.2).
    { rewrite (later_copies h2) by grown. unfold h2, copies_of. rewrite foldl_app. unfold copies_of in Hempty. by rewrite Hempty. }
    eapply obeys_pbind; [eapply obeys_weaken; [apply quiet_each|]|].
    + intros m h' Hm Hl. rewrite <- Hcopies. apply quiet_processPGMachine; [|exact Hl]. exists rows. split; [|done].
      apply elem_of_app. right. apply list_elem_of_here.
    + intros. exact I.
    + intros [] h4 _. split; [intros; apply sound_nil|]. by intros.
Qed.
End justification.

Lemma sync_event cfg failures t r t1 e t2 :
  runs (@event) (syncObserved cfg failures) t r -> t = t1 ++ e :: t2 -> ok cfg failures t1 e.
Proof. intros Hr ->. pose proof (sound_event _ _ _ _ _ (sync_sound _ _ _ _ Hr)) as H. by rewrite app_nil_l in H. Qed.


(** C5. A pass creates a machine again, or restarts it, only if its row wants it
    and the copies agree: for a new create no node reported a usable copy of any of its
    executions, no operation is in flight and it has no local volume, and the generation
    is the next one unless the same execution is sent again; for a restart the copy of
    its execution is reported stopped, with an exit its policy restarts on, and attempts
    are left. *)
Theorem creates_justified cfg failures t r t1 e t2 :
  runs (@event) (syncObserved cfg failures) t r -> t = t1 ++ e :: t2 ->
  match e with
  | EvCreate p =>
      exists pg, row_read t1 pg /\ wanted pg /\ cp_MachineID p = m_id pg /\
        (forall node am, default ∅ (copies_of t1 !! m_id pg) !! node = Some am ->
           am_ExecutionId am <> CurrentExecutionID pg /\ agentStateUsable am = false) /\
        EvPending (m_id pg) (Ok false) ∈ t1 /\ EvVolume (m_id pg) (Ok false) ∈ t1 /\
        (cp_Generation p = m_Generation pg + 1 \/
         cp_Generation p = m_Generation pg /\ cp_ExecutionID p = CurrentExecutionID pg /\ CurrentExecutionID pg <> ""%string)
  | EvRestart machineID failedExecution _ _ generation =>
      exists pg node am, row_read t1 pg /\ wanted pg /\ m_id pg = machineID /\ CurrentExecutionID pg = failedExecution /\
        m_Generation pg = generation /\ reported t1 node am /\ am_MachineId am = machineID /\
        am_ExecutionId am = failedExecution /\ am_State am = MS_STOPPED /\
        restartExitClassAllows (RestartMode (restart pg)) (am_ExitCode am) = true /\
        RestartBlocked (restart pg) = false /\ RestartAttempts (restart pg) < RestartMaxAttempts (restart pg)
  | _ => True
  end.
Proof.
  intros Hr Ht. pose proof (sync_event _ _ _ _ _ _ _ Hr Ht) as H. destruct e; try exact I; exact H.
Qed.

(** An expired machine is only deleted once its route was seen detached in the
    same pass: its row is marked only after that, and its delete, with the generation of
    the row, is asked for only after the mark. And a pass takes a machine out of service
    only if its node failed to answer as often in a row as configured, or if nothing is
    left of it and its node is not healthy. *)
Theorem removals_justified cfg failures t r t1 e t2 :
  runs (@event) (syncObserved cfg failures) t r -> t = t1 ++ e :: t2 ->
  match e with
  | EvDeleted machineID _ =>
      exists rows pg, EvExpired rows ∈ t1 /\ pg ∈ rows /\ m_id pg = machineID /\
        EvDetached machineID (CurrentExecutionID pg) (Ok true) ∈ t1
  | EvDelete machineID _ _ generation _ =>
      exists rows pg, EvExpired rows ∈ t1 /\ pg ∈ rows /\ m_id pg = machineID /\ m_Generation pg = generation /\
        EvDetached machineID (CurrentExecutionID pg) (Ok true) ∈ t1 /\ EvDeleted machineID (Ok tt) ∈ t1
  | EvMissing machineID =>
      (exists node rows pg err, EvNodeRows node rows ∈ t1 /\ pg ∈ rows /\ m_id pg = machineID /\
         EvListed node (ListFailed err) ∈ t1 /\
         NodeMissingThreshold cfg <= Z.of_nat (default O (failures !! node) + failed_lists t1 node)) \/
      (exists pg views, row_read t1 pg /\ m_id pg = machineID /\ wanted pg /\ nothing_left t1 pg /\ EvViews views ∈ t1 /\
         match List.find (fun v => String.eqb (v_agentID v) (node_of pg)) views with
         | Some v => v_status v <> "HEALTHY"%string | None => True end)
  | _ => True
  end.
Proof.
  intros Hr Ht. pose proof (sync_event _ _ _ _ _ _ _ Hr Ht) as H. destruct e; try exact I; exact H.
Qed.

(** ** Retries *)

(** The delay before a failed create is sent again doubles from the base with
    every attempt and is cut at the maximum; no multiplication wraps. *)
Theorem createRetryDelay_exact cfg attempts :
  0 < CreateRetryBase cfg -> 0 < CreateRetryMax cfg < 2 ^ 63 ->
  createRetryDelay cfg attempts = Z.min (CreateRetryMax cfg) (CreateRetryBase cfg * 2 ^ (Z.max 1 attempts - 1)).
Proof.
  intros Hb Hm. unfold createRetryDelay. destruct (Z.leb_spec (CreateRetryBase cfg) 0); [lia|]. destruct (Z.leb_spec (CreateRetryMax cfg) 0); [lia|].
  cbn [orb]. replace (if attempts <? 1 then 1 else attempts) with (Z.max 1 attempts) by (destruct (Z.ltb_spec attempts 1); lia).
  assert (Hn : Z.max 1 attempts - 1 = Z.of_nat (Z.to_nat (Z.max 1 attempts - 1))) by lia. rewrite Hn at 2.
  clear Hn. generalize (Z.to_nat (Z.max 1 attempts - 1)) as n. generalize dependent (CreateRetryBase cfg). clear attempts.
  generalize dependent (CreateRetryMax cfg). intros mx Hm _ d Hd _ n. revert d Hd.
  induction n as [|n IH]; intros d Hd; cbn [retry_delay_loop].
  - rewrite Z.mul_1_r. destruct (Z.ltb_spec mx d); lia.
  - rewrite Nat2Z.inj_succ, Z.pow_succ_r by lia. pose proof (Z.pow_pos_nonneg 2 (Z.of_nat n)).
    destruct (Z.ltb_spec (Z.quot mx 2) d) as [Hlt|Hge].
    + rewrite Z.quot_div_nonneg in Hlt by lia. rewrite Z.min_l; [done|]. pose proof (Z.div_mod mx 2). pose proof (Z.mod_pos_bound mx 2). nia.
    + rewrite Z.quot_div_nonneg in Hge by lia. pose proof (Z.div_mod mx 2). pose proof (Z.mod_pos_bound mx 2).
      rewrite i64_small by lia. rewrite IH by lia. f_equal. ring.
Qed.

(** ** Requests *)

Definition with_env (env : option (gmap string string)) (s : CreateSpec) : CreateSpec :=
  mkCreateSpec (cs_spec s) (cs_ReplicaOrdinal s) (cs_Hostname s) env (cs_Services s) (cs_Placement s) (cs_HealthCheck s) (cs_AutoStandby s).

(** The shape of a row stays that of its first create. *)
Lemma first_shape now (p : CreateMachineParams) allow (db db1 : DB) op P (db2 : DB) m :
  keyed db -> machines db !! cp_MachineID p = None ->
  selectOperationByKey db (cp_ProjectID p) (cp_OperationID p) = None ->
  ensureAppAndEnqueueCreate Done now p allow db = (db1, Ok op) -> steps P db1 db2 -> machines db2 !! cp_MachineID p = Some m ->
  shape m = shape (new_machine now p).
Proof.
  intros Hk Hnone Hsel Hc Hs Hm. destruct (first_create _ _ _ _ _ _ Hc Hsel) as (_ & _ & _ & _ & _ & _ & m1 & Hm1 & _ & _ & _ & Hnew).
  rewrite Hnone in Hnew. subst m1.
  assert (Hk1 : keyed db1).
  { change db1 with (db1, @Ok Operation op).1. rewrite <- Hc.
    destruct allow; [apply (ds_keyed Resurrect db)|apply (ds_keyed Plain db)]; (apply step_db_step; [done|constructor]). }
  destruct (later_machine _ _ _ _ _ Hk1 Hs Hm1) as (m' & Hm' & Hsh & _). congruence.
Qed.

Lemma egress_of_decoded lower dep e : egress_of codec lower dep = Ok e -> decoded codec (dec_egress codec) (dp_EgressPolicy dep) = e.
Proof.
  unfold egress_of, decoded. destruct (AppCommand.present codec (dp_EgressPolicy dep)) as [j|]; [|by intros [= <-]].
  destruct (dec_egress codec j) as [ep|]; [|done]. cbn. destruct (res_map_err _ _); [|done]. by intros [= <-].
Qed.

(** A machine that was first created from a deployment is created again with
    the request of its first create except for the environment: the row never holds one,
    so the new request has none, whatever the deployment says. A restart's request also
    lacks the health check and the egress policy. *)
Theorem recreated_requests lower now app dep ordinal machineID exec0 opID raw placement db db1 op P db2 m project exec spec :
  keyed db -> machines db !! machineID = None -> selectOperationByKey db (a_ProjectID app) opID = None ->
  EnsureAppAndEnqueueCreateResurrect Done now (app_create_params app dep ordinal machineID exec0 opID raw placement) db = (db1, Ok op) ->
  steps P db1 db2 -> machines db2 !! machineID = Some m ->
  ReplicaOrdinal m = ordinal -> IngressPort m = dp_Port dep ->
  stored_placement m = decoded codec (dec_placement codec) (dp_Placement dep) ->
  create_spec codec lower app dep ordinal exec = Ok spec -> project = a_ProjectID app ->
  recreate_spec m (Ok (Some dep)) project exec = with_env (Some ∅) spec /\
  cs_HealthCheck (restart_spec m dep project exec) = None /\ cs_Env (restart_spec m dep project exec) = Some ∅ /\
  exists ingress, Network (cs_spec (restart_spec m dep project exec)) = Some (mkNetwork ingress None None).
Proof.
  intros Hk Hnone Hsel Hc Hs Hm <- Hport Hpl Hspec ->.
  pose proof (first_shape now (without_lifecycle (app_create_params app dep (ReplicaOrdinal m) machineID exec0 opID raw placement))
                true db db1 op P db2 m Hk Hnone Hsel Hc Hs Hm) as Hshape.
  unfold create_spec, spec_services in Hspec. unfold recreate_spec, restart_spec. rewrite Hport.
  destruct (spec_extras dep (u64 (dp_Port dep))) as [services ingress].
  destruct (egress_of codec lower dep) as [e|] eqn:He; [|done]. cbn in Hspec. injection Hspec as <-.
  rewrite (egress_of_decoded _ _ _ He). unfold row_spec, with_env. rewrite Hpl, Hshape. cbn. split; [done|]. by eauto.
Qed.

(** ** A row that could not be read *)

Definition orphan_op (am : AgentMachine) (v : nodeView) : string :=
  ("op-orphan-" +:+ am_MachineId am +:+ "-" +:+ am_ExecutionId am +:+ "-" +:+ v_agentID v)%string.

Lemma reap_enqueued now project machineID executionID opID gen raw (db : DB) :
  operations db !! opID = None -> project ∈ projects db ->
  Operations.EnqueueReapDelete Done now project machineID executionID opID gen (Some raw) db =
    (with_operations <[opID := mkOp opID project machineID executionID gen "reap" raw now PENDING "" None "" 0 None None now]> db,
     Ok (mkOp opID project machineID executionID gen "reap" raw now PENDING "" None "" 0 None None now)).
Proof.
  intros Hn Hp. unfold Operations.EnqueueReapDelete, enqueueDeleteKind. apply inTx_done.
  unfold enqueueOperationIdempotentTx, selectOperationByKey, cmd_bind, cmd_read, insert_operation. cbn. rewrite Hn. cbn.
  rewrite (bool_decide_eq_true_2 (project ∈ projects db)) by done. cbn. unfold inserted, selectOperationByKey. cbn.
  rewrite lookup_insert_eq. cbn. rewrite String.eqb_refl. unfold jsonEqual. cbn. by rewrite bool_decide_eq_true_2.
Qed.

(** One failed read of a machine's row makes the pass take its copy for an orphan:
    although the row wants the machine and holds exactly this execution, a reap of it is
    left behind, pinned to the node that runs it. (The code tests [err != nil || pg == nil].) *)
Theorem read_error_reaps_live env i am v pg db err raw :
  machines db !! am_MachineId am = Some pg -> CurrentExecutionID pg = am_ExecutionId am -> wanted pg -> am_State am = MS_RUNNING ->
  outcome env i = FailedBefore err -> (forall j, j <> i -> outcome env j = Done) -> (forall j d, others env j d = d) ->
  Operations.HasPendingOperationForMachine db (am_MachineId am) = false -> operations db !! orphan_op am v = None ->
  project_of_spec am ∈ projects db -> 0 < am_Generation am < 2 ^ 63 -> v_agentID v <> ""%string ->
  enc_fenced (mkFenced (am_MachineId am) (am_ExecutionId am) (am_Generation am) (orphan_op am v)) = Ok raw ->
  exists op, operations (exec env (processAgentMachine am v) i db).1.1 !! orphan_op am v = Some op /\
    o_Kind op = "reap"%string /\ o_Status op = PENDING /\ o_MachineID op = am_MachineId am /\
    o_ExecutionID op = CurrentExecutionID pg /\ o_Generation op = am_Generation am /\ o_DispatchNodeID op = v_agentID v /\ o_Request op = raw.
Proof.
  intros Hpg He Hw Hrun Hblip Hdone Hcalm Hpend Hnew Hproj Hgen Hnode Henc.
  unfold exec, processAgentMachine. cbn [run perform]. rewrite !Hcalm, Hblip. cbn [read].
  cbn [run perform]. rewrite Hcalm, Hdone by lia. cbn [read]. rewrite Hpend.
  unfold enqueueOrphanDelete, reap_at. rewrite (proj2 (Z.eqb_neq (am_Generation am) 0)) by lia. cbn [negb].
  rewrite (proj2 (Z.eqb_neq (am_Generation am) 0)) by lia. rewrite i64_small, u64_small by lia.
  fold (orphan_op am v). rewrite Henc. cbn [pbind run perform]. rewrite Hcalm, Hdone by lia.
  rewrite reap_enqueued by done. cbn [o_Status in_flight]. rewrite (proj2 (String.eqb_neq _ _) Hnode). cbn [pbind run perform].
  rewrite Hcalm, Hdone by lia. unfold Operations.UpdateOperationDispatchNode, update_op, cmd_exec. cbn.
  rewrite lookup_alter_eq, lookup_insert_eq. cbn. eexists. split; [reflexivity|]. cbn. by rewrite He.
Qed.
End observed.

(** ** Witnesses *)

Module Witness.
Import Operations.Witness.
Local Open Scope string_scope.

(** Documents are numbers: 1 a policy, 2 a health check, 0 none; 20 and 21 requests. *)
Definition bad {A} : res A := Err (errors_New "proto: syntax error").
Definition egress1 : EgressPolicySpec := mkEgressPolicySpec ALLOWLIST ["10.1.0.0/16"] [] ["api.example.com"] 64 1 true.
Definition health1 : HealthCheckSpec := mkHealthSpec 1 "/healthz" 5 1 3.
Definition codec1 : Codec nat :=
  mkCodec nat (Nat.eqb 0) (fun _ => Ok 1%nat) (fun n => if Nat.eqb n 1 then Ok egress1 else bad)
    (fun _ => bad) (fun _ => bad) (fun _ => Ok 2%nat) (fun n => if Nat.eqb n 2 then Ok health1 else bad) (fun _ => bad) (fun _ => bad).
Definition encf1 (f : Fenced) : res nat := Ok 20%nat.
Definition encc1 (m : CreateMessage) : res nat := Ok 21%nat.
Definition minute1 (now : Z) : string := "0601021504".
Definition cfg1 : Config := mkConfig (seconds 30) (seconds 10) (seconds 300) 8 (seconds 60) 3.

Definition copy1 (state : MachineState) : AgentMachine :=
  mkAgentMachine "m1" "exec-1" state (Some "proj") "10.0.0.2" READY 1 (Some 1%Z) SECRET_NONE 0.

(** Two healthy nodes, which report [at1] and [at2]; everything else works. *)
Definition views1 : list nodeView := [mkView "n1" "nomad1" "HEALTHY"; mkView "n2" "nomad2" "HEALTHY"].
Definition answer1 (at1 at2 : list AgentMachine) (B : Type) (_ : nat) (c : eff (json:=nat) B) : B :=
  match c in eff B return B with
  | GetMachine _ => Ok None | ListMachines => Ok [] | ListMachinesOnNode _ => Ok [] | ListExpiredMachines _ => Ok []
  | ExpiredRouteDetached _ _ => Ok false | HasPendingOperationForMachine _ => Ok false
  | PendingOperationForMachine _ => Ok None | GetLatestOperationForMachine _ => Ok None | FailedCreateAttempts _ => Ok 0%Z
  | LatestCreateDispatchNode _ _ => Ok "" | SecretLeaseForExecution _ _ => Err ErrSecretLeaseNotFound | ProjectForApp _ => Ok ""
  | GetDeployment _ => Ok None | RestartAttemptNumber _ _ _ => Ok 0%Z
  | EnqueueReapDelete _ _ _ _ _ _ => bad | EnqueueDelete _ _ _ _ _ _ => bad | EnsureAppAndEnqueueCreate _ => bad
  | EnqueueRestartCAS _ _ _ _ _ _ _ _ => bad | UpdateOperationDispatchNode _ _ => Ok tt | CompleteOperation _ _ _ => Ok tt
  | UpdateMachineObserved _ _ _ _ _ => Ok tt | MarkMachineObservedMissing _ => Ok tt | MarkMachineDeleted _ => Ok tt
  | MarkExpiredRouteDetached _ => Ok tt | MarkSecretLeaseAcked _ => Ok tt | SetRestartStableSince _ _ => Ok tt
  | ResetRestartAttempts _ => Ok tt | BlockRestart _ _ => Ok tt | PrepareRestartBackoff _ _ _ _ => Ok false
  | ListAgent v => Listed (if String.eqb (v_agentID v) "n1" then at1 else at2)
  | NodeViews => views1 | ListNodes => Ok [] | ActiveRolloutForApp _ => Ok None | MachineHasLocalRWAttachment _ => Ok false
  | RecordEgressAudit _ _ => Ok tt | Release _ => tt | BuildRoutes => Ok tt | Now => 0%Z | NewUUID => "uuid-1"
  end.
Definition env1 (now : Z) (at1 at2 : list AgentMachine) : Env (json:=nat) :=
  mkEnv (fun _ => Done) (fun _ => now) (fun _ => now) (fun _ db => db) (answer1 at1 at2).

Definition pass (now : Z) (at1 at2 : list AgentMachine) (db : DB (json:=nat)) :=
  exec (env1 now at1 at2) (syncObserved codec1 encf1 encc1 (Nat.eqb 0) minute1 cfg1 ∅) 0 db.

Lemma pass_runs now at1 at2 db db' r t :
  pass now at1 at2 db = (db', r, t) -> runs (@event nat) (syncObserved codec1 encf1 encc1 (Nat.eqb 0) minute1 cfg1 ∅) t r.
Proof.
  intros H. pose proof (run_runs (@event nat) (fun j B c db => perform (env1 now at1 at2) j c db)
    (syncObserved codec1 encf1 encc1 (Nat.eqb 0) minute1 cfg1 ∅) 0 db) as Hr.
  unfold pass, exec in H. cbn [others env1] in H. by rewrite H in Hr.
Qed.

Definition is_create (e : ev (json:=nat)) : bool := match e with EvCreate _ => true | _ => false end.
Definition is_ttl (e : ev (json:=nat)) : bool := match e with EvDelete _ _ _ _ _ => true | _ => false end.
Fixpoint before (p : ev (json:=nat) -> bool) (t : list (ev (json:=nat))) : list (ev (json:=nat)) :=
  match t with [] => [] | e :: t => if p e then [] else e :: before p t end.

Lemma before_split p t e : List.find p t = Some e -> exists t2, t = (before p t ++ e :: t2)%list.
Proof.
  induction t as [|e' t IH]; [done|]. cbn. destruct (p e'); [intros [= ->]; by exists t|]. intros H.
  destruct (IH H) as [t2 H2]. exists t2. cbn. by f_equal.
Qed.

Lemma pass_split now at1 at2 db p e :
  List.find p (pass now at1 at2 db).2 = Some e ->
  exists r t t2, runs (@event nat) (syncObserved codec1 encf1 encc1 (Nat.eqb 0) minute1 cfg1 ∅) t r /\
    t = (before p (pass now at1 at2 db).2 ++ e :: t2)%list.
Proof.
  intros H. destruct (pass now at1 at2 db) as [[db' r] t] eqn:Hp. apply before_split in H as [t2 H].
  exists r, t, t2. split; [by eapply pass_runs|done].
Qed.



(** No node has the machine, long after its create: it is created again, one generation later. *)
Definition lost := pass (seconds 600) [] [] db4.

Lemma creates_justified_witness :
  exists p, List.find is_create lost.2 = Some (EvCreate p) /\ cp_MachineID p = "m1" /\ cp_Generation p = 2%Z /\
    cp_ExecutionID p = "exec-uuid-1" /\ EvPending "m1" (Ok false) ∈ before is_create lost.2.
Proof.
  assert (Hf : exists p, List.find is_create lost.2 = Some (EvCreate p) /\ cp_MachineID p = "m1" /\ cp_Generation p = 2%Z /\
    cp_ExecutionID p = "exec-uuid-1") by (eexists; split; [vm_compute; reflexivity|split; [|split]; reflexivity]).
  destruct Hf as (p & Hf & Hid & Hgen & Hexec). exists p. repeat (split; [assumption|]).
  destruct (pass_split _ _ _ _ _ _ Hf) as (r & t & t2 & Hr & Ht).
  destruct (creates_justified codec1 encf1 encc1 (Nat.eqb 0) minute1 cfg1 ∅ t r _ _ t2 Hr Ht) as (pg & _ & _ & Hm & _ & Hp & _).
  by rewrite <- Hm, Hid in Hp.
Defined.

(** Expired, and its route gone since an earlier pass. *)
Definition expired : DB (json:=nat) :=
  (Operations.MarkExpiredRouteDetached Done (seconds 500) "m1" (SetMachineExpiry Done false (seconds 100) "m1" (Some (seconds 400)) db4).1).1.
Definition ttl := pass (seconds 600) [copy1 MS_RUNNING] [] expired.

Lemma removals_justified_witness :
  exists op, List.find is_ttl ttl.2 = Some (EvDelete "m1" "exec-1" "op-ttl-m1-exec-1" 1 (Ok op)) /\
    EvDeleted "m1" (Ok tt) ∈ before is_ttl ttl.2.
Proof.
  assert (Hf : exists op, List.find is_ttl ttl.2 = Some (EvDelete "m1" "exec-1" "op-ttl-m1-exec-1" 1 (Ok op)))
    by (eexists; vm_compute; reflexivity).
  destruct Hf as [op Hf]. exists op. split; [exact Hf|]. destruct (pass_split _ _ _ _ _ _ Hf) as (r & t & t2 & Hr & Ht).
  destruct (removals_justified codec1 encf1 encc1 (Nat.eqb 0) minute1 cfg1 ∅ t r _ _ t2 Hr Ht) as (rows & pg & _ & _ & _ & _ & _ & Hd).
  exact Hd.
Defined.

(** The fourth failure in a row waits 80 s, the tenth five minutes. *)
Lemma createRetryDelay_exact_witness :
  createRetryDelay cfg1 4 = seconds 80 /\ createRetryDelay cfg1 10 = seconds 300.
Proof. split; (rewrite (createRetryDelay_exact cfg1); [reflexivity|reflexivity|split; reflexivity]). Defined.

(** An application whose deployment has an environment, a health check and a policy. *)
Definition app1 : App := mkApp "app" "proj" "app.example" 1 1 false.
Definition dep1 : Dep (json:=nat) :=
  mkDep "dep1" "app" 1 "img@sha256:1" 1 512 8080 (Some {["KEY" := "value"]}) None None (Some 2%nat) "ACTIVE" None [] "bluegreen" []
    (Some 1%nat).
Definition created1 := EnsureAppAndEnqueueCreateResurrect Done 100 (app_create_params app1 dep1 0 "app-r0-g1" "exec-1" "op-1" 21%nat 0%nat) db0.
Definition row1 : Machine (json:=nat) := new_machine 100 (without_lifecycle (app_create_params app1 dep1 0 "app-r0-g1" "exec-1" "op-1" 21%nat 0%nat)).
Definition create_op1 : Operation (json:=nat) :=
  mkOp "op-1" "proj" "app-r0-g1" "exec-1" 1 "create" 21%nat 100 PENDING "" None "" 0 None None 100.

Definition spec1 : CreateSpec :=
  mkCreateSpec (mkMachineSpec "proj" "app" "dep1" "exec-2" "img@sha256:1" 1 512 None [] (Some (mkNetwork 8080 (Some egress1) None)))
    0 "app.example" (Some {["KEY" := "value"]}) [] None (Some health1) None.

Lemma recreated_requests_witness :
  create_spec codec1 AppCommand.Witness.same app1 dep1 0 "exec-2" = Ok spec1 /\
  recreate_spec codec1 (Nat.eqb 0) row1 (Ok (Some dep1)) "proj" "exec-2" = with_env (Some ∅) spec1 /\
  cs_HealthCheck (restart_spec codec1 (Nat.eqb 0) row1 dep1 "proj" "exec-2") = None.
Proof.
  assert (Hs : create_spec codec1 AppCommand.Witness.same app1 dep1 0 "exec-2" = Ok spec1) by (vm_compute; reflexivity).
  destruct (recreated_requests codec1 (Nat.eqb 0) AppCommand.Witness.same 100 app1 dep1 0 "app-r0-g1" "exec-1" "op-1" 21%nat 0%nat
    db0 created1.1 create_op1 no_purge created1.1 row1 "proj" "exec-2" spec1) as (H1 & H2 & _);
    [exact op_keyed0|reflexivity|reflexivity|vm_compute; reflexivity|constructor|vm_compute; reflexivity|reflexivity..|exact Hs|reflexivity|].
  split; [exact Hs|]. split; [exact H1|exact H2].
Defined.

(** The read of the row fails once, the machine runs; the reap is then dispatched to its node. *)
Definition env_blip : Env (json:=nat) :=
  mkEnv (fun i => if Nat.eqb i 0 then FailedBefore (errors_New "connection reset") else Done) (fun _ => seconds 600)
    (fun _ => seconds 600) (fun _ db => db) (answer1 [] []).
Definition view1 : nodeView := mkView "n1" "nomad1" "HEALTHY".
Definition after_blip := (exec env_blip (processAgentMachine encf1 minute1 (copy1 MS_RUNNING) view1) 0 db4).1.1.

Lemma read_error_reaps_live_witness :
  exists op, operations after_blip !! "op-orphan-m1-exec-1-n1" = Some op /\ o_Kind op = "reap" /\ o_ExecutionID op = "exec-1" /\
    o_DispatchNodeID op = "n1".
Proof.
  assert (Hrow : exists pg, machines db4 !! "m1" = Some pg /\ CurrentExecutionID pg = "exec-1" /\ DesiredState pg = "CREATED")
    by (eexists; split; [vm_compute; reflexivity|split; reflexivity]).
  destruct Hrow as (pg & Hpg & He & Hd).
  destruct (read_error_reaps_live encf1 minute1 env_blip 0 (copy1 MS_RUNNING) view1 pg db4 (errors_New "connection reset") 20%nat)
    as (op & Hop & Hk & _ & _ & Hx & _ & Hn & _);
    [exact Hpg|exact He|left; exact Hd|reflexivity|reflexivity| |reflexivity|vm_compute; reflexivity|vm_compute; reflexivity
    |vm_compute; reflexivity|split; reflexivity|discriminate|reflexivity|].
  - intros [|j] Hj; [destruct (Hj eq_refl)|reflexivity].
  - exists op. split; [exact Hop|]. split; [exact Hk|]. split; [rewrite Hx; exact He|exact Hn].
Defined.

Definition decf1 (n : nat) : res Fenced := Ok (mkFenced "m1" "exec-1" 1 "op-orphan-m1-exec-1-n1").
Example blip_deletes_live :
  exists op t, operations after_blip !! "op-orphan-m1-exec-1-n1" = Some op /\
    (Dispatch.exec Dispatch.Witness.env1
       (processOperation Dispatch.Witness.dec1 decf1 Dispatch.Witness.encf1 Dispatch.Witness.encm1 0%nat
          Dispatch.Witness.hash1 Dispatch.Witness.text1 Dispatch.Witness.cfg1 op) 0 after_blip).2 = t /\
    Dispatch.EvDelete "nomad1" (mkFenced "m1" "exec-1" 1 "op-orphan-m1-exec-1-n1") (inl tt) ∈ t.
Proof. eexists _, _. split; [vm_compute; reflexivity|]. split; [reflexivity|]. vm_compute. event_in. Qed.
End Witness.
