(* ===== verification/Lru.v ===== *)
(** * The bounded caches of the edge (edge/lru.go)

    [lruCache]: a map from keys to the elements of a list, most recently used first.
    What the caches built on it rely on is the class [Lru]: the operations and their
    meaning on the list of entries. The map-and-list implementation is an instance. *)
From S2P Require Import Prelude GoString.

(** ** What a cache promises *)

Section entries.
Context {V : Type}.
Abbreviation entries_t := (list (string * V)).

Definition assoc (key : string) (l : entries_t) : option V :=
  snd <$> List.find (fun e => String.eqb e.1 key) l.
Definition without (key : string) (l : entries_t) : entries_t := List.filter (fun e => negb (String.eqb e.1 key)) l.

Definition touched (key : string) (l : entries_t) : entries_t :=
  match assoc key l with Some v => (key, v) :: without key l | None => l end.
Definition stored (key : string) (v : V) (l : entries_t) : entries_t := (key, v) :: without key l.
Definition written (key : string) (v : V) (l : entries_t) : entries_t :=
  map (fun e => if String.eqb e.1 key then (key, v) else e) l.
(** A bound that is not positive counts as 1. *)
Definition bound (max : Z) : nat := if (max <=? 0)%Z then 1 else Z.to_nat max.
Definition cut (max : Z) (l : entries_t) : entries_t := take (bound max) l.
Definition without_prefix (prefix : string) (l : entries_t) : entries_t :=
  List.filter (fun e => negb (has_prefix e.1 prefix)) l.
End entries.

(** The operations, and what each does to the entries. [write] stores through the
    pointer a cache of pointers gave out; [range_keys] is the order a range over the map
    takes, any order. *)
Class LruOps (C : Type -> Type) := {
  newLRUCache : forall V, C V;
  get : forall {V}, C V -> string -> option V;
  touch : forall {V}, C V -> string -> C V;
  set : forall {V}, C V -> string -> V -> C V;
  write : forall {V}, C V -> string -> V -> C V;
  evict : forall {V}, C V -> Z -> C V;
  delete_key : forall {V}, C V -> string -> C V;
  deletePrefix : forall {V}, C V -> string -> C V;
  len : forall {V}, C V -> nat;
  range_keys : forall {V}, C V -> list string;
  holds : forall {V}, C V -> list (string * V) -> Prop }.

Class Lru (C : Type -> Type) `{LruOps C} := {
  holds_nodup {V} (c : C V) l : holds c l -> NoDup l.*1;
  holds_new V : holds (newLRUCache V) [];
  holds_get {V} (c : C V) l key : holds c l -> get c key = assoc key l;
  holds_touch {V} (c : C V) l key : holds c l -> holds (touch c key) (touched key l);
  holds_set {V} (c : C V) l key v : holds c l -> holds (set c key v) (stored key v l);
  holds_write {V} (c : C V) l key v : holds c l -> holds (write c key v) (written key v l);
  holds_evict {V} (c : C V) l max : holds c l -> holds (evict c max) (cut max l);
  holds_delete {V} (c : C V) l key : holds c l -> holds (delete_key c key) (without key l);
  holds_deletePrefix {V} (c : C V) l prefix : holds c l -> holds (deletePrefix c prefix) (without_prefix prefix l);
  holds_len {V} (c : C V) l : holds c l -> len c = length l;
  holds_range {V} (c : C V) l : holds c l -> range_keys c ≡ₚ l.*1 }.

(** *** Entries *)

Section entry_lemmas.
Context {V : Type}.
Implicit Types l : list (string * V).

Lemma assoc_Some key v l : assoc key l = Some v -> (key, v) ∈ l.
Proof.
  unfold assoc. destruct (List.find _ l) as [[k w]|] eqn:E; [|done]. intros [= ->].
  apply List.find_some in E as [Hin Hk]. apply String.eqb_eq in Hk. cbn in Hk. subst. by apply list_elem_of_In.
Qed.

Lemma assoc_elem key v l : NoDup l.*1 -> (key, v) ∈ l -> assoc key l = Some v.
Proof.
  unfold assoc. induction l as [|[k w] l IH]; intros Hnd Hin; [by apply not_elem_of_nil in Hin|]. cbn in *.
  apply NoDup_cons in Hnd as [Hk Hnd]. destruct (String.eqb_spec k key) as [->|Hne].
  - apply elem_of_cons in Hin as [[= ->]|Hin]; [done|]. exfalso. apply Hk. apply list_elem_of_fmap. by exists (key, v).
  - apply elem_of_cons in Hin as [[= -> ->]|Hin]; [done|]. by apply IH.
Qed.

Lemma assoc_None key l : assoc key l = None <-> key ∉ l.*1.
Proof.
  split.
  - intros H Hin. apply list_elem_of_fmap in Hin as ([k v] & -> & Hin). unfold assoc in H.
    destruct (List.find _ l) eqn:E; [done|]. pose proof (List.find_none _ _ E (k, v)) as Hf.
    cbn in Hf. rewrite String.eqb_refl in Hf. apply list_elem_of_In in Hin. by specialize (Hf Hin).
  - intros H. destruct (assoc key l) as [v|] eqn:E; [|done]. exfalso. apply H.
    apply list_elem_of_fmap. exists (key, v). split; [done|by apply assoc_Some].
Qed.

Lemma elem_of_without key l e : e ∈ without key l <-> e ∈ l /\ e.1 <> key.
Proof. unfold without. rewrite !list_elem_of_In, List.filter_In, negb_true_iff, String.eqb_neq. done. Qed.
Lemma elem_of_without_prefix p l e : e ∈ without_prefix p l <-> e ∈ l /\ has_prefix e.1 p = false.
Proof. unfold without_prefix. rewrite !list_elem_of_In, List.filter_In, negb_true_iff. done. Qed.

Lemma NoDup_filter_keys f l : NoDup l.*1 -> NoDup (List.filter f l).*1.
Proof.
  induction l as [|e l IH]; cbn; [done|]. intros [Hn Hnd]%NoDup_cons. destruct (f e); cbn; [|by apply IH].
  apply NoDup_cons. split; [|by apply IH]. intros Hin. apply Hn. apply list_elem_of_fmap in Hin as (e' & -> & Hin).
  apply list_elem_of_fmap. exists e'. split; [done|]. apply list_elem_of_In in Hin. apply List.filter_In in Hin as [? _]. by apply list_elem_of_In.
Qed.

Lemma without_keys key l : key ∉ (without key l).*1.
Proof. intros Hin. apply list_elem_of_fmap in Hin as (e & -> & Hin). by apply elem_of_without in Hin as [_ ?]. Qed.

Lemma without_absent key l : assoc key l = None -> without key l = l.
Proof.
  intros Ha%assoc_None. unfold without. induction l as [|e l IH]; [done|]. cbn in *. apply not_elem_of_cons in Ha as [Hne Ha].
  rewrite (proj2 (String.eqb_neq _ _)) by done. cbn. by rewrite IH.
Qed.

Lemma written_absent key v l : assoc key l = None -> written key v l = l.
Proof.
  intros Ha%assoc_None. unfold written. induction l as [|e l IH]; [done|]. cbn in *. apply not_elem_of_cons in Ha as [Hne Ha].
  rewrite (proj2 (String.eqb_neq _ _)) by done. by rewrite IH.
Qed.

Lemma assoc_stored key v l key' : NoDup l.*1 -> assoc key' (stored key v l) = if String.eqb key key' then Some v else assoc key' l.
Proof.
  intros Hnd. unfold assoc, stored. cbn. destruct (String.eqb_spec key key') as [->|Hne]; [done|]. f_equal.
  clear Hnd. induction l as [|e l IH]; [done|]. cbn. destruct (String.eqb_spec e.1 key) as [E|E]; cbn.
  - destruct (String.eqb_spec e.1 key'); [congruence|done].
  - by destruct (String.eqb e.1 key').
Qed.

Lemma assoc_without key l key' : assoc key' (without key l) = if String.eqb key key' then None else assoc key' l.
Proof.
  destruct (String.eqb_spec key key') as [->|Hne].
  - apply assoc_None, without_keys.
  - unfold assoc. f_equal. induction l as [|e l IH]; [done|]. cbn. destruct (String.eqb_spec e.1 key) as [E|E]; cbn.
    + destruct (String.eqb_spec e.1 key'); [congruence|done].
    + by destruct (String.eqb e.1 key').
Qed.

Lemma assoc_touched key l key' : NoDup l.*1 -> assoc key' (touched key l) = assoc key' l.
Proof.
  intros Hnd. unfold touched. destruct (assoc key l) as [v|] eqn:E; [|done].
  change (assoc key' (stored key v l) = assoc key' l). rewrite assoc_stored by done.
  destruct (String.eqb_spec key key') as [->|]; [by rewrite E|done].
Qed.

(** A cut only forgets. *)
Lemma assoc_cut max l key v : NoDup l.*1 -> assoc key (cut max l) = Some v -> assoc key l = Some v.
Proof.
  intros Hnd Ha. apply assoc_Some in Ha. apply assoc_elem; [done|]. unfold cut in Ha. rewrite <- (take_drop (bound max) l).
  apply elem_of_app. by left.
Qed.

Lemma cut_length max l : (length (cut max l) <= bound max)%nat.
Proof. unfold cut. rewrite length_take. lia. Qed.

(** What was stored last is not cut. *)
Lemma assoc_cut_stored max key v l : assoc key (cut max (stored key v l)) = Some v.
Proof.
  unfold cut, stored, bound, assoc. destruct (Z.leb_spec max 0); cbn; [by rewrite String.eqb_refl|].
  destruct (Z.to_nat max) eqn:E; [lia|]. cbn. by rewrite String.eqb_refl.
Qed.

Lemma without_ne_assoc key l key' : key <> key' -> assoc key' (without key l) = assoc key' l.
Proof. intros Hne. rewrite assoc_without. by rewrite (proj2 (String.eqb_neq _ _)). Qed.

Lemma written_assoc key v l key' : assoc key' (written key v l) =
  if String.eqb key key' then (match assoc key l with Some _ => Some v | None => None end) else assoc key' l.
Proof.
  unfold assoc, written. induction l as [|e l IH]; cbn; [by destruct (String.eqb key key')|].
  destruct (String.eqb e.1 key) eqn:E1; cbn.
  - apply String.eqb_eq in E1. destruct (String.eqb key key') eqn:E2; [done|]. rewrite IH, E1, E2. done.
  - destruct (String.eqb e.1 key') eqn:E2; [|exact IH]. apply String.eqb_eq in E2. subst key'.
    by rewrite String.eqb_sym, E1.
Qed.

Lemma written_keys key v l : (written key v l).*1 = l.*1.
Proof. unfold written. induction l as [|e l IH]; [done|]. cbn. rewrite IH. destruct (String.eqb_spec e.1 key) as [<-|]; done. Qed.

Lemma elem_of_keys l key : key ∈ l.*1 <-> is_Some (assoc key l).
Proof.
  destruct (assoc key l) as [v|] eqn:E.
  - split; [by eexists|]. intros _. apply assoc_Some in E. apply list_elem_of_fmap. by exists (key, v).
  - apply assoc_None in E. split; [done|]. by intros [? [=]].
Qed.

Lemma length_without key l : (length (without key l) <= length l)%nat.
Proof. apply List.filter_length_le. Qed.

Lemma length_touched key l : (length (touched key l) <= length l)%nat.
Proof.
  unfold touched. destruct (assoc key l) as [v|] eqn:E; [|done]. cbn. apply assoc_Some in E. unfold without.
  induction l as [|e l IH]; [by apply not_elem_of_nil in E|]. cbn. apply elem_of_cons in E as [<-|Hin].
  - cbn. rewrite String.eqb_refl. cbn. pose proof (length_without key l). unfold without in *. lia.
  - specialize (IH Hin). destruct (negb _); cbn; lia.
Qed.

(** A property of every entry. *)
Lemma Forall_without (P : string * V -> Prop) key l : Forall P l -> Forall P (without key l).
Proof. rewrite !Forall_forall. intros H e [He _]%elem_of_without. auto. Qed.
Lemma Forall_without_prefix (P : string * V -> Prop) p l : Forall P l -> Forall P (without_prefix p l).
Proof. rewrite !Forall_forall. intros H e [He _]%elem_of_without_prefix. auto. Qed.
Lemma Forall_stored (P : string * V -> Prop) key v l : P (key, v) -> Forall P l -> Forall P (stored key v l).
Proof. intros Hv Hl. constructor; [done|by apply Forall_without]. Qed.
Lemma Forall_touched (P : string * V -> Prop) key l : Forall P l -> Forall P (touched key l).
Proof.
  intros H. unfold touched. destruct (assoc key l) as [v|] eqn:E; [|done]. apply Forall_stored; [|done].
  apply assoc_Some in E. rewrite Forall_forall in H. auto.
Qed.
Lemma Forall_cut (P : string * V -> Prop) max l : Forall P l -> Forall P (cut max l).
Proof. apply Forall_take. Qed.
Lemma assoc_Forall (P : string * V -> Prop) key v l : Forall P l -> assoc key l = Some v -> P (key, v).
Proof. rewrite Forall_forall. intros H E. apply H. by apply assoc_Some. Qed.
End entry_lemmas.

#[export] Hint Resolve Forall_without Forall_without_prefix Forall_stored Forall_touched Forall_cut : firepaas.

(** ** The implementation *)

(** An element of the list is the number it was made with; [order] is the list, [cells]
    what the elements hold, [entries] the map of the cache. *)
Record lruCache (V : Type) := mkLru {
  entries : gmap string nat; order : list nat; cells : gmap nat (string * V); made : nat }.
Arguments mkLru {V}.
Arguments entries {V}.
Arguments order {V}.
Arguments cells {V}.
Arguments made {V}.

Section lru.
Context {V : Type}.
Implicit Types (c : lruCache V) (l : list (string * V)).

Definition lru_get c (key : string) : option V := el ← entries c !! key; snd <$> cells c !! el.

Definition without_el (el : nat) (els : list nat) : list nat := List.filter (fun x => negb (Nat.eqb x el)) els.
Definition MoveToFront c (el : nat) : lruCache V := mkLru (entries c) (el :: without_el el (order c)) (cells c) (made c).
Definition Remove c (el : nat) : lruCache V := mkLru (entries c) (without_el el (order c)) (delete el (cells c)) (made c).

Definition lru_touch c (key : string) : lruCache V :=
  match entries c !! key with Some el => MoveToFront c el | None => c end.

Definition lru_write c (key : string) (v : V) : lruCache V :=
  match entries c !! key with
  | Some el => mkLru (entries c) (order c) (<[el := (key, v)]> (cells c)) (made c)
  | None => c
  end.

Definition lru_set c (key : string) (v : V) : lruCache V :=
  match entries c !! key with
  | Some el => MoveToFront (lru_write c key v) el
  | None => mkLru (<[key := made c]> (entries c)) (made c :: order c) (<[made c := (key, v)]> (cells c)) (S (made c))
  end.

Definition drop_entry c (key : string) : lruCache V := mkLru (delete key (entries c)) (order c) (cells c) (made c).

(** One round of the loop of evict. *)
Definition evict_back c : lruCache V :=
  match last (order c) with
  | Some back => match cells c !! back with
                 | Some (key, _) => Remove (drop_entry c key) back
                 | None => c
                 end
  | None => c
  end.
Fixpoint evict_loop (fuel : nat) c (max : nat) : lruCache V :=
  match fuel with
  | O => c
  | S fuel => if Nat.ltb max (length (order c)) then evict_loop fuel (evict_back c) max else c
  end.
Definition lru_evict c (max : Z) : lruCache V := evict_loop (length (order c)) c (bound max).

Definition lru_delete c (key : string) : lruCache V :=
  match entries c !! key with Some el => Remove (drop_entry c key) el | None => c end.

(** The keys as the map gives them; the order does not matter. *)
Definition lru_deletePrefix c (prefix : string) : lruCache V :=
  foldl (fun c key => if has_prefix key prefix then lru_delete c key else c) c (map_to_list (entries c)).*1.

Definition lru_len c : nat := size (entries c).

(** Map, list and cells fit together, and say [l]. *)
Record lru_holds c l : Prop := mkHolds {
  lh_list : Forall2 (fun el e => cells c !! el = Some e) (order c) l;
  lh_nodup : NoDup (order c);
  lh_cells : forall el k v, cells c !! el = Some (k, v) -> entries c !! k = Some el;
  lh_entries : forall k el, entries c !! k = Some el -> el ∈ order c /\ exists v, cells c !! el = Some (k, v);
  lh_made : forall el, el ∈ order c -> el < made c }.

Lemma Forall2_filter {A B} (R : A -> B -> Prop) f g xs ys :
  (forall x y, x ∈ xs -> R x y -> f x = g y) -> Forall2 R xs ys -> Forall2 R (List.filter f xs) (List.filter g ys).
Proof.
  intros Hfg H. induction H as [|x y xs ys Hxy _ IH]; [constructor|]. cbn. rewrite (Hfg x y) by (done || apply list_elem_of_here).
  assert (Forall2 R (List.filter f xs) (List.filter g ys)) by (apply IH; intros; apply Hfg; [by apply list_elem_of_further|done]).
  destruct (g y); [by constructor|done].
Qed.

(** A list of elements says the same with cells that agree on them. *)
Lemma says_ext (m m' : gmap nat (string * V)) els l : (forall el, el ∈ els -> m' !! el = m !! el) ->
  Forall2 (fun el e => m !! el = Some e) els l -> Forall2 (fun el e => m' !! el = Some e) els l.
Proof.
  intros Hm H. induction H as [|el e els l Hel H IH]; constructor.
  - rewrite Hm; [done|]. apply list_elem_of_here.
  - apply IH. intros x Hx. apply Hm. by apply list_elem_of_further.
Qed.

Lemma lh_elem c l el e : lru_holds c l -> el ∈ order c -> cells c !! el = Some e -> e ∈ l.
Proof.
  intros H Hel He. apply list_elem_of_lookup in Hel as [i Hi].
  destruct (Forall2_lookup_l _ _ _ i el (lh_list c l H) Hi) as (e' & Hl & Hc). assert (e' = e) as -> by congruence.
  by eapply list_elem_of_lookup_2.
Qed.

Lemma lh_of_elem c l e : lru_holds c l -> e ∈ l -> exists el, el ∈ order c /\ cells c !! el = Some e.
Proof.
  intros H He. apply list_elem_of_lookup in He as [i Hi].
  destruct (Forall2_lookup_r _ _ _ i e (lh_list c l H) Hi) as (el & Hl & Hc). exists el. split; [by eapply list_elem_of_lookup_2|done].
Qed.

Lemma lh_keys c l : lru_holds c l -> NoDup l.*1.
Proof.
  intros [Hl Hnd Hc _ _]. revert Hnd. induction Hl as [|el [k v] els l Hel Hl IH]; cbn; [constructor|].
  intros [Hn Hnd]%NoDup_cons. apply NoDup_cons. split; [|by apply IH]. intros Hin. apply list_elem_of_fmap in Hin as ([k' w] & Hk & Hin).
  cbn in Hk. subst k'. apply list_elem_of_lookup in Hin as [i Hi]. destruct (Forall2_lookup_r _ _ _ i _ Hl Hi) as (el' & Hel' & Hcell).
  apply Hc in Hel, Hcell. assert (el' = el) as -> by congruence. apply Hn. by eapply list_elem_of_lookup_2.
Qed.

Lemma lh_assoc c l key : lru_holds c l ->
  match entries c !! key with
  | Some el => exists v, cells c !! el = Some (key, v) /\ el ∈ order c /\ assoc key l = Some v
  | None => assoc key l = None
  end.
Proof.
  intros H. destruct (entries c !! key) as [el|] eqn:E.
  - destruct (lh_entries c l H key el E) as (Hin & v & Hv). exists v. split_and!; [done..|].
    apply assoc_elem; [by eapply lh_keys|by eapply lh_elem].
  - apply assoc_None. intros Hin. apply list_elem_of_fmap in Hin as ([k v] & -> & Hin).
    destruct (lh_of_elem c l _ H Hin) as (el & _ & Hel). apply (lh_cells c l H) in Hel. cbn in E. congruence.
Qed.

Lemma elem_without_el el els x : x ∈ without_el el els <-> x ∈ els /\ x <> el.
Proof. unfold without_el. rewrite !list_elem_of_In, List.filter_In, negb_true_iff, Nat.eqb_neq. done. Qed.

Lemma NoDup_without_el el els : NoDup els -> NoDup (without_el el els).
Proof.
  unfold without_el. induction els as [|x els IH]; cbn; [done|]. intros [Hn Hnd]%NoDup_cons. destruct (negb _); [|by apply IH].
  apply NoDup_cons. split; [|by apply IH]. intros Hin. apply Hn. apply (elem_without_el el els x) in Hin. tauto.
Qed.

(** Taking an element out of the list is taking its key out of the entries. *)
Lemma without_list c l el key v : lru_holds c l -> cells c !! el = Some (key, v) ->
  Forall2 (fun el e => cells c !! el = Some e) (without_el el (order c)) (without key l).
Proof.
  intros H Hel. apply Forall2_filter; [|apply H]. intros x [k w] _ Hx. cbn. f_equal.
  pose proof (lh_cells c l H _ _ _ Hel). pose proof (lh_cells c l H _ _ _ Hx).
  destruct (Nat.eqb_spec x el) as [->|Hne], (String.eqb_spec k key) as [->|Hk]; congruence.
Qed.

Lemma touch_holds c l key : lru_holds c l -> lru_holds (lru_touch c key) (touched key l).
Proof.
  intros H. unfold lru_touch, touched. pose proof (lh_assoc c l key H) as Ha. destruct (entries c !! key) as [el|] eqn:E; [|by rewrite Ha].
  destruct Ha as (v & Hv & Hin & ->). split; cbn.
  - constructor; [done|]. by eapply without_list.
  - apply NoDup_cons. split; [rewrite elem_without_el; tauto|apply NoDup_without_el, H].
  - apply H.
  - intros k x Hx. destruct (lh_entries c l H k x Hx) as (Hin' & w & Hw). split; [|by exists w].
    destruct (decide (x = el)) as [->|Hne]; [apply list_elem_of_here|]. apply list_elem_of_further. by apply elem_without_el.
  - intros x [->|Hx]%elem_of_cons; [by apply H|]. apply H. by apply elem_without_el in Hx as [? _].
Qed.

Lemma write_holds c l key v : lru_holds c l -> lru_holds (lru_write c key v) (written key v l).
Proof.
  intros H. unfold lru_write, written. pose proof (lh_assoc c l key H) as Ha. destruct (entries c !! key) as [el|] eqn:E.
  - destruct Ha as (w & Hw & Hin & _). split; cbn; try apply H.
    + apply Forall2_fmap_r. eapply Forall2_impl; [apply H|]. intros x [k u] Hx. cbn.
      destruct (String.eqb_spec k key) as [->|Hk].
      * apply (lh_cells c l H) in Hx. assert (x = el) as -> by congruence. by rewrite lookup_insert_eq.
      * rewrite lookup_insert_ne; [done|]. intros ->. congruence.
    + intros x k u. destruct (decide (el = x)) as [<-|Hne]; [rewrite lookup_insert_eq; by intros [= -> ->]|].
      rewrite lookup_insert_ne by done. apply H.
    + intros k x Hx. destruct (lh_entries c l H k x Hx) as (Hin' & u & Hu). split; [done|].
      destruct (decide (el = x)) as [<-|Hne]; [|rewrite lookup_insert_ne by done; by exists u].
      rewrite lookup_insert_eq. rewrite Hw in Hu. injection Hu as <- <-. by exists v.
  - by rewrite (written_absent key v l Ha : map _ l = l).
Qed.

Lemma without_written key v l : without key (written key v l) = without key l.
Proof.
  unfold without, written. induction l as [|e l IH]; [done|]. cbn. destruct (String.eqb e.1 key) eqn:E; cbn.
  - by rewrite String.eqb_refl.
  - by rewrite E, IH.
Qed.

Lemma assoc_written key v l : assoc key l <> None -> assoc key (written key v l) = Some v.
Proof.
  unfold assoc, written. induction l as [|e l IH]; [done|]. cbn. destruct (String.eqb e.1 key) eqn:E; cbn; [by rewrite String.eqb_refl|].
  by rewrite E.
Qed.

Lemma set_holds c l key v : lru_holds c l -> lru_holds (lru_set c key v) (stored key v l).
Proof.
  intros H. unfold lru_set. pose proof (lh_assoc c l key H) as Ha. destruct (entries c !! key) as [el|] eqn:E.
  - pose proof (touch_holds _ _ key (write_holds c l key v H)) as Ht. unfold lru_touch, touched in Ht.
    rewrite assoc_written in Ht by (destruct Ha as (w & _ & _ & ->); done). rewrite without_written in Ht.
    unfold lru_write in *. rewrite E in *. cbn in Ht. by rewrite E in Ht.
  - assert (Hfresh : made c ∉ order c) by (intros Hin; apply (lh_made c l H) in Hin; lia).
    unfold stored. rewrite (without_absent key l Ha). split; cbn.
    + constructor; [by rewrite lookup_insert_eq|]. eapply says_ext, (lh_list c l H). intros el Hel.
      apply lookup_insert_ne. by intros <-.
    + apply NoDup_cons. split; [done|apply H].
    + intros x k u. destruct (decide (made c = x)) as [<-|Hne].
      * rewrite lookup_insert_eq. intros Heq. injection Heq as <- <-. by rewrite lookup_insert_eq.
      * rewrite lookup_insert_ne by done. intros Hx. pose proof (lh_cells c l H _ _ _ Hx) as Hk.
        rewrite lookup_insert_ne; [done|]. intros ->. congruence.
    + intros k x. destruct (decide (key = k)) as [<-|Hne].
      * rewrite lookup_insert_eq. intros [= <-]. split; [apply list_elem_of_here|]. exists v. by rewrite lookup_insert_eq.
      * rewrite lookup_insert_ne by done. intros Hx. destruct (lh_entries c l H k x Hx) as (Hin & u & Hu).
        split; [by apply list_elem_of_further|]. exists u. rewrite lookup_insert_ne; [done|]. intros <-. done.
    + intros x [->|Hx]%elem_of_cons; [lia|]. apply (lh_made c l H) in Hx. lia.
Qed.

(** Removing an entry and its element. *)
Lemma remove_holds c l el key v : lru_holds c l -> cells c !! el = Some (key, v) ->
  lru_holds (Remove (drop_entry c key) el) (without key l).
Proof.
  intros H Hel. pose proof (lh_cells c l H _ _ _ Hel) as Hk. split; cbn.
  - pose proof (without_list c l el key v H Hel) as Hl. assert (Hn : el ∉ without_el el (order c)) by (rewrite elem_without_el; tauto).
    eapply says_ext, Hl. intros x Hx. apply lookup_delete_ne. by intros <-.
  - apply NoDup_without_el, H.
  - intros x k u Hx. apply lookup_delete_Some in Hx as [Hne Hx]. pose proof (lh_cells c l H _ _ _ Hx) as Hxk.
    rewrite lookup_delete_ne; [done|]. intros <-. congruence.
  - intros k x Hx. apply lookup_delete_Some in Hx as [Hne Hx]. destruct (lh_entries c l H k x Hx) as (Hin & u & Hu).
    assert (x <> el) by (intros ->; congruence). split; [by apply elem_without_el|]. exists u. by rewrite lookup_delete_ne.
  - intros x [Hx _]%elem_without_el. by apply H.
Qed.

Lemma delete_holds c l key : lru_holds c l -> lru_holds (lru_delete c key) (without key l).
Proof.
  intros H. unfold lru_delete. pose proof (lh_assoc c l key H) as Ha. destruct (entries c !! key) as [el|] eqn:E.
  - destruct Ha as (v & Hv & _ & _). by eapply remove_holds.
  - by rewrite (without_absent key l Ha).
Qed.

(** The list of entries loses its last one. *)
Lemma evict_back_holds c l e : lru_holds c (l ++ [e]) -> lru_holds (evict_back c) l.
Proof.
  intros H. unfold evict_back. pose proof (lh_list c _ H) as Hl. apply Forall2_app_inv_r in Hl as (els & els' & _ & Hl & Ho).
  apply Forall2_cons_inv_r in Hl as (back & els2 & Hback & Hnil & ->). apply Forall2_nil_inv_r in Hnil as ->.
  rewrite Ho, last_snoc, Hback. destruct e as [key v]. pose proof (remove_holds c _ back key v H Hback) as Hr.
  enough (without key (l ++ [(key, v)]) = l) as Hw by by rewrite Hw in Hr.
  pose proof (lh_keys c _ H) as Hk. rewrite fmap_app in Hk. apply NoDup_app in Hk as (_ & Hk & _).
  unfold without. rewrite List.filter_app. cbn. rewrite String.eqb_refl. cbn. rewrite app_nil_r. apply without_absent.
  apply assoc_None. intros Hin. apply (Hk key Hin). apply list_elem_of_here.
Qed.

Lemma evict_loop_holds fuel c l max : lru_holds c l -> (length l <= fuel)%nat -> lru_holds (evict_loop fuel c max) (take max l).
Proof.
  revert c l. induction fuel as [|fuel IH]; intros c l H Hf; cbn [evict_loop].
  - destruct l; [|cbn in Hf; lia]. by rewrite take_nil.
  - rewrite (Forall2_length _ _ _ (lh_list c l H)). destruct (Nat.ltb_spec max (length l)) as [Hlt|Hge]; [|by rewrite take_ge by lia].
    destruct l as [|e l _] using rev_ind; [cbn in Hlt; lia|]. rewrite length_app in *. cbn in *. rewrite take_app_le by lia.
    apply IH; [by eapply evict_back_holds|lia].
Qed.

Lemma evict_holds c l max : lru_holds c l -> lru_holds (lru_evict c max) (cut max l).
Proof. intros H. apply evict_loop_holds; [done|]. by rewrite (Forall2_length _ _ _ (lh_list c l H)). Qed.

Lemma delete_all_holds p keys c l : lru_holds c l ->
  lru_holds (foldl (fun c key => if has_prefix key p then lru_delete c key else c) c keys)
    (List.filter (fun e => negb (has_prefix e.1 p && bool_decide (e.1 ∈ keys))) l).
Proof.
  revert c l. induction keys as [|key keys IH]; intros c l H; cbn [foldl].
  - rewrite List.forallb_filter_id; [done|]. apply List.forallb_forall. intros e _.
    by rewrite bool_decide_eq_false_2, andb_false_r by apply not_elem_of_nil.
  - pose proof (IH (if has_prefix key p then lru_delete c key else c) (if has_prefix key p then without key l else l)) as IH'.
    specialize (IH' ltac:(destruct (has_prefix key p); [by apply delete_holds|done])).
    eassert (Heq : List.filter _ (if has_prefix key p then without key l else l) = _); [|by rewrite Heq in IH'].
    clear. unfold without. induction l as [|e l IHl]; [by destruct (has_prefix key p)|].
    cbn. destruct (has_prefix key p) eqn:Hp; cbn in *.
    + destruct (String.eqb_spec e.1 key) as [->|Hne]; cbn.
      * rewrite Hp. rewrite (bool_decide_eq_true_2 (key ∈ key :: keys)) by apply list_elem_of_here. cbn. done.
      * rewrite IHl. by rewrite (bool_decide_ext (e.1 ∈ key :: keys) (e.1 ∈ keys)) by (rewrite elem_of_cons; tauto).
    + rewrite IHl. destruct (String.eqb_spec e.1 key) as [Heq|Hne]; [by rewrite Heq, Hp|].
      by rewrite (bool_decide_ext (e.1 ∈ key :: keys) (e.1 ∈ keys)) by (rewrite elem_of_cons; tauto).
Qed.

Lemma deletePrefix_holds c l p : lru_holds c l -> lru_holds (lru_deletePrefix c p) (without_prefix p l).
Proof.
  intros H. pose proof (delete_all_holds p (map_to_list (entries c)).*1 c l H) as Hd.
  enough (List.filter (fun e => negb (has_prefix e.1 p && bool_decide (e.1 ∈ (map_to_list (entries c)).*1))) l = without_prefix p l)
    as Heq by by rewrite Heq in Hd.
  apply List.filter_ext_in. intros [k v] Hin%list_elem_of_In. cbn. rewrite bool_decide_eq_true_2, andb_true_r; [done|].
  destruct (lh_of_elem c l _ H Hin) as (el & _ & Hel). apply (lh_cells c l H) in Hel. apply list_elem_of_fmap.
  exists (k, el). split; [done|]. by apply elem_of_map_to_list.
Qed.

Definition lru_keys c : list string := (map_to_list (entries c)).*1.

Lemma keys_holds c l : lru_holds c l -> lru_keys c ≡ₚ l.*1.
Proof.
  intros H. apply NoDup_Permutation; [apply NoDup_fst_map_to_list|by eapply lh_keys|]. intros k. unfold lru_keys.
  rewrite list_elem_of_fmap. split.
  - intros ([k' el] & -> & Hin%elem_of_map_to_list). destruct (lh_entries c l H _ _ Hin) as (Ho & v & Hv). cbn.
    apply list_elem_of_fmap. exists (k', v). split; [done|]. by eapply lh_elem.
  - intros Hk. pose proof (lh_assoc c l k H) as Ha. destruct (entries c !! k) as [el|] eqn:E.
    + exists (k, el). split; [done|]. by apply elem_of_map_to_list.
    + by apply assoc_None in Ha.
Qed.

Lemma len_holds c l : lru_holds c l -> lru_len c = length l.
Proof.
  intros H. unfold lru_len. rewrite <- (length_fmap fst l), <- (Permutation_length (keys_holds c l H)).
  unfold lru_keys. by rewrite length_fmap, length_map_to_list.
Qed.
End lru.

Definition lru_new (V : Type) : lruCache V := mkLru ∅ [] ∅ 0.

#[export] Instance lruCache_ops : LruOps lruCache := {
  newLRUCache := lru_new;
  get _ := lru_get; touch _ := lru_touch; set _ := lru_set; write _ := lru_write; evict _ := lru_evict;
  delete_key _ := lru_delete; deletePrefix _ := lru_deletePrefix; len _ := lru_len; range_keys _ := lru_keys; holds _ := lru_holds }.

Lemma new_holds V : lru_holds (lru_new V) [].
Proof. split; cbn; try (intros *; rewrite ?lookup_empty; done); [constructor..|]. intros el []%not_elem_of_nil. Qed.

Lemma get_holds {V} (c : lruCache V) l key : lru_holds c l -> lru_get c key = assoc key l.
Proof.
  intros H. unfold lru_get. pose proof (lh_assoc c l key H) as Ha. destruct (entries c !! key); cbn; [|done].
  destruct Ha as (v & -> & _ & ->). done.
Qed.

#[export] Instance lruCache_lru : Lru lruCache.
Proof.
  split; intros; cbn in *; eauto using lh_keys, new_holds, get_holds, touch_holds, set_holds, write_holds,
    evict_holds, delete_holds, deletePrefix_holds, len_holds, keys_holds.
Qed.

(** ** Every run of operations *)

Inductive lru_op (V : Type) :=
  | OpGet (key : string) | OpTouch (key : string) | OpSet (key : string) (v : V) | OpWrite (key : string) (v : V)
  | OpEvict (max : Z) | OpDelete (key : string) | OpDeletePrefix (prefix : string) | OpLen.
Arguments OpGet {V}.
Arguments OpTouch {V}.
Arguments OpSet {V}.
Arguments OpWrite {V}.
Arguments OpEvict {V}.
Arguments OpDelete {V}.
Arguments OpDeletePrefix {V}.
Arguments OpLen {V}.

Section traces.
Context {C : Type -> Type} `{!LruOps C} {V : Type}.

(** The answers of [get] and [len], the others give nothing. *)
Definition lru_do (o : lru_op V) (c : C V) : C V * option (option V + nat) :=
  match o with
  | OpGet key => (c, Some (inl (get c key)))
  | OpTouch key => (touch c key, None)
  | OpSet key v => (set c key v, None)
  | OpWrite key v => (write c key v, None)
  | OpEvict max => (evict c max, None)
  | OpDelete key => (delete_key c key, None)
  | OpDeletePrefix prefix => (deletePrefix c prefix, None)
  | OpLen => (c, Some (inr (len c)))
  end.

Definition entries_do (o : lru_op V) (l : list (string * V)) : list (string * V) * option (option V + nat) :=
  match o with
  | OpGet key => (l, Some (inl (assoc key l)))
  | OpTouch key => (touched key l, None)
  | OpSet key v => (stored key v l, None)
  | OpWrite key v => (written key v l, None)
  | OpEvict max => (cut max l, None)
  | OpDelete key => (without key l, None)
  | OpDeletePrefix prefix => (without_prefix prefix l, None)
  | OpLen => (l, Some (inr (length l)))
  end.

Fixpoint answers {S} (step : lru_op V -> S -> S * option (option V + nat)) (ops : list (lru_op V)) (s : S) :
    list (option (option V + nat)) :=
  match ops with
  | [] => []
  | o :: ops => let '(s, a) := step o s in a :: answers step ops s
  end.

Lemma do_holds `{!Lru C} o (c : C V) l : holds c l -> holds (lru_do o c).1 (entries_do o l).1 /\ (lru_do o c).2 = (entries_do o l).2.
Proof.
  intros H. destruct o; cbn; (split; [|try done]);
    eauto using holds_touch, holds_set, holds_write, holds_evict, holds_delete, holds_deletePrefix.
  - by rewrite (holds_get _ _ _ H).
  - by rewrite (holds_len _ _ H).
Qed.

Lemma answers_agree `{!Lru C} ops (c : C V) l : holds c l -> answers lru_do ops c = answers entries_do ops l.
Proof.
  revert c l. induction ops as [|o ops IH]; intros c l H; [done|]. cbn. destruct (do_holds o c l H) as [Hh Ha].
  destruct (lru_do o c), (entries_do o l). cbn in *. by rewrite Ha, (IH _ _ Hh).
Qed.
End traces.

(** C12. The cache of the edge - a map into a doubly linked list - answers every sequence
    of operations as the plain list of its entries, most recently used first: a get finds
    what was stored last under the key, an eviction forgets exactly the entries beyond the
    [max] most recently used, and map and list never disagree. *)
Theorem lru_refines V (ops : list (lru_op V)) :
  answers lru_do ops (lru_new V) = answers entries_do ops [].
Proof. apply (answers_agree (C := lruCache)). apply new_holds. Qed.
