(* ===== verification/Singleflight.v ===== *)
(** * Coalesced requests

    The caches of the edge send one request per key to the origin and let every other
    request for the key wait for its result: the flights. [coalesced] is the program of
    one request over what a cache does in its two critical sections, [justified] what
    every result of every interleaving satisfies as soon as the two sections keep an
    invariant. [EdgeCache] instantiates it twice. *)
From S2P Require Import Prelude Programs.
Local Open Scope prog_scope.

(** Why a context ended. *)
Inductive ctx_err := CtxCanceled | CtxDeadlineExceeded.
Definition ctx_Err (e : ctx_err) : goerr :=
  match e with
  | CtxCanceled => errors_New "context canceled"
  | CtxDeadlineExceeded => errors_New "context deadline exceeded"
  end.

(** ** Flights

    A flight is the number it was made with. [registered] is the map of the cache,
    [results] the results of the flights whose channel is closed. *)
Record Flights (O : Type) := mkFlights { registered : gmap string nat; started : nat; results : gmap nat O }.
Arguments mkFlights {O}.
Arguments registered {O}.
Arguments started {O}.
Arguments results {O}.

Section flights.
Context {O : Type}.
Implicit Types f : Flights O.

Definition no_flights : Flights O := mkFlights ∅ 0 ∅.
Definition register f (key : string) : Flights O := mkFlights (<[key := started f]> (registered f)) (S (started f)) (results f).
Definition unregister f (key : string) : Flights O := mkFlights (delete key (registered f)) (started f) (results f).
(** The fields of the flight are set before its channel is closed. *)
Definition close_flight f (fl : nat) (o : O) : Flights O := mkFlights (registered f) (started f) (<[fl := o]> (results f)).
End flights.

(** ** The program of one request *)

(** What the first critical section found: a usable entry, a flight to wait for, or
    nothing, with the flight just registered and the entry it saw. *)
Inductive looked (E O : Type) :=
  | Hit (o : O)
  | Wait (fl : nat)
  | Lead (fl : nat) (e : E).
Arguments Hit {E O}.
Arguments Wait {E O}.
Arguments Lead {E O}.

Inductive cache_eff (Q E A O : Type) : Type -> Type :=
  | Begin (q : Q) : cache_eff Q E A O (looked E O)
  | Await (fl : nat) : cache_eff Q E A O (O + ctx_err)
  | Load (q : Q) : cache_eff Q E A O A
  | Finish (q : Q) (fl : nat) (e : E) (a : A) : cache_eff Q E A O O.
Arguments Begin {Q E A O}.
Arguments Await {Q E A O}.
Arguments Load {Q E A O}.
Arguments Finish {Q E A O}.

(** A request leads a flight, joins one, is answered by the origin, lands its flight. *)
Inductive cache_event (A O : Type) := Led (fl : nat) | Joined (fl : nat) | Loaded (a : A) | Landed (fl : nat) (o : O).
Arguments Led {A O}.
Arguments Joined {A O}.
Arguments Loaded {A O}.
Arguments Landed {A O}.

Section coalesced.
Context {S Q E A O : Type} (key_of : Q -> string) (begin : S -> Q -> S * looked E O) (finish : S -> Q -> nat -> E -> A -> S * O)
        (flights_of : S -> Flights O) (given_up : goerr -> O) (other : S -> S -> Prop).
Local Abbreviation eff := (cache_eff Q E A O).
Local Abbreviation log := (list (Q * cache_event A O)).

Definition coalesced (q : Q) : prog eff O :=
  l <-! Begin q ;
  match l with
  | Hit o => Ret o
  | Wait fl => r <-! Await fl ; Ret (match r with inl o => o | inr e => given_up (ctx_Err e) end)
  | Lead fl e => a <-! Load q ; o <-! Finish q fl e a ; Ret o
  end.

Definition cache_events {B} (c : eff B) : B -> list (cache_event A O) :=
  match c with
  | Begin _ => fun l => match l with Lead fl _ => [Led fl] | Wait fl => [Joined fl] | Hit _ => [] end
  | Load _ => fun a => [Loaded a]
  | Finish _ fl _ _ => fun o => [Landed fl o]
  | Await _ => fun _ => []
  end.

(** The answers a call may get: those of the critical sections, the result of a closed
    flight or an ended context, anything from the origin. *)
Definition cache_act {B} (c : eff B) (s s' : S) : B -> Prop :=
  match c with
  | Begin q => fun l => begin s q = (s', l)
  | Await fl => fun r => s' = s /\ match r with inl o => results (flights_of s) !! fl = Some o | inr _ => True end
  | Load _ => fun _ => s' = s
  | Finish q fl e a => fun o => finish s q fl e a = (s', o)
  end.

Definition requests (q : Q) (p : prog eff O) : Prop := p = coalesced q.
Definition cache_step := pool_step (@cache_events) requests (@cache_act) other.

(** A request alone, against an origin. *)
Definition perform (origin : Q -> A) (_ : nat) B (c : eff B) (s : S) : S * B :=
  match c in cache_eff _ _ _ _ B return S * B with
  | Begin q => begin s q
  | Await fl => (s, match results (flights_of s) !! fl with Some o => inl o | None => inr CtxDeadlineExceeded end)
  | Load q => (s, origin q)
  | Finish q fl e a => finish s q fl e a
  end.

Definition alone (origin : Q -> A) q s := run (@cache_events) (perform origin) (coalesced q) 0 s.

Lemma alone_reaches origin q s ws h :
  let r := alone origin q s in
  rtc cache_step (mkPool s ws h) (mkPool r.1.1 ((q, Ret r.1.2) :: ws) (h ++ map (pair q) r.2)).
Proof.
  pose proof (pool_alone (@cache_events) requests (@cache_act) other q (perform origin) (coalesced q) 0 s ws h) as Hp.
  assert (Hact : forall j B (c : eff B) s, cache_act c s (perform origin j B c s).1 (perform origin j B c s).2).
  { intros j B c s1. destruct c as [q1|fl|q1|q1 fl e a]; cbn; [by destruct (begin s1 q1)| |done|by destruct (finish s1 q1 fl e a)].
    split; [done|]. by destruct (results (flights_of s1) !! fl). }
  specialize (Hp Hact). intros r. subst r. unfold alone. destruct (run _ _ _ _ _) as [[s' o] t]. eapply rtc_l; [|exact Hp]. by apply pool_start.
Qed.

Lemma alone_after origin q s ws h p : rtc cache_step p (mkPool s ws h) ->
  let r := alone origin q s in
  rtc cache_step p (mkPool r.1.1 ((q, Ret r.1.2) :: ws) (h ++ map (pair q) r.2)).
Proof. intros Hp. etrans; [exact Hp|apply alone_reaches]. Qed.

(** *** What holds of every result *)

Context (Inv : S -> log -> Prop) (hit_ok outcome_ok : log -> Q -> O -> Prop) (seen_ok : log -> Q -> E -> Prop).

(** The flight has not landed. *)
Definition in_the_air (h : log) (fl : nat) : Prop := forall q o, (q, Landed fl o) ∉ h.

(** The flights of a state and the log agree: a flight has one leader, a registered one
    is led for its key and still in the air, and the result of a closed one is what its
    leader landed. *)
Record flights_agree (f : Flights O) (h : log) : Prop := mkAgree {
  fa_fresh : forall q fl, (q, Led fl) ∈ h -> (fl < started f)%nat;
  fa_leader : forall q q' fl, (q, Led fl) ∈ h -> (q', Led fl) ∈ h -> q = q';
  fa_registered : forall key fl, registered f !! key = Some fl ->
    exists q, key_of q = key /\ (q, Led fl) ∈ h /\ in_the_air h fl;
  fa_landed : forall q fl o, (q, Landed fl o) ∈ h -> exists q', (q', Led fl) ∈ h;
  fa_results : forall fl o, results f !! fl = Some o ->
    exists q, (q, Led fl) ∈ h /\ (q, Landed fl o) ∈ h /\ outcome_ok h q o }.

Record coalescing : Prop := mkCoalescing {
  co_hit_mono h h' q o : hit_ok h q o -> hit_ok (h ++ h') q o;
  co_outcome_mono h h' q o : outcome_ok h q o -> outcome_ok (h ++ h') q o;
  co_seen_mono h h' q e : seen_ok h q e -> seen_ok (h ++ h') q e;
  co_inv_mono s h h' : Inv s h -> Inv s (h ++ h');
  co_other s s' h : other s s' -> Inv s h -> Inv s' h /\ results (flights_of s') = results (flights_of s) /\
    started (flights_of s') = started (flights_of s) /\ registered (flights_of s') ⊆ registered (flights_of s);
  co_begin s q s' l h : Inv s h -> begin s q = (s', l) -> Inv s' h /\
    match l with
    | Hit o => flights_of s' = flights_of s /\ hit_ok h q o
    | Wait fl => flights_of s' = flights_of s /\ registered (flights_of s) !! key_of q = Some fl
    | Lead fl e => flights_of s' = register (flights_of s) (key_of q) /\ fl = started (flights_of s) /\ seen_ok h q e
    end;
  co_finish s q fl e a s' o h : Inv s h -> seen_ok h q e -> (q, Loaded a) ∈ h -> finish s q fl e a = (s', o) ->
    Inv s' h /\ outcome_ok h q o /\
    exists reg, reg ⊆ registered (flights_of s) /\ reg !! key_of q <> Some fl /\ flights_of s' = mkFlights reg (started (flights_of s)) (<[fl := o]> (results (flights_of s))) }.
Context (Hco : coalescing).

(** The request joined the flight of [q'] while that was in the air. *)
Definition joined (h : log) (q : Q) (fl : nat) (q' : Q) : Prop :=
  exists h1 h2, h = h1 ++ (q, Joined fl) :: h2 /\ (q', Led fl) ∈ h1 /\ key_of q' = key_of q /\ in_the_air h1 fl.

(** A result is a usable entry, the outcome of the request's own flight, what landed with
    a flight for its key that was still in the air when the request joined it, or the end
    of its context. *)
Definition justified (h : log) (q : Q) (o : O) : Prop :=
  hit_ok h q o \/ outcome_ok h q o \/
  (exists q' fl, joined h q fl q' /\ (q', Landed fl o) ∈ h /\ outcome_ok h q' o) \/
  exists e, o = given_up (ctx_Err e).

(** Where a request is. *)
Inductive stage :=
  | Asking
  | Waiting (fl : nat)
  | Leading (fl : nat) (e : E)
  | Finishing (fl : nat) (e : E) (a : A)
  | Finished (o : O).

Definition may_call {B} (c : eff B) (g : Q * stage) : Prop :=
  match c with
  | Begin q => g = (q, Asking)
  | Await fl => g.2 = Waiting fl
  | Load q => exists fl e, g = (q, Leading fl e)
  | Finish q fl e a => g = (q, Finishing fl e a)
  end.

Definition after {B} (c : eff B) : B -> Q * stage -> Q * stage :=
  match c with
  | Begin _ => fun l g => (g.1, match l with Hit o => Finished o | Wait fl => Waiting fl | Lead fl e => Leading fl e end)
  | Await _ => fun r g => (g.1, Finished (match r with inl o => o | inr e => given_up (ctx_Err e) end))
  | Load _ => fun a g => (g.1, match g.2 with Leading fl e => Finishing fl e a | st => st end)
  | Finish _ _ _ _ => fun o g => (g.1, Finished o)
  end.

Definition follows (q : Q) (p : prog eff O) (g : Q * stage) : Prop :=
  g.1 = q /\ obeys (@may_call) (fun _ _ _ => True) (@after) (fun o g => g.2 = Finished o) p g.

Lemma coalesced_follows q : follows q (coalesced q) (q, Asking).
Proof.
  split; [done|]. split; [done|]. intros [o|fl|fl e] _; cbn; [done| |].
  - split; [done|]. by intros b _.
  - split; [by exists fl, e|]. intros a _. split; [done|]. by intros o _.
Qed.

Definition stage_ok (h : log) (g : Q * stage) : Prop :=
  match g.2 with
  | Asking => True
  | Waiting fl => exists q', joined h g.1 fl q'
  | Leading fl e => (g.1, Led fl) ∈ h /\ seen_ok h g.1 e
  | Finishing fl e a => (g.1, Led fl) ∈ h /\ seen_ok h g.1 e /\ (g.1, Loaded a) ∈ h
  | Finished o => justified h g.1 o
  end.

Definition pool_ok (s : S) (gs : list (Q * stage)) (h : log) : Prop :=
  Inv s h /\ flights_agree (flights_of s) h /\ Forall (stage_ok h) gs.

Lemma elem_grows {T} (x : T) l l' : x ∈ l -> x ∈ l ++ l'.
Proof. intros. apply elem_of_app. by left. Qed.
Hint Resolve elem_grows co_hit_mono co_outcome_mono co_seen_mono co_inv_mono : core.

Lemma joined_mono h h' q fl q' : joined h q fl q' -> joined (h ++ h') q fl q'.
Proof. intros (h1 & h2 & -> & ?). exists h1, (h2 ++ h'). by rewrite <- app_assoc. Qed.
Lemma joined_led h q fl q' : joined h q fl q' -> (q', Led fl) ∈ h.
Proof. intros (h1 & h2 & -> & ? & _). by apply elem_grows. Qed.
Hint Resolve joined_mono joined_led : core.

Lemma stage_ok_mono h h' g : stage_ok h g -> stage_ok (h ++ h') g.
Proof.
  unfold stage_ok. destruct g as [q [|fl|fl e|fl e a|o]]; cbn; [done| | | |].
  - intros [q' Hj]. exists q'. auto.
  - intros [? ?]. auto.
  - intros (? & ? & ?). auto.
  - intros [H|[H|[(q' & fl & ? & ? & ?)|H]]]; [left; auto|right; left; auto| |by right; right; right].
    right. right. left. exists q', fl. auto.
Qed.

Lemma stages_mono h h' gs : Forall (stage_ok h) gs -> Forall (stage_ok (h ++ h')) gs.
Proof. intros H. eapply Forall_impl; [exact H|]. intros g. apply stage_ok_mono. Qed.

(** A log that grew by one entry. *)
Lemma elem_snoc {T} (x y : T) l : x ∈ l ++ [y] <-> x ∈ l \/ x = y.
Proof. by rewrite elem_of_app, list_elem_of_singleton. Qed.

Lemma in_the_air_snoc h fl (q : Q) e :
  in_the_air h fl -> (forall o, e <> Landed fl o) -> in_the_air (h ++ [(q, e)]) fl.
Proof. intros Hair He q' o [H|[= -> <-]]%elem_snoc; [by eapply Hair|by eapply He]. Qed.

(** Entries of the log that neither lead nor land a flight. *)
Lemma agree_other f h q e : (forall fl, e <> Led fl) -> (forall fl o, e <> Landed fl o) ->
  flights_agree f h -> flights_agree f (h ++ [(q, e)]).
Proof.
  intros Hnl Hnd [Hf Hl Hr Hd Hres].
  assert (Hled : forall q' fl, (q', Led fl) ∈ h ++ [(q, e)] -> (q', Led fl) ∈ h).
  { intros q' fl [?|[= -> <-]]%elem_snoc; [done|]. by destruct (Hnl fl). }
  split; [naive_solver..| | |].
  - intros key fl Hk. destruct (Hr key fl Hk) as (q' & ? & ? & ?). exists q'. eauto using in_the_air_snoc.
  - intros q' fl o [H|[= -> <-]]%elem_snoc; [|by destruct (Hnd fl o)]. destruct (Hd _ _ _ H) as [q2 ?]. exists q2. auto.
  - intros fl o Ho. destruct (Hres fl o Ho) as (q' & ? & ? & ?). exists q'. auto.
Qed.

Lemma agree_register f h q : flights_agree f h -> flights_agree (register f (key_of q)) (h ++ [(q, Led (started f))]).
Proof.
  intros [Hf Hl Hr Hd Hres]. split; cbn.
  - intros q' fl [H|[= -> ->]]%elem_snoc; [apply Hf in H|]; lia.
  - intros q1 q2 fl [H1|H1]%elem_snoc [H2|H2]%elem_snoc; simplify_eq; [by eapply Hl| | |done];
      [apply Hf in H1|apply Hf in H2]; lia.
  - intros key fl. destruct (decide (key_of q = key)) as [<-|Hne].
    + rewrite lookup_insert_eq. intros [= <-]. exists q. split; [done|]. split; [apply elem_snoc; by right|].
      apply in_the_air_snoc; [|done]. intros q' o [q2 H%Hf]%Hd. lia.
    + rewrite lookup_insert_ne by done. intros Hk. destruct (Hr key fl Hk) as (q' & ? & ? & ?).
      exists q'. eauto using in_the_air_snoc.
  - intros q' fl o [H|[=]]%elem_snoc. destruct (Hd _ _ _ H) as [q2 ?]. exists q2. auto.
  - intros fl o Ho. destruct (Hres fl o Ho) as (q' & ? & ? & ?). exists q'. auto.
Qed.

Lemma agree_fewer f h reg : flights_agree f h -> reg ⊆ registered f -> flights_agree (mkFlights reg (started f) (results f)) h.
Proof. intros [Hf Hl Hr Hd Hres] Hsub. split; cbn; try done. intros key fl Hk. apply Hr. by eapply lookup_weaken. Qed.

(** The leader lands its flight, which is no longer registered. *)
Lemma agree_land f h q fl o : flights_agree f h -> (q, Led fl) ∈ h -> outcome_ok h q o ->
  registered f !! key_of q <> Some fl -> flights_agree (close_flight f fl o) (h ++ [(q, Landed fl o)]).
Proof.
  intros [Hf Hl Hr Hd Hres] Hq Ho Hopen.
  assert (Hled : forall q' fl', (q', Led fl') ∈ h ++ [(q, Landed fl o)] -> (q', Led fl') ∈ h)
    by (intros q' fl' [?|[=]]%elem_snoc; done).
  split; cbn; [naive_solver..| | |].
  - intros key fl' Hk. destruct (Hr key fl' Hk) as (q' & Hkey & Hled' & Hair). exists q'. split; [done|]. split; [auto|].
    apply in_the_air_snoc; [done|]. intros o' [= <- _]. subst key. apply Hopen. by rewrite (Hl _ _ _ Hq Hled').
  - intros q' fl' o' [H|[= -> -> ->]]%elem_snoc; [destruct (Hd _ _ _ H) as [q2 ?]; exists q2|exists q]; auto.
  - intros fl' o'. destruct (decide (fl = fl')) as [<-|Hne].
    + rewrite lookup_insert_eq. intros [= <-]. exists q. split; [auto|]. split; [apply elem_snoc; by right|auto].
    + rewrite lookup_insert_ne by done. intros H. destruct (Hres _ _ H) as (q' & ? & ? & ?). exists q'. auto.
Qed.

(** What a call of a request at its stage gives. *)
Lemma stage_call B (c : eff B) s s' b g h :
  cache_act c s s' b -> may_call c g -> Inv s h -> flights_agree (flights_of s) h -> stage_ok h g ->
  let h' := h ++ map (pair g.1) (cache_events c b) in
  Inv s' h' /\ flights_agree (flights_of s') h' /\ stage_ok h' (after c b g).
Proof.
  intros Ha Hc HI Hfl Hst. destruct c as [q|fl|q|q fl e a]; cbn in *.
  - subst g. destruct (co_begin Hco _ _ _ _ _ HI Ha) as [HI' Hb]. destruct b as [o|fl|fl e]; cbn; rewrite ?app_nil_r.
    + destruct Hb as [-> Ho]. split_and!; [done..|]. by left.
    + destruct Hb as [-> Hr]. split_and!; [auto|by apply agree_other|].
      destruct (fa_registered _ _ Hfl _ _ Hr) as (q' & ? & ? & ?). by exists q', h, [].
    + destruct Hb as (-> & -> & He). split_and!; [auto|by apply agree_register| |auto]. apply elem_snoc. by right.
  - destruct Ha as [-> Hr]. rewrite app_nil_r. split_and!; [done..|]. destruct g as [q st]. cbn in *. subst st. cbn in Hst.
    destruct Hst as (q' & Hj). destruct b as [o|e]; cbn; [|by right; right; right; exists e].
    destruct (fa_results _ _ Hfl _ _ Hr) as (q2 & Hled2 & Hland & Ho).
    rewrite <- (fa_leader _ _ Hfl _ _ _ (joined_led _ _ _ _ Hj) Hled2) in Ho, Hland.
    right. right. left. by exists q', fl.
  - subst s'. destruct Hc as (fl & e & ->). cbn in *. destruct Hst as [Hled He]. split_and!; [auto|by apply agree_other|auto..|].
    apply elem_snoc. by right.
  - subst g. destruct Hst as (Hled & He & Hl). cbn.
    destruct (co_finish Hco _ _ _ _ _ _ _ _ HI He Hl Ha) as (HI' & Ho & reg & Hreg & Hopen & ->). split_and!; [auto| |].
    + apply (agree_land (mkFlights reg _ _) h q fl b); [|done..]. by apply agree_fewer.
    + right. left. auto.
Qed.

Lemma pool_ok_reachable s q : Inv s [] -> flights_of s = no_flights -> rtc cache_step (mkPool s [] []) q ->
  exists gs, Forall2 (fun w g => follows w.1 w.2 g) (workers q) gs /\ pool_ok (tables q) gs (history q).
Proof.
  intros HI Hno Hs. eapply (pool_invariant _ _ _ _ pool_ok (fun w g => follows w.1 w.2 g)); [..|exact Hs|].
  - intros l pr s' gs h -> (HI' & Hfl & Hgs). exists (l, Asking). split; [apply coalesced_follows|]. split_and!; [done..|].
    by constructor.
  - intros q' B c k s1 s2 b gs g gs' h Ha [Hq [Hc Hk]] (HI' & Hfl & Hgs). apply Forall_app in Hgs as [Hgs Hgs'].
    apply Forall_cons in Hgs' as [Hg Hgs']. cbn in Hq, Hc, Hk.
    pose proof (stage_call B c s1 s2 b g h Ha Hc HI' Hfl Hg) as Hcall. rewrite Hq in Hcall. destruct Hcall as (HI2 & Hfl2 & Hg2).
    exists (after c b g). split.
    + split; [|by apply Hk]. cbn. rewrite <- Hq. by destruct c.
    + split_and!; [done..|]. apply Forall_app. split; [by apply stages_mono|]. constructor; [done|by apply stages_mono].
  - intros s' gs g gs' h (HI' & Hfl & Hgs). split_and!; [done..|]. apply Forall_app in Hgs as [? Hgs].
    apply Forall_cons in Hgs as [_ ?]. by apply Forall_app.
  - intros s1 s2 gs h Ho (HI' & Hfl & Hgs). destruct (co_other Hco _ _ _ Ho HI') as (HI2 & Hres & Hst & Hreg).
    split_and!; [done| |done]. destruct (flights_of s2) as [reg st res]. cbn in *. subst. by apply agree_fewer.
  - exists []. split; [constructor|]. split_and!; cbn; [done| |constructor]. rewrite Hno. split; cbn.
    + by intros q' fl ?%not_elem_of_nil.
    + by intros q1 q2 fl ?%not_elem_of_nil.
    + intros key fl. by rewrite lookup_empty.
    + by intros q1 fl o ?%not_elem_of_nil.
    + intros fl o. by rewrite lookup_empty.
Qed.

(** Every result is justified by what the origin answered. *)
Lemma results_justified s q request o : Inv s [] -> flights_of s = no_flights ->
  rtc cache_step (mkPool s [] []) q -> (request, Ret o) ∈ workers q -> justified (history q) request o.
Proof.
  intros HI Hno Hs Hin. destruct (pool_ok_reachable s q HI Hno Hs) as (gs & Hgs & _ & _ & Hok).
  apply list_elem_of_lookup in Hin as [i Hi]. destruct (Forall2_lookup_l _ _ _ _ _ Hgs Hi) as ([q' st] & Hg & [Hq Hpost]).
  cbn in *. subst. rewrite Forall_forall in Hok. specialize (Hok _ (list_elem_of_lookup_2 _ _ _ Hg)). done.
Qed.

(** The invariant of the cache holds in every interleaving. *)
Lemma invariant_reachable s q : Inv s [] -> flights_of s = no_flights -> rtc cache_step (mkPool s [] []) q -> Inv (tables q) (history q).
Proof. intros HI Hno Hs. by destruct (pool_ok_reachable s q HI Hno Hs) as (gs & _ & HI' & _). Qed.
End coalesced.
