(* ===== verification/EdgeCache.v ===== *)
(** * The caches of the edge (edge/edge.go)

    [RouteCache], [TokenClient] and [RateLimiter], over any implementation of [Lru]. The
    critical sections of a Get are functions, the request itself is the program of
    [Singleflight]; the clock is read once at the start of a request, and where the code
    reads it again the second reading is an input. Times are nanoseconds. *)
From S2P Require Import Prelude Programs GoString GoFloat Lru Singleflight.
Local Open Scope Z_scope.

Definition seconds (n : Z) : Z := n * 10 ^ 9.

(** ** RouteCache *)

(** The revision of a value of the catalog. *)
Class Revisioner (R : Type) := RouteRevision : R -> Z.

Definition ErrBeyondStale : goerr := errors_New "beyond stale window".
Definition ErrNotFound : goerr := errors_New "route not found at origin".
Definition negativeTTL : Z := seconds 5.
Definition routeLoadTimeout : Z := seconds 10.
Definition defaultRouteCacheMaxEntries : Z := 10000.

Record CachedRoute (R : Type) := mkCached { Value : option R; FetchedAt : Z; Revision : Z }.
Arguments mkCached {R}.
Arguments Value {R}.
Arguments FetchedAt {R}.
Arguments Revision {R}.

(** The windows a cache was built with. *)
Record RouteWindows := mkWindows { FreshTTL : Z; StaleWindow : Z; MaxEntries : Z }.

Definition maxEntries (w : RouteWindows) : Z := if 0 <? MaxEntries w then MaxEntries w else defaultRouteCacheMaxEntries.

Section route_cache.
Context {R : Type} `{!Revisioner R} {C : Type -> Type} `{!LruOps C}.

Definition snapshotRevision (v : R) : Z := RouteRevision v.

Record RouteCache := mkRouteCache {
  rc_cache : C (CachedRoute R); rc_flights : Flights (res (R * bool)); revisionRejects : Z }.

Definition NewRouteCache : RouteCache := mkRouteCache (newLRUCache _) no_flights 0.

(** A request: its key and the time it read. *)
Record RouteGet := mkGet { rg_key : string; rg_now : Z }.

Context (w : RouteWindows).
Implicit Types (c : RouteCache) (q : RouteGet).

Definition Get_begin c q : RouteCache * looked (option (CachedRoute R)) (res (R * bool)) :=
  let key := rg_key q in
  let e := get (rc_cache c) key in
  let touched := mkRouteCache (touch (rc_cache c) key) (rc_flights c) (revisionRejects c) in
  let miss :=
    match registered (rc_flights c) !! key with
    | Some fl => (c, Wait fl)
    | None => (mkRouteCache (rc_cache c) (register (rc_flights c) key) (revisionRejects c), Lead (started (rc_flights c)) e)
    end in
  match e with
  | Some (mkCached None t _) => if rg_now q - t <? negativeTTL then (touched, Hit (Err ErrNotFound)) else miss
  | Some (mkCached (Some v) t _) => if rg_now q - t <? FreshTTL w then (touched, Hit (Ok (v, false))) else miss
  | None => miss
  end.

(** No error and no value is an authoritative miss. *)
Definition loaded (a : res (option R)) : res R :=
  match a with Ok (Some v) => Ok v | Ok None => Err ErrNotFound | Err e => Err e end.

(** Writing back what the origin answered: the cache, the rejects, the result. *)
Definition write_back (cache : C (CachedRoute R)) (rejects : Z) q (e : option (CachedRoute R)) (a : res (option R)) :
    C (CachedRoute R) * Z * res (R * bool) :=
  let key := rg_key q in
  let now := rg_now q in
  match loaded a with
  | Ok v =>
      let rev := snapshotRevision v in
      let store := (evict (set cache key (mkCached (Some v) now rev)) (maxEntries w), rejects, Ok (v, false)) in
      match get cache key with
      | Some (mkCached (Some cur) _ high) => if rev <? high then (touch cache key, rejects + 1, Ok (cur, true)) else store
      | _ => store
      end
  | Err err =>
      if errors_Is err ErrNotFound then
        let rev := match get cache key with Some cur => Revision cur | None => 0 end in
        (evict (set cache key (mkCached None now rev)) (maxEntries w), rejects, Err ErrNotFound)
      else match e with
           | Some (mkCached (Some v) t _) =>
               if now - t <? StaleWindow w then (touch cache key, rejects, Ok (v, true)) else (cache, rejects, Err ErrBeyondStale)
           | _ => (cache, rejects, Err err)
           end
  end.

(** The leader removes the flight only if it is still its own. *)
Definition Get_finish c q (fl : nat) (e : option (CachedRoute R)) (a : res (option R)) : RouteCache * res (R * bool) :=
  let '(cache, rejects, r) := write_back (rc_cache c) (revisionRejects c) q e a in
  let f := close_flight (rc_flights c) fl r in
  let f := match registered f !! rg_key q with
           | Some fl' => if Nat.eqb fl' fl then unregister f (rg_key q) else f
           | None => f
           end in
  (mkRouteCache cache f rejects, r).

Definition Get (q : RouteGet) : prog (cache_eff RouteGet (option (CachedRoute R)) (res (option R)) (res (R * bool))) (res (R * bool)) :=
  coalesced Err q.

Definition Invalidate c (key : string) : RouteCache :=
  mkRouteCache (delete_key (rc_cache c) key) (unregister (rc_flights c) key) (revisionRejects c).

(** *** What every request gets *)

Context `{!Lru C}.
Local Abbreviation log := (list (RouteGet * cache_event (res (option R)) (res (R * bool)))).

(** The origin answered a request that started at [t]. *)
Definition answered (h : log) (key : string) (t : Z) (a : res (option R)) : Prop := (mkGet key t, Loaded a) ∈ h.

Definition absent (a : res (option R)) : Prop :=
  match a with Ok None => True | Ok (Some _) => False | Err e => errors_Is e ErrNotFound = true end.
Definition failed (a : res (option R)) (e : goerr) : Prop := a = Err e /\ errors_Is e ErrNotFound = false.

(** An entry is what the origin answered, at the time it says. *)
Definition cached_ok (h : log) (key : string) (e : CachedRoute R) : Prop :=
  match Value e with
  | Some v => answered h key (FetchedAt e) (Ok (Some v)) /\ Revision e = RouteRevision v
  | None => exists a, answered h key (FetchedAt e) a /\ absent a
  end.

(** A hit: an answer within its window. *)
Definition route_hit_ok (h : log) q (o : res (R * bool)) : Prop :=
  match o with
  | Ok (v, false) => exists t, answered h (rg_key q) t (Ok (Some v)) /\ rg_now q - t < FreshTTL w
  | Err e => e = ErrNotFound /\ exists t a, answered h (rg_key q) t a /\ absent a /\ rg_now q - t < negativeTTL
  | Ok (_, true) => False
  end.

(** The outcome of a request that asked the origin. A degraded one serves an older
    answer: within the stale window when the origin failed, or instead of an answer of
    a lower revision. *)
Definition route_outcome_ok (h : log) q (o : res (R * bool)) : Prop :=
  exists a, answered h (rg_key q) (rg_now q) a /\
  match o with
  | Ok (v, false) => a = Ok (Some v)
  | Ok (v, true) => exists t, answered h (rg_key q) t (Ok (Some v)) /\
      ((exists e, failed a e) /\ rg_now q - t < StaleWindow w \/ exists v', a = Ok (Some v') /\ RouteRevision v' < RouteRevision v)
  | Err e => absent a /\ e = ErrNotFound \/
      failed a e \/ e = ErrBeyondStale /\ (exists e', failed a e') /\ exists t v, answered h (rg_key q) t (Ok (Some v)) /\ StaleWindow w <= rg_now q - t
  end.

Definition route_seen_ok (h : log) q (e : option (CachedRoute R)) : Prop :=
  match e with Some e => cached_ok h (rg_key q) e | None => True end.

Definition route_inv c (h : log) : Prop :=
  exists l, holds (rc_cache c) l /\ (length l <= Z.to_nat (maxEntries w))%nat /\ Forall (fun ke => cached_ok h ke.1 ke.2) l.

Definition invalidated c c' : Prop := exists key, c' = Invalidate c key.

Definition route_step := cache_step (Get_begin) (Get_finish) rc_flights Err invalidated.

Lemma answered_mono h h' key t a : answered h key t a -> answered (h ++ h') key t a.
Proof. apply elem_grows. Qed.
Hint Resolve answered_mono : core.

Lemma cached_ok_mono h h' key e : cached_ok h key e -> cached_ok (h ++ h') key e.
Proof. unfold cached_ok. destruct (Value e); naive_solver. Qed.
Hint Resolve cached_ok_mono : core.

Lemma maxEntries_pos : (0 < maxEntries w)%Z.
Proof. unfold maxEntries, defaultRouteCacheMaxEntries. destruct (Z.ltb_spec 0 (MaxEntries w)); lia. Qed.

Lemma bound_maxEntries : bound (maxEntries w) = Z.to_nat (maxEntries w).
Proof. pose proof maxEntries_pos. unfold bound. destruct (Z.leb_spec (maxEntries w) 0); lia. Qed.

(** Storing an entry and evicting. *)
Lemma stored_inv cache l key e h :
  holds cache l -> Forall (fun ke => cached_ok h ke.1 ke.2) l -> cached_ok h key e ->
  exists l', holds (evict (set cache key e) (maxEntries w)) l' /\ (length l' <= Z.to_nat (maxEntries w))%nat /\
    Forall (fun ke => cached_ok h ke.1 ke.2) l'.
Proof.
  intros Hl Hok He. exists (cut (maxEntries w) (stored key e l)). split_and!.
  - by apply holds_evict, holds_set.
  - rewrite <- bound_maxEntries. apply cut_length.
  - by apply Forall_cut, Forall_stored.
Qed.

Lemma touched_inv cache l key h :
  holds cache l -> (length l <= Z.to_nat (maxEntries w))%nat -> Forall (fun ke => cached_ok h ke.1 ke.2) l ->
  exists l', holds (touch cache key) l' /\ (length l' <= Z.to_nat (maxEntries w))%nat /\ Forall (fun ke => cached_ok h ke.1 ke.2) l'.
Proof.
  intros Hl Hn Hok. exists (touched key l). split_and!; [by apply holds_touch| |by apply Forall_touched].
  pose proof (length_touched key l). lia.
Qed.

Lemma get_ok cache l key e h : holds cache l -> Forall (fun ke => cached_ok h ke.1 ke.2) l -> get cache key = Some e -> cached_ok h key e.
Proof. intros Hl Hok. rewrite (holds_get _ _ _ Hl). intros E. exact (assoc_Forall _ _ _ _ Hok E). Qed.

Lemma begin_ok c q c' l h : route_inv c h -> Get_begin c q = (c', l) -> route_inv c' h /\
  match l with
  | Hit o => rc_flights c' = rc_flights c /\ route_hit_ok h q o
  | Wait fl => rc_flights c' = rc_flights c /\ registered (rc_flights c) !! rg_key q = Some fl
  | Lead fl e => rc_flights c' = register (rc_flights c) (rg_key q) /\ fl = started (rc_flights c) /\ route_seen_ok h q e
  end.
Proof.
  intros (es & Hes & Hn & Hok). unfold Get_begin.
  assert (Hmiss : forall e, get (rc_cache c) (rg_key q) = e -> match registered (rc_flights c) !! rg_key q with
    | Some fl => (c, Wait fl)
    | None => (mkRouteCache (rc_cache c) (register (rc_flights c) (rg_key q)) (revisionRejects c), Lead (started (rc_flights c)) e)
    end = (c', l) -> route_inv c' h /\
    match l with
    | Hit o => rc_flights c' = rc_flights c /\ route_hit_ok h q o
    | Wait fl => rc_flights c' = rc_flights c /\ registered (rc_flights c) !! rg_key q = Some fl
    | Lead fl e => rc_flights c' = register (rc_flights c) (rg_key q) /\ fl = started (rc_flights c) /\ route_seen_ok h q e
    end).
  { intros e He. destruct (registered _ !! _) as [fl|] eqn:Hr; intros [= <- <-]; (split; [by exists es|]); [done|].
    split_and!; [done..|]. destruct e as [e|]; [|done]. by eapply get_ok. }
  destruct (get (rc_cache c) (rg_key q)) as [[[v|] t rev]|] eqn:E; [| |by apply Hmiss].
  - destruct (Z.ltb_spec (rg_now q - t) (FreshTTL w)) as [Hlt|_]; [|by apply Hmiss]. intros [= <- <-].
    split; [by eapply touched_inv|]. split; [done|]. exists t. split; [|done]. by apply (get_ok _ _ _ _ _ Hes Hok E).
  - destruct (Z.ltb_spec (rg_now q - t) negativeTTL) as [Hlt|_]; [|by apply Hmiss]. intros [= <- <-].
    split; [by eapply touched_inv|]. split; [done|]. split; [done|].
    destruct (get_ok _ _ _ _ _ Hes Hok E) as (a & Ha & Habs). by exists t, a.
Qed.

(** What is written back. *)
Lemma write_back_ok cache l rejects q e a h cache' rejects' o :
  holds cache l -> (length l <= Z.to_nat (maxEntries w))%nat -> Forall (fun ke => cached_ok h ke.1 ke.2) l ->
  route_seen_ok h q e -> answered h (rg_key q) (rg_now q) a -> write_back cache rejects q e a = (cache', rejects', o) ->
  (exists l', holds cache' l' /\ (length l' <= Z.to_nat (maxEntries w))%nat /\ Forall (fun ke => cached_ok h ke.1 ke.2) l') /\
  route_outcome_ok h q o.
Proof.
  intros Hl Hn Hok He Ha. unfold write_back.
  assert (Hmiss : forall cur, get cache (rg_key q) = cur -> absent a ->
    (evict (set cache (rg_key q) (mkCached None (rg_now q) match cur with Some cur => Revision cur | None => 0 end)) (maxEntries w),
     rejects, Err ErrNotFound) = (cache', rejects', o) -> 
    (exists l', holds cache' l' /\ (length l' <= Z.to_nat (maxEntries w))%nat /\ Forall (fun ke => cached_ok h ke.1 ke.2) l') /\
    route_outcome_ok h q o).
  { intros cur _ Habs [= <- <- <-]. split; [|exists a; split; [done|by left]]. eapply stored_inv; [done..|]. by exists a. }
  destruct a as [[v|]|err]; cbn [loaded].
  - assert (Hstore : (evict (set cache (rg_key q) (mkCached (Some v) (rg_now q) (snapshotRevision v))) (maxEntries w), rejects, Ok (v, false))
      = (cache', rejects', o) ->
      (exists l', holds cache' l' /\ (length l' <= Z.to_nat (maxEntries w))%nat /\ Forall (fun ke => cached_ok h ke.1 ke.2) l') /\
      route_outcome_ok h q o).
    { intros [= <- <- <-]. split; [by eapply stored_inv|]. by exists (Ok (Some v)). }
    destruct (get cache (rg_key q)) as [[[cur|] t high]|] eqn:E; [|exact Hstore..].
    destruct (Z.ltb_spec (snapshotRevision v) high) as [Hlt|_]; [|exact Hstore]. intros [= <- <- <-]. split; [by eapply touched_inv|].
    destruct (get_ok _ _ _ _ _ Hl Hok E) as [Ht Hrev]. cbn in Ht, Hrev. exists (Ok (Some v)). split; [done|]. exists t.
    split; [done|]. right. exists v. split; [done|]. rewrite <- Hrev. exact Hlt.
  - by apply Hmiss.
  - destruct (errors_Is err ErrNotFound) eqn:Eerr; [by apply Hmiss|].
    destruct e as [[[v|] t rev]|].
    + cbn in He. destruct He as [Ht Hrev]. destruct (Z.ltb_spec (rg_now q - t) (StaleWindow w)) as [Hlt|Hge]; intros [= <- <- <-].
      * split; [by eapply touched_inv|]. exists (Err err). split; [done|]. exists t. split; [done|]. left. split; [|done]. by exists err.
      * split; [by exists l|]. exists (Err err). split; [done|]. right. right. split_and!; [done|by exists err|]. by exists t, v.
    + intros [= <- <- <-]. split; [by exists l|]. exists (Err err). split; [done|]. right. by left.
    + intros [= <- <- <-]. split; [by exists l|]. exists (Err err). split; [done|]. right. by left.
Qed.

Lemma route_coalescing :
  coalescing rg_key (Get_begin) (Get_finish) rc_flights invalidated route_inv route_hit_ok route_outcome_ok route_seen_ok.
Proof.
  split.
  - intros h h' q [[v []]|e]; cbn; naive_solver.
  - intros h h' q [[v []]|e] (a & Ha & Ho); exists a; split; auto; naive_solver.
  - intros h h' q [e|]; cbn; auto.
  - intros c h h' (l & Hl & Hn & Hok). exists l. split_and!; [done..|]. eapply Forall_impl; [exact Hok|]. cbn. auto.
  - intros c c' h (key & ->) (l & Hl & Hn & Hok). split; [|split_and!; [done..|apply delete_subseteq]].
    exists (without key l). split_and!; [by apply holds_delete| |by apply Forall_without]. pose proof (length_without key l). lia.
  - intros. by apply begin_ok.
  - intros c [key now] fl e a c' o h (l & Hl & Hn & Hok) He Ha. unfold Get_finish. cbn [rg_key].
    destruct (write_back _ _ _ _ _) as [[cache rejects] r] eqn:Hw. intros [= <- <-].
    destruct (write_back_ok _ l _ (mkGet key now) _ _ h _ _ _ Hl Hn Hok He Ha Hw) as [Hinv Ho]. split_and!; [done..|]. cbn.
    destruct (registered (rc_flights c) !! key) as [fl'|] eqn:Hreg.
    + destruct (Nat.eqb_spec fl' fl) as [->|Hne]; eexists; (split; [|split; [|reflexivity]]); cbn.
      * apply delete_subseteq.
      * by rewrite lookup_delete_eq.
      * done.
      * congruence.
    + eexists. split; [done|]. split; [|reflexivity]. congruence.
Qed.

(** C8. Whatever requests run beside each other, crash, or are
    invalidated, every route a Get returns is one the origin answered for that key: on a
    hit within the fresh window, otherwise the answer to this request, or what landed with
    a flight for the key that was still in the air when the request joined it - a request
    that begins after a flight has landed never gets its result; a degraded answer is an
    older one, within the stale window when the origin failed or instead of a newer answer
    of a lower revision. A 404 is the origin's own word, at most five seconds old; and the
    cache never holds more than its bound. *)
Theorem routes_from_origin (p : Pool _ RouteCache RouteGet (res (R * bool)) _) :
  rtc route_step (mkPool NewRouteCache [] []) p ->
  (forall q o, (q, Ret o) ∈ workers p -> justified rg_key Err route_hit_ok route_outcome_ok (history p) q o) /\
  (len (rc_cache (tables p)) <= Z.to_nat (maxEntries w))%nat.
Proof.
  intros Hs.
  assert (HI : route_inv NewRouteCache []) by (exists []; split_and!; [apply holds_new|cbn; lia|constructor]).
  split.
  - intros q o. by apply (results_justified _ _ _ _ _ _ _ _ _ _ route_coalescing _ _ _ _ HI eq_refl Hs).
  - destruct (invariant_reachable _ _ _ _ _ _ _ _ _ _ route_coalescing _ _ HI eq_refl Hs) as (l & Hl & Hn & _).
    by rewrite (holds_len _ _ Hl).
Qed.

(** While a route is cached, an older revision of it is neither stored
    nor served, whoever loaded it and whenever; the entry that remains is at least as new
    as the cached one. But one authoritative miss in between and any revision is stored
    and served again, although the tombstone keeps the high-water mark for that. *)
Theorem revision_guard c l q fl e v cur t high :
  holds (rc_cache c) l -> get (rc_cache c) (rg_key q) = Some (mkCached (Some cur) t high) -> RouteRevision cur = high ->
  (let '(c', r) := Get_finish c q fl e (Ok (Some v)) in
   (exists v' stale, r = Ok (v', stale) /\ high <= RouteRevision v') /\
   exists v' t', get (rc_cache c') (rg_key q) = Some (mkCached (Some v') t' (RouteRevision v')) /\ high <= RouteRevision v') /\
  (let '(c1, r1) := Get_finish c q fl e (Ok None) in
   r1 = Err ErrNotFound /\ get (rc_cache c1) (rg_key q) = Some (mkCached None (rg_now q) high) /\
   forall q' fl' e', rg_key q' = rg_key q -> (Get_finish c1 q' fl' e' (Ok (Some v))).2 = Ok (v, false)).
Proof.
  intros Hl Hget Hcur. subst high. split.
  - unfold Get_finish, write_back, loaded. rewrite Hget. unfold snapshotRevision.
    destruct (Z.ltb_spec (RouteRevision v) (RouteRevision cur)) as [Hlt|Hge]; cbn [fst snd rc_cache].
    + split; [by exists cur, true|]. exists cur, t. split; [|done]. rewrite (holds_get _ _ _ (holds_touch _ _ _ Hl)).
      rewrite assoc_touched by by eapply holds_nodup. by rewrite <- (holds_get _ _ _ Hl).
    + split; [by exists v, false|]. exists v, (rg_now q). split; [|done].
      rewrite (holds_get _ _ _ (holds_evict _ _ _ (holds_set _ _ _ _ Hl))). apply assoc_cut_stored.
  - unfold Get_finish, write_back. cbn [loaded]. change (errors_Is ErrNotFound ErrNotFound) with true. cbn [fst snd rc_cache].
    rewrite Hget. cbn [Revision].
    assert (Hc1 : get (evict (set (rc_cache c) (rg_key q) (mkCached None (rg_now q) (RouteRevision cur))) (maxEntries w)) (rg_key q)
      = Some (mkCached None (rg_now q) (RouteRevision cur))).
    { rewrite (holds_get _ _ _ (holds_evict _ _ _ (holds_set _ _ _ _ Hl))). apply assoc_cut_stored. }
    split_and!; [done|done|]. intros q' fl' e' Hq. rewrite Hq, Hc1. done.
Qed.
End route_cache.

(** Two requests for a host, one after the other: the second is a hit. *)
Example routes_origin : RouteGet -> res (option Z) := fun _ => Ok (Some 7).
#[local] Instance Z_revisioner : Revisioner Z := fun z => z.
Definition demo_windows : RouteWindows := mkWindows (seconds 5) (seconds 120) 0.

Definition demo_get (n : Z) : RouteGet := mkGet "a.example|primary" (seconds n).
Local Abbreviation demo := (alone (Get_begin (C := lruCache) demo_windows) (Get_finish demo_windows) rc_flights Err routes_origin).

Lemma routes_from_origin_witness :
  exists p, rtc (route_step (R := Z) (C := lruCache) demo_windows) (mkPool NewRouteCache [] []) p /\
    (demo_get 3, Ret (Ok (7, false))) ∈ workers p /\ history p = [(demo_get 1, Led 0); (demo_get 1, Loaded (Ok (Some 7))); (demo_get 1, Landed 0 (Ok (7, false)))] /\
    justified rg_key Err (route_hit_ok demo_windows) (route_outcome_ok demo_windows) (history p) (demo_get 3) (Ok (7, false)).
Proof.
  pose proof (alone_reaches (Get_begin (C := lruCache) demo_windows) (Get_finish demo_windows) rc_flights Err invalidated routes_origin
    (demo_get 1) NewRouteCache [] []) as H1.
  pose proof (alone_after _ _ _ _ _ routes_origin (demo_get 3) _ _ _ _ H1) as H.
  assert (E1 : (demo (demo_get 3) (demo (demo_get 1) NewRouteCache).1.1).1.2 = Ok (7, false)) by (vm_compute; reflexivity).
  assert (E2 : (demo (demo_get 3) (demo (demo_get 1) NewRouteCache).1.1).2 = []) by (vm_compute; reflexivity).
  assert (E3 : (demo (demo_get 1) NewRouteCache).2 = [Led 0; Loaded (Ok (Some 7)); Landed 0 (Ok (7, false))]) by (vm_compute; reflexivity).
  cbv zeta in H. rewrite E1, E2, E3 in H. eexists. split; [exact H|]. split; [apply list_elem_of_here|]. split; [reflexivity|].
  apply (routes_from_origin demo_windows _ H). apply list_elem_of_here.
Defined.

Lemma revision_guard_witness :
  let c := (demo (demo_get 1) NewRouteCache).1.1 in
  let '(c1, r1) := Get_finish demo_windows c (demo_get 20) 1 None (Ok None) in
  r1 = Err ErrNotFound /\ get (rc_cache c1) "a.example|primary"%string = Some (mkCached None (seconds 20) 7) /\
  (Get_finish demo_windows c1 (demo_get 30) 2 None (Ok (Some 3))).2 = Ok (3, false).
Proof.
  pose proof (alone_reaches (Get_begin (C := lruCache) demo_windows) (Get_finish demo_windows) rc_flights Err invalidated routes_origin
    (demo_get 1) NewRouteCache [] []) as H1.
  assert (HI : route_inv demo_windows (NewRouteCache (R := Z) (C := lruCache)) []) by (exists []; split_and!; [apply new_holds|cbn; lia|constructor]).
  destruct (invariant_reachable _ _ _ _ _ _ _ _ _ _ (route_coalescing demo_windows) _ _ HI eq_refl H1) as (l & Hl & _ & _). cbn [tables] in Hl.
  assert (Hget : get (rc_cache (demo (demo_get 1) NewRouteCache).1.1) (rg_key (demo_get 20)) = Some (mkCached (Some 7) (seconds 1) 7))
    by (vm_compute; reflexivity).
  destruct (revision_guard demo_windows _ l (demo_get 20) 1 None 3 7 (seconds 1) 7 Hl Hget eq_refl) as [_ Hmiss].
  cbv zeta. destruct (Get_finish demo_windows _ (demo_get 20) 1 None (Ok None)) as [c1 r1]. destruct Hmiss as (Hr & Hg & Hlow).
  split; [exact Hr|]. split; [exact Hg|]. apply (Hlow (demo_get 30) 2%nat None). reflexivity.
Defined.

(** ** TokenClient *)

Definition maxTokenStaleWindow : Z := seconds 120.
Definition defaultTokenStale : Z := seconds 120.
Definition defaultTokenCacheMaxEntries : Z := 10000.

Record tokenEntry := mkToken { token : string; execution : string; fetchedAt : Z }.

(** The configuration of a client; [bearer] is its field token. *)
Record TokenConfig := mkTokenConfig {
  addr : string; bearer : string; ttl : Z; stale : Z; tc_MaxEntries : Z; RequireTLS : bool }.

Definition NewTokenClient (addr token : string) (ttl : Z) : TokenConfig :=
  mkTokenConfig addr token ttl defaultTokenStale defaultTokenCacheMaxEntries false.

Definition token_maxEntries (t : TokenConfig) : Z := if 0 <? tc_MaxEntries t then tc_MaxEntries t else defaultTokenCacheMaxEntries.

Definition SetStaleWindow (t : TokenConfig) (d : Z) : TokenConfig :=
  if d <=? 0 then t
  else mkTokenConfig (addr t) (bearer t) (ttl t) (if maxTokenStaleWindow <? d then maxTokenStaleWindow else d)
         (tc_MaxEntries t) (RequireTLS t).

Definition disabled (t : TokenConfig) : bool := String.eqb (addr t) "" || String.eqb (bearer t) "".

Definition errTokenExecutionMismatch : goerr := errors_New "traffic-token execution mismatch".
Definition errTokenEmpty : goerr := errors_New "traffic-token fetch returned empty token".

(** What comes back of the request: its construction or the transport fails, or a status
    and, if the body decodes, its token and execution. *)
Inductive http_answer :=
  | NoAnswer (e : goerr)
  | Answer (status : Z) (body : res (string * string)).

Section token_client.
Context {C : Type -> Type} `{!LruOps C} (scheme_of : string -> res string) (t : TokenConfig).

Definition fetch (machineID executionID : string) (a : http_answer) : res string :=
  match scheme_of (addr t) with
  | Err e => Err (Errorf "traffic-token endpoint %q: %v" [AStr (addr t); AErr e])
  | Ok scheme =>
      if negb (String.eqb scheme "https") && RequireTLS t then
        Err (Errorf ("traffic-token endpoint must use https (got scheme %q); " +:+
                     "serve the control-plane API over TLS or unset FIREPAAS_EDGE_API_REQUIRE_TLS") [AStr scheme])
      else match a with
      | NoAnswer e => Err e
      | Answer status body =>
          if negb (status =? 200) then Err (Errorf "traffic-token %s: HTTP %d" [AStr machineID; AInt status])
          else match body with
          | Err e => Err (Errorf "traffic-token %s decode: %v" [AStr machineID; AErr e])
          | Ok (tok, ex) =>
              if String.eqb tok "" then Err (Errorf "traffic-token %s decode: %v" [AStr machineID; AStr "<nil>"])
              else if negb (String.eqb executionID "") && negb (String.eqb ex executionID) then
                Err (Errorf "%w for machine %s" [AErr errTokenExecutionMismatch; AStr machineID])
              else Ok tok
          end
      end
  end.

Definition NUL : string := String (Ascii.ascii_of_nat 0) EmptyString.
Definition token_key (machineID executionID : string) : string := machineID +:+ NUL +:+ executionID.

Record TokenGet := mkTokenGet { tg_machine : string; tg_execution : string; tg_now : Z }.
Definition tg_key (q : TokenGet) : string := token_key (tg_machine q) (tg_execution q).

Record TokenClient := mkTokenClient { tc_cache : C tokenEntry; tc_flights : Flights (res (string * bool)) }.
Definition no_tokens : TokenClient := mkTokenClient (newLRUCache _) no_flights.

Implicit Types (c : TokenClient) (q : TokenGet).

Definition token_begin c q : TokenClient * looked unit (res (string * bool)) :=
  let key := tg_key q in
  let miss cache :=
    match registered (tc_flights c) !! key with
    | Some fl => (mkTokenClient cache (tc_flights c), Wait fl)
    | None => (mkTokenClient cache (register (tc_flights c) key), Lead (started (tc_flights c)) tt)
    end in
  match get (tc_cache c) key with
  | Some e =>
      if tg_now q - fetchedAt e <? ttl t then (mkTokenClient (touch (tc_cache c) key) (tc_flights c), Hit (Ok (token e, false)))
      else if stale t <=? tg_now q - fetchedAt e then miss (delete_key (tc_cache c) key)
      else miss (tc_cache c)
  | None => miss (tc_cache c)
  end.

(** An answer and the time it was read at. *)
Record fetched := mkFetched { fetched_answer : http_answer; fetched_at : Z }.

(** [(empty, nil)] is an error. *)
Definition fetch_result q (a : http_answer) : res string :=
  match fetch (tg_machine q) (tg_execution q) a with
  | Ok tok => if String.eqb tok "" then Err errTokenEmpty else Ok tok
  | Err e => Err e
  end.

Definition token_finish c q (fl : nat) (_ : unit) (a : fetched) : TokenClient * res (string * bool) :=
  let key := tg_key q in
  let f r := close_flight (unregister (tc_flights c) key) fl r in
  match fetch_result q (fetched_answer a) with
  | Ok tok =>
      let e := mkToken tok (tg_execution q) (fetched_at a) in
      (mkTokenClient (evict (set (tc_cache c) key e) (token_maxEntries t)) (f (Ok (tok, false))), Ok (tok, false))
  | Err err =>
      let failed := (mkTokenClient (tc_cache c) (f (Err err)), Err err) in
      match get (tc_cache c) key with
      | Some e =>
          if String.eqb (execution e) (tg_execution q) && negb (errors_Is err errTokenExecutionMismatch) &&
             (tg_now q - fetchedAt e <? stale t) then
            (mkTokenClient (touch (tc_cache c) key) (f (Ok (token e, true))), Ok (token e, true))
          else failed
      | None => failed
      end
  end.

Definition token_Get q : prog (cache_eff TokenGet unit fetched (res (string * bool))) (res (string * bool)) :=
  if disabled t then Ret (Ok (""%string, false)) else coalesced Err q.

Definition token_Invalidate c (machineID : string) : TokenClient :=
  if disabled t then c else mkTokenClient (deletePrefix (tc_cache c) (machineID +:+ NUL)) (tc_flights c).

(** *** What every token is *)

Context `{!Lru C}.
Local Abbreviation log := (list (TokenGet * cache_event fetched (res (string * bool)))).

(** [tok] is what the control plane gave, read at [at_], for a request with this key. *)
Definition granted (h : log) (key : string) (tok ex : string) (at_ : Z) : Prop :=
  exists q a, tg_key q = key /\ tg_execution q = ex /\ (q, Loaded (mkFetched a at_)) ∈ h /\ fetch_result q a = Ok tok.

Definition entry_granted (h : log) (ke : string * tokenEntry) : Prop :=
  granted h ke.1 (token ke.2) (execution ke.2) (fetchedAt ke.2).

Definition token_hit_ok (h : log) q (o : res (string * bool)) : Prop :=
  match o with
  | Ok (tok, false) => exists ex at_, granted h (tg_key q) tok ex at_ /\ tg_now q - at_ < ttl t
  | _ => False
  end.

Definition token_outcome_ok (h : log) q (o : res (string * bool)) : Prop :=
  exists a, (q, Loaded a) ∈ h /\
  match o with
  | Ok (tok, false) => fetch_result q (fetched_answer a) = Ok tok
  | Ok (tok, true) => exists at_, granted h (tg_key q) tok (tg_execution q) at_ /\ tg_now q - at_ < stale t /\
      exists e, fetch_result q (fetched_answer a) = Err e /\ errors_Is e errTokenExecutionMismatch = false
  | Err e => fetch_result q (fetched_answer a) = Err e
  end.

Definition token_inv c (h : log) : Prop :=
  exists l, holds (tc_cache c) l /\ (length l <= Z.to_nat (token_maxEntries t))%nat /\ Forall (entry_granted h) l.

Definition token_invalidated c c' : Prop := exists machineID, c' = token_Invalidate c machineID.
Definition token_step := cache_step token_begin token_finish tc_flights Err token_invalidated.

Lemma granted_mono h h' key tok ex at_ : granted h key tok ex at_ -> granted (h ++ h') key tok ex at_.
Proof. intros (q & a & ? & ? & ? & ?). exists q, a. split_and!; [done..| |done]. by apply elem_grows. Qed.
Hint Resolve granted_mono : core.

Lemma token_bound_pos : bound (token_maxEntries t) = Z.to_nat (token_maxEntries t).
Proof.
  unfold token_maxEntries, bound, defaultTokenCacheMaxEntries. destruct (Z.ltb_spec 0 (tc_MaxEntries t)); [|done].
  destruct (Z.leb_spec (tc_MaxEntries t) 0); lia.
Qed.

(** The smaller caches keep the invariant. *)
Lemma token_inv_sub c c' h l l' :
  holds (tc_cache c') l' -> (length l' <= length l)%nat -> (Forall (entry_granted h) l -> Forall (entry_granted h) l') ->
  (length l <= Z.to_nat (token_maxEntries t))%nat -> Forall (entry_granted h) l -> token_inv c' h.
Proof. intros Hl Hlen Hf Hn Hok. exists l'. split_and!; [done|lia|auto]. Qed.

Lemma token_begin_ok c q c' l h : token_inv c h -> token_begin c q = (c', l) -> token_inv c' h /\
  match l with
  | Hit o => tc_flights c' = tc_flights c /\ token_hit_ok h q o
  | Wait fl => tc_flights c' = tc_flights c /\ registered (tc_flights c) !! tg_key q = Some fl
  | Lead fl e => tc_flights c' = register (tc_flights c) (tg_key q) /\ fl = started (tc_flights c) /\ True
  end.
Proof.
  intros (es & Hes & Hn & Hok). unfold token_begin.
  assert (Hdel : exists es', holds (delete_key (tc_cache c) (tg_key q)) es' /\ (length es' <= Z.to_nat (token_maxEntries t))%nat /\
      Forall (entry_granted h) es').
  { exists (without (tg_key q) es). split_and!; [by apply holds_delete| |by apply Forall_without].
    pose proof (length_without (tg_key q) es). lia. }
  destruct (get (tc_cache c) (tg_key q)) as [e|] eqn:E.
  - destruct (Z.ltb_spec (tg_now q - fetchedAt e) (ttl t)) as [Hlt|_].
    + intros [= <- <-]. split.
      * exists (touched (tg_key q) es). split_and!; [by apply holds_touch| |by apply Forall_touched].
        pose proof (length_touched (tg_key q) es). lia.
      * split; [done|]. exists (execution e), (fetchedAt e). split; [|done]. rewrite (holds_get _ _ _ Hes) in E.
        exact (assoc_Forall _ _ _ _ Hok E).
    + destruct (stale t <=? _); destruct (registered _ !! _) eqn:Hr; intros [= <- <-]; (split; [first [exact Hdel | by exists es]|done]).
  - destruct (registered _ !! _) eqn:Hr; intros [= <- <-]; (split; [by exists es|done]).
Qed.

Lemma token_coalescing :
  coalescing tg_key token_begin token_finish tc_flights token_invalidated token_inv token_hit_ok token_outcome_ok (fun _ _ _ => True).
Proof.
  split; [..|auto| | | |].
  - intros h h' q [[tok []]|e]; cbn; naive_solver.
  - intros h h' q [[tok []]|e] (a & Ha & Ho); exists a; (split; [by apply elem_grows|]); naive_solver.
  - intros c h h' (l & Hl & Hn & Hok). exists l. split_and!; [done..|]. eapply Forall_impl; [exact Hok|]. intros ke. apply granted_mono.
  - intros c c' h (m & ->) (l & Hl & Hn & Hok). unfold token_Invalidate. destruct (disabled t); [by split; [exists l|]|].
    split; [|done]. exists (without_prefix (m +:+ NUL) l). split_and!; [by apply holds_deletePrefix| |by apply Forall_without_prefix].
    etrans; [apply List.filter_length_le|done].
  - intros. by apply token_begin_ok.
  - intros c q fl e a c' o h (l & Hl & Hn & Hok) _ Ha. unfold token_finish.
    assert (Hreg : forall r, exists reg, reg ⊆ registered (tc_flights c) /\ reg !! tg_key q <> Some fl /\
        close_flight (unregister (tc_flights c) (tg_key q)) fl r =
          mkFlights reg (started (tc_flights c)) (<[fl := r]> (results (tc_flights c)))).
    { intros r. eexists. split; [apply delete_subseteq|]. split; [by rewrite lookup_delete_eq|done]. }
    destruct (fetch_result q (fetched_answer a)) as [tok|err] eqn:Ef.
    + intros [= <- <-]. split_and!.
      * exists (cut (token_maxEntries t) (stored (tg_key q) (mkToken tok (tg_execution q) (fetched_at a)) l)). split_and!.
        -- by apply holds_evict, holds_set.
        -- rewrite <- token_bound_pos. apply cut_length.
        -- apply Forall_cut, Forall_stored; [|done]. exists q, (fetched_answer a). split_and!; [done..| |done]. by destruct a.
      * by exists a.
      * apply Hreg.
    + assert (Hfail : token_inv (mkTokenClient (tc_cache c) (close_flight (unregister (tc_flights c) (tg_key q)) fl (Err err))) h /\
        token_outcome_ok h q (Err err)) by (split; [by exists l|by exists a]).
      destruct (get (tc_cache c) (tg_key q)) as [te|] eqn:E.
      * destruct (_ && _ && _) eqn:Hb; intros [= <- <-]; [|destruct Hfail; split_and!; [done..|apply Hreg]].
        bool_to_prop. split_and!.
        -- exists (touched (tg_key q) l). split_and!; [by apply holds_touch| |by apply Forall_touched].
           pose proof (length_touched (tg_key q) l). lia.
        -- exists a. split; [done|]. exists (fetchedAt te). split_and!; [|done|by exists err].
           rewrite (holds_get _ _ _ Hl) in E. pose proof (assoc_Forall _ _ _ _ Hok E) as Hg. unfold entry_granted in Hg. cbn in Hg. congruence.
        -- apply Hreg.
      * intros [= <- <-]. destruct Hfail. split_and!; [done..|apply Hreg].
Qed.

(** Machine ids hold no NUL byte. *)
Definition nul_free (s : string) : bool := forallb (fun x => negb (Ascii.eqb x (Ascii.ascii_of_nat 0))) (String.list_ascii_of_string s).

Lemma token_key_inj m m' e e' : nul_free m = true -> nul_free m' = true -> token_key m e = token_key m' e' -> m = m' /\ e = e'.
Proof.
  unfold token_key, NUL, nul_free. revert m'. induction m as [|x m IH]; intros [|x' m'] Hm Hm'; cbn in Hm, Hm'.
  - rewrite !append_nil, !append_cons, !append_nil. intros Heq. by injection Heq as ->.
  - rewrite !append_nil, !append_cons. intros Heq. injection Heq as <- _. done.
  - rewrite !append_nil, !append_cons. intros Heq. injection Heq as -> _. done.
  - rewrite !append_cons. intros Heq. injection Heq as <- Heq. apply andb_true_iff in Hm as [_ Hm], Hm' as [_ Hm']. destruct (IH m' Hm Hm' Heq) as [-> ->]. done.
Qed.

Lemma fetch_ok m ex a tok : fetch m ex a = Ok tok ->
  exists got, a = Answer 200 (Ok (tok, got)) /\ tok <> ""%string /\ (ex = ""%string \/ got = ex) /\
    (RequireTLS t = true -> scheme_of (addr t) = Ok "https"%string).
Proof.
  unfold fetch. destruct (scheme_of (addr t)) as [scheme|]; [|done]. destruct (negb (String.eqb scheme "https") && RequireTLS t) eqn:Htls; [done|].
  destruct a as [e|status [[tk got]|e]]; [done| |by destruct (status =? 200)].
  destruct (Z.eqb_spec status 200) as [->|]; [|done]. cbn [negb]. destruct (String.eqb_spec tk "") as [|Hne]; [done|].
  destruct (negb (String.eqb ex "") && _) eqn:Hex; [done|]. intros Heq. injection Heq as ->. exists got. split_and!; [done..| |].
  - apply andb_false_iff in Hex as [Hex|Hex]; bool_to_prop; auto.
  - intros Hr. rewrite Hr in Htls. apply andb_false_iff in Htls as [Htls|]; [|done]. bool_to_prop. by subst.
Qed.

(** A token handed out for an execution of a machine is one the control
    plane answered, with status 200 and not empty, for that machine and exactly that
    execution - fresh, degraded or shared with another request, whatever the interleaving
    and however often the cache was invalidated; over https if TLS is required. The cache
    stays within its bound. *)
Theorem token_bound (p : Pool _ TokenClient TokenGet (res (string * bool)) _) :
  rtc token_step (mkPool no_tokens [] []) p ->
  (forall q ev, (q, ev) ∈ history p -> nul_free (tg_machine q) = true) ->
  (len (tc_cache (tables p)) <= Z.to_nat (token_maxEntries t))%nat /\
  forall q tok st, (q, Ret (Ok (tok, st))) ∈ workers p -> nul_free (tg_machine q) = true ->
  exists q' at_ got, (q', Loaded (mkFetched (Answer 200 (Ok (tok, got))) at_)) ∈ history p /\
    tg_machine q' = tg_machine q /\ tg_execution q' = tg_execution q /\
    (tg_execution q = ""%string \/ got = tg_execution q) /\ tok <> ""%string /\
    (RequireTLS t = true -> scheme_of (addr t) = Ok "https"%string).
Proof.
  intros Hs Hnul.
  assert (HI : token_inv no_tokens []) by (exists []; split_and!; [apply holds_new|cbn; lia|constructor]).
  split.
  { destruct (invariant_reachable _ _ _ _ _ _ _ _ _ _ token_coalescing _ _ HI eq_refl Hs) as (l & Hl & Hn & _).
    by rewrite (holds_len _ _ Hl). }
  intros q tok st Hin Hq.
  assert (Hg : exists ex at_, granted (history p) (tg_key q) tok ex at_).
  { assert (outcome_grants : forall q0, token_outcome_ok (history p) q0 (Ok (tok, st)) ->
      exists ex at_, granted (history p) (tg_key q0) tok ex at_).
    { intros q0 (a & Ha & Ho). destruct st; [destruct Ho as (at_ & Hg & _); by eexists _, at_|].
      exists (tg_execution q0), (fetched_at a). exists q0, (fetched_answer a). split_and!; [done..| |done]. by destruct a. }
    destruct (results_justified _ _ _ _ _ _ _ _ _ _ token_coalescing _ _ _ _ HI eq_refl Hs Hin) as [Hh|[Hown|[(q' & fl & Hj & _ & Ho)|[e He]]]]; [| | |done].
    - destruct st; [done|]. destruct Hh as (ex & at_ & Hg & _). by exists ex, at_.
    - by apply (outcome_grants q).
    - destruct Hj as (h1 & h2 & _ & _ & <- & _). by apply (outcome_grants q'). }
  destruct Hg as (ex & at_ & q' & a & Hk & _ & Ha & Hf). exists q', at_.
  destruct (token_key_inj _ _ _ _ (Hnul _ _ Ha) Hq Hk) as [Hm He].
  unfold fetch_result in Hf. destruct (fetch _ _ a) as [tk|] eqn:Hfetch; [|done]. destruct (String.eqb tk ""); [done|]. injection Hf as ->.
  destruct (fetch_ok _ _ _ _ Hfetch) as (got & -> & Hne & Hex & Htls). exists got. rewrite <- He, <- Hm. done.
Qed.
End token_client.

Definition demo_client : TokenConfig := SetStaleWindow (NewTokenClient "http://api" "bearer" (seconds 300)) (seconds 600).
Definition demo_token (machineID : string) : TokenGet := mkTokenGet machineID "ex-1" 0.
Definition demo_grants (q : TokenGet) : fetched := mkFetched (Answer 200 (Ok ("t0", tg_execution q))) (seconds 1).
Definition demo_scheme (addr : string) : res string := Ok "http"%string.

Lemma token_bound_witness :
  exists p at_ got, rtc (token_step (C := lruCache) demo_scheme demo_client) (mkPool no_tokens [] []) p /\
    (demo_token "m-1", Ret (Ok ("t0"%string, false))) ∈ workers p /\
    (demo_token "m-1", Loaded (mkFetched (Answer 200 (Ok ("t0", got))) at_)) ∈ history p /\ got = "ex-1"%string.
Proof.
  pose proof (alone_reaches (token_begin (C := lruCache) demo_client) (token_finish demo_scheme demo_client) tc_flights Err
    (token_invalidated demo_client) demo_grants (demo_token "m-1") no_tokens [] []) as H.
  assert (E1 : (alone (token_begin (C := lruCache) demo_client) (token_finish demo_scheme demo_client) tc_flights Err
    demo_grants (demo_token "m-1") no_tokens).1.2 = Ok ("t0"%string, false)) by (vm_compute; reflexivity).
  assert (E2 : (alone (token_begin (C := lruCache) demo_client) (token_finish demo_scheme demo_client) tc_flights Err
    demo_grants (demo_token "m-1") no_tokens).2 = [Led 0; Loaded (demo_grants (demo_token "m-1")); Landed 0 (Ok ("t0"%string, false))]) by (vm_compute; reflexivity).
  cbv zeta in H. rewrite E1, E2 in H.
  destruct (token_bound demo_scheme demo_client _ H) as [_ Hall].
  { intros q ev Hin. apply elem_of_cons in Hin as [Hin|Hin]; [by injection Hin as -> _|].
    apply elem_of_cons in Hin as [Hin|Hin]; [by injection Hin as -> _|].
    apply elem_of_cons in Hin as [Hin|Hin]; [by injection Hin as -> _|by apply not_elem_of_nil in Hin]. }
  destruct (Hall (demo_token "m-1") "t0"%string false) as (q' & at_ & got & Hin & _ & _ & [Hex|Hex] & _); [apply list_elem_of_here|reflexivity|discriminate Hex|].
  eexists _, (seconds 1), "ex-1"%string. split; [exact H|]. split; [apply list_elem_of_here|]. split; [|reflexivity].
  apply list_elem_of_further, list_elem_of_here.
Defined.

(** ** RateLimiter *)

Record bucket := mkBucket { tokens : float64; last_refill : Z }.
Record LimiterConfig := mkLimiterConfig { rate : float64; burst : float64; MaxBuckets : Z }.

Definition maxBuckets (c : LimiterConfig) : Z := if 0 <? MaxBuckets c then MaxBuckets c else 10000.

(** [time.Duration.Seconds]. *)
Definition Seconds (d : Z) : float64 := fadd (fof_Z (Z.quot d (10 ^ 9))) (fdiv (fof_Z (Z.rem d (10 ^ 9))) (fof_Z (10 ^ 9))).

Definition fone : float64 := fof_Z 1.

Section limiter.
Context {C : Type -> Type} `{!LruOps C} (c : LimiterConfig).

Definition refill (b : bucket) (now : Z) : float64 :=
  let t := fadd (tokens b) (fmul (Seconds (now - last_refill b)) (rate c)) in
  if fgtb t (burst c) then burst c else t.

(** The bucket is written through its pointer. *)
Definition Allow (l : C bucket) (host : string) (now : Z) : C bucket * bool :=
  if fleb (rate c) fzero then (l, true)
  else match get l host with
       | None => (evict (set l host (mkBucket (fsub (burst c) fone) now)) (maxBuckets c), true)
       | Some b =>
           let t := refill b now in
           let ok := fleb fone t in
           (write (touch l host) host (mkBucket (if ok then fsub t fone else t) now), ok)
       end.
End limiter.
