(* ===== verification/EdgeHandler.v ===== *)
(** * Serving a request at the edge (edge/handler.go, edge/mesh/mesh.go)

    [ServeHTTP] is a program over the caches of [EdgeCache], the table of requests in
    flight and the two transports; the response writer is a value of the request. What
    net/http and httputil.ReverseProxy do with a response, an informational response, a
    failed round trip or a broken body, and the hop-by-hop headers it removes, are
    written out; the headers it adds for upgrades and trailers, X-Forwarded-For, trace
    headers, metrics and logs are left out. *)
From S2P Require Import Prelude Programs GoString GoFloat GoNet Catalog EdgeCache.
From Stdlib Require Import Ascii.
Local Open Scope Z_scope.
Local Open Scope prog_scope.

(** ** net/http *)

(** http.Header, its keys in canonical form. *)
Abbreviation Header := (gmap string (list string)).
Definition hget (h : Header) (k : string) : string := match h !! k with Some (v :: _) => v | _ => "" end.
Definition hset (k v : string) (h : Header) : Header := <[k := [v]]> h.
Definition hdel (k : string) (h : Header) : Header := delete k h.
Definition hdel_all (ks : list string) (h : Header) : Header := foldl (fun h k => hdel k h) h ks.
(** [copyHeader]: the values are added. *)
Definition copy_header (dst src : Header) : Header := union_with (fun a b => Some (a ++ b)) dst src.

(** [http.CanonicalHeaderKey]. *)
Definition token_byte (c : ascii) : bool :=
  in_range "a" "z" c || in_range "A" "Z" c || is_digit c || contains_byte "!#$%&'*+-.^_`|~" c.
Definition upper_byte (c : ascii) : ascii := if in_range "a" "z" c then ascii_of_nat (nat_of_ascii c - 32) else c.
Fixpoint canonical_from (upper : bool) (s : string) : string :=
  match s with
  | EmptyString => EmptyString
  | String c s => String (if upper then upper_byte c else lower_byte c) (canonical_from (Ascii.eqb c "-") s)
  end.
Definition CanonicalHeaderKey (s : string) : string := if sforall token_byte s then canonical_from true s else s.

(** [textproto.TrimString]. *)
Definition is_lws (c : ascii) : bool := bool_decide (nat_of_ascii c ∈ [32; 9; 10; 13]%nat).
Fixpoint ltrim (s : string) : string :=
  match s with String c r => if is_lws c then ltrim r else s | EmptyString => EmptyString end.
Definition TrimString (s : string) : string := String.rev (ltrim (String.rev (ltrim s))).

(** The headers a Connection header names, and the hop-by-hop ones. *)
Definition connection_names (h : Header) : list string :=
  f ← default [] (h !! "Connection"); sf ← split_byte "," f;
  let sf := TrimString sf in if String.eqb sf "" then [] else [CanonicalHeaderKey sf].
Definition hop_headers : list string :=
  ["Connection"; "Proxy-Connection"; "Keep-Alive"; "Proxy-Authenticate"; "Proxy-Authorization"; "Te"; "Trailer";
   "Transfer-Encoding"; "Upgrade"].
Definition removeHopByHopHeaders (h : Header) : Header := hdel_all hop_headers (hdel_all (connection_names h) h).

(** The response writer: its header map, the final status and body sent to the client,
    and what [statusRecorder] recorded. *)
Record Writer := mkWriter { w_header : Header; w_status : option Z; w_body : list string; rec_status : Z; rec_wrote : bool }.

Definition new_writer (h : Header) : Writer := mkWriter h None [] 200 false.
Definition with_header (f : Header -> Header) (w : Writer) : Writer :=
  mkWriter (f (w_header w)) (w_status w) (w_body w) (rec_status w) (rec_wrote w).

(** [statusRecorder.WriteHeader] over net/http's: an informational status is sent and is
    not final; only the first final one counts. *)
Definition informational (code : Z) : bool := (100 <=? code) && (code <=? 199) && negb (code =? 101).
Definition WriteHeader (code : Z) (w : Writer) : Writer :=
  mkWriter (w_header w)
    (match w_status w with Some s => Some s | None => if informational code then None else Some code end)
    (w_body w) (if rec_wrote w then rec_status w else code) true.
(** [statusRecorder.Write]: without a status it is 200. *)
Definition Write (s : string) (w : Writer) : Writer :=
  mkWriter (w_header w) (match w_status w with Some s => Some s | None => Some 200 end) (w_body w ++ [s]) (rec_status w) true.

(** [http.Error]. *)
Definition http_Error (msg : string) (code : Z) (w : Writer) : Writer :=
  Write (msg +:+ String (Ascii.ascii_of_nat 10) "") (WriteHeader code (with_header (fun h =>
    hset "X-Content-Type-Options" "nosniff" (hset "Content-Type" "text/plain; charset=utf-8" (hdel "Content-Length" h))) w)).

(** What the client gets: a handler that returns without a status answers 200. *)
Definition client_status (w : Writer) : Z := default 200 (w_status w).

(** [strconv.Atoi]. *)
Definition Atoi (s : string) : option Z :=
  let '(neg, digits) :=
    match s with
    | String c r => if Ascii.eqb c "-" then (true, r) else if Ascii.eqb c "+" then (false, r) else (false, s)
    | _ => (false, s)
    end in
  if String.eqb digits "" then None
  else v ← digits_val 0 digits; let v := if neg : bool then - v else v in
       if (- 2 ^ 63 <=? v) && (v <? 2 ^ 63) then Some v else None.

(** ** Headers of the edge *)

Definition HeaderMachineID := "X-Firepaas-Machine-Id"%string.
Definition HeaderExecutionID := "X-Firepaas-Execution-Id"%string.
Definition HeaderPinMachine := "X-Firepaas-Pin-Machine"%string.
Definition HeaderAppPort := "X-Firepaas-App-Port"%string.
Definition headerProxyRetryable := "X-Firepaas-Proxy-Retryable"%string.
Definition retryableProxyValue := "true"%string.
Definition HeaderRequestID := "X-Firepaas-Request-Id"%string.
Definition HeaderClientRequestID := "X-Request-Id"%string.
Definition HeaderCredential := "X-Firepaas-Credential"%string.

(** ** Requests in flight *)

(** A count per machine; a missing entry is 0. *)
Abbreviation inflightTracker := (gmap string Z).
Definition inflight (t : inflightTracker) (id : string) : Z := default 0 (t !! id).

Definition release (t : inflightTracker) (id : string) : inflightTracker :=
  match t !! id with
  | Some n => if n - 1 =? 0 then delete id t else <[id := n - 1]> t
  | None => t
  end.

Definition snapshot (t : inflightTracker) : gmap string Z := filter (fun kv => 0 < kv.2) t.

(** InflightTotal: the sum and the number of machines. *)
Definition InflightTotal (t : inflightTracker) : Z * nat := (sum_map (fun _ n => n) (snapshot t), size (snapshot t)).

Definition effectiveWeight (b : Backend) : Z := if Weight b <=? 0 then 1 else Weight b.

Record inflightCandidate := mkCandidate { c_backend : Backend; c_inflight : Z; c_weight : Z }.

Definition dampedWeight (c : inflightCandidate) : float64 := fdiv (fof_Z (c_weight c)) (fof_Z (1 + c_inflight c)).

Definition allEqualWeights (cs : list inflightCandidate) : bool :=
  match cs with [] => true | c0 :: cs => forallb (fun c => c_weight c =? c_weight c0) cs end.

Definition acquireLocked (t : inflightTracker) (b : Backend) : inflightTracker :=
  <[MachineID b := inflight t (MachineID b) + 1]> t.

(** The draws of math/rand: [rand.Intn] of the length given, [rand.Float64]. *)
Record Rand := mkRand { Intn : nat -> nat; Float64 : float64 }.

Definition candidates (t : inflightTracker) (bs : list Backend) (hard : Z) : list inflightCandidate :=
  omap (fun b => let n := inflight t (MachineID b) in
                 if hard <=? n then None else Some (mkCandidate b n (effectiveWeight b))) bs.

Definition least (cs : list inflightCandidate) (m : Z) : Z :=
  foldl (fun m c => if c_inflight c <? m then c_inflight c else m) m cs.

(** The candidate whose interval the draw falls into. *)
Fixpoint pick_weighted (cs : list inflightCandidate) (pick : float64) : option Backend :=
  match cs with
  | [] => None
  | c :: cs => let pick := fsub pick (dampedWeight c) in
               if fltb pick fzero then Some (c_backend c) else pick_weighted cs pick
  end.

Definition selectAndAcquire (rnd : Rand) (t : inflightTracker) (bs : list Backend) (hard : Z) :
    inflightTracker * option Backend :=
  match candidates t bs hard with
  | [] => (t, None)
  | (c0 :: rest) as eligible =>
      let chosen :=
        if allEqualWeights eligible then
          let min := least rest (c_inflight c0) in
          let pool := List.filter (fun c => c_inflight c =? min) eligible in
          c_backend <$> nth_error pool (Intn rnd (length pool))
        else
          let total := foldl (fun s c => fadd s (dampedWeight c)) fzero eligible in
          match pick_weighted eligible (fmul (Float64 rnd) total) with
          | Some b => Some b
          | None => c_backend <$> last eligible
          end in
      match chosen with Some b => (acquireLocked t b, Some b) | None => (t, None) end
  end.

(** ** Requests and handlers *)

(** Of a request: [listen_port] is the value WithListenPort put in its context,
    [req_id] the id the handler generates for it. *)
Record Request := mkRequest {
  Path : string; Host : string; ReqHeader : Header; has_body : bool; listen_port : option Z; req_id : string }.

Record Handler := mkHandler {
  hardConcurrency : Z; edgePorts : gset Z; has_tracker : bool; has_direct : bool; agentTLS : bool }.

(** NewHandler's default of the limit. *)
Definition hard_limit (configured : Z) : Z := if configured <=? 0 then 256 else configured.

Definition routeCacheKey (host : string) (port : Z) : string :=
  if port =? 0 then host +:+ "|primary" else host +:+ "|" +:+ itoa port.

Definition stripPort (hostport : string) : string :=
  match SplitHostPort hostport with Some (h, _) => h | None => hostport end.

Definition requestRoutePort (h : Handler) (r : Request) : Z :=
  let from_host :=
    match SplitHostPort (Host r) with
    | Some (_, raw) => match Atoi raw with
                       | Some p => if (0 <? p) && negb (bool_decide (p ∈ edgePorts h)) then p else 0
                       | None => 0
                       end
    | None => 0
    end in
  match listen_port r with Some p => if 0 <? p then p else from_host | None => from_host end.

(** What the origin of the route cache answers for a host and port, from the projection
    as it is. *)
Definition loadRoute (io : redis_io) (st : Redis) (host : string) (port : Z) : res (option Route) :=
  let found (r : option Route) := match r with Some r => Ok (Some r) | None => Err ErrNotFound end in
  if port =? 0 then
    match GetRouteForHostname io host st with Ok r => found r | Err e => Err e end
  else
    let '(r, declared, err) := GetRouteForPort io host port st in
    match err with
    | Some e => Err e
    | None => found (if declared : bool then r else None)
    end.

(** ** Effects *)

(** An outgoing request of one of the two proxies. *)
Record OutRequest := mkOut { o_https : bool; o_host : string; o_header : Header }.

(** The errors a proxy's ErrorHandler sees: the two signals of ModifyResponse, or the
    chain of a transport error. *)
Inductive link := NoDirect | OpError (op : string) | DNSError | OtherError.
#[export] Instance link_dec : EqDecision link.
Proof. solve_decision. Defined.
Inductive proxy_err := RetryForbidden | RetryProxyRoute | Transport (chain : list link).

(** What comes back of a round trip: informational responses, then a response - whose
    body may break off - or an error. *)
Record UpstreamResponse := mkUpstream { StatusCode : Z; RespHeader : Header; RespBody : string; complete : bool }.
Record upstream := mkAnswer { infos : list (Z * Header); answer : UpstreamResponse + list link }.

Inductive eff : Type -> Type :=
  | Allow (host : string) : eff bool
  | RouteGet (key : string) (host : string) (port : Z) : eff (res (Route * bool))
  | RouteInvalidate (key : string) : eff unit
  | TokenGet (machineID executionID : string) : eff (res (string * bool))
  | TokenInvalidate (machineID : string) : eff unit
  | Select (bs : list Backend) : eff (option Backend)
  | Release (id : string) : eff unit
  | TrackAcquire (host : string) : eff unit
  | TrackRelease (host : string) : eff unit
  | TrackHardRejected (host : string) : eff unit
  | TrackUnserved (host : string) : eff unit
  | CtxDone : eff bool
  | MeshEndpoint (machineID executionID : string) : eff (option (string * Z))
  | RoundTrip (out : OutRequest) : eff upstream
  | DirectRoundTrip (out : OutRequest) : eff upstream.

Local Abbreviation prog := (Programs.prog eff).

(** ** The proxies *)

Inductive retryReason := retryNone | retryForbidden | retryTransport.
#[export] Instance retryReason_dec : EqDecision retryReason.
Proof. solve_decision. Defined.

Section handler.
Context (h : Handler) (r : Request).

(** The authoritative headers of a request to an agent. ReverseProxy removes the
    hop-by-hop headers after the director ran. *)
Definition Director (b : Backend) (cred : string) : OutRequest :=
  let hd := hdel_all [HeaderMachineID; HeaderExecutionID; HeaderAppPort; HeaderPinMachine; headerProxyRetryable;
                      HeaderCredential; HeaderRequestID; HeaderClientRequestID] (ReqHeader r) in
  let hd := hset HeaderExecutionID (ExecutionID b) (hset HeaderMachineID (MachineID b) hd) in
  let hd := if String.eqb (req_id r) "" then hd
            else hset HeaderClientRequestID (req_id r) (hset HeaderRequestID (req_id r) hd) in
  let hd := if 0 <? AppPort b then hset HeaderAppPort (itoa (AppPort b)) hd else hd in
  let hd := if String.eqb cred "" then hd else hset HeaderCredential cred hd in
  mkOut (agentTLS h) (NodeProxyEndpoint b) hd.

Definition legacy_out (b : Backend) (cred : string) : OutRequest :=
  let out := Director b cred in mkOut (o_https out) (o_host out) (removeHopByHopHeaders (o_header out)).

(** The director of the direct proxy and mesh.Transport.RoundTrip after it. *)
Definition direct_out (b : Backend) (cred nodeULA : string) (ingressPort : Z) : OutRequest :=
  let hd := hdel_all [HeaderRequestID; HeaderClientRequestID] (ReqHeader r) in
  let hd := if String.eqb (req_id r) "" then hd
            else hset HeaderClientRequestID (req_id r) (hset HeaderRequestID (req_id r) hd) in
  let hd := hdel_all [HeaderMachineID; HeaderExecutionID; HeaderPinMachine] (removeHopByHopHeaders hd) in
  let hd := if String.eqb cred "" then hdel HeaderCredential hd else hset HeaderCredential cred hd in
  let hd := if 0 <? AppPort b then hset HeaderAppPort (itoa (AppPort b)) hd else hdel HeaderAppPort hd in
  mkOut false ("[" +:+ nodeULA +:+ "]:" +:+ itoa ingressPort) hd.

(** ModifyResponse of the agent proxy; the direct one sets no machine. *)
Definition ModifyResponse (machine : option string) (resp : UpstreamResponse) : UpstreamResponse + proxy_err :=
  let retryable := (StatusCode resp =? 502) && String.eqb (hget (RespHeader resp) headerProxyRetryable) retryableProxyValue in
  let hd := hdel HeaderCredential (hdel headerProxyRetryable (RespHeader resp)) in
  let hd := match machine with Some m => hset HeaderMachineID m hd | None => hd end in
  if retryable then inr RetryProxyRoute
  else if StatusCode resp =? 403 then inr RetryForbidden
  else inl (mkUpstream (StatusCode resp) hd (RespBody resp) (complete resp)).

(** An informational response: its headers are added, sent, and the map is cleared. *)
Definition send_info (w : Writer) (i : Z * Header) : Writer :=
  with_header (fun _ => ∅) (WriteHeader i.1 (with_header (fun hd => copy_header hd i.2) w)).

(** httputil.ReverseProxy: the response is copied - [None] when the body broke off and
    the proxy panics with http.ErrAbortHandler - or the error handler is called. *)
Inductive proxied := Copied (w : Writer) | Aborted (w : Writer) | Failed (w : Writer) (e : proxy_err).

Definition ReverseProxy (machine : option string) (w : Writer) (u : upstream) : proxied :=
  let w := foldl send_info w (infos u) in
  match answer u with
  | inr chain => Failed w (Transport chain)
  | inl resp =>
      match ModifyResponse machine resp with
      | inr e => Failed w e
      | inl resp =>
          let w := Write (RespBody resp) (WriteHeader (StatusCode resp) (with_header (fun hd => copy_header hd (RespHeader resp)) w)) in
          if complete resp then Copied w else Aborted w
      end
  end.

(** How an attempt ends; an abort unwinds the handler. *)
Inductive attempt := Served (w : Writer) (reason : retryReason) | Panicked (w : Writer).

Definition requestHasNoBody : bool := negb (has_body r).

(** handleProxyError. *)
Definition handleProxyError (allowTransportRetry : bool) (w : Writer) (e : proxy_err) : prog attempt :=
  match e with
  | RetryForbidden => Ret (Served w retryForbidden)
  | RetryProxyRoute | Transport _ =>
      let gone := http_Error "agent proxy unavailable" 502 w in
      if allowTransportRetry then
        done <-! CtxDone ;
        if negb done && requestHasNoBody then Ret (Served w retryTransport) else Ret (Served gone retryNone)
      else Ret (Served gone retryNone)
  end.

(** The agent proxy. *)
Definition legacy (b : Backend) (cred : string) (allowTransportRetry : bool) (w : Writer) : prog attempt :=
  u <-! RoundTrip (legacy_out b cred) ;
  match ReverseProxy (Some (MachineID b)) w u with
  | Copied w => Ret (Served w retryNone)
  | Aborted w => Ret (Panicked w)
  | Failed w e => handleProxyError allowTransportRetry w e
  end.

(** errors.As finds the first of its kind in the chain. *)
Definition isDialError (chain : list link) : bool :=
  match omap (fun l => match l with OpError op => Some op | _ => None end) chain with
  | op :: _ => String.eqb op "dial"
  | [] => bool_decide (DNSError ∈ chain)
  end.

Definition retriable (e : proxy_err) : bool :=
  match e with Transport chain => isDialError chain || bool_decide (NoDirect ∈ chain) | _ => false end.

(** A direct answer that already went to the client, informational ones included. *)
Definition direct_started (u : upstream) : bool := match infos u with [] => false | _ => true end.

Definition direct_round_trip (b : Backend) (cred : string) : prog upstream :=
  rec <-! MeshEndpoint (MachineID b) (ExecutionID b) ;
  match rec with
  | None => Ret (mkAnswer [] (inr [NoDirect]))
  | Some (ula, port) => u <-! DirectRoundTrip (direct_out b cred ula port) ; Ret u
  end.

(** tryServe without its deferred release. *)
Definition try_serve (b : Backend) (cred : string) (stale allowTransportRetry : bool) (w : Writer) : prog attempt :=
  let w := if stale then with_header (hset "X-Firepaas-Stale" "stale") w else w in
  if has_direct h && negb (String.eqb (ULA b) "") && negb (String.eqb cred "") then
    pbind (direct_round_trip b cred) (fun u =>
    match ReverseProxy None w u with
    | Copied w => Ret (Served w retryNone)
    | Aborted w => Ret (Panicked w)
    | Failed w RetryForbidden => Ret (Served w retryForbidden)
    | Failed w e =>
        if direct_started u then Ret (Served w retryNone)
        else
          done <-! CtxDone ;
          if negb done && (requestHasNoBody || retriable e) then legacy b cred allowTransportRetry w
          else Ret (Served (WriteHeader 502 w) retryNone)
    end)
  else legacy b cred allowTransportRetry w.

Definition tryServe (b : Backend) (cred : string) (stale allowTransportRetry : bool) (w : Writer) : prog attempt :=
  pbind (try_serve b cred stale allowTransportRetry w) (fun a => Release (MachineID b) ;! Ret a).

(** ** Choosing a backend *)

Definition errNoEligible : goerr := errors_New "no ready backend".
Definition errPinMiss : goerr := errors_New "pinned machine is not eligible".
Definition errHardLimit : goerr := errors_New "backend hard concurrency limit".

Definition IsServingReadiness (s : string) : bool := String.eqb s "READY" || String.eqb s "UNCONFIGURED".
Definition servable (b : Backend) : bool := negb (Draining b) && IsServingReadiness (Readiness b).

Definition selectBackend (route : Route) (pin : string) : prog (res Backend) :=
  let select bs := c <-! Select bs ; Ret (match c with Some b => Ok b | None => Err errHardLimit end) in
  match List.filter servable (Backends route) with
  | [] => Ret (Err errNoEligible)
  | eligible =>
      if String.eqb pin "" then select eligible
      else match List.find (fun b => String.eqb (MachineID b) pin) eligible with
           | Some b => select [b]
           | None => Ret (Err errPinMiss)
           end
  end.

Definition if_tracked (c : eff unit) : prog unit := if has_tracker h then c ;! Ret tt else Ret tt.

Definition writeSelectionError (w : Writer) (err : goerr) (host : string) : prog Writer :=
  if errors_Is err errPinMiss then
    Ret (http_Error "pinned machine is not an eligible backend" 404
           (with_header (hset "X-Firepaas-Pin-Error" "machine not eligible (missing, replaced, not ready or draining)") w))
  else if errors_Is err errHardLimit then
    pbind (if_tracked (TrackHardRejected host)) (fun _ =>
    Ret (http_Error "backend at hard concurrency limit" 503 (with_header (hset "Retry-After" "1") w)))
  else
    pbind (if_tracked (TrackUnserved host)) (fun _ => Ret (http_Error "no ready backend for hostname" 503 w)).

(** ** ServeHTTP *)

(** How the handler ends: the response, and whether it panicked. *)
Record outcome := mkOutcome { final : Writer; panicked : bool }.
Definition ended (w : Writer) : prog outcome := Ret (mkOutcome w false).

Definition unserved (host : string) (w : Writer) : prog outcome :=
  pbind (if_tracked (TrackUnserved host)) (fun _ => ended (http_Error "no route for hostname" 404 w)).

(** The second attempt, with everything looked up again. *)
Definition retry_once (host : string) (port : Z) (route : Route) (b : Backend) (w : Writer) : prog outcome :=
  let key := routeCacheKey host port in
  let pin := hget (ReqHeader r) HeaderPinMachine in
  TokenInvalidate (MachineID b) ;!
  RouteInvalidate key ;!
  nv <-! RouteGet key host port ;
  let route := match nv with Ok (nr, _) => nr | Err _ => route end in
  pbind (selectBackend route pin) (fun s =>
  match s with
  | Err e => pbind (writeSelectionError w e host) ended
  | Ok b =>
      t <-! TokenGet (MachineID b) (ExecutionID b) ;
      match t with
      | Err _ => Release (MachineID b) ;! ended (http_Error "traffic token unavailable" 503 w)
      | Ok (cred, _) =>
          pbind (tryServe b cred false false (with_header (hset HeaderMachineID (MachineID b)) w)) (fun a =>
          match a with
          | Served w retryForbidden => ended (http_Error "agent proxy rejected request" 403 w)
          | Served w _ => ended w
          | Panicked w => Ret (mkOutcome w true)
          end)
      end
  end).

(** From the forwarding decision on; its release of the tracker is deferred. *)
Definition forward (host : string) (port : Z) (route : Route) (b : Backend) (cred : string) (stale : bool) (w : Writer) :
    prog outcome :=
  pbind (tryServe b cred stale true w) (fun a =>
  match a with
  | Panicked w => Ret (mkOutcome w true)
  | Served w retryNone => ended w
  | Served w reason =>
      if negb (requestHasNoBody) then
        ended (match reason with
               | retryForbidden => http_Error "agent proxy rejected request" 403 w
               | _ => http_Error "agent proxy unavailable" 502 w
               end)
      else retry_once host port route b w
  end).

Definition ServeHTTP : prog outcome :=
  if String.eqb (Path r) "/healthz" then ended (Write ("ok" +:+ String (ascii_of_nat 10) "") (WriteHeader 200 (new_writer ∅)))
  else
    let host := stripPort (Host r) in
    let port := requestRoutePort h r in
    let w := new_writer (hset HeaderClientRequestID (req_id r) ∅) in
    ok <-! Allow host ;
    if negb ok then ended (http_Error "rate limited" 429 (with_header (hset "Retry-After" "1") w))
    else
      v <-! RouteGet (routeCacheKey host port) host port ;
      match v with
      | Err e =>
          if errors_Is e ErrNotFound then unserved host w
          else if errors_Is e ErrBeyondStale then
            ended (http_Error "route catalog unavailable beyond serve-stale window" 503 (with_header (hset "Retry-After" "30") w))
          else ended (http_Error "catalog error" 503 w)
      | Ok (route, stale) =>
          if Nat.eqb (length (Backends route)) 0 then unserved host w
          else
            pbind (selectBackend route (hget (ReqHeader r) HeaderPinMachine)) (fun s =>
            match s with
            | Err e => pbind (writeSelectionError w e host) ended
            | Ok b =>
                t <-! TokenGet (MachineID b) (ExecutionID b) ;
                match t with
                | Err _ => Release (MachineID b) ;! ended (http_Error "traffic token unavailable" 503 w)
                | Ok (cred, _) =>
                    let w := with_header (hset HeaderMachineID (MachineID b)) w in
                    pbind (if_tracked (TrackAcquire host)) (fun _ =>
                    pbind (forward host port route b cred stale w) (fun o =>
                    pbind (if_tracked (TrackRelease host)) (fun _ => Ret o)))
                end
            end)
      end.
End handler.

(** ** The discipline of a request

    What a request holds and has done: the backend whose slot it holds, whether it counts
    as served for its host, whether its body may have been read by an upstream, the last
    credential it got and for which execution, and how often it asked for a slot. *)
Record holding := mkHolding {
  slot : option Backend; served : bool; consumed : bool; credential : option (string * string * string); asked : nat }.

Definition nothing_held : holding := mkHolding None false false None 0.

Section discipline.
Context (h : Handler) (r : Request).

(** A request to an upstream for the backend whose slot is held, with the credential
    got for its very execution, and only if the body was not read yet. *)
Definition may_send (g : holding) (b : Backend) (tok : string) : Prop :=
  slot g = Some b /\ credential g = Some (MachineID b, ExecutionID b, tok) /\ (has_body r = true -> consumed g = false).

Definition allowed B (c : eff B) (g : holding) : Prop :=
  match c with
  | Select bs => slot g = None /\ (asked g < 2)%nat /\ bs <> [] /\ Forall (fun b => servable b = true) bs /\
      (hget (ReqHeader r) HeaderPinMachine <> ""%string -> Forall (fun b => MachineID b = hget (ReqHeader r) HeaderPinMachine) bs)
  | Release id => exists b, slot g = Some b /\ MachineID b = id
  | RoundTrip out => exists b tok, may_send g b tok /\ out = legacy_out h r b tok
  | DirectRoundTrip out => exists b tok ula port, may_send g b tok /\ tok <> ""%string /\ out = direct_out r b tok ula port
  | TrackAcquire _ => served g = false
  | TrackRelease _ => served g = true
  | _ => True
  end.

Definition plausible B (c : eff B) : B -> Prop :=
  match c with
  | Select bs => fun o => match o with Some b => b ∈ bs | None => True end
  | _ => fun _ => True
  end.

(** A dial that failed sent nothing. *)
Definition never_sent (u : upstream) : bool := match answer u with inr chain => retriable (Transport chain) | inl _ => false end.

Definition holds_after B (c : eff B) : B -> holding -> holding :=
  match c with
  | Select _ => fun o g => mkHolding o (served g) (consumed g) (credential g) (S (asked g))
  | Release _ => fun _ g => mkHolding None (served g) (consumed g) (credential g) (asked g)
  | TokenGet m e => fun o g =>
      mkHolding (slot g) (served g) (consumed g) (match o with Ok (tok, _) => Some (m, e, tok) | Err _ => credential g end) (asked g)
  | TrackAcquire _ => fun _ g => mkHolding (slot g) true (consumed g) (credential g) (asked g)
  | TrackRelease _ => fun _ g => mkHolding (slot g) false (consumed g) (credential g) (asked g)
  | RoundTrip _ => fun _ g => mkHolding (slot g) (served g) true (credential g) (asked g)
  | DirectRoundTrip _ => fun u g => mkHolding (slot g) (served g) (negb (never_sent u)) (credential g) (asked g)
  | _ => fun _ g => g
  end.

Local Abbreviation disciplined := (obeys allowed plausible holds_after).

(** What an attempt changes: it gives its slot back. *)
Definition gave_back (g g' : holding) : Prop := slot g' = None /\ served g' = served g /\ asked g' = asked g.

Lemma legacy_disciplined b cred retry w g : may_send g b cred ->
  disciplined (fun _ g' => slot g' = Some b /\ served g' = served g /\ asked g' = asked g) (legacy h r b cred retry w) g.
Proof.
  intros Hs. split; [by exists b, cred|]. intros u _. pose proof (proj1 Hs).
  destruct (ReverseProxy _ _ u) as [w'|w'|w' e]; [done..|].
  unfold handleProxyError. destruct e as [| |chain]; [done| |]; (destruct retry; [split; [done|]; intros d _; by destruct (_ && _)|done]).
Qed.

(** A retriable failure of the direct proxy is a dial that failed. *)
Lemma failed_dial w u w' e : ReverseProxy None w u = Failed w' e -> retriable e = true -> never_sent u = true.
Proof.
  unfold ReverseProxy, never_sent. destruct (answer u) as [resp|chain]; [|by intros [= _ <-]].
  destruct (ModifyResponse None resp) as [resp'|e'] eqn:Hm; [by destruct (complete resp')|]. intros [= _ <-].
  unfold ModifyResponse in Hm. destruct (_ && _); [by injection Hm as <-|]. destruct (_ =? _); [by injection Hm as <-|done].
Qed.

(** After the direct attempt: a fallback to the agent proxy, if nothing was sent. *)
Lemma fallback_disciplined b cred retry w w0 u w1 e g : may_send g b cred -> ReverseProxy None w0 u = Failed w1 e ->
  disciplined (fun _ g' => slot g' = Some b /\ served g' = served g /\ asked g' = asked g)
    (if direct_started u then Ret (Served w retryNone)
     else done <-! CtxDone ;
          if negb done && (requestHasNoBody r || retriable e) then legacy h r b cred retry w
          else Ret (Served (WriteHeader 502 w) retryNone))
    (mkHolding (slot g) (served g) (negb (never_sent u)) (credential g) (asked g)).
Proof.
  intros (Hslot & Hcred & Hbody) Hp. destruct (direct_started u); [done|]. split; [done|]. intros d _. cbn.
  destruct (negb d && _) eqn:Hgo; [|done]. eapply obeys_weaken; [apply legacy_disciplined|done].
  split_and!; [done..|]. intros Hb. cbn. unfold requestHasNoBody in Hgo. rewrite Hb in Hgo. cbn in Hgo.
  apply andb_true_iff in Hgo as [_ Hr]. by rewrite (failed_dial _ _ _ _ Hp Hr).
Qed.

Lemma tryServe_disciplined b cred stale retry w g : may_send g b cred ->
  disciplined (fun _ g' => gave_back g g') (tryServe h r b cred stale retry w) g.
Proof.
  intros Hs. pose proof (proj1 Hs) as Hheld. unfold tryServe.
  apply obeys_pbind with (post := fun _ g' => slot g' = Some b /\ served g' = served g /\ asked g' = asked g).
  - unfold try_serve. set (w' := if stale then _ else w). clearbody w'.
    destruct (has_direct h && negb (String.eqb (ULA b) "") && negb (String.eqb cred "")) eqn:Hd; [|by apply legacy_disciplined].
    bool_to_prop. unfold direct_round_trip. split; [done|]. intros [[ula port]|] _.
    + split; [by exists b, cred, ula, port|]. intros u _. cbn [pbind].
      destruct (ReverseProxy None w' u) as [w1|w1|w1 e] eqn:Hp; [done|done|].
      destruct e; [done|..]; by apply (fallback_disciplined b cred retry w1 w' u w1 _ g Hs).
    + cbn. split; [done|]. intros d _. destruct (negb d && _); [by apply legacy_disciplined|]. done.
  - intros a g' (Hslot & Hserved & Hasked). split; [by exists b|]. intros u _. done.
Qed.

Lemma selectBackend_disciplined route g : slot g = None -> (asked g < 2)%nat ->
  disciplined (fun o g' => served g' = served g /\ consumed g' = consumed g /\ (asked g' <= S (asked g))%nat /\
    slot g' = match o with Ok b => Some b | Err _ => None end)
    (selectBackend route (hget (ReqHeader r) HeaderPinMachine)) g.
Proof.
  intros Hslot Hasked. unfold selectBackend.
  assert (Hserv : forall b, b ∈ List.filter servable (Backends route) -> servable b = true).
  { intros b Hb%list_elem_of_In. by apply List.filter_In in Hb as [_ ?]. }
  destruct (List.filter servable (Backends route)) as [|b0 bs] eqn:Ef; [split_and!; auto|].
  destruct (String.eqb_spec (hget (ReqHeader r) HeaderPinMachine) "") as [Hpin|Hpin].
  - split.
    + split_and!; [done..| |]; [|by rewrite Hpin]. by apply Forall_forall.
    + intros [b|] _; cbn; split_and!; auto.
  - destruct (List.find _ _) as [b|] eqn:Efind; [|split_and!; auto]. apply List.find_some in Efind as [Hin Hm]. bool_to_prop.
    split.
    + split_and!; [done..| |]; [constructor; [by apply Hserv, list_elem_of_In|constructor]|]. intros _. by constructor.
    + intros [b'|] _; cbn; split_and!; auto.
Qed.

Lemma if_tracked_disciplined c (P : holding -> Prop) g :
  (forall b, P (holds_after _ c b g)) -> P g -> allowed _ c g -> disciplined (fun _ g' => P g') (if_tracked h c) g.
Proof. intros HP Hg Hc. unfold if_tracked. destruct (has_tracker h); [|done]. split; [done|]. intros b _. apply HP. Qed.

(** A response without a slot. *)
Lemma writeSelectionError_disciplined w e host g (P : holding -> Prop) : P g ->
  disciplined (fun _ g' => P g') (pbind (writeSelectionError h w e host) ended) g.
Proof.
  intros HP. unfold writeSelectionError. destruct (errors_Is e errPinMiss); [done|].
  destruct (errors_Is e errHardLimit); (unfold if_tracked; destruct (has_tracker h); [split; [done|by intros ? _]|done]).
Qed.

Definition put_back (sv : bool) (g : holding) : Prop := slot g = None /\ served g = sv.

Lemma retry_disciplined host port route b w g : slot g = None -> (asked g < 2)%nat -> has_body r = false ->
  disciplined (fun _ g' => put_back (served g) g') (retry_once h r host port route b w) g.
Proof.
  intros Hslot Hasked Hbody. do 2 (split; [done|]; intros ? _). split; [done|]. intros nv _.
  set (route' := match nv with Ok (nr, _) => nr | Err _ => route end). clearbody route'.
  eapply obeys_pbind; [by apply selectBackend_disciplined|]. intros [b'|e] g' (Hserved & Hcons & _ & Hs).
  - split; [done|]. intros [[cred st]|e] _.
    + cbn. eapply obeys_pbind; [apply tryServe_disciplined|].
      * split_and!; cbn; [done..|congruence].
      * intros [w' []|w'] g2 (Hs2 & Hserved2 & _); cbn in *; split; congruence.
    + split; [by exists b'|]. by intros ? _.
  - apply (writeSelectionError_disciplined w e host g' (put_back (served g))). by split.
Qed.

Lemma ServeHTTP_disciplined : disciplined (fun _ g' => put_back false g') (ServeHTTP h r) nothing_held.
Proof.
  unfold ServeHTTP. destruct (String.eqb _ _); [done|]. split; [done|]. intros ok _. destruct (negb ok); [done|].
  assert (Hun : forall host w g, put_back false g -> disciplined (fun _ g' => put_back false g') (unserved h host w) g).
  { intros host w g Hg. unfold unserved, if_tracked. destruct (has_tracker h); [split; [done|by intros ? _]|done]. }
  split; [done|]. intros [[route st]|e] _; [|destruct (errors_Is e ErrNotFound); [by apply Hun|by destruct (errors_Is e ErrBeyondStale)]].
  destruct (Nat.eqb _ _); [by apply Hun|].
  eapply obeys_pbind; [apply selectBackend_disciplined; [done|cbn; lia]|].
  intros [b|e] g (Hserved & Hcons & Hasked & Hslot); [|apply (writeSelectionError_disciplined _ e _ g (put_back false)); by split].
  split; [done|]. intros [[cred ts]|e] _; [|split; [by exists b|by intros ? _]]. cbn.
  set (g1 := mkHolding (slot g) (served g) (consumed g) (Some (MachineID b, ExecutionID b, cred)) (asked g)).
  eapply obeys_pbind with (post := fun _ g' => slot g' = Some b /\ credential g' = Some (MachineID b, ExecutionID b, cred) /\
    consumed g' = false /\ (asked g' < 2)%nat /\ served g' = has_tracker h).
  { unfold if_tracked. destruct (has_tracker h); [split; [done|intros ? _]|]; cbn; split_and!; try done; cbn in *; lia. }
  intros _ g2 (Hs2 & Hc2 & Hb2 & Ha2 & Ht2).
  eapply obeys_pbind with (post := fun _ g' => put_back (has_tracker h) g').
  { unfold forward. eapply obeys_pbind; [by apply tryServe_disciplined|].
    intros [w' []|w'] g3 (Hs3 & Hsv3 & Ha3); cbn; [split; congruence| | |split; congruence];
      (destruct (requestHasNoBody r) eqn:Hnb; [|split; cbn; congruence]; cbn [negb]; rewrite <- Ht2, <- Hsv3;
       apply retry_disciplined; [done|lia|by apply negb_true_iff]). }
  intros o g3 [Hs3 Hsv3]. unfold if_tracked. destruct (has_tracker h); [split; [done|by intros ? _]|done].
Qed.
End discipline.

(** ** Selection *)

(** The draw is in range. *)
Definition fair (rnd : Rand) : Prop := forall n, (0 < n)%nat -> (Intn rnd n < n)%nat.

Lemma inflight_acquire t b m : inflight (acquireLocked t b) m = inflight t m + (if String.eqb (MachineID b) m then 1 else 0).
Proof.
  unfold acquireLocked, inflight. destruct (String.eqb_spec (MachineID b) m) as [->|Hne].
  - by rewrite lookup_insert_eq.
  - rewrite lookup_insert_ne by done. lia.
Qed.

Lemma elem_of_candidates t bs hard c : c ∈ candidates t bs hard <->
  exists b, b ∈ bs /\ inflight t (MachineID b) < hard /\ c = mkCandidate b (inflight t (MachineID b)) (effectiveWeight b).
Proof.
  unfold candidates. rewrite list_elem_of_omap. split; intros (b & Hb & Hc); exists b; revert Hc;
    destruct (Z.leb_spec hard (inflight t (MachineID b))); intros Hc; try done; [by injection Hc as <-|lia|]. by destruct Hc as [_ ->].
Qed.

Lemma least_spec cs m : least cs m <= m /\ (forall c, c ∈ cs -> least cs m <= c_inflight c) /\
  (least cs m = m \/ exists c, c ∈ cs /\ c_inflight c = least cs m).
Proof.
  unfold least. revert m. induction cs as [|c cs IH]; intros m; cbn.
  - split_and!; [lia|by intros c ?%not_elem_of_nil|by left].
  - destruct (IH (if c_inflight c <? m then c_inflight c else m)) as (Hle & Hall & Hex). clear IH.
    assert (Hmin : (if c_inflight c <? m then c_inflight c else m) <= m /\ (if c_inflight c <? m then c_inflight c else m) <= c_inflight c)
      by (destruct (Z.ltb_spec (c_inflight c) m); lia).
    split_and!; [lia| |].
    + intros c' [->|Hc']%elem_of_cons; [lia|by apply Hall].
    + destruct Hex as [Heq|(c' & Hc' & Heq)]; [|right; exists c'; split; [by apply list_elem_of_further|done]].
      rewrite Heq. destruct (Z.ltb_spec (c_inflight c) m); [|by left]. right. exists c. split; [apply list_elem_of_here|done].
Qed.

Lemma pick_weighted_elem cs pick b : pick_weighted cs pick = Some b -> exists c, c ∈ cs /\ c_backend c = b.
Proof.
  revert pick. induction cs as [|c cs IH]; intros pick; cbn; [done|]. destruct (fltb _ _).
  - intros [= <-]. exists c. split; [apply list_elem_of_here|done].
  - intros H. destruct (IH _ H) as (c' & Hc' & Hb). exists c'. split; [by apply list_elem_of_further|done].
Qed.

Lemma equal_weights cs c c' : allEqualWeights cs = true -> c ∈ cs -> c' ∈ cs -> c_weight c = c_weight c'.
Proof.
  unfold allEqualWeights. destruct cs as [|c0 cs]; [by intros _ ?%not_elem_of_nil|]. intros H.
  assert (Hall : forall x, x ∈ c0 :: cs -> c_weight x = c_weight c0).
  { intros x [->|Hx]%elem_of_cons; [done|]. rewrite forallb_forall in H. apply list_elem_of_In, H in Hx. by apply Z.eqb_eq. }
  intros Hc Hc'. by rewrite (Hall c), (Hall c').
Qed.

(** The two ways to choose. *)
Lemma least_chosen rnd c0 rest : fair rnd -> exists c,
  nth_error (List.filter (fun c => c_inflight c =? least rest (c_inflight c0)) (c0 :: rest))
    (Intn rnd (length (List.filter (fun c => c_inflight c =? least rest (c_inflight c0)) (c0 :: rest)))) = Some c /\
  c ∈ c0 :: rest /\ forall c', c' ∈ c0 :: rest -> c_inflight c <= c_inflight c'.
Proof.
  intros Hfair. destruct (least_spec rest (c_inflight c0)) as (Hle & Hall & Hex). set (m := least rest (c_inflight c0)) in *.
  set (pool := List.filter (fun c => c_inflight c =? m) (c0 :: rest)).
  assert (Hpool : forall c, c ∈ pool <-> c ∈ c0 :: rest /\ c_inflight c = m).
  { intros c. unfold pool. by rewrite !list_elem_of_In, List.filter_In, Z.eqb_eq. }
  assert (Hne : (0 < length pool)%nat).
  { assert (exists c, c ∈ pool) as [c Hc].
    { destruct Hex as [Heq|(c & Hc & Heq)]; [exists c0|exists c]; apply Hpool; split; try done; [apply list_elem_of_here|].
      by apply list_elem_of_further. }
    destruct pool; [by apply not_elem_of_nil in Hc|cbn; lia]. }
  destruct (nth_error pool (Intn rnd (length pool))) as [c|] eqn:E.
  - apply nth_error_In, list_elem_of_In, Hpool in E as [Hin Hm]. exists c. split_and!; [done..|].
    intros c' [->|Hc']%elem_of_cons; [lia|]. specialize (Hall _ Hc'). lia.
  - apply nth_error_None in E. specialize (Hfair _ Hne). lia.
Qed.

Lemma weighted_chosen c0 rest pick : exists b,
  match pick_weighted (c0 :: rest) pick with Some b => Some b | None => c_backend <$> list.last (c0 :: rest) end = Some b /\
  exists c, c ∈ c0 :: rest /\ c_backend c = b.
Proof.
  destruct (pick_weighted (c0 :: rest) pick) as [b|] eqn:E.
  - exists b. split; [done|by eapply pick_weighted_elem].
  - destruct (last (c0 :: rest)) as [c|] eqn:El; [|by apply last_None in El]. exists (c_backend c). split; [done|]. exists c.
    split; [|done]. rewrite last_lookup in El. by eapply list_elem_of_lookup_2.
Qed.

Lemma selectAndAcquire_spec rnd t bs hard : fair rnd ->
  let '(t', o) := selectAndAcquire rnd t bs hard in
  match o with
  | None => t' = t /\ forall b, b ∈ bs -> hard <= inflight t (MachineID b)
  | Some b => t' = acquireLocked t b /\ b ∈ bs /\ inflight t (MachineID b) < hard /\
      ((forall b1 b2, b1 ∈ bs -> b2 ∈ bs -> effectiveWeight b1 = effectiveWeight b2) ->
       forall b', b' ∈ bs -> inflight t (MachineID b) <= inflight t (MachineID b'))
  end.
Proof.
  intros Hfair. unfold selectAndAcquire. destruct (candidates t bs hard) as [|c0 rest] eqn:E.
  - split; [done|]. intros b Hb. destruct (Z.le_gt_cases hard (inflight t (MachineID b))) as [|Hlt]; [done|].
    assert (Hc : mkCandidate b (inflight t (MachineID b)) (effectiveWeight b) ∈ candidates t bs hard)
      by (apply elem_of_candidates; exists b; split_and!; [done|lia|done]).
    rewrite E in Hc. by apply not_elem_of_nil in Hc.
  - assert (Hcand : forall c, c ∈ c0 :: rest -> exists b, b ∈ bs /\ inflight t (MachineID b) < hard /\
      c = mkCandidate b (inflight t (MachineID b)) (effectiveWeight b)) by (intros c; rewrite <- E; apply elem_of_candidates).
    destruct (allEqualWeights (c0 :: rest)) eqn:Hw.
    + destruct (least_chosen rnd c0 rest Hfair) as (c & -> & Hin & Hmin). destruct (Hcand c Hin) as (b & Hb & Hlt & ->). cbn.
      split_and!; [done..|]. intros _ b' Hb'. destruct (Z.le_gt_cases hard (inflight t (MachineID b'))); [lia|].
      apply (Hmin (mkCandidate b' (inflight t (MachineID b')) (effectiveWeight b'))). rewrite <- E. apply elem_of_candidates.
      exists b'. split_and!; [done|lia|done].
    + destruct (weighted_chosen c0 rest (fmul (Float64 rnd) (foldl (fun s c => fadd s (dampedWeight c)) fzero (c0 :: rest))))
        as (b & -> & c & Hin & Hcb). destruct (Hcand c Hin) as (b1 & Hb & Hlt & ->). cbn in Hcb. subst b1.
      split_and!; [done..|]. intros Heq. exfalso. enough (allEqualWeights (c0 :: rest) = true) by congruence.
      unfold allEqualWeights. apply forallb_forall. intros c' Hc'%list_elem_of_In. apply Z.eqb_eq.
      destruct (Hcand c' (list_elem_of_further _ _ _ Hc')) as (b1 & Hb1 & _ & ->), (Hcand c0 (list_elem_of_here _ _)) as (b2 & Hb2 & _ & ->).
      by apply Heq.
Qed.

(** ** Many requests *)

Inductive slot_event := Acquired (machineID : string) | Released (machineID : string).

Definition slot_events B (c : eff B) : B -> list slot_event :=
  match c with
  | Select _ => fun o => match o with Some b => [Acquired (MachineID b)] | None => [] end
  | Release id => fun _ => [Released id]
  | _ => fun _ => []
  end.

(** What a call does to the table of requests in flight; the rest of the world answers
    as it likes. *)
Definition edge_act (h : Handler) B (c : eff B) (t t' : inflightTracker) : B -> Prop :=
  match c with
  | Select bs => fun o => exists rnd, fair rnd /\ selectAndAcquire rnd t bs (hardConcurrency h) = (t', o)
  | Release id => fun _ => t' = release t id
  | _ => fun _ => t' = t
  end.

Definition arrives (h : Handler) (r : Request) (p : Programs.prog eff outcome) : Prop := p = ServeHTTP h r.
Definition edge_step (h : Handler) := pool_step slot_events (arrives h) (edge_act h) (fun _ _ => False).

(** The slots of a machine that were taken and not given back. *)
Definition slot_delta (m : string) (e : slot_event) : Z :=
  match e with Acquired m' => if String.eqb m' m then 1 else 0 | Released m' => if String.eqb m' m then -1 else 0 end.
Definition balance {L} (m : string) (log : list (L * slot_event)) : Z := foldr (fun e n => slot_delta m e.2 + n) 0 log.

Lemma balance_app {L} m (log log' : list (L * slot_event)) : balance m (log ++ log') = balance m log + balance m log'.
Proof. unfold balance. induction log as [|e log IH]; cbn; [done|]. rewrite IH. lia. Qed.

(** The requests that hold a slot of a machine. *)
Definition holds_slot (m : string) (g : holding) : Z := match slot g with Some b => if String.eqb (MachineID b) m then 1 else 0 | None => 0 end.
Definition holders (m : string) (gs : list holding) : Z := foldr (fun g n => holds_slot m g + n) 0 gs.

Lemma holders_app m gs gs' : holders m (gs ++ gs') = holders m gs + holders m gs'.
Proof. unfold holders. induction gs as [|g gs IH]; cbn; [done|]. rewrite IH. lia. Qed.
Lemma holders_middle m gs g gs' : holders m (gs ++ g :: gs') = holders m gs + (holds_slot m g + holders m gs').
Proof. by rewrite holders_app. Qed.
Lemma holds_slot_of m g b : slot g = Some b -> holds_slot m g = if String.eqb (MachineID b) m then 1 else 0.
Proof. unfold holds_slot. by intros ->. Qed.
Lemma holds_slot_none m g : slot g = None -> holds_slot m g = 0.
Proof. unfold holds_slot. by intros ->. Qed.
Lemma holds_slot_pos m g : 0 <= holds_slot m g.
Proof. unfold holds_slot. destruct (slot g) as [b|]; [destruct (String.eqb _ _)|]; lia. Qed.
Lemma holders_pos m gs : 0 <= holders m gs.
Proof. unfold holders. induction gs as [|g gs IH]; cbn; [lia|]. pose proof (holds_slot_pos m g). lia. Qed.

Definition counts_ok (h : Handler) (t : inflightTracker) (gs : list holding) (log : list (Request * slot_event)) : Prop :=
  (forall m n, t !! m = Some n -> 0 < n) /\
  forall m, inflight t m = balance m log /\ holders m gs <= inflight t m <= Z.max 0 (hardConcurrency h).

Lemma inflight_release t b m : (forall m n, t !! m = Some n -> 0 < n) -> 0 < inflight t (MachineID b) ->
  (forall m n, release t (MachineID b) !! m = Some n -> 0 < n) /\
  inflight (release t (MachineID b)) m = inflight t m - (if String.eqb (MachineID b) m then 1 else 0).
Proof.
  intros Hpos Hb. unfold release, inflight in *. destruct (t !! MachineID b) as [n|] eqn:E; [|done]. cbn in Hb.
  destruct (Z.eqb_spec (n - 1) 0) as [H1|H1].
  - split.
    + intros m' n' [_ Hl]%lookup_delete_Some. by eapply Hpos.
    + destruct (String.eqb_spec (MachineID b) m) as [<-|Hne]; [rewrite lookup_delete_eq, E; cbn; lia|].
      rewrite lookup_delete_ne by done. lia.
  - split.
    + intros m' n' [[<- <-]|[_ Hl]]%lookup_insert_Some; [lia|by eapply Hpos].
    + destruct (String.eqb_spec (MachineID b) m) as [<-|Hne]; [rewrite lookup_insert_eq, E; cbn; lia|].
      rewrite lookup_insert_ne by done. lia.
Qed.

(** Calls that touch no slot. *)
Lemma slot_unchanged m g g' gs gs' : slot g' = slot g -> holders m (gs ++ g' :: gs') = holders m (gs ++ g :: gs').
Proof. intros Hs. rewrite !holders_middle. unfold holds_slot. by rewrite Hs. Qed.

Lemma edge_call h r B (c : eff B) t t' b gs g gs' log :
  edge_act h B c t t' b -> allowed h r B c g -> counts_ok h t (gs ++ g :: gs') log ->
  counts_ok h t' (gs ++ holds_after B c b g :: gs') (log ++ map (pair r) (slot_events B c b)).
Proof.
  intros Ha Hc [Hpos Hall].
  assert (Hsame : t' = t -> slot (holds_after B c b g) = slot g -> slot_events B c b = [] ->
    counts_ok h t' (gs ++ holds_after B c b g :: gs') (log ++ map (pair r) (slot_events B c b))).
  { intros -> Hs ->. cbn [map]. rewrite app_nil_r. split; [done|]. intros m. by rewrite (slot_unchanged m g _ gs gs' Hs). }
  destruct c; try (apply Hsame; [exact Ha|reflexivity|reflexivity]).
  - destruct Ha as (rnd & Hfair & Hsel). pose proof (selectAndAcquire_spec rnd t bs (hardConcurrency h) Hfair) as Hspec.
    rewrite Hsel in Hspec. destruct Hc as (Hslot & _). destruct b as [b|].
    + destruct Hspec as (-> & _ & Hlt & _). split.
      * intros m n. unfold acquireLocked. intros [[<- <-]|[_ Hl]]%lookup_insert_Some; [|by eapply Hpos].
        destruct (Hall (MachineID b)) as (_ & Hge & _). pose proof (holders_pos (MachineID b) (gs ++ g :: gs')). lia.
      * intros m. rewrite inflight_acquire, balance_app. destruct (Hall m) as (Hbal & Hge & Hle).
        rewrite holders_middle, (holds_slot_none m g Hslot) in Hge. rewrite holders_middle, (holds_slot_of m (holds_after _ (Select bs) (Some b) g) b eq_refl). cbn.
        destruct (String.eqb (MachineID b) m) eqn:Em; [apply String.eqb_eq in Em; subst m|]; lia.
    + destruct Hspec as [-> _]. apply Hsame; [done|by rewrite Hslot|done].
  - cbn in Ha. subst t'. destruct Hc as (bk & Hslot & <-).
    assert (Hin : 0 < inflight t (MachineID bk)).
    { destruct (Hall (MachineID bk)) as (_ & Hge & _). rewrite holders_middle, (holds_slot_of _ g bk Hslot), String.eqb_refl in Hge. pose proof (holders_pos (MachineID bk) gs). pose proof (holders_pos (MachineID bk) gs'). lia. }
    split; [by apply (inflight_release t bk EmptyString)|]. intros m. destruct (inflight_release t bk m Hpos Hin) as [_ ->].
    destruct (Hall m) as (Hbal & Hge & Hle). rewrite balance_app. rewrite holders_middle, (holds_slot_of m g bk Hslot) in Hge.
    rewrite holders_middle, (holds_slot_none m (holds_after _ (Release (MachineID bk)) b g) eq_refl). cbn. pose proof (holders_pos m gs). pose proof (holders_pos m gs').
    destruct (String.eqb (MachineID bk) m); lia.
Qed.

(** C7. Whatever number of requests are served in whatever interleaving, crashing
    or not, and whatever the caches, the agents and the clients do: the table of requests
    in flight counts exactly the slots taken and not given back, never loses one to a
    release that was not due, and no machine has more than the hard limit. *)
Theorem hard_limit_kept h p : rtc (edge_step h) (mkPool ∅ [] []) p ->
  forall m, inflight (tables p) m = balance m (Programs.history p) /\ 0 <= inflight (tables p) m <= Z.max 0 (hardConcurrency h).
Proof.
  intros Hs m.
  enough (exists gs, Forall2 (fun w g => obeys (allowed h w.1) plausible holds_after (fun _ g => put_back false g) w.2 g) (workers p) gs /\
    counts_ok h (tables p) gs (Programs.history p)) as (gs & _ & Hpos & Hall).
  { destruct (Hall m) as (Hb & Hge & Hle). split; [done|]. pose proof (holders_pos m gs). lia. }
  eapply (pool_invariant slot_events (arrives h) (edge_act h) (fun _ _ => False) (counts_ok h)
    (fun w g => obeys (allowed h w.1) plausible holds_after (fun _ g => put_back false g) w.2 g)); [..|exact Hs|].
  - intros r pr t gs log -> [Hpos Hall]. exists nothing_held. split; [apply ServeHTTP_disciplined|]. split; [done|].
    intros m'. apply Hall.
  - intros r B c k t t' b gs g gs' log Ha [Hc Hk] HI. exists (holds_after B c b g). split; [|by apply (edge_call h r B c t t')].
    apply Hk. destruct c; try done. destruct Ha as (rnd & Hfair & Hsel).
    pose proof (selectAndAcquire_spec rnd t bs (hardConcurrency h) Hfair) as Hspec. rewrite Hsel in Hspec. destruct b; [apply Hspec|done].
  - intros t gs g gs' log [Hpos Hall]. split; [done|]. intros m'. destruct (Hall m') as (Hb & Hge & Hle). split; [done|]. split; [|done].
    rewrite holders_middle in Hge. rewrite holders_app. pose proof (holds_slot_pos m' g). lia.
  - done.
  - exists []. split; [constructor|]. cbn. split; [intros m' n; by rewrite lookup_empty|]. intros m'. unfold inflight. rewrite lookup_empty. cbn. lia.
Qed.

(** ** Headers *)

Lemma lookup_hdel_all ks hd k : hdel_all ks hd !! k = if bool_decide (k ∈ ks) then None else hd !! k.
Proof.
  unfold hdel_all. revert hd. induction ks as [|k' ks IH]; intros hd; [by rewrite bool_decide_eq_false_2 by apply not_elem_of_nil|].
  cbn. rewrite IH. unfold hdel. destruct (decide (k = k')) as [->|Hne].
  - rewrite lookup_delete_eq, (bool_decide_eq_true_2 (k' ∈ k' :: ks)) by apply list_elem_of_here. by destruct (bool_decide _).
  - rewrite lookup_delete_ne by done. by rewrite (bool_decide_ext (k ∈ k' :: ks) (k ∈ ks)) by (rewrite elem_of_cons; tauto).
Qed.

(** The headers the edge owns and what an agent may read in them. *)
Definition owned (r : Request) (b : Backend) (cred : string) : list (string * option (list string)) :=
  let or_absent (c : bool) v := if c then None else Some [v] in
  [(HeaderMachineID, Some [MachineID b]); (HeaderExecutionID, Some [ExecutionID b]);
   (HeaderAppPort, or_absent (AppPort b <=? 0) (itoa (AppPort b))); (HeaderPinMachine, None); (headerProxyRetryable, None);
   (HeaderCredential, or_absent (String.eqb cred "") cred); (HeaderRequestID, or_absent (String.eqb (req_id r) "") (req_id r));
   (HeaderClientRequestID, or_absent (String.eqb (req_id r) "") (req_id r))].

Ltac header_lookup :=
  repeat first
  [ rewrite lookup_insert_eq | rewrite lookup_insert_ne by discriminate | rewrite lookup_delete_eq | rewrite lookup_delete_ne by discriminate
  | rewrite lookup_hdel_all; match goal with |- context [bool_decide ?P] =>
      first [ replace (bool_decide P) with true by (vm_compute; reflexivity)
            | replace (bool_decide P) with false by (vm_compute; reflexivity) ] end; cbv iota ].

Lemma Director_owned h r b cred name v : (name, v) ∈ owned r b cred -> o_header (Director h r b cred) !! name = v.
Proof.
  unfold owned, Director, hset. cbn [o_header]. rewrite Z.leb_antisym.
  intros Hin. repeat (apply elem_of_cons in Hin as [[= -> ->]|Hin]); [..|by apply not_elem_of_nil in Hin];
    destruct (0 <? AppPort b), (String.eqb cred ""), (String.eqb (req_id r) ""); cbn [negb]; by header_lookup.
Qed.

Lemma Director_connection h r b cred : connection_names (o_header (Director h r b cred)) = connection_names (ReqHeader r).
Proof.
  unfold connection_names. replace (o_header (Director h r b cred) !! "Connection"%string) with (ReqHeader r !! "Connection"%string); [done|].
  unfold Director, hset. cbn [o_header].
  destruct (0 <? AppPort b), (String.eqb cred ""), (String.eqb (req_id r) ""); by header_lookup.
Qed.

(** The edge's headers are not hop-by-hop ones. *)
Lemma owned_not_hop r b cred name v : (name, v) ∈ owned r b cred -> bool_decide (name ∈ hop_headers) = false.
Proof.
  unfold owned. intros Hin. repeat (apply elem_of_cons in Hin as [[= -> ->]|Hin]); [..|by apply not_elem_of_nil in Hin];
    vm_compute; reflexivity.
Qed.

Definition direct_owned (b : Backend) (cred : string) : list (string * option (list string)) :=
  [(HeaderMachineID, None); (HeaderExecutionID, None); (HeaderPinMachine, None);
   (HeaderAppPort, if AppPort b <=? 0 then None else Some [itoa (AppPort b)]);
   (HeaderCredential, if String.eqb cred "" then None else Some [cred])].

Lemma direct_out_owned r b cred ula port name v : (name, v) ∈ direct_owned b cred -> o_header (direct_out r b cred ula port) !! name = v.
Proof.
  unfold direct_owned, direct_out, hset, hdel. cbn [o_header]. rewrite Z.leb_antisym.
  intros Hin. repeat (apply elem_of_cons in Hin as [[= -> ->]|Hin]); [..|by apply not_elem_of_nil in Hin];
    destruct (0 <? AppPort b), (String.eqb cred ""), (String.eqb (req_id r) ""); cbn [negb]; by header_lookup.
Qed.

(** Whatever headers a client sends, an agent reads the values the edge
    chose in every header the edge owns - machine, execution, port, credential, request
    ids, and no pin - or none: a header is missing, although the edge set it, exactly if
    the client named it in its Connection header, because ReverseProxy removes those after
    the director ran. On the direct path, where the transport sets them last, they always
    have the chosen values. *)
Theorem agent_headers h r b cred :
  (forall name v, (name, v) ∈ owned r b cred ->
     o_header (legacy_out h r b cred) !! name = if bool_decide (name ∈ connection_names (ReqHeader r)) then None else v) /\
  (forall ula port name v, (name, v) ∈ direct_owned b cred -> o_header (direct_out r b cred ula port) !! name = v).
Proof.
  split; [|by intros; apply direct_out_owned]. intros name v Hin. unfold legacy_out, removeHopByHopHeaders. cbn [o_header].
  rewrite lookup_hdel_all, (owned_not_hop _ _ _ _ _ Hin), lookup_hdel_all, Director_connection. by rewrite (Director_owned h _ _ _ _ _ Hin).
Qed.

(** A client that strips the port: the compatibility path is taken instead. *)
Definition demo_backend (m : string) : Backend := mkBackend m "ex-1" "10.0.0.1:5107" 8080 "READY" 100 false "" 0 0 1.
Definition demo_route : Route := mkRoute 1 1 [demo_backend "m-1"; demo_backend "m-2"].
Definition demo_handler : Handler := mkHandler 2 {[80; 443]} true false true.
Definition demo_request (hd : Header) : Request := mkRequest "/" "a.example" hd false None "0011223344556677".

Example port_stripped :
  o_header (legacy_out demo_handler (demo_request {["Connection"%string := ["x-firepaas-app-port"%string]]}) (demo_backend "m-1") "tok")
    !! HeaderAppPort = None.
Proof. vm_compute. reflexivity. Qed.

(** ** One request *)

(** C6. Every request, on every path, whatever it is answered and also
    when the proxy aborts it: it asks for a slot at most twice, never while it holds one,
    and only among backends that serve and are not draining - the pinned one if it pins;
    it reaches an upstream only for the backend whose slot it holds and with a credential
    got for that very execution; a body is never sent to a second upstream unless the
    first dial failed; and at the end every slot taken was given back exactly once and the
    count of served requests of its host is as before. *)
Theorem request_discipline h r :
  obeys (allowed h r) plausible holds_after (fun _ g => slot g = None /\ served g = false) (ServeHTTP h r) nothing_held.
Proof. exact (ServeHTTP_disciplined h r). Qed.

(** The choice among backends: nobody is chosen exactly if every one is at the
    hard limit; the chosen one is below it, takes exactly one slot, and with equal weights
    no other has fewer requests in flight. *)
Theorem selection_least_inflight rnd t bs hard : fair rnd ->
  let '(t', o) := selectAndAcquire rnd t bs hard in
  match o with
  | None => t' = t /\ forall b, b ∈ bs -> hard <= inflight t (MachineID b)
  | Some b => b ∈ bs /\ inflight t (MachineID b) < hard /\
      (forall m, inflight t' m = inflight t m + (if String.eqb (MachineID b) m then 1 else 0)) /\
      ((forall b1 b2, b1 ∈ bs -> b2 ∈ bs -> effectiveWeight b1 = effectiveWeight b2) ->
       forall b', b' ∈ bs -> inflight t (MachineID b) <= inflight t (MachineID b'))
  end.
Proof.
  intros Hfair. pose proof (selectAndAcquire_spec rnd t bs hard Hfair) as H.
  destruct (selectAndAcquire rnd t bs hard) as [t' [b|]]; [|done]. destruct H as (-> & Hb & Hlt & Hmin).
  split_and!; [done..| |done]. intros m. apply inflight_acquire.
Qed.

Definition demo_rand : Rand := mkRand (fun n => n - 1)%nat fzero.
Lemma demo_fair : fair demo_rand.
Proof. intros n Hn. cbn. lia. Qed.

Lemma selection_least_inflight_witness :
  fair demo_rand /\ (selectAndAcquire demo_rand {["m-1"%string := 1]} (Backends demo_route) 2).2 = Some (demo_backend "m-2") /\
  inflight {["m-1"%string := 1]} "m-2" < 2.
Proof.
  split; [exact demo_fair|]. assert (E : (selectAndAcquire demo_rand {["m-1"%string := 1]} (Backends demo_route) 2).2 = Some (demo_backend "m-2"))
    by (vm_compute; reflexivity).
  split; [exact E|]. pose proof (selection_least_inflight demo_rand {["m-1"%string := 1]} (Backends demo_route) 2 demo_fair) as H.
  destruct (selectAndAcquire _ _ _ _) as [t' o]. cbn in E. subst o. apply H.
Defined.

(** The answers of a world where everything works but the first agent, whose credential
    is refused. *)
Definition demo_perform (_ : nat) B (c : eff B) (t : inflightTracker) : inflightTracker * B :=
  match c in eff B return inflightTracker * B with
  | Allow _ => (t, true)
  | RouteGet _ _ _ => (t, Ok (demo_route, false))
  | RouteInvalidate _ => (t, tt)
  | TokenGet _ _ => (t, Ok ("tok"%string, false))
  | TokenInvalidate _ => (t, tt)
  | Select bs => selectAndAcquire demo_rand t bs 2
  | Release id => (release t id, tt)
  | TrackAcquire _ => (t, tt) | TrackRelease _ => (t, tt) | TrackHardRejected _ => (t, tt) | TrackUnserved _ => (t, tt)
  | CtxDone => (t, false)
  | MeshEndpoint _ _ => (t, None)
  | RoundTrip out =>
      (t, mkAnswer [] (inl (mkUpstream (if String.eqb (hget (o_header out) HeaderMachineID) "m-2" then 403 else 200) ∅ "hello" true)))
  | DirectRoundTrip _ => (t, mkAnswer [] (inr [NoDirect]))
  end.

Lemma demo_acts j B (c : eff B) t : edge_act demo_handler B c t (demo_perform j B c t).1 (demo_perform j B c t).2.
Proof.
  destruct c; cbn; try done. exists demo_rand. split; [exact demo_fair|]. by destruct (selectAndAcquire demo_rand t bs 2).
Qed.

(** The first agent refuses the credential, the retry picks it again and is refused, too. *)
Definition demo_run := run slot_events demo_perform (ServeHTTP demo_handler (demo_request ∅)) 0 ∅.

Lemma hard_limit_kept_witness :
  exists p, rtc (edge_step demo_handler) (mkPool ∅ [] []) p /\
    Programs.history p = map (pair (demo_request ∅)) [Acquired "m-2"; Released "m-2"; Acquired "m-2"; Released "m-2"] /\
    inflight (tables p) "m-2" = 0 /\ 0 <= inflight (tables p) "m-2" <= 2.
Proof.
  pose proof (pool_alone slot_events (arrives demo_handler) (edge_act demo_handler) (fun _ _ => False) (demo_request ∅) demo_perform
    (ServeHTTP demo_handler (demo_request ∅)) 0 ∅ [] [] demo_acts) as H. fold demo_run in H.
  assert (Et : demo_run.2 = [Acquired "m-2"; Released "m-2"; Acquired "m-2"; Released "m-2"]) by (vm_compute; reflexivity).
  assert (Es : inflight demo_run.1.1 "m-2" = 0) by (vm_compute; reflexivity).
  destruct demo_run as [[t o] ev]. cbn [fst snd] in Et, Es. subst ev.
  assert (Hs : rtc (edge_step demo_handler) (mkPool ∅ [] [])
    (mkPool t [(demo_request ∅, Ret o)] ([] ++ map (pair (demo_request ∅)) [Acquired "m-2"; Released "m-2"; Acquired "m-2"; Released "m-2"]))).
  { eapply rtc_l; [by apply pool_start|exact H]. }
  eexists. split; [exact Hs|]. split; [reflexivity|]. split; [exact Es|]. exact (proj2 (hard_limit_kept demo_handler _ Hs "m-2")).
Defined.

(** ** What the client sees when things go wrong *)

(** A world that refuses the first credential and has no slot left for the retry. *)
Definition no_retry_perform (i : nat) B (c : eff B) (t : inflightTracker) : inflightTracker * B :=
  match c in eff B return inflightTracker * B with
  | Select bs => if Nat.ltb i 5 then selectAndAcquire demo_rand t bs 2 else (t, None)
  | c => demo_perform i _ c t
  end.

(** The 503 of a retry that found no slot names the backend of the first attempt. *)
Example retry_503_names_backend :
  let '(_, o, _) := run slot_events no_retry_perform (ServeHTTP demo_handler (demo_request ∅)) 0 ∅ in
  client_status (final o) = 503 /\ w_header (final o) !! HeaderMachineID = Some ["m-2"]%string.
Proof. vm_compute. split; reflexivity. Qed.

Lemma infos_keep_open w early : Forall (fun i => informational i.1 = true) early ->
  w_status (foldl send_info w early) = w_status w.
Proof.
  intros H. revert w. induction H as [|i early Hi _ IH]; intros w; [done|]. cbn. rewrite IH. unfold send_info, with_header, WriteHeader. cbn.
  rewrite Hi. by destruct (w_status w).
Qed.

(** A direct agent that answers with an informational response (103 Early
    Hints, say) and then breaks off: the attempt counts as started, so there is neither a
    fallback nor a 502, and the handler returns without a status - the client is told 200
    with an empty body, which the code means to exclude. *)
Theorem early_hints_then_failure_is_200 h r b cred stale retry w ula port early chain :
  has_direct h = true -> ULA b <> ""%string -> cred <> ""%string -> early <> [] -> Forall (fun i => informational i.1 = true) early ->
  w_status w = None ->
  exists w', client_status w' = 200 /\ w_status w' = None /\ w_body w' = w_body w /\
  forall (perform : nat -> forall B, eff B -> inflightTracker -> inflightTracker * B) i t,
    (forall j t, perform j _ (MeshEndpoint (MachineID b) (ExecutionID b)) t = (t, Some (ula, port))) ->
    (forall j t, perform j _ (DirectRoundTrip (direct_out r b cred ula port)) t = (t, mkAnswer early (inr chain))) ->
    (run slot_events perform (tryServe h r b cred stale retry w) i t).1.2 = Served w' retryNone.
Proof.
  intros Hd Hula Hcred Hearly Hinfo Hw. set (w1 := if stale then with_header (hset "X-Firepaas-Stale" "stale") w else w).
  assert (Hw1 : w_status w1 = None /\ w_body w1 = w_body w) by (unfold w1; by destruct stale).
  exists (foldl send_info w1 early). unfold client_status. rewrite infos_keep_open by done. destruct Hw1 as [-> <-].
  split_and!; [done..| |].
  - clear. generalize w1. induction early as [|i early IH]; intros w'; [done|]. cbn. by rewrite IH.
  - intros perform i t Hmesh Hdirect. unfold tryServe, try_serve. fold w1. rewrite Hd.
    apply String.eqb_neq in Hula, Hcred. rewrite Hula, Hcred. cbn [negb andb pbind direct_round_trip run]. rewrite Hmesh.
    cbn [pbind run]. rewrite Hdirect. unfold ReverseProxy. cbn [infos answer]. unfold direct_started. cbn [infos].
    destruct early as [|i0 early]; [done|]. cbn [pbind run]. destruct (perform _ _ _ _). done.
Qed.

Definition direct_backend : Backend := mkBackend "m-1" "ex-1" "10.0.0.1:5107" 8080 "READY" 100 false "fd00::2" 0 0 1.
Definition direct_handler : Handler := mkHandler 2 ∅ false true true.

Lemma early_hints_then_failure_is_200_witness :
  exists w', client_status w' = 200 /\ w_body w' = [] /\
  (run slot_events (fun i B c t => match c in eff B return inflightTracker * B with
     | MeshEndpoint _ _ => (t, Some ("fd00::1"%string, 5109))
     | DirectRoundTrip _ => (t, mkAnswer [(103, ∅)] (inr [OtherError]))
     | c => demo_perform i _ c t end)
    (tryServe direct_handler (demo_request ∅) direct_backend "tok" false true (new_writer ∅)) 0 ∅).1.2 = Served w' retryNone.
Proof.
  destruct (early_hints_then_failure_is_200 direct_handler (demo_request ∅) direct_backend "tok" false true (new_writer ∅)
    "fd00::1" 5109 [(103, ∅)] [OtherError]) as (w' & Hs & _ & Hb & Hrun).
  - reflexivity.
  - discriminate.
  - discriminate.
  - discriminate.
  - constructor; [reflexivity|constructor].
  - reflexivity.
  - exists w'. split; [exact Hs|]. split; [exact Hb|]. apply Hrun; reflexivity.
Defined.
