(* ===== verification/EdgeMesh.v ===== *)
(** * The mesh side of the edge (edge/mesh/mesh.go)

    The cache of direct endpoints, the peers of the WireGuard hub and the routes to
    them. The commands [wg] and [ip] are calls whose outcomes are inputs; the files of the
    key are left out. Times are nanoseconds. *)
From S2P Require Import Prelude GoString GoNet Catalog.
Local Open Scope Z_scope.

(** ** Endpoints *)

Record endpointEntry := mkEntry { rec : option MeshEndpointRecord; fetched : Z }.
(** An entry without a record is the miss flag. *)
Definition miss (e : endpointEntry) : bool := match rec e with None => true | Some _ => false end.

Record EndpointsConfig := mkEndpoints { fresh : Z; stale : Z; MaxEntries : Z }.
Definition defaultEndpointsCacheMaxEntries : Z := 4096.
Definition maxEntries (c : EndpointsConfig) : Z := if 0 <? MaxEntries c then MaxEntries c else defaultEndpointsCacheMaxEntries.

Definition endpoint_cache := gmap string endpointEntry.

Section endpoints.
Context (c : EndpointsConfig).
Implicit Types cache : gmap string endpointEntry.

(** The oldest entry, by key among equals; the map is ranged over in any order. *)
Definition older (a b : string * endpointEntry) : bool :=
  (fetched a.2 <? fetched b.2) || ((fetched a.2 =? fetched b.2) && String.ltb a.1 b.1).
Definition oldest (l : list (string * endpointEntry)) : option (string * endpointEntry) :=
  foldl (fun o ke => match o with None => Some ke | Some ke' => Some (if older ke ke' then ke else ke') end) None l.

Fixpoint evict_oldest (fuel : nat) cache : gmap string endpointEntry :=
  match fuel with
  | O => cache
  | S fuel => if maxEntries c <=? Z.of_nat (size cache) then
                match oldest (map_to_list cache) with
                | Some (key, _) => evict_oldest fuel (delete key cache)
                | None => cache
                end
              else cache
  end.

Definition evictLocked (now : Z) cache : gmap string endpointEntry :=
  if Z.of_nat (size cache) <? maxEntries c then cache
  else
    let cache := if 0 <? stale c then filter (fun ke => now - fetched ke.2 < stale c) cache else cache in
    evict_oldest (size cache) cache.

Definition endpoint_key (machineID executionID : string) : string := machineID +:+ String (Ascii.ascii_of_nat 0) "" +:+ executionID.

(** The two halves of Get: the cache answers, or what was fetched is written back. *)
Definition Get_cached (now : Z) (key : string) cache : option (option MeshEndpointRecord) :=
  match cache !! key with
  | Some e => if now - fetched e <? fresh c then Some (rec e) else None
  | None => None
  end.

Definition Get_fetched (now : Z) (key : string) (answer : res (option MeshEndpointRecord)) cache :
    gmap string endpointEntry * option MeshEndpointRecord :=
  match answer with
  | Err _ =>
      (cache, match cache !! key with
              | Some e => if now - fetched e <? stale c then rec e else None
              | None => None
              end)
  | Ok r => (<[key := mkEntry r now]> (evictLocked now cache), r)
  end.

Lemma evict_oldest_size fuel cache : (size cache <= fuel)%nat -> 0 < maxEntries c ->
  Z.of_nat (size (evict_oldest fuel cache)) < maxEntries c /\ evict_oldest fuel cache ⊆ cache.
Proof.
  revert cache. induction fuel as [|fuel IH]; intros cache Hf Hm; cbn [evict_oldest]; [split; [lia|done]|].
  destruct (Z.leb_spec (maxEntries c) (Z.of_nat (size cache))) as [Hle|Hlt]; [|done].
  destruct (oldest (map_to_list cache)) as [[key e]|] eqn:E.
  - assert (Hin : exists e, cache !! key = Some e).
    { assert (Hsome : forall l o ke, foldl (fun o ke => match o with None => Some ke | Some ke' => Some (if older ke ke' then ke else ke') end) o l
        = Some ke -> o = Some ke \/ ke ∈ l).
      { clear. induction l as [|x l IHl]; intros o ke; cbn; [by left|]. intros H. destruct (IHl _ _ H) as [Ho|Hin]; [|right; by apply list_elem_of_further].
        destruct o as [ke'|]; [|injection Ho as ->; right; apply list_elem_of_here].
        destruct (older x ke'); injection Ho as ->; [right; apply list_elem_of_here|by left]. }
      destruct (Hsome _ _ _ E) as [|Hin]; [done|]. apply elem_of_map_to_list in Hin. by eexists. }
    destruct Hin as [e' He']. assert (Hsz : size (delete key cache) = (size cache - 1)%nat).
    { rewrite <- (insert_delete_id cache key e') at 2 by done. rewrite map_size_insert_None by apply lookup_delete_eq. lia. }
    destruct (IH (delete key cache)) as [Hs Hsub]; [rewrite Hsz; lia|done|]. split; [done|]. etrans; [exact Hsub|apply delete_subseteq].
  - unfold oldest in E. destruct (map_to_list cache) as [|x l] eqn:El.
    + apply map_to_list_empty_iff in El as ->. rewrite map_size_empty in Hle. lia.
    + exfalso. cbn in E. revert E. generalize x as y. clear. induction l as [|x' l IHl]; intros y; cbn; [done|]. destruct (older x' y); apply IHl.
Qed.

Lemma endpoint_capacity_pos : 0 < maxEntries c.
Proof. unfold maxEntries, defaultEndpointsCacheMaxEntries. destruct (Z.ltb_spec 0 (MaxEntries c)); lia. Qed.

Lemma evictLocked_spec now cache : Z.of_nat (size (evictLocked now cache)) < maxEntries c /\ evictLocked now cache ⊆ cache.
Proof.
  unfold evictLocked. destruct (Z.ltb_spec (Z.of_nat (size cache)) (maxEntries c)); [done|].
  set (kept := if 0 <? stale c then _ else _). assert (Hkept : kept ⊆ cache) by (unfold kept; destruct (0 <? stale c); [apply map_filter_subseteq|done]).
  destruct (evict_oldest_size (size kept) kept) as [Hs Hsub]; [lia|apply endpoint_capacity_pos|]. split; [done|]. by etrans.
Qed.

(** The endpoint a direct request gets is the answer just fetched, or one
    fetched before for the same machine and execution within the fresh window, or, when
    Redis fails, within the stale window; writing an answer back keeps the cache within
    its bound, forgets only others' entries and stores nothing else. *)
Theorem endpoint_get_sound now key answer cache r :
  (Get_cached now key cache = Some r -> exists e, cache !! key = Some e /\ rec e = r /\ now - fetched e < fresh c) /\
  (let '(cache', r') := Get_fetched now key answer cache in
   (forall k e, cache' !! k = Some e -> cache !! k = Some e \/ (k = key /\ answer = Ok (rec e) /\ fetched e = now)) /\
   (Z.of_nat (size cache) <= maxEntries c -> Z.of_nat (size cache') <= maxEntries c) /\
   match answer with
   | Ok a => r' = a /\ cache' !! key = Some (mkEntry a now)
   | Err _ => r' = None \/ exists e, cache !! key = Some e /\ rec e = r' /\ now - fetched e < stale c
   end).
Proof.
  split.
  - unfold Get_cached. destruct (cache !! key) as [e|]; [|done]. destruct (Z.ltb_spec (now - fetched e) (fresh c)); [|done].
    intros [= <-]. by exists e.
  - unfold Get_fetched. destruct answer as [a|err].
    + destruct (evictLocked_spec now cache) as [Hs Hsub]. split_and!.
      * intros k e [[<- <-]|[_ Hl]]%lookup_insert_Some; [by right|]. left. by eapply lookup_weaken.
      * intros _. destruct (evictLocked now cache !! key) eqn:E.
        -- rewrite map_size_insert_Some by (by eexists). lia.
        -- rewrite map_size_insert_None by done. lia.
      * done.
      * apply lookup_insert_eq.
    + split_and!; [by left|done|]. destruct (cache !! key) as [e|]; [|by left].
      destruct (Z.ltb_spec (now - fetched e) (stale c)); [right; by exists e|by left].
Qed.
End endpoints.

(** ** The hub *)

Record WG := mkWG { iface : string; listen : Z; priv : string; applied : string; appliedRoutes : gset string }.

Definition newline : string := String (Ascii.ascii_of_nat 10) "".

Definition peer_section (p : MeshPeerRecord) : string :=
  newline +:+ "[Peer]" +:+ newline +:+ "PublicKey = " +:+ Pubkey p +:+ newline +:+ "Endpoint = " +:+ Endpoint p +:+ newline +:+
  "AllowedIPs = " +:+ NodePrefix p +:+ newline.
Definition buildPeerConfigLocked (w : WG) (peers : list MeshPeerRecord) : string :=
  "[Interface]" +:+ newline +:+ "PrivateKey = " +:+ priv w +:+ newline +:+ "ListenPort = " +:+ itoa (listen w) +:+ newline +:+
  foldr (fun p s => peer_section p +:+ s) "" peers.

(** The commands of a round: [None] is success. *)
Record commands := mkCommands {
  link_show : option goerr; link_add : option goerr; setconf : option goerr; route_replace : string -> option goerr }.

(** What is known of the kernel: the routes through the interface. *)
Record kernel := mkKernel { peers_conf : string; v6_routes : gset string }.

Fixpoint install_routes (cmds : commands) (peers : list MeshPeerRecord) (have : gset string) (k : kernel) :
    gset string * kernel * option goerr :=
  match peers with
  | [] => (have, k, None)
  | p :: peers =>
      let prefix := NodePrefix p in
      if String.eqb prefix "" || bool_decide (prefix ∈ have) then install_routes cmds peers have k
      else match route_replace cmds prefix with
           | Some e => (have, k, Some (wrap "mesh: route: %w" e))
           | None => install_routes cmds peers ({[prefix]} ∪ have) (mkKernel (peers_conf k) ({[prefix]} ∪ v6_routes k))
           end
  end.

Definition wanted (peers : list MeshPeerRecord) : gset string :=
  list_to_set (List.filter (fun s => negb (String.eqb s "")) (map NodePrefix peers)).

(** The routes of peers that are gone; a failing delete is ignored. *)
Definition syncRoutesLocked (cmds : commands) (w : WG) (peers : list MeshPeerRecord) (k : kernel) : WG * kernel * option goerr :=
  match install_routes cmds peers (appliedRoutes w) k with
  | (have, k, Some e) => (mkWG (iface w) (listen w) (priv w) (applied w) have, k, Some e)
  | (have, k, None) =>
      let gone := have ∖ wanted peers in
      (mkWG (iface w) (listen w) (priv w) (applied w) (have ∖ gone), mkKernel (peers_conf k) (v6_routes k ∖ gone), None)
  end.

Definition SyncPeers (cmds : commands) (w : WG) (peers : list MeshPeerRecord) (k : kernel) : WG * kernel * option goerr :=
  if String.eqb (priv w) "" then (w, k, Some (errors_New "mesh: key not initialized"))
  else
    let conf := buildPeerConfigLocked w peers in
    if String.eqb conf (applied w) then syncRoutesLocked cmds w peers k
    else
      match (match link_show cmds with Some _ => link_add cmds | None => None end) with
      | Some e => (w, k, Some (wrap "mesh: add: %w" e))
      | None =>
          match setconf cmds with
          | Some e => (w, k, Some (wrap "mesh: setconf: %v" e))
          | None => syncRoutesLocked cmds (mkWG (iface w) (listen w) (priv w) conf (appliedRoutes w)) peers (mkKernel conf (v6_routes k))
          end
      end.

(** SyncLoop: the own record is for the address of the interface, the others are peers. *)
Definition splitSelfPeer (peers : list MeshPeerRecord) (edgeID : string) : option MeshPeerRecord * list MeshPeerRecord :=
  (List.find (fun p => String.eqb (PNodeID p) edgeID && negb (String.eqb (NodePrefix p) "")) peers,
   List.filter (fun p => negb (String.eqb (PNodeID p) edgeID)) peers).

Definition selfULAAddr (prefix : string) : string :=
  match ParsePrefix prefix with Some p => addr_string (PAddr p) +:+ "/64" | None => "" end.

(** One round of SyncLoop; a projection that cannot be read keeps what is there. *)
Definition sync_round (cmds : commands) (edgeID : string) (peers : res (list MeshPeerRecord)) (w : WG) (k : kernel) : WG * kernel * option goerr :=
  match peers with
  | Err e => (w, k, Some e)
  | Ok peers => SyncPeers cmds w (splitSelfPeer peers edgeID).2 k
  end.

Lemma install_routes_ok cmds peers have k have' k' :
  install_routes cmds peers have k = (have', k', None) ->
  have' = have ∪ wanted peers /\ v6_routes k' = v6_routes k ∪ (wanted peers ∖ have) /\ peers_conf k' = peers_conf k.
Proof.
  revert have k. induction peers as [|p peers IH]; intros have k; cbn [install_routes].
  - intros [= <- <-]. unfold wanted. cbn. split_and!; [set_solver..|done].
  - unfold wanted. cbn [map List.filter]. fold (wanted peers).
    destruct (String.eqb_spec (NodePrefix p) "") as [He|Hne]; cbn [orb negb].
    + intros H. by destruct (IH _ _ H) as (-> & -> & ->).
    + case_bool_decide as Hin; cbn [orb].
      * intros H. destruct (IH _ _ H) as (-> & -> & ->). cbn. fold (wanted peers). split_and!; [set_solver..|done].
      * destruct (route_replace cmds (NodePrefix p)); [done|]. intros H. destruct (IH _ _ H) as (-> & -> & ->). cbn.
        fold (wanted peers). split_and!; [set_solver| |done]. apply set_eq. intros x. destruct (decide (x = NodePrefix p)); set_solver.
Qed.

Lemma routes_exact (A W : gset string) : (A ∪ (W ∖ A)) ∖ ((A ∪ W) ∖ W) = W /\ (A ∪ W) ∖ ((A ∪ W) ∖ W) = W.
Proof.
  split; apply set_eq; intros x; destruct (decide (x ∈ A)), (decide (x ∈ W));
    rewrite ?elem_of_difference, ?elem_of_union, ?elem_of_difference, ?elem_of_union; tauto.
Qed.

(** A round that succeeds leaves the configuration of exactly the peers of
    the projection but the hub itself, and the kernel has the routes to exactly their
    prefixes, whatever was there of earlier rounds; a round that cannot read the
    projection changes nothing. *)
Theorem mesh_round cmds edgeID peers w k w' k' :
  sync_round cmds edgeID peers w k = (w', k', None) ->
  v6_routes k = appliedRoutes w -> peers_conf k = applied w ->
  exists ps, peers = Ok ps /\ let others := List.filter (fun p => negb (String.eqb (PNodeID p) edgeID)) ps in
  peers_conf k' = buildPeerConfigLocked w others /\ v6_routes k' = wanted others /\
  v6_routes k' = appliedRoutes w' /\ peers_conf k' = applied w'.
Proof.
  destruct peers as [ps|e]; [|done]. cbn [sync_round splitSelfPeer snd]. set (others := List.filter _ ps).
  intros H Hr Hc. exists ps. split; [done|]. cbn.
  assert (Hsync : forall w0 k0, v6_routes k0 = appliedRoutes w0 -> peers_conf k0 = applied w0 ->
    syncRoutesLocked cmds w0 others k0 = (w', k', None) ->
    peers_conf k' = applied w0 /\ v6_routes k' = wanted others /\ v6_routes k' = appliedRoutes w' /\ peers_conf k' = applied w').
  { intros w0 k0 Hr0 Hc0. unfold syncRoutesLocked. destruct (install_routes cmds others (appliedRoutes w0) k0) as [[have k1] [e|]] eqn:E; [done|].
    destruct (install_routes_ok _ _ _ _ _ _ E) as (-> & Hk1 & Hc1). intros [= <- <-]. cbn. rewrite Hk1, Hr0, Hc1, Hc0.
    destruct (routes_exact (appliedRoutes w0) (wanted others)) as [-> ->]. done. }
  unfold SyncPeers in H. fold others in H. destruct (String.eqb (priv w) ""); [done|].
  destruct (String.eqb_spec (buildPeerConfigLocked w others) (applied w)) as [He|Hne].
  - destruct (Hsync w k Hr Hc H) as (Hconf & ? & ? & ?). split_and!; [by rewrite Hconf, <- He|done..].
  - destruct (match link_show cmds with Some _ => link_add cmds | None => None end); [done|]. destruct (setconf cmds); [done|].
    refine (match Hsync (mkWG _ _ _ _ _) (mkKernel _ _) Hr eq_refl H with conj H1 H2 => conj H1 H2 end).
Qed.

Definition demo_peer (n : string) : MeshPeerRecord := mkPeer n "key" "1.2.3.4:51820" ("fd00:" +:+ n +:+ "::/64") 0.
Definition demo_hub : WG := mkWG "fp-edge0" 51821 "secret" "" {["fd00:9::/64"]}.
Lemma mesh_round_witness :
  let '(_, k', e) := sync_round (mkCommands None None None (fun _ => None)) "edge-hub" (Ok [demo_peer "1"; demo_peer "edge-hub"])
    demo_hub (mkKernel "" {["fd00:9::/64"]}) in
  e = None /\ v6_routes k' = {["fd00:1::/64"%string]}.
Proof.
  destruct (sync_round _ _ _ _ _) as [[w' k'] e] eqn:E. assert (e = None) as -> by (vm_compute in E; congruence).
  split; [reflexivity|].
  destruct (mesh_round _ _ _ _ _ _ _ E eq_refl eq_refl) as (ps & [= <-] & _ & Hr & _). rewrite Hr. vm_compute. reflexivity.
Defined.

Definition demo_endpoints : EndpointsConfig := mkEndpoints 10 100 2.
Lemma endpoint_get_sound_witness :
  exists e, ({["k"%string := mkEntry None 5]} : gmap string endpointEntry) !! "k"%string = Some e /\ rec e = None /\ 12 - fetched e < 10.
Proof. apply (endpoint_get_sound demo_endpoints 12 "k" (Ok None)). vm_compute. reflexivity. Defined.
