(* ===== verification/EdgeSignals.v ===== *)
(** * The load signals of an edge (edge/autoscale.go)

    [AutoscaleTracker] counts per host what is served, rejected at the hard limit and not
    servable; each report gives the rolling counts of two windows, from which the loop of
    [Autoscale] scales. The Redis commands of the reporter are an input; [math.Exp] is a
    parameter. *)
From S2P Require Import Prelude GoString GoFloat Lru Autoscale.
Local Open Scope Z_scope.

Definition autoscaleReportInterval : Z := 5 * 10 ^ 9.
Definition autoscaleKeyTTL : Z := 20 * 10 ^ 9.
Definition autoscaleRollingWindows : Z := 2.
Definition defaultAutoscaleMaxHosts : Z := 10000.
(** 0.4. *)
Definition ewmaAlpha : float64 := fdiv (fof_Z 4) (fof_Z 10).

Record hostWindow := mkWindow { rps : Z; hardRejected : Z; unserved : Z }.
Definition no_window : hostWindow := mkWindow 0 0 0.
Definition add (w o : hostWindow) : hostWindow :=
  mkWindow (rps w + rps o) (hardRejected w + hardRejected o) (unserved w + unserved o).

Record hostCounters := mkCounters { inflight : Z; ewma : float64; cur : hostWindow; prev : hostWindow }.
Definition new_host : hostCounters := mkCounters 0 fzero no_window no_window.

Section tracker.
Context {C : Type -> Type} `{!LruOps C}.

Record AutoscaleTracker := mkTracker { hosts : C hostCounters; maxHosts : Z; alpha : float64 }.

Definition NewAutoscaleTracker (max : Z) : AutoscaleTracker :=
  mkTracker (newLRUCache _) (if max <=? 0 then defaultAutoscaleMaxHosts else max) ewmaAlpha.

Implicit Types (t : AutoscaleTracker) (c : C hostCounters).

Definition alphaOrDefault t : float64 := if fleb (alpha t) fzero then ewmaAlpha else alpha t.
Definition setAlpha t (a : float64) : AutoscaleTracker := mkTracker (hosts t) (maxHosts t) a.

(** [1 - exp(-dt/10s)], clamped to [0.05, 0.95]. *)
Definition ewmaAlphaForInterval (exp : float64 -> float64) (dt : Z) : float64 :=
  if dt <=? 0 then ewmaAlpha
  else
    let a := fsub (fof_Z 1) (exp (fdiv (fof_Z (- dt)) (fof_Z (10 * 10 ^ 9)))) in
    let low := fdiv (fof_Z 5) (fof_Z 100) in
    let high := fdiv (fof_Z 95) (fof_Z 100) in
    if fltb a low then low else if fgtb a high then high else a.

(** The row of a host, made if it is missing. *)
Definition entry t (host : string) : C hostCounters * hostCounters :=
  match get (hosts t) host with
  | Some e => (hosts t, e)
  | None => (evict (set (hosts t) host new_host) (maxHosts t), new_host)
  end.

(** A row is changed through its pointer and moved to the front. *)
Definition bump t (host : string) (f : hostCounters -> hostCounters) : AutoscaleTracker :=
  let '(c, e) := entry t host in mkTracker (touch (write c host (f e)) host) (maxHosts t) (alpha t).

Definition with_cur (f : hostWindow -> hostWindow) (e : hostCounters) : hostCounters :=
  mkCounters (inflight e) (ewma e) (f (cur e)) (prev e).

Definition Acquire t (host : string) : AutoscaleTracker :=
  bump t host (fun e => mkCounters (inflight e + 1) (ewma e) (add (mkWindow 1 0 0) (cur e)) (prev e)).
Definition AddHardRejected t (host : string) : AutoscaleTracker := bump t host (with_cur (add (mkWindow 0 1 0))).
Definition AddUnserved t (host : string) : AutoscaleTracker := bump t host (with_cur (add (mkWindow 0 0 1))).

Definition Release t (host : string) : AutoscaleTracker :=
  match get (hosts t) host with
  | Some e =>
      let e := if 0 <? inflight e then mkCounters (inflight e - 1) (ewma e) (cur e) (prev e) else e in
      mkTracker (touch (write (hosts t) host e) host) (maxHosts t) (alpha t)
  | None => t
  end.

(** One host of a report. *)
Definition sample (a : float64) (now : Z) (e : hostCounters) : hostCounters * SignalSample :=
  let ew := fadd (ewma e) (fmul a (fsub (fof_Z (inflight e)) (ewma e))) in
  let sum := add (cur e) (prev e) in
  (mkCounters (inflight e) ew no_window (cur e),
   mkSample ew (fof_Z (rps sum)) (hardRejected sum) (unserved sum) now
     (autoscaleReportInterval / 10 ^ 6 * autoscaleRollingWindows)).

Fixpoint report_hosts (a : float64) (now : Z) (keys : list string) c (out : gmap string SignalSample) :
    C hostCounters * gmap string SignalSample :=
  match keys with
  | [] => (c, out)
  | host :: keys =>
      match get c host with
      | None => report_hosts a now keys c out
      | Some e =>
          let '(e, s) := sample a now e in
          let c := write c host e in
          report_hosts a now keys (if 0 <? inflight e then touch c host else c) (<[host := s]> out)
      end
  end.

(** [now] in milliseconds. *)
Definition snapshotForReport t (now : Z) : AutoscaleTracker * gmap string SignalSample :=
  let '(c, out) := report_hosts (alphaOrDefault t) now (range_keys (hosts t)) (hosts t) ∅ in
  (mkTracker c (maxHosts t) (alpha t), out).

(** *** The reporter *)

Record AutoscaleReporter := mkReporter { edgeID : string; interval : Z; ttl : Z }.

Definition NewAutoscaleReporter (exp : float64 -> float64) (edgeID : string) t (interval : Z) : AutoscaleReporter * AutoscaleTracker :=
  let interval := if interval <=? 0 then autoscaleReportInterval else interval in
  let interval := if autoscaleKeyTTL / 2 <? interval then autoscaleKeyTTL / 2 else interval in
  (mkReporter edgeID interval autoscaleKeyTTL, setAlpha t (ewmaAlphaForInterval exp interval)).

(** One report: the fields of [autoscale:{host}] it writes, as far as Redis takes them. *)
Definition Report (marshal : SignalSample -> option string) (failed : string -> bool) (r : AutoscaleReporter) t (now : Z)
    (redis : gmap (string * string) string) : AutoscaleTracker * gmap (string * string) string :=
  if String.eqb (edgeID r) "" then (t, redis)
  else
    let '(t, samples) := snapshotForReport t now in
    (t, map_fold (fun host s redis =>
          match marshal s with
          | Some raw => if failed host then redis else <[(("autoscale:" +:+ host)%string, edgeID r) := raw]> redis
          | None => redis
          end) redis samples).

Definition ResolveEdgeID (primary fallback : string) (hostname : res string) (clock : Z) : string :=
  if negb (String.eqb primary "") then primary
  else if negb (String.eqb fallback "") then fallback
  else match hostname with
       | Ok h => if negb (String.eqb h "") then h else "edge-" +:+ itoa clock
       | Err _ => "edge-" +:+ itoa clock
       end.

(** ** What a report says *)

Inductive signal := Served (host : string) | Left_ (host : string) | Rejected (host : string) | Unserved (host : string) | Tick (now : Z).

Definition signal_step t (s : signal) : AutoscaleTracker * gmap string SignalSample :=
  match s with
  | Served h => (Acquire t h, ∅)
  | Left_ h => (Release t h, ∅)
  | Rejected h => (AddHardRejected t h, ∅)
  | Unserved h => (AddUnserved t h, ∅)
  | Tick now => snapshotForReport t now
  end.
Definition after t (ss : list signal) : AutoscaleTracker := foldl (fun t s => (signal_step t s).1) t ss.

(** The windows before and since the last report. *)
Definition windows (ss : list signal) : list signal * list signal :=
  foldl (fun w s => match s with Tick _ => (w.2, []) | _ => (w.1, w.2 ++ [s]) end) ([], []) ss.

(** What a window counts of a host. *)
Definition count (h : string) (ss : list signal) : hostWindow :=
  foldl (fun w s =>
    match s with
    | Served h' => if String.eqb h' h then add (mkWindow 1 0 0) w else w
    | Rejected h' => if String.eqb h' h then add (mkWindow 0 1 0) w else w
    | Unserved h' => if String.eqb h' h then add (mkWindow 0 0 1) w else w
    | _ => w
    end) no_window ss.

(** The host a signal makes a row for. *)
Definition counted (s : signal) : option string :=
  match s with Served h | Rejected h | Unserved h => Some h | _ => None end.
Definition hosts_of (ss : list signal) : gset string := list_to_set (omap counted ss).

Context `{!Lru C}.

Lemma count_app h w s : count h (w ++ [s]) =
  match s with
  | Served h' => if String.eqb h' h then add (mkWindow 1 0 0) (count h w) else count h w
  | Rejected h' => if String.eqb h' h then add (mkWindow 0 1 0) (count h w) else count h w
  | Unserved h' => if String.eqb h' h then add (mkWindow 0 0 1) (count h w) else count h w
  | _ => count h w
  end.
Proof. unfold count. by rewrite foldl_app. Qed.

Lemma hosts_of_app ss s : hosts_of (ss ++ [s]) = hosts_of ss ∪ match counted s with Some h => {[h]} | None => ∅ end.
Proof. unfold hosts_of. rewrite omap_app, list_to_set_app_L. cbn. destruct (counted s); cbn; set_solver. Qed.

Lemma windows_app ss s : windows (ss ++ [s]) =
  match s with Tick _ => ((windows ss).2, []) | _ => ((windows ss).1, (windows ss).2 ++ [s]) end.
Proof. unfold windows. by rewrite foldl_app. Qed.

(** Changing a row that exists and touching it. *)
Lemma write_touch c l h e : holds c l -> is_Some (assoc h l) ->
  exists l', holds (touch (write c h e) h) l' /\ forall h', assoc h' l' = if String.eqb h h' then Some e else assoc h' l.
Proof.
  intros Hl [e0 He0]. exists (touched h (written h e l)). pose proof (holds_write _ _ h e Hl) as Hw.
  split; [by apply holds_touch|]. intros h'. rewrite assoc_touched by (by eapply holds_nodup). rewrite written_assoc, He0. done.
Qed.

(** The row of a host is there or made, if it fits. *)
Lemma entry_spec t l h : holds (hosts t) l -> assoc h l <> None \/ (length l < Z.to_nat (maxHosts t))%nat ->
  exists l', holds (entry t h).1 l' /\ (entry t h).2 = default new_host (assoc h l) /\
  forall h', assoc h' l' = if String.eqb h h' then Some (default new_host (assoc h l)) else assoc h' l.
Proof.
  intros Hl Hfit. unfold entry. rewrite (holds_get _ _ _ Hl). destruct (assoc h l) as [e|] eqn:E; cbn.
  - exists l. split_and!; [done..|]. intros h'. by destruct (String.eqb_spec h h') as [<-|].
  - destruct Hfit as [|Hfit]; [done|]. exists (cut (maxHosts t) (stored h new_host l)).
    split_and!; [by apply holds_evict, holds_set|done|]. intros h'.
    unfold cut. rewrite take_ge.
    + apply assoc_stored. by eapply holds_nodup.
    + unfold stored. cbn. rewrite without_absent by done. unfold bound. destruct (Z.leb_spec (maxHosts t) 0); lia.
Qed.

Lemma bump_spec t l h f : holds (hosts t) l -> assoc h l <> None \/ (length l < Z.to_nat (maxHosts t))%nat ->
  exists l', holds (hosts (bump t h f)) l' /\ maxHosts (bump t h f) = maxHosts t /\
  forall h', assoc h' l' = if String.eqb h h' then Some (f (default new_host (assoc h l))) else assoc h' l.
Proof.
  intros Hl Hfit. destruct (entry_spec t l h Hl Hfit) as (l1 & Hl1 & He & Ha1). unfold bump. destruct (entry t h) as [c e]. cbn in *. subst e.
  destruct (write_touch c l1 h (f (default new_host (assoc h l))) Hl1) as (l2 & Hl2 & Ha2).
  { rewrite Ha1, String.eqb_refl. by eexists. }
  exists l2. split_and!; [done..|]. intros h'. rewrite Ha2, Ha1. by destruct (String.eqb h h').
Qed.

(** A report rotates the rows it ranges over and leaves the others. *)
Lemma report_hosts_spec a now keys c l out : holds c l -> NoDup keys ->
  let '(c', out') := report_hosts a now keys c out in
  exists l', holds c' l' /\
  (forall h, assoc h l' = if bool_decide (h ∈ keys) then fst ∘ sample a now <$> assoc h l else assoc h l) /\
  (forall h, out' !! h = if bool_decide (h ∈ keys) then match assoc h l with Some e => Some (sample a now e).2 | None => out !! h end else out !! h).
Proof.
  revert c l out. induction keys as [|k keys IH]; intros c l out Hl Hnd; cbn [report_hosts].
  - exists l. split_and!; [done|..]; intros h; by rewrite bool_decide_eq_false_2 by apply not_elem_of_nil.
  - apply NoDup_cons in Hnd as [Hk Hnd]. rewrite (holds_get _ _ _ Hl).
    assert (Hin : forall h, bool_decide (h ∈ k :: keys) = String.eqb h k || bool_decide (h ∈ keys)).
    { intros h. destruct (String.eqb_spec h k) as [->|Hne]; cbn.
      - apply bool_decide_eq_true_2, list_elem_of_here.
      - apply bool_decide_ext. rewrite elem_of_cons. tauto. }
    destruct (assoc k l) as [e|] eqn:E.
    + destruct (sample a now e) as [e1 s1] eqn:Es.
      assert (Hstep : exists l1, holds (if 0 <? inflight e1 then touch (write c k e1) k else write c k e1) l1 /\
        forall h', assoc h' l1 = if String.eqb k h' then Some e1 else assoc h' l).
      { destruct (0 <? inflight e1); [apply write_touch; [done|by eexists]|]. exists (written k e1 l). split; [by apply holds_write|].
        intros h'. by rewrite written_assoc, E. }
      destruct Hstep as (l1 & Hl1 & Ha1). specialize (IH _ l1 (<[k := s1]> out) Hl1 Hnd).
      destruct (report_hosts _ _ _ _ _) as [c' out']. destruct IH as (l' & Hl' & Ha' & Ho'). exists l'. split_and!; [done|..]; intros h.
      * rewrite Ha', Hin, Ha1. destruct (String.eqb_spec h k) as [->|Hne]; cbn [orb].
        -- rewrite bool_decide_eq_false_2, String.eqb_refl, E by done. transitivity (Some (sample a now e).1); [by rewrite Es|done].
        -- rewrite (proj2 (String.eqb_neq k h)) by done. done.
      * rewrite Ho', Hin, Ha1. destruct (String.eqb_spec h k) as [->|Hne]; cbn [orb].
        -- rewrite bool_decide_eq_false_2, E by done. by rewrite lookup_insert_eq, Es.
        -- rewrite (proj2 (String.eqb_neq k h)) by done. by rewrite lookup_insert_ne by done.
    + specialize (IH c l out Hl Hnd). destruct (report_hosts _ _ _ _ _) as [c' out']. destruct IH as (l' & Hl' & Ha' & Ho').
      exists l'. split_and!; [done|..]; intros h; rewrite Hin; destruct (String.eqb_spec h k) as [->|Hne]; cbn; auto.
      * rewrite Ha', bool_decide_eq_false_2, E by done. done.
      * rewrite Ho', bool_decide_eq_false_2, E by done. done.
Qed.

(** The rows say what the windows count. *)
Definition tracked t (ss : list signal) : Prop :=
  exists l, holds (hosts t) l /\ forall h,
  if bool_decide (h ∈ hosts_of ss) then exists e, assoc h l = Some e /\ cur e = count h (windows ss).2 /\ prev e = count h (windows ss).1
  else assoc h l = None.

Lemma not_counted h ss : h ∉ hosts_of ss -> count h (windows ss).1 = no_window /\ count h (windows ss).2 = no_window.
Proof.
  induction ss as [|s ss IH] using rev_ind; [done|]. rewrite hosts_of_app, windows_app. intros Hn.
  destruct IH as [H1 H2]; [set_solver|].
  destruct s as [h'|h'|h'|h'|now]; cbn [fst snd counted] in *; [..|done]; rewrite count_app;
    try (rewrite (proj2 (String.eqb_neq h' h)) by set_solver); done.
Qed.

(** The table has as many rows as hosts. *)
Lemma tracked_length t ss l : holds (hosts t) l ->
  (forall h, if bool_decide (h ∈ hosts_of ss) then exists e, assoc h l = Some e /\ cur e = count h (windows ss).2 /\ prev e = count h (windows ss).1
             else assoc h l = None) ->
  length l = size (hosts_of ss).
Proof.
  intros Hl Ha. assert (Hset : list_to_set l.*1 = hosts_of ss).
  { apply set_eq. intros h. rewrite elem_of_list_to_set, elem_of_keys. specialize (Ha h). case_bool_decide.
    - destruct Ha as (e & -> & _). split; [done|]. by eexists.
    - rewrite Ha. split; [by intros [? [=]]|done]. }
  rewrite <- Hset, size_list_to_set by (by eapply holds_nodup). by rewrite length_fmap.
Qed.

(** Signals that count for a host. *)
Lemma bump_tracked t ss s h f w :
  tracked t ss -> counted s = Some h -> (size (hosts_of (ss ++ [s])) <= Z.to_nat (maxHosts t))%nat ->
  (forall e, cur (f e) = add w (cur e) /\ prev (f e) = prev e) ->
  (forall h', count h' ((windows ss).2 ++ [s]) = if String.eqb h h' then add w (count h' (windows ss).2) else count h' (windows ss).2) ->
  windows (ss ++ [s]) = ((windows ss).1, (windows ss).2 ++ [s]) ->
  tracked (bump t h f) (ss ++ [s]) /\ maxHosts (bump t h f) = maxHosts t.
Proof.
  intros (l & Hl & Ha) Hs Hsize Hf Hcount Hw.
  assert (Hfit : assoc h l <> None \/ (length l < Z.to_nat (maxHosts t))%nat).
  { pose proof (Ha h) as Hh. case_bool_decide as Hin; [left; by destruct Hh as (e & -> & _)|]. right.
    rewrite (tracked_length t ss l Hl Ha). rewrite hosts_of_app, Hs, size_union in Hsize by set_solver. rewrite size_singleton in Hsize. lia. }
  destruct (bump_spec t l h f Hl Hfit) as (l' & Hl' & Hm & Ha'). split; [|done]. exists l'. split; [done|]. intros h'.
  rewrite hosts_of_app, Hs, Hw, Ha'. cbn [fst snd]. rewrite Hcount. pose proof (Ha h') as Hh'.
  destruct (String.eqb_spec h h') as [<-|Hne].
  - rewrite bool_decide_eq_true_2 by set_solver. eexists. split; [done|]. destruct (Hf (default new_host (assoc h l))) as [-> ->].
    case_bool_decide as Hin.
    + destruct Hh' as (e & -> & Hc & Hp). cbn. by rewrite Hc, Hp.
    + destruct (not_counted h ss Hin) as [-> ->]. rewrite Hh'. done.
  - rewrite (bool_decide_ext (h' ∈ hosts_of ss ∪ {[h]}) (h' ∈ hosts_of ss)) by set_solver. done.
Qed.

Lemma tracked_after max ss : (size (hosts_of ss) <= Z.to_nat (maxHosts (NewAutoscaleTracker max)))%nat ->
  tracked (after (NewAutoscaleTracker max) ss) ss /\ maxHosts (after (NewAutoscaleTracker max) ss) = maxHosts (NewAutoscaleTracker max).
Proof.
  induction ss as [|s ss IH] using rev_ind; intros Hsize.
  - split; [|done]. exists []. split; [apply holds_new|]. intros h. rewrite bool_decide_eq_false_2; [done|]. unfold hosts_of. cbn. set_solver.
  - destruct IH as [Ht Hm].
    { etrans; [|exact Hsize]. apply subseteq_size. rewrite hosts_of_app. set_solver. }
    unfold after. rewrite foldl_app. fold (after (NewAutoscaleTracker max) ss). cbn [foldl].
    set (t := after (NewAutoscaleTracker max) ss) in *. rewrite <- Hm in Hsize |- *.
    destruct s as [h|h|h|h|now]; cbn [signal_step fst].
    + apply (bump_tracked t ss (Served h) h _ (mkWindow 1 0 0)); try done; [intros h'; by rewrite count_app|by rewrite windows_app].
    + assert (Hsame : tracked t (ss ++ [Left_ h])).
      { destruct Ht as (l & Hl & Ha). exists l. split; [done|]. intros h'. rewrite hosts_of_app, windows_app. cbn [counted fst snd]. rewrite count_app, union_empty_r_L. apply Ha. }
      unfold Release. destruct (get (hosts t) h) as [e|] eqn:Eg; [|done]. split; [|done].
      destruct Hsame as (l & Hl & Ha). rewrite (holds_get _ _ _ Hl) in Eg.
      destruct (write_touch (hosts t) l h (if 0 <? inflight e then mkCounters (inflight e - 1) (ewma e) (cur e) (prev e) else e) Hl) as (l' & Hl' & Ha').
      { rewrite Eg. by eexists. }
      exists l'. split; [done|]. intros h'. rewrite Ha'. specialize (Ha h'). destruct (String.eqb_spec h h') as [<-|]; [|done].
      case_bool_decide; [|congruence]. destruct Ha as (e' & He' & Hc & Hp). eexists. split; [done|].
      assert (e' = e) as -> by congruence. by destruct (0 <? inflight e).
    + apply (bump_tracked t ss (Rejected h) h _ (mkWindow 0 1 0)); try done; [intros h'; by rewrite count_app|by rewrite windows_app].
    + apply (bump_tracked t ss (Unserved h) h _ (mkWindow 0 0 1)); try done; [intros h'; by rewrite count_app|by rewrite windows_app].
    + destruct Ht as (l & Hl & Ha). unfold snapshotForReport.
      assert (Hnd : NoDup (range_keys (hosts t))) by (rewrite (holds_range _ _ Hl); by eapply holds_nodup).
      pose proof (report_hosts_spec (alphaOrDefault t) now _ _ l ∅ Hl Hnd) as Hr.
      destruct (report_hosts _ _ _ _ _) as [c' out']. destruct Hr as (l' & Hl' & Ha' & _). split; [|done]. exists l'. split; [done|].
      intros h. rewrite hosts_of_app, windows_app. cbn [counted fst snd]. rewrite union_empty_r_L, Ha'. specialize (Ha h).
      rewrite (bool_decide_ext (h ∈ range_keys (hosts t)) (h ∈ hosts_of ss)).
      * case_bool_decide; [|done]. destruct Ha as (e & -> & Hc & _). eexists. by split.
      * rewrite (holds_range _ _ Hl), elem_of_keys. case_bool_decide as Hin; [destruct Ha as (e & -> & _)|rewrite Ha]; split; try done; eauto.
Qed.

(** As long as the hosts fit the table, a report has one sample for every
    host that was served, rejected or unservable so far, and the sample counts exactly the
    signals of the host since the report before the last one, whatever releases and other
    hosts come in between; it says that this took ten seconds, which is true only if
    the reporter runs every five. *)
Theorem report_counts max ss now : (size (hosts_of ss) <= Z.to_nat (maxHosts (NewAutoscaleTracker max)))%nat ->
  let report := (snapshotForReport (after (NewAutoscaleTracker max) ss) now).2 in
  dom report = hosts_of ss /\
  forall h s, report !! h = Some s ->
  let w := add (count h (windows ss).2) (count h (windows ss).1) in
  RPS s = fof_Z (rps w) /\ HardRejected s = hardRejected w /\ s_Unserved s = unserved w /\ TsMs s = now /\ WinMs s = 10000.
Proof.
  intros Hsize. destruct (tracked_after max ss Hsize) as [(l & Hl & Ha) _]. set (t := after _ ss) in *. unfold snapshotForReport.
  assert (Hnd : NoDup (range_keys (hosts t))) by (rewrite (holds_range _ _ Hl); by eapply holds_nodup).
  pose proof (report_hosts_spec (alphaOrDefault t) now _ _ l ∅ Hl Hnd) as Hr.
  destruct (report_hosts _ _ _ _ _) as [c' out']. destruct Hr as (_ & _ & _ & Ho). cbn.
  assert (Hout : forall h, out' !! h = if bool_decide (h ∈ hosts_of ss) then (fun e => (sample (alphaOrDefault t) now e).2) <$> assoc h l else None).
  { intros h. rewrite Ho, lookup_empty. specialize (Ha h). rewrite (bool_decide_ext (h ∈ range_keys (hosts t)) (h ∈ hosts_of ss)).
    - case_bool_decide; [|done]. by destruct Ha as (e & -> & _).
    - rewrite (holds_range _ _ Hl), elem_of_keys. case_bool_decide as Hin; [destruct Ha as (e & -> & _)|rewrite Ha]; split; try done; eauto. }
  split.
  - apply set_eq. intros h. rewrite elem_of_dom, Hout. specialize (Ha h). case_bool_decide; [|split; [by intros [? [=]]|done]].
    destruct Ha as (e & -> & _). split; [done|]. by eexists.
  - intros h s. rewrite Hout. specialize (Ha h). case_bool_decide; [|done]. destruct Ha as (e & -> & Hc & Hp). intros [= <-]. cbn.
    rewrite Hc, Hp. done.
Qed.
End tracker.

Definition demo_signals : list signal :=
  [Served "a"; Left_ "a"; Served "a"; Tick 5000; Rejected "a"; Unserved "b"; Served "a"; Tick 10000; Served "b"].

Lemma report_counts_witness :
  let report := (snapshotForReport (after (C := lruCache) (NewAutoscaleTracker 2) demo_signals) 15000).2 in
  dom report = {["a"; "b"]} /\ forall s, report !! "a"%string = Some s -> RPS s = fof_Z 1 /\ HardRejected s = 1 /\ WinMs s = 10000.
Proof.
  destruct (report_counts (C := lruCache) 2 demo_signals 15000) as [Hdom Hall]; [vm_compute; lia|].
  cbv zeta. split.
  - rewrite Hdom. vm_compute. reflexivity.
  - intros s Hs. destruct (Hall "a"%string s Hs) as (Hr & Hh & _ & _ & Hw). split; [|split; [|exact Hw]].
    + rewrite Hr. vm_compute. reflexivity.
    + rewrite Hh. vm_compute. reflexivity.
Defined.
