(* ===== verification/NodeManager.v ===== *)
(** * Node discovery

    controlplane/nodemanager: the nodes Nomad knows, the agents that run on them, the
    connections to these agents and what they report; and the nodes table of
    controlplane/store, with the intent to drain or evacuate a node. A connection is the
    address it was dialled with. Nomad's answers, the replies of agents and whether a dial
    succeeds are arguments. *)
From Stdlib Require Import Ascii.
From S2P Require Import Prelude GoFloat GoString GoNet.

#[local] Open Scope string_scope.
#[local] Open Scope Z_scope.

(** ** Data *)

(** ServiceInfoResponse. *)
Definition STATUS_HEALTHY : Z := 1.
Record NodeCapacity := mkCapacity { VcpuTotal : Z; MemTotalMib : Z; DiskTotalMib : Z }.
Record NodeUsage := mkNodeUsage {
  CpuPercent : float64; MemUsedMib : Z; MemAllocatedMib : Z; DiskUsedMib : Z; DiskAllocatedMib : Z }.
Record ServiceInfo := mkInfo {
  si_NodeId : string; si_Status : Z; si_Labels : gmap string string; si_Capacity : option NodeCapacity;
  si_Usage : option NodeUsage; CachedImageDigests : list string; ProtocolVersion : string; FeatureIds : list string;
  SnapshotCompatibilityKey : string }.

Record Node := mkNode {
  NomadNodeID : string; Name : string; NodePool : string; Ready : bool; Eligible : bool; Drain : bool;
  Status : string; GRPCAddr : string; ProxyAddr : string; Info : option ServiceInfo; LastSeen : Z; capabilitySig : string }.

Record NomadNodeStub := mkStub {
  st_ID : string; st_Name : string; st_NodePool : string; st_Status : string; SchedulingEligibility : string;
  st_Drain : bool; HTTPAddr : string; Address : string }.
Record Port := mkPort { HostIP : string; Label : string; Value : Z }.
Record NomadAllocStub := mkAlloc {
  al_ID : string; al_NodeID : string; JobVersion : Z; ClientStatus : string; AllocatedResources : option (list Port) }.

(** Manager: the snapshot and the connection pool, by Nomad node id. *)
Record Manager := mkManager { nodes : gmap string Node; conns : gmap string string }.
Definition empty_manager : Manager := mkManager ∅ ∅.

Definition with_status (s : string) (n : Node) : Node :=
  mkNode (NomadNodeID n) (Name n) (NodePool n) (Ready n) (Eligible n) (Drain n) s (GRPCAddr n) (ProxyAddr n) (Info n)
    (LastSeen n) (capabilitySig n).

(** ** Statuses *)

Definition nomadBaseStatus (n : Node) : option string :=
  if negb (Ready n) || negb (Eligible n) then Some "UNHEALTHY"
  else if Drain n then Some "DRAINING" else None.

Definition nomadStatus (n : Node) : string := default "UNKNOWN" (nomadBaseStatus n).
Definition unknownStatus (n : Node) : string := default "UNKNOWN" (nomadBaseStatus n).

Definition combinedStatus (n : Node) (info : ServiceInfo) : string :=
  match nomadBaseStatus n with
  | Some s => s
  | None =>
      if String.eqb (GRPCAddr n) "" then "UNKNOWN"
      else if negb (si_Status info =? STATUS_HEALTHY) then "UNHEALTHY" else "HEALTHY"
  end.

Definition agentNodeID (n : Node) : string :=
  match Info n with
  | Some info => if String.eqb (si_NodeId info) "" then NomadNodeID n else si_NodeId info
  | None => NomadNodeID n
  end.

Definition capabilitySignature (info : ServiceInfo) : string :=
  ProtocolVersion info +:+ "|" +:+ SnapshotCompatibilityKey info +:+ "|[" +:+ join " " (FeatureIds info) +:+ "]".

(** ** Addresses *)

(** [net.IP.String] and the classes of a [net.IP], which sees an IPv4-mapped address as IPv4. *)
Definition ip_string (a : Addr) : string := addr_string (Unmap a).
Definition routable (a : Addr) : bool := negb (IsLoopback (Unmap a)) && negb (IsUnspecified (Unmap a)).

Definition port_host (p : Port) : string :=
  match ParseIP (HostIP p) with
  | Some ip => if IsUnspecified (Unmap ip) then "" else ip_string ip
  | None => ""
  end.

(** The endpoints of the ports labelled grpc and proxy; of several the last. *)
Definition allocEndpoints (a : NomadAllocStub) : (string * Z) * (string * Z) :=
  fold_left (fun ep p =>
    if String.eqb (Label p) "grpc" then ((port_host p, Value p), ep.2)
    else if String.eqb (Label p) "proxy" then (ep.1, (port_host p, Value p)) else ep)
    (default [] (AllocatedResources a)) (("", 0), ("", 0)).

(** [net.JoinHostPort]. *)
Definition JoinHostPort (host port : string) : string :=
  if contains_byte host ":"%char || contains_byte host "%"%char then "[" +:+ host +:+ "]:" +:+ port
  else host +:+ ":" +:+ port.

(** [url_hostname] is the host name of a parsed URL, [None] when it does not parse. *)
Definition nodeHost (url_hostname : string -> option string) (stub : NomadNodeStub) : option string :=
  let by_url :=
    match url_hostname ("//" +:+ HTTPAddr stub) with
    | Some host =>
        let by_name := if negb (String.eqb host "") && negb (String.eqb host "localhost") then Some host else None in
        match ParseIP host with
        | Some ip => if routable ip then Some (ip_string ip) else by_name
        | None => by_name
        end
    | None => None
    end in
  match ParseIP (Address stub) with
  | Some ip => if routable ip then Some (ip_string ip) else by_url
  | None => by_url
  end.

Definition endpoints_of (alloc : option NomadAllocStub) : (string * Z) * (string * Z) :=
  match alloc with Some a => allocEndpoints a | None => (("", 0), ("", 0)) end.

Section manager.
Context (url_hostname : string -> option string).

Definition endpoint (fallback : option string) (ep : string * Z) : string :=
  let host := if String.eqb ep.1 "" then default "" fallback else ep.1 in
  if negb (String.eqb host "") && (0 <? ep.2) then JoinHostPort host (itoa ep.2) else "".

(** ** Discovery *)

Definition markUnknown (m : Manager) : Manager := mkManager (with_status "UNKNOWN" <$> nodes m) (conns m).

(** [dial] says whether a dial of a node's address succeeds. *)
Definition ensureConnLocked (dial : string -> string -> bool) (nomadID grpcAddr : string) (conns : gmap string string) :
    gmap string string :=
  if bool_decide (conns !! nomadID = Some grpcAddr) then conns
  else if dial nomadID grpcAddr then <[nomadID := grpcAddr]> conns else delete nomadID conns.

Definition byNode (stubs : list NomadNodeStub) : gmap string NomadNodeStub :=
  fold_left (fun m s => <[st_ID s := s]> m) stubs ∅.

(** The running allocation of the highest job version of every node. *)
Definition bestAlloc (allocs : list NomadAllocStub) : gmap string NomadAllocStub :=
  fold_left (fun best a =>
    if negb (String.eqb (ClientStatus a) "running") then best
    else match best !! al_NodeID a with
         | Some cur => if JobVersion cur <? JobVersion a then <[al_NodeID a := a]> best else best
         | None => <[al_NodeID a := a]> best
         end) allocs ∅.

(** fillAllocResources, for the allocations the list came without ports for; a failure is logged. *)
Definition fillAllocResources (detail : string -> res (option (list Port))) (a : NomadAllocStub) : NomadAllocStub :=
  match AllocatedResources a, detail (al_ID a) with
  | None, Ok (Some ports) => mkAlloc (al_ID a) (al_NodeID a) (JobVersion a) (ClientStatus a) (Some ports)
  | _, _ => a
  end.

(** The node as Nomad describes it, with what its agent last reported. *)
Definition discovered (alloc : option NomadAllocStub) (stub : NomadNodeStub) (prev : option Node) : Node :=
  let host := nodeHost url_hostname stub in
  let ep := endpoints_of alloc in
  let n := mkNode (st_ID stub) (st_Name stub) (st_NodePool stub) (String.eqb (st_Status stub) "ready")
             (String.eqb (SchedulingEligibility stub) "eligible") (st_Drain stub) ""
             (endpoint host ep.1) (endpoint host ep.2) (prev ≫= Info) (from_option LastSeen zero_time prev) "" in
  match prev ≫= Info with
  | Some info => if negb (String.eqb (GRPCAddr n) "") then with_status (combinedStatus n info) n else with_status (nomadStatus n) n
  | None => with_status (nomadStatus n) n
  end.

Definition discover_node (dial : string -> string -> bool) (allocs : gmap string NomadAllocStub) (m : Manager)
    (kv : string * NomadNodeStub) : Manager :=
  let '(nomadID, stub) := kv in
  let n := discovered (allocs !! nomadID) stub (nodes m !! nomadID) in
  mkManager (<[nomadID := n]> (nodes m))
    (if negb (String.eqb (GRPCAddr n) "") then ensureConnLocked dial nomadID (GRPCAddr n) (conns m)
     else delete nomadID (conns m)).

(** A node that is gone is dropped with its connection: the loop is over the connections. *)
Definition drop_unseen (seen : gmap string NomadNodeStub) (m : Manager) : Manager :=
  let gone := filter (fun id => seen !! id = None) (map fst (map_to_list (conns m))) in
  mkManager (fold_left (fun ns id => delete id ns) gone (nodes m)) (fold_left (fun cs id => delete id cs) gone (conns m)).

(** What Nomad answers during one discovery. *)
Record NomadReply := mkReply {
  rp_nodes : res (list NomadNodeStub); rp_allocs : res (list NomadAllocStub); rp_detail : string -> res (option (list Port)) }.

Definition Discover (reply : NomadReply) (dial : string -> string -> bool) (m : Manager) : Manager * res unit :=
  match rp_nodes reply with
  | Err e => (markUnknown m, Err e)
  | Ok stubs =>
      match rp_allocs reply with
      | Err e => (markUnknown m, Err e)
      | Ok allocs =>
          let seen := byNode stubs in
          let best := fillAllocResources (rp_detail reply) <$> bestAlloc allocs in
          (drop_unseen seen (fold_left (discover_node dial best) (map_to_list seen) m), Ok tt)
      end
  end.

(** ** Service information *)

(** What the second lock of the loop body does with the answer of an agent. *)
Definition observed (now : Z) (info : option ServiceInfo) (cur : Node) : Node :=
  match info with
  | Some i =>
      let n := mkNode (NomadNodeID cur) (Name cur) (NodePool cur) (Ready cur) (Eligible cur) (Drain cur) (Status cur)
                 (GRPCAddr cur) (ProxyAddr cur) (Some i) now (capabilitySignature i) in
      with_status (combinedStatus cur i) n
  | None => with_status (unknownStatus cur) cur
  end.
Definition observe (now : Z) (nomadID : string) (info : option ServiceInfo) (m : Manager) : Manager :=
  mkManager (alter (observed now info) nomadID (nodes m)) (conns m).

(** The projection changed: logged. *)
Definition capability_logged (info : ServiceInfo) (cur : Node) : bool :=
  negb (String.eqb (capabilitySignature info) (capabilitySig cur)).

(** The call, for a node of the snapshot: [rpc] is the answer of the agent behind an address. *)
Definition ask (rpc : string -> option ServiceInfo) (n : Node) (m : Manager) : option ServiceInfo :=
  if String.eqb (GRPCAddr n) "" then None else conns m !! NomadNodeID n ≫= rpc.

(** The pass, when nothing runs between its locks; and the rows it writes. *)
Fixpoint SyncServiceInfo_loop (rpc : string -> option ServiceInfo) (now : Z) (snapshot : list Node) (m : Manager) :
    Manager * list Node :=
  match snapshot with
  | [] => (m, [])
  | n :: rest =>
      let m1 := observe now (NomadNodeID n) (ask rpc n m) m in
      let '(m2, rows) := SyncServiceInfo_loop rpc now rest m1 in
      (m2, match nodes m1 !! NomadNodeID n with Some cur => cur :: rows | None => rows end)
  end.
Definition SyncServiceInfo (rpc : string -> option ServiceInfo) (now : Z) (m : Manager) : Manager * list Node :=
  SyncServiceInfo_loop rpc now (map snd (map_to_list (nodes m))) m.

(** ** Readers *)

Definition Nodes (m : Manager) : list Node := map snd (map_to_list (nodes m)).
Definition ClientFor (nomadNodeID : string) (m : Manager) : option string := conns m !! nomadNodeID.

(** Of several nodes with the id, the first in the order of the map is taken. *)
Definition ClientForNodeID (nodeID : string) (m : Manager) : option string :=
  match List.find (fun kv : string * Node => String.eqb kv.1 nodeID || String.eqb (agentNodeID kv.2) nodeID)
          (map_to_list (nodes m)) with
  | Some (nomadID, _) => conns m !! nomadID
  | None => None
  end.

Definition Close (m : Manager) : Manager := mkManager (nodes m) ∅.
End manager.

(** ** Histories *)

(** The critical sections of the two loops and of [Close], in any order and with any answers. *)
Inductive manager_step (url_hostname : string -> option string) : Manager -> Manager -> Prop :=
  | step_discover reply dial m : manager_step url_hostname m (Discover url_hostname reply dial m).1
  | step_observe now id info m : manager_step url_hostname m (observe now id info m)
  | step_close m : manager_step url_hostname m (Close m).
Definition manager_reachable url_hostname : Manager -> Prop := rtc (manager_step url_hostname) empty_manager.

(** What a status says of the node it is the status of. *)
Definition status_ok (n : Node) : Prop :=
  (Status n = "HEALTHY" ->
   Ready n = true /\ Eligible n = true /\ Drain n = false /\ GRPCAddr n <> "" /\
   exists info, Info n = Some info /\ si_Status info = STATUS_HEALTHY) /\
  (Status n = "DRAINING" -> Drain n = true).

Record manager_inv (m : Manager) : Prop := mkManagerInv {
  mi_key : forall id n, nodes m !! id = Some n -> NomadNodeID n = id;
  mi_status : forall id n, nodes m !! id = Some n -> status_ok n;
  mi_conn : forall id a, conns m !! id = Some a -> a <> "" /\ exists n, nodes m !! id = Some n /\ GRPCAddr n = a }.

Lemma status_ok_other s n : s <> "HEALTHY" -> s <> "DRAINING" -> status_ok (with_status s n).
Proof. done. Qed.

Lemma status_ok_base n : status_ok (with_status (default "UNKNOWN" (nomadBaseStatus n)) n).
Proof.
  unfold nomadBaseStatus. destruct (negb _ || negb _) eqn:?; [done|]. destruct (Drain n) eqn:?; done.
Qed.

Lemma status_ok_combined n info : Info n = Some info -> status_ok (with_status (combinedStatus n info) n).
Proof.
  intros Hi. unfold combinedStatus, nomadBaseStatus.
  destruct (negb (Ready n) || negb (Eligible n)) eqn:Hb; [done|]. destruct (Drain n) eqn:Hd; [done|].
  destruct (String.eqb_spec (GRPCAddr n) ""); [done|]. destruct (si_Status info =? STATUS_HEALTHY) eqn:Hs; [|done].
  split; [|done]. intros _. apply orb_false_iff in Hb as [?%negb_false_iff ?%negb_false_iff]. cbn. split_and!; try done.
  exists info. split; [done|]. by apply Z.eqb_eq.
Qed.

Lemma discovered_ok url alloc stub prev : status_ok (discovered url alloc stub prev).
Proof.
  unfold discovered. destruct (prev ≫= Info) as [info|] eqn:Hp; [|apply status_ok_base].
  destruct (negb _); [by apply status_ok_combined|apply status_ok_base].
Qed.

Lemma discovered_id url alloc stub prev : NomadNodeID (discovered url alloc stub prev) = st_ID stub.
Proof. unfold discovered. by destruct (prev ≫= Info); [destruct (negb _)|]. Qed.

Lemma observed_ok now info n : status_ok (observed now info n).
Proof.
  destruct info as [i|]; [|apply status_ok_base].
  pose proof (status_ok_combined (mkNode (NomadNodeID n) (Name n) (NodePool n) (Ready n) (Eligible n) (Drain n) (Status n)
                 (GRPCAddr n) (ProxyAddr n) (Some i) now (capabilitySignature i)) i eq_refl) as H. exact H.
Qed.

Lemma byNode_key stubs id s : byNode stubs !! id = Some s -> st_ID s = id.
Proof.
  unfold byNode. assert (forall m : gmap string NomadNodeStub, (forall id s, m !! id = Some s -> st_ID s = id) ->
    forall id s, fold_left (fun m s => <[st_ID s := s]> m) stubs m !! id = Some s -> st_ID s = id) as H.
  { induction stubs as [|x stubs IH]; intros m Hm; cbn; [done|]. apply IH. intros i y Hy.
    apply lookup_insert_Some in Hy as [[Hi Hx]|[_ Hy]]; [congruence|by apply Hm]. }
  apply H. intros i y Hy. by rewrite lookup_empty in Hy.
Qed.

(** ** Discovery, node by node *)

(** The connection pool after a discovery, at a node. *)
Definition pool_at (dial : string -> string -> bool) (id addr : string) (old : option string) : option string :=
  if String.eqb addr "" then None
  else if bool_decide (old = Some addr) then old
  else if dial id addr then Some addr else None.

Lemma discover_node_conns url dial allocs m id stub i :
  conns (discover_node url dial allocs m (id, stub)) !! i =
    if decide (i = id) then pool_at dial id (GRPCAddr (discovered url (allocs !! id) stub (nodes m !! id))) (conns m !! id)
    else conns m !! i.
Proof.
  cbn. unfold pool_at, ensureConnLocked. set (a := GRPCAddr _). destruct (String.eqb a ""); cbn.
  - destruct (decide (i = id)) as [->|]; [apply lookup_delete_eq|by apply lookup_delete_ne].
  - case_bool_decide as Ha; [by destruct (decide (i = id)) as [->|]|].
    destruct (dial id a), (decide (i = id)) as [->|];
      first [apply lookup_insert_eq|by apply lookup_insert_ne|apply lookup_delete_eq|by apply lookup_delete_ne].
Qed.

Lemma discover_node_nodes url dial allocs m id stub i :
  nodes (discover_node url dial allocs m (id, stub)) !! i =
    if decide (i = id) then Some (discovered url (allocs !! id) stub (nodes m !! id)) else nodes m !! i.
Proof. cbn. destruct (decide (i = id)) as [->|]; [apply lookup_insert_eq|by apply lookup_insert_ne]. Qed.

Lemma discover_loop url dial allocs l m i :
  NoDup l.*1 ->
  let m' := fold_left (discover_node url dial allocs) l m in
  match (list_to_map l : gmap string NomadNodeStub) !! i with
  | Some stub =>
      let n := discovered url (allocs !! i) stub (nodes m !! i) in
      nodes m' !! i = Some n /\ conns m' !! i = pool_at dial i (GRPCAddr n) (conns m !! i)
  | None => nodes m' !! i = nodes m !! i /\ conns m' !! i = conns m !! i
  end.
Proof.
  revert m. induction l as [|[id stub] l IH]; intros m Hnd; cbn [fold_left].
  - cbn. by rewrite lookup_empty.
  - cbn in Hnd. apply NoDup_cons in Hnd as [Hid Hnd]. specialize (IH (discover_node url dial allocs m (id, stub)) Hnd).
    rewrite discover_node_conns, discover_node_nodes in IH.
    change (list_to_map ((id, stub) :: l)) with (<[id := stub]> (list_to_map l : gmap string NomadNodeStub)).
    destruct (decide (i = id)) as [->|Hne].
    + rewrite lookup_insert_eq. by rewrite (proj1 (not_elem_of_list_to_map l id) Hid) in IH.
    + by rewrite lookup_insert_ne by done.
Qed.

Lemma fold_delete {A} (ids : list string) (m : gmap string A) i :
  fold_left (fun ns id => delete id ns) ids m !! i = if decide (i ∈ ids) then None else m !! i.
Proof.
  revert m. induction ids as [|id ids IH]; intros m; cbn [fold_left]; [done|].
  rewrite IH. destruct (decide (i ∈ ids)) as [Hin|Hni].
  - by rewrite decide_True by (by right).
  - destruct (decide (i = id)) as [->|Hne]; [rewrite decide_True by (by left); apply lookup_delete_eq|].
    rewrite decide_False by (rewrite elem_of_cons; tauto). by apply lookup_delete_ne.
Qed.

Lemma drop_unseen_at seen m i :
  let gone := bool_decide (seen !! i = None) && bool_decide (is_Some (conns m !! i)) in
  nodes (drop_unseen seen m) !! i = (if gone then None else nodes m !! i) /\
  conns (drop_unseen seen m) !! i = (if gone then None else conns m !! i).
Proof.
  cbn. unfold drop_unseen. set (ids := filter _ _). cbn. rewrite !fold_delete.
  assert (i ∈ ids <-> seen !! i = None /\ is_Some (conns m !! i)) as Hin.
  { unfold ids. rewrite list_elem_of_filter. apply and_iff_compat_l. rewrite list_elem_of_fmap. split.
    - intros ([k a] & -> & Hk). apply elem_of_map_to_list in Hk. eauto.
    - intros [a Ha]. exists (i, a). split; [done|]. by apply elem_of_map_to_list. }
  destruct (decide (i ∈ ids)) as [H|H]; rewrite Hin in H.
  - destruct H as [-> Hc]. by rewrite !bool_decide_eq_true_2.
  - destruct (decide (seen !! i = None)) as [E|E]; [|by rewrite (bool_decide_eq_false_2 _ E)].
    rewrite (bool_decide_eq_false_2 (is_Some _)) by tauto. by rewrite andb_false_r.
Qed.

Lemma byNode_list stubs : list_to_map (map_to_list (byNode stubs)) = byNode stubs.
Proof. apply list_to_map_to_list. Qed.

(** What a discovery that Nomad answers does to every node: a node it lists is
    described anew and keeps what its agent last reported, its connection is the one to
    the address given now, or none; a node it does not list is dropped if there was a
    connection to it, and otherwise stays as it was - for ever, since only a connection
    gets it dropped. When Nomad does not answer, every node is UNKNOWN and nothing else
    changes. *)
Theorem discover_exact url reply dial m id :
  let m' := (Discover url reply dial m).1 in
  match rp_nodes reply, rp_allocs reply with
  | Ok stubs, Ok allocs =>
      match byNode stubs !! id with
      | Some stub =>
          let n := discovered url (fillAllocResources (rp_detail reply) <$> bestAlloc allocs !! id) stub (nodes m !! id) in
          nodes m' !! id = Some n /\ conns m' !! id = pool_at dial id (GRPCAddr n) (conns m !! id)
      | None => nodes m' !! id = (if conns m !! id is Some _ then None else nodes m !! id) /\ conns m' !! id = None
      end
  | _, _ => nodes m' !! id = with_status "UNKNOWN" <$> nodes m !! id /\ conns m' = conns m
  end.
Proof.
  cbv zeta. unfold Discover. destruct (rp_nodes reply) as [stubs|e]; [|split; [apply lookup_fmap|done]].
  destruct (rp_allocs reply) as [allocs|e]; [|split; [apply lookup_fmap|done]]. cbn [fst].
  set (best := fillAllocResources _ <$> bestAlloc allocs).
  pose proof (discover_loop url dial best (map_to_list (byNode stubs)) m id (NoDup_fst_map_to_list _)) as Hl.
  rewrite byNode_list in Hl. cbv zeta in Hl. set (m1 := fold_left _ _ m) in *.
  pose proof (drop_unseen_at (byNode stubs) m1 id) as [-> ->]. unfold best in Hl. rewrite lookup_fmap in Hl.
  destruct (byNode stubs !! id) as [stub|]; cbn.
  - destruct Hl as [-> ->]. done.
  - destruct Hl as [-> ->]. destruct (conns m !! id) as [a|]; [by rewrite bool_decide_eq_true_2|].
    rewrite bool_decide_eq_false_2 by (intros [? ?]; done). done.
Qed.

Lemma manager_inv_discover url reply dial m : manager_inv m -> manager_inv (Discover url reply dial m).1.
Proof.
  intros [Hk Hs Hc]. pose proof (discover_exact url reply dial m) as Hd. cbv zeta in Hd. set (m' := (Discover _ _ _ m).1) in *.
  destruct (rp_nodes reply) as [stubs|e]; [destruct (rp_allocs reply) as [allocs|e]|].
  2,3: (split; [intros i n Hn|intros i n Hn|intros i a Ha]; destruct (Hd i) as [Hn' Hc'];
    [ rewrite Hn' in Hn; apply fmap_Some in Hn as (n0 & Hn0 & ->); exact (Hk i n0 Hn0)
    | rewrite Hn' in Hn; apply fmap_Some in Hn as (n0 & Hn0 & ->); by apply status_ok_other
    | rewrite Hc' in Ha; destruct (Hc i a Ha) as (Hne & n & Hn & Hg); split; [done|]; rewrite Hn', Hn; cbn; eauto ]).
  split; [intros i n Hn|intros i n Hn|intros i a Ha]; specialize (Hd i);
    destruct (byNode stubs !! i) as [stub|] eqn:Hst; cbv zeta in Hd; destruct Hd as [Hn' Hc'].
  - rewrite Hn' in Hn. injection Hn as <-. rewrite discovered_id. by eapply byNode_key.
  - rewrite Hn' in Hn. destruct (conns m !! i); [done|]. by apply Hk.
  - rewrite Hn' in Hn. injection Hn as <-. apply discovered_ok.
  - rewrite Hn' in Hn. destruct (conns m !! i); [done|]. by eapply Hs.
  - rewrite Hc' in Ha. unfold pool_at in Ha. rewrite Hn'. set (n := discovered _ _ _ _) in *.
    destruct (String.eqb_spec (GRPCAddr n) "") as [|Hne]; [done|]. case_bool_decide as Ho; [|destruct (dial _ _); [|done]].
    + rewrite Ho in Ha. injection Ha as <-. eauto.
    + injection Ha as <-. eauto.
  - by rewrite Hc' in Ha.
Qed.

Lemma manager_inv_observe now id info m : manager_inv m -> manager_inv (observe now id info m).
Proof.
  intros [Hk Hs Hc]. split; cbn.
  - intros i n Hn. apply lookup_alter_Some in Hn as [(-> & n0 & Hn0 & ->)|[_ Hn]]; [|by apply Hk].
    specialize (Hk _ _ Hn0). by destruct info.
  - intros i n Hn. apply lookup_alter_Some in Hn as [(-> & n0 & Hn0 & ->)|[_ Hn]]; [apply observed_ok|by eapply Hs].
  - intros i a Ha. destruct (Hc i a Ha) as (Hne & n & Hn & Hg). split; [done|].
    destruct (decide (i = id)) as [->|Hi].
    + exists (observed now info n). rewrite lookup_alter_eq, Hn. split; [done|]. by destruct info.
    + exists n. by rewrite lookup_alter_ne.
Qed.

(** C32. However discovery, service information and shutdown interleave and whatever they
    are answered: a node the scheduler sees HEALTHY is ready, eligible and not draining
    in Nomad, has an agent address, and the last report of its agent said healthy; a
    DRAINING one drains; a connection goes to the address its node has now; and a node
    is filed under its own id. *)
Theorem healthy_is_reported url m : manager_reachable url m -> manager_inv m.
Proof.
  intros Hr. unfold manager_reachable in Hr.
  assert (forall m1 m2, rtc (manager_step url) m1 m2 -> manager_inv m1 -> manager_inv m2) as H.
  { intros m1 m2 Hs. induction Hs as [|m1 m2 m3 Hs _ IH]; [done|]. intros Hi. apply IH. destruct Hs.
    - by apply manager_inv_discover.
    - by apply manager_inv_observe.
    - destruct Hi as [Hk Hst _]. split; [done|done|]. intros i a Ha. exfalso. cbn in Ha. by rewrite lookup_empty in Ha. }
  apply (H _ _ Hr). split; intros i ? Hi; cbn in Hi; by rewrite lookup_empty in Hi.
Qed.

(** A defect. The agent of a healthy node stops answering; the next report makes it
    UNKNOWN, so that the scheduler leaves it out. But the discovery that follows, twice
    as frequent, judges it by the last report that did arrive: the node is HEALTHY
    again, its agent still silent, until the next report. *)
Theorem silent_agent_is_revived url reply dial m id n info now stubs allocs stub :
  nodes m !! id = Some n -> Info n = Some info -> si_Status info = STATUS_HEALTHY ->
  Ready n = true -> Eligible n = true -> Drain n = false ->
  rp_nodes reply = Ok stubs -> rp_allocs reply = Ok allocs -> byNode stubs !! id = Some stub ->
  st_Status stub = "ready" -> SchedulingEligibility stub = "eligible" -> st_Drain stub = false ->
  endpoint (nodeHost url stub) (endpoints_of (fillAllocResources (rp_detail reply) <$> bestAlloc allocs !! id)).1 <> "" ->
  let silent := observe now id None m in
  let next := (Discover url reply dial silent).1 in
  Status <$> nodes silent !! id = Some "UNKNOWN" /\
  Status <$> nodes next !! id = Some "HEALTHY" /\
  LastSeen <$> nodes next !! id = Some (LastSeen n).
Proof.
  intros Hn Hi Hh Hr He Hd Hrn Hra Hst Hsr Hse Hsd Hep. cbv zeta.
  assert (nodes (observe now id None m) !! id = Some (with_status (unknownStatus n) n)) as Hs.
  { cbn. by rewrite lookup_alter_eq, Hn. }
  pose proof (discover_exact url reply dial (observe now id None m) id) as Hx. cbv zeta in Hx.
  rewrite Hrn, Hra, Hst, Hs in Hx. destruct Hx as [Hx _]. rewrite Hx, Hs. split.
  - cbn. unfold unknownStatus, nomadBaseStatus. by rewrite Hr, He, Hd.
  - unfold discovered. change (Some (with_status (unknownStatus n) n) ≫= Info) with (Info n). rewrite Hi. cbn [GRPCAddr].
    pose proof Hep as Hep'. apply String.eqb_neq in Hep'. rewrite Hep'. cbn [negb].
    unfold combinedStatus, nomadBaseStatus. cbn. by rewrite Hsr, Hse, Hsd, Hh, Hep'.
Qed.

(** A defect: the signature that keeps a change of capabilities from being logged twice
    does not survive a discovery, so that after each one every report of the agent is
    logged as a change, the same as before included. *)
Lemma discovery_forgets_signature url reply dial m id n info stubs allocs :
  rp_nodes reply = Ok stubs -> rp_allocs reply = Ok allocs -> is_Some (byNode stubs !! id) ->
  nodes (Discover url reply dial m).1 !! id = Some n -> capability_logged info n = true.
Proof.
  intros Hrn Hra [stub Hst] Hn. pose proof (discover_exact url reply dial m id) as Hx. cbv zeta in Hx.
  rewrite Hrn, Hra, Hst in Hx. destruct Hx as [Hx _]. rewrite Hx in Hn. injection Hn as <-.
  assert (capabilitySig (discovered url (fillAllocResources (rp_detail reply) <$> bestAlloc allocs !! id) stub (nodes m !! id)) = "") as E
    by (unfold discovered; destruct (_ ≫= _); [destruct (negb _)|]; done).
  unfold capability_logged. rewrite E. apply negb_true_iff, String.eqb_neq. unfold capabilitySignature.
  by destruct (ProtocolVersion info).
Qed.

(** ** The nodes table *)

(** A row: what the projection writes, and the intent of the operator, which the
    projection leaves alone. *)
Record Projection := mkProjection {
  pr_ID : string; pr_NomadNodeID : string; pr_NodePool : string; pr_Status : string; pr_Labels : gmap string string;
  pr_VCPUTotal : Z; pr_MemTotalMib : Z; pr_DiskTotalMib : Z; pr_CPUPercent : float64; pr_MemUsedMib : Z;
  pr_MemAllocatedMib : Z; pr_DiskUsedMib : Z; pr_GRPCAddr : string; pr_ProxyAddr : string; ImageCache : list string;
  pr_FeatureIDs : list string; pr_ProtocolVersion : string; pr_SnapshotKey : string }.
Record Evacuation := mkEvacuation {
  Draining : bool; Evacuate : bool; EvacuationMachineID : option string; EvacuationStartedAt : option Z }.
Record Row := mkRow { projection : Projection; evacuation : Evacuation; LastSeenAt : Z }.

(** The table, by [nomad_node_id]; [id] is its primary key. *)
Abbreviation Table := (gmap string Row).
Definition row_id (r : Row) : string := pr_ID (projection r).
Definition no_evacuation : Evacuation := mkEvacuation false false None None.

Definition with_row_status (s : string) (p : Projection) : Projection :=
  mkProjection (pr_ID p) (pr_NomadNodeID p) (pr_NodePool p) s (pr_Labels p) (pr_VCPUTotal p) (pr_MemTotalMib p)
    (pr_DiskTotalMib p) (pr_CPUPercent p) (pr_MemUsedMib p) (pr_MemAllocatedMib p) (pr_DiskUsedMib p) (pr_GRPCAddr p)
    (pr_ProxyAddr p) (ImageCache p) (pr_FeatureIDs p) (pr_ProtocolVersion p) (pr_SnapshotKey p).

(** upsertPG: the projection of a node; an int64 of a uint64 wraps. *)
Definition projection_of (n : Node) : Projection :=
  let id := agentNodeID n in
  match Info n with
  | None => mkProjection id (NomadNodeID n) (NodePool n) (Status n) ∅ 0 0 0 fzero 0 0 0 (GRPCAddr n) (ProxyAddr n) [] [] "" ""
  | Some info =>
      let cap (f : NodeCapacity -> Z) := from_option (fun c => i64 (f c)) 0 (si_Capacity info) in
      let use (f : NodeUsage -> Z) := from_option (fun u => i64 (f u)) 0 (si_Usage info) in
      mkProjection id (NomadNodeID n) (NodePool n) (Status n) (si_Labels info)
        (cap VcpuTotal) (cap MemTotalMib) (cap DiskTotalMib) (from_option CpuPercent fzero (si_Usage info))
        (use MemUsedMib) (use MemAllocatedMib) (use DiskUsedMib) (GRPCAddr n) (ProxyAddr n)
        (CachedImageDigests info) (FeatureIds info) (ProtocolVersion info) (SnapshotCompatibilityKey info)
  end.

Definition ErrNotFound : goerr := errors_New "not found".
Definition ErrEvacuationBusy : goerr := errors_New "another node evacuation is active".
Definition nodes_pkey : goerr := errors_New "23505 nodes_pkey".

(** Another row has the id. *)
Definition id_taken (id nomadID : string) (t : Table) : bool :=
  existsb (fun kv : string * Row => String.eqb (row_id kv.2) id && negb (String.eqb kv.1 nomadID)) (map_to_list t).

Definition UpsertNode (o : exec_outcome) (now : Z) (p : Projection) : cmd Table unit := fun t =>
  if id_taken (pr_ID p) (pr_NomadNodeID p) t then (t, Err (wrap "upsert node: %w" nodes_pkey))
  else cmd_exec o (wrap "upsert node: %w")
         (fun t => <[pr_NomadNodeID p := mkRow p (from_option evacuation no_evacuation (t !! pr_NomadNodeID p)) now]> t) t.

Definition upsertPG (o : exec_outcome) (now : Z) (n : Node) : cmd Table unit := UpsertNode o now (projection_of n).

(** The row of an id, with its key. *)
Definition row_of (id : string) (t : Table) : option (string * Row) :=
  List.find (fun kv : string * Row => String.eqb (row_id kv.2) id) (map_to_list t).

Definition is_evacuating (r : Row) : bool := Draining (evacuation r) && Evacuate (evacuation r).

(** The partial unique index: no other row evacuates. *)
Definition evacuation_busy (key : string) (t : Table) : bool :=
  existsb (fun kv : string * Row => is_evacuating kv.2 && negb (String.eqb kv.1 key)) (map_to_list t).

Definition set_evacuation (e : Evacuation) (r : Row) : Row := mkRow (projection r) e (LastSeenAt r).

Definition SetNodeDraining (o : exec_outcome) (nodeID : string) (draining evacuate : bool) : cmd Table unit := fun t =>
  let evacuate := draining && evacuate in
  match row_of nodeID t with
  | None => match o with Done => (t, Err ErrNotFound) | FailedBefore e | FailedAfter e => (t, Err (wrap "set node draining: %w" e)) end
  | Some (key, r) =>
      if draining && evacuate && evacuation_busy key t then (t, Err ErrEvacuationBusy)
      else
        let e := mkEvacuation draining evacuate
                   (if evacuate then EvacuationMachineID (evacuation r) else None)
                   (if evacuate then EvacuationStartedAt (evacuation r) else None) in
        cmd_exec o (wrap "set node draining: %w") (<[key := set_evacuation e r]>) t
  end.

(** One update of the row of an id, guarded; [true] when it matched. *)
Definition update_row (o : exec_outcome) (format nodeID : string) (guard : Evacuation -> bool) (f : Evacuation -> Evacuation) :
    cmd Table bool := fun t =>
  match row_of nodeID t with
  | Some (key, r) =>
      if guard (evacuation r)
      then (_ <~ cmd_exec o (wrap format) (<[key := set_evacuation (f (evacuation r)) r]>) ;; cmd_ret (Ok true))%go t
      else (_ <~ cmd_exec o (wrap format) id ;; cmd_ret (Ok false))%go t
  | None => (_ <~ cmd_exec o (wrap format) id ;; cmd_ret (Ok false))%go t
  end.

Definition StartEvacuationStep (o : exec_outcome) (now : Z) (nodeID machineID : string) : cmd Table bool :=
  update_row o "start evacuation step: %w" nodeID
    (fun e => Draining e && Evacuate e && bool_decide (EvacuationMachineID e = None))
    (fun e => mkEvacuation (Draining e) (Evacuate e) (Some machineID) (Some now)).

Definition ClearEvacuationStep (o : exec_outcome) (nodeID machineID : string) : cmd Table unit :=
  (_ <~ update_row o "clear evacuation step: %w" nodeID
          (fun e => bool_decide (EvacuationMachineID e = Some machineID))
          (fun e => mkEvacuation (Draining e) (Evacuate e) None None) ;;
   cmd_ret (Ok tt))%go.

(** MarkStaleNodes; the number of rows is logged. *)
Definition MarkStaleNodes (o : exec_outcome) (now olderThan : Z) : cmd Table unit :=
  cmd_exec o (wrap "mark stale nodes: %w")
    (fmap (fun r => if LastSeenAt r <? now - olderThan
                    then mkRow (with_row_status "UNKNOWN" (projection r)) (evacuation r) (LastSeenAt r) else r)).

(** ListNodes: by id. *)
Definition ListNodes (t : Table) : list Row :=
  sort_by (fun a b => String.ltb (row_id a) (row_id b)) (map snd (map_to_list t)).

(** Statements of any process, with any outcome. *)
Inductive table_step : Table -> Table -> Prop :=
  | step_upsert o now p t : table_step t (UpsertNode o now p t).1
  | step_draining o id d e t : table_step t (SetNodeDraining o id d e t).1
  | step_start o now id m t : table_step t (StartEvacuationStep o now id m t).1
  | step_clear o id m t : table_step t (ClearEvacuationStep o id m t).1
  | step_stale o now age t : table_step t (MarkStaleNodes o now age t).1.

Definition intent_ok (e : Evacuation) : Prop :=
  (Evacuate e = true -> Draining e = true) /\ (is_Some (EvacuationMachineID e) -> Evacuate e = true).

Record table_inv (t : Table) : Prop := mkTableInv {
  ti_key : forall k r, t !! k = Some r -> pr_NomadNodeID (projection r) = k;
  ti_id : forall k k' r r', t !! k = Some r -> t !! k' = Some r' -> row_id r = row_id r' -> k = k';
  ti_one : forall k k' r r', t !! k = Some r -> t !! k' = Some r' ->
    is_evacuating r = true -> is_evacuating r' = true -> k = k';
  ti_intent : forall k r, t !! k = Some r -> intent_ok (evacuation r) }.

(** What a statement may do to the machine that is being moved off a node. *)
Definition moving (t : Table) (key : string) : option string := r ← t !! key; EvacuationMachineID (evacuation r).
Definition moving_edge (t t' : Table) : Prop :=
  forall key m, moving t key = Some m -> moving t' key = Some m \/ moving t' key = None.

Lemma existsb_false_map {A} (f : string * A -> bool) (m : gmap string A) k v :
  existsb f (map_to_list m) = false -> m !! k = Some v -> f (k, v) = false.
Proof.
  intros He Hk. apply elem_of_map_to_list in Hk. destruct (f (k, v)) eqn:E; [|done].
  rewrite <- He. symmetry. apply existsb_exists. exists (k, v). split; [by apply list_elem_of_In|done].
Qed.

Lemma row_of_lookup id t key r : row_of id t = Some (key, r) -> t !! key = Some r /\ row_id r = id.
Proof.
  intros [Hin He]%find_some. cbn in He. apply String.eqb_eq in He. split; [|done].
  by apply elem_of_map_to_list, list_elem_of_In.
Qed.

(** Writing one row keeps the invariant and the moving machines. *)
Lemma table_put t key r :
  table_inv t -> pr_NomadNodeID (projection r) = key -> intent_ok (evacuation r) ->
  (forall k' r', t !! k' = Some r' -> row_id r' = row_id r -> k' = key) ->
  (is_evacuating r = true -> forall k' r', t !! k' = Some r' -> is_evacuating r' = true -> k' = key) ->
  (forall m, moving t key = Some m -> EvacuationMachineID (evacuation r) = Some m \/ EvacuationMachineID (evacuation r) = None) ->
  table_inv (<[key := r]> t) /\ moving_edge t (<[key := r]> t).
Proof.
  intros [Hk Hi Ho Hint] Hkey Hok Hid Hev Hmv. split; [split|].
  - intros k x [[<- <-]|[_ Hx]]%lookup_insert_Some; [done|by apply Hk].
  - intros k k' x x' [[<- <-]|[Hne Hx]]%lookup_insert_Some [[<- <-]|[Hne' Hx']]%lookup_insert_Some He; [done| | |by eapply Hi].
    + symmetry. by eapply Hid.
    + by eapply Hid.
  - intros k k' x x' [[<- <-]|[Hne Hx]]%lookup_insert_Some [[<- <-]|[Hne' Hx']]%lookup_insert_Some He He'; [done| | |by eapply Ho].
    + symmetry. by eapply Hev.
    + by eapply Hev.
  - intros k x [[<- <-]|[_ Hx]]%lookup_insert_Some; [done|by eapply Hint].
  - intros k m Hm. unfold moving. destruct (decide (k = key)) as [->|Hne].
    + rewrite lookup_insert_eq. cbn. by apply Hmv.
    + rewrite lookup_insert_ne by done. by left.
Qed.

Lemma table_same t : table_inv t -> table_inv t /\ moving_edge t t.
Proof. intros Hi. split; [done|]. intros key m Hm. by left. Qed.

(** Writing the evacuation of a row that is there. *)
Lemma table_set t key r e :
  table_inv t -> t !! key = Some r -> intent_ok e ->
  (Draining e = true -> Evacuate e = true -> is_evacuating r = true \/ evacuation_busy key t = false) ->
  (EvacuationMachineID e = None \/ EvacuationMachineID (evacuation r) = None \/ EvacuationMachineID e = EvacuationMachineID (evacuation r)) ->
  table_inv (<[key := set_evacuation e r]> t) /\ moving_edge t (<[key := set_evacuation e r]> t).
Proof.
  intros Hinv Hr Hok Hbusy Hmv. apply table_put; [done|exact (ti_key _ Hinv key r Hr)|done| | |].
  - intros k' r' Hr' He. by eapply (ti_id _ Hinv).
  - intros Hev k' r' Hr' He'. unfold is_evacuating in Hev. cbn in Hev. apply andb_true_iff in Hev as [Hd He].
    destruct (Hbusy Hd He) as [Hrev|Hb]; [by eapply (ti_one _ Hinv)|].
    pose proof (existsb_false_map _ _ _ _ Hb Hr') as Hx. cbn in Hx. rewrite He' in Hx. cbn in Hx.
    apply negb_false_iff, String.eqb_eq in Hx. done.
  - intros m Hm. unfold moving in Hm. rewrite Hr in Hm. cbn in Hm |- *.
    destruct Hmv as [->|[E| ->]]; [by right|congruence|by left].
Qed.

Lemma cmd_exec_state {S} o w (f : S -> S) (P : S -> Prop) s : P s -> P (f s) -> P (cmd_exec o w f s).1.
Proof. by destruct o. Qed.

Lemma update_row_keeps o fmt id guard f t :
  table_inv t ->
  (forall key r, t !! key = Some r -> guard (evacuation r) = true ->
     intent_ok (f (evacuation r)) /\ Draining (f (evacuation r)) = Draining (evacuation r) /\
     Evacuate (f (evacuation r)) = Evacuate (evacuation r) /\
     (EvacuationMachineID (f (evacuation r)) = None \/ EvacuationMachineID (evacuation r) = None)) ->
  table_inv (update_row o fmt id guard f t).1 /\ moving_edge t (update_row o fmt id guard f t).1.
Proof.
  intros Hinv Hf. pose proof (table_same t Hinv) as Hsame. unfold update_row.
  destruct (row_of id t) as [[key r]|] eqn:Hrow; [|by destruct o].
  apply row_of_lookup in Hrow as [Hr _]. destruct (guard (evacuation r)) eqn:Hg; [|by destruct o].
  assert (table_inv (<[key := set_evacuation (f (evacuation r)) r]> t) /\
          moving_edge t (<[key := set_evacuation (f (evacuation r)) r]> t)) as Hput.
  { destruct (Hf key r Hr Hg) as (Hok & Hd & He & Hm). apply table_set; try done; [|tauto].
    rewrite Hd, He. intros H1 H2. left. unfold is_evacuating. by rewrite H1, H2. }
  by destruct o.
Qed.

(** C18. Whatever is written to the table of nodes, by anyone and with any failures: ids are
    unique; at most one node of the cluster is being evacuated, and only a draining one;
    a machine is being moved only off a node under evacuation, and one machine gives way
    to another only through a moment when none is being moved. *)
Theorem evacuations_are_exclusive t t' :
  table_inv t -> table_step t t' -> table_inv t' /\ moving_edge t t'.
Proof.
  intros Hinv Hs. pose proof (table_same t Hinv) as Hsame. destruct Hs as [o now p t|o id d e t|o now id m t|o id m t|o now age t].
  - unfold UpsertNode. destruct (id_taken _ _ t) eqn:Ht; [done|].
    apply (cmd_exec_state o _ _ (fun t' => table_inv t' /\ moving_edge t t') t Hsame). apply table_put; [done|done| | | |].
    + cbn. destruct (t !! pr_NomadNodeID p) as [r|] eqn:Hr; [by eapply (ti_intent _ Hinv)|]. by split; [|intros []].
    + intros k r Hr He. pose proof (existsb_false_map _ _ _ _ Ht Hr) as Hx. cbn in Hx, He. rewrite He in Hx.
      change (row_id (mkRow p _ _)) with (pr_ID p) in Hx. rewrite String.eqb_refl in Hx. cbn in Hx. by apply negb_false_iff, String.eqb_eq in Hx.
    + cbn. intros Hev k r Hr He. destruct (t !! pr_NomadNodeID p) as [r0|] eqn:Hr0; [|done]. by eapply (ti_one _ Hinv).
    + cbn. intros m Hm. unfold moving in Hm. destruct (t !! pr_NomadNodeID p); [by left|done].
  - unfold SetNodeDraining. destruct (row_of id t) as [[key r]|] eqn:Hrow; [|by destruct o].
    apply row_of_lookup in Hrow as [Hr _]. destruct (d && (d && e) && evacuation_busy key t) eqn:Hb; [done|].
    apply (cmd_exec_state o _ _ (fun t' => table_inv t' /\ moving_edge t t') t Hsame). apply table_set; [done|done| | |].
    + split; cbn; destruct d, e; try done; by intros [].
    + cbn. intros -> He. cbn in Hb, He. subst e. by right.
    + cbn. destruct (d && e); tauto.
  - apply update_row_keeps; [done|]. intros key r Hr Hg. apply andb_true_iff in Hg as [[Hd He]%andb_true_iff Hm].
    apply bool_decide_eq_true in Hm. cbn. split; [by split|]. split; [done|]. split; [done|]. by right.
  - unfold ClearEvacuationStep, cmd_bind.
    pose proof (update_row_keeps o "clear evacuation step: %w" id (fun e => bool_decide (EvacuationMachineID e = Some m))
      (fun e => mkEvacuation (Draining e) (Evacuate e) None None) t Hinv) as H.
    destruct (update_row _ _ _ _ _ t) as [t1 [b|e]]; apply H; intros key r Hr Hg;
      (split; [split; cbn; [by eapply (ti_intent _ Hinv)|by intros []]|by split_and!; [..|left]]).
  - apply (cmd_exec_state o _ _ (fun t' => table_inv t' /\ moving_edge t t') t Hsame). split; [split|].
    + intros k r (r0 & <- & Hr)%lookup_fmap_Some. destruct (LastSeenAt r0 <? _); exact (ti_key _ Hinv k r0 Hr).
    + intros k k' r r' (r0 & <- & Hr)%lookup_fmap_Some (r1 & <- & Hr')%lookup_fmap_Some He.
      eapply (ti_id _ Hinv); [exact Hr|exact Hr'|]. by destruct (LastSeenAt r0 <? _), (LastSeenAt r1 <? _).
    + intros k k' r r' (r0 & <- & Hr)%lookup_fmap_Some (r1 & <- & Hr')%lookup_fmap_Some He He'.
      eapply (ti_one _ Hinv); [exact Hr|exact Hr'|by destruct (LastSeenAt r0 <? _)|by destruct (LastSeenAt r1 <? _)].
    + intros k r (r0 & <- & Hr)%lookup_fmap_Some. pose proof (ti_intent _ Hinv _ _ Hr). by destruct (LastSeenAt r0 <? _).
    + intros key m Hm. left. unfold moving in *. rewrite lookup_fmap. destruct (t !! key) as [r|]; [|done]. cbn in *.
      by destruct (LastSeenAt r <? _).
Qed.

(** A defect: a report without images is to leave the images of the row alone, as the
    agent cannot tell an empty cache from a failed listing; the statement erases them. *)
Lemma empty_report_erases_images now n t info :
  Info n = Some info -> CachedImageDigests info = [] -> id_taken (agentNodeID n) (NomadNodeID n) t = false ->
  (fun r => ImageCache (projection r)) <$> (upsertPG Done now n t).1 !! NomadNodeID n = Some [].
Proof.
  intros Hi Hc Ht. unfold upsertPG, UpsertNode, projection_of. rewrite Hi. cbn [pr_ID pr_NomadNodeID]. rewrite Ht. cbn.
  by rewrite lookup_insert_eq, <- Hc.
Qed.

(** A defect: nothing deletes rows, so an agent that comes back under a new Nomad node
    id while its old row is there is never written, whatever the outcome. *)
Lemma reregistered_agent_is_not_written o now n t :
  id_taken (agentNodeID n) (NomadNodeID n) t = true ->
  upsertPG o now n t = (t, Err (wrap "upsert node: %w" nodes_pkey)).
Proof.
  intros Ht. unfold upsertPG, UpsertNode.
  replace (pr_ID (projection_of n)) with (agentNodeID n) by (unfold projection_of; by destruct (Info n)).
  replace (pr_NomadNodeID (projection_of n)) with (NomadNodeID n) by (unfold projection_of; by destruct (Info n)).
  by rewrite Ht.
Qed.

Module Witness.
Definition url (s : string) : option string := None.
Definition stub (id address : string) : NomadNodeStub := mkStub id id "compute" "ready" "eligible" false "" address.
Definition alloc (node : string) (version : Z) : NomadAllocStub :=
  mkAlloc ("alloc-" +:+ node) node version "running" (Some [mkPort "" "grpc" 5108; mkPort "0.0.0.0" "proxy" 5107]).
Definition reply : NomadReply :=
  mkReply (Ok [stub "n1" "10.0.0.1"; stub "n2" "2001:db8::1"]) (Ok [alloc "n1" 2; alloc "n1" 3; alloc "n2" 3]) (fun _ => Ok None).
Definition dial (_ _ : string) : bool := true.
Definition info : ServiceInfo := mkInfo "agent-1" STATUS_HEALTHY ∅ (Some (mkCapacity 8 8192 100000)) None [] "v1" [] "k".
Definition m1 : Manager := (Discover url reply dial empty_manager).1.
Definition m2 : Manager := observe 1000 "n1" (Some info) m1.

Example endpoints : GRPCAddr <$> nodes m1 !! "n1" = Some "10.0.0.1:5108" /\ GRPCAddr <$> nodes m1 !! "n2" = Some "[2001:db8::1]:5108" /\
  Status <$> nodes m1 !! "n1" = Some "UNKNOWN" /\ conns m1 !! "n2" = Some "[2001:db8::1]:5108".
Proof. vm_compute. done. Qed.

Lemma healthy_is_reported_witness : Status <$> nodes m2 !! "n1" = Some "HEALTHY" /\ manager_inv m2.
Proof.
  split; [by vm_compute|]. apply (healthy_is_reported url). eapply rtc_l; [apply (step_discover url reply dial)|].
  eapply rtc_l; [apply (step_observe url 1000 "n1" (Some info))|]. apply rtc_refl.
Defined.

Lemma silent_agent_is_revived_witness :
  let silent := observe 2000 "n1" None m2 in
  let next := (Discover url reply dial silent).1 in
  Status <$> nodes silent !! "n1" = Some "UNKNOWN" /\ Status <$> nodes next !! "n1" = Some "HEALTHY" /\
  LastSeen <$> nodes next !! "n1" = Some 1000.
Proof.
  destruct (nodes m2 !! "n1") as [n|] eqn:Hn; [|by vm_compute in Hn].
  assert (Info n = Some info /\ Ready n = true /\ Eligible n = true /\ Drain n = false /\ LastSeen n = 1000) as (Hi & Hr & He & Hd & Hl)
    by (vm_compute in Hn; injection Hn as <-; done).
  cbv zeta. rewrite <- Hl.
  apply (silent_agent_is_revived url reply dial m2 "n1" n info 2000 [stub "n1" "10.0.0.1"; stub "n2" "2001:db8::1"]
           [alloc "n1" 2; alloc "n1" 3; alloc "n2" 3] (stub "n1" "10.0.0.1")); done.
Defined.

Definition p (id nomad : string) : Projection :=
  mkProjection id nomad "compute" "HEALTHY" ∅ 8 8192 0 fzero 0 0 0 "" "" ["sha256:a"] [] "" "".
Definition t2 : Table := (UpsertNode Done 1 (p "a2" "n2") (UpsertNode Done 1 (p "a1" "n1") ∅).1).1.
Definition t3 : Table := (StartEvacuationStep Done 5 "a1" "m-1" (SetNodeDraining Done "a1" true true t2).1).1.

Example busy : (SetNodeDraining Done "a2" true true t3).2 = Err ErrEvacuationBusy /\ moving t3 "n1" = Some "m-1" /\
  (StartEvacuationStep Done 6 "a1" "m-2" t3).2 = Ok false.
Proof. by vm_compute. Qed.

Lemma table_inv_empty : table_inv ∅.
Proof. split; intros k *; by rewrite lookup_empty. Qed.

Lemma evacuations_are_exclusive_witness : table_inv t3 /\ moving_edge (SetNodeDraining Done "a1" true true t2).1 t3.
Proof.
  assert (table_inv t2) as H2.
  { apply (evacuations_are_exclusive (UpsertNode Done 1 (p "a1" "n1") ∅).1); [|constructor].
    apply (evacuations_are_exclusive ∅); [apply table_inv_empty|constructor]. }
  apply evacuations_are_exclusive; [|constructor]. apply (evacuations_are_exclusive t2); [done|constructor].
Defined.

Lemma discovery_forgets_signature_witness : exists n,
  nodes (Discover url reply dial m2).1 !! "n1" = Some n /\ Info n = Some info /\ capability_logged info n = true.
Proof.
  destruct (nodes (Discover url reply dial m2).1 !! "n1") as [n|] eqn:Hn; [|by vm_compute in Hn]. exists n.
  split; [done|]. split; [vm_compute in Hn; by injection Hn as <-|].
  eapply (discovery_forgets_signature url reply dial m2 "n1"); [done|done|by eexists|exact Hn].
Defined.

Lemma empty_report_erases_images_witness :
  let n := mkNode "n1" "" "" true true false "HEALTHY" "" "" (Some info) 0 "" in
  (fun r => ImageCache (projection r)) <$> (UpsertNode Done 1 (p "agent-1" "n1") ∅).1 !! "n1" = Some ["sha256:a"] /\
  (fun r => ImageCache (projection r)) <$> (upsertPG Done 2 n (UpsertNode Done 1 (p "agent-1" "n1") ∅).1).1 !! "n1" = Some [].
Proof. split; [by vm_compute|]. by apply (empty_report_erases_images 2 (mkNode "n1" "" "" true true false "HEALTHY" "" "" (Some info) 0 "") _ info). Defined.

Lemma reregistered_agent_is_not_written_witness :
  let n := mkNode "n9" "" "" true true false "HEALTHY" "" "" (Some info) 0 "" in
  let t := (UpsertNode Done 1 (p "agent-1" "n1") ∅).1 in
  upsertPG Done 2 n t = (t, Err (wrap "upsert node: %w" nodes_pkey)).
Proof. by apply reregistered_agent_is_not_written. Defined.
End Witness.
