(* ===== verification/Capacity.v ===== *)
(** * What is taken

    The statements of controlplane/store that add up what machines, volumes and creates
    in flight take, by node and by project, and the node snapshot controlplane/placement
    makes of them for the scheduler. The tables are those of [Operations], with volumes,
    attachments and quotas. [size_field] reads a number of a request as its cast in the
    statement does. Sums stay within bigint. *)
From S2P Require Import Prelude GoFloat GoString Operations NodeManager.
From S2P Require Scheduler.

#[local] Open Scope string_scope.
#[local] Open Scope Z_scope.

(** ** Usage by node and project *)

(** Allocated, and the figures of PendingUsage. *)
Record Allocated := mkAllocated { VCPU : Z; MemMib : Z; DiskMib : Z }.
#[export] Instance Allocated_eq_dec : EqDecision Allocated.
Proof. solve_decision. Defined.
Record PendingUsage := mkPending { pu_NodeID : string; pu_VCPU : Z; pu_MemMib : Z; pu_DiskMib : Z }.

Definition nothing : Allocated := mkAllocated 0 0 0.
Definition plus (a b : Allocated) : Allocated := mkAllocated (VCPU a + VCPU b) (MemMib a + MemMib b) (DiskMib a + DiskMib b).
Definition total (l : list Allocated) : Allocated := foldr plus nothing l.

(** [GROUP BY] with the three sums. *)
Definition group (rows : list (string * Allocated)) : gmap string Allocated :=
  foldr (fun row m => <[row.1 := plus row.2 (default nothing (m !! row.1))]> m) ∅ rows.

(** The size of a volume in MiB, rounded up; division of bigints truncates. *)
Definition mib (bytes : Z) : Z := Z.quot (bytes + 1048575) 1048576.

Record Volume := mkVolume { v_ID : string; v_ProjectID : string; v_NodeID : string; v_Mode : string; v_State : string; v_SizeBytes : Z }.
Record Attachment := mkAttachment {
  at_VolumeID : string; at_MachineID : string; at_ExecutionID : string; at_Status : string; OverlaySizeBytes : Z }.
Record Quota := mkQuota { q_VCPU : Z; q_MemMib : Z; q_DiskMib : Z; MachineConcurrency : Z }.

Definition ErrVolumeLocality : goerr := errors_New "volume locality mismatch".
Definition no_rows : goerr := errors_New "no rows in result set".

Section capacity.
Context {json : Type} (size_field : json -> string -> option Z).
Abbreviation DB := (Operations.DB (json:=json)).
Abbreviation Operation := (Operations.Operation (json:=json)).
Abbreviation Machine := (Operations.Machine (json:=json)).

Record Tables := mkTables {
  db : DB; volumes : gmap string Volume; attachments : list Attachment; quotas : gmap string Quota }.

Definition all_machines (t : Tables) : list Machine := map snd (map_to_list (machines (db t))).
Definition all_operations (t : Tables) : list Operation := map snd (map_to_list (operations (db t))).
Definition all_volumes (t : Tables) : list Volume := map snd (map_to_list (volumes t)).

Definition disk_of (m : Machine) : Z := if RequestedDiskMIB (shape m) =? 0 then 10240 else RequestedDiskMIB (shape m).
Definition requested (m : Machine) : Allocated := mkAllocated (RequestedVCPU (shape m)) (RequestedMemMIB (shape m)) (disk_of m).
Definition disk (n : Z) : Allocated := mkAllocated 0 0 n.

Definition wanted (m : Machine) : bool := bool_decide (DesiredState m ∈ ["CREATED"; "RUNNING"]).
Definition on_a_node (m : Machine) : bool := negb (String.eqb (NodeID (placed m)) "").
Definition creating (op : Operation) : bool := String.eqb (o_Kind op) "create" && in_flight (o_Status op).

Definition AllocatedByNode (t : Tables) : gmap string Allocated :=
  group
    (omap (fun m => if wanted m && on_a_node m then Some (NodeID (placed m), requested m) else None) (all_machines t) ++
     omap (fun v => if bool_decide (v_State v ∈ ["READY"; "UNAVAILABLE"; "DELETING"])
                    then Some (v_NodeID v, disk (mib (v_SizeBytes v))) else None) (all_volumes t) ++
     omap (fun a => v ← volumes t !! at_VolumeID a;
                    if String.eqb (at_Status a) "ATTACHED" && (0 <? OverlaySizeBytes a)
                    then Some (v_NodeID v, disk (mib (OverlaySizeBytes a))) else None) (attachments t))%list.

(** The machine a create in flight is for, and the node it was dispatched to. *)
Definition machine_of (t : Tables) (op : Operation) : option Machine := machines (db t) !! o_MachineID op.
Definition dispatched_create (t : Tables) (op : Operation) : option (string * Machine) :=
  if creating op && negb (String.eqb (o_DispatchNodeID op) "") then m ← machine_of t op; Some (o_DispatchNodeID op, m) else None.

Definition PendingUsageByNode (t : Tables) : gmap string Allocated :=
  let first op fields := from_option id 0 (head (omap (size_field (o_Request op)) fields)) in
  group
    (omap (fun op => nm ← dispatched_create t op; Some (nm.1, requested nm.2)) (all_operations t) ++
     omap (fun op => if bool_decide (o_Kind op ∈ ["volume_create"; "dataset_import"]) && in_flight (o_Status op) &&
                        negb (String.eqb (o_DispatchNodeID op) "")
                     then Some (o_DispatchNodeID op, disk (mib (first op ["size_bytes"; "max_expanded_bytes"]))) else None)
       (all_operations t) ++
     omap (fun op => if String.eqb (o_Kind op) "volume_attach" && in_flight (o_Status op) &&
                        (0 <? first op ["overlay_size_bytes"]) && negb (String.eqb (o_DispatchNodeID op) "")
                     then Some (o_DispatchNodeID op, disk (mib (first op ["overlay_size_bytes"]))) else None)
       (all_operations t))%list.
Definition PendingUsageRows (t : Tables) : list PendingUsage :=
  map (fun kv : string * Allocated => mkPending kv.1 (VCPU kv.2) (MemMib kv.2) (DiskMib kv.2)) (map_to_list (PendingUsageByNode t)).

(** MachineNodesByDeployment is two statements: the nodes of the machines, and the nodes
    creates in flight were dispatched to; pairs of deployment and node. *)
Definition committed_nodes (t : Tables) : list (string * string) :=
  omap (fun m => if wanted m && on_a_node m then Some (m_DeploymentID (shape m), NodeID (placed m)) else None) (all_machines t).
Definition inflight_nodes (t : Tables) : list (string * string) :=
  omap (fun op => nm ← dispatched_create t op; Some (m_DeploymentID (shape nm.2), nm.1)) (all_operations t).

(** The project of a machine is that of its app. *)
Definition project_of (t : Tables) (m : Machine) : option string := ap_ProjectID <$> apps (db t) !! m_AppID (shape m).
Definition placed_in (project : string) (t : Tables) (m : Machine) : bool :=
  wanted m && on_a_node m && bool_decide (project_of t m = Some project).

(** Of several creates in flight for a machine the statement counts the least id. *)
Definition first_create (t : Tables) (op : Operation) : bool :=
  forallb (fun i => negb (creating i && String.eqb (o_MachineID i) (o_MachineID op)) || negb (String.ltb (o_ID i) (o_ID op)))
    (all_operations t).
Definition awaits_node (project : string) (t : Tables) (op : Operation) : option Machine :=
  if String.eqb (o_ProjectID op) project && creating op
  then m ← machine_of t op; if on_a_node m then None else Some m else None.

Definition ProjectUsage (project : string) (t : Tables) : Allocated :=
  let live := total (map requested (List.filter (placed_in project t) (all_machines t))) in
  let pending := total (omap (fun op => m ← awaits_node project t op; if first_create t op then Some (requested m) else None) (all_operations t)) in
  let vols := total (omap (fun v => if String.eqb (v_ProjectID v) project && negb (String.eqb (v_State v) "DELETED")
                                    then Some (disk (mib (v_SizeBytes v))) else None) (all_volumes t)) in
  let overlays := total (omap (fun a => v ← volumes t !! at_VolumeID a;
                                        if String.eqb (v_ProjectID v) project && negb (String.eqb (at_Status a) "DETACHED")
                                        then Some (disk (mib (OverlaySizeBytes a))) else None) (attachments t)) in
  plus (plus live pending) (plus vols overlays).

Definition ProjectMachineUsage (project : string) (t : Tables) : Z :=
  Z.of_nat (length (List.filter (placed_in project t) (all_machines t))) +
  Z.of_nat (size (list_to_set (omap (fun op => m ← awaits_node project t op;
                                               match machines (db t) !! m_ID (shape m) with
                                               | Some live => if placed_in project t live then None else Some (m_ID (shape m))
                                               | None => Some (m_ID (shape m))
                                               end) (all_operations t)) : gset string)).

Definition ProjectQuota (project : string) (t : Tables) : res Quota :=
  match quotas t !! project with
  | Some q => Ok q
  | None => Err (Errorf "project quota %s: %w" [AStr project; AErr no_rows])
  end.

Definition MachineLocalRWNode (machineID : string) (t : Tables) : res string :=
  let origins := omap (fun a =>
    if String.eqb (at_MachineID a) machineID && negb (String.eqb (at_Status a) "DETACHED")
    then v ← volumes t !! at_VolumeID a;
         if String.eqb (v_Mode v) "LOCAL_RW" && negb (String.eqb (v_State v) "DELETED") then Some (v_NodeID v) else None
    else None) (attachments t) in
  fold_left (fun acc n => res_bind acc (fun node =>
    if negb (String.eqb node "") && negb (String.eqb node n) then Err ErrVolumeLocality else Ok n))
    (remove_dups origins) (Ok "").
End capacity.
Arguments Tables : clear implicits.

(** ** Sums *)

#[export] Instance plus_comm : Comm (=) plus.
Proof. intros [] []. unfold plus. cbn. f_equal; lia. Qed.
#[export] Instance plus_assoc : Assoc (=) plus.
Proof. intros [] [] []. unfold plus. cbn. f_equal; lia. Qed.
Lemma plus_nothing a : plus nothing a = a.
Proof. by destruct a. Qed.

Lemma total_cons a l : total (a :: l) = plus a (total l).
Proof. reflexivity. Qed.

Lemma total_app l l' : total (l ++ l') = plus (total l) (total l').
Proof.
  induction l as [|a l IH]; cbn [app]; [by rewrite plus_nothing|]. by rewrite !total_cons, IH, (assoc_L plus).
Qed.

Lemma total_Permutation l l' : l ≡ₚ l' -> total l = total l'.
Proof.
  induction 1 as [|a l l' _ IH|a b l|l l' l'' _ IH _ IH']; rewrite ?total_cons; [done|by rewrite IH| |congruence].
  by rewrite !(assoc_L plus), (comm_L plus a).
Qed.

Definition le_usage (a b : Allocated) : Prop := VCPU a <= VCPU b /\ MemMib a <= MemMib b /\ DiskMib a <= DiskMib b.

Lemma le_usage_refl a : le_usage a a.
Proof. unfold le_usage. lia. Qed.

Lemma total_member l a : Forall (le_usage nothing) l -> a ∈ l -> le_usage a (total l).
Proof.
  assert (forall l, Forall (le_usage nothing) l -> le_usage nothing (total l)) as Hpos.
  { induction 1 as [|x l' Hx _ IH]; [apply le_usage_refl|]. rewrite total_cons. unfold le_usage in *. cbn in *. lia. }
  induction 1 as [|x l Hx Hl IH]; [by intros ?%elem_of_nil|]. intros [->|Ha]%elem_of_cons; rewrite total_cons.
  - specialize (Hpos _ Hl). unfold le_usage in *. cbn in *. lia.
  - specialize (IH Ha). unfold le_usage in *. cbn in *. lia.
Qed.

(** What a group adds up to. *)
Lemma group_lookup rows k :
  group rows !! k = if bool_decide (k ∈ rows.*1) then Some (total (omap (fun r => if String.eqb r.1 k then Some r.2 else None) rows)) else None.
Proof.
  induction rows as [|[k' a] rows IH]; [done|]. cbn [group foldr]. fold (group rows).
  change (((k', a) :: rows).*1) with (k' :: rows.*1). cbn [omap list_omap fst snd].
  destruct (String.eqb_spec k' k) as [->|Hne].
  - rewrite lookup_insert_eq, IH, (bool_decide_eq_true_2 (k ∈ k :: _)) by (by left). rewrite total_cons.
    case_bool_decide as Hin; [done|]. cbn. f_equal. f_equal. symmetry.
    set (l := omap _ rows).
    assert (l = []) as ->; [|done]. apply elem_of_nil_inv. intros x (r & Hr & Hx)%list_elem_of_omap.
    destruct (String.eqb_spec r.1 k) as [<-|]; [|done]. apply Hin. by apply list_elem_of_fmap_2.
  - rewrite lookup_insert_ne, IH by done. rewrite (bool_decide_ext (k ∈ rows.*1) (k ∈ k' :: rows.*1)); [done|]. rewrite elem_of_cons. naive_solver.
Qed.

(** A row of a group is covered by the sum. *)
Lemma group_covers rows k a :
  Forall (fun r => le_usage nothing r.2) rows -> (k, a) ∈ rows -> exists b, group rows !! k = Some b /\ le_usage a b.
Proof.
  intros Hpos Hin. rewrite group_lookup, bool_decide_eq_true_2 by (apply (list_elem_of_fmap_2 fst) in Hin; exact Hin).
  eexists. split; [done|]. apply total_member.
  - apply Forall_forall. intros x (r & Hr & Hx)%list_elem_of_omap. destruct (String.eqb _ _); [|done]. injection Hx as <-.
    rewrite Forall_forall in Hpos. by apply Hpos.
  - apply list_elem_of_omap. exists (k, a). split; [done|]. cbn. by rewrite String.eqb_refl.
Qed.

Lemma total_omap_filter {A} (f : A -> Allocated) (p q : A -> bool) (l : list A) :
  (forall x, x ∈ l -> p x && q x = false) ->
  plus (total (map f (List.filter p l))) (total (map f (List.filter q l))) = total (map f (List.filter (fun x => p x || q x) l)).
Proof.
  intros Hd. induction l as [|x l IH]; [done|]. cbn [List.filter].
  assert (Hx : p x && q x = false) by (apply Hd; by left). specialize (IH (fun y Hy => Hd y (list_elem_of_further _ _ _ Hy))).
  destruct (p x), (q x); cbn [orb andb map] in *; rewrite ?total_cons, <- ?IH; [done| | |done].
  - by rewrite (assoc_L plus).
  - by rewrite !(assoc_L plus), (comm_L plus _ (f x)).
Qed.

Section usage.
Context {json : Type} (size_field : json -> string -> option Z).
Abbreviation DB := (Operations.DB (json:=json)).
Abbreviation Operation := (Operations.Operation (json:=json)).
Abbreviation Machine := (Operations.Machine (json:=json)).
Abbreviation Tables := (Tables json).

(** The creates in flight of a machine are of one project. *)
Definition owned (t : Tables) : Prop :=
  forall op op', op ∈ all_operations t -> op' ∈ all_operations t -> creating op = true -> creating op' = true ->
    o_MachineID op = o_MachineID op' -> o_ProjectID op = o_ProjectID op'.

(** The machines a project pays for: wanted ones on a node, and the ones without a node
    that a create in flight is for. *)
Definition awaited (project : string) (t : Tables) (m : Machine) : bool :=
  negb (on_a_node m) &&
  existsb (fun op => String.eqb (o_ProjectID op) project && creating op && String.eqb (o_MachineID op) (m_ID (shape m)))
    (all_operations t).
Definition charged (project : string) (t : Tables) (m : Machine) : bool := placed_in project t m || awaited project t m.

Lemma elem_of_operations t (op : Operation) : op ∈ all_operations t <-> exists id, operations (db t) !! id = Some op.
Proof.
  unfold all_operations. rewrite list_elem_of_fmap. split.
  - intros ([id o] & -> & H). apply elem_of_map_to_list in H. eauto.
  - intros [id H]. exists (id, op). split; [done|]. by apply elem_of_map_to_list.
Qed.

Lemma elem_of_machines t (m : Machine) : m ∈ all_machines t <-> exists id, machines (db t) !! id = Some m.
Proof.
  unfold all_machines. rewrite list_elem_of_fmap. split.
  - intros ([id o] & -> & H). apply elem_of_map_to_list in H. eauto.
  - intros [id H]. exists (id, m). split; [done|]. by apply elem_of_map_to_list.
Qed.

Lemma keyed_NoDup {A} (key : A -> string) (m : gmap string A) :
  (forall id x, m !! id = Some x -> key x = id) -> NoDup (map key (map snd (map_to_list m))).
Proof.
  intros Hk. rewrite map_map. replace (map (fun x : string * A => key x.2) (map_to_list m)) with (map fst (map_to_list m));
    [apply NoDup_fst_map_to_list|]. apply map_ext_in. intros [id x] Hin%list_elem_of_In%elem_of_map_to_list. symmetry. by apply Hk.
Qed.

Lemma machines_NoDup (t : Tables) : keyed (db t) -> NoDup (map (fun m : Machine => m_ID (shape m)) (all_machines t)).
Proof. intros Hk. apply (keyed_NoDup (fun m : Machine => m_ID (shape m))), Hk. Qed.
Lemma operations_NoDup (t : Tables) : keyed (db t) -> NoDup (map o_ID (all_operations t)).
Proof. intros Hk. apply (keyed_NoDup (o_ID (json:=json))), Hk. Qed.

(** The least id. *)
Lemma least_create (P : Operation -> bool) (l : list Operation) op :
  op ∈ l -> P op = true -> exists i, i ∈ l /\ P i = true /\ forall j, j ∈ l -> P j = true -> String.ltb (o_ID j) (o_ID i) = false.
Proof.
  revert op. induction l as [|x l IH]; intros op Hin Hp; [by apply elem_of_nil in Hin|].
  destruct (existsb P l) eqn:Hex.
  - apply existsb_exists in Hex as (y & Hy%list_elem_of_In & Hpy). destruct (IH y Hy Hpy) as (i & Hi & Hpi & Hmin). destruct (P x && String.ltb (o_ID x) (o_ID i)) eqn:Hx.
    + apply andb_true_iff in Hx as [Hpx Hlt]. exists x. split; [by left|]. split; [done|].
      intros j [->|Hj]%elem_of_cons Hpj; [apply ltb_irrefl|]. specialize (Hmin j Hj Hpj).
      destruct (String.ltb (o_ID j) (o_ID x)) eqn:E; [|done]. by rewrite (ltb_trans _ _ _ E Hlt) in Hmin.
    + exists i. split; [by right|]. split; [done|]. intros j [->|Hj]%elem_of_cons Hpj; [|by apply Hmin]. by rewrite Hpj in Hx.
  - assert (Hno : forall y, y ∈ l -> P y = true -> False).
    { intros y Hy Hpy. rewrite (proj2 (existsb_exists P l)) in Hex; [done|]. exists y. by rewrite <- list_elem_of_In. }
    apply elem_of_cons in Hin as [<-|Hin]; [|exfalso; eauto]. exists op. split; [by left|]. split; [done|].
    intros j [->|Hj]%elem_of_cons Hpj; [apply ltb_irrefl|]. exfalso. eauto.
Qed.

(** The creates the statement counts, as the machines they are for. *)
Definition counted (project : string) (t : Tables) (op : Operation) : option Machine :=
  m ← awaits_node project t op; if first_create t op then Some m else None.

Lemma awaits_node_spec project (t : Tables) op m :
  keyed (db t) -> awaits_node project t op = Some m <->
  o_ProjectID op = project /\ creating op = true /\ machines (db t) !! o_MachineID op = Some m /\
  m_ID (shape m) = o_MachineID op /\ on_a_node m = false.
Proof.
  intros Hk. unfold awaits_node, machine_of.
  destruct (String.eqb_spec (o_ProjectID op) project) as [E|E]; cbn; [|split; [done|]; by intros (? & _)].
  destruct (creating op); [|split; [done|]; by intros (_ & ? & _)].
  destruct (machines (db t) !! o_MachineID op) as [m'|] eqn:Hm; cbn; [|split; [done|]; by intros (_ & _ & ? & _)].
  pose proof (k_machines _ Hk _ _ Hm). destruct (on_a_node m') eqn:Hn.
  - split; [done|]. intros (_ & _ & [= <-] & _ & ?). congruence.
  - split; [by intros [= <-]|]. by intros (_ & _ & ? & _).
Qed.

Lemma awaited_spec project (t : Tables) m :
  keyed (db t) -> m ∈ all_machines t ->
  awaited project t m = true <-> exists op, op ∈ all_operations t /\ awaits_node project t op = Some m.
Proof.
  intros Hk (id & Hm)%elem_of_machines. pose proof (k_machines _ Hk _ _ Hm) as Hid. unfold awaited.
  rewrite andb_true_iff, negb_true_iff, existsb_exists. split.
  - intros (Hn & op & Hop & [[Hp Hc]%andb_true_iff Ho]%andb_true_iff). apply String.eqb_eq in Hp, Ho. exists op.
    split; [by apply list_elem_of_In|]. apply awaits_node_spec; [done|]. rewrite Ho, Hid. done.
  - intros (op & Hop & (Hp & Hc & Hm' & Ho & Hn)%awaits_node_spec); [|done]. split; [done|]. exists op.
    split; [by apply list_elem_of_In|]. by rewrite Hp, Hc, Ho, !String.eqb_refl.
Qed.

Lemma first_create_spec (t : Tables) op :
  first_create t op = true <->
  forall i, i ∈ all_operations t -> creating i = true -> o_MachineID i = o_MachineID op -> String.ltb (o_ID i) (o_ID op) = false.
Proof.
  unfold first_create. rewrite forallb_forall. setoid_rewrite <- list_elem_of_In. split.
  - intros H i Hi Hc Ho. specialize (H i Hi). rewrite Hc, Ho, String.eqb_refl in H. cbn in H. by apply negb_true_iff in H.
  - intros H i Hi. destruct (creating i) eqn:Hc; [|done]. destruct (String.eqb_spec (o_MachineID i) (o_MachineID op)) as [E|E]; [|done].
    cbn. by rewrite H.
Qed.

(** They are the awaited machines, each once. *)
Lemma counted_awaited project (t : Tables) :
  keyed (db t) -> owned t ->
  omap (counted project t) (all_operations t) ≡ₚ List.filter (awaited project t) (all_machines t).
Proof.
  intros Hk Ho. apply NoDup_Permutation.
  - pose proof (operations_NoDup t Hk) as Hnd.
    assert (forall l : list Operation, (forall op, op ∈ l -> op ∈ all_operations t) -> NoDup (map o_ID l) ->
      NoDup (omap (counted project t) l)) as H; [|by apply H].
    induction l as [|op l IH]; cbn [omap list_omap map]; intros Hl Hn; [constructor|]. apply NoDup_cons in Hn as [Hop Hn].
    specialize (IH (fun o Hin => Hl o (list_elem_of_further _ _ _ Hin)) Hn).
    destruct (counted project t op) as [m|] eqn:Hc; [|done]. apply NoDup_cons. split; [|done].
    intros (op' & Hin & Hc')%list_elem_of_omap. unfold counted in Hc, Hc'.
    destruct (awaits_node project t op) as [m1|] eqn:E1; [|done]. destruct (awaits_node project t op') as [m2|] eqn:E2; [|done].
    cbn in Hc, Hc'. destruct (first_create t op) eqn:F1; [|done]. destruct (first_create t op') eqn:F2; [|done].
    injection Hc as <-. injection Hc' as <-. apply awaits_node_spec in E1 as (_ & C1 & _ & I1 & _); [|done].
    apply awaits_node_spec in E2 as (_ & C2 & _ & I2 & _); [|done]. rewrite first_create_spec in F1, F2.
    apply Hop. apply list_elem_of_fmap. exists op'. split; [|done]. apply ltb_total.
    + apply F2; [apply Hl; by left|done|congruence].
    + apply F1; [apply Hl; by right|done|congruence].
  - apply NoDup_ListNoDup, List.NoDup_filter, NoDup_ListNoDup. apply (NoDup_fmap_1 (fun m : Machine => m_ID (shape m))). by apply machines_NoDup.
  - intros m. rewrite list_elem_of_omap, list_elem_of_In, filter_In, <- list_elem_of_In. split.
    + intros (op & Hop & Hc). unfold counted in Hc. destruct (awaits_node project t op) as [m'|] eqn:E; [|done]. cbn in Hc.
      destruct (first_create t op); [|done]. injection Hc as ->. pose proof E as (_ & _ & Hm & _ & _)%awaits_node_spec; [|done].
      assert (m ∈ all_machines t) as Hin by (apply elem_of_machines; eauto). split; [done|]. apply awaited_spec; eauto.
    + intros [Hin (op & Hop & E)%awaited_spec]; [|done..].
      destruct (least_create (fun i => creating i && String.eqb (o_MachineID i) (o_MachineID op)) (all_operations t) op Hop)
        as (i & Hi & [Hci Hmi]%andb_true_iff & Hmin).
      { apply awaits_node_spec in E as (_ & -> & _); [|done]. by rewrite String.eqb_refl. }
      apply String.eqb_eq in Hmi. exists i. split; [done|]. unfold counted. apply awaits_node_spec in E as (Hp & Hc & Hm & Hid & Hn); [|done].
      assert (awaits_node project t i = Some m) as ->.
      { apply awaits_node_spec; [done|]. rewrite Hmi. split_and!; try done. rewrite <- Hp. by apply Ho. }
      cbn. replace (first_create t i) with true; [done|]. symmetry. apply first_create_spec. intros j Hj Hcj Hmj. apply Hmin; [done|].
      rewrite Hcj, Hmj, Hmi, String.eqb_refl. done.
Qed.

Lemma placed_not_awaited project (t : Tables) m : placed_in project t m && awaited project t m = false.
Proof. unfold placed_in, awaited. destruct (on_a_node m); [by rewrite andb_false_r|]. by rewrite andb_false_r. Qed.

(** What the volumes of a project take. *)
Definition volume_usage (project : string) (t : Tables) : Allocated :=
  plus (total (omap (fun v => if String.eqb (v_ProjectID v) project && negb (String.eqb (v_State v) "DELETED")
                              then Some (disk (mib (v_SizeBytes v))) else None) (all_volumes t)))
       (total (omap (fun a => v ← volumes t !! at_VolumeID a;
                              if String.eqb (v_ProjectID v) project && negb (String.eqb (at_Status a) "DETACHED")
                              then Some (disk (mib (OverlaySizeBytes a))) else None) (attachments t))).

(** C33. The usage of a project is exact: it is what its volumes take and what is requested by
    its machines, each counted once - those wanted and on a node, and those without a
    node that a create in flight is for, however many creates there are; and the number
    of machines held against its concurrency is the number of these machines. So a create
    in flight has already been counted when its placement checks the quota. *)
Theorem project_usage_exact project (t : Tables) :
  keyed (db t) -> owned t ->
  ProjectUsage project t =
    plus (total (map requested (List.filter (charged project t) (all_machines t)))) (volume_usage project t) /\
  ProjectMachineUsage project t = Z.of_nat (length (List.filter (charged project t) (all_machines t))) /\
  (forall op m, op ∈ all_operations t -> creating op = true -> machines (db t) !! o_MachineID op = Some m ->
     on_a_node m = false -> charged (o_ProjectID op) t m = true).
Proof.
  intros Hk Ho. pose proof (counted_awaited project t Hk Ho) as Hc.
  assert (Hsum : forall l : list Operation, total (omap (fun op => m ← awaits_node project t op; if first_create t op then Some (requested m) else None) l) =
    total (map requested (omap (counted project t) l))).
  { induction l as [|op l IH]; [done|]. cbn [omap list_omap]. unfold counted at 1.
    destruct (awaits_node project t op) as [m|]; cbn; [|done]. destruct (first_create t op); [|done].
    cbn [map]. by rewrite !total_cons, IH. }
  split_and!.
  - unfold ProjectUsage, volume_usage. f_equal.
    rewrite Hsum, (total_Permutation (map requested (omap _ _)) (map requested (List.filter (awaited project t) (all_machines t)))).
    + apply total_omap_filter. intros m _. apply placed_not_awaited.
    + by apply Permutation_map.
  - unfold ProjectMachineUsage. rewrite <- Nat2Z.inj_add. f_equal.
    transitivity (length (List.filter (placed_in project t) (all_machines t)) + length (List.filter (awaited project t) (all_machines t)))%nat.
    + f_equal. set (ids := omap _ (all_operations t)).
      assert (list_to_set ids = list_to_set (map (fun m : Machine => m_ID (shape m)) (List.filter (awaited project t) (all_machines t))) :> gset string) as ->.
      { apply set_eq. intros x. rewrite !elem_of_list_to_set, list_elem_of_fmap. unfold ids. rewrite list_elem_of_omap. split.
        - intros (op & Hop & Hx). destruct (awaits_node project t op) as [m|] eqn:E; [|done]. cbn in Hx. exists m.
          pose proof E as (_ & _ & Hm & Hid & Hn)%awaits_node_spec; [|done]. rewrite Hid, Hm in Hx.
          assert (m ∈ all_machines t) as Hin by (apply elem_of_machines; eauto).
          split; [destruct (placed_in project t m); [done|]; congruence|].
          apply list_elem_of_In, filter_In. split; [by apply list_elem_of_In|]. apply awaited_spec; eauto.
        - intros (m & -> & [Hin (op & Hop & E)%awaited_spec]%list_elem_of_In%filter_In); [|done|by apply list_elem_of_In]. exists op. split; [done|].
          rewrite E. cbn. pose proof E as (_ & _ & Hm & Hid & Hn)%awaits_node_spec; [|done]. rewrite Hid, Hm.
          unfold placed_in. by rewrite Hn, andb_false_r. }
      rewrite size_list_to_set; [by rewrite length_map|]. 
      apply (sublist_NoDup _ (map (fun m : Machine => m_ID (shape m)) (all_machines t))); [by apply machines_NoDup|].
      generalize (all_machines t). induction l as [|m l IH]; [constructor|]. cbn. destruct (awaited project t m); cbn; by constructor.
    + unfold charged. generalize (all_machines t). induction l as [|m l IH]; [done|]. cbn. pose proof (placed_not_awaited project t m) as Hd.
      destruct (placed_in project t m), (awaited project t m); cbn in *; try done; lia.
  - intros op m Hop Hcr Hm Hn. unfold charged. apply orb_true_iff. right.
    assert (m ∈ all_machines t) as Hin by (apply elem_of_machines; eauto). apply awaited_spec; [done..|].
    exists op. split; [done|]. apply awaits_node_spec; [done|]. by rewrite (k_machines _ Hk _ _ Hm).
Qed.

(** What a create in flight that was dispatched takes is pending on its node. *)
Lemma own_demand_is_pending (t : Tables) op m :
  op ∈ all_operations t -> creating op = true -> o_DispatchNodeID op <> "" -> machines (db t) !! o_MachineID op = Some m ->
  Forall (fun m => le_usage nothing (requested m)) (all_machines t) ->
  Forall (fun op => forall f n, size_field (o_Request op) f = Some n -> 0 <= n) (all_operations t) ->
  exists p, PendingUsageByNode size_field t !! o_DispatchNodeID op = Some p /\ le_usage (requested m) p.
Proof.
  intros Hop Hc Hd Hm Hpos Hsz. rewrite Forall_forall in Hpos. pose proof (proj1 (Forall_forall _ _) Hsz) as Hsz'. cbn in Hsz'. clear Hsz. rename Hsz' into Hsz. apply group_covers.
  - apply Forall_forall. intros r Hr. rewrite !elem_of_app, !list_elem_of_omap in Hr. destruct Hr as [(o & Ho & Hx)|[(o & Ho & Hx)|(o & Ho & Hx)]].
    + unfold dispatched_create in Hx. destruct (_ && _); [|done]. unfold machine_of in Hx. destruct (machines (db t) !! o_MachineID o) as [m'|] eqn:Hm'; cbn in Hx; [|done].
      cbn in Hx; injection Hx as <-. apply Hpos. apply elem_of_machines. eauto.
    + destruct (_ && _); [|done]. injection Hx as <-. unfold le_usage, disk, mib. cbn. split_and!; try lia.
      specialize (Hsz _ Ho). cbn. destruct (size_field (o_Request o) "size_bytes") as [n|] eqn:E1; cbn.
      * specialize (Hsz _ _ E1). apply Z.quot_pos; lia.
      * destruct (size_field (o_Request o) "max_expanded_bytes") as [n|] eqn:E2; cbn; [|apply Z.quot_pos; lia].
        specialize (Hsz _ _ E2). apply Z.quot_pos; lia.
    + destruct (_ && _) eqn:E; [|done]. injection Hx as <-. unfold le_usage, disk, mib. cbn in *. split_and!; try lia.
      repeat rewrite andb_true_iff in E. destruct E as [[_ E%Z.ltb_lt] _]. apply Z.quot_pos; lia.
  - rewrite !elem_of_app, !list_elem_of_omap. left. exists op. split; [done|]. unfold dispatched_create, machine_of. apply String.eqb_neq in Hd.
    rewrite Hc, Hd, Hm. done.
Qed.
End usage.

Module Witness.
Import Operations.Witness.

(** A create is in flight, then its machine is on a node. *)
Definition waiting : Tables nat := mkTables db1 {["v1" := mkVolume "v1" "proj" "n1" "LOCAL_RW" "READY" 1048577]} [] ∅.
Definition running : Tables nat := mkTables db4 ∅ [] ∅.

Lemma one_create_owned (t : Tables nat) op : all_operations t = [op] -> owned t.
Proof. intros E o o' Ho Ho' _ _ _. rewrite E in Ho, Ho'. apply list_elem_of_singleton in Ho, Ho'. by subst. Qed.

Lemma project_usage_exact_witness :
  ProjectUsage "proj" waiting = mkAllocated 1 512 (10240 + 2) /\
  ProjectUsage "proj" waiting = plus (total (map requested (List.filter (charged "proj" waiting) (all_machines waiting)))) (volume_usage "proj" waiting) /\
  ProjectMachineUsage "proj" running = Z.of_nat (length (List.filter (charged "proj" running) (all_machines running))) /\
  ProjectMachineUsage "proj" running = 1.
Proof.
  split; [by vm_compute|]. split; [|split; [|by vm_compute]].
  - apply project_usage_exact; [exact op_keyed1|]. eapply one_create_owned. by vm_compute.
  - apply project_usage_exact; [exact op_keyed4|]. eapply one_create_owned. by vm_compute.
Defined.
End Witness.
