(* ===== verification/Placement.v ===== *)
(** * Placing a machine

    controlplane/placement: the scheduler's view of the nodes, the pin of an operation to
    the node it was first sent to, the authoritative quotas, the reservation and the
    record of the node, as a program of [Programs] over the tables of [Capacity] and the
    reservations of [Reservations]; and the lock of a deployment that placements with
    anti-affinity hold. [runs] are the traces of a placement whatever it is answered,
    [pool_step] runs any number of them. Metrics are left out. *)
From Stdlib Require Import Ascii.
From S2P Require Import Prelude Programs GoFloat GoString GoNet AgentContract AppCommand Operations NodeManager Capacity.
From S2P Require Reservations Scheduler.

#[local] Open Scope string_scope.
#[local] Open Scope Z_scope.
#[local] Open Scope prog_scope.

(** ** The scheduler's view of the nodes *)

Definition SecretOneShotV1 := "secret.oneshot.v1".
Definition EgressDomainV1 := "egress.domain.v1".
Definition EgressCidrV1 := "egress.cidr.v1".
Definition VolumeLocalRWV1 := "volume.local_rw.v1".

(** capabilities.Valid and SetOf; [None] is a nil set. *)
Definition feature_char (c : Ascii.ascii) : bool :=
  in_range "a" "z" c || is_digit c || bool_decide (c ∈ ["."; "_"; "-"]%char).
Definition Valid (id : string) : bool :=
  negb (String.eqb id "") && Nat.leb (String.length id) 64 && sforall feature_char id.
Definition SetOf (ids : list string) : option (gmap string bool) :=
  match ids with
  | [] => None
  | _ => Some (foldr (fun id m => if Valid id then <[id := true]> m else m) ∅ ids)
  end.

Record liveNode := mkLive { NodeID : string; NomadID : string; Proxy : string; lv_Status : string; lv_Node : Node }.
Record Choice := mkChoice { ch_NodeID : string; ch_NomadID : string; ch_Proxy : string }.

Definition live_of (n : Node) : liveNode := mkLive (agentNodeID n) (NomadNodeID n) (ProxyAddr n) (Status n) n.
Definition liveNodes (discovered : list Node) : list liveNode := map live_of discovered.

(** [strconv.ParseUint(s, 10, 64)]. *)
Definition ParseUint (s : string) : option Z :=
  if String.eqb s "" then None
  else v ← digits_val 0 s; if v <=? u64_max then Some v else None.

Definition label (labels : gmap string string) (k : string) : string := trim_space (default "" (labels !! k)).
Definition topologyOf (labels : gmap string string) : string * string * Z :=
  (label labels "rack", label labels "zone", default 0 (ParseUint (label labels "bandwidth_mbps"))).

Definition occupiedTopo (nodes : list Scheduler.Node) (members : gmap string bool) : gmap string bool * gmap string bool :=
  let taken (f : Scheduler.Node -> string) :=
    foldr (fun n m => if Scheduler.get_bool members (Scheduler.ID n) && negb (String.eqb (f n) "") then <[f n := true]> m else m) ∅ nodes in
  (taken Scheduler.Rack, taken Scheduler.Zone).

Definition pendingMap (rows : list PendingUsage) : gmap string PendingUsage :=
  fold_left (fun m r => <[pu_NodeID r := r]> m) rows ∅.

(** What the stored rows say: the draining ids, and the images and features by id. *)
Definition draining_ids (stored : list Row) : gset string :=
  fold_left (fun s r => if Draining (evacuation r) then {[pr_NomadNodeID (projection r)]} ∪ ({[row_id r]} ∪ s) else s) stored ∅.
Definition stored_images (stored : list Row) : gmap string (gmap string bool) :=
  fold_left (fun m r => match ImageCache (projection r) with
                        | [] => m
                        | l => <[row_id r := list_to_map (map (fun d => (d, true)) l)]> m
                        end) stored ∅.
Definition stored_features (stored : list Row) : gmap string (gmap string bool) :=
  fold_left (fun m r => match SetOf (pr_FeatureIDs (projection r)) with
                        | None => m
                        | Some set => <[row_id r := set]> m
                        end) stored ∅.

Definition scheduler_node (allocated : gmap string Allocated) (pending : gmap string PendingUsage) (stored : list Row)
    (view : liveNode) : Scheduler.Node :=
  let id := NodeID view in
  let info := Info (lv_Node view) in
  let labels := from_option si_Labels ∅ info in
  let features := match stored_features stored !! id with Some f => Some f | None => info ≫= fun i => SetOf (FeatureIds i) end in
  let '(rack, zone, bandwidth) := match info with Some i => topologyOf (si_Labels i) | None => ("", "", 0) end in
  let pool := NodePool (lv_Node view) in
  let cap (f : NodeCapacity -> Z) := from_option f 0 (info ≫= si_Capacity) in
  let usage := info ≫= si_Usage in
  let a := allocated !! id in
  (* the agent's figure where it has one *)
  let taken (f : NodeUsage -> Z) (g : Allocated -> Z) :=
    let reported := from_option f 0 usage in if reported =? 0 then from_option (fun x => u64 (g x)) 0 a else reported in
  let p (f : PendingUsage -> Z) := from_option (fun x => u64 (f x)) 0 (pending !! id) in
  Scheduler.mkNode id (if String.eqb pool "" then default "" (labels !! "node_pool") else pool) labels (lv_Status view)
    (bool_decide (id ∈ draining_ids stored) || bool_decide (NomadID view ∈ draining_ids stored))
    (cap VcpuTotal) (cap MemTotalMib) (from_option (fun x => u64 (VCPU x)) 0 a) (taken MemAllocatedMib Capacity.MemMib)
    (p pu_VCPU) (p pu_MemMib) (from_option CpuPercent fzero usage) (from_option MemUsedMib 0 usage)
    (cap DiskTotalMib) (taken DiskAllocatedMib DiskMib) (p pu_DiskMib)
    (default ∅ (stored_images stored !! id)) (default ∅ features) bandwidth rack zone.

Definition assembleSchedulerNodes (live : list liveNode) (allocated : gmap string Allocated) (pending : gmap string PendingUsage)
    (stored : list Row) : list Scheduler.Node := map (scheduler_node allocated pending stored) live.

(** ** Decisions *)

(** The pin, and why there is none. *)
Definition dispatchPin (dispatchNodeID : string) (live : list liveNode) (excluded : gset string) : string * string :=
  if String.eqb dispatchNodeID "" then ("", "")
  else if bool_decide (dispatchNodeID ∈ excluded) then ("", "excluded")
  else match List.find (fun l => String.eqb (NodeID l) dispatchNodeID) live with
       | Some l => if negb (String.eqb (lv_Status l) Scheduler.StatusHealthy) then ("", "status=" +:+ lv_Status l)
                   else (dispatchNodeID, "")
       | None => ("", "not_discovered")
       end.

Definition pinnedRejectionReason (events : list Scheduler.Event) (nodeID : string) : string :=
  match List.find (fun e => String.eqb (Scheduler.EKind e) "filter_rejection" && String.eqb (Scheduler.ENodeID e) nodeID) events with
  | Some e => Scheduler.EReason e
  | None => ""
  end.

Definition MachineQuotaExceeded (usage limit : Z) : bool := (0 <? limit) && (limit <? usage).

(** What follows the last @, when something does. *)
Definition ImageDigest (imageRef : string) : string :=
  match last_index_byte imageRef "@" with
  | Some i => sdrop (S i) imageRef
  | None => ""
  end.

(** The fields of the spec a placement reads. *)
Record PlaceSpec := mkPlaceSpec {
  ps_DeploymentId : string; ps_Vcpu : Z; ps_MemMib : Z; ps_DiskMib : Z; ps_ImageRef : string;
  ps_Placement : option PlacementConstraints }.
Definition DEPLOYMENT : Z := 2.
Definition anti_affinity (spec : PlaceSpec) : bool :=
  match ps_Placement spec with Some p => AntiAffinity p =? DEPLOYMENT | None => false end.

Definition vcpu_of (spec : PlaceSpec) : Z := if ps_Vcpu spec =? 0 then 1 else ps_Vcpu spec.
Definition mem_of (spec : PlaceSpec) : Z := if ps_MemMib spec =? 0 then 512 else ps_MemMib spec.

Definition panic : goerr := errors_New "runtime error: index out of range".
Definition unknown_node (id : string) : goerr := Errorf "scheduler returned unknown node %s" [AStr id].
Definition no_capacity_info (id : string) : goerr := Errorf "node %s has no capacity info yet" [AStr id].

Section placement.
Context {json : Type} (codec : Codec json) (unicode_lower : string -> string) (text : goerr -> string)
        (format_f6 : float64 -> string).
Abbreviation DB := (Operations.DB (json:=json)).
Abbreviation Operation := (Operations.Operation (json:=json)).
Abbreviation Dep := (AppCommand.Dep (json:=json)).

Definition RequiredFeatures (dep : Dep) : list string :=
  ((match dp_RequiredFeatures dep with
    | [] => if Nat.ltb 0 (size (refs_of (dp_SecretRefs dep))) then [SecretOneShotV1] else []
    | l => l
    end) ++
   match AppCommand.present codec (dp_EgressPolicy dep) with
   | None => []
   | Some raw =>
       match dec_egress codec raw with
       | Ok policy =>
           if is_ok (ValidateEgressPolicy unicode_lower (Some policy))
           then EgressCidrV1 :: (match AllowedDomains policy with [] => [] | _ => [EgressDomainV1] end)
           else ["egress.invalid-policy"]
       | Err _ => ["egress.invalid-policy"]
       end
   end)%list.

(** ** The program *)

Inductive eff : Type -> Type :=
  | LockRef (deploymentID : string) : eff nat
  | MuLock (l : nat) : eff unit
  | MuUnlock (l : nat) : eff unit
  | LockUnref (deploymentID : string) (l : nat) : eff unit
  | Nodes : eff (list Node)
  | AllocatedByNode : eff (res (gmap string Allocated))
  | PendingUsageByNode : eff (res (list PendingUsage))
  | ListNodes : eff (res (list Row))
  | CommittedNodes : eff (res (list (string * string)))
  | InflightNodes : eff (res (list (string * string)))
  | GetDeployment (id : string) : eff (res (option Dep))
  | MachineLocalRWNode (machineID : string) : eff (res string)
  | Perm : eff (nat -> list nat)
  | ProjectQuota (project : string) : eff (res Quota)
  | ProjectUsage (project : string) : eff (res Allocated)
  | GetProjectQuotaDetail (project : string) : eff (res Quota)
  | ProjectMachineUsage (project : string) : eff (res Z)
  | RecordEvent (opID kind nodeID reason : string) : eff unit
  | AcquireR (opID : string) (r : Reservations.Record_) (l : Reservations.Limits) : eff (res unit)
  | UpdateOperationDispatchNode (opID nodeID : string) : eff (res unit)
  | Release (opID : string) : eff (res unit).

Local Abbreviation prog := (Programs.prog eff).

(** What a placement looks at: the live nodes, the scheduler's view of them, and the
    pairs of deployment and node of MachineNodesByDeployment. *)
Record Snapshot := mkSnapshot { sn_live : list liveNode; sn_nodes : list Scheduler.Node; sn_occupied : list (string * string) }.

Definition snapshot : prog (res Snapshot) :=
  discovered <-! Nodes ;
  allocated <-? AllocatedByNode ;
  pending <-? PendingUsageByNode ;
  stored <-? ListNodes ;
  committed <-? CommittedNodes ;
  inflight <-? InflightNodes ;
  let live := liveNodes discovered in
  Ret (Ok (mkSnapshot live (assembleSchedulerNodes live allocated (pendingMap pending) stored) (committed ++ inflight)%list)).

(** SchedulerNodes. *)
Definition SchedulerNodes : prog (res (list Scheduler.Node)) :=
  discovered <-! Nodes ;
  allocated <-? AllocatedByNode ;
  pending <-? PendingUsageByNode ;
  stored <-? ListNodes ;
  Ret (Ok (assembleSchedulerNodes (liveNodes discovered) allocated (pendingMap pending) stored)).

(** The nodes of a deployment. *)
Definition members (deploymentID : string) (pairs : list (string * string)) : gmap string bool :=
  foldr (fun p m => if String.eqb p.1 deploymentID then <[p.2 := true]> m else m) ∅ pairs.

(** The features required of the node, and the node of the machine's local volumes. *)
Definition requirements (op : Operation) (spec : PlaceSpec) : prog (res (list string * string)) :=
  required <~? (if String.eqb (ps_DeploymentId spec) "" then Ret (Ok [])
                else dep <-! GetDeployment (ps_DeploymentId spec) ;
                     match dep with
                     | Err e => Ret (Err (wrap "deployment required features: %w" e))
                     | Ok dep => Ret (Ok (from_option RequiredFeatures [] dep))
                     end) ;
  local <-! MachineLocalRWNode (o_MachineID op) ;
  match local with
  | Err e => Ret (Err (wrap "volume locality: %w" e))
  | Ok node => Ret (Ok ((if String.eqb node "" then required else required ++ [VolumeLocalRWV1])%list, node))
  end.

Definition scheduler_request (spec : PlaceSpec) (excluded : gset string) (sn : Snapshot) (required : list string)
    (localNode pin : string) : Scheduler.Request :=
  let mem := members (ps_DeploymentId spec) (sn_occupied sn) in
  let topo := if anti_affinity spec && negb (String.eqb (ps_DeploymentId spec) "") then occupiedTopo (sn_nodes sn) mem else (∅, ∅) in
  Scheduler.mkRequest (vcpu_of spec) (mem_of spec) (EffectiveDiskMib (ps_DiskMib spec)) (ps_DeploymentId spec)
    (from_option AppCommand.NodePool "" (ps_Placement spec)) (from_option AppCommand.Labels ∅ (ps_Placement spec)) (anti_affinity spec)
    mem (gset_to_gmap true excluded) (ImageDigest (ps_ImageRef spec)) 0 topo.1 topo.2 required localNode pin.

Definition event_kind (ev : Scheduler.Event) : string :=
  if String.eqb (Scheduler.EKind ev) "filter_rejection" then "filter_rejection" else "placement".

Definition recordSchedulerEvents (opID : string) (events : list Scheduler.Event) {A} (k : prog A) : prog A :=
  foldr (fun ev k => RecordEvent opID (event_kind ev) (Scheduler.ENodeID ev) (Scheduler.EReason ev) ;! k) k events.

(** The last attempt: its events are recorded whatever it gives. *)
Definition decide_last (opID : string) (placer : Scheduler.Placer) (req : Scheduler.Request) (nodes : list Scheduler.Node) :
    prog (res Scheduler.Placement) :=
  perm <-! Perm ;
  match Scheduler.Place format_f6 perm placer req nodes with
  | None => Ret (Err panic)
  | Some ((pl, err), _) =>
      recordSchedulerEvents opID (Scheduler.PEvents pl) (Ret (match err with Some e => Err e | None => Ok pl end))
  end.

Definition elect (placer : Scheduler.Placer) (op : Operation) (spec : PlaceSpec) (excluded : gset string) (sn : Snapshot)
    (required : list string) (localNode : string) : prog (res Scheduler.Placement) :=
  let '(pin, rehome) := dispatchPin (o_DispatchNodeID op) (sn_live sn) excluded in
  let req := scheduler_request spec excluded sn required localNode in
  _ <~! (if String.eqb rehome "" then Ret tt
         else RecordEvent (o_ID op) "dispatch_rehome" (o_DispatchNodeID op)
                ("recorded dispatch node unusable (" +:+ rehome +:+ "); re-electing placement") ;! Ret tt) ;
  if String.eqb pin "" then decide_last (o_ID op) placer (req "") (sn_nodes sn)
  else
    perm <-! Perm ;
    match Scheduler.Place format_f6 perm placer (req pin) (sn_nodes sn) with
    | None => Ret (Err panic)
    | Some ((pl, None), _) => recordSchedulerEvents (o_ID op) (Scheduler.PEvents pl) (Ret (Ok pl))
    | Some ((pl, Some e), _) =>
        recordSchedulerEvents (o_ID op) (Scheduler.PEvents pl)
          (if has_prefix (pinnedRejectionReason (Scheduler.PEvents pl) pin) "resources:" then
             RecordEvent (o_ID op) "dispatch_pin_hold" pin "pinned node lacks capacity; holding dispatch on original agent" ;! Ret (Err e)
           else
             RecordEvent (o_ID op) "dispatch_rehome" pin "pinned node no longer a candidate; re-electing placement" ;!
             decide_last (o_ID op) placer (req "") (sn_nodes sn))
    end.

(** The chosen node, with its capacity. *)
Definition find_chosen (nodeID : string) (live : list liveNode) : res (liveNode * NodeCapacity) :=
  match List.find (fun l => String.eqb (NodeID l) nodeID) live with
  | None => Err (unknown_node nodeID)
  | Some l => match Info (lv_Node l) ≫= si_Capacity with
              | None => Err (no_capacity_info nodeID)
              | Some cap => Ok (l, cap)
              end
  end.

Definition over_quota (used : Allocated) (q : Quota) : bool :=
  (q_VCPU q <? VCPU used) || (q_MemMib q <? Capacity.MemMib used) || (q_DiskMib q <? DiskMib used).

(** The quotas the database holds. *)
Definition check_quota (project : string) : prog (res (Quota * Quota)) :=
  quota <-? ProjectQuota project ;
  used <-? ProjectUsage project ;
  if over_quota used quota then Ret (Err Reservations.ErrProjectQuota)
  else
    detail <-? GetProjectQuotaDetail project ;
    if 0 <? MachineConcurrency detail then
      usage <-? ProjectMachineUsage project ;
      if MachineQuotaExceeded usage (MachineConcurrency detail) then Ret (Err Reservations.ErrProjectQuota)
      else Ret (Ok (quota, detail))
    else Ret (Ok (quota, detail)).

Definition commitDispatch (opID nodeID : string) : prog (res unit) :=
  persisted <-! UpdateOperationDispatchNode opID nodeID ;
  match persisted with
  | Ok _ => Ret (Ok tt)
  | Err e => Release opID ;! Ret (Err e)
  end.

Definition record_of (op : Operation) (spec : PlaceSpec) (nodeID : string) : Reservations.Record_ :=
  Reservations.mkRecord nodeID (o_ProjectID op) (vcpu_of spec) (mem_of spec) (EffectiveDiskMib (ps_DiskMib spec)) 1.
Definition limits_of (placer : Scheduler.Placer) (cap : NodeCapacity) (quota detail : Quota) : Reservations.Limits :=
  Reservations.mkLimits (VcpuTotal cap) (MemTotalMib cap) (DiskTotalMib cap) (u64 (q_VCPU quota)) (u64 (q_MemMib quota))
    (u64 (q_DiskMib quota)) (u64 (MachineConcurrency detail)) (Scheduler.R (Scheduler.cfg placer)).

Definition reserve (placer : Scheduler.Placer) (op : Operation) (spec : PlaceSpec) (sn : Snapshot) (nodeID : string) : prog (res Choice) :=
  match find_chosen nodeID (sn_live sn) with
  | Err e => Ret (Err e)
  | Ok (chosen, cap) =>
      quotas <~? check_quota (o_ProjectID op) ;
      acquired <-! AcquireR (o_ID op) (record_of op spec (NodeID chosen)) (limits_of placer cap quotas.1 quotas.2) ;
      match acquired with
      | Err e => RecordEvent (o_ID op) "reservation" (NodeID chosen) (text e) ;! Ret (Err e)
      | Ok _ =>
          _ <~? commitDispatch (o_ID op) (NodeID chosen) ;
          Ret (Ok (mkChoice (NodeID chosen) (NomadID chosen) (Proxy chosen)))
      end
  end.

Definition place_unlocked (placer : Scheduler.Placer) (op : Operation) (spec : PlaceSpec) (excluded : gset string) : prog (res Choice) :=
  sn <~? snapshot ;
  needs <~? requirements op spec ;
  pl <~? elect placer op spec excluded sn needs.1 needs.2 ;
  reserve placer op spec sn (Scheduler.PNodeID pl).

(** A request without anti-affinity, or without a deployment, takes no lock. *)
Definition needLock (spec : PlaceSpec) : bool := negb (String.eqb (ps_DeploymentId spec) "") && anti_affinity spec.

Definition lockDeployment (deploymentID : string) {A} (body : prog A) : prog A :=
  l <-! LockRef deploymentID ;
  MuLock l ;!
  r <~! body ;
  MuUnlock l ;!
  LockUnref deploymentID l ;!
  Ret r.

Definition Place (placer : Scheduler.Placer) (op : Operation) (spec : PlaceSpec) (excluded : gset string) : prog (res Choice) :=
  if needLock spec then lockDeployment (ps_DeploymentId spec) (place_unlocked placer op spec excluded)
  else place_unlocked placer op spec excluded.

(** ** Traces *)

Inductive ev :=
  | EvNodes (discovered : list Node)
  | EvAllocated (a : res (gmap string Allocated))
  | EvPending (rows : res (list PendingUsage))
  | EvStored (rows : res (list Row))
  | EvCommitted (pairs : res (list (string * string)))
  | EvInflight (pairs : res (list (string * string)))
  | EvDeployment (id : string) (dep : res (option Dep))
  | EvLocal (machineID : string) (node : res string)
  | EvQuota (project : string) (q : res Quota)
  | EvUsage (project : string) (u : res Allocated)
  | EvDetail (project : string) (q : res Quota)
  | EvMachines (project : string) (n : res Z)
  | EvRecorded (opID kind nodeID reason : string)
  | EvAcquired (opID : string) (r : Reservations.Record_) (l : Reservations.Limits) (b : res unit)
  | EvPersisted (opID nodeID : string) (b : res unit)
  | EvReleased (opID : string) (b : res unit).

Definition event {B} (c : eff B) : B -> list ev :=
  match c in eff B return B -> list ev with
  | Nodes => fun b => [EvNodes b]
  | AllocatedByNode => fun b => [EvAllocated b]
  | PendingUsageByNode => fun b => [EvPending b]
  | ListNodes => fun b => [EvStored b]
  | CommittedNodes => fun b => [EvCommitted b]
  | InflightNodes => fun b => [EvInflight b]
  | GetDeployment id => fun b => [EvDeployment id b]
  | MachineLocalRWNode m => fun b => [EvLocal m b]
  | ProjectQuota p => fun b => [EvQuota p b]
  | ProjectUsage p => fun b => [EvUsage p b]
  | GetProjectQuotaDetail p => fun b => [EvDetail p b]
  | ProjectMachineUsage p => fun b => [EvMachines p b]
  | RecordEvent op kind node reason => fun _ => [EvRecorded op kind node reason]
  | AcquireR op r l => fun b => [EvAcquired op r l b]
  | UpdateOperationDispatchNode op node => fun b => [EvPersisted op node b]
  | Release op => fun b => [EvReleased op b]
  | LockRef _ | MuLock _ | MuUnlock _ | LockUnref _ _ | Perm => fun _ => []
  end.

Local Abbreviation runs := (Programs.runs (@event)).

Definition is_write (e : ev) : bool := match e with EvAcquired _ _ _ _ | EvPersisted _ _ _ | EvReleased _ _ => true | _ => false end.
Definition writes (t : list ev) : list ev := List.filter is_write t.

Lemma writes_app t t' : writes (t ++ t') = (writes t ++ writes t')%list.
Proof. apply List.filter_app. Qed.

(** ** Stages *)

Lemma snapshot_runs t r :
  runs snapshot t r ->
  match r with
  | Err _ => writes t = []
  | Ok sn => exists discovered allocated pending stored committed inflight,
      t = [EvNodes discovered; EvAllocated (Ok allocated); EvPending (Ok pending); EvStored (Ok stored);
           EvCommitted (Ok committed); EvInflight (Ok inflight)] /\
      sn = mkSnapshot (liveNodes discovered)
             (assembleSchedulerNodes (liveNodes discovered) allocated (pendingMap pending) stored) (committed ++ inflight)%list
  end.
Proof. intros H. unfold snapshot in H. paths H; cbn; try done. by repeat eexists. Qed.

(** The snapshot made of what a trace read. *)
Definition read_by (t : list ev) (sn : Snapshot) : Prop :=
  exists discovered allocated pending stored committed inflight,
    EvNodes discovered ∈ t /\ EvAllocated (Ok allocated) ∈ t /\ EvPending (Ok pending) ∈ t /\ EvStored (Ok stored) ∈ t /\
    EvCommitted (Ok committed) ∈ t /\ EvInflight (Ok inflight) ∈ t /\
    sn = mkSnapshot (liveNodes discovered)
           (assembleSchedulerNodes (liveNodes discovered) allocated (pendingMap pending) stored) (committed ++ inflight)%list.

(** What the deployment and the volumes read in a trace require of the node. *)
Definition needed (op : Operation) (spec : PlaceSpec) (t : list ev) (required : list string) (localNode : string) : Prop :=
  EvLocal (o_MachineID op) (Ok localNode) ∈ t /\
  exists features, required = (if String.eqb localNode "" then features else features ++ [VolumeLocalRWV1])%list /\
    if String.eqb (ps_DeploymentId spec) "" then features = []
    else exists dep, EvDeployment (ps_DeploymentId spec) (Ok dep) ∈ t /\ features = from_option RequiredFeatures [] dep.

Lemma requirements_runs op spec t r :
  runs (requirements op spec) t r ->
  writes t = [] /\ forall required localNode, r = Ok (required, localNode) -> needed op spec t required localNode.
Proof.
  intros H. unfold requirements in H. apply runs_pbind in H as (a & t1 & t2 & H1 & H2 & ->). rewrite writes_app.
  assert (writes t1 = [] /\ forall features, a = Ok features ->
    if String.eqb (ps_DeploymentId spec) "" then features = []
    else exists dep, EvDeployment (ps_DeploymentId spec) (Ok dep) ∈ t1 /\ features = from_option RequiredFeatures [] dep) as [-> Hf].
  { destruct (String.eqb (ps_DeploymentId spec) ""); paths H1; (split; [done|]); try done; intros features [= <-]; [done|].
    eexists. split; [event_in|done]. }
  destruct a as [features|e]; paths H2; (split; [done|]); try done. intros required localNode [= <- <-].
  split; [apply elem_of_app; right; event_in|]. exists features. split; [done|]. specialize (Hf _ eq_refl).
  destruct (String.eqb (ps_DeploymentId spec) ""); [done|]. destruct Hf as (dep & Hd & ->). exists dep.
  split; [apply elem_of_app; by left|done].
Qed.

Lemma events_runs {A} opID events (k : Programs.prog eff A) t a :
  runs (recordSchedulerEvents opID events k) t a ->
  exists t', t = (map (fun ev => EvRecorded opID (event_kind ev) (Scheduler.ENodeID ev) (Scheduler.EReason ev)) events ++ t')%list /\ runs k t' a.
Proof.
  revert t. induction events as [|e events IH]; intros t; cbn; [by exists t|].
  intros (b & t' & -> & H). destruct (IH t' H) as (t2 & -> & H2). by exists t2.
Qed.

Lemma recorded_quiet opID (events : list Scheduler.Event) :
  writes (map (fun ev => EvRecorded opID (event_kind ev) (Scheduler.ENodeID ev) (Scheduler.EReason ev)) events) = [].
Proof. by induction events. Qed.

Lemma decide_last_runs opID placer req nodes t r :
  runs (decide_last opID placer req nodes) t r ->
  writes t = [] /\
  forall pl, r = Ok pl -> exists perm hooks, Scheduler.Place format_f6 perm placer req nodes = Some ((pl, None), hooks) /\
    t = map (fun ev => EvRecorded opID (event_kind ev) (Scheduler.ENodeID ev) (Scheduler.EReason ev)) (Scheduler.PEvents pl).
Proof.
  unfold decide_last. cbn. intros (perm & t' & -> & H). destruct (Scheduler.Place _ _ _ _ _) as [[[pl err] hooks]|] eqn:E.
  - apply events_runs in H as (t2 & -> & [-> ->]). rewrite writes_app, recorded_quiet. split; [done|]. intros pl' Hr.
    destruct err as [e|]; [done|]. injection Hr as <-. exists perm, hooks. by rewrite app_nil_r.
  - destruct H as [-> ->]. by split.
Qed.

(** Why a pinned operation may leave its node: the scheduler refused the node for a
    reason that waiting does not mend. *)
Definition refused_for_good (placer : Scheduler.Placer) (req : Scheduler.Request) (nodes : list Scheduler.Node) (pin : string) : Prop :=
  exists perm pl e hooks, Scheduler.Place format_f6 perm placer req nodes = Some ((pl, Some e), hooks) /\
    has_prefix (pinnedRejectionReason (Scheduler.PEvents pl) pin) "resources:" = false.

Lemma dispatchPin_shape d live excluded :
  let dp := dispatchPin d live excluded in dp.1 = d \/ (dp.1 = "" /\ (d = "" \/ dp.2 <> "")).
Proof.
  unfold dispatchPin. destruct (String.eqb_spec d "") as [->|Hd]; [by left|]. case_bool_decide; [by right; split; [|right]|].
  destruct (List.find _ live) as [l|]; [|by right; split; [|right]].
  destruct (negb _); [|by left]. right. split; [done|]. right. cbn. by rewrite append_cons.
Qed.

Lemma elect_runs placer op spec excluded sn required localNode t r :
  let dp := (dispatchPin (o_DispatchNodeID op) (sn_live sn) excluded).1 in
  let req := scheduler_request spec excluded sn required localNode in
  runs (elect placer op spec excluded sn required localNode) t r ->
  writes t = [] /\
  forall pl, r = Ok pl -> exists pin perm hooks,
    Scheduler.Place format_f6 perm placer (req pin) (sn_nodes sn) = Some ((pl, None), hooks) /\
    (pin = dp \/ (pin = "" /\ refused_for_good placer (req dp) (sn_nodes sn) dp)) /\
    (o_DispatchNodeID op <> "" -> pin <> o_DispatchNodeID op ->
       exists why, EvRecorded (o_ID op) "dispatch_rehome" (o_DispatchNodeID op) why ∈ t) /\
    forall e, e ∈ Scheduler.PEvents pl -> EvRecorded (o_ID op) (event_kind e) (Scheduler.ENodeID e) (Scheduler.EReason e) ∈ t.
Proof.
  cbv zeta. intros H. unfold elect in H. pose proof (dispatchPin_shape (o_DispatchNodeID op) (sn_live sn) excluded) as Hshape.
  destruct (dispatchPin _ _ _) as [pin rehome]. cbn [fst snd] in *.
  set (req := scheduler_request spec excluded sn required localNode) in *.
  apply runs_pbind in H as ([] & t1 & t2 & H1 & H2 & ->).
  assert (writes t1 = [] /\ (o_DispatchNodeID op <> "" -> pin <> o_DispatchNodeID op ->
       exists why, EvRecorded (o_ID op) "dispatch_rehome" (o_DispatchNodeID op) why ∈ t1)) as [Hw Hmv].
  { destruct (String.eqb_spec rehome "") as [->|]; cbn in H1.
    - destruct H1 as [-> _]. split; [done|]. intros Hd Hp. destruct Hshape as [|[_ [|Hr]]]; done.
    - destruct H1 as (b & t' & -> & -> & _). split; [done|]. intros _ _. eexists. apply list_elem_of_here. }
  rewrite writes_app, Hw. cbn. clear H1 Hw.
  assert (Hin : forall (l : list Scheduler.Event) e, e ∈ l ->
    EvRecorded (o_ID op) (event_kind e) (Scheduler.ENodeID e) (Scheduler.EReason e) ∈
    map (fun ev => EvRecorded (o_ID op) (event_kind ev) (Scheduler.ENodeID ev) (Scheduler.EReason ev)) l).
  { intros l e He. apply list_elem_of_fmap. by exists e. }
  destruct (String.eqb_spec pin "") as [->|Hpin].
  { apply decide_last_runs in H2 as [Hw Ho]. split; [done|]. intros pl Hr. destruct (Ho pl Hr) as (perm & hooks & Hp & ->).
    exists "", perm, hooks. split; [done|]. split; [by left|]. split.
    - intros Hd Hp0. destruct (Hmv Hd Hp0) as [why Hy]. exists why. apply elem_of_app. by left.
    - intros e He. apply elem_of_app. right. by apply Hin. }
  cbn in H2. destruct H2 as (perm & t' & -> & H2). destruct (Scheduler.Place _ _ _ _ _) as [[[pl [e|]] hooks]|] eqn:E.
  - apply events_runs in H2 as (t3 & -> & H3). cbn. rewrite writes_app, recorded_quiet. cbn.
    destruct (has_prefix _ _) eqn:Hres.
    + cbn in H3. destruct H3 as (b & t4 & -> & [-> ->]). by split.
    + cbn in H3. destruct H3 as (b & t4 & -> & H4). apply decide_last_runs in H4 as [Hw Ho]. split; [done|]. intros pl' Hr.
      destruct (Ho pl' Hr) as (perm' & hooks' & Hp & ->). exists "", perm', hooks'. split; [done|]. split; [right; split; [done|by do 4 eexists]|].
      split. { intros Hd _. destruct Hshape as [->|[-> _]]; [|done]. eexists. rewrite !elem_of_app, elem_of_cons. right. right. by left. }
      intros e' He. rewrite !elem_of_app, elem_of_cons. right. right. right. by apply Hin.
  - apply events_runs in H2 as (t3 & -> & [-> ->]). cbn. rewrite app_nil_r, recorded_quiet. split; [done|]. intros pl' [= <-].
    exists pin, perm, hooks. split; [done|]. split; [by left|]. split.
    + intros Hd Hp0. destruct (Hmv Hd Hp0) as [why Hy]. exists why. apply elem_of_app. by left.
    + intros e' He. apply elem_of_app. right. by apply Hin.
  - destruct H2 as [-> ->]. by split.
Qed.

Lemma check_quota_runs project t r :
  runs (check_quota project) t r ->
  writes t = [] /\
  forall q d, r = Ok (q, d) -> exists used,
    EvQuota project (Ok q) ∈ t /\ EvUsage project (Ok used) ∈ t /\ EvDetail project (Ok d) ∈ t /\
    VCPU used <= q_VCPU q /\ Capacity.MemMib used <= q_MemMib q /\ DiskMib used <= q_DiskMib q /\
    (0 < MachineConcurrency d -> exists n, EvMachines project (Ok n) ∈ t /\ n <= MachineConcurrency d).
Proof.
  intros H. unfold check_quota in H. paths H; (split; [done|]); try done;
  (intros q d [= <- <-]; match goal with E : over_quota ?u _ = false |- _ => exists u; unfold over_quota in E;
     repeat rewrite orb_false_iff in E; destruct E as [[?%Z.ltb_ge ?%Z.ltb_ge] ?%Z.ltb_ge] end;
   split; [event_in|split; [event_in|split; [event_in|]]]; (split; [done|split; [done|split; [done|]]]); intros Hm).
  - match goal with E : MachineQuotaExceeded ?n _ = false |- _ => exists n; split; [event_in|]; unfold MachineQuotaExceeded in E end.
    bool_to_prop. destruct (0 <? _) eqn:?; cbn in *; bool_to_prop; lia.
  - bool_to_prop. lia.
Qed.

(** A write is about the node. *)
Definition concerns (n : string) (e : ev) : Prop :=
  match e with EvAcquired _ r _ _ => Reservations.NodeID r = n | EvPersisted _ m _ => m = n | _ => True end.

(** The writes a placement asks for, and their answers: nothing; a reservation that was
    not acknowledged; a reservation that is to be given back because the node was not
    recorded; or a reservation and the record, both acknowledged. *)
Inductive outcome_of (opID : string) : list ev -> res Choice -> Prop :=
  | no_write e : outcome_of opID [] (Err e)
  | refused r l e : outcome_of opID [EvAcquired opID r l (Err e)] (Err e)
  | given_back r l n e b : Reservations.NodeID r = n ->
      outcome_of opID [EvAcquired opID r l (Ok tt); EvPersisted opID n (Err e); EvReleased opID b] (Err e)
  | granted r l c b : Reservations.NodeID r = ch_NodeID c ->
      outcome_of opID [EvAcquired opID r l (Ok tt); EvPersisted opID (ch_NodeID c) (Ok b)] (Ok c).

Lemma find_chosen_ok nodeID live l cap :
  find_chosen nodeID live = Ok (l, cap) -> l ∈ live /\ NodeID l = nodeID /\ exists i, Info (lv_Node l) = Some i /\ si_Capacity i = Some cap.
Proof.
  unfold find_chosen. destruct (List.find _ live) as [x|] eqn:Hf; [|done]. destruct (Info (lv_Node x)) as [i|] eqn:Hi; [|done]. cbn.
  destruct (si_Capacity i) as [c|] eqn:Hc; [|done]. intros [= <- <-]. apply find_some in Hf as [Hin He].
  apply String.eqb_eq in He. apply list_elem_of_In in Hin. eauto.
Qed.

Lemma reserve_runs placer op spec sn nodeID t r :
  runs (reserve placer op spec sn nodeID) t r ->
  outcome_of (o_ID op) (writes t) r /\ Forall (concerns nodeID) (writes t) /\
  forall c, r = Ok c -> exists chosen cap q d used,
    find_chosen nodeID (sn_live sn) = Ok (chosen, cap) /\ c = mkChoice (NodeID chosen) (NomadID chosen) (Proxy chosen) /\
    EvAcquired (o_ID op) (record_of op spec nodeID) (limits_of placer cap q d) (Ok tt) ∈ t /\
    EvPersisted (o_ID op) nodeID (Ok tt) ∈ t /\
    EvQuota (o_ProjectID op) (Ok q) ∈ t /\ EvUsage (o_ProjectID op) (Ok used) ∈ t /\ EvDetail (o_ProjectID op) (Ok d) ∈ t /\
    VCPU used <= q_VCPU q /\ Capacity.MemMib used <= q_MemMib q /\ DiskMib used <= q_DiskMib q /\
    (0 < MachineConcurrency d -> exists n, EvMachines (o_ProjectID op) (Ok n) ∈ t /\ n <= MachineConcurrency d).
Proof.
  intros H. unfold reserve in H. destruct (find_chosen nodeID (sn_live sn)) as [[chosen cap]|e] eqn:Hf;
    [|destruct H as [-> ->]; split_and!; [constructor|constructor|done]].
  apply find_chosen_ok in Hf as Hid. destruct Hid as (_ & Hid & _).
  apply runs_pbind in H as (a & t1 & t2 & H1 & H2 & ->). apply check_quota_runs in H1 as [Hw Hq]. rewrite writes_app, Hw. cbn [app].
  destruct a as [[q d]|e]; [|destruct H2 as [-> ->]; split_and!; [constructor|constructor|done]].
  destruct (Hq q d eq_refl) as (used & Q1 & Q2 & Q3 & Hle). clear Hq Hw.
  unfold commitDispatch in H2. paths H2; cbn [writes List.filter is_write].
  - repeat match goal with u : unit |- _ => destruct u end.
    split; [by apply (granted (o_ID op) _ _ (mkChoice _ _ _))|]. split; [by repeat constructor|]. intros c [= <-]. exists chosen, cap, q, d, used. rewrite <- Hid. split_and!; try done; try (apply elem_of_app; by left);
      try (apply elem_of_app; right; event_in; fail); try apply Hle.
    destruct Hle as (_ & _ & _ & Hm). intros H0. destruct (Hm H0) as (n & Hn & ?). exists n. rewrite elem_of_app. tauto.
  - repeat match goal with u : unit |- _ => destruct u end. split_and!; [by constructor|by repeat constructor|done].
  - split_and!; [by constructor|by repeat constructor|done].
Qed.

(** [outcome_of] and the run of the lock. *)
Lemma locked_runs d {A} (body : Programs.prog eff A) t a : runs (lockDeployment d body) t a -> runs body t a.
Proof.
  unfold lockDeployment. cbn. intros (l & t1 & -> & u & t2 & -> & H). apply runs_pbind in H as (a' & t3 & t4 & H3 & H4 & ->).
  cbn in H4. destruct H4 as (u1 & t5 & -> & u2 & t6 & -> & -> & ->). cbn. by rewrite app_nil_r.
Qed.

Lemma Place_runs placer op spec excluded t r :
  runs (Place placer op spec excluded) t r -> runs (place_unlocked placer op spec excluded) t r.
Proof. unfold Place. destruct (needLock spec); [apply locked_runs|done]. Qed.

Lemma place_unlocked_runs placer op spec excluded t r :
  runs (place_unlocked placer op spec excluded) t r ->
  (writes t = [] /\ exists e, r = Err e) \/
  exists sn required localNode pl t1 t2 t3 t4,
    t = (t1 ++ t2 ++ t3 ++ t4)%list /\ runs snapshot t1 (Ok sn) /\ runs (requirements op spec) t2 (Ok (required, localNode)) /\
    runs (elect placer op spec excluded sn required localNode) t3 (Ok pl) /\
    runs (reserve placer op spec sn (Scheduler.PNodeID pl)) t4 r.
Proof.
  intros H. unfold place_unlocked in H. apply runs_pbind in H as (sn & t1 & t2 & H1 & H2 & ->).
  apply snapshot_runs in H1 as H1'. destruct sn as [sn|e]; [|destruct H2 as [-> ->]; left; rewrite app_nil_r; by split; [|eexists]].
  assert (writes t1 = []) as Hw1 by (by destruct H1' as (? & ? & ? & ? & ? & ? & -> & _)). clear H1'.
  apply runs_pbind in H2 as (needs & t2' & t3 & H2 & H3 & ->). apply requirements_runs in H2 as Hw2. destruct Hw2 as [Hw2 _].
  destruct needs as [[required localNode]|e]; [|destruct H3 as [-> ->]; left; rewrite !writes_app, Hw1, Hw2; by split; [|eexists]].
  apply runs_pbind in H3 as (pl & t3' & t4 & H3 & H4 & ->). cbn [fst snd] in H3. apply elect_runs in H3 as Hw3. destruct Hw3 as [Hw3 _].
  destruct pl as [pl|e]; [|destruct H4 as [-> ->]; left; rewrite !writes_app, Hw1, Hw2, Hw3; by split; [|eexists]].
  right. exists sn, required, localNode, pl, t1, t2', t3', t4. by split_and!.
Qed.

(** C30. What a placement asks the stores to change, whatever it is answered: nothing; or one
    reservation of the operation that was not acknowledged, and nothing else; or a
    reservation and then the record of its node, which was not acknowledged, and then the
    reservation is given back; or a reservation and the record of its node, both
    acknowledged, and only then the placement succeeds, with that node. (A request that
    was answered with an error may have taken effect all the same, and giving back may
    fail: such a reservation lasts until it expires. Scheduler events are recorded beside.) *)
Theorem place_writes placer op spec excluded t r :
  runs (Place placer op spec excluded) t r -> outcome_of (o_ID op) (writes t) r.
Proof.
  intros [[-> [e ->]]|(sn & required & localNode & pl & t1 & t2 & t3 & t4 & -> & H1 & H2 & H3 & H4)]%Place_runs%place_unlocked_runs;
    [constructor|].
  apply snapshot_runs in H1 as (? & ? & ? & ? & ? & ? & -> & _). apply requirements_runs in H2 as [H2 _]. apply elect_runs in H3 as [H3 _].
  apply reserve_runs in H4 as [H4 _]. by rewrite !writes_app, H2, H3.
Qed.

(** What a placement decided on: the snapshot it read, the requirements, the pin. *)
Record decided (placer : Scheduler.Placer) (op : Operation) (spec : PlaceSpec) (excluded : gset string) (t : list ev) (c : Choice)
    (sn : Snapshot) (req : Scheduler.Request) : Prop := mkDecided {
  de_read : read_by t sn;
  de_req : exists required localNode pin, needed op spec t required localNode /\ req = scheduler_request spec excluded sn required localNode pin /\
    let dp := (dispatchPin (o_DispatchNodeID op) (sn_live sn) excluded).1 in
    (pin = dp \/ (pin = "" /\ refused_for_good placer (scheduler_request spec excluded sn required localNode dp) (sn_nodes sn) dp));
  de_chosen : exists perm pl hooks, Scheduler.Place format_f6 perm placer req (sn_nodes sn) = Some ((pl, None), hooks) /\
    Scheduler.PNodeID pl = ch_NodeID c;
  de_reserved : exists chosen cap q d, find_chosen (ch_NodeID c) (sn_live sn) = Ok (chosen, cap) /\
    EvAcquired (o_ID op) (record_of op spec (ch_NodeID c)) (limits_of placer cap q d) (Ok tt) ∈ t /\
    EvQuota (o_ProjectID op) (Ok q) ∈ t /\ EvDetail (o_ProjectID op) (Ok d) ∈ t /\
    (exists used, EvUsage (o_ProjectID op) (Ok used) ∈ t /\
       VCPU used <= q_VCPU q /\ Capacity.MemMib used <= q_MemMib q /\ DiskMib used <= q_DiskMib q) /\
    (0 < MachineConcurrency d -> exists n, EvMachines (o_ProjectID op) (Ok n) ∈ t /\ n <= MachineConcurrency d) }.

(** A larger trace has read the same. *)
Lemma needed_mono op spec t t' required localNode :
  (forall e, e ∈ t -> e ∈ t') -> needed op spec t required localNode -> needed op spec t' required localNode.
Proof.
  intros Hin [Hl (features & -> & Hf)]. split; [auto|]. exists features. split; [done|].
  destruct (String.eqb _ ""); [done|]. destruct Hf as (dep & Hd & ->). exists dep. auto.
Qed.

Lemma read_by_prefix d a p s co i t :
  read_by ([EvNodes d; EvAllocated (Ok a); EvPending (Ok p); EvStored (Ok s); EvCommitted (Ok co); EvInflight (Ok i)] ++ t)%list
    (mkSnapshot (liveNodes d) (assembleSchedulerNodes (liveNodes d) a (pendingMap p) s) (co ++ i)%list).
Proof. exists d, a, p, s, co, i. split_and!; try done; apply elem_of_app; left; event_in. Qed.

Lemma place_decided placer op spec excluded t c :
  runs (Place placer op spec excluded) t (Ok c) -> exists sn req, decided placer op spec excluded t c sn req.
Proof.
  intros [[_ [e [=]]]|(sn & required & localNode & pl & t1 & t2 & t3 & t4 & -> & H1 & H2 & H3 & H4)]%Place_runs%place_unlocked_runs.
  apply snapshot_runs in H1 as (d & a & p & s & co & i & -> & ->). apply requirements_runs in H2 as [_ H2]. specialize (H2 _ _ eq_refl).
  apply elect_runs in H3 as [_ H3]. destruct (H3 pl eq_refl) as (pin & perm & hooks & Hp & Hpin & _). clear H3.
  apply reserve_runs in H4 as (_ & _ & H4). destruct (H4 c eq_refl) as (chosen & cap & q & dt & used & Hf & Hc & Ha & Hps & Hq & Hu & Hd & Hle). clear H4.
  assert (ch_NodeID c = Scheduler.PNodeID pl) as Hid. { rewrite Hc. cbn. apply find_chosen_ok in Hf. tauto. }
  set (sn := mkSnapshot _ _ _) in *. exists sn, (scheduler_request spec excluded sn required localNode pin).
  assert (Hin : forall e, e ∈ t4 -> e ∈ ([EvNodes d; EvAllocated (Ok a); EvPending (Ok p); EvStored (Ok s); EvCommitted (Ok co); EvInflight (Ok i)] ++ t2 ++ t3 ++ t4)%list).
  { intros e He. rewrite !elem_of_app. tauto. }
  split.
  - apply read_by_prefix.
  - exists required, localNode, pin. split; [|by split]. eapply needed_mono; [|exact H2]. intros e. rewrite !elem_of_app. tauto.
  - exists perm, pl, hooks. by rewrite Hid.
  - rewrite Hid. exists chosen, cap, q, dt. destruct Hle as (L1 & L2 & L3 & L4). split_and!; auto.
    + exists used. auto.
    + intros Hm. destruct (L4 Hm) as (n & Hn & Hl). exists n. auto.
Qed.

(** ** What a placement guarantees *)

(** C9. A placement that succeeds is sound from end to end: the node is live, and in the
    scheduler's view made of one reading of discovery and of the tables it satisfies
    every hard constraint of the request - it has the features that the deployment read in
    this placement requires, and when the machine has local volumes it is the node they are
    on and can serve them; what the project uses, this machine included, is within its
    quotas and its machine concurrency; and the reservation granted is for the effective
    demand on that node, under its reported capacity and these quotas. *)
Theorem placement_is_sound placer op spec excluded t c :
  runs (Place placer op spec excluded) t (Ok c) ->
  exists sn req n, decided placer op spec excluded t c sn req /\
    n ∈ sn_nodes sn /\ Scheduler.ID n = ch_NodeID c /\ Scheduler.eligible (Scheduler.cfg placer) req n /\
    Scheduler.VCPU req = vcpu_of spec /\ Scheduler.MemMib req = mem_of spec /\ Scheduler.DiskMib req = EffectiveDiskMib (ps_DiskMib spec) /\
    ch_NodeID c ∉ excluded /\
    (ps_DeploymentId spec <> "" -> exists dep, EvDeployment (ps_DeploymentId spec) (Ok dep) ∈ t /\
       forall f, f ∈ from_option RequiredFeatures [] dep -> f <> "" -> Scheduler.get_bool (Scheduler.FeatureIDs n) f = true) /\
    (exists localNode, EvLocal (o_MachineID op) (Ok localNode) ∈ t /\
       (localNode <> "" -> ch_NodeID c = localNode /\ Scheduler.get_bool (Scheduler.FeatureIDs n) VolumeLocalRWV1 = true)).
Proof.
  intros (sn & req & Hd)%place_decided. destruct (de_chosen _ _ _ _ _ _ _ _ Hd) as (perm & pl & hooks & Hp & Hid).
  apply Scheduler.place_sound in Hp as [(n & Hn & Hidn & _ & Hel) _]. exists sn, req, n.
  destruct (de_req _ _ _ _ _ _ _ _ Hd) as (required & localNode & pin & [Hloc (features & Hreq & Hf)] & -> & _).
  pose proof (Scheduler.el_features _ _ _ Hel) as Hft. cbn in Hft. split_and!; try done; [congruence|..].
  - pose proof (Scheduler.el_not_excluded _ _ _ Hel) as Hex. cbn in Hex. rewrite Hidn, Hid in Hex. unfold Scheduler.get_bool in Hex.
    intros Hin. rewrite lookup_gset_to_gmap in Hex. rewrite option_guard_True in Hex by done. done.
  - intros Hne. destruct (String.eqb_spec (ps_DeploymentId spec) ""); [done|]. destruct Hf as (dep & Hdep & ->).
    exists dep. split; [done|]. intros f Hin. apply Hft. rewrite Hreq. destruct (String.eqb localNode ""); [done|].
    apply elem_of_app. by left.
  - exists localNode. split; [done|]. intros Hl. split.
    + pose proof (Scheduler.el_locality _ _ _ Hel) as Hx. cbn in Hx. rewrite <- Hid, <- Hidn. auto.
    + apply Hft; [|done]. rewrite Hreq. destruct (String.eqb_spec localNode ""); [done|]. apply elem_of_app. right. apply list_elem_of_here.
Qed.






(** ** An operation counts itself *)

Lemma pendingMap_rows (size_field : json -> string -> option Z) (tb : Tables json) d :
  pendingMap (PendingUsageRows size_field tb) !! d =
    (fun a => mkPending d (VCPU a) (Capacity.MemMib a) (DiskMib a)) <$> Capacity.PendingUsageByNode size_field tb !! d.
Proof.
  unfold PendingUsageRows, pendingMap. set (m := Capacity.PendingUsageByNode size_field tb).
  rewrite <- (list_to_map_to_list m) at 2. pose proof (NoDup_fst_map_to_list m) as Hnd. revert Hnd. generalize (map_to_list m). clear m.
  intros l. assert (forall acc : gmap string PendingUsage, NoDup l.*1 ->
    fold_left (fun m r => <[pu_NodeID r := r]> m)
      (map (fun kv : string * Allocated => mkPending kv.1 (VCPU kv.2) (Capacity.MemMib kv.2) (DiskMib kv.2)) l) acc !! d =
    match (list_to_map l : gmap string Allocated) !! d with
    | Some a => Some (mkPending d (VCPU a) (Capacity.MemMib a) (DiskMib a)) | None => acc !! d end) as H.
  { induction l as [|[k a] l IH]; intros acc Hnd; cbn [map fold_left]; [by cbn; rewrite lookup_empty|].
    cbn in Hnd. apply NoDup_cons in Hnd as [Hk Hnd]. rewrite IH by done. cbn [pu_NodeID fst snd].
    change (list_to_map ((k, a) :: l)) with (<[k := a]> (list_to_map l : gmap string Allocated)). destruct (decide (d = k)) as [->|Hne].
    - by rewrite lookup_insert_eq, (proj1 (not_elem_of_list_to_map l k) Hk), lookup_insert_eq.
    - by rewrite !lookup_insert_ne by done. }
  intros Hnd. rewrite H by done. by destruct (list_to_map l !! d).
Qed.

Lemma scheduler_node_mem a pend st l :
  Scheduler.MemPending (scheduler_node a pend st l) = from_option (fun x => u64 (pu_MemMib x)) 0 (pend !! NodeID l) /\
  Scheduler.ID (scheduler_node a pend st l) = NodeID l.
Proof. unfold scheduler_node. by destruct (match Info (lv_Node l) with Some _ => _ | None => _ end) as [[? ?] ?]. Qed.

(** A defect: an operation that was sent to a node and is still in flight is itself among
    the creates pending there, so that its retry is placed on this node only if the node
    has memory for the machine twice, beside what the agent reports as allocated - the
    machine again, when the first call did start it. On a node with room for it once the
    retry is refused for resources, and by the theorem above it may not go elsewhere. *)
Theorem retry_needs_room_twice (size_field : json -> string -> option Z) (tb : Tables json) o op row m spec excluded t c :
  let placer := Scheduler.New Scheduler.DefaultBestOfKConfig o in
  runs (Place placer op spec excluded) t (Ok c) -> ch_NodeID c = o_DispatchNodeID op ->
  (* the pending creates are read while the operation is one of them *)
  (forall rows, EvPending (Ok rows) ∈ t -> rows = PendingUsageRows size_field tb) ->
  row ∈ all_operations tb -> creating row = true -> o_DispatchNodeID row = o_DispatchNodeID op -> o_DispatchNodeID op <> "" ->
  machines (Capacity.db tb) !! o_MachineID row = Some m -> RequestedMemMIB (shape m) = mem_of spec ->
  (* the figures are in range *)
  Forall (fun m => le_usage nothing (requested m)) (all_machines tb) ->
  Forall (fun op => forall f n, size_field (o_Request op) f = Some n -> 0 <= n) (all_operations tb) ->
  (forall k a, Capacity.PendingUsageByNode size_field tb !! k = Some a -> Capacity.MemMib a < 2 ^ 63) ->
  (forall sn req n, decided placer op spec excluded t c sn req -> n ∈ sn_nodes sn -> Scheduler.exact_figures req n) ->
  exists sn req n, decided placer op spec excluded t c sn req /\ n ∈ sn_nodes sn /\ Scheduler.ID n = o_DispatchNodeID op /\
    Scheduler.MemAllocated n + 2 * mem_of spec <= Scheduler.MemTotalMib n.
Proof.
  cbv zeta. intros (sn & req & Hd)%place_decided Hc Hread Hrow Hcr Hdisp Hne Hm Hmem Hpos Hsz Hsum Hexact.
  destruct (de_chosen _ _ _ _ _ _ _ _ Hd) as (perm & pl & hooks & Hp & Hid). apply Scheduler.place_sound in Hp as [(n & Hn & Hidn & _ & Hel) _].
  assert (Hreq : Scheduler.MemMib req = mem_of spec) by (destruct (de_req _ _ _ _ _ _ _ _ Hd) as (? & ? & ? & _ & -> & _); done).
  pose proof (Hexact _ _ _ Hd Hn) as Hx. exists sn, req, n. split; [done|]. split; [done|]. split; [congruence|].
  destruct (Scheduler.canFit_default o n req Hx (Scheduler.el_fits _ _ _ Hel)) as (_ & Hfit & _). rewrite Hreq in Hfit.
  destruct (own_demand_is_pending size_field tb row m Hrow Hcr) as (p & Hpend & _ & Hle & _); [congruence|done..|].
  cbn in Hle. rewrite Hmem in Hle.
  assert (Scheduler.MemPending n = u64 (Capacity.MemMib p)) as Hmp.
  { destruct (de_read _ _ _ _ _ _ _ _ Hd) as (d & a & rows & s & co & i & _ & _ & Hr & _ & _ & _ & ->). cbn in Hn.
    apply list_elem_of_fmap in Hn as (l & -> & Hl). apply Hread in Hr. subst rows. destruct (scheduler_node_mem a (pendingMap (PendingUsageRows size_field tb)) s l) as [-> Hidl].
    rewrite pendingMap_rows. replace (NodeID l) with (o_DispatchNodeID row) by congruence. by rewrite Hpend. }
  rewrite u64_small in Hmp by (specialize (Hsum _ _ Hpend); unfold Scheduler.exact_figures in Hx; rewrite !Forall_cons in Hx; lia).
  lia.
Qed.

(** ** Running a placement *)

(** deploymentLocks: the lock of a deployment, and for every lock ever made whether its
    mutex is held and how many refer to it. *)
Record Locks := mkLocks { lock_of : gmap string nat; cells : gmap nat (bool * Z); next_lock : nat }.
Definition no_locks : Locks := mkLocks ∅ ∅ 0.

Definition lock_ref (d : string) (lk : Locks) : Locks * nat :=
  match lock_of lk !! d with
  | Some l => (mkLocks (lock_of lk) (alter (fun c => (c.1, c.2 + 1)) l (cells lk)) (next_lock lk), l)
  | None => let l := next_lock lk in (mkLocks (<[d := l]> (lock_of lk)) (<[l := (false, 1)]> (cells lk)) (S l), l)
  end.
Definition mutex_free (l : nat) (lk : Locks) : bool := match cells lk !! l with Some (held, _) => negb held | None => false end.
Definition set_mutex (held : bool) (l : nat) (lk : Locks) : Locks :=
  mkLocks (lock_of lk) (alter (fun c => (held, c.2)) l (cells lk)) (next_lock lk).
Definition lock_unref (d : string) (l : nat) (lk : Locks) : Locks :=
  let lk := mkLocks (lock_of lk) (alter (fun c => (c.1, c.2 - 1)) l (cells lk)) (next_lock lk) in
  match cells lk !! l with
  | Some (_, 0) => mkLocks (delete d (lock_of lk)) (cells lk) (next_lock lk)
  | _ => lk
  end.

(** The tables, the nodes table and the discovery as they are, the reservations, the locks. *)
Record State := mkState { st_tables : Tables json; st_stored : list Row; st_live : list Node; st_resv : Reservations.Store; st_locks : Locks }.

Definition with_locks (f : Locks -> Locks) (s : State) : State :=
  mkState (st_tables s) (st_stored s) (st_live s) (st_resv s) (f (st_locks s)).
Definition with_resv (r : Reservations.Store) (s : State) : State := mkState (st_tables s) (st_stored s) (st_live s) r (st_locks s).
Definition with_db (db : DB) (s : State) : State :=
  let t := st_tables s in
  mkState (mkTables db (volumes t) (attachments t) (quotas t)) (st_stored s) (st_live s) (st_resv s) (st_locks s).

(** How statements and commands end, the clocks, and the random permutations, by the number of the call. *)
Record Env := mkEnv { outcome : nat -> exec_outcome; clock : nat -> Z; ttl : Z; draw : nat -> nat -> list nat }.

Definition read {A} (o : exec_outcome) (a : res A) : res A := match o with Done => a | FailedBefore e | FailedAfter e => Err e end.

(** A command to Redis. *)
Definition command {S A} (o : exec_outcome) (run : S * res A) (s : S) : S * res A :=
  match o with Done => run | FailedBefore e => (s, Err e) | FailedAfter e => (run.1, Err e) end.

Context (size_field : json -> string -> option Z).

Definition perform (env : Env) (i : nat) {B} (c : eff B) (s : State) : State * B :=
  let o := outcome env i in
  let now := clock env i in
  let t := st_tables s in
  match c in eff B return State * B with
  | LockRef d => let '(lk, l) := lock_ref d (st_locks s) in (with_locks (fun _ => lk) s, l)
  | MuLock l => (with_locks (set_mutex true l) s, tt)
  | MuUnlock l => (with_locks (set_mutex false l) s, tt)
  | LockUnref d l => (with_locks (lock_unref d l) s, tt)
  | Nodes => (s, st_live s)
  | AllocatedByNode => (s, read o (Ok (Capacity.AllocatedByNode t)))
  | PendingUsageByNode => (s, read o (Ok (PendingUsageRows size_field t)))
  | ListNodes => (s, read o (Ok (st_stored s)))
  | CommittedNodes => (s, read o (Ok (committed_nodes t)))
  | InflightNodes => (s, read o (Ok (inflight_nodes t)))
  | GetDeployment id => (s, read o (Ok (deployments (db t) !! id)))
  | MachineLocalRWNode m => (s, read o (Capacity.MachineLocalRWNode m t))
  | Perm => (s, draw env i)
  | ProjectQuota p => (s, read o (Capacity.ProjectQuota p t))
  | ProjectUsage p => (s, read o (Ok (Capacity.ProjectUsage p t)))
  | GetProjectQuotaDetail p => (s, read o (match quotas t !! p with Some q => Ok q | None => Err ErrNotFound end))
  | ProjectMachineUsage p => (s, read o (Ok (Capacity.ProjectMachineUsage p t)))
  | RecordEvent _ _ _ _ => (s, tt)
  | AcquireR op r l =>
      let '(resv, b) := command o (Reservations.AcquireR now (ttl env) l op r (st_resv s)) (st_resv s) in (with_resv resv s, b)
  | UpdateOperationDispatchNode op node =>
      let '(db', b) := Operations.UpdateOperationDispatchNode o now op node (db t) in (with_db db' s, b)
  | Release op =>
      let '(resv, b) := command o (Reservations.Release now op (st_resv s)).1 (st_resv s) in (with_resv resv s, b)
  end.

(** A mutex that is held blocks. *)
Definition ready {B} (c : eff B) (s : State) : bool := match c with MuLock l => mutex_free l (st_locks s) | _ => true end.

Definition exec {A} (env : Env) (p : Programs.prog eff A) (s : State) : State * A * list ev :=
  run (@event) (fun j B c s => perform env j c s) p 0 s.

Definition acts B (c : eff B) (s s' : State) (b : B) : Prop := ready c s = true /\ exists env i, perform env i c s = (s', b).
End placement.

(** ** Concrete placements *)

Module Witness.
Definition nowhere {A} : res A := Err (errors_New "proto: syntax error").
Definition codec : Codec nat :=
  mkCodec nat (fun _ => true) (fun _ => nowhere) (fun _ => nowhere) (fun _ => nowhere) (fun _ => nowhere) (fun _ => nowhere)
    (fun _ => nowhere) (fun _ => nowhere) (fun _ => nowhere).
Definition same (s : string) : string := s.
Definition text (_ : goerr) : string := "error".
Definition fmt (_ : float64) : string := "".
Definition size_field (_ : nat) (_ : string) : option Z := None.

(** Two replicas of a deployment, created and claimed. *)
Definition create (ordinal : Z) (machine execution op : string) : CreateMachineParams (json:=nat) :=
  mkCreateParams "proj" "app" "app.example" "img" 1 5000 10240 8080 machine "dep1" execution op 1 ordinal (Some 7%nat) 0%nat None "ON_FAILURE" 3 10 300.
Definition db0 : Operations.DB (json:=nat) := mkDB {["proj"]} ∅ ∅ ∅ ∅ ∅ ∅.
Definition db1 := (EnsureAppAndEnqueueCreateWithLifecycle Done 100 (create 0 "m1" "exec-1" "op-1") db0).1.
Definition db2 := (EnsureAppAndEnqueueCreateWithLifecycle Done 100 (create 1 "m2" "exec-2" "op-2") db1).1.
Definition db3 := (ClaimPendingOperations Done 200 ∅ 20 db2).1.

Definition node (id : string) (mem : Z) : Node :=
  NodeManager.mkNode ("nomad-" +:+ id) id "compute" true true false "HEALTHY" "10.0.0.1:5108" "10.0.0.1:5107"
    (Some (mkInfo id STATUS_HEALTHY ∅ (Some (mkCapacity 8 mem 100000)) None [] "" [] "")) 0 "".
Definition state (nodes : list Node) : Placement.State (json:=nat) :=
  mkState (mkTables db3 ∅ [] {["proj" := mkQuota 10 20000 100000 4]}) [] nodes Reservations.empty_store no_locks.
Definition env : Env := mkEnv (fun _ => Done) (fun _ => 1000) 120 (fun _ m => seq 0 m).
Definition placer : Scheduler.Placer := Scheduler.New Scheduler.DefaultBestOfKConfig (Scheduler.mkOptions false false).
Definition spec : PlaceSpec := mkPlaceSpec "dep1" 1 5000 0 "img@sha256:1" (Some (mkPlacement "" ∅ DEPLOYMENT)).
Definition op_of (id : string) (s : Placement.State (json:=nat)) : option (Operations.Operation (json:=nat)) := operations (db (st_tables s)) !! id.
Definition claimed_op (id machine execution node : string) : Operations.Operation (json:=nat) :=
  mkOp id "proj" machine execution 1 "create" 7%nat 100 CLAIMED node None "" 1 (Some 200) None 200.

Definition place (id machine execution node : string) (excluded : gset string) : Programs.prog (Placement.eff (json:=nat)) (res Choice) :=
  Place codec same text fmt placer (claimed_op id machine execution node) spec excluded.
Definition run_place (id machine execution node : string) (excluded : gset string) (s : Placement.State (json:=nat)) :=
  exec size_field env (place id machine execution node excluded) s.

(** One after the other they go to different nodes; a retry stays where it was sent. *)
Definition two : list Node := [node "n1" 16000; node "n2" 8000].
Definition s1 := (run_place "op-1" "m1" "exec-1" "" ∅ (state two)).1.1.
Definition s2 := (run_place "op-2" "m2" "exec-2" "" ∅ s1).1.1.
Example spread :
  (run_place "op-1" "m1" "exec-1" "" ∅ (state two)).1.2 = Ok (mkChoice "n1" "nomad-n1" "10.0.0.1:5107") /\
  (run_place "op-2" "m2" "exec-2" "" ∅ s1).1.2 = Ok (mkChoice "n2" "nomad-n2" "10.0.0.1:5107") /\
  (run_place "op-1" "m1" "exec-1" "n1" ∅ s2).1.2 = Ok (mkChoice "n1" "nomad-n1" "10.0.0.1:5107") /\
  (* the second node has room for the machine once: the retry is refused *)
  (run_place "op-2" "m2" "exec-2" "n2" ∅ s2).1.2 = Err (Scheduler.ErrNoCandidates "all filters exhausted").
Proof. vm_compute. done. Qed.

Lemma run_is_run id machine execution node excluded s :
  runs (@event nat) (place id machine execution node excluded) (run_place id machine execution node excluded s).2
    (run_place id machine execution node excluded s).1.2.
Proof.
  unfold run_place, exec. pose proof (run_runs (@event nat) (fun j B c s => perform size_field env j c s) (place id machine execution node excluded) 0 s) as H.
  by destruct (run _ _ _ _ _) as [[s' a] t].
Qed.

Lemma place_writes_witness :
  outcome_of "op-1" (writes (run_place "op-1" "m1" "exec-1" "" ∅ (state two)).2) (Ok (mkChoice "n1" "nomad-n1" "10.0.0.1:5107")) /\
  length (writes (run_place "op-1" "m1" "exec-1" "" ∅ (state two)).2) = 2%nat.
Proof.
  split; [|by vm_compute]. replace (Ok (mkChoice "n1" "nomad-n1" "10.0.0.1:5107")) with (run_place "op-1" "m1" "exec-1" "" ∅ (state two)).1.2 by (vm_compute; done).
  apply (place_writes codec same text fmt placer (claimed_op "op-1" "m1" "exec-1" "") spec ∅). apply run_is_run.
Defined.

(** The runs that succeed. *)
Lemma run_ok id machine execution node s c :
  (run_place id machine execution node ∅ s).1.2 = Ok c -> runs (@event nat) (place id machine execution node ∅) (run_place id machine execution node ∅ s).2 (Ok c).
Proof. intros <-. apply run_is_run. Qed.

Lemma placement_is_sound_witness : exists sn req n,
  decided codec same fmt placer (claimed_op "op-1" "m1" "exec-1" "") spec ∅ (run_place "op-1" "m1" "exec-1" "" ∅ (state two)).2
    (mkChoice "n1" "nomad-n1" "10.0.0.1:5107") sn req /\ n ∈ sn_nodes sn /\ Scheduler.ID n = "n1" /\ Scheduler.MemMib req = 5000.
Proof.
  destruct (placement_is_sound codec same text fmt placer (claimed_op "op-1" "m1" "exec-1" "") spec ∅ _ _
              (run_ok "op-1" "m1" "exec-1" "" (state two) (mkChoice "n1" "nomad-n1" "10.0.0.1:5107") ltac:(vm_compute; done)))
    as (sn & req & n & Hd & Hn & Hid & _ & _ & Hm & _). by exists sn, req, n.
Defined.



(** The retry on the node with room for the machine three times. *)
Definition t1 := (run_place "op-1" "m1" "exec-1" "n1" ∅ s2).2.
Definition row1 : Operations.Operation (json:=nat) := default (claimed_op "" "" "" "") (op_of "op-1" s2).
Definition row2 : Operations.Operation (json:=nat) := default (claimed_op "" "" "" "") (op_of "op-2" s2).

Definition in_range (l : list Z) : bool := forallb (fun z => (0 <=? z) && (z <? 2 ^ 50)) l.
Lemma in_range_ok l : in_range l = true -> Forall (fun z => 0 <= z < 2 ^ 50) l.
Proof. unfold in_range. rewrite forallb_forall, Forall_forall. intros H z Hz. specialize (H z (proj1 (list_elem_of_In _ _) Hz)). lia. Qed.

Lemma t1_reads e :
  e ∈ t1 -> match e with
            | EvNodes d => d = two
            | EvAllocated (Ok a) => a = ∅
            | EvPending (Ok rows) => rows = PendingUsageRows size_field (st_tables s2)
            | EvStored (Ok rows) => rows = []
            | _ => True
            end.
Proof.
  assert (t1 = [EvNodes two; EvAllocated (Ok ∅); EvPending (Ok (PendingUsageRows size_field (st_tables s2))); EvStored (Ok [])] ++ drop 4 t1 /\
          forallb (fun e => match e with EvNodes _ | EvAllocated _ | EvPending _ | EvStored _ => false | _ => true end) (drop 4 t1) = true)%list
    as [-> Hrest] by (vm_compute; split; reflexivity).
  intros [He|He]%elem_of_app; [which_event He; by subst e|].
  rewrite forallb_forall in Hrest. apply list_elem_of_In in He. specialize (Hrest _ He). destruct e; first [discriminate Hrest|exact I].
Qed.

Lemma rows_of_s2 : all_operations (st_tables s2) = [row1; row2] \/ all_operations (st_tables s2) = [row2; row1].
Proof. first [left; vm_compute; reflexivity|right; vm_compute; reflexivity]. Qed.

Lemma retry_needs_room_twice_witness : exists sn req n,
  decided codec same fmt placer (claimed_op "op-1" "m1" "exec-1" "n1") spec ∅ t1 (mkChoice "n1" "nomad-n1" "10.0.0.1:5107") sn req /\
  n ∈ sn_nodes sn /\ Scheduler.ID n = "n1" /\ Scheduler.MemAllocated n + 2 * 5000 <= Scheduler.MemTotalMib n.
Proof.
  assert (Hrows : forall r, r ∈ all_operations (st_tables s2) -> r = row1 \/ r = row2).
  { intros r Hr. destruct rows_of_s2 as [E|E]; rewrite E in Hr; apply elem_of_cons in Hr as [Hr|Hr];
      [|apply list_elem_of_singleton in Hr| |apply list_elem_of_singleton in Hr]; auto. }
  destruct (machines (db (st_tables s2)) !! "m1") as [m|] eqn:Hm; [|by vm_compute in Hm].
  apply (retry_needs_room_twice codec same text fmt size_field (st_tables s2) (Scheduler.mkOptions false false)
           (claimed_op "op-1" "m1" "exec-1" "n1") row1 m spec ∅ t1).
  - apply (run_ok "op-1" "m1" "exec-1" "n1" s2). vm_compute. done.
  - done.
  - intros rows Hr. exact (t1_reads _ Hr).
  - destruct rows_of_s2 as [->| ->]; [left|right; left].
  - vm_compute. done.
  - vm_compute. done.
  - done.
  - exact Hm.
  - assert (RequestedMemMIB (shape m) =? 5000 = true) as E by (vm_compute in Hm; injection Hm as <-; done). by apply Z.eqb_eq.
  - apply Forall_forall. intros m' (id & Hm')%elem_of_machines.
    assert (forallb (fun kv : string * Machine => (0 <=? VCPU (requested kv.2)) && (0 <=? Capacity.MemMib (requested kv.2)) && (0 <=? DiskMib (requested kv.2)))
              (map_to_list (machines (db (st_tables s2)))) = true) as Hall by (vm_compute; done).
    rewrite forallb_forall in Hall. apply elem_of_map_to_list, list_elem_of_In in Hm'. specialize (Hall _ Hm'). cbn [snd] in Hall.
    unfold le_usage. cbn [nothing VCPU Capacity.MemMib DiskMib]. lia.
  - apply Forall_forall. intros r _ f n. done.
  - intros k a Ha. assert (forallb (fun kv : string * Allocated => Capacity.MemMib kv.2 <? 2 ^ 63) (map_to_list (Capacity.PendingUsageByNode size_field (st_tables s2))) = true) as Hall
      by (vm_compute; done).
    rewrite forallb_forall in Hall. apply elem_of_map_to_list, list_elem_of_In in Ha. specialize (Hall _ Ha). cbn [snd] in Hall. lia.
  - intros sn req n Hd Hn. destruct (de_read _ _ _ _ _ _ _ _ _ _ _ Hd) as (d & a & p & st & co & i & H1 & H2 & H3 & H4 & _ & _ & ->).
    apply t1_reads in H1, H2, H3, H4. subst d a p st. destruct (de_req _ _ _ _ _ _ _ _ _ _ _ Hd) as (required & ln & pin & _ & -> & _).
    cbn [sn_nodes] in Hn. apply list_elem_of_fmap in Hn as (l & -> & Hl). apply list_elem_of_fmap in Hl as (x & -> & Hx). which_event Hx;
      subst x; apply in_range_ok; vm_compute; done.
Defined.
End Witness.
