(* ===== verification/AntiAffinity.v ===== *)
(** * Placements of one deployment, one after the other

    Any number of placements of [Placement] under the locks of their deployments, in any
    interleaving, while everybody else changes the tables: no two of one deployment are
    between reading its nodes and recording the one chosen, so that anti-affinity sees
    every create in flight. *)
From S2P Require Import Prelude Programs GoFloat GoString AgentContract AppCommand Operations NodeManager Capacity Placement.
From S2P Require Reservations Scheduler.

#[local] Open Scope string_scope.
#[local] Open Scope Z_scope.
#[local] Open Scope prog_scope.

(** ** The scheduler on the nodes of a deployment *)

Lemma members_spec d pairs n : Scheduler.get_bool (members d pairs) n = bool_decide ((d, n) ∈ pairs).
Proof.
  induction pairs as [|[d' n'] pairs IH].
  - by rewrite bool_decide_eq_false_2 by (apply not_elem_of_nil).
  - change (members d ((d', n') :: pairs)) with (if String.eqb d' d then <[n' := true]> (members d pairs) else members d pairs).
    destruct (String.eqb_spec d' d) as [->|Hd].
    + unfold Scheduler.get_bool in *. destruct (decide (n = n')) as [->|Hn].
      * rewrite lookup_insert_eq. cbn. by rewrite bool_decide_eq_true_2 by left.
      * rewrite lookup_insert_ne, IH by done. apply bool_decide_ext. rewrite elem_of_cons. naive_solver.
    + rewrite IH. apply bool_decide_ext. rewrite elem_of_cons. naive_solver.
Qed.

(** A node of the deployment is chosen only if every candidate is one, and that is said. *)
Lemma crowded_is_degraded fmt perm placer req nodes pl hooks :
  Scheduler.Place fmt perm placer req nodes = Some ((pl, None), hooks) ->
  Scheduler.AntiAffinity req = true -> Scheduler.DeploymentID req <> "" ->
  Scheduler.get_bool (Scheduler.ExistingDeploymentNodes req) (Scheduler.PNodeID pl) = true ->
  Scheduler.degraded ∈ Scheduler.PEvents pl.
Proof.
  intros Hp Haa Hdep Hcr.
  assert (Hsp : Scheduler.spreading req = true).
  { unfold Scheduler.spreading. apply String.eqb_neq in Hdep. rewrite Haa, Hdep. cbn. apply negb_true_iff, Nat.eqb_neq. intros Hz.
    apply map_size_empty_inv in Hz. rewrite Hz in Hcr. unfold Scheduler.get_bool in Hcr. by rewrite lookup_empty in Hcr. }
  destruct (Scheduler.Place_ok _ _ _ _ _ _ _ Hp) as (best & rest & Hs & Hid & _).
  apply Scheduler.sorted_member in Hs as [_ Hin]. apply Scheduler.sampleK_sub in Hin.
  unfold Scheduler.place_candidates, Scheduler.spread_of in Hin. rewrite Hsp in Hin.
  unfold Scheduler.Place, Scheduler.evaluateCandidates in Hp. unfold Scheduler.spreading in Hsp. rewrite Hsp in Hp.
  pose proof (Scheduler.run_stages_passed true (Scheduler.stages (Scheduler.cfg placer) req (Scheduler.mkEval true true)) nodes) as Hr.
  cbn [Scheduler.collectEvents] in Hp. destruct (Scheduler.run_stages true _ nodes) as [cs evs]. cbn [fst] in Hr.
  change (cs = Scheduler.passing placer req true nodes) in Hr. rewrite <- Hr in Hin.
  destruct (filter _ cs) as [|x out] eqn:Hf.
  - destruct cs as [|y cs]; [done|]. destruct (sort_by _ _) as [|b bs]; [done|]. injection Hp as <- <-. cbn.
    rewrite !elem_of_app. left. right. by left.
  - rewrite <- Hf in Hin. apply list_elem_of_filter in Hin as [Hno _]. congruence.
Qed.

(** ** What a placement does with its lock *)

Section discipline.
Context {json : Type} (codec : Codec json) (unicode_lower : string -> string) (text : goerr -> string)
        (format_f6 : float64 -> string).
Abbreviation Operation := (Operations.Operation (json:=json)).
Abbreviation eff := (Placement.eff (json:=json)).
Abbreviation label := (Operation * PlaceSpec)%type.

(** Where a placement is: it has the reference [l] to the lock of [d], it holds the lock
    and has read the nodes of creates in flight, and has said that it must double up. *)
Inductive phase :=
  | Out
  | Refd (d : string) (l : nat)
  | Held (d : string) (l : nat) (occupied : option (list string)) (doubled : bool)
  | Dropped (d : string) (l : nat).

Definition nodes_of (d : string) (pairs : list (string * string)) : list string :=
  omap (fun p : string * string => if String.eqb p.1 d then Some p.2 else None) pairs.

Lemma elem_of_nodes_of d pairs n : n ∈ nodes_of d pairs <-> (d, n) ∈ pairs.
Proof.
  unfold nodes_of. rewrite list_elem_of_omap. split.
  - intros ([d' n'] & Hin & Hx). cbn in Hx. destruct (String.eqb_spec d' d) as [->|]; [|done]. by injection Hx as <-.
  - intros Hin. exists (d, n). split; [done|]. cbn. by rewrite String.eqb_refl.
Qed.

Definition degraded_event (kind node reason : string) : bool :=
  String.eqb kind "placement" && String.eqb node "" && String.eqb reason (Scheduler.EReason Scheduler.degraded).

(** What each call needs, and what it leaves. *)
Definition allowed (lab : label) {B} (c : eff B) (g : phase) : Prop :=
  match c with
  | LockRef d => g = Out /\ d = ps_DeploymentId lab.2
  | MuLock l => exists d, g = Refd d l
  | MuUnlock l => exists d occ deg, g = Held d l occ deg
  | LockUnref d l => g = Dropped d l
  | RecordEvent op _ _ _ => op = o_ID lab.1
  | UpdateOperationDispatchNode op node =>
      op = o_ID lab.1 /\ exists l occ deg, g = Held (ps_DeploymentId lab.2) l (Some occ) deg /\ (node ∈ occ -> deg = true)
  | _ => True
  end.

Definition after {B} (c : eff B) : B -> phase -> phase :=
  match c in Placement.eff B return B -> phase -> phase with
  | LockRef d => fun l _ => Refd d l
  | MuLock l => fun _ g => match g with Refd d l => Held d l None false | _ => g end
  | MuUnlock l => fun _ g => match g with Held d l _ _ => Dropped d l | _ => g end
  | LockUnref _ _ => fun _ _ => Out
  | InflightNodes => fun b g =>
      match b, g with Ok pairs, Held d l _ _ => Held d l (Some (nodes_of d pairs)) false | _, _ => g end
  | RecordEvent _ kind node reason => fun _ g =>
      match g with Held d l occ deg => Held d l occ (deg || degraded_event kind node reason) | _ => g end
  | UpdateOperationDispatchNode _ _ => fun _ g => match g with Held d l _ deg => Held d l None deg | _ => g end
  | _ => fun _ g => g
  end.

Definition keeps (lab : label) {A} (post : A -> phase -> Prop) (p : Programs.prog eff A) (g : phase) : Prop :=
  obeys (fun B c g => allowed lab c g) (fun _ _ _ => True) (fun B c b g => after c b g) post p g.

Lemma keeps_bind lab {A B} (post : A -> phase -> Prop) (post' : B -> phase -> Prop) p (f : A -> Programs.prog eff B) g :
  keeps lab post p g -> (forall a g, post a g -> keeps lab post' (f a) g) -> keeps lab post' (pbind p f) g.
Proof. apply obeys_pbind. Qed.

Lemma keeps_do lab {A B} (post : A -> phase -> Prop) (c : eff B) k g :
  allowed lab c g -> (forall b, keeps lab post (k b) (after c b g)) -> keeps lab post (Do c k) g.
Proof. intros Ha Hk. split; [done|]. intros b _. apply Hk. Qed.

Definition holding (d : string) (l : nat) (g : phase) : Prop := exists occ deg, g = Held d l occ deg.

(** The reads. *)
Definition has_read (d : string) (l : nat) (r : res Snapshot) (g : phase) : Prop :=
  match r with
  | Ok sn => exists inflight, g = Held d l (Some (nodes_of d inflight)) false /\ inflight ⊆ sn_occupied sn
  | Err _ => holding d l g
  end.

Ltac call := apply keeps_do; [first [exact I|reflexivity|idtac]|intros ?].
Ltac stop := unfold keeps; cbn.

Lemma snapshot_keeps lab d l : keeps lab (has_read d l) snapshot (Held d l None false).
Proof.
  unfold snapshot. repeat (call; cbn [after]; try match goal with b : res _ |- _ => destruct b end; try (stop; unfold has_read, holding; by eauto)).
  stop. eexists. split; [done|]. cbn. intros x Hx. apply elem_of_app. by right.
Qed.

Lemma requirements_keeps lab d l op spec occ deg :
  keeps lab (fun _ g => g = Held d l occ deg) (requirements codec unicode_lower op spec) (Held d l occ deg).
Proof.
  unfold requirements. apply (keeps_bind _ (fun _ g => g = Held d l occ deg)).
  - destruct (String.eqb _ _); [by stop|]. call. by destruct b; stop.
  - intros [x|e] g ->; [|by stop]. call. by destruct b; stop.
Qed.

Lemma events_keep lab d l occ deg {A} (post : A -> phase -> Prop) evs k :
  (forall deg', (deg = true -> deg' = true) -> (Scheduler.degraded ∈ evs -> deg' = true) -> keeps lab post k (Held d l occ deg')) ->
  keeps lab post (recordSchedulerEvents (o_ID lab.1) evs k) (Held d l occ deg).
Proof.
  revert deg. induction evs as [|e evs IH]; intros deg Hk; [apply Hk; [done|by intros ?%elem_of_nil]|].
  change (recordSchedulerEvents (o_ID lab.1) (e :: evs) k) with
    (Do (RecordEvent (o_ID lab.1) (event_kind e) (Scheduler.ENodeID e) (Scheduler.EReason e)) (fun _ => recordSchedulerEvents (o_ID lab.1) evs k)).
  call. cbn [after]. apply IH. intros deg' H1 H2. apply Hk; [intros ->; by apply H1|].
  intros [<-|Hin]%elem_of_cons; [|by apply H2]. apply H1. by destruct deg.
Qed.

(** What an election leaves: a node that is taken was chosen only with the event. *)
Definition elected (d : string) (l : nat) (occ : list string) (r : res Scheduler.Placement) (g : phase) : Prop :=
  exists deg, g = Held d l (Some occ) deg /\ forall pl, r = Ok pl -> Scheduler.PNodeID pl ∈ occ -> deg = true.

Section election.
Context (placer : Scheduler.Placer) (op : Operation) (spec : PlaceSpec) (excluded : gset string) (sn : Snapshot)
        (required : list string) (localNode : string) (l : nat) (inflight : list (string * string)).
Hypothesis Hlock : needLock spec = true.
Hypothesis Hocc : inflight ⊆ sn_occupied sn.
Let d := ps_DeploymentId spec.
Let occ := nodes_of d inflight.

Lemma chosen_occupied perm pin pl hooks :
  Scheduler.Place format_f6 perm placer (scheduler_request spec excluded sn required localNode pin) (sn_nodes sn) = Some ((pl, None), hooks) ->
  Scheduler.PNodeID pl ∈ occ -> Scheduler.degraded ∈ Scheduler.PEvents pl.
Proof.
  intros Hp Hin. unfold needLock in Hlock. apply andb_true_iff in Hlock as [Hd Haa]. apply negb_true_iff, String.eqb_neq in Hd.
  apply (crowded_is_degraded _ _ _ _ _ _ _ Hp); [done|done|]. cbn. rewrite members_spec. apply bool_decide_eq_true, Hocc.
  by apply elem_of_nodes_of.
Qed.

Lemma decide_last_keeps pin deg :
  keeps (op, spec) (elected d l occ) (decide_last format_f6 (o_ID op) placer (scheduler_request spec excluded sn required localNode pin) (sn_nodes sn))
    (Held d l (Some occ) deg).
Proof.
  unfold decide_last. call. cbn [after]. destruct (Scheduler.Place _ _ _ _ _) as [[[pl err] hooks]|] eqn:E; [|stop; eexists; by split].
  apply (events_keep (op, spec)). intros deg' _ H2. stop. exists deg'. split; [done|]. intros pl' Hr Hin.
  destruct err as [e|]; [done|]. injection Hr as <-. apply H2. by eapply chosen_occupied.
Qed.

Lemma elect_keeps deg :
  keeps (op, spec) (elected d l occ) (elect format_f6 placer op spec excluded sn required localNode) (Held d l (Some occ) deg).
Proof.
  unfold elect. destruct (dispatchPin _ _ _) as [pin rehome]. apply (keeps_bind _ (fun _ g => exists deg, g = Held d l (Some occ) deg)).
  { destruct (String.eqb rehome ""); [stop; eauto|]. call. stop. eauto. }
  intros _ g [deg' ->]. destruct (String.eqb pin ""); [apply decide_last_keeps|]. call. cbn [after].
  destruct (Scheduler.Place _ _ _ _ _) as [[[pl [e|]] hooks]|] eqn:E; [| |stop; eexists; by split].
  - apply (events_keep (op, spec)). intros deg2 _ _. destruct (has_prefix _ _).
    + call. stop. eexists. by split.
    + call. cbn [after]. apply decide_last_keeps.
  - apply (events_keep (op, spec)). intros deg2 _ H2. stop. exists deg2. split; [done|]. intros pl' [= <-] Hin. apply H2. by eapply chosen_occupied.
Qed.
End election.

Lemma check_quota_keeps lab project g : keeps lab (fun _ g' => g' = g) (check_quota project) g.
Proof.
  unfold check_quota. repeat (call; cbn [after]; try match goal with b : res _ |- _ => destruct b end; try (by stop);
    try match goal with |- keeps _ _ (if ?b then _ else _) _ => destruct b end; try (by stop)).
Qed.

Lemma reserve_keeps placer op spec sn nodeID l occ deg :
  (nodeID ∈ occ -> deg = true) ->
  keeps (op, spec) (fun _ g => holding (ps_DeploymentId spec) l g) (reserve text placer op spec sn nodeID)
    (Held (ps_DeploymentId spec) l (Some occ) deg).
Proof.
  intros Hn. unfold reserve. destruct (find_chosen nodeID (sn_live sn)) as [[chosen cap]|e] eqn:Hf; [|stop; unfold holding; eauto].
  apply find_chosen_ok in Hf as (_ & Hid & _). eapply keeps_bind; [apply check_quota_keeps|].
  intros r g ->. destruct r as [q|e]; [|stop; unfold holding; eauto].
  call. cbn [after]. match goal with b : res unit |- _ => destruct b end; [|call; stop; unfold holding; eauto].
  unfold commitDispatch. cbn [pbind]. call; [split; [done|]; do 3 eexists; split; [done|]; by rewrite Hid|].
  cbn [after]. match goal with b : res unit |- _ => destruct b end; cbn [pbind]; [stop; unfold holding; by eauto|].
  call. cbn [after pbind]. stop. unfold holding. eauto.
Qed.

Lemma place_unlocked_keeps placer op spec excluded l :
  needLock spec = true ->
  keeps (op, spec) (fun _ g => holding (ps_DeploymentId spec) l g)
    (place_unlocked codec unicode_lower text format_f6 placer op spec excluded) (Held (ps_DeploymentId spec) l None false).
Proof.
  intros Hlock. unfold place_unlocked. eapply keeps_bind; [apply snapshot_keeps|]. intros [sn|e] g Hg; [|by stop].
  destruct Hg as (inflight & -> & Hocc). eapply keeps_bind; [apply requirements_keeps|]. intros [[required localNode]|e] g ->; [|stop; unfold holding; eauto].
  eapply keeps_bind; [by apply elect_keeps|]. intros [pl|e] g (deg & -> & Hpl); [|stop; unfold holding; eauto].
  apply reserve_keeps. by apply Hpl.
Qed.

Lemma Place_keeps placer op spec excluded :
  needLock spec = true ->
  keeps (op, spec) (fun _ g => g = Out) (Place codec unicode_lower text format_f6 placer op spec excluded) Out.
Proof.
  intros Hlock. unfold Place. rewrite Hlock. unfold lockDeployment. call; [by split|]. cbn [after]. call; [by eexists|]. cbn [after].
  eapply keeps_bind; [by apply place_unlocked_keeps|]. intros r g (occ & deg & ->).
  call; [by do 3 eexists|]. cbn [after]. call. cbn [after]. by stop.
Qed.
End discipline.

(** ** Locks *)

Definition refers (d : string) (l : nat) (g : phase) : bool :=
  match g with
  | Out => false
  | Refd d' l' | Held d' l' _ _ | Dropped d' l' => String.eqb d' d && Nat.eqb l' l
  end.
Definition holds (l : nat) (g : phase) : bool := match g with Held _ l' _ _ => Nat.eqb l' l | _ => false end.
Definition count (p : phase -> bool) (gs : list phase) : Z := Z.of_nat (length (List.filter p gs)).

Lemma tally_app p gs gs' : count p (gs ++ gs') = count p gs + count p gs'.
Proof. unfold count. rewrite List.filter_app, length_app. lia. Qed.
Lemma count_cons p g gs : count p (g :: gs) = (if p g then 1 else 0) + count p gs.
Proof. unfold count. cbn. destruct (p g); cbn [length]; lia. Qed.
Lemma count_nonneg p gs : 0 <= count p gs.
Proof. unfold count. lia. Qed.
Lemma count_in p gs g : g ∈ gs -> p g = true -> 1 <= count p gs.
Proof.
  intros Hin Hp. apply list_elem_of_split in Hin as (l1 & l2 & ->). rewrite tally_app, count_cons, Hp.
  pose proof (count_nonneg p l1). pose proof (count_nonneg p l2). lia.
Qed.
Lemma count_zero p gs g : count p gs = 0 -> g ∈ gs -> p g = false.
Proof. intros Hz Hin. destruct (p g) eqn:E; [|done]. pose proof (count_in _ _ _ Hin E). lia. Qed.

(** The locks, against where the placements are: a reference is to the lock its
    deployment has now, the count of a lock covers its references, and a mutex that is
    held is held once. *)
Record locks_ok (lk : Locks) (gs : list phase) : Prop := mkLocksOk {
  lo_cells : forall l c, cells lk !! l = Some c -> (l < next_lock lk)%nat;
  lo_refs : forall d l, lock_of lk !! d = Some l -> exists held r, cells lk !! l = Some (held, r) /\ count (refers d l) gs <= r;
  lo_live : forall g d l, g ∈ gs -> refers d l g = true -> lock_of lk !! d = Some l;
  lo_inj : forall d d' l, lock_of lk !! d = Some l -> lock_of lk !! d' = Some l -> d = d';
  lo_held : forall l, count (holds l) gs <= match cells lk !! l with Some (true, _) => 1 | _ => 0 end }.

Lemma refers_self d l g : refers d l g = true -> (exists occ deg, g = Held d l occ deg) \/ g = Refd d l \/ g = Dropped d l.
Proof.
  destruct g as [|d' l'|d' l' occ deg|d' l']; [done|..]; cbn; intros [->%String.eqb_eq ->%Nat.eqb_eq]%andb_true_iff; eauto.
Qed.

(** Replacing one phase by another that refers to and holds the same. *)
Lemma locks_ok_same lk gs g g' gs' :
  locks_ok lk (gs ++ g :: gs') -> (forall d l, refers d l g' = refers d l g) -> (forall l, holds l g' = holds l g) ->
  locks_ok lk (gs ++ g' :: gs').
Proof.
  intros [Hc Hr Hl Hi Hh] Hrf Hhd. split; [done| |..|done|].
  - intros d l Hdl. destruct (Hr d l Hdl) as (held & r & Hcl & Hle). exists held, r. split; [done|].
    rewrite tally_app, count_cons in *. by rewrite Hrf.
  - intros x d l. rewrite elem_of_app, elem_of_cons. intros [Hx|[->|Hx]] Hx'.
    + apply (Hl x); [|done]. apply elem_of_app. by left.
    + apply (Hl g); [|by rewrite <- Hrf]. apply elem_of_app. right. by left.
    + apply (Hl x); [|done]. apply elem_of_app. right. by right.
  - intros l. specialize (Hh l). rewrite tally_app, count_cons in *. by rewrite Hhd.
Qed.

Lemma locks_ok_drop lk gs g gs' : locks_ok lk (gs ++ g :: gs') -> locks_ok lk (gs ++ gs').
Proof.
  intros [Hc Hr Hl Hi Hh]. split; [done| |..|done|].
  - intros d l Hdl. destruct (Hr d l Hdl) as (held & r & Hcl & Hle). exists held, r. split; [done|].
    rewrite tally_app, count_cons in *. destruct (refers d l g); lia.
  - intros x d l Hx. apply Hl. rewrite elem_of_app, elem_of_cons in *. tauto.
  - intros l. specialize (Hh l). rewrite tally_app, count_cons in *. destruct (holds l g); lia.
Qed.

Lemma locks_ok_add lk gs : locks_ok lk gs -> locks_ok lk (Out :: gs).
Proof.
  intros [Hc Hr Hl Hi Hh]. split; [done| |..|done|].
  - intros d l Hdl. rewrite count_cons. by apply Hr.
  - intros x d l [->|Hx]%elem_of_cons; [done|by apply Hl].
  - intros l. rewrite count_cons. by apply Hh.
Qed.

Lemma holds_refers d l occ deg : forall l', holds l' (Held d l occ deg) = Nat.eqb l l'.
Proof. done. Qed.

(** Two that hold the lock of a deployment are one. *)
Lemma held_once lk gs d l occ deg gs' g :
  locks_ok lk (gs ++ Held d l occ deg :: gs') -> g ∈ (gs ++ gs')%list -> forall l' occ' deg', g = Held d l' occ' deg' -> False.
Proof.
  intros [Hc Hr Hl Hi Hh] Hin l' occ' deg' ->.
  assert (lock_of lk !! d = Some l) as H1.
  { apply (Hl (Held d l occ deg)); [apply elem_of_app; right; by left|]. cbn. by rewrite String.eqb_refl, Nat.eqb_refl. }
  assert (lock_of lk !! d = Some l') as H2.
  { apply (Hl (Held d l' occ' deg')); [rewrite elem_of_app, elem_of_cons in *; tauto|]. cbn. by rewrite String.eqb_refl, Nat.eqb_refl. }
  assert (l' = l) as -> by congruence. specialize (Hh l). rewrite tally_app, count_cons, holds_refers, Nat.eqb_refl in Hh.
  assert (1 <= count (holds l) (gs ++ gs')%list) as Hone by (eapply count_in; [exact Hin|cbn; apply Nat.eqb_refl]).
  rewrite tally_app in Hone. destruct (cells lk !! l) as [[[] r]|]; lia.
Qed.

Lemma refs_change p gs (g g' : phase) gs' : count p (gs ++ g' :: gs') = count p (gs ++ g :: gs') + (if p g' then 1 else 0) - (if p g then 1 else 0).
Proof. rewrite !tally_app, !count_cons. lia. Qed.

Lemma live_change (m : gmap string nat) gs g g' gs' d0 l0 :
  (forall x d l, x ∈ (gs ++ g :: gs')%list -> refers d l x = true -> m !! d = Some l) ->
  (forall d l, refers d l g' = true -> d = d0 /\ l = l0) -> m !! d0 = Some l0 ->
  forall x d l, x ∈ (gs ++ g' :: gs')%list -> refers d l x = true -> m !! d = Some l.
Proof.
  intros Hl Hg' H0 x d l. rewrite elem_of_app, elem_of_cons. intros [Hx|[->|Hx]] Hr.
  - eapply Hl; [apply elem_of_app; by left|done].
  - by destruct (Hg' _ _ Hr) as [-> ->].
  - eapply Hl; [apply elem_of_app; right; by right|done].
Qed.

Lemma refers_inv d0 l0 (g : phase) : (g = Refd d0 l0 \/ (exists occ deg, g = Held d0 l0 occ deg) \/ g = Dropped d0 l0) ->
  forall d l, refers d l g = String.eqb d0 d && Nat.eqb l0 l.
Proof. by intros [->|[(occ & deg & ->)| ->]]. Qed.

Lemma refers_one d0 l0 (g : phase) : (g = Refd d0 l0 \/ (exists occ deg, g = Held d0 l0 occ deg) \/ g = Dropped d0 l0) ->
  forall d l, refers d l g = true -> d = d0 /\ l = l0.
Proof. intros Hg d l. rewrite (refers_inv d0 l0 g Hg). intros [->%String.eqb_eq ->%Nat.eqb_eq]%andb_true_iff. done. Qed.

Lemma locks_ref lk gs gs' d : locks_ok lk (gs ++ Out :: gs') -> locks_ok (lock_ref d lk).1 (gs ++ Refd d (lock_ref d lk).2 :: gs').
Proof.
  intros [Hc Hr Hl Hi Hh]. unfold lock_ref. destruct (lock_of lk !! d) as [l|] eqn:Hd; cbn [fst snd].
  - destruct (Hr d l Hd) as (held & r & Hcl & Hle). split; cbn.
    + intros l' c. rewrite lookup_alter_Some. intros [(<- & c' & Hc' & _)|[_ Hc']]; eauto.
    + intros d' l' Hd'. rewrite (refs_change _ _ Out (Refd d l)), (refers_inv d l) by tauto. cbn [refers].
      destruct (decide (l' = l)) as [->|Hne].
      * assert (d' = d) as -> by (by eapply Hi). rewrite lookup_alter_eq, Hcl, String.eqb_refl, Nat.eqb_refl. cbn. eexists _, _. split; [done|]. lia.
      * rewrite lookup_alter_ne by done. destruct (Hr d' l' Hd') as (h' & r' & Hc' & Hle'). exists h', r'. split; [done|].
        apply Nat.eqb_neq in Hne. rewrite (Nat.eqb_sym l l'), Hne, andb_false_r. lia.
    + eapply (live_change _ _ Out); [exact Hl| |exact Hd]. apply refers_one. by left.
    + done.
    + intros l'. rewrite (refs_change _ _ Out). cbn [holds]. specialize (Hh l'). destruct (decide (l' = l)) as [->|Hne].
      * rewrite lookup_alter_eq, Hcl. rewrite Hcl in Hh. cbn. destruct held; lia.
      * rewrite lookup_alter_ne by done. lia.
  - set (l := next_lock lk). assert (Hfresh : cells lk !! l = None).
    { destruct (cells lk !! l) as [c|] eqn:E; [|done]. specialize (Hc _ _ E). unfold l in Hc. lia. }
    assert (Hno : forall d', lock_of lk !! d' <> Some l).
    { intros d' Hd'. destruct (Hr d' l Hd') as (? & ? & E & _). by rewrite Hfresh in E. }
    split; cbn.
    + intros l' c [[<- _]|[_ Hc']]%lookup_insert_Some; [lia|]. specialize (Hc _ _ Hc'). lia.
    + intros d' l' [[<- <-]|[Hne Hd']]%lookup_insert_Some; rewrite (refs_change _ _ Out (Refd d l)), (refers_inv d l) by tauto; cbn [refers].
      * rewrite lookup_insert_eq, String.eqb_refl, Nat.eqb_refl. cbn. eexists _, _. split; [done|].
        assert (count (refers d l) (gs ++ Out :: gs') = 0) as ->; [|lia].
        destruct (decide (count (refers d l) (gs ++ Out :: gs') = 0)) as [|Hnz]; [done|]. exfalso.
        assert (exists x, x ∈ (gs ++ Out :: gs')%list /\ refers d l x = true) as (x & Hx & Hrx).
        { unfold count in Hnz. destruct (List.filter (refers d l) (gs ++ Out :: gs')) as [|x xs] eqn:E; [done|]. exists x.
          rewrite list_elem_of_In. apply filter_In. rewrite E. by left. }
        by rewrite (Hl x d l Hx Hrx) in Hd.
      * assert (l' <> l) as Hll by (intros ->; by apply (Hno d')). rewrite lookup_insert_ne by done.
        destruct (Hr d' l' Hd') as (h' & r' & Hc' & Hle'). exists h', r'. split; [done|].
        apply String.eqb_neq in Hne. rewrite Hne. cbn. lia.
    + eapply (live_change _ _ Out); [|apply refers_one; by left|apply lookup_insert_eq].
      intros x d' l' Hx Hrx. specialize (Hl x d' l' Hx Hrx). rewrite lookup_insert_ne; [done|]. intros ->. congruence.
    + intros d1 d2 l' [[<- <-]|[Hn1 H1]]%lookup_insert_Some [[<- Hl2]|[Hn2 H2]]%lookup_insert_Some; [done|..|by eapply Hi].
      * exfalso. by eapply Hno.
      * exfalso. subst l'. by eapply Hno.
    + intros l'. rewrite (refs_change _ _ Out). cbn [holds]. specialize (Hh l'). destruct (decide (l' = l)) as [->|Hne].
      * rewrite lookup_insert_eq. rewrite Hfresh in Hh. lia.
      * rewrite lookup_insert_ne by done. lia.
Qed.

(** Taking and giving back the mutex; [g'] refers to what [g] refers to. *)
Lemma locks_mutex held lk gs g g' gs' l :
  locks_ok lk (gs ++ g :: gs') -> (forall d l, refers d l g' = refers d l g) ->
  (forall l', holds l' g = negb held && Nat.eqb l l') -> (forall l', holds l' g' = held && Nat.eqb l l') ->
  (if held then mutex_free l lk = true else True) ->
  locks_ok (set_mutex held l lk) (gs ++ g' :: gs').
Proof.
  intros [Hc Hr Hl Hi Hh] Href Hg Hg' Hfree. split; cbn.
  - intros l' c. rewrite lookup_alter_Some. intros [(<- & c' & Hc' & _)|[_ Hc']]; eauto.
  - intros d' l' Hd'. rewrite (refs_change _ _ g g'), Href. destruct (Hr d' l' Hd') as (h' & r' & Hc' & Hle').
    destruct (decide (l' = l)) as [->|Hne]; [rewrite lookup_alter_eq, Hc'; cbn|rewrite lookup_alter_ne, Hc' by done];
      eexists _, _; (split; [done|]); destruct (refers d' _ g); lia.
  - intros x d l'. rewrite elem_of_app, elem_of_cons. intros [Hx|[->|Hx]] Hrx.
    + eapply Hl; [apply elem_of_app; by left|done].
    + rewrite Href in Hrx. eapply Hl; [apply elem_of_app; right; by left|done].
    + eapply Hl; [apply elem_of_app; right; by right|done].
  - done.
  - intros l'. rewrite (refs_change _ _ g g'), Hg, Hg'. specialize (Hh l'). destruct (decide (l' = l)) as [->|Hne].
    + rewrite lookup_alter_eq, Nat.eqb_refl. unfold mutex_free in Hfree. destruct (cells lk !! l) as [[h r]|]; cbn in *.
      * destruct held; cbn in *; [destruct h; [done|]; lia|]. destruct h; lia.
      * destruct held; cbn in *; [done|lia].
    + rewrite lookup_alter_ne by done. apply Nat.eqb_neq in Hne. rewrite (Nat.eqb_sym l l'), Hne, !andb_false_r. lia.
Qed.

Lemma locks_unref lk gs gs' d l : locks_ok lk (gs ++ Dropped d l :: gs') -> locks_ok (lock_unref d l lk) (gs ++ Out :: gs').
Proof.
  intros Hok. pose proof Hok as [Hc Hr Hl Hi Hh].
  assert (Hd : lock_of lk !! d = Some l).
  { apply (Hl (Dropped d l)); [apply elem_of_app; right; by left|]. cbn. by rewrite String.eqb_refl, Nat.eqb_refl. }
  destruct (Hr d l Hd) as (held & r & Hcl & Hle).
  set (lk1 := mkLocks (lock_of lk) (alter (fun c => (c.1, c.2 - 1)) l (cells lk)) (next_lock lk)).
  assert (locks_ok lk1 (gs ++ Out :: gs')) as Hok1.
  { split; cbn.
    - intros l' c. rewrite lookup_alter_Some. intros [(<- & c' & Hc' & _)|[_ Hc']]; eauto.
    - intros d' l' Hd'. rewrite (refs_change _ _ (Dropped d l) Out), (refers_inv d l (Dropped d l)) by tauto. cbn [refers].
      destruct (decide (l' = l)) as [->|Hne].
      + assert (d' = d) as -> by (by eapply Hi). rewrite lookup_alter_eq, Hcl, String.eqb_refl, Nat.eqb_refl. cbn. eexists _, _. split; [done|]. lia.
      + rewrite lookup_alter_ne by done. destruct (Hr d' l' Hd') as (h' & r' & Hc' & Hle'). exists h', r'. split; [done|].
        apply Nat.eqb_neq in Hne. rewrite (Nat.eqb_sym l l'), Hne, andb_false_r. lia.
    - intros x d' l'. rewrite elem_of_app, elem_of_cons. intros [Hx|[->|Hx]] Hrx; [|done|].
      + eapply Hl; [apply elem_of_app; by left|done].
      + eapply Hl; [apply elem_of_app; right; by right|done].
    - done.
    - intros l'. rewrite (refs_change _ _ (Dropped d l)). cbn [holds]. specialize (Hh l'). destruct (decide (l' = l)) as [->|Hne].
      + rewrite lookup_alter_eq, Hcl. rewrite Hcl in Hh. cbn. destruct held; lia.
      + rewrite lookup_alter_ne by done. lia. }
  unfold lock_unref. fold lk1. destruct (cells lk1 !! l) as [[h1 r1]|] eqn:E; [|done]. destruct (Z.eq_dec r1 0) as [->|Hnz]; [|by destruct r1].
  cbn in E. rewrite lookup_alter_eq, Hcl in E. cbn in E. injection E as <- Hr0.
  assert (Hz : count (refers d l) (gs ++ Out :: gs') = 0).
  { destruct (lo_refs _ _ Hok1 d l Hd) as (h & r' & Hx & Hle'). cbn in Hx. rewrite lookup_alter_eq, Hcl in Hx. cbn in Hx. injection Hx as <- <-.
    pose proof (count_nonneg (refers d l) (gs ++ Out :: gs')). lia. }
  destruct Hok1 as [Hc1 Hr1 Hl1 Hi1 Hh1]. split; cbn.
  - done.
  - intros d' l' [Hne Hd']%lookup_delete_Some. by apply Hr1.
  - intros x d' l' Hx Hrx. specialize (Hl1 x d' l' Hx Hrx). cbn in Hl1. rewrite lookup_delete_ne; [done|]. intros <-.
    assert (l' = l) as -> by congruence. by rewrite (count_zero _ _ _ Hz Hx) in Hrx.
  - intros d1 d2 l' [_ H1]%lookup_delete_Some [_ H2]%lookup_delete_Some. by eapply Hi.
  - done.
Qed.

(** ** Any number of placements *)

Section pool.
Context {json : Type} (codec : Codec json) (unicode_lower : string -> string) (text : goerr -> string)
        (format_f6 : float64 -> string) (size_field : json -> string -> option Z).
Abbreviation Operation := (Operations.Operation (json:=json)).
Abbreviation eff := (Placement.eff (json:=json)).
Abbreviation State := (Placement.State (json:=json)).
Abbreviation ev := (Placement.ev (json:=json)).
Abbreviation label := (Operation * PlaceSpec)%type.
Abbreviation Tables := (Capacity.Tables json).

(** The deployment looked at, and the deployment every operation is for, which does not change. *)
Context (D : string) (dep_of : string -> string).

(** The create [id] in flight was sent to [n], for a machine of [D]. *)
Definition sent (t : Tables) (id n : string) : Prop :=
  exists row m, row ∈ all_operations t /\ o_ID row = id /\ dispatched_create t row = Some (n, m) /\ m_DeploymentID (shape m) = D.

Definition base (t : Tables) : Prop :=
  keyed (db t) /\
  forall row m, row ∈ all_operations t -> creating row = true -> machine_of t row = Some m -> m_DeploymentID (shape m) = dep_of (o_ID row).

(** Placements that take the lock start at any time; everybody else - other placements,
    the dispatcher, observation, discovery - changes the state in any way that keeps the
    rows well-formed, leaves the locks alone and sends no create of [D] to a node. *)
Definition starts (lab : label) (p : Programs.prog eff (res Choice)) : Prop :=
  needLock lab.2 = true /\ dep_of (o_ID lab.1) = ps_DeploymentId lab.2 /\
  exists placer excluded, p = Place codec unicode_lower text format_f6 placer lab.1 lab.2 excluded.
Definition other (s s' : State) : Prop :=
  st_locks s' = st_locks s /\ base (st_tables s') /\ forall id n, sent (st_tables s') id n -> sent (st_tables s) id n.
Definition placement_step := pool_step (@event json) starts (@acts json size_field) other.

Definition degraded_recorded (lab : label) (h : list (label * ev)) : Prop :=
  (lab, EvRecorded (o_ID lab.1) "placement" "" (Scheduler.EReason Scheduler.degraded)) ∈ h.

Definition ok_ghost (t : Tables) (h : list (label * ev)) (lg : label * phase) : Prop :=
  match lg.2 with
  | Held d _ occ deg =>
      (deg = true -> degraded_recorded lg.1 h) /\
      match occ with Some occ => d = D -> forall id n, sent t id n -> id <> o_ID lg.1.1 -> n ∈ occ | None => True end
  | _ => True
  end.

Record pool_ok (s : State) (gs : list (label * phase)) (h : list (label * ev)) : Prop := mkPoolOk {
  po_base : base (st_tables s);
  po_locks : locks_ok (st_locks s) (map snd gs);
  po_ghosts : Forall (ok_ghost (st_tables s) h) gs }.

Definition disc (lp : label * Programs.prog eff (res Choice)) (lg : label * phase) : Prop :=
  lg.1 = lp.1 /\ dep_of (o_ID lp.1.1) = ps_DeploymentId lp.1.2 /\ keeps lp.1 (fun _ g => g = Out) lp.2 lg.2.

(** *** Calls that write neither locks nor tables *)

Definition touches {B} (c : eff B) : bool :=
  match c with LockRef _ | MuLock _ | MuUnlock _ | LockUnref _ _ | UpdateOperationDispatchNode _ _ => true | _ => false end.

Lemma perform_quiet env i {B} (c : eff B) s :
  touches c = false -> st_tables (perform size_field env i c s).1 = st_tables s /\ st_locks (perform size_field env i c s).1 = st_locks s.
Proof.
  destruct c; try done; intros _; cbn.
  - by destruct (command _ _ _).
  - by destruct (command _ _ _).
Qed.

Lemma after_quiet {B} (c : eff B) b g : touches c = false ->
  (forall d l, refers d l (after c b g) = refers d l g) /\ (forall l, holds l (after c b g) = holds l g).
Proof. destruct c; try done; intros _; try (by split); cbn; [destruct b|]; destruct g; by split. Qed.

Lemma ok_ghost_history t h h' lg : h ⊆ h' -> ok_ghost t h lg -> ok_ghost t h' lg.
Proof.
  intros Hs. unfold ok_ghost. destruct (lg.2) as [| |d l occ deg|]; try done. intros [H1 H2]. split; [|done]. intros Hd. apply Hs. by apply H1.
Qed.

Lemma ok_ghost_tables t t' h lg : (forall id n, sent t' id n -> sent t id n) -> ok_ghost t h lg -> ok_ghost t' h lg.
Proof.
  intros Hs. unfold ok_ghost. destruct (lg.2) as [| |d l occ deg|]; try done. intros [H1 H2]. split; [done|].
  destruct occ as [occ|]; [|done]. intros Hd id n Hn. apply H2; [done|]. by apply Hs.
Qed.

Lemma inflight_sent (t : Tables) id n : sent t id n -> n ∈ nodes_of D (inflight_nodes t).
Proof.
  intros (row & m & Hin & _ & Hd & Hm). apply elem_of_nodes_of. unfold inflight_nodes. apply list_elem_of_omap. exists row. split; [done|].
  rewrite Hd. cbn. by rewrite Hm.
Qed.

Lemma map_snd_middle (gs gs' : list (label * phase)) lg : map snd (gs ++ lg :: gs') = (map snd gs ++ lg.2 :: map snd gs')%list.
Proof. by rewrite map_app. Qed.

(** The phase a worker gets by a quiet call is justified. *)
Lemma ghost_quiet env i {B} (c : eff B) s lab g h :
  touches c = false -> allowed lab c g -> ok_ghost (st_tables s) h (lab, g) ->
  ok_ghost (st_tables s) (h ++ map (pair lab) (event c (perform size_field env i c s).2)) (lab, after c (perform size_field env i c s).2 g).
Proof.
  intros Ht Ha Hg. assert (Hmono : ok_ghost (st_tables s) (h ++ map (pair lab) (event c (perform size_field env i c s).2)) (lab, g)).
  { eapply ok_ghost_history; [|exact Hg]. intros x Hx. apply elem_of_app. by left. }
  destruct c; try done; cbn [after]; try exact Hmono.
  - destruct (perform size_field env i InflightNodes s).2 as [pairs|e] eqn:Hb; [|done].
    destruct g as [| |d l occ deg|]; try done. cbn. split; [done|]. intros -> id n Hn _. cbn in Hb.
    destruct (outcome env i); [|done..]. cbn in Hb. injection Hb as <-. by eapply inflight_sent.
  - destruct g as [| |d l occ deg|]; try done. destruct Hmono as [H1 H2]. split; [|done]. cbn [fst snd] in *.
    intros [Hd|Hk]%orb_true_iff; [by apply H1|]. unfold degraded_event in Hk. apply andb_true_iff in Hk as [[Hk Hn]%andb_true_iff Hr].
    apply String.eqb_eq in Hk, Hn, Hr. subst. cbn in Ha. subst. apply elem_of_app. right. by left.
Qed.

(** *** Recording a node *)

(** What the statement does to the creates in flight. *)
Lemma record_sent o now op node (t : Tables) id n :
  keyed (db t) ->
  let db' := (Operations.UpdateOperationDispatchNode o now op node (db t)).1 in
  sent (mkTables db' (volumes t) (attachments t) (quotas t)) id n -> sent t id n \/ (id = op /\ n = node /\
    exists row m, row ∈ all_operations t /\ o_ID row = op /\ creating row = true /\ machine_of t row = Some m /\ m_DeploymentID (shape m) = D).
Proof.
  intros Hk. cbv zeta. unfold Operations.UpdateOperationDispatchNode, update_op.
  assert (Hset : forall f : Operation -> Operation, (forall r, in_flight (o_Status r) = true -> f r = dispatched now node r) ->
    (forall r, in_flight (o_Status r) = false -> f r = r) ->
    sent (mkTables (set_op f op (db t)) (volumes t) (attachments t) (quotas t)) id n ->
    sent t id n \/ (id = op /\ n = node /\
      exists row m, row ∈ all_operations t /\ o_ID row = op /\ creating row = true /\ machine_of t row = Some m /\ m_DeploymentID (shape m) = D)).
  { intros f Hf1 Hf2 (row & m & Hin & Hid & Hd & Hm). apply elem_of_operations in Hin as (k & Hrow). cbn in Hrow.
    assert (Hmo : forall r, machine_of (mkTables (set_op f op (db t)) (volumes t) (attachments t) (quotas t)) r = machine_of t r) by done.
    apply lookup_alter_Some in Hrow as [(-> & row0 & Hrow0 & ->)|[Hne Hrow]].
    - assert (row0 ∈ all_operations t) as Hin0 by (apply elem_of_operations; eauto). pose proof (k_ops _ Hk _ _ Hrow0) as Hid0.
      destruct (in_flight (o_Status row0)) eqn:Hfl.
      + rewrite (Hf1 row0 Hfl) in *. cbn in Hid. right. unfold dispatched_create in Hd. unfold creating in Hd. cbn in Hd.
        destruct (String.eqb (o_Kind row0) "create") eqn:Hkind; [|done]. rewrite Hfl in Hd. cbn in Hd.
        destruct (negb (String.eqb node "")) eqn:Hnode; [|done]. cbn in Hd. unfold machine_of in Hd. cbn in Hd.
        destruct (machines (db t) !! o_MachineID row0) as [m0|] eqn:Hm0; [|done]. cbn in Hd. injection Hd as <- <-. split; [congruence|]. split; [done|].
        exists row0, m0. split_and!; try done. unfold creating. by rewrite Hkind, Hfl.
      + rewrite (Hf2 row0 Hfl) in *. left. exists row0, m. split; [done|]. split; [done|]. split; [|done]. unfold dispatched_create in *. by rewrite Hmo in Hd.
    - left. exists row, m. split; [apply elem_of_operations; eauto|]. split; [done|]. split; [|done]. unfold dispatched_create in *. by rewrite Hmo in Hd. }
  assert (Hthis : forall r : Operation, in_flight (o_Status r) = true -> (if in_flight (o_Status r) then dispatched now node r else r) = dispatched now node r) by (by intros r ->).
  assert (Hother : forall r : Operation, in_flight (o_Status r) = false -> (if in_flight (o_Status r) then dispatched now node r else r) = r) by (by intros r ->).
  destruct o; cbn [cmd_exec fst]; [by apply Hset|intros H; left; destruct t; exact H|by apply Hset].
Qed.

Lemma record_base o now op node (t : Tables) :
  base t -> base (mkTables (Operations.UpdateOperationDispatchNode o now op node (db t)).1 (volumes t) (attachments t) (quotas t)).
Proof.
  intros [Hk Hd]. split.
  { assert (keyed (set_op (fun r => if in_flight (o_Status r) then dispatched now node r else r) op (db t))) as H
      by (destruct Hk as [H1 H2 H3]; split; [|done|done]; cbn; intros id r [(-> & r0 & Hr0 & ->)|[_ Hr]]%lookup_alter_Some;
          [specialize (H1 _ _ Hr0); by destruct (in_flight _)|by apply H1]).
    by destruct o. }
  assert (Hset : forall row m, row ∈ all_operations (mkTables (set_op (fun r => if in_flight (o_Status r) then dispatched now node r else r) op (db t)) (volumes t) (attachments t) (quotas t)) ->
    creating row = true -> machine_of t row = Some m -> m_DeploymentID (shape m) = dep_of (o_ID row)).
  { intros row m Hin Hc Hm. apply elem_of_operations in Hin as (k & Hrow). cbn in Hrow.
    apply lookup_alter_Some in Hrow as [(-> & row0 & Hrow0 & ->)|[Hne Hrow]]; [|apply Hd; [apply elem_of_operations; eauto|done..]].
    assert (row0 ∈ all_operations t) as Hin0 by (apply elem_of_operations; eauto).
    destruct (in_flight (o_Status row0)) eqn:Hfl; [|by apply Hd]. cbn in Hc, Hm |- *. by apply (Hd row0). }
  intros row m Hin Hc Hm. destruct o; cbn in Hin; [by apply Hset|destruct t; by apply Hd|by apply Hset].
Qed.

(** *** Every call *)

Lemma keeps_call lab {A B} (post : A -> phase -> Prop) (c : eff B) k g b :
  keeps lab post (Do c k) g -> allowed lab c g /\ keeps lab post (k b) (after c b g).
Proof. intros [Ha Hk]. split; [done|]. by apply Hk. Qed.

Lemma ghosts_split t h gs lg gs' : Forall (ok_ghost t h) (gs ++ lg :: gs') <-> Forall (ok_ghost t h) gs /\ ok_ghost t h lg /\ Forall (ok_ghost t h) gs'.
Proof. by rewrite Forall_app, Forall_cons. Qed.

Lemma grow t h x gs : Forall (ok_ghost t h) gs -> Forall (ok_ghost t (h ++ x)) gs.
Proof. intros H. eapply Forall_impl; [exact H|]. intros lg. apply ok_ghost_history. intros y Hy. apply elem_of_app. by left. Qed.

Lemma pool_ok_call lab B (c : eff B) k s s' b gs g gs' h :
  acts size_field B c s s' b -> disc (lab, Do c k) (lab, g) -> pool_ok s (gs ++ (lab, g) :: gs') h ->
  disc (lab, k b) (lab, after c b g) /\
  pool_ok s' (gs ++ (lab, after c b g) :: gs') (h ++ map (pair lab) (event c b)).
Proof.
  intros (Hready & env & i & Hp) (_ & Hdep & Hkeep) [Hb Hl Hg]. apply (keeps_call _ _ _ _ _ b) in Hkeep as [Ha Hkeep]. split; [by split|].
  assert (s' = (perform size_field env i c s).1 /\ b = (perform size_field env i c s).2) as [-> ->] by (by rewrite Hp). clear Hp.
  rewrite map_snd_middle in Hl. cbn [snd] in Hl. apply ghosts_split in Hg as (Hg1 & Hg0 & Hg2).
  destruct (touches c) eqn:Ht.
  - destruct c; try done; cbn [perform event map fst snd] in *; rewrite ?app_nil_r.
    + (* LockRef *) destruct Ha as [-> ->]. pose proof (locks_ref _ _ _ (ps_DeploymentId lab.2) Hl) as Hl'. destruct (lock_ref _ _) as [lk l] eqn:E.
      cbn [fst snd] in *. rewrite ?app_nil_r. split; [done| |].
      * rewrite map_snd_middle. exact Hl'.
      * by apply ghosts_split.
    + (* MuLock *) destruct Ha as [d ->]. cbn [fst snd after]. split; [done| |by apply ghosts_split].
      rewrite map_snd_middle. cbn. apply (locks_mutex true _ _ (Refd d l)); try done.
    + (* MuUnlock *) destruct Ha as (d & occ & deg & ->). cbn [fst snd after]. split; [done| |by apply ghosts_split].
      rewrite map_snd_middle. cbn. by apply (locks_mutex false _ _ (Held d l occ deg)).
    + (* LockUnref *) cbn in Ha. subst g. cbn [fst snd after]. split; [done| |by apply ghosts_split].
      rewrite map_snd_middle. cbn. by apply locks_unref.
    + (* UpdateOperationDispatchNode *) destruct Ha as (-> & l & occ & deg & -> & _).
      pose proof (record_base (outcome env i) (clock env i) (o_ID lab.1) nodeID _ Hb) as Hb'.
      pose proof (fun id n => record_sent (outcome env i) (clock env i) (o_ID lab.1) nodeID (st_tables s) id n (proj1 Hb)) as Hsent.
      cbv zeta in Hsent. destruct (Operations.UpdateOperationDispatchNode _ _ _ _ _) as [db' r]. cbn [fst snd] in *.
      assert (Hothers : forall l0, Forall (ok_ghost (st_tables s) h) l0 -> (forall x, x ∈ l0 -> x ∈ (gs ++ gs')%list) ->
        Forall (ok_ghost (mkTables db' (volumes (st_tables s)) (attachments (st_tables s)) (quotas (st_tables s))) h) l0).
      { intros l0 H0 Hin. apply Forall_forall. intros [lab2 g2] Hx. rewrite Forall_forall in H0. specialize (H0 _ Hx). specialize (Hin _ Hx).
        unfold ok_ghost in *. cbn in *. destruct g2 as [| |d2 l2 occ2 deg2|]; try done. destruct H0 as [H1 H2]. split; [done|].
        destruct occ2 as [occ2|]; [|done]. intros Hd2 id n Hs Hne. destruct (Hsent id n Hs) as [Hold|(-> & -> & row & m & Hr & Hrid & Hc & Hm & HD)]; [by eapply H2|].
        exfalso. assert (ps_DeploymentId lab.2 = D) as HdD. { rewrite <- HD, (proj2 Hb row m Hr Hc Hm), Hrid. symmetry. exact Hdep. }
        rewrite HdD in Hl. rewrite Hd2 in Hin. eapply (held_once _ _ D l _ _ _ (Held D l2 (Some occ2) deg2) Hl); [|done].
        rewrite <- map_app. apply list_elem_of_fmap. by exists (lab2, Held D l2 (Some occ2) deg2). }
      split; [done| |].
      * rewrite map_snd_middle. cbn. eapply locks_ok_same; [exact Hl|done|done].
      * apply ghosts_split. split; [|split].
        -- apply grow, Hothers; [done|]. intros x Hx. apply elem_of_app. by left.
        -- cbn in Hg0 |- *. destruct Hg0 as [H1 _]. split; [|done]. intros Hd. specialize (H1 Hd). unfold degraded_recorded in *. apply elem_of_app. by left.
        -- apply grow, Hothers; [done|]. intros x Hx. apply elem_of_app. by right.
  - destruct (perform_quiet env i c s Ht) as [Htab Hlk]. destruct (after_quiet c (perform size_field env i c s).2 g Ht) as [Hr Hh].
    split; [by rewrite Htab| |].
    + rewrite Hlk, map_snd_middle. cbn [snd]. by eapply locks_ok_same.
    + rewrite Htab. apply ghosts_split. split; [by apply grow|]. split; [by apply ghost_quiet|by apply grow].
Qed.

Lemma placements_reachable s q :
  base (st_tables s) -> st_locks s = no_locks -> rtc placement_step (mkPool s [] []) q ->
  exists gs, Forall2 disc (workers q) gs /\ pool_ok (tables q) gs (history q).
Proof.
  intros Hb Hl Hs. eapply pool_invariant; [..|exact Hs|].
  - intros lab p s1 gs h (Hlock & Hdep & placer & excluded & ->) [Hb1 Hl1 Hg1]. exists (lab, Out). split.
    + split; [done|]. split; [done|]. destruct lab as [op spec]. by apply Place_keeps.
    + split; [done|by apply locks_ok_add|]. by constructor.
  - intros lab B c k s1 s2 b gs [lab' g] gs' h Ha Hd Hi. assert (lab' = lab) as -> by (by destruct Hd).
    exists (lab, after c b g). by eapply pool_ok_call.
  - intros s1 gs [lab g] gs' h [Hb1 Hl1 Hg1]. rewrite map_snd_middle in Hl1. apply ghosts_split in Hg1 as (H1 & _ & H2). split; [done| |].
    + rewrite map_app. by eapply locks_ok_drop.
    + by apply Forall_app.
  - intros s1 s2 gs h (Hlk & Hb2 & Hsent) [Hb1 Hl1 Hg1]. split; [done|by rewrite Hlk|].
    eapply Forall_impl; [exact Hg1|]. intros lg. by apply ok_ghost_tables.
  - exists []. split; [constructor|]. split; [done| |constructor]. cbn. rewrite Hl. split; cbn.
    + intros l c. by rewrite lookup_empty.
    + intros d l. by rewrite lookup_empty.
    + intros g d l Hg. by apply not_elem_of_nil in Hg.
    + intros d d' l. by rewrite lookup_empty.
    + intros l. rewrite lookup_empty. done.
Qed.

(** C19. In the process that holds the locks, and while nobody else - another leader, a
    placement that takes no lock - sends a create of the deployment to a node: however
    placements that take the lock of their deployment interleave with each other and with
    all other changes of the state, fail or die, when one of them is about to record a
    node to which another create of the deployment that is still in flight has been sent,
    it has recorded before that no candidate was outside the nodes of the deployment it
    read. Creates that are no longer in flight are not covered: one that completes between
    the two readings of the nodes is seen by neither ([Witness.handover_is_missed]). *)
Theorem doubling_is_announced s q lab op node k ws ws' id :
  base (st_tables s) -> st_locks s = no_locks -> rtc placement_step (mkPool s [] []) q ->
  workers q = (ws ++ (lab, Do (UpdateOperationDispatchNode op node) k) :: ws')%list -> ps_DeploymentId lab.2 = D ->
  sent (st_tables (tables q)) id node -> id <> op -> op = o_ID lab.1 /\ degraded_recorded lab (history q).
Proof.
  intros Hb Hl Hs Hw Hdep Hsent Hne. destruct (placements_reachable s q Hb Hl Hs) as (gs & Hd & [_ _ Hg]). rewrite Hw in Hd.
  apply Forall2_app_inv_l in Hd as (gs1 & gs2 & _ & Hd & ->). apply Forall2_cons_inv_l in Hd as ([lab' g] & gs3 & (Hlab & _ & Hk) & _ & ->).
  cbn in Hlab. subst lab'. destruct Hk as [(Hop & l & occ & deg & Hgeq & Hocc) _]. cbn in Hop, Hgeq. subst g. split; [done|].
  apply ghosts_split in Hg as (_ & [H1 H2] & _). cbn [fst snd] in *. apply H1, Hocc, (H2 Hdep id); [done|congruence].
Qed.

(** *** Running some of the workers *)

(** The next calls of a program, as long as it is not blocked. *)
Fixpoint advance (env : Env) (n i : nat) (p : Programs.prog eff (res Choice)) (s : State) : option (State * Programs.prog eff (res Choice) * list ev) :=
  match n, p with
  | S n, Do c k =>
      if ready c s then
        let '(s', b) := perform size_field env i c s in
        match advance env n (S i) (k b) s' with
        | Some (s2, p', t) => Some (s2, p', (event c b ++ t)%list)
        | None => None
        end
      else None
  | _, _ => Some (s, p, [])
  end.

Lemma advance_steps env n i p s s' p' t lab ws h :
  advance env n i p s = Some (s', p', t) ->
  rtc placement_step (mkPool s ((lab, p) :: ws) h) (mkPool s' ((lab, p') :: ws) (h ++ map (pair lab) t)).
Proof.
  revert i p s t h. induction n as [|n IH]; intros i p s t h; cbn; [intros [= <- <- <-]; rewrite app_nil_r; constructor|].
  destruct p as [a|B c k]; [intros [= <- <- <-]; rewrite app_nil_r; constructor|].
  destruct (ready c s) eqn:Hr; [|done]. destruct (perform size_field env i c s) as [s1 b] eqn:Hp.
  destruct (advance env n (S i) (k b) s1) as [[[s2 p2] t2]|] eqn:Ha; [|done]. intros [= <- <- <-].
  eapply rtc_l; [|rewrite map_app, app_assoc; by eapply IH].
  apply (pool_call _ _ (acts size_field) _ lab B c k s s1 b [] ws h). split; [done|]. by exists env, i.
Qed.
End pool.

(** ** Concrete placements *)

Module Witness.
Import Placement.Witness.

Definition one : list Node := [node "n1" 16000].
Definition dep1 (_ : string) : string := "dep1".
Definition lab (id machine execution : string) : Operations.Operation (json:=nat) * PlaceSpec := (claimed_op id machine execution "", spec).
Definition start (id machine execution : string) := place id machine execution "" ∅.

(** The first runs to its end, the second up to the call that records its node. *)
Definition first := advance size_field env 100 0 (start "op-1" "m1" "exec-1") (state one).
Definition after_first : Placement.State (json:=nat) := from_option (fun x => x.1.1) (state one) first.
Definition second := advance size_field env 18 100 (start "op-2" "m2" "exec-2") after_first.

Lemma rows_ok : base dep1 (st_tables (state one)).
Proof.
  assert (Hall : forallb (fun kv : string * Operations.Operation (json:=nat) => String.eqb (o_ID kv.2) kv.1)
                   (map_to_list (operations (db (st_tables (state one))))) &&
                 forallb (fun kv : string * Machine (json:=nat) => String.eqb (m_ID (shape kv.2)) kv.1 && String.eqb (m_DeploymentID (shape kv.2)) "dep1")
                   (map_to_list (machines (db (st_tables (state one))))) = true) by (vm_compute; reflexivity).
  apply andb_true_iff in Hall as [Ho Hm]. rewrite forallb_forall in Ho, Hm. split; [split|].
  - intros id op Hop%elem_of_map_to_list%list_elem_of_In. specialize (Ho _ Hop). by apply String.eqb_eq in Ho.
  - intros id m Hx%elem_of_map_to_list%list_elem_of_In. specialize (Hm _ Hx). apply andb_true_iff in Hm as [Hid _]. by apply String.eqb_eq in Hid.
  - intros k l Hl. vm_compute in Hl. by destruct k.
  - intros row m _ _ Hx. unfold machine_of in Hx. apply elem_of_map_to_list, list_elem_of_In in Hx. specialize (Hm _ Hx).
    apply andb_true_iff in Hm as [_ Hd]. by apply String.eqb_eq in Hd.
Qed.

(** Where the two are then. *)
Lemma second_next : match second with Some (_, Do (UpdateOperationDispatchNode op n) _, _) => (op, n) | _ => ("", "") end = ("op-2", "n1").
Proof. vm_compute. reflexivity. Qed.
Lemma first_sent :
  match second with
  | Some (s, _, _) => match operations (db (st_tables s)) !! "op-1" with
                      | Some row => match dispatched_create (st_tables s) row with
                                    | Some (n, m) => String.eqb n "n1" && String.eqb (m_DeploymentID (shape m)) "dep1" && String.eqb (o_ID row) "op-1"
                                    | None => false
                                    end
                      | None => false
                      end
  | None => false
  end = true.
Proof. vm_compute. reflexivity. Qed.

Lemma starts_ok id machine execution : starts codec same text fmt dep1 (lab id machine execution) (start id machine execution).
Proof. split; [done|]. split; [done|]. by do 2 eexists. Qed.

(** There is only one node: the second create is about to be sent to it too, and has said so. *)
Lemma doubling_is_announced_witness :
  exists q k ws, rtc (placement_step codec same text fmt size_field "dep1" dep1) (mkPool (state one) [] []) q /\
    workers q = (lab "op-2" "m2" "exec-2", Do (UpdateOperationDispatchNode "op-2" "n1") k) :: ws /\
    degraded_recorded (lab "op-2" "m2" "exec-2") (history q).
Proof.
  pose proof second_next as Hnext. pose proof first_sent as Hsent. unfold second in *.
  destruct first as [[[sa pa] ta]|] eqn:Hf; [|by vm_compute in Hf].
  assert (Hsa : after_first = sa) by (unfold after_first; by rewrite Hf). rewrite Hsa in *.
  destruct (advance size_field env 18 100 (start "op-2" "m2" "exec-2") sa) as [[[sb pb] tb]|] eqn:Hs; [|discriminate Hnext].
  assert (Hpb : exists k, pb = Do (UpdateOperationDispatchNode "op-2" "n1") k).
  { destruct pb as [a|B c k]; [discriminate Hnext|]. destruct c; try discriminate Hnext. injection Hnext as -> ->. by eexists. }
  destruct Hpb as [k ->]. clear Hnext.
  set (w1 := (lab "op-1" "m1" "exec-1", pa)). set (h1 := ([] ++ map (pair (lab "op-1" "m1" "exec-1")) ta)%list).
  pose proof (advance_steps codec same text fmt size_field "dep1" dep1 env 100 0 _ _ _ _ _ (lab "op-1" "m1" "exec-1") [] [] Hf) as H2.
  pose proof (advance_steps codec same text fmt size_field "dep1" dep1 env 18 100 _ _ _ _ _ (lab "op-2" "m2" "exec-2") [w1] h1 Hs) as H4.
  set (q := mkPool sb _ _) in H4.
  assert (Hq : rtc (placement_step codec same text fmt size_field "dep1" dep1) (mkPool (state one) [] []) q).
  { eapply rtc_l; [apply pool_start, (starts_ok "op-1" "m1" "exec-1")|]. etrans; [exact H2|].
    eapply rtc_l; [apply pool_start, (starts_ok "op-2" "m2" "exec-2")|]. exact H4. }
  exists q, k, [w1]. split; [exact Hq|]. split; [reflexivity|].
  destruct (operations (db (st_tables sb)) !! "op-1") as [row|] eqn:Hrow; [|discriminate Hsent].
  destruct (dispatched_create (st_tables sb) row) as [[n m]|] eqn:Hd; [|discriminate Hsent].
  apply andb_true_iff in Hsent as [[->%String.eqb_eq Hm%String.eqb_eq]%andb_true_iff Hid%String.eqb_eq].
  refine (proj2 (doubling_is_announced codec same text fmt size_field "dep1" dep1 (state one) q (lab "op-2" "m2" "exec-2") "op-2" "n1" k
           [] [w1] "op-1" _ _ _ _ _ _ _)); [exact rows_ok|reflexivity|exact Hq|reflexivity|reflexivity| |discriminate].
  exists row, m. split; [apply elem_of_operations; by exists "op-1"|]. by split_and!.
Defined.

(** A defect: the nodes of a deployment are read by two statements, the machines first.
    A create that is completed between the two is missed by both: its machine had no
    node yet, its operation is no longer in flight - though at every moment one of the
    two shows it. Then the replica placed next may go to the same node, with no event. *)
Definition during := st_tables after_first.
Definition completed_db :=
  (CompleteOperation Done 400 "op-1" SUCCEEDED (Some 9%nat) ""
     (UpdateMachineNodeAndObserved Done 390 "m1" "n1" "exec-1" "RUNNING" "10.0.0.2" "READY" (db during)).1).1.
Definition later : Capacity.Tables nat := mkTables completed_db (volumes during) (attachments during) (quotas during).
Example handover_is_missed :
  inflight_nodes during = [("dep1", "n1")] /\ committed_nodes later = [("dep1", "n1")] /\
  (committed_nodes during ++ inflight_nodes later)%list = [].
Proof. vm_compute. done. Qed.
End Witness.
