(* ===== verification/Slots.v ===== *)
(** * Network slots

    internal/agent/network/slot/slot.go: the network of a machine on its node - a network
    namespace, a veth pair with a /30 of the pool, a bridge, the TAP of the machine and
    routes - numbered by an index; the table of slots, its file, the reconciliation with
    the running machines and the policy snapshots; and the command of cmd/cni-firepaas
    that drives it under the lock of the file. The commands ip, nft and sysctl, what
    /sys says, the data-plane backend and the write of the file are effects of
    [Programs]: an operation takes the table of slots and gives it back, and its [runs]
    are the traces whatever the kernel answers. [Manager.mu] makes an operation one
    sequence. The JSON of the file is the class [StateCodec]. *)
From Stdlib Require Import Ascii.
From S2P Require Import Prelude Programs GoString GoNet EgressPolicy.

#[local] Open Scope string_scope.
#[local] Open Scope Z_scope.
#[local] Open Scope prog_scope.

(** ** Configuration *)

Definition defaultNamePrefix : string := "fp".
Definition VethRange : string := "10.12.0.0/16".

Record Config := mkConfig {
  SubnetCIDR : string; Gateway : string; StatePath : string; EgressProxyPort80 : Z; EgressProxyPort443 : Z;
  NamePrefix : string; VethCIDR : string }.

Definition validNamePrefix (p : string) : bool :=
  negb (String.eqb p "") && sforall (fun c => in_range "a" "z" c || is_digit c || Ascii.eqb c "-") p.

(** [net.ParseCIDR]: the address and the length of the mask, as far as the code uses them. *)
Definition ParseCIDRBits (s : string) : option (Addr * Z) :=
  a ← ParseCIDR s; i ← index_byte s "/"; n ← digits_val 0 (sdrop (S i) s); Some (a, n).

Definition bad (format : string) (s : string) : goerr := Errorf format [AStr s].

(** The first two bytes of the pool, which is an IPv4 /16. *)
Definition parseVethCIDR (cidr : string) : res (Z * Z) :=
  match ParseCIDRBits cidr with
  | None => Err (lib_error "net.ParseCIDR" cidr)
  | Some (Addr4 v, 16) => Ok (Z.shiftr v 24, Z.land (Z.shiftr v 16) 255)
  | Some _ => Err (bad "want IPv4 /16, got %s" cidr)
  end.

(** The first address after that of the network; at the end of a byte it carries. *)
Definition deriveGateway (cidr : string) : res string :=
  match ParseCIDRBits cidr with
  | None => Err (Errorf "slot: bad subnet %q: %w" [AStr cidr; AErr (lib_error "net.ParseCIDR" cidr)])
  | Some (a, bits) =>
      match PAddr (Masked (mkPrefix a bits)) with
      | Addr4 v => Ok (addr_string (Addr4 ((v + 1) mod 2 ^ 32)))
      | Addr6 v _ => Ok (addr_string (Unmap (Addr6 ((v + 1) mod 2 ^ 128) "")))
      | AddrNone => Ok ""
      end
  end.

(** New: the configuration with its defaults, and the base of the pool. *)
Definition New (cfg : Config) : res (Config * (Z * Z)) :=
  if String.eqb (SubnetCIDR cfg) "" then Err (errors_New "slot: SubnetCIDR is required")
  else match (if String.eqb (Gateway cfg) "" then deriveGateway (SubnetCIDR cfg) else Ok (Gateway cfg)) with
  | Err e => Err e
  | Ok gw =>
      if String.eqb (StatePath cfg) "" then Err (errors_New "slot: StatePath is required")
      else
        let prefix := if String.eqb (NamePrefix cfg) "" then defaultNamePrefix else NamePrefix cfg in
        if Nat.ltb 8 (String.length prefix) || negb (validNamePrefix prefix)
        then Err (bad "slot: invalid NamePrefix %q (want [a-z0-9-]{1,8})" prefix)
        else
          let veth := if String.eqb (VethCIDR cfg) "" then VethRange else VethCIDR cfg in
          match parseVethCIDR veth with
          | Err e => Err (wrap "slot: invalid VethCIDR: %w" e)
          | Ok base =>
              Ok (mkConfig (SubnetCIDR cfg) gw (StatePath cfg)
                    (if EgressProxyPort80 cfg =? 0 then 18080 else EgressProxyPort80 cfg)
                    (if EgressProxyPort443 cfg =? 0 then 18443 else EgressProxyPort443 cfg) prefix veth, base)
          end
  end.

(** ** Slots *)

Definition no_policy : PolicySnapshot := mkSnapshot "" [] [] [] 0 0 false 0 0.

Record Slot := mkSlot {
  Index : Z; MachineID : string; Tap : string; GuestIP : string; GuestIP6 : string; Egress : PolicySnapshot }.

(** The table, by machine. *)
Abbreviation Slots := (gmap string Slot).

Record NetnsSpec := mkSpec { ns_MachineID : string; ns_Tap : string; ns_GuestIP : string; ns_GuestIP6 : string }.
Record LiveInstance := mkLive { lv_MachineID : string; lv_Tap : string; lv_GuestIP : string; lv_GuestIP6 : string }.

(** The coordinates the backend gets. *)
Record SlotRef := mkRef {
  r_Index : Z; VethHost : string; VethGuest : string; HostAddr : string; NsAddr : string; Netns : string;
  r_GuestIP : string; r_GuestIP6 : string }.

Definition with_plumbing (tap guestIP guestIP6 : string) (s : Slot) : Slot :=
  mkSlot (Index s) (MachineID s) tap guestIP guestIP6 (Egress s).
Definition with_policy (p : PolicySnapshot) (s : Slot) : Slot :=
  mkSlot (Index s) (MachineID s) (Tap s) (GuestIP s) (GuestIP6 s) p.

(** A space-free prefix: the first field of a line of [ip netns list]. *)
Fixpoint until_space (s : string) : string :=
  match s with
  | EmptyString => EmptyString
  | String c r => match List.find (has_prefix s) spaces with Some _ => EmptyString | None => String c (until_space r) end
  end.
Definition first_field (line : string) : string := until_space (trim_space line).

(** The digits at the front. *)
Fixpoint leading_digits (s : string) : string :=
  match s with
  | String c r => if is_digit c then String c (leading_digits r) else EmptyString
  | EmptyString => EmptyString
  end.

(** [fmt.Sscanf(s, "%d", &idx)]: a sign and digits, what follows is ignored. *)
Definition scan_int (s : string) : option Z :=
  let '(sign, r) := match s with
                    | String "+" r => (1, r) | String "-" r => (-1, r) | _ => (1, s)
                    end in
  let ds := leading_digits r in
  if String.eqb ds "" then None
  else v ← digits_val 0 ds; if (- 2 ^ 63 <=? sign * v) && (sign * v <? 2 ^ 63) then Some (sign * v) else None.

Definition newline : ascii := ascii_of_nat 10.

(** A ULA of a slot: an IPv6 address; an IPv4 one, mapped or not, is refused. *)
Definition parseSlotULA6 (raw : string) : res string :=
  match ParseAddr raw with
  | Some a => if Is6 a && negb (Is4In6 a) then Ok (addr_string a) else Err (bad "slot: invalid guest ULA %q" raw)
  | None => Err (bad "slot: invalid guest ULA %q" raw)
  end.

Definition effectiveGuestIP6 (existing provided : string) : string :=
  if String.eqb (trim_space provided) "" then existing else provided.

Definition slotTapMTU6 : string := "1280".
Definition slotVethHostLL6 : string := "fe80::1".
Definition slotVethNsLL6 : string := "fe80::2".
Definition SlotBridgeLL6 : string := "fe80::1".

(** The least index from [idx] on that is not used; [fuel] is the number of used ones. *)
Fixpoint first_free (fuel : nat) (used : gset Z) (idx : Z) : Z :=
  match fuel with
  | O => idx
  | S fuel => if bool_decide (idx ∈ used) then first_free fuel used (idx + 1) else idx
  end.
Definition used_indexes (m : Slots) : gset Z := list_to_set (map (fun kv : string * Slot => Index kv.2) (map_to_list m)).
Definition allocIndexLocked (m : Slots) : Z := first_free (size (used_indexes m)) (used_indexes m) 0.
Definition hasIndexLocked (m : Slots) (idx : Z) : bool :=
  existsb (fun kv : string * Slot => Index kv.2 =? idx) (map_to_list m).

(** What is written to the file, and the table read from it. *)
Definition List_ (m : Slots) : list Slot := sort_by (fun a b => Index a <? Index b) (map snd (map_to_list m)).
Definition loaded (l : list Slot) : Slots :=
  fold_left (fun m s => if String.eqb (MachineID s) "" then m else <[MachineID s := s]> m) l ∅.

(** encoding/json on the slots of the file: MarshalIndent and Unmarshal. *)
Class StateCodec := { marshal_slots : list Slot -> res string; unmarshal_slots : string -> res (list Slot) }.
(** A slot that JSON keeps: its strings are ASCII (json replaces what is not UTF-8), its
    numbers those of its Go fields. *)
Definition writable (s : Slot) : Prop :=
  let p := Egress s in
  Forall (fun x => sforall is_ascii x = true)
    ([MachineID s; Tap s; GuestIP s; GuestIP6 s; SMode p] ++ SAllowedCIDRs p ++ SDeniedCIDRs p ++ SDomains p) /\
  Forall (fun z => - 2 ^ 63 <= z < 2 ^ 63) [Index s; SProxyPort80 p; SProxyPort443 p] /\
  0 <= SMaxTCPConns p < 2 ^ 32 /\ 0 <= SGeneration p < 2 ^ 64.
(** What is written of such slots is read as them. *)
Class StateCodecLaws (C : StateCodec) := unmarshal_marshal l raw :
  Forall writable l -> marshal_slots l = Ok raw -> unmarshal_slots raw = Ok l.

(** ** Effects *)

(** How the wait for an interface to disappear ends. *)
Inductive awaited := Gone | Lingers | Cancelled (e : goerr).

Inductive eff : Type -> Type :=
  | Exec (argv : list string) : eff (option (goerr * string))
  | NetnsList : eff (res string)
  | LinkExists (name : string) : eff bool
  | AwaitGone (name : string) : eff awaited
  | EnsureNode : eff (res unit)
  | AttachSlot (ref : SlotRef) : eff (res unit)
  | DetachSlot (ref : SlotRef) : eff (res unit)
  | EnsureSlotNAT (ref : SlotRef) : eff (res unit)
  | ApplyEgress (ref : SlotRef) (snap : option PolicySnapshot) : eff (res unit)
  | WriteState (raw : string) : eff (res unit).

Local Abbreviation prog := (Programs.prog eff).

Section manager.
Context (cfg : Config) (vethBase : Z * Z) `{C : StateCodec}.

(** ** Names and addresses *)

Definition nsName (idx : Z) : string := NamePrefix cfg +:+ "-slot-" +:+ itoa idx.
Definition vethHost (idx : Z) : string := NamePrefix cfg +:+ "-vp" +:+ itoa idx.
Definition vethGuest (idx : Z) : string := NamePrefix cfg +:+ "-vpg" +:+ itoa idx.
Definition brName (idx : Z) : string := NamePrefix cfg +:+ "-br" +:+ itoa idx.
Definition nsPrefixText : string := NamePrefix cfg +:+ "-slot-".

Definition quad (a b c d : Z) : string := join "." (map itoa [a; b; c; d]).

Definition vethAddrs (idx : Z) : res (string * string) :=
  if (idx <? 0) || (16000 <? idx) then Err (Errorf "slot: index %d out of range" [AInt idx])
  else
    let a := idx / 63 in
    let b := (idx mod 63) * 4 in
    Ok (quad vethBase.1 vethBase.2 a (b + 1), quad vethBase.1 vethBase.2 a (b + 2)).

Definition refFor (s : Slot) : res SlotRef :=
  match vethAddrs (Index s) with
  | Err e => Err e
  | Ok (host, ns) =>
      Ok (mkRef (Index s) (vethHost (Index s)) (vethGuest (Index s)) host ns (nsName (Index s)) (GuestIP s) (GuestIP6 s))
  end.

Definition panicked (s : Slot) (e : goerr) : goerr := Errorf "slot: ref for index %d: %v" [AInt (Index s); AErr e].

(** mustRef: no reference is a panic, which ends the program with its value. *)
Definition with_ref {A} (s : Slot) (k : SlotRef -> prog (res A)) : prog (res A) :=
  match refFor s with Ok ref => k ref | Err e => Ret (Err (panicked s e)) end.

Definition gatewayAddr : res (string * string) :=
  match ParseCIDRBits (SubnetCIDR cfg) with
  | None => Err (Errorf "slot: bad SubnetCIDR %q: %w" [AStr (SubnetCIDR cfg); AErr (lib_error "net.ParseCIDR" (SubnetCIDR cfg))])
  | Some (a, bits) =>
      match ParseIP (Gateway cfg) with
      | None => Err (bad "slot: bad Gateway %q" (Gateway cfg))
      | Some gw => Ok (addr_string (Unmap gw), dotted (mask_value 32 (Z.min bits 32) (2 ^ 32 - 1)))
      end
  end.

(** ** Commands *)

Definition execCmd (argv : list string) : prog (res unit) :=
  r <-! Exec argv ;
  Ret match r with
      | None => Ok tt
      | Some (e, out) => Err (Errorf "%s %s: %w (%s)" [AStr (hd "" argv); AStr (join " " (tl argv)); AErr e; AStr (trim_space out)])
      end.

(** A command and how its error is wrapped. *)
Definition step (c : (goerr -> goerr) * list string) : prog (res unit) :=
  r <~! execCmd c.2 ; Ret (res_map_err c.1 r).
Fixpoint steps (l : list ((goerr -> goerr) * list string)) : prog (res unit) :=
  match l with
  | [] => Ret (Ok tt)
  | c :: l => _ <~? step c ; steps l
  end.

Definition in_ns (idx : Z) (argv : list string) : list string := (["ip"; "netns"; "exec"; nsName idx] ++ argv)%list.

Definition netnsExists (idx : Z) : prog (res bool) :=
  out <-! NetnsList ;
  Ret match out with
      | Err e => Err (wrap "list netns: %w" e)
      | Ok out =>
          Ok (existsb (fun line => has_prefix (trim_space line) (nsName idx +:+ " ") || String.eqb (trim_space line) (nsName idx))
                (split_byte newline out))
      end.

Definition stray_of (line : string) : option Z :=
  let name := first_field line in
  if String.eqb name "" || negb (has_prefix name nsPrefixText) then None else scan_int (trim_prefix name nsPrefixText).
Definition listStrayNetns : prog (res (list Z)) :=
  out <-! NetnsList ;
  Ret match out with
      | Err e => Err (wrap "list netns: %w" e)
      | Ok out => Ok (omap stray_of (split_byte newline out))
      end.

(** A namespace that is not there any more counts as deleted. *)
Definition deleteNetns (idx : Z) : prog (res unit) :=
  r <-! Exec ["ip"; "netns"; "del"; nsName idx] ;
  match r with
  | None => Ret (Ok tt)
  | Some (e, _) =>
      exists_ <~! netnsExists idx ;
      match exists_ with
      | Ok true => Ret (Err (Errorf "delete netns %s: %w" [AStr (nsName idx); AErr e]))
      | _ => Ret (Ok tt)
      end
  end.

Definition tapExistsInRoot (tap : string) : prog bool :=
  if String.eqb tap "" then Ret false else b <-! LinkExists tap ; Ret b.

Definition persistLocked (m : Slots) : prog (res unit) :=
  match marshal_slots (List_ m) with
  | Err e => Ret (Err (wrap "slot: marshal state: %w" e))
  | Ok raw => r <-! WriteState raw ; Ret r
  end.

(** ** IPv6 *)

Definition v6_commands (s : Slot) (ula : string) : list ((goerr -> goerr) * list string) :=
  let vh := vethHost (Index s) in
  let vg := vethGuest (Index s) in
  let br := brName (Index s) in
  let named format argv e := Errorf format [AStr (join " " argv); AErr e] in
  let ns argv := (named "slot v6 netns %q: %w" argv, in_ns (Index s) ("ip" :: argv)) in
  (map (fun argv => (named "slot v6 root %q: %w" argv, argv))
     [["ip"; "addr"; "replace"; slotVethHostLL6 +:+ "/64"; "dev"; vh];
      ["ip"; "-6"; "route"; "replace"; ula +:+ "/128"; "dev"; vh];
      ["ip"; "-6"; "neigh"; "replace"; "proxy"; ula; "dev"; vh];
      ["sysctl"; "-qw"; "net.ipv6.conf.all.forwarding=1"];
      ["sysctl"; "-qw"; "net.ipv6.conf." +:+ vh +:+ ".proxy_ndp=1"]] ++
   [ns ["addr"; "replace"; slotVethNsLL6 +:+ "/64"; "dev"; vg];
    ns ["addr"; "replace"; SlotBridgeLL6 +:+ "/64"; "dev"; br];
    ns ["-6"; "route"; "replace"; "default"; "via"; slotVethHostLL6; "dev"; vg];
    ns ["-6"; "neigh"; "replace"; "proxy"; ula; "dev"; vg];
    (wrap "slot v6 netns forwarding: %w", in_ns (Index s) ["sysctl"; "-qw"; "net.ipv6.conf.all.forwarding=1"]);
    (wrap "slot v6 netns proxy_ndp: %w", in_ns (Index s) ["sysctl"; "-qw"; "net.ipv6.conf." +:+ vg +:+ ".proxy_ndp=1"])] ++
   (if String.eqb (Tap s) "" then []
    else [(wrap "slot v6 bridge route: %w", in_ns (Index s) ["ip"; "-6"; "route"; "replace"; ula +:+ "/128"; "dev"; br]);
          (wrap "slot v6 tap mtu: %w", in_ns (Index s) ["ip"; "link"; "set"; Tap s; "mtu"; slotTapMTU6])]))%list.

Definition ensureSlotV6Locked (s : Slot) : prog (res unit) :=
  match parseSlotULA6 (GuestIP6 s) with
  | Err e => Ret (Err e)
  | Ok ula => steps (v6_commands s ula)
  end.

(** Commands whose failure is ignored. *)
Fixpoint attempts (l : list (list string)) : prog unit :=
  match l with [] => Ret tt | argv :: l => Exec argv ;! attempts l end.

Definition removeSlotV6Locked (s : Slot) : prog unit :=
  match parseSlotULA6 (GuestIP6 s) with
  | Err _ => Ret tt
  | Ok ula =>
      let vh := vethHost (Index s) in
      attempts
        ([["ip"; "-6"; "route"; "del"; ula +:+ "/128"; "dev"; vh];
          ["ip"; "-6"; "neigh"; "del"; "proxy"; ula; "dev"; vh];
          in_ns (Index s) ["ip"; "-6"; "neigh"; "del"; "proxy"; ula; "dev"; vethGuest (Index s)]] ++
         (if String.eqb (Tap s) "" then []
          else [in_ns (Index s) ["ip"; "-6"; "route"; "del"; ula +:+ "/128"; "dev"; brName (Index s)]]))%list
  end.

(** ** Slots in the kernel *)

Definition ensureNodeBackend (s : Slot) : prog (res unit) :=
  _ <-? EnsureNode ;
  with_ref s (fun ref => r <-! AttachSlot ref ; Ret r).

Definition tap_commands (s : Slot) : list ((goerr -> goerr) * list string) :=
  if String.eqb (Tap s) "" then []
  else [(wrap "move tap to netns: %w", ["ip"; "link"; "set"; Tap s; "netns"; nsName (Index s)]);
        (wrap "set tap up: %w", in_ns (Index s) ["ip"; "link"; "set"; Tap s; "up"]);
        (wrap "attach tap to bridge: %w", in_ns (Index s) ["ip"; "link"; "set"; Tap s; "master"; brName (Index s)])].

Definition guest_route (s : Slot) (nsAddr : string) : list string :=
  ["ip"; "route"; "replace"; GuestIP s +:+ "/32"; "via"; nsAddr; "dev"; vethHost (Index s)].

(** setupLocked, after the namespace was added. *)
Definition setup_netns (s : Slot) : prog (res unit) :=
  let idx := Index s in
  let vh := vethHost idx in
  let vg := vethGuest idx in
  match vethAddrs idx with
  | Err e => Ret (Err e)
  | Ok (hostAddr, nsAddr) =>
      _ <~? steps
        [(wrap "add veth: %w", ["ip"; "link"; "add"; vh; "type"; "veth"; "peer"; "name"; vg]);
         (wrap "move veth to netns: %w", ["ip"; "link"; "set"; vg; "netns"; nsName idx]);
         (wrap "add host veth addr: %w", ["ip"; "addr"; "add"; hostAddr +:+ "/30"; "dev"; vh]);
         (wrap "set host veth up: %w", ["ip"; "link"; "set"; vh; "up"]);
         (wrap "netns ip_forward: %w", in_ns idx ["sysctl"; "-qw"; "net.ipv4.ip_forward=1"]);
         (wrap "add slot bridge: %w", in_ns idx ["ip"; "link"; "add"; brName idx; "type"; "bridge"])] ;
      match gatewayAddr with
      | Err e => Ret (Err e)
      | Ok (gw, mask) =>
          _ <~? steps
            [(wrap "add bridge addr: %w", in_ns idx ["ip"; "addr"; "add"; gw +:+ "/" +:+ mask; "dev"; brName idx]);
             (wrap "set bridge up: %w", in_ns idx ["ip"; "link"; "set"; brName idx; "up"]);
             (wrap "set netns veth up: %w", in_ns idx ["ip"; "link"; "set"; vg; "up"]);
             (wrap "add netns veth addr: %w", in_ns idx ["ip"; "addr"; "add"; nsAddr +:+ "/30"; "dev"; vg]);
             (wrap "add netns default route: %w", in_ns idx ["ip"; "route"; "add"; "default"; "via"; hostAddr])] ;
          _ <~? with_ref s (fun ref => r <-! EnsureSlotNAT ref ; Ret r) ;
          _ <~? steps (tap_commands s) ;
          _ <~? ensureNodeBackend s ;
          _ <~? step (wrap "add guest route: %w", guest_route s nsAddr) ;
          if String.eqb (GuestIP6 s) "" then Ret (Ok tt) else ensureSlotV6Locked s
      end
  end.

(** The deferred clean-up of a failed set-up. *)
Definition setupLocked (s : Slot) : prog (res unit) :=
  _ <~? step (wrap "add netns: %w", ["ip"; "netns"; "add"; nsName (Index s)]) ;
  r <~! setup_netns s ;
  match r with
  | Ok _ => Ret (Ok tt)
  | Err e => _ <~! deleteNetns (Index s) ; Ret (Err e)
  end.

Definition ensureKernel (s0 : Slot) (tap guestIP guestIP6 : string) : prog (res unit) :=
  let g6 := effectiveGuestIP6 (GuestIP6 s0) guestIP6 in
  let s := with_plumbing tap guestIP g6 s0 in
  match vethAddrs (Index s) with
  | Err e => Ret (Err e)
  | Ok (_, nsAddr) =>
      _ <~? ensureNodeBackend s ;
      _ <~? step (wrap "re-add guest route: %w", guest_route s nsAddr) ;
      in_root <~! tapExistsInRoot tap ;
      _ <~? (if in_root then
               _ <~! execCmd (in_ns (Index s) ["ip"; "link"; "del"; tap]) ;
               steps [(wrap "re-move tap: %w", ["ip"; "link"; "set"; tap; "netns"; nsName (Index s)]);
                      (wrap "re-attach tap: %w", in_ns (Index s) ["ip"; "link"; "set"; tap; "master"; brName (Index s)]);
                      (wrap "re-up tap: %w", in_ns (Index s) ["ip"; "link"; "set"; tap; "up"])]
             else Ret (Ok tt)) ;
      if String.eqb g6 "" then Ret (Ok tt) else ensureSlotV6Locked s
  end.

Definition lingered (veth : string) : goerr := bad "slot: veth %s lingered after netns delete" veth.

Definition releaseLocked (s : Slot) : prog (res unit) :=
  let ref := refFor s in
  _ <~! match ref with Ok r => DetachSlot r ;! Ret tt | Err _ => Ret tt end ;
  _ <~! (if String.eqb (GuestIP6 s) "" then Ret tt else removeSlotV6Locked s) ;
  _ <~? deleteNetns (Index s) ;
  let veth := match ref with Ok r => VethHost r | Err _ => "" end in
  _ <~! (if String.eqb veth "" then Ret tt else Exec ["ip"; "link"; "del"; veth] ;! Ret tt) ;
  gone <-! AwaitGone veth ;
  Ret match gone with Gone => Ok tt | Lingers => Err (lingered veth) | Cancelled e => Err e end.

(** ** Operations *)

(** Load, of what was read: the text of the file, [None] when there is none. *)
Definition Load (file : res (option string)) (m : Slots) : Slots * res unit :=
  match file with
  | Err e => (m, Err (wrap "slot: read state: %w" e))
  | Ok None => (m, Ok tt)
  | Ok (Some raw) =>
      match unmarshal_slots raw with
      | Err e => (m, Err (wrap "slot: parse state: %w" e))
      | Ok l => (loaded l, Ok tt)
      end
  end.

(** AttachNetns for a machine that has a slot. *)
Definition reattach (spec : NetnsSpec) (s : Slot) (m : Slots) : prog (Slots * res unit) :=
  _ <~! (if negb (String.eqb (Tap s) (ns_Tap spec)) && negb (String.eqb (ns_Tap spec) "") && negb (String.eqb (Tap s) "")
         then Exec (in_ns (Index s) ["ip"; "link"; "del"; Tap s]) ;! Ret tt else Ret tt) ;
  ensured <~! ensureKernel s (ns_Tap spec) (ns_GuestIP spec) (ns_GuestIP6 spec) ;
  match ensured with
  | Err e => Ret (m, Err e)
  | Ok _ =>
      let eff6 := effectiveGuestIP6 (GuestIP6 s) (ns_GuestIP6 spec) in
      _ <~! (if negb (String.eqb (GuestIP6 s) eff6) && negb (String.eqb (GuestIP6 s) "")
             then removeSlotV6Locked (with_plumbing (ns_Tap spec) (ns_GuestIP spec) (GuestIP6 s) s) else Ret tt) ;
      let m := <[ns_MachineID spec := with_plumbing (ns_Tap spec) (ns_GuestIP spec) eff6 s]> m in
      r <~! persistLocked m ;
      Ret (m, r)
  end.

(** A slot is set up for a machine and recorded when that worked. *)
Definition attach_new (s : Slot) (m : Slots) : prog (Slots * res unit) :=
  r <~! setupLocked s ;
  match r with
  | Err e => _ <~! releaseLocked s ; Ret (m, Err e)
  | Ok _ => Ret (<[MachineID s := s]> m, Ok tt)
  end.

Definition AttachNetns (spec : NetnsSpec) (m : Slots) : prog (Slots * res unit) :=
  match m !! ns_MachineID spec with
  | Some s => reattach spec s m
  | None =>
      if String.eqb (ns_GuestIP spec) "" then Ret (m, Err (errors_New "slot: guest_ip is required"))
      else
        let s := mkSlot (allocIndexLocked m) (ns_MachineID spec) (ns_Tap spec) (ns_GuestIP spec) (ns_GuestIP6 spec) no_policy in
        attached <~! attach_new s m ;
        match attached with
        | (m, Err e) => Ret (m, Err e)
        | (m, Ok _) =>
            r <~! persistLocked m ;
            match r with
            | Ok _ => Ret (m, Ok tt)
            | Err e => _ <~! releaseLocked s ; Ret (delete (ns_MachineID spec) m, Err e)
            end
        end
  end.

Definition DetachNetns (machineID : string) (m : Slots) : prog (Slots * res unit) :=
  match m !! machineID with
  | None => Ret (m, Ok tt)
  | Some s =>
      r <~! releaseLocked s ;
      match r with
      | Err e => Ret (m, Err e)
      | Ok _ => let m := delete machineID m in r <~! persistLocked m ; Ret (m, r)
      end
  end.

Definition Check_ (spec : NetnsSpec) (m : Slots) : prog (Slots * res unit) :=
  match m !! ns_MachineID spec with
  | None => Ret (m, Err (bad "slot: check: machine %s has no slot" (ns_MachineID spec)))
  | Some s =>
      r <~! ensureKernel s (ns_Tap spec) (ns_GuestIP spec) (effectiveGuestIP6 (GuestIP6 s) (ns_GuestIP6 spec)) ;
      Ret (m, r)
  end.

(** ** Reconciliation *)

(** liveByID; of several instances of a machine the last. *)
Definition by_machine (live : list LiveInstance) : gmap string LiveInstance :=
  fold_left (fun m l => if String.eqb (lv_MachineID l) "" then m else <[lv_MachineID l := l]> m) live ∅.

(** A slot whose machine runs with its TAP: its plumbing is completed and its policy installed again. *)
Definition keep_slot (id : string) (s : Slot) (l : LiveInstance) (m : Slots) : prog Slots :=
  let renewed := negb (String.eqb (lv_GuestIP6 l) "") && negb (String.eqb (lv_GuestIP6 l) (GuestIP6 s)) in
  let s' := if renewed then with_plumbing (Tap s) (GuestIP s) (lv_GuestIP6 l) s else s in
  let m := if renewed then <[id := s']> m else m in
  _ <~! (if renewed then removeSlotV6Locked s else Ret tt) ;
  _ <~! ensureKernel s' (lv_Tap l) (lv_GuestIP l) (effectiveGuestIP6 (GuestIP6 s') (lv_GuestIP6 l)) ;
  _ <~! (if String.eqb (SMode (Egress s')) "" then Ret (Ok tt)
         else with_ref s' (fun ref => r <-! ApplyEgress ref (Some (Egress s')) ; Ret r)) ;
  Ret m.

(** Steps 1 to 3 for one slot. *)
Definition reconcile_slot (live : gmap string LiveInstance) (id : string) (m : Slots) : prog Slots :=
  match m !! id with
  | None => Ret m
  | Some s =>
      exists_ <~! netnsExists (Index s) ;
      match exists_ with
      | Err _ => Ret m
      | Ok false => _ <~! releaseLocked s ; Ret (delete id m)
      | Ok true =>
          match live !! id with
          | Some l =>
              if String.eqb (lv_Tap l) (Tap s) then keep_slot id s l m
              else r <~! releaseLocked s ; Ret (if is_ok r then delete id m else m)
          | None => r <~! releaseLocked s ; Ret (if is_ok r then delete id m else m)
          end
      end
  end.

Fixpoint delete_strays (strays : list Z) (m : Slots) : prog unit :=
  match strays with
  | [] => Ret tt
  | idx :: strays => _ <~! (if hasIndexLocked m idx then Ret (Ok tt) else deleteNetns idx) ; delete_strays strays m
  end.

(** Step 4 for one running machine. *)
Definition reconcile_live (live : gmap string LiveInstance) (id : string) (m : Slots) : prog Slots :=
  match live !! id, m !! id with
  | Some l, None =>
      in_root <~! tapExistsInRoot (lv_Tap l) ;
      if in_root then
        attached <~! attach_new (mkSlot (allocIndexLocked m) id (lv_Tap l) (lv_GuestIP l) (lv_GuestIP6 l) no_policy) m ;
        Ret attached.1
      else Ret m
  | _, _ => Ret m
  end.

Fixpoint each (f : string -> Slots -> prog Slots) (ids : list string) (m : Slots) : prog Slots :=
  match ids with
  | [] => Ret m
  | id :: ids => m <~! f id m ; each f ids m
  end.

(** [slot_order] and [live_order] are the orders in which Go runs over the two maps. *)
Definition Reconcile (live : list LiveInstance) (slot_order live_order : list string) (m : Slots) : prog (Slots * res unit) :=
  let byID := by_machine live in
  m <~! each (reconcile_slot byID) slot_order m ;
  strays <~! listStrayNetns ;
  _ <~! delete_strays (match strays with Ok l => l | Err _ => [] end) m ;
  m <~! each (reconcile_live byID) live_order m ;
  r <~! persistLocked m ;
  Ret (m, r).

(** ** Policy snapshots *)

Definition fencing (applied requested : Z) : goerr :=
  Errorf "slot: snapshot generation fencing: applied %d > requested %d (keep old policy)" [AInt applied; AInt requested].

(** [errors.Join] of an error and one that may be nil. *)
Definition join_err (e : goerr) (r : res unit) : goerr := match r with Ok _ => Errorf "join" [AErr e] | Err e' => Errorf "join" [AErr e; AErr e'] end.

(** The snapshot as the backend gets it: without a mode it is cleared. *)
Definition installed_as (p : PolicySnapshot) : option PolicySnapshot := if String.eqb (SMode p) "" then None else Some p.

Definition apply_egress (s : Slot) (p : option PolicySnapshot) : prog (res unit) := with_ref s (fun ref => r <-! ApplyEgress ref p ; Ret r).

(** Installs [p], records it, and undoes both when the record cannot be written. *)
Definition install (machineID : string) (s : Slot) (p : PolicySnapshot) (as_ back : option PolicySnapshot) (m : Slots) : prog (Slots * res unit) :=
  applied <~! apply_egress s as_ ;
  match applied with
  | Err e => Ret (m, Err e)
  | Ok _ =>
      let m' := <[machineID := with_policy p s]> m in
      written <~! persistLocked m' ;
      match written with
      | Ok _ => Ret (m', Ok tt)
      | Err e => undone <~! apply_egress s back ; Ret (<[machineID := s]> m', Err (join_err e undone))
      end
  end.

Definition ApplySnapshot (machineID : string) (snap : PolicySnapshot) (m : Slots) : prog (Slots * res unit) :=
  match m !! machineID with
  | None => Ret (m, Err (bad "slot: snapshot apply: machine %s has no slot" machineID))
  | Some s =>
      if SGeneration snap <? SGeneration (Egress s) then Ret (m, Err (fencing (SGeneration (Egress s)) (SGeneration snap)))
      else install machineID s snap (Some snap) (installed_as (Egress s)) m
  end.

Definition CurrentSnapshot (machineID : string) (m : Slots) : option PolicySnapshot := m !! machineID ≫= fun s => installed_as (Egress s).

Definition RollbackSnapshot (machineID : string) (snap : PolicySnapshot) (present : bool) (m : Slots) : prog (Slots * res unit) :=
  match m !! machineID with
  | None => Ret (m, Err (bad "slot: snapshot rollback: machine %s has no slot" machineID))
  | Some s =>
      applied <~! apply_egress s (if present then Some snap else None) ;
      match applied with
      | Err e => Ret (m, Err e)
      | Ok _ =>
          let m := <[machineID := with_policy (if present then snap else no_policy) s]> m in
          r <~! persistLocked m ; Ret (m, r)
      end
  end.

Definition RemoveSnapshot (machineID : string) (m : Slots) : prog (Slots * res unit) :=
  match m !! machineID with
  | None => Ret (m, Ok tt)
  | Some s =>
      if String.eqb (SMode (Egress s)) "" then Ret (m, Ok tt)
      else install machineID s no_policy None (Some (Egress s)) m
  end.

Definition RestoreSnapshot (machineID : string) (m : Slots) : prog (Slots * res unit) :=
  match m !! machineID with
  | Some s => if String.eqb (SMode (Egress s)) "" then Ret (m, Ok tt)
              else r <~! apply_egress s (Some (Egress s)) ; Ret (m, r)
  | None => Ret (m, Ok tt)
  end.

Definition SlotFor (machineID : string) (m : Slots) : option Slot := m !! machineID.
Definition Count (m : Slots) : nat := size m.
Definition CurrentNetns (machineID : string) (m : Slots) : option (Z * string * string * string * PolicySnapshot) :=
  (fun s => (Index s, MachineID s, Tap s, GuestIP s, Egress s)) <$> m !! machineID.

(** ** Histories *)

Inductive op :=
  | OpAttach (spec : NetnsSpec)
  | OpDetach (machineID : string)
  | OpCheck (spec : NetnsSpec)
  | OpReconcile (live : list LiveInstance) (slot_order live_order : list string)
  | OpApply (machineID : string) (snap : PolicySnapshot)
  | OpRollback (machineID : string) (snap : PolicySnapshot) (present : bool)
  | OpRemove (machineID : string)
  | OpRestore (machineID : string).

Definition do_op (o : op) : Slots -> prog (Slots * res unit) :=
  match o with
  | OpAttach spec => AttachNetns spec
  | OpDetach id => DetachNetns id
  | OpCheck spec => Check_ spec
  | OpReconcile live so lo => Reconcile live so lo
  | OpApply id snap => ApplySnapshot id snap
  | OpRollback id snap present => RollbackSnapshot id snap present
  | OpRemove id => RemoveSnapshot id
  | OpRestore id => RestoreSnapshot id
  end.

Inductive ev :=
  | EvExec (argv : list string) (ok : bool)
  | EvListed (out : res string)
  | EvDetached (ref : SlotRef)
  | EvApplied (ref : SlotRef) (snap : option PolicySnapshot) (r : res unit)
  | EvWritten (raw : string) (r : res unit).

Definition event {B} (c : eff B) : B -> list ev :=
  match c in eff B return B -> list ev with
  | Exec argv => fun b => [EvExec argv (match b with None => true | Some _ => false end)]
  | NetnsList => fun b => [EvListed b]
  | DetachSlot ref => fun _ => [EvDetached ref]
  | ApplyEgress ref snap => fun b => [EvApplied ref snap b]
  | WriteState raw => fun b => [EvWritten raw b]
  | LinkExists _ | AwaitGone _ | EnsureNode | AttachSlot _ | EnsureSlotNAT _ => fun _ => []
  end.

Local Abbreviation runs := (Programs.runs (@event)).

(** What an operation makes of the table, whatever the kernel answers. *)
Definition slot_step (m m' : Slots) : Prop := exists o t r, runs (do_op o m) t (m', r).

Record slots_inv (m : Slots) : Prop := mkSlotsInv {
  si_key : forall id s, m !! id = Some s -> MachineID s = id;
  si_range : forall id s, m !! id = Some s -> 0 <= Index s <= 16000;
  si_index : forall id id' s s', m !! id = Some s -> m !! id' = Some s' -> Index s = Index s' -> id = id' }.

(** *** Indexes *)

Lemma first_free_spec fuel used idx :
  let r := first_free fuel used idx in
  idx <= r <= idx + Z.of_nat fuel /\ (forall i, idx <= i < r -> i ∈ used) /\ (r < idx + Z.of_nat fuel -> r ∉ used).
Proof.
  revert idx. induction fuel as [|fuel IH]; intros idx; cbn -[Z.of_nat].
  - split_and!; [lia|lia| |lia]. intros. lia.
  - case_bool_decide as Hin.
    + destruct (IH (idx + 1)) as (Hr & Hu & Hf). split_and!; [lia|lia| |].
      * intros i Hi. destruct (decide (i = idx)) as [->|]; [done|]. apply Hu. lia.
      * intros. apply Hf. lia.
    + split_and!; [lia|lia| |done]. intros. lia.
Qed.

(** The indexes from 0 to n - 1, as a set. *)
Lemma interval_size (used : gset Z) n : (forall i, 0 <= i < Z.of_nat n -> i ∈ used) -> (n <= size used)%nat.
Proof.
  intros H. assert (list_to_set (map Z.of_nat (seq 0 n)) ⊆ used) as Hs.
  { intros i (k & -> & Hk%elem_of_seq)%elem_of_list_to_set%list_elem_of_fmap. apply H. lia. }
  apply subseteq_size in Hs. rewrite size_list_to_set, length_map, length_seq in Hs; [done|].
  apply NoDup_fmap_2; [intros ? ?; apply Nat2Z.inj|apply NoDup_seq].
Qed.

Lemma elem_of_used m i : i ∈ used_indexes m <-> exists id s, m !! id = Some s /\ Index s = i.
Proof.
  unfold used_indexes. rewrite elem_of_list_to_set, list_elem_of_fmap. split.
  - intros ([id s] & -> & H%elem_of_map_to_list). eauto.
  - intros (id & s & H & <-). exists (id, s). split; [done|]. by apply elem_of_map_to_list.
Qed.

(** The allocation gives the least free index, which is at most the number of slots. *)
Lemma alloc_least m :
  let i := allocIndexLocked m in
  0 <= i <= Z.of_nat (size (used_indexes m)) /\ (i ∉ used_indexes m) /\ (forall j, 0 <= j < i -> j ∈ used_indexes m).
Proof.
  unfold allocIndexLocked. set (used := used_indexes m).
  destruct (first_free_spec (size used) used 0) as (Hr & Hu & Hf). set (r := first_free _ _ _) in *. split_and!; [lia|lia| |done].
  destruct (decide (r < 0 + Z.of_nat (size used))) as [Hlt|Hge]; [by apply Hf|]. intros Hin.
  assert (S (size used) <= size used)%nat; [|lia]. apply interval_size. intros i Hi.
  destruct (decide (i = r)) as [->|]; [done|]. apply Hu. lia.
Qed.

Lemma alloc_fresh m id s : m !! id = Some s -> Index s <> allocIndexLocked m.
Proof. intros Hs He. destruct (alloc_least m) as (_ & Hn & _). apply Hn, elem_of_used. eauto. Qed.

(** *** The invariant *)

Lemma inv_update m id s s' :
  slots_inv m -> m !! id = Some s -> Index s' = Index s -> MachineID s' = MachineID s -> slots_inv (<[id := s']> m).
Proof.
  intros [Hk Hr Hi] Hs He Hid. split.
  - intros k x [[<- <-]|[_ Hx]]%lookup_insert_Some; [rewrite Hid|]; eauto.
  - intros k x [[<- <-]|[_ Hx]]%lookup_insert_Some; [rewrite He|]; eauto.
  - intros k k' x x' [[<- <-]|[_ Hx]]%lookup_insert_Some [[<- <-]|[_ Hx']]%lookup_insert_Some; rewrite ?He; eauto.
Qed.

Lemma inv_delete m id : slots_inv m -> slots_inv (delete id m).
Proof.
  intros [Hk Hr Hi]. split; intros *; rewrite ?lookup_delete_Some; naive_solver.
Qed.

Lemma inv_new m id s :
  slots_inv m -> m !! id = None -> MachineID s = id -> 0 <= Index s <= 16000 -> Index s = allocIndexLocked m -> slots_inv (<[id := s]> m).
Proof.
  intros [Hk Hr Hi] Hn Hid Hrange Ha. split.
  - intros k x [[<- <-]|[_ Hx]]%lookup_insert_Some; eauto.
  - intros k x [[<- <-]|[_ Hx]]%lookup_insert_Some; eauto.
  - intros k k' x x' [[<- <-]|[_ Hx]]%lookup_insert_Some [[<- <-]|[_ Hx']]%lookup_insert_Some He; [done| | |eauto].
    + exfalso. apply (alloc_fresh m k' x' Hx'). congruence.
    + exfalso. apply (alloc_fresh m k x Hx). congruence.
Qed.

Lemma vethAddrs_range idx a : vethAddrs idx = Ok a -> 0 <= idx <= 16000.
Proof. unfold vethAddrs. destruct ((idx <? 0) || (16000 <? idx)) eqn:E; [done|]. apply orb_false_iff in E. lia. Qed.

Lemma refFor_ok s : 0 <= Index s <= 16000 -> exists ref, refFor s = Ok ref.
Proof.
  intros Hr. unfold refFor, vethAddrs. replace ((Index s <? 0) || (16000 <? Index s)) with false by (symmetry; apply orb_false_iff; lia).
  eauto.
Qed.

Ltac bind_in H a t1 t2 H1 H2 := apply runs_pbind in H as (a & t1 & t2 & H1 & H2 & ->).

Lemma step_ok c t : runs (step c) t (Ok tt) -> t = [EvExec c.2 true].
Proof. intros H. unfold step, execCmd in H. paths H. destruct H as [-> H]. by destruct b as [[]|]. Qed.

Lemma setup_range s t : runs (setupLocked s) t (Ok tt) -> 0 <= Index s <= 16000.
Proof.
  intros H. unfold setupLocked in H. bind_in H a t1 t2 H1 H2. destruct a; [|by destruct H2].
  bind_in H2 b t3 t4 H2 H3. destruct b; [|bind_in H3 x t5 t6 H3 H4; by destruct H4].
  unfold setup_netns in H2. destruct (vethAddrs (Index s)) as [[]|] eqn:E; [|by destruct H2]. by apply vethAddrs_range in E.
Qed.

Lemma attach_new_inv s m t m' r :
  runs (attach_new s m) t (m', r) ->
  match r with Ok _ => m' = <[MachineID s := s]> m /\ 0 <= Index s <= 16000 | Err _ => m' = m end.
Proof.
  intros H. unfold attach_new in H. bind_in H a t1 t2 H1 H2. destruct a as [[]|e].
  - destruct H2 as [_ [= -> ->]]. split; [done|]. by eapply setup_range.
  - bind_in H2 b t3 t4 H2 H3. by destruct H3 as [_ [= -> ->]].
Qed.

Lemma attach_inv spec m t m' r :
  slots_inv m -> runs (AttachNetns spec m) t (m', r) -> slots_inv m'.
Proof.
  intros Hinv H. unfold AttachNetns in H. destruct (m !! ns_MachineID spec) as [s|] eqn:Hs.
  - unfold reattach in H. bind_in H a t1 t2 H1 H2. bind_in H2 b t3 t4 H2 H3. destruct b as [[]|e]; [|by destruct H3 as [_ [= -> _]]].
    bind_in H3 c t5 t6 H3 H4. bind_in H4 d t7 t8 H4 H5. destruct H5 as [_ [= -> _]]. by eapply inv_update.
  - destruct (String.eqb _ _); [by destruct H as [_ [= -> _]]|]. bind_in H a t1 t2 H1 H2. destruct a as [m1 [[]|e]].
    + apply attach_new_inv in H1 as [-> Hr]. cbn [MachineID] in *.
      assert (slots_inv (<[ns_MachineID spec := mkSlot (allocIndexLocked m) (ns_MachineID spec) (ns_Tap spec) (ns_GuestIP spec) (ns_GuestIP6 spec) no_policy]> m)) as Hnew
        by (by apply inv_new).
      bind_in H2 b t3 t4 H2 H3. destruct b as [[]|e]; [by destruct H3 as [_ [= -> _]]|]. bind_in H3 c t5 t6 H3 H4. destruct H4 as [_ [= -> _]].
      by apply inv_delete.
    + apply attach_new_inv in H1 as ->. by destruct H2 as [_ [= -> _]].
Qed.

Lemma each_inv (f : string -> Slots -> prog Slots) ids m t m' :
  (forall id m t m', slots_inv m -> runs (f id m) t m' -> slots_inv m') -> slots_inv m -> runs (each f ids m) t m' -> slots_inv m'.
Proof.
  intros Hf. revert m t. induction ids as [|id ids IH]; intros m t Hinv H; cbn in H; [by destruct H as [_ ->]|].
  bind_in H a t1 t2 H1 H2. eapply IH; [|exact H2]. by eapply Hf.
Qed.

Lemma keep_inv id s l m t m' : m !! id = Some s -> runs (keep_slot id s l m) t m' -> exists g6,
  m' = m \/ m' = <[id := with_plumbing (Tap s) (GuestIP s) g6 s]> m.
Proof.
  intros Hs H. unfold keep_slot in H. bind_in H a t1 t2 H1 H2. bind_in H2 b t3 t4 H2 H3. bind_in H3 c t5 t6 H3 H4.
  destruct H4 as [_ ->]. exists (lv_GuestIP6 l). destruct (_ && _); auto.
Qed.

Lemma reconcile_slot_cases live id m t m' :
  runs (reconcile_slot live id m) t m' ->
  m' = m \/ m' = delete id m \/ exists s g6, m !! id = Some s /\ m' = <[id := with_plumbing (Tap s) (GuestIP s) g6 s]> m.
Proof.
  intros H. unfold reconcile_slot in H. destruct (m !! id) as [s|] eqn:Hs; [|left; by destruct H as [_ ->]].
  bind_in H a t1 t2 H1 H2. assert (Hrel : forall p t, runs (pbind (releaseLocked s) (fun r => Ret (if is_ok r then delete id m else p))) t m' ->
    m' = delete id m \/ m' = p).
  { intros p t' Hr. bind_in Hr b t3 t4 H3 H4. destruct H4 as [_ ->]. destruct (is_ok b); auto. }
  destruct a as [[]|e]; [| |left; by destruct H2 as [_ ->]].
  - destruct (live !! id) as [l|].
    + destruct (String.eqb _ _).
      * destruct (keep_inv _ _ _ _ _ _ Hs H2) as [g6 [-> | ->]]; eauto 10.
      * destruct (Hrel _ _ H2) as [-> | ->]; auto.
    + destruct (Hrel _ _ H2) as [-> | ->]; auto.
  - bind_in H2 b t3 t4 H2 H3. destruct H3 as [_ ->]. auto.
Qed.

Lemma reconcile_slot_inv live id m t m' : slots_inv m -> runs (reconcile_slot live id m) t m' -> slots_inv m'.
Proof.
  intros Hinv [->|[->|(s & g6 & Hs & ->)]]%reconcile_slot_cases; [done|by apply inv_delete|by eapply inv_update].
Qed.

Lemma reconcile_live_inv live id m t m' : slots_inv m -> runs (reconcile_live live id m) t m' -> slots_inv m'.
Proof.
  intros Hinv H. unfold reconcile_live in H. destruct (live !! id) as [l|]; [|by destruct H as [_ ->]].
  destruct (m !! id) as [s|] eqn:Hs; [by destruct H as [_ ->]|]. bind_in H a t1 t2 H1 H2. destruct a; [|by destruct H2 as [_ ->]].
  bind_in H2 b t3 t4 H2 H3. destruct H3 as [_ ->]. destruct b as [m1 r]. apply attach_new_inv in H2. cbn [fst MachineID] in *.
  destruct r; [destruct H2 as [-> Hr]|by subst]. by apply inv_new.
Qed.

Lemma reconcile_inv live so lo m t m' r : slots_inv m -> runs (Reconcile live so lo m) t (m', r) -> slots_inv m'.
Proof.
  intros Hinv H. unfold Reconcile in H. bind_in H m1 t1 t2 H1 H2. bind_in H2 st t3 t4 H2 H3. bind_in H3 x t5 t6 H3 H4.
  bind_in H4 m2 t7 t8 H4 H5. bind_in H5 y t9 t10 H5 H6. destruct H6 as [_ [= -> _]].
  eapply each_inv; [|eapply each_inv; [|exact Hinv|exact H1]|exact H4]; intros; [by eapply reconcile_live_inv|by eapply reconcile_slot_inv].
Qed.

Lemma install_cases id s p as_ back m t m' r :
  runs (install id s p as_ back m) t (m', r) -> m' = m \/ m' = <[id := with_policy p s]> m \/ m' = <[id := s]> (<[id := with_policy p s]> m).
Proof.
  intros H. unfold install in H. bind_in H a t1 t2 H1 H2. destruct a as [[]|e]; [|left; by destruct H2 as [_ [= -> _]]].
  bind_in H2 b t3 t4 H2 H3. destruct b as [[]|e]; [right; left; by destruct H3 as [_ [= -> _]]|].
  bind_in H3 c t5 t6 H3 H4. right; right. by destruct H4 as [_ [= -> _]].
Qed.

Lemma install_inv id s p as_ back m t m' r :
  slots_inv m -> m !! id = Some s -> runs (install id s p as_ back m) t (m', r) -> slots_inv m'.
Proof.
  intros Hinv Hs [->|[->| ->]]%install_cases; [done|by eapply inv_update|]. rewrite insert_insert_eq. by eapply inv_update.
Qed.

Lemma slot_step_inv m m' : slots_inv m -> slot_step m m' -> slots_inv m'.
Proof.
  intros Hinv (o & t & r & H). destruct o as [spec|id|spec|live so lo|id snap|id snap present|id|id]; cbn in H.
  - by eapply attach_inv.
  - unfold DetachNetns in H. destruct (m !! id) as [s|]; [|by destruct H as [_ [= -> _]]]. bind_in H a t1 t2 H1 H2.
    destruct a; [|by destruct H2 as [_ [= -> _]]]. bind_in H2 b t3 t4 H2 H3. destruct H3 as [_ [= -> _]]. by apply inv_delete.
  - unfold Check_ in H. destruct (m !! ns_MachineID spec); [|by destruct H as [_ [= -> _]]]. bind_in H a t1 t2 H1 H2. by destruct H2 as [_ [= -> _]].
  - by eapply reconcile_inv.
  - unfold ApplySnapshot in H. destruct (m !! id) as [s|] eqn:Hs; [|by destruct H as [_ [= -> _]]].
    destruct (_ <? _); [by destruct H as [_ [= -> _]]|]. by eapply install_inv.
  - unfold RollbackSnapshot in H. destruct (m !! id) as [s|] eqn:Hs; [|by destruct H as [_ [= -> _]]]. bind_in H a t1 t2 H1 H2.
    destruct a; [|by destruct H2 as [_ [= -> _]]]. bind_in H2 b t3 t4 H2 H3. destruct H3 as [_ [= -> _]]. by eapply inv_update.
  - unfold RemoveSnapshot in H. destruct (m !! id) as [s|] eqn:Hs; [|by destruct H as [_ [= -> _]]].
    destruct (String.eqb _ _); [by destruct H as [_ [= -> _]]|]. by eapply install_inv.
  - unfold RestoreSnapshot in H. destruct (m !! id) as [s|] eqn:Hs; [|by destruct H as [_ [= -> _]]].
    destruct (String.eqb _ _); [by destruct H as [_ [= -> _]]|]. bind_in H a t1 t2 H1 H2. by destruct H2 as [_ [= -> _]].
Qed.

Lemma slot_steps_inv m m' : slots_inv m -> rtc slot_step m m' -> slots_inv m'.
Proof. intros Hinv Hs. induction Hs; eauto using slot_step_inv. Qed.

Lemma empty_inv : slots_inv ∅.
Proof. split; intros *; by rewrite lookup_empty. Qed.

(** *** Names *)

Lemma name_inj p i j : p +:+ itoa i = p +:+ itoa j -> i = j.
Proof. intros H%(inj (String.append p)). by apply (inj pretty) in H. Qed.

(** No number starts with a letter. *)
Lemma itoa_no_g i t : 0 <= i <= 16000 -> itoa i <> String "g" t.
Proof.
  intros Hi H. set (P := fun z => match itoa z with String c _ => is_digit c | EmptyString => false end).
  assert (P i = true) as HP by (apply (small_numbers P (Z.to_nat 16001)); [vm_compute; reflexivity|rewrite Z2Nat.id; lia]). unfold P in HP. by rewrite H in HP.
Qed.

Lemma quad_inj a b c d a' b' c' d' :
  Forall (fun z => 0 <= z < 256) [a; b; c; d; a'; b'; c'; d'] ->
  quad a b c d = quad a' b' c' d' -> a = a' /\ b = b' /\ c = c' /\ d = d'.
Proof.
  intros Hf H. repeat (apply Forall_cons in Hf as [? Hf]). apply (f_equal parse4) in H. unfold quad in H. rewrite !split_dotted in H by done.
  injection H as H. lia.
Qed.

(** The pool is a /16. *)
Definition base_ok : Prop := 0 <= vethBase.1 < 256 /\ 0 <= vethBase.2 < 256.

Lemma vethAddrs_disjoint i j host ns host' ns' :
  base_ok -> i <> j -> vethAddrs i = Ok (host, ns) -> vethAddrs j = Ok (host', ns') ->
  NoDup [host; ns; host'; ns'].
Proof.
  intros [H1 H2] Hne Hi Hj. pose proof (vethAddrs_range _ _ Hi) as Ri. pose proof (vethAddrs_range _ _ Hj) as Rj.
  unfold vethAddrs in Hi, Hj. destruct ((i <? 0) || _); [done|]. destruct ((j <? 0) || _); [done|].
  injection Hi as <- <-. injection Hj as <- <-.
  assert (Hb : forall k, 0 <= k <= 16000 -> 0 <= k / 63 < 256 /\ 0 <= (k mod 63) * 4 + 1 < 256 /\ 0 <= (k mod 63) * 4 + 2 < 256)
    by (intros; Z.to_euclidean_division_equations; lia).
  destruct (Hb i Ri) as (A1 & A2 & A3). destruct (Hb j Rj) as (B1 & B2 & B3).
  assert (i = 63 * (i / 63) + i mod 63 /\ j = 63 * (j / 63) + j mod 63) as [Di Dj] by (split; apply Z.div_mod; lia).
  repeat (apply NoDup_cons; split); [..|constructor]; rewrite ?elem_of_cons, ?elem_of_nil; intros Hin; destruct_or?; try done;
    match goal with H : quad _ _ _ _ = quad _ _ _ _ |- _ => apply quad_inj in H as (_ & _ & ? & ?); [lia|repeat constructor; lia] end.
Qed.

(** C10. Two machines never share a namespace, an interface or an address of the pool,
    whatever was attached, detached, reconciled and changed before, by whom and with
    whatever failures of the kernel and of the file. *)
Theorem machines_never_share m id id' s s' :
  base_ok -> rtc slot_step ∅ m -> m !! id = Some s -> m !! id' = Some s' -> id <> id' ->
  exists ref ref', refFor s = Ok ref /\ refFor s' = Ok ref' /\
    Netns ref <> Netns ref' /\ NoDup [VethHost ref; VethGuest ref; VethHost ref'; VethGuest ref'] /\
    NoDup [HostAddr ref; NsAddr ref; HostAddr ref'; NsAddr ref'] /\ brName (Index s) <> brName (Index s').
Proof.
  intros Hb Hm Hs Hs' Hne. pose proof (slot_steps_inv _ _ empty_inv Hm) as [Hk Hr Hi].
  assert (Index s <> Index s') as Hidx by (intros He; by apply Hne, (Hi _ _ _ _ Hs Hs')).
  pose proof (Hr _ _ Hs) as Rs. pose proof (Hr _ _ Hs') as Rs'.
  unfold refFor. destruct (vethAddrs (Index s)) as [[h n]|] eqn:E; [|by destruct (refFor_ok s Rs) as [? E']; unfold refFor in E'; rewrite E in E'].
  destruct (vethAddrs (Index s')) as [[h' n']|] eqn:E'; [|by destruct (refFor_ok s' Rs') as [? E'']; unfold refFor in E''; rewrite E' in E''].
  eexists _, _. split; [done|]. split; [done|]. cbn [Netns VethHost VethGuest HostAddr NsAddr].
  split; [by intros H%(inj (String.append _))%name_inj|]. split; [|split; [by eapply vethAddrs_disjoint|by intros H%(inj (String.append _))%name_inj]].
  assert (Hvg : forall i j, 0 <= i <= 16000 -> vethHost i <> vethGuest j).
  { intros i j Hrange H. unfold vethHost, vethGuest in H. apply (inj (String.append _)) in H.
    change ("-vpg" +:+ itoa j) with ("-vp" +:+ String "g" (itoa j)) in H. apply (inj (String.append _)) in H. by apply itoa_no_g in H. }
  repeat (apply NoDup_cons; split); [..|constructor]; rewrite ?elem_of_cons, ?elem_of_nil; intros Hin; destruct_or?; try done.
  - by apply Hvg in Hin.
  - by apply (inj (String.append _)), name_inj in Hin.
  - by apply Hvg in Hin.
  - symmetry in Hin. by apply Hvg in Hin.
  - by apply (inj (String.append _)), name_inj in Hin.
  - by apply Hvg in Hin.
Qed.

(** *** What a program does *)

(** Every event of every run of [p] satisfies [P]. *)
Definition emits (P : ev -> Prop) {A} (p : prog A) : Prop := forall t a, runs p t a -> Forall P t.

Lemma emits_ret P {A} (a : A) : emits P (Ret a).
Proof. intros t b [-> _]. constructor. Qed.
Lemma emits_do P {A B} (c : eff B) (k : B -> prog A) :
  (forall b, Forall P (event c b)) -> (forall b, emits P (k b)) -> emits P (Do c k).
Proof. intros Hc Hk t a (b & t' & -> & Hr). apply Forall_app. split; [apply Hc|by eapply Hk]. Qed.
Lemma emits_bind P {A B} (p : prog A) (f : A -> prog B) : emits P p -> (forall a, emits P (f a)) -> emits P (pbind p f).
Proof. intros Hp Hf t b H. bind_in H a t1 t2 H1 H2. apply Forall_app. split; [by eapply Hp|by eapply Hf]. Qed.
Lemma emits_weaken (P Q : ev -> Prop) {A} (p : prog A) : (forall e, P e -> Q e) -> emits P p -> emits Q p.
Proof. intros HPQ Hp t a H. eapply Forall_impl; [by eapply Hp|done]. Qed.

(** No command of the list deletes a namespace. *)
Definition harmless (argv : list string) : Prop := forall ns, argv <> ["ip"; "netns"; "del"; ns].

(** An event that deletes no namespace, detaches no backend, writes no policy and no file. *)
Definition calm (e : ev) : Prop :=
  match e with EvExec argv _ => harmless argv | EvListed _ => True | _ => False end.

(** An event that has to do with the slot of an index only: no namespace but its own is
    deleted, no backend but its own is detached, no policy and no file is written. *)
Definition local_to (idx : Z) (e : ev) : Prop :=
  match e with
  | EvExec argv _ => forall ns, argv = ["ip"; "netns"; "del"; ns] -> ns = nsName idx
  | EvListed _ => True
  | EvDetached ref => r_Index ref = idx
  | EvApplied _ _ _ | EvWritten _ _ => False
  end.

Lemma calm_local idx {A} (p : prog A) : emits calm p -> emits (local_to idx) p.
Proof. apply emits_weaken. intros [argv ok|out|ref|ref snap r|l r]; cbn; try done. intros Hh ns ->. by destruct (Hh ns). Qed.

Lemma emits_exec argv {A} (k : _ -> prog A) : harmless argv -> (forall b, emits calm (k b)) -> emits calm (Do (Exec argv) k).
Proof. intros Ha Hk. apply emits_do; [|done]. intros b. by repeat constructor. Qed.

Lemma emits_quiet P {A B} (c : eff B) (k : B -> prog A) : (forall b, event c b = []) -> (forall b, emits P (k b)) -> emits P (Do c k).
Proof. intros Hc. apply emits_do. intros b. by rewrite Hc. Qed.

Lemma step_calm c : harmless c.2 -> emits calm (step c).
Proof. intros Hc. unfold step, execCmd. apply emits_bind; [|intros; apply emits_ret]. apply emits_exec; [done|intros; apply emits_ret]. Qed.
Lemma steps_calm l : Forall (fun c => harmless c.2) l -> emits calm (steps l).
Proof.
  induction 1 as [|c l Hc _ IH]; cbn [steps]; [apply emits_ret|]. apply emits_bind; [by apply step_calm|]. intros [|]; [apply IH|apply emits_ret].
Qed.
Lemma attempts_calm l : Forall harmless l -> emits calm (attempts l).
Proof. induction 1 as [|argv l Hc _ IH]; cbn [attempts]; [apply emits_ret|]. by apply emits_exec. Qed.
Lemma harmless_in_ns idx argv : harmless (in_ns idx argv).
Proof. by intros ns. Qed.

Ltac harmless_tac := repeat first [apply Forall_nil_2 | apply Forall_cons_2; [first [apply harmless_in_ns | by intros ?]|]].

Lemma netnsExists_calm idx : emits calm (netnsExists idx).
Proof. apply emits_do; [intros; by repeat constructor|]. intros. apply emits_ret. Qed.
Lemma ensureV6_calm s : emits calm (ensureSlotV6Locked s).
Proof.
  unfold ensureSlotV6Locked. destruct (parseSlotULA6 _) as [ula|]; [|apply emits_ret]. apply steps_calm. unfold v6_commands.
  destruct (String.eqb (Tap s) ""); cbn [app map]; harmless_tac.
Qed.
Lemma removeV6_calm s : emits calm (removeSlotV6Locked s).
Proof.
  unfold removeSlotV6Locked. destruct (parseSlotULA6 _) as [ula|]; [|apply emits_ret]. apply attempts_calm.
  destruct (String.eqb (Tap s) ""); cbn [app]; harmless_tac.
Qed.
Lemma with_ref_emits P s (k : SlotRef -> prog (res unit)) : (forall ref, emits P (k ref)) -> emits P (with_ref s k).
Proof. intros Hk. unfold with_ref. destruct (refFor s); [done|apply emits_ret]. Qed.
Lemma ensureNode_calm s : emits calm (ensureNodeBackend s).
Proof.
  apply emits_quiet; [done|]. intros [|]; [|apply emits_ret]. apply with_ref_emits. intros ref. apply emits_quiet; [done|]. intros. apply emits_ret.
Qed.
Lemma tap_calm tap : emits calm (tapExistsInRoot tap).
Proof. unfold tapExistsInRoot. destruct (String.eqb tap ""); [apply emits_ret|]. apply emits_quiet; [done|]. intros. apply emits_ret. Qed.

Lemma ensure_calm s tap ip ip6 : emits calm (ensureKernel s tap ip ip6).
Proof.
  unfold ensureKernel. destruct (vethAddrs _) as [[h n]|]; [|apply emits_ret]. apply emits_bind; [apply ensureNode_calm|]. intros [|]; [|apply emits_ret].
  apply emits_bind; [by apply step_calm; intros ns|]. intros [|]; [|apply emits_ret]. apply emits_bind; [apply tap_calm|].
  intros in_root. apply emits_bind.
  { destruct in_root; [|apply emits_ret]. apply emits_bind.
    - apply emits_exec; [by intros ns|]. intros. apply emits_ret.
    - intros _. apply steps_calm. harmless_tac. }
  intros [|]; [|apply emits_ret]. destruct (String.eqb _ _); [apply emits_ret|apply ensureV6_calm].
Qed.

Lemma deleteNetns_local idx : emits (local_to idx) (deleteNetns idx).
Proof.
  apply emits_do; [intros b; constructor; [by intros ns [= ->]|constructor]|]. intros [[e o]|]; [|apply emits_ret].
  apply emits_bind; [apply calm_local, netnsExists_calm|]. intros [[]|]; apply emits_ret.
Qed.

Lemma setup_netns_calm s : emits calm (setup_netns s).
Proof.
  unfold setup_netns. destruct (vethAddrs _) as [[h n]|]; [|apply emits_ret].
  apply emits_bind; [apply steps_calm; harmless_tac|]. intros [|]; [|apply emits_ret]. destruct gatewayAddr as [[gw mask]|]; [|apply emits_ret].
  apply emits_bind; [apply steps_calm; harmless_tac|]. intros [|]; [|apply emits_ret].
  apply emits_bind; [apply with_ref_emits; intros ref; apply emits_quiet; [done|intros; apply emits_ret]|].
  intros [|]; [|apply emits_ret]. apply emits_bind.
  { apply steps_calm. unfold tap_commands. destruct (String.eqb (Tap s) ""); harmless_tac. }
  intros [|]; [|apply emits_ret]. apply emits_bind; [apply ensureNode_calm|]. intros [|]; [|apply emits_ret].
  apply emits_bind; [by apply step_calm; intros ns|]. intros [|]; [|apply emits_ret].
  destruct (String.eqb _ _); [apply emits_ret|apply ensureV6_calm].
Qed.

Lemma setup_local s : emits (local_to (Index s)) (setupLocked s).
Proof.
  unfold setupLocked. apply emits_bind; [by apply calm_local, step_calm; intros ns|]. intros [[]|]; [|apply emits_ret].
  apply emits_bind; [apply calm_local, setup_netns_calm|]. intros [|]; [apply emits_ret|].
  apply emits_bind; [apply deleteNetns_local|intros; apply emits_ret].
Qed.

Lemma release_local s : emits (local_to (Index s)) (releaseLocked s).
Proof.
  unfold releaseLocked. apply emits_bind.
  { unfold refFor. destruct (vethAddrs _) as [[h n]|]; [|apply emits_ret]. apply emits_do; [intros; by repeat constructor|]. intros. apply emits_ret. }
  intros _. apply emits_bind; [destruct (String.eqb _ _); [apply emits_ret|apply calm_local, removeV6_calm]|]. intros _.
  apply emits_bind; [apply deleteNetns_local|]. intros [[]|]; [|apply emits_ret]. apply emits_bind.
  - destruct (String.eqb _ _); [apply emits_ret|]. apply calm_local, emits_exec; [by intros ns|]. intros. apply emits_ret.
  - intros _. apply emits_quiet; [done|]. intros. apply emits_ret.
Qed.

(** A release tries to delete the namespace. *)
Lemma delete_tries idx t r : runs (deleteNetns idx) t r -> exists ok, EvExec ["ip"; "netns"; "del"; nsName idx] ok ∈ t.
Proof. intros (b & t' & -> & _). eexists. left. Qed.

Lemma release_deletes s t r : runs (releaseLocked s) t r -> exists ok, EvExec ["ip"; "netns"; "del"; nsName (Index s)] ok ∈ t.
Proof.
  intros H. unfold releaseLocked in H. bind_in H a t1 t2 H1 H2. bind_in H2 b t3 t4 H2 H3. bind_in H3 c t5 t6 H3 H4.
  apply delete_tries in H3 as [ok Hok]. exists ok. rewrite !elem_of_app. tauto.
Qed.

Lemma local_unwritten idx t : Forall (local_to idx) t -> forall l r, EvWritten l r ∉ t.
Proof. intros Hf l r Hin. rewrite Forall_forall in Hf. by apply Hf in Hin. Qed.

(** A run that wrote no file. *)
Definition unwritten (t : list ev) : Prop := forall raw, EvWritten raw (Ok tt) ∉ t.
(** The table as it is in the file. *)
Definition text_of (m : Slots) (raw : string) : Prop := marshal_slots (List_ m) = Ok raw.

Lemma unwritten_nil : unwritten [].
Proof. by intros raw ?%elem_of_nil. Qed.
Lemma unwritten_app t1 t2 : unwritten t1 -> unwritten t2 -> unwritten (t1 ++ t2).
Proof. by intros H1 H2 raw [?%H1|?%H2]%elem_of_app. Qed.
Lemma unwritten_local idx t : Forall (local_to idx) t -> unwritten t.
Proof. intros Hf raw. by eapply local_unwritten. Qed.

Lemma persist_runs m t r : runs (persistLocked m) t r ->
  match r with Ok _ => exists raw, text_of m raw /\ t = [EvWritten raw (Ok tt)] | Err _ => unwritten t end.
Proof.
  unfold persistLocked, text_of. intros H. destruct (marshal_slots (List_ m)) as [raw|e].
  - destruct H as (w & t1 & -> & [-> ->]). destruct w as [[]|e]; [by exists raw|]. by intros raw' [=]%list_elem_of_singleton.
  - destruct H as [-> ->]. apply unwritten_nil.
Qed.

(** Attaching a new machine is all or nothing: it succeeds with the least free index,
    without a policy, and the table it gives is the one that was written; when it fails
    the table is what it was, no file was written, and the last thing done is a release
    of the slot, which tries to delete its namespace. *)
Theorem attach_all_or_nothing spec m t m' r :
  m !! ns_MachineID spec = None -> ns_GuestIP spec <> "" -> runs (AttachNetns spec m) t (m', r) ->
  let s := mkSlot (allocIndexLocked m) (ns_MachineID spec) (ns_Tap spec) (ns_GuestIP spec) (ns_GuestIP6 spec) no_policy in
  match r with
  | Ok _ => m' = <[ns_MachineID spec := s]> m /\ 0 <= Index s <= 16000 /\
            exists t1 raw, text_of m' raw /\ unwritten t1 /\ t = (t1 ++ [EvWritten raw (Ok tt)])%list
  | Err _ => m' = m /\ unwritten t /\
      exists t1 t2 released ok, t = (t1 ++ t2)%list /\ runs (releaseLocked s) t2 released /\ EvExec ["ip"; "netns"; "del"; nsName (Index s)] ok ∈ t2
  end.
Proof.
  intros Hn Hip H s. unfold AttachNetns in H. rewrite Hn in H. apply String.eqb_neq in Hip. rewrite Hip in H. fold s in H.
  bind_in H a t1 t2 H1 H2. unfold attach_new in H1. bind_in H1 b t3 t4 H1 H3. pose proof (setup_local s _ _ H1) as Hl1.
  destruct b as [[]|e].
  - destruct H3 as [-> ->]. cbn [MachineID] in H2. rewrite app_nil_r. change (MachineID s) with (ns_MachineID spec) in H2.
    bind_in H2 w t5 t6 H2 H3. apply persist_runs in H2. destruct w as [[]|e].
    + destruct H2 as (raw & Hraw & ->). destruct H3 as [-> [= -> ->]]. split; [done|]. split; [by apply (setup_range s t3)|].
      exists t3, raw. split; [done|]. split; [by eapply unwritten_local|by rewrite app_nil_r].
    + bind_in H3 c t8 t9 H3 H4. destruct H4 as [-> [= -> ->]]. rewrite app_nil_r. split; [by rewrite delete_insert_id|]. split.
      * apply unwritten_app; [by eapply unwritten_local|]. apply unwritten_app; [done|]. by eapply unwritten_local, release_local.
      * destruct (release_deletes _ _ _ H3) as [ok Hok]. exists (t3 ++ t5)%list, t8, c, ok. split; [by rewrite <- app_assoc|done].
  - bind_in H3 c t5 t6 H3 H4. destruct H4 as [-> ->]. destruct H2 as [-> [= -> ->]]. rewrite !app_nil_r. split; [done|]. split.
    + apply unwritten_app; [by eapply unwritten_local|]. by eapply unwritten_local, release_local.
    + destruct (release_deletes _ _ _ H3) as [ok Hok]. by exists t3, t5, c, ok.
Qed.

(** *** Reconciliation *)

Definition deletes (idx : Z) (e : ev) : Prop := exists ok, e = EvExec ["ip"; "netns"; "del"; nsName idx] ok.

Lemma local_spares i j t : i <> j -> Forall (local_to i) t -> Forall (fun e => ~ deletes j e) t.
Proof.
  intros Hne Hf. eapply Forall_impl; [exact Hf|]. intros e He [ok ->]. specialize (He _ eq_refl).
  apply (inj (String.append _)), name_inj in He. congruence.
Qed.

(** A listing shows the namespace of an index. *)
Definition shows (idx : Z) (out : string) : bool :=
  existsb (fun line => has_prefix (trim_space line) (nsName idx +:+ " ") || String.eqb (trim_space line) (nsName idx)) (split_byte newline out).

(** The slot is still there, with its index, TAP and policy. *)
Definition kept (s : Slot) (id : string) (m : Slots) : Prop :=
  exists s', m !! id = Some s' /\ Index s' = Index s /\ Tap s' = Tap s /\ Egress s' = Egress s.

Lemma kept_ne s id id' x m : id <> id' -> kept s id m -> kept s id (<[id' := x]> m).
Proof. intros Hne (s' & Hs & H). exists s'. by rewrite lookup_insert_ne. Qed.

Definition spares (idx : Z) (e : ev) : Prop := ~ deletes idx e.

Lemma calm_spares idx {A} (p : prog A) : emits calm p -> emits (spares idx) p.
Proof. apply emits_weaken. intros [argv ok|out|ref|ref snap r|l r]; cbn; try done; intros Hh [ok' [=]]. subst. by eapply Hh. Qed.

Lemma persist_spares idx m : emits (spares idx) (persistLocked m).
Proof.
  unfold persistLocked. destruct (marshal_slots _); [|apply emits_ret]. apply emits_do; [|intros; apply emits_ret].
  intros b. constructor; [by intros [ok [=]]|constructor].
Qed.

Lemma local_spares_emits i j {A} (p : prog A) : i <> j -> emits (local_to i) p -> emits (spares j) p.
Proof. intros Hne Hp t a H. eapply local_spares; [done|by eapply Hp]. Qed.

Section spared.
Context (live : list LiveInstance) (id : string) (s : Slot) (l : LiveInstance) (all : list ev).
Context (Hl : by_machine live !! id = Some l) (Htap : lv_Tap l = Tap s).
(** While its own namespace is there, every listing shows it. *)
Context (Hshow : forall out, EvListed (Ok out) ∈ all -> shows (Index s) out = true).

Let good (m : Slots) : Prop := slots_inv m /\ kept s id m.

Lemma keep_slot_spares m s1 t m' : m !! id = Some s1 -> Index s1 = Index s -> Tap s1 = Tap s -> Egress s1 = Egress s ->
  runs (keep_slot id s1 l m) t m' -> kept s id m' /\ Forall (spares (Index s)) t /\
  (SMode (Egress s) <> "" -> 0 <= Index s <= 16000 -> exists ref r, r_Index ref = Index s /\ EvApplied ref (Some (Egress s)) r ∈ t).
Proof.
  intros Hs1 Hi Ht He H. unfold keep_slot in H. set (renewed := _ && _) in H. set (s2 := if renewed then _ else s1) in H.
  assert (Index s2 = Index s /\ Egress s2 = Egress s /\ Tap s2 = Tap s) as (Hi2 & He2 & Ht2) by (unfold s2; by destruct renewed).
  bind_in H a t1 t2 H1 H2. bind_in H2 b t3 t4 H2 H3. bind_in H3 c t5 t6 H3 H4. destruct H4 as [-> ->]. rewrite app_nil_r.
  split; [|split].
  - unfold s2 in *. destruct renewed; [|by exists s1]. eexists. rewrite lookup_insert_eq. by split_and!.
  - apply Forall_app. split; [|apply Forall_app; split].
    + destruct renewed; [|by destruct H1 as [-> _]]. eapply calm_spares; [apply removeV6_calm|exact H1].
    + eapply calm_spares; [apply ensure_calm|exact H2].
    + destruct (String.eqb (SMode (Egress s2)) ""); [by destruct H3 as [-> _]|]. refine (with_ref_emits (spares (Index s)) s2 _ _ _ _ H3). intros ref.
      apply emits_do; [|intros; apply emits_ret]. intros r. constructor; [by intros [ok [=]]|constructor].
  - intros Hmode Hr. rewrite He2 in H3. apply String.eqb_neq in Hmode. rewrite Hmode in H3. unfold with_ref in H3.
    destruct (refFor s2) as [ref|e] eqn:Href; [|by destruct (refFor_ok s2) as [? E]; [rewrite Hi2|congruence]].
    destruct H3 as (r & t7 & -> & [-> _]). exists ref, r. split; [|rewrite !elem_of_app; right; right; left; by left].
    unfold refFor in Href. destruct (vethAddrs (Index s2)) as [[]|]; [|done]. by injection Href as <-.
Qed.

Lemma reconcile_slot_spares id' m t m' :
  good m -> runs (reconcile_slot (by_machine live) id' m) t m' -> t ⊆ all ->
  good m' /\ Forall (spares (Index s)) t /\
  (id' = id -> SMode (Egress s) <> "" -> (forall e, EvListed (Err e) ∉ t) -> exists ref r, r_Index ref = Index s /\ EvApplied ref (Some (Egress s)) r ∈ t).
Proof.
  intros [Hinv Hk] H Hsub. assert (Hinv' : slots_inv m') by (by eapply reconcile_slot_inv). destruct (decide (id' = id)) as [->|Hne].
  - destruct Hk as (s1 & Hs1 & Hi & Ht & He). pose proof (si_range _ Hinv _ _ Hs1) as Hrange. rewrite Hi in Hrange.
    unfold reconcile_slot in H. rewrite Hs1 in H. bind_in H a t1 t2 H1 H2.
    destruct H1 as (out & t3 & -> & [-> ->]). destruct out as [out|e].
    + assert (Hout : shows (Index s1) out = true) by (rewrite Hi; apply Hshow, Hsub; left). unfold shows in Hout.
      rewrite Hout, Hl, Htap, Ht, String.eqb_refl in H2. destruct (keep_slot_spares _ _ _ _ Hs1 Hi Ht He H2) as (Hkeep & Hsp & Happ).
      split; [done|]. split; [constructor; [by intros [ok [=]]|done]|]. intros _ Hmode _. destruct (Happ Hmode Hrange) as (ref & r & Hr & Hin).
      exists ref, r. split; [done|]. by right.
    + destruct H2 as [-> ->]. split; [split; [done|by exists s1]|]. split; [repeat constructor; by intros [ok [=]]|].
      intros _ _ Hno. exfalso. eapply Hno. left.
  - destruct Hk as (s1 & Hs1 & Hk1). assert (good m' /\ Forall (spares (Index s)) t) as [Hg Hf]; [|by split_and!; [..|intros ->]].
    unfold reconcile_slot in H. destruct (m !! id') as [s'|] eqn:Hs'; [|destruct H as [-> ->]; split; [by split; [|exists s1]|constructor]].
    assert (Index s' <> Index s) as Hidx.
    { destruct Hk1 as (<- & _). intros E. by apply Hne, (si_index _ Hinv _ _ _ _ Hs' Hs1). }
    assert (Hdel : forall x, x = m \/ x = delete id' m -> kept s id x).
    { intros x [->| ->]; exists s1; [done|]. by rewrite lookup_delete_ne. }
    assert (Hrel : forall t0 p, runs (pbind (releaseLocked s') (fun r => Ret (if is_ok r then delete id' m else p))) t0 m' ->
      p = m \/ p = delete id' m -> kept s id m' /\ Forall (spares (Index s)) t0).
    { intros t0 p Hr Hp. bind_in Hr b t3 t4 H3 H4. destruct H4 as [-> ->]. rewrite app_nil_r. split.
      - apply Hdel. destruct (is_ok b); auto.
      - eapply local_spares; [exact Hidx|by eapply release_local]. }
    bind_in H a t1 t2 H1 H2. destruct H1 as (out & t3 & -> & [-> ->]). cbn [event].
    assert (Hcons : kept s id m' /\ Forall (spares (Index s)) t2 -> good m' /\ Forall (spares (Index s)) (([EvListed out] ++ []) ++ t2)).
    { intros [Hkm Hsp]. split; [by split|]. constructor; [by intros [ok [=]]|done]. }
    apply Hcons. destruct out as [out|e]; [|destruct H2 as [-> ->]; split; [by exists s1|constructor]].
    destruct (existsb _ _).
    + destruct (by_machine live !! id') as [l'|]; [|by eapply Hrel; eauto]. destruct (String.eqb _ _); [|by eapply Hrel; eauto].
      destruct (keep_inv _ _ _ _ _ _ Hs' H2) as [g6 Hm']. split.
      * destruct Hm' as [-> | ->]; [by exists s1|]. apply kept_ne; [done|by exists s1].
      * unfold keep_slot in H2. set (renewed := _ && _) in H2. set (s2 := if renewed then _ else s') in H2. bind_in H2 x t3 t4 H2 H3. bind_in H3 y t5 t6 H3 H4. bind_in H4 z t7 t8 H4 H5.
        destruct H5 as [-> _]. rewrite app_nil_r. apply Forall_app. split; [|apply Forall_app; split].
        -- destruct renewed; [|by destruct H2 as [-> _]]. eapply calm_spares; [apply removeV6_calm|exact H2].
        -- eapply calm_spares; [apply ensure_calm|exact H3].
        -- destruct (String.eqb (SMode (Egress s2)) ""); [by destruct H4 as [-> _]|]. refine (with_ref_emits (spares (Index s)) _ _ _ _ _ H4). intros ref.
           apply emits_do; [|intros; apply emits_ret]. intros r. constructor; [by intros [ok [=]]|constructor].
    + bind_in H2 b t4 t5 H2 H3. destruct H3 as [-> ->]. rewrite app_nil_r. split; [apply Hdel; auto|].
      eapply local_spares; [exact Hidx|by eapply release_local].
Qed.
End spared.

Lemma strays_spare idx strays m : hasIndexLocked m idx = true -> emits (spares idx) (delete_strays strays m).
Proof.
  intros Hidx. induction strays as [|i strays IH]; cbn [delete_strays]; [apply emits_ret|]. apply emits_bind; [|by intros].
  destruct (hasIndexLocked m i) eqn:Hi; [apply emits_ret|]. apply (local_spares_emits i); [|apply deleteNetns_local]. intros ->. congruence.
Qed.

Lemma kept_hasIndex s id m : kept s id m -> hasIndexLocked m (Index s) = true.
Proof.
  intros (s' & Hs & Hi & _). unfold hasIndexLocked. apply existsb_exists. exists (id, s'). split; [by apply list_elem_of_In, elem_of_map_to_list|].
  cbn. by apply Z.eqb_eq.
Qed.

Lemma reconcile_live_spares live s id id' m t m' :
  slots_inv m /\ kept s id m -> runs (reconcile_live live id' m) t m' -> (slots_inv m' /\ kept s id m') /\ Forall (spares (Index s)) t.
Proof.
  intros [Hinv Hk] H. assert (slots_inv m') by (by eapply reconcile_live_inv). pose proof Hk as (s1 & Hs1 & Hi & _).
  unfold reconcile_live in H. destruct (live !! id') as [l|]; [|by destruct H as [-> ->]].
  destruct (m !! id') as [s'|] eqn:Hs'; [by destruct H as [-> ->]|]. bind_in H a t1 t2 H1 H2.
  assert (Forall (spares (Index s)) t1) by (eapply calm_spares; [apply tap_calm|exact H1]).
  destruct a; [|by destruct H2 as [-> ->]; rewrite app_nil_r]. bind_in H2 b t3 t4 H2 H3. destruct H3 as [-> ->]. rewrite app_nil_r.
  assert (id <> id') as Hne by (intros ->; congruence). split.
  - split; [done|]. destruct b as [m1 r]. apply attach_new_inv in H2. cbn [fst MachineID] in *. destruct r; [|by subst].
    destruct H2 as [-> _]. by apply kept_ne.
  - apply Forall_app. split; [done|]. unfold attach_new in H2. set (s2 := mkSlot _ _ _ _ _ _) in H2.
    assert (Index s2 <> Index s) as Hidx by (rewrite <- Hi; apply not_eq_sym; by eapply alloc_fresh).
    bind_in H2 c t5 t6 H2 H3. apply Forall_app. split; [eapply local_spares; [done|by eapply setup_local]|].
    destruct c; [by destruct H3 as [-> _]|]. bind_in H3 d t7 t8 H3 H4. destruct H4 as [-> _]. rewrite app_nil_r.
    eapply local_spares; [done|by eapply release_local].
Qed.

Lemma slots_loop_spares live id s l :
  by_machine live !! id = Some l -> lv_Tap l = Tap s ->
  forall ids m t m', slots_inv m /\ kept s id m -> runs (each (reconcile_slot (by_machine live)) ids m) t m' ->
  (forall out, EvListed (Ok out) ∈ t -> shows (Index s) out = true) ->
  (slots_inv m' /\ kept s id m') /\ Forall (spares (Index s)) t /\
  (id ∈ ids -> SMode (Egress s) <> "" -> (forall e, EvListed (Err e) ∉ t) ->
     exists ref b, r_Index ref = Index s /\ EvApplied ref (Some (Egress s)) b ∈ t).
Proof.
  intros Hl Htap. induction ids as [|i ids IH]; intros m t m1 Hg H Hsh; cbn [each] in H.
  - destruct H as [-> ->]. split; [done|]. split; [constructor|]. by intros ?%elem_of_nil.
  - bind_in H a t2 t3 H1 H2. destruct (reconcile_slot_spares live id s l (t2 ++ t3) Hl Htap Hsh i m t2 a Hg H1) as (Hg' & Hf & Happ);
      [intros e; rewrite elem_of_app; tauto|].
    destruct (IH _ _ _ Hg' H2) as (Hg2 & Hf2 & Happ2); [intros; apply Hsh, elem_of_app; by right|]. split; [done|].
    split; [by apply Forall_app|]. intros Hin Hmode Hno.
    assert (Hno1 : forall e, EvListed (Err e) ∉ t2) by (intros e He; apply (Hno e), elem_of_app; by left).
    assert (Hno2 : forall e, EvListed (Err e) ∉ t3) by (intros e He; apply (Hno e), elem_of_app; by right).
    setoid_rewrite elem_of_app. apply elem_of_cons in Hin as [->|Hin].
    + destruct (Happ eq_refl Hmode Hno1) as (ref & b & ? & ?). exists ref, b. auto.
    + destruct (Happ2 Hin Hmode Hno2) as (ref & b & ? & ?). exists ref, b. auto.
Qed.

Lemma live_loop_spares live s id ids m t m' :
  slots_inv m /\ kept s id m -> runs (each (reconcile_live live) ids m) t m' -> (slots_inv m' /\ kept s id m') /\ Forall (spares (Index s)) t.
Proof.
  revert m t m'. induction ids as [|i ids IH]; intros m t m' Hg H; cbn [each] in H; [destruct H as [-> ->]; by split|].
  bind_in H a t1 t2 H1 H2. destruct (reconcile_live_spares _ _ _ _ _ _ _ Hg H1) as [Hg1 Hf1]. destruct (IH _ _ _ Hg1 H2) as [Hg2 Hf2].
  split; [done|by apply Forall_app].
Qed.

(** C34. A reconciliation spares what runs. A slot whose machine runs with its TAP stays with
    its index and policy, and nothing deletes its namespace - not as the slot of a
    machine that is gone, nor as a stray, nor to undo another attachment - whatever else
    fails; and its policy is installed again when the namespaces could be listed. *)
Theorem reconcile_keeps_live live so lo m t m' r id s l :
  slots_inv m -> m !! id = Some s -> by_machine live !! id = Some l -> lv_Tap l = Tap s ->
  runs (Reconcile live so lo m) t (m', r) ->
  (forall out, EvListed (Ok out) ∈ t -> shows (Index s) out = true) ->
  kept s id m' /\ (forall e, e ∈ t -> ~ deletes (Index s) e) /\
  (id ∈ so -> SMode (Egress s) <> "" -> (forall e, EvListed (Err e) ∉ t) ->
     exists ref b, r_Index ref = Index s /\ EvApplied ref (Some (Egress s)) b ∈ t).
Proof.
  intros Hinv Hs Hl Htap H Hshow. setoid_rewrite <- Forall_forall. change (fun e => ~ deletes (Index s) e) with (spares (Index s)).
  unfold Reconcile in H. bind_in H m1 t1 t2 H1 H2. bind_in H2 st t3 t4 H2 H3. bind_in H3 x t5 t6 H3 H4.
  bind_in H4 m2 t7 t8 H4 H5. bind_in H5 y t9 t10 H5 H6. destruct H6 as [-> [= -> ->]]. rewrite app_nil_r in *.
  assert (slots_inv m /\ kept s id m) as Hg by (split; [done|by exists s]).
  destruct (slots_loop_spares _ _ _ _ Hl Htap _ _ _ _ Hg H1) as (Hg1 & Hf1 & Happ); [intros; apply Hshow, elem_of_app; by left|].
  destruct (live_loop_spares _ _ _ _ _ _ _ Hg1 H4) as [[_ Hk2] Hf4]. split; [done|]. split.
  - apply Forall_app; split; [done|]. apply Forall_app; split.
    { destruct H2 as (out & t11 & -> & [-> _]). constructor; [by intros [ok [=]]|constructor]. }
    apply Forall_app; split; [eapply strays_spare; [by eapply kept_hasIndex, Hg1|exact H3]|]. apply Forall_app; split; [done|].
    by eapply persist_spares.
  - intros Hin Hmode Hno. destruct (Happ Hin Hmode) as (ref & b & ? & ?); [intros e He; apply (Hno e), elem_of_app; by left|].
    exists ref, b. split; [done|]. apply elem_of_app. by left.
Qed.

Lemma slots_loop_forgets live id s l :
  by_machine live !! id = Some l -> lv_Tap l <> Tap s ->
  forall ids m t m', m !! id = None \/ m !! id = Some s -> runs (each (reconcile_slot (by_machine live)) ids m) t m' ->
  m' !! id = None \/ m' !! id = Some s.
Proof.
  intros Hl Htap. apply String.eqb_neq in Htap. induction ids as [|i ids IH]; intros m t m1 HQ H; cbn [each] in H; [by destruct H as [_ ->]|].
  bind_in H a t2 t3 H1 H2. eapply IH; [|exact H2]. destruct (decide (i = id)) as [->|Hne].
  - unfold reconcile_slot in H1. destruct HQ as [Hn|Hs]; [rewrite Hn in H1; destruct H1 as [_ ->]; by left|]. rewrite Hs in H1.
    bind_in H1 b t4 t5 H1 H3. destruct b as [[]|e]; [| |destruct H3 as [_ ->]; by right].
    + rewrite Hl, Htap in H3. bind_in H3 c t6 t7 H3 H4. destruct H4 as [_ ->].
      destruct (is_ok c); [left; apply lookup_delete_eq|by right].
    + bind_in H3 c t6 t7 H3 H4. destruct H4 as [_ ->]. left. apply lookup_delete_eq.
  - apply reconcile_slot_cases in H1 as [->|[->|(s0 & g6 & _ & ->)]]; [done| |]; [by rewrite lookup_delete_ne|by rewrite lookup_insert_ne].
Qed.

Lemma live_loop_forgets live id s ids m t m' :
  (forall s', m !! id = Some s' -> s' = s \/ Egress s' = no_policy) -> runs (each (reconcile_live live) ids m) t m' ->
  forall s', m' !! id = Some s' -> s' = s \/ Egress s' = no_policy.
Proof.
  revert m t. induction ids as [|i ids IH]; intros m t HQ H; cbn [each] in H; [by destruct H as [_ ->]|].
  bind_in H a t2 t3 H1 H2. eapply IH; [|exact H2]. unfold reconcile_live in H1.
  destruct (live !! i) as [l|]; [|by destruct H1 as [_ ->]]. destruct (m !! i); [by destruct H1 as [_ ->]|].
  bind_in H1 b t4 t5 H1 H3. destruct b; [|by destruct H3 as [_ ->]]. bind_in H3 c t6 t7 H3 H4. destruct H4 as [_ ->].
  destruct c as [m2 r]. apply attach_new_inv in H3. cbn [fst MachineID] in *. destruct r; [destruct H3 as [-> _]|by subst].
  intros s'. destruct (decide (i = id)) as [->|]; [rewrite lookup_insert_eq; intros [= <-]; by right|]. rewrite lookup_insert_ne by done. apply HQ.
Qed.

(** A defect: a slot whose machine runs with another TAP is released and attached again
    without the policy it had, which AttachNetns keeps in the same situation. *)
Theorem reconcile_forgets_policy live so lo m t m' r id s s' l :
  m !! id = Some s -> by_machine live !! id = Some l -> lv_Tap l <> Tap s ->
  runs (Reconcile live so lo m) t (m', r) -> m' !! id = Some s' -> s' = s \/ Egress s' = no_policy.
Proof.
  intros Hs Hl Htap H Hs'. unfold Reconcile in H. bind_in H m1 t1 t2 H1 H2. bind_in H2 st t3 t4 H2 H3. bind_in H3 x t5 t6 H3 H4.
  bind_in H4 m2 t7 t8 H4 H5. bind_in H5 y t9 t10 H5 H6. destruct H6 as [_ [= -> _]].
  refine (live_loop_forgets _ id s _ _ _ _ _ H4 s' Hs').
  destruct (slots_loop_forgets _ id s l Hl Htap _ _ _ _ (or_intror Hs) H1) as [Hn|Hs1]; intros s0 Hs0; [congruence|left; congruence].
Qed.

(** *** The policy in force *)

(** What the backend is known to have installed for every index: [None] is not known,
    [Some None] nothing. A call of ApplyEgress that fails leaves what was there when the
    backend is [atomic] - nftables, which gets one batch - and something that is not
    known when it is not: the eBPF backend empties its maps before it fills them. *)
Definition known : Type := Z -> option (option PolicySnapshot).
Definition installs (atomic : bool) (F : known) (e : ev) : known :=
  match e with
  | EvApplied ref p (Ok _) => fun i => if i =? r_Index ref then Some p else F i
  | EvApplied ref _ (Err _) => if atomic then F else fun i => if i =? r_Index ref then None else F i
  | _ => F
  end.
Definition in_force (atomic : bool) (t : list ev) (F : known) : known := fold_left (installs atomic) t F.












(** *** The file *)

Lemma loaded_insert l : (forall s, s ∈ l -> MachineID s <> "") -> loaded l = insert_all (map (fun s => (MachineID s, s)) l) ∅.
Proof.
  unfold loaded, insert_all. generalize (∅ : Slots). induction l as [|s l IH]; intros m Hne; [done|]. cbn.
  destruct (String.eqb_spec (MachineID s) "") as [E|_]; [exfalso; apply (Hne s); [by left|done]|]. apply IH. intros x Hx. apply Hne. by right.
Qed.

Lemma loaded_List m : slots_inv m -> m !! "" = None -> loaded (List_ m) = m.
Proof.
  intros Hinv Hn.
  assert (Hkeys : map (fun s => (MachineID s, s)) (map snd (map_to_list m)) = map_to_list m).
  { rewrite map_map. rewrite <- (map_id (map_to_list m)) at 2. apply map_ext_in. intros [id s] Hin%list_elem_of_In%elem_of_map_to_list. cbn.
    by rewrite (si_key _ Hinv _ _ Hin). }
  assert (Hp : map (fun s => (MachineID s, s)) (List_ m) ≡ₚ map_to_list m).
  { unfold List_. rewrite sort_by_Permutation. by rewrite Hkeys. }
  assert (Hnd : NoDup ((map (fun s => (MachineID s, s)) (List_ m)).*1)) by (rewrite Hp; apply NoDup_fst_map_to_list).
  rewrite loaded_insert.
  - rewrite insert_all_union by done. rewrite map_union_empty. etransitivity; [by apply list_to_map_proper|apply list_to_map_to_list].
  - intros s Hs. unfold List_ in Hs. apply elem_of_sort_by, list_elem_of_fmap in Hs as ([id x] & -> & Hx%elem_of_map_to_list). cbn.
    rewrite (si_key _ Hinv _ _ Hx). intros ->. congruence.
Qed.

(** *** What is written when *)

Definition no_write (e : ev) : Prop := match e with EvWritten _ _ => False | _ => True end.

Lemma calm_no_write {A} (p : prog A) : emits calm p -> emits no_write p.
Proof. by apply emits_weaken; intros [argv ok|out|ref|ref snap r|l r]. Qed.
Lemma local_no_write idx {A} (p : prog A) : emits (local_to idx) p -> emits no_write p.
Proof. by apply emits_weaken; intros [argv ok|out|ref|ref snap r|l r]. Qed.

Lemma release_no_write s : emits no_write (releaseLocked s).
Proof. eapply local_no_write, release_local. Qed.
Lemma egress_no_write s p : emits no_write (with_ref s (fun ref => r <-! ApplyEgress ref p ; Ret r)).
Proof. apply with_ref_emits. intros ref. apply emits_do; [by repeat constructor|intros; apply emits_ret]. Qed.

Lemma attach_new_no_write s m : emits no_write (attach_new s m).
Proof.
  apply emits_bind; [eapply local_no_write, setup_local|]. intros [[]|e]; [apply emits_ret|]. apply emits_bind; [apply release_no_write|].
  intros. apply emits_ret.
Qed.

Lemma keep_slot_no_write id s l m : emits no_write (keep_slot id s l m).
Proof.
  apply emits_bind; [destruct (_ && _); [apply calm_no_write, removeV6_calm|apply emits_ret]|]. intros _.
  apply emits_bind; [apply calm_no_write, ensure_calm|]. intros _. apply emits_bind; [|intros; apply emits_ret].
  destruct (String.eqb _ _); [apply emits_ret|apply egress_no_write].
Qed.

Lemma reconcile_slot_no_write live id m : emits no_write (reconcile_slot live id m).
Proof.
  unfold reconcile_slot. destruct (m !! id) as [s|]; [|apply emits_ret]. apply emits_bind; [apply calm_no_write, netnsExists_calm|].
  assert (forall f : res unit -> Slots, emits no_write (r <~! releaseLocked s ; Ret (f r))) as Hrel
    by (intros f; apply emits_bind; [apply release_no_write|intros; apply emits_ret]).
  intros [[|]|e]; [|apply Hrel|apply emits_ret]. destruct (live !! id) as [l|]; [|apply Hrel].
  destruct (String.eqb _ _); [apply keep_slot_no_write|apply Hrel].
Qed.

Lemma reconcile_live_no_write live id m : emits no_write (reconcile_live live id m).
Proof.
  unfold reconcile_live. destruct (live !! id) as [l|]; [|apply emits_ret]. destruct (m !! id); [apply emits_ret|].
  apply emits_bind; [apply calm_no_write, tap_calm|]. intros [|]; [|apply emits_ret].
  apply emits_bind; [apply attach_new_no_write|intros; apply emits_ret].
Qed.

Lemma each_no_write f ids m : (forall id m, emits no_write (f id m)) -> emits no_write (each f ids m).
Proof. intros Hf. revert m. induction ids as [|id ids IH]; intros m; cbn [each]; [apply emits_ret|]. by apply emits_bind. Qed.

Lemma strays_no_write l m : emits no_write (delete_strays l m).
Proof.
  induction l as [|i l IH]; cbn [delete_strays]; [apply emits_ret|]. apply emits_bind; [|by intros].
  destruct (hasIndexLocked m i); [apply emits_ret|eapply local_no_write, deleteNetns_local].
Qed.

(** A program writes as it should: when it succeeds it wrote the table it gives last, or
    gives the table it got and wrote nothing; when it fails no write succeeded. *)
Definition writes_well (m : Slots) (p : prog (Slots * res unit)) : Prop := forall t m' r, runs p t (m', r) ->
  match r with
  | Ok _ => m' = m /\ Forall no_write t \/ exists t1 raw, t = (t1 ++ [EvWritten raw (Ok tt)])%list /\ text_of m' raw
  | Err _ => unwritten t
  end.

Lemma no_write_unwritten t : Forall no_write t -> unwritten t.
Proof. intros Hf raw Hin. rewrite Forall_forall in Hf. by apply Hf in Hin. Qed.

Lemma writes_ret m r : writes_well m (Ret (m, r)).
Proof. intros t m' r' [-> [= -> ->]]. destruct r; [left; by split|apply unwritten_nil]. Qed.

Lemma writes_after {A} m (p : prog A) f : emits no_write p -> (forall a, writes_well m (f a)) -> writes_well m (pbind p f).
Proof.
  intros Hp Hf t m' r H. bind_in H a t1 t2 H1 H2. apply Hp in H1. specialize (Hf a _ _ _ H2). destruct r.
  - destruct Hf as [[-> Hw]|(t3 & raw & -> & Hraw)]; [left; split; [done|by apply Forall_app]|right]. exists (t1 ++ t3)%list, raw. by rewrite <- app_assoc.
  - apply unwritten_app; [by apply no_write_unwritten|done].
Qed.

Lemma writes_persist m m' : writes_well m (r <~! persistLocked m' ; Ret (m', r)).
Proof.
  intros t m1 r H. bind_in H a t1 t2 H1 H2. destruct H2 as [-> [= -> ->]]. apply persist_runs in H1. rewrite app_nil_r.
  destruct a; [|done]. destruct H1 as (raw & Hraw & ->). right. by exists [], raw.
Qed.

Lemma install_writes id s p as_ back m : writes_well m (install id s p as_ back m).
Proof.
  apply writes_after; [apply egress_no_write|]. intros [[]|e]; [|apply writes_ret]. intros t m1 r H.
  bind_in H w t1 t2 H1 H2. apply persist_runs in H1. destruct w as [[]|e].
  - destruct H2 as [-> [= -> ->]]. destruct H1 as (raw & Hraw & ->). right. by exists [], raw.
  - bind_in H2 u t3 t4 H2 H3. destruct H3 as [-> [= -> ->]]. apply egress_no_write in H2. rewrite app_nil_r.
    apply unwritten_app; [done|by apply no_write_unwritten].
Qed.

Lemma attach_writes spec m : writes_well m (AttachNetns spec m).
Proof.
  unfold AttachNetns. destruct (m !! ns_MachineID spec) as [s|] eqn:Hs.
  - unfold reattach. apply writes_after.
    { destruct (_ && _); [|apply emits_ret]. apply emits_do; [by repeat constructor|intros; apply emits_ret]. }
    intros _. apply writes_after; [apply calm_no_write, ensure_calm|]. intros [|e]; [|apply writes_ret].
    apply writes_after; [destruct (_ && _); [apply calm_no_write, removeV6_calm|apply emits_ret]|]. intros _. apply writes_persist.
  - destruct (String.eqb_spec (ns_GuestIP spec) ""); [apply writes_ret|]. intros t m' r H.
    assert (runs (AttachNetns spec m) t (m', r)) as Ha.
    { unfold AttachNetns. rewrite Hs. apply String.eqb_neq in n. by rewrite n. }
    apply attach_all_or_nothing in Ha; [|done..]. destruct r; [|by apply Ha].
    destruct Ha as (_ & _ & t1 & raw & Hraw & _ & ->). right. by exists t1, raw.
Qed.

Lemma op_writes o m : writes_well m (do_op o m).
Proof.
  destruct o as [spec|id|spec|live so lo|id snap|id snap present|id|id]; cbn [do_op].
  - apply attach_writes.
  - unfold DetachNetns. destruct (m !! id) as [s|]; [|apply writes_ret].
    apply writes_after; [apply release_no_write|]. intros [|e]; [apply writes_persist|apply writes_ret].
  - unfold Check_. destruct (m !! ns_MachineID spec); [|apply writes_ret].
    apply writes_after; [apply calm_no_write, ensure_calm|intros; apply writes_ret].
  - apply writes_after; [apply each_no_write; apply reconcile_slot_no_write|]. intros m1.
    apply writes_after; [apply emits_do; [by repeat constructor|intros; apply emits_ret]|]. intros strays.
    apply writes_after; [apply strays_no_write|]. intros _.
    apply writes_after; [apply each_no_write; apply reconcile_live_no_write|]. intros m2. apply writes_persist.
  - unfold ApplySnapshot. destruct (m !! id); [|apply writes_ret]. destruct (_ <? _); [apply writes_ret|apply install_writes].
  - unfold RollbackSnapshot. destruct (m !! id); [|apply writes_ret]. apply writes_after; [apply egress_no_write|].
    intros [|e]; [apply writes_persist|apply writes_ret].
  - unfold RemoveSnapshot. destruct (m !! id); [|apply writes_ret]. destruct (String.eqb _ _); [apply writes_ret|apply install_writes].
  - unfold RestoreSnapshot. destruct (m !! id); [|apply writes_ret]. destruct (String.eqb _ _); [apply writes_ret|].
    apply writes_after; [apply egress_no_write|intros; apply writes_ret].
Qed.

(** What the file can hold after a trace: a write that failed may have replaced it or not. *)
Fixpoint file_after (t : list ev) (f g : option string) : Prop :=
  match t with
  | [] => g = f
  | EvWritten raw (Ok _) :: t => file_after t (Some raw) g
  | EvWritten raw (Err _) :: t => file_after t f g \/ file_after t (Some raw) g
  | _ :: t => file_after t f g
  end.

Lemma file_after_app t raw f g : file_after (t ++ [EvWritten raw (Ok tt)]) f g -> g = Some raw.
Proof. revert f. induction t as [|[argv ok|out|ref|ref p r|raw' [[]|e]] t IH]; intros f; cbn; try apply IH; [done|]. by intros [?%IH|?%IH]. Qed.

Lemma file_after_quiet t f g : Forall no_write t -> file_after t f g -> g = f.
Proof. intros Ht. revert f. induction Ht as [|e t He _ IH]; intros f; [done|]. destruct e; try apply IH. done. Qed.

Lemma file_after_unwritten t f g : unwritten t -> file_after t f g -> g = f \/ exists raw e, EvWritten raw (Err e) ∈ t /\ g = Some raw.
Proof.
  revert f. induction t as [|e t IH]; intros f Hu Hg; [by left|].
  assert (unwritten t) as Hu' by (intros raw Hin; apply (Hu raw); by right).
  assert (forall f', file_after t f' g -> g = f' \/ exists raw e', EvWritten raw (Err e') ∈ e :: t /\ g = Some raw) as Hlift.
  { intros f' Hf. destruct (IH f' Hu' Hf) as [->|(raw & e' & Hin & ->)]; [by left|]. right. exists raw, e'. split; [by right|done]. }
  destruct e as [argv ok|out|ref|ref p r|raw [[]|e]]; cbn in Hg; try by apply Hlift.
  - exfalso. apply (Hu raw). by left.
  - destruct Hg as [Hg|Hg]; [by apply Hlift|]. destruct (Hlift _ Hg) as [->|H]; [|by right]. right. exists raw, e. split; [by left|done].
Qed.

(** C36. What a restart reads. A new process that loads the file after an operation that
    succeeded has the table the operation left, or the file is the one that was there
    and the operation has changed nothing; after one that failed the file is the one that
    was there unless a write of the failed operation, which reported its error, has
    reached it. This is for JSON that reads back what it writes, and for tables whose
    machines have names - Load drops an entry without one - and whose strings are ASCII. *)
Theorem restart_reads_table `{!StateCodecLaws C} o m t m' r f g :
  slots_inv m -> runs (do_op o m) t (m', r) -> file_after t f g -> m' !! "" = None -> Forall writable (List_ m') ->
  match r with
  | Ok _ => Load (Ok g) ∅ = (m', Ok tt) \/ m' = m /\ g = f
  | Err _ => g = f \/ exists raw e, EvWritten raw (Err e) ∈ t /\ g = Some raw
  end.
Proof.
  intros Hinv H Hg Hn Hw. assert (slots_inv m') as Hinv' by (eapply slot_step_inv; [exact Hinv|by exists o, t, r]).
  apply op_writes in H. destruct r as [[]|e]; [|by apply file_after_unwritten].
  destruct H as [[-> Ht]|(t1 & raw & -> & Hraw)]; [right; split; [done|by eapply file_after_quiet]|left].
  apply file_after_app in Hg as ->. unfold Load. rewrite (unmarshal_marshal _ _ Hw Hraw). f_equal. by apply loaded_List.
Qed.
End manager.

(** ** Concrete runs *)

Module Witness.

(** A small kernel: the namespaces, the links of the root namespace, and what refuses. *)
Record Kernel := mkKernel { spaces_ : list string; links : list string; refuses : list string; disk_full : bool; policy_broken : bool }.
Definition is_cmd (argv cmd : list string) : bool := bool_decide (argv = cmd).
Definition without (x : string) : list string -> list string := List.filter (fun y => negb (String.eqb x y)).
Definition refused (argv : list string) (k : Kernel) : bool := existsb (fun w => existsb (String.eqb w) argv) (refuses k).

Definition exec_ (argv : list string) (k : Kernel) : Kernel * option (goerr * string) :=
  if refused argv k then (k, Some (errors_New "exit status 1", "refused"))
  else match argv with
  | ["ip"; "netns"; "add"; n] => (mkKernel (n :: spaces_ k) (links k) (refuses k) (disk_full k) (policy_broken k), None)
  | ["ip"; "netns"; "del"; n] =>
      if existsb (String.eqb n) (spaces_ k) then (mkKernel (without n (spaces_ k)) (links k) (refuses k) (disk_full k) (policy_broken k), None)
      else (k, Some (errors_New "exit status 1", "No such file"))
  | ["ip"; "link"; "set"; tap; "netns"; _] => (mkKernel (spaces_ k) (without tap (links k)) (refuses k) (disk_full k) (policy_broken k), None)
  | _ => (k, None)
  end.

Definition perform (_ : nat) {B} (c : eff B) (k : Kernel) : Kernel * B :=
  match c in eff B return Kernel * B with
  | Exec argv => exec_ argv k
  | NetnsList => (k, Ok (join (String newline "") (spaces_ k)))
  | LinkExists name => (k, existsb (String.eqb name) (links k))
  | AwaitGone _ => (k, Gone)
  | EnsureNode => (k, Ok tt)
  | AttachSlot _ => (k, Ok tt)
  | DetachSlot _ => (k, Ok tt)
  | EnsureSlotNAT _ => (k, Ok tt)
  | ApplyEgress _ _ => (k, if policy_broken k then Err (errors_New "nft: exit status 1") else Ok tt)
  | WriteState _ => (k, if disk_full k then Err (errors_New "no space left on device") else Ok tt)
  end.

(** A codec that keeps its law: a slot as a tree, the trees as a number, in binary. *)
Abbreviation tree := (gen_tree (string + Z)).
Definition text (s : string) : tree := GenLeaf (inl s).
Definition number (z : Z) : tree := GenLeaf (inr z).
Definition texts (l : list string) : tree := GenNode 0 (map text l).
Definition untexts (l : list tree) : list string := omap (fun t => match t with GenLeaf (inl s) => Some s | _ => None end) l.
Definition slot_tree (s : Slot) : tree :=
  let p := Egress s in
  GenNode 0 [number (Index s); text (MachineID s); text (Tap s); text (GuestIP s); text (GuestIP6 s);
    text (SMode p); texts (SAllowedCIDRs p); texts (SDeniedCIDRs p); texts (SDomains p); number (SMaxTCPConns p); number (SGeneration p);
    number (Z.b2z (SAuditAll p)); number (SProxyPort80 p); number (SProxyPort443 p)].
Definition tree_slot (t : tree) : option Slot :=
  match t with
  | GenNode _ [GenLeaf (inr i); GenLeaf (inl id); GenLeaf (inl tap); GenLeaf (inl ip); GenLeaf (inl ip6); GenLeaf (inl mode);
               GenNode _ allowed; GenNode _ denied; GenNode _ domains; GenLeaf (inr conns); GenLeaf (inr gen); GenLeaf (inr audit);
               GenLeaf (inr p80); GenLeaf (inr p443)] =>
      Some (mkSlot i id tap ip ip6 (mkSnapshot mode (untexts allowed) (untexts denied) (untexts domains) conns gen (audit =? 1) p80 p443))
  | _ => None
  end.
Lemma untexts_texts l : untexts (map text l) = l.
Proof. induction l as [|s l IH]; cbn; [done|]. by rewrite <- IH at 2. Qed.
Lemma tree_slot_tree s : tree_slot (slot_tree s) = Some s.
Proof. destruct s as [? ? ? ? ? [? ? ? ? ? ? [] ? ?]]; cbn -[untexts map]; by rewrite !untexts_texts. Qed.

Fixpoint bits (p : positive) : string :=
  match p with xH => "" | xO p => String "0" (bits p) | xI p => String "1" (bits p) end.
Fixpoint unbits (s : string) : positive :=
  match s with EmptyString => xH | String c s => if Ascii.eqb c "0" then xO (unbits s) else xI (unbits s) end.
Lemma unbits_bits p : unbits (bits p) = p.
Proof. induction p as [p IH|p IH|]; cbn; by rewrite ?IH. Qed.

#[export] Instance codec : StateCodec := {|
  marshal_slots l := Ok (bits (encode (map slot_tree l)));
  unmarshal_slots raw := match decode (unbits raw) with Some l => Ok (omap tree_slot l) | None => Err (errors_New "unexpected end of JSON input") end |}.
#[export] Instance codec_laws : StateCodecLaws codec.
Proof.
  intros l raw _ [= <-]. cbn -[encode decode]. rewrite unbits_bits, decode_encode. f_equal.
  induction l as [|s l IH]; [done|]. cbn -[tree_slot slot_tree]. by rewrite tree_slot_tree, IH.
Qed.

Definition cfg : Config := mkConfig "172.16.0.0/24" "172.16.0.1" "/data/slots.json" 18080 18443 "fp" "10.12.0.0/16".
Definition base : Z * Z := (10, 12).
Definition go (o : op) (m : Slots) (k : Kernel) := run (@event) (@perform) (do_op cfg base o m) 0 k.

Lemma go_runs o m k : Programs.runs (@event) (do_op cfg base o m) (go o m k).2 (go o m k).1.2.
Proof. unfold go. pose proof (run_runs (@event) (@perform) (do_op cfg base o m) 0 k) as H. by destruct (run _ _ _ _ _) as [[s a] t]. Qed.

(** Two machines are attached. *)
Definition k0 : Kernel := mkKernel [] ["tap0"; "tap1"] [] false false.
Definition spec (id tap ip : string) : NetnsSpec := mkSpec id tap ip "".
Definition one := go (OpAttach (spec "m1" "tap0" "172.16.0.2")) ∅ k0.
Definition two := go (OpAttach (spec "m2" "tap1" "172.16.0.3")) one.1.2.1 one.1.1.
Definition m2 : Slots := two.1.2.1.
Definition k2 : Kernel := two.1.1.
Definition slot1 : Slot := mkSlot 0 "m1" "tap0" "172.16.0.2" "" no_policy.
Definition slot2 : Slot := mkSlot 1 "m2" "tap1" "172.16.0.3" "" no_policy.

Example configuration : New (mkConfig "172.16.0.0/24" "" "/data/slots.json" 0 0 "" "") = Ok (cfg, base).
Proof. by vm_compute. Qed.

Example attached : two.1.2.2 = Ok tt /\ map_to_list m2 ≡ₚ [("m1", slot1); ("m2", slot2)] /\ spaces_ k2 = ["fp-slot-1"; "fp-slot-0"] /\ links k2 = [].
Proof. vm_compute. split_and!; try done. Qed.

Lemma m2_eq : m2 = {["m1" := slot1; "m2" := slot2]}.
Proof. by vm_compute. Qed.

Lemma m2_reached : rtc (slot_step cfg base) ∅ m2.
Proof.
  apply (rtc_l _ _ one.1.2.1); [|apply (rtc_l _ _ m2); [|constructor]].
  - exists (OpAttach (spec "m1" "tap0" "172.16.0.2")), one.2, one.1.2.2. rewrite <- surjective_pairing. apply go_runs.
  - exists (OpAttach (spec "m2" "tap1" "172.16.0.3")), two.2, two.1.2.2. unfold m2. rewrite <- surjective_pairing. apply go_runs.
Qed.

Lemma m2_inv : slots_inv m2.
Proof. eapply slot_steps_inv; [apply empty_inv|apply m2_reached]. Qed.
Lemma m2_slot1 : m2 !! "m1" = Some slot1.
Proof. by vm_compute. Qed.
Lemma m2_slot2 : m2 !! "m2" = Some slot2.
Proof. by vm_compute. Qed.

Lemma machines_never_share_witness : exists ref ref', refFor cfg base slot1 = Ok ref /\ refFor cfg base slot2 = Ok ref' /\ Netns ref <> Netns ref'.
Proof.
  destruct (machines_never_share cfg base m2 "m1" "m2" slot1 slot2) as (ref & ref' & H1 & H2 & H3 & _);
    [by split; cbn; lia|apply m2_reached|apply m2_slot1|apply m2_slot2|done|]. by exists ref, ref'.
Defined.

(** A full disk: the attachment is undone. *)
Definition full : Kernel := mkKernel (spaces_ k2) ["tap2"] [] true false.
Definition failed := go (OpAttach (spec "m3" "tap2" "172.16.0.4")) m2 full.
Example undone : failed.1.2 = (m2, Err (errors_New "no space left on device")) /\ spaces_ failed.1.1 = spaces_ k2.
Proof. by vm_compute. Qed.

Lemma attach_all_or_nothing_witness : failed.1.2.1 = m2 /\ unwritten failed.2.
Proof.
  pose proof (attach_all_or_nothing cfg base (spec "m3" "tap2" "172.16.0.4") m2 failed.2 failed.1.2.1 failed.1.2.2) as H.
  rewrite <- surjective_pairing in H. specialize (H ltac:(by vm_compute) ltac:(done) (go_runs (OpAttach (spec "m3" "tap2" "172.16.0.4")) m2 full)).
  replace (failed.1.2.2) with (@Err unit (errors_New "no space left on device")) in H by (by vm_compute). destruct H as (H1 & H2 & _). by split.
Defined.

(** A reconciliation with both machines running, of which the first has a policy. *)
Definition policy : PolicySnapshot := mkSnapshot "allowlist" ["10.0.0.0/8"] [] [] 0 0 false 3 0.
Definition applied := go (OpApply "m1" policy) m2 k2.
Definition m3 : Slots := applied.1.2.1.
Definition slot1' : Slot := with_policy policy slot1.
Definition live1 : LiveInstance := mkLive "m1" "tap0" "172.16.0.2" "".
Definition live2 : LiveInstance := mkLive "m2" "tap1" "172.16.0.3" "".
Definition reconciled := go (OpReconcile [live1; live2] ["m2"; "m1"] ["m1"; "m2"]) m3 applied.1.1.
Example all_kept : reconciled.1.2 = (m3, Ok tt) /\ spaces_ reconciled.1.1 = spaces_ k2 /\ m3 !! "m1" = Some slot1'.
Proof. by vm_compute. Qed.

Lemma m3_inv : slots_inv m3.
Proof.
  eapply slot_steps_inv; [apply m2_inv|]. eapply rtc_l; [|constructor]. exists (OpApply "m1" policy), applied.2, applied.1.2.2.
  unfold m3. rewrite <- surjective_pairing. apply go_runs.
Qed.

(** Everything the namespaces were listed as. *)
Lemma listed_ok (P : string -> bool) t : forallb (fun e => match e with EvListed (Ok out) => P out | EvListed (Err _) => false | _ => true end) t = true ->
  (forall out, EvListed (Ok out) ∈ t -> P out = true) /\ (forall e, EvListed (Err e) ∉ t).
Proof.
  intros H. rewrite forallb_forall in H. split; intros x Hx%list_elem_of_In; apply H in Hx; [done|by discriminate Hx].
Qed.

Lemma reconcile_keeps_live_witness : kept slot1' "m1" reconciled.1.2.1 /\ (forall e, e ∈ reconciled.2 -> ~ deletes cfg (Index slot1') e).
Proof.
  destruct (listed_ok (shows cfg (Index slot1')) reconciled.2) as [Hl He]; [by vm_compute|].
  pose proof (reconcile_keeps_live cfg base [live1; live2] ["m2"; "m1"] ["m1"; "m2"] m3 reconciled.2 reconciled.1.2.1 reconciled.1.2.2 "m1" slot1' live1) as H.
  rewrite <- surjective_pairing in H.
  destruct (H m3_inv ltac:(by vm_compute) ltac:(by vm_compute) eq_refl (go_runs (OpReconcile [live1; live2] ["m2"; "m1"] ["m1"; "m2"]) m3 applied.1.1) Hl) as (H1 & H2 & _).
  by split.
Defined.

(** The same, but the first machine runs with another TAP, which is in the root namespace: its policy is gone. *)
Definition moved := go (OpReconcile [mkLive "m1" "tap9" "172.16.0.2" ""; live2] ["m1"; "m2"] ["m1"; "m2"]) m3 (mkKernel (spaces_ k2) ["tap9"] [] false false).
Lemma reconcile_forgets_policy_witness :
  moved.1.2.1 !! "m1" = Some (mkSlot 0 "m1" "tap9" "172.16.0.2" "" no_policy) /\ Egress (mkSlot 0 "m1" "tap9" "172.16.0.2" "" no_policy) = no_policy.
Proof.
  assert (moved.1.2.1 !! "m1" = Some (mkSlot 0 "m1" "tap9" "172.16.0.2" "" no_policy)) as Hs by (by vm_compute). split; [exact Hs|].
  pose proof (reconcile_forgets_policy cfg base [mkLive "m1" "tap9" "172.16.0.2" ""; live2] ["m1"; "m2"] ["m1"; "m2"] m3 moved.2 moved.1.2.1 moved.1.2.2
    "m1" slot1' (mkSlot 0 "m1" "tap9" "172.16.0.2" "" no_policy) (mkLive "m1" "tap9" "172.16.0.2" "")) as H.
  rewrite <- surjective_pairing in H.
  destruct (H ltac:(by vm_compute) ltac:(by vm_compute) ltac:(done) (go_runs (OpReconcile [mkLive "m1" "tap9" "172.16.0.2" ""; live2] ["m1"; "m2"] ["m1"; "m2"]) m3
             (mkKernel (spaces_ k2) ["tap9"] [] false false)) Hs) as [E|E]; [discriminate E|exact E].
Defined.

(** The backend refuses the second policy: the first stays in force. *)
Definition newer : PolicySnapshot := mkSnapshot "deny_by_default" [] [] [] 0 0 false 4 0.
Definition in_force3 : known := fun i => Some (if i =? 0 then Some policy else None).
Definition broken := go (OpApply "m1" newer) m3 (mkKernel (spaces_ k2) [] [] false true).
Definition renewed := go (OpApply "m1" newer) m3 k2.



(** The eBPF backend may have emptied its maps: what is in force is not known until a
    snapshot is applied again. *)
Example emptied : in_force false broken.2 in_force3 0 = None /\ in_force true broken.2 in_force3 0 = Some (Some policy) /\
  in_force false renewed.2 (in_force false broken.2 in_force3) 0 = Some (Some newer).
Proof. by vm_compute. Qed.


(** The file of the two machines, with the policy of one: what it held before does not matter. *)
Definition file3 : option string := match marshal_slots (List_ m3) with Ok raw => Some raw | Err _ => None end.
Lemma applied_runs : Programs.runs (@event) (ApplySnapshot cfg base "m1" policy m2) applied.2 (m3, Ok tt).
Proof. replace (m3, Ok tt) with applied.1.2 by (by vm_compute). exact (go_runs (OpApply "m1" policy) m2 k2). Qed.
Lemma applied_file : file_after applied.2 None file3.
Proof. by vm_compute. Qed.
Lemma m3_writable : Forall writable (List_ m3).
Proof. assert (List_ m3 = [slot1'; slot2]) as -> by (by vm_compute). repeat constructor; vm_compute; done. Qed.
Lemma m3_named : m3 !! "" = None.
Proof. by vm_compute. Qed.
Lemma m3_changed : m3 <> m2.
Proof. intros H%(f_equal (fun m : Slots => SMode ∘ Egress <$> m !! "m1")). vm_compute in H. discriminate H. Qed.

Lemma restart_reads_table_witness : Load (Ok file3) ∅ = (m3, Ok tt).
Proof.
  destruct (restart_reads_table cfg base (OpApply "m1" policy) m2 applied.2 m3 (Ok tt) None file3 m2_inv applied_runs applied_file m3_named m3_writable)
    as [H|[H _]]; [exact H|by apply m3_changed in H].
Defined.

(** Two things the code does not mean. The inventory of running machines is read before
    the reconciliation gets the lock: a machine that is attached in between loses its
    namespace, with its TAP in it, so that no later reconciliation brings it back. *)
Definition stale := go (OpReconcile [live1] ["m1"; "m2"] ["m1"]) m2 k2.
Definition healed := go (OpReconcile [live1; live2] ["m1"] ["m1"; "m2"]) stale.1.2.1 stale.1.1.
Example stale_inventory_kills : stale.1.2.1 !! "m2" = None /\ spaces_ stale.1.1 = ["fp-slot-0"] /\ healed.1.2.1 !! "m2" = None.
Proof. by vm_compute. Qed.

(** Interface names have at most 15 bytes, which a valid prefix exceeds. *)
Example interface_name_too_long :
  is_ok (New (mkConfig "172.16.0.0/24" "" "/data/slots.json" 0 0 "firepaas" "")) = true /\
  String.length (vethGuest (mkConfig "172.16.0.0/24" "" "/data/slots.json" 0 0 "firepaas" "") 1000) = 16%nat.
Proof. by vm_compute. Qed.
End Witness.
