(* ===== verification/Nft.v ===== *)
(** * The nftables back end

    internal/agent/network/slot/nft.go: the data plane of [Slots] written as nftables
    rules - the isolation tables of the node, the table of a slot with its masquerading,
    its transparent proxy and its egress rules. The rules are data ([cmd], [rule]) with
    the text the code writes ([tokens], [argv_of], [line_of]). What nft and the kernel do
    with them is not code of the repository: it is the class [Nftables], with what the
    manual says of the part of the language that is used as its laws ([NftablesLaws]),
    and [Witness] holds an instance. The commands run as effects of [Programs]. *)
From Stdlib Require Import Ascii.
From S2P Require Import Prelude Programs GoString GoNet EgressPolicy Slots.

#[local] Open Scope string_scope.
#[local] Open Scope Z_scope.
#[local] Open Scope prog_scope.

(** ** Rules *)

Definition quote : string := String (ascii_of_nat 34) "".
Definition quoted (s : string) : string := quote +:+ s +:+ quote.

Inductive cond :=
  | Iif (eq : bool) (name : string)
  | IifSlot
  | Oif (name : string)
  | Daddr (eq : bool) (addr : string)
  | DaddrSet (set : string)
  | DaddrIn (text : string) (l : list string)
  | Saddr (cidr : string)
  | Dport (port : Z)
  | Dports (port80 port443 : Z)
  | Tcp | CtNew | CtEstablished
  | CtCountOver (n : Z)
  | Neighbour.

Inductive action := Accept | Drop | Masquerade | Dnat (addr : string) (port : Z).

(** A rule, with what it counts and says about itself. *)
Record rule := mkRule { conds : list cond; counted : bool; action_of : action; comment : string }.
Definition when (c : list cond) (a : action) : rule := mkRule c false a "".

Inductive cmd :=
  | AddTable | DeleteTable
  | AddSet (set : string) (spec : list string)
  | DeleteSet (set : string)
  | AddElement (set : string) (l : list string)
  | AddChain (chain : string) (spec : list string)
  | DeleteChain (chain : string)
  | FlushChain (chain : string)
  | AddRule (chain : string) (r : rule).

(** A family and the name of a table. *)
Definition table : Type := string * string.

Definition neq (eq : bool) : list string := if eq then [] else ["!="].

Definition cond_tokens (c : cond) : list string :=
  match c with
  | Iif eq name => (["iifname"] ++ neq eq ++ [name])%list
  | IifSlot => ["iifname"; "@slot-veths"]
  | Oif name => ["oifname"; name]
  | Daddr eq a => (["ip"; "daddr"] ++ neq eq ++ [a])%list
  | DaddrSet s => ["ip"; "daddr"; "@" +:+ s]
  | DaddrIn text _ => ["ip"; "daddr"; text]
  | Saddr c => ["ip"; "saddr"; c]
  | Dport p => ["tcp"; "dport"; itoa p]
  | Dports p q => ["tcp"; "dport"; "{"; itoa p +:+ "," +:+ itoa q; "}"]
  | Tcp => ["meta"; "l4proto"; "tcp"]
  | CtNew => ["ct"; "state"; "new"]
  | CtEstablished => ["ct"; "state"; "established,related"]
  | CtCountOver n => ["ct"; "count"; "over"; itoa n]
  | Neighbour => ["icmpv6"; "type"; "{"; "nd-router-solicit,"; "nd-router-advert,"; "nd-neighbor-solicit,"; "nd-neighbor-advert,"; "nd-redirect"; "}"]
  end.
Definition action_tokens (a : action) : list string :=
  match a with
  | Accept => ["accept"] | Drop => ["drop"] | Masquerade => ["masquerade"]
  | Dnat a p => ["dnat"; "to"; a +:+ ":" +:+ itoa p]
  end.
Definition rule_tokens (r : rule) : list string :=
  (concat (map cond_tokens (conds r)) ++ (if counted r then ["counter"] else []) ++ action_tokens (action_of r) ++
   (if String.eqb (comment r) "" then [] else ["comment"; quoted (comment r)]))%list.

Definition tokens (t : table) (c : cmd) : list string :=
  let named verb kind := [verb; kind; t.1; t.2] in
  (match c with
   | AddTable => named "add" "table" | DeleteTable => named "delete" "table"
   | AddSet s spec => named "add" "set" ++ [s; "{"] ++ spec ++ ["}"]
   | DeleteSet s => named "delete" "set" ++ [s]
   | AddElement s l => named "add" "element" ++ [s; "{"; join ", " l; "}"]
   | AddChain ch spec => named "add" "chain" ++ [ch; "{"] ++ spec ++ ["}"]
   | DeleteChain ch => named "delete" "chain" ++ [ch]
   | FlushChain ch => named "flush" "chain" ++ [ch]
   | AddRule ch r => named "add" "rule" ++ [ch] ++ rule_tokens r
   end)%list.

(** As a command, and as a line of a batch. *)
Definition argv_of (t : table) (c : cmd) : list string := "nft" :: tokens t c.
Definition line_of (t : table) (c : cmd) : string := join " " (tokens t c) +:+ String newline "".
Definition script_text (t : table) (l : list cmd) : string := String.concat "" (map (line_of t) l).

(** *** What they mean *)

(** A packet as the rules see it: [from_slot] is whether its input interface is in the
    set "slot-veths" of the table, [count] is the number of connections the limit counts. *)
Record packet := mkPacket {
  iif : string; from_slot : bool; oif : string; saddr : Addr; daddr : Addr; dport : option Z; fresh : bool; count : Z; neighbour : bool }.

Definition is_addr (text : string) (a : Addr) : bool := bool_decide (ParseAddr text = Some a).
Definition within (a : Addr) (cidr : string) : bool := match ParsePrefix cidr with Some p => Contains p a | None => false end.

Record contents := mkContents { sets : gmap string (list string); chains : gmap string (list rule) }.
Definition elements (c : contents) (s : string) : list string := default [] (sets c !! s).
Definition rules (c : contents) (ch : string) : list rule := default [] (chains c !! ch).

Definition holds_ (c : contents) (p : packet) (k : cond) : bool :=
  match k with
  | Iif eq name => Bool.eqb eq (String.eqb (quoted (iif p)) name)
  | IifSlot => from_slot p
  | Oif name => String.eqb (oif p) name || String.eqb (quoted (oif p)) name
  | Daddr eq a => Bool.eqb eq (is_addr a (daddr p))
  | DaddrSet s => existsb (within (daddr p)) (elements c s)
  | DaddrIn _ l => existsb (within (daddr p)) l
  | Saddr cidr => within (saddr p) cidr
  | Dport port => match dport p with Some d => d =? port | None => false end
  | Dports p80 p443 => match dport p with Some d => (d =? p80) || (d =? p443) | None => false end
  | Tcp => match dport p with Some _ => true | None => false end
  | CtNew => fresh p
  | CtEstablished => negb (fresh p)
  | CtCountOver n => n <? count p
  | Neighbour => neighbour p
  end.

(** The first rule that matches; without one the policy of the chain, which accepts. *)
Fixpoint first_match (c : contents) (p : packet) (l : list rule) : option action :=
  match l with
  | [] => None
  | r :: l => if forallb (holds_ c p) (conds r) then Some (action_of r) else first_match c p l
  end.

(** Two elements that an interval set without auto-merge does not hold both. *)
Definition overlapping (a b : string) : bool :=
  String.eqb a b ||
  match ParsePrefix a, ParsePrefix b with
  | Some p, Some q => Contains p (PAddr q) || Contains q (PAddr p)
  | _, _ => false
  end.
Fixpoint apart (l : list string) : bool :=
  match l with [] => true | a :: l => forallb (fun b => negb (overlapping a b)) l && apart l end.

(** What a command does to a table where the manual says that it succeeds; [None] says
    nothing about it. *)
Definition documented (c : cmd) (t : option contents) : option (option contents) :=
  match c, t with
  | AddTable, None => Some (Some (mkContents ∅ ∅))
  | AddTable, Some _ => Some t
  | DeleteTable, Some _ => Some None
  | AddSet s _, Some x =>
      if decide (sets x !! s = None) then Some (Some (mkContents (<[s := []]> (sets x)) (chains x))) else None
  | AddElement s l, Some x =>
      l0 ← sets x !! s;
      if apart (l0 ++ l) then Some (Some (mkContents (<[s := (l0 ++ l)%list]> (sets x)) (chains x))) else None
  | AddChain ch _, Some x =>
      if decide (chains x !! ch = None) then Some (Some (mkContents (sets x) (<[ch := []]> (chains x)))) else None
  | FlushChain ch, Some x => _ ← chains x !! ch; Some (Some (mkContents (sets x) (<[ch := []]> (chains x))))
  | AddRule ch r, Some x => l ← chains x !! ch; Some (Some (mkContents (sets x) (<[ch := (l ++ [r])%list]> (chains x))))
  | _, _ => None
  end.
Fixpoint documented_all (l : list cmd) (t : option contents) : option (option contents) :=
  match l with
  | [] => Some t
  | c :: l => t' ← documented c t; documented_all l t'
  end.

(** nft runs the commands it is given in one transaction, all of them or none ([None]: it
    fails), and the kernel decides about a packet by the rules of a chain. *)
Class Nftables := {
  nft : list cmd -> option contents -> option (option contents);
  verdict : contents -> packet -> list rule -> option action }.
(** Of a command whose success is not documented only this is asked: one that adds elements
    to a set does not change a chain. *)
Class NftablesLaws (N : Nftables) := {
  nft_documented l t x : documented_all l t = Some x -> nft l t = Some x;
  nft_elements_only s l x y : nft [AddElement s l] (Some x) = Some y -> exists z, y = Some z /\ chains z = chains x;
  verdict_first c p l : verdict c p l = first_match c p l }.


(** ** The rules of the code *)

(** PrivateCIDRs, and the text of the set. *)
Definition PrivateCIDRs : list string := map prefix_string (filter (fun p => Is4 (PAddr p) = true) reservedPrefixes).
Definition IPv4NftSetText : string := "{ " +:+ join ", " canonicalReservedIPv4 +:+ " }".

Definition isolation : string := "fp-isolation".
Definition filter_chain (hook : string) : list string := ["type"; "filter"; "hook"; hook; "priority"; "filter;"].

Definition nftIsolationStepsIPv4 (port80 port443 : Z) (vethCIDR : string) : list cmd :=
  [AddTable;
   AddSet "slot-veths" ["type"; "ifname;"];
   AddChain "in" (filter_chain "input");
   AddChain "fwdchain" (filter_chain "forward");
   AddChain "post" ["type"; "nat"; "hook"; "postrouting"; "priority"; "srcnat;"];
   AddRule "in" (when [IifSlot; CtEstablished] Accept);
   AddRule "in" (when [IifSlot; Dports port80 port443] Accept);
   AddRule "in" (when [IifSlot] Drop);
   AddRule "fwdchain" (when [IifSlot; CtEstablished] Accept);
   AddRule "fwdchain" (when [IifSlot; DaddrIn IPv4NftSetText canonicalReservedIPv4] Drop);
   AddRule "fwdchain" (when [IifSlot] Accept);
   AddRule "post" (when [Saddr vethCIDR] Masquerade)].

Definition ip6IsolationSteps : list cmd :=
  [AddTable;
   AddSet "slot-veths" ["type"; "ifname;"];
   AddChain "in" (filter_chain "input");
   AddChain "fwdchain" (filter_chain "forward");
   AddRule "in" (when [IifSlot; Neighbour] Accept);
   AddRule "in" (when [IifSlot] Drop);
   AddRule "fwdchain" (when [IifSlot] Drop)].

Definition tcpLimitChain : string := "tcp_limit".
Definition tcpLimitComment : string := "firepaas-tcp-limit".
Definition tcpLimitRule (limit : Z) : rule := mkRule [Tcp; CtNew; CtCountOver limit] true Drop tcpLimitComment.

Definition proxyDNATRule (vethGuest hostAddr : string) (dport proxyPort : Z) : rule :=
  when [Iif false (quoted vethGuest); Dport dport; Daddr false hostAddr] (Dnat hostAddr proxyPort).

Definition slot_table : table := ("ip", "fp-slot").
Definition interval_set : list string := ["type"; "ipv4_addr;"; "flags"; "interval;"].
Definition masquerade (name hostAddr : string) : rule := when [Oif name; Daddr false hostAddr] Masquerade.

(** egressTableScript, as the commands of the batch. *)
Definition egress_commands (ref : SlotRef) (snap : option PolicySnapshot) : list cmd :=
  let hostAddr := HostAddr ref in
  let vethGuest := VethGuest ref in
  let hook kind at_ prio := ["type"; kind; "hook"; at_; "priority"; prio; "policy"; "accept;"] in
  ([DeleteTable; AddTable; AddChain "post" (hook "nat" "postrouting" "srcnat;"); AddRule "post" (masquerade (quoted vethGuest) hostAddr)] ++
   match snap with
   | None => []
   | Some snap =>
       [AddSet "egress-allow4" interval_set; AddSet "egress-deny4" interval_set] ++
       (if Nat.ltb 0 (length (SAllowedCIDRs snap)) then [AddElement "egress-allow4" (SAllowedCIDRs snap)] else []) ++
       (if Nat.ltb 0 (length (SDeniedCIDRs snap)) then [AddElement "egress-deny4" (SDeniedCIDRs snap)] else []) ++
       [AddChain "egress-pre" (hook "nat" "prerouting" "dstnat;"); AddChain "egress-fwd" (hook "filter" "forward" "filter;")] ++
       (if 0 <? SProxyPort80 snap then [AddRule "egress-pre" (proxyDNATRule vethGuest hostAddr 80 (SProxyPort80 snap))] else []) ++
       (if 0 <? SProxyPort443 snap then [AddRule "egress-pre" (proxyDNATRule vethGuest hostAddr 443 (SProxyPort443 snap))] else []) ++
       [AddRule "egress-fwd" (when [CtEstablished] Accept)] ++
       (if 0 <? SMaxTCPConns snap then [AddRule "egress-fwd" (tcpLimitRule (SMaxTCPConns snap))] else []) ++
       [AddRule "egress-fwd" (when [Daddr true hostAddr] Accept);
        AddRule "egress-fwd" (when [DaddrSet "egress-deny4"] Drop);
        AddRule "egress-fwd" (when [DaddrSet "egress-allow4"] Accept)] ++
       (if String.eqb (SMode snap) "deny_all" || String.eqb (SMode snap) "allowlist" then [AddRule "egress-fwd" (when [] Drop)] else [])
   end)%list.
Definition egressTableScript (ref : SlotRef) (snap : option PolicySnapshot) : res (list cmd) :=
  if String.eqb (HostAddr ref) "" || String.eqb (VethGuest ref) "" then Err (errors_New "slot: egress table: incomplete ref")
  else Ok (egress_commands ref snap).

(** ** Commands *)

(** Where a command runs: on the node or in the namespace of a slot. *)
Inductive place := Root | Netns (ns : string).

Definition place_argv (pl : place) (argv : list string) : list string :=
  match pl with Root => argv | Netns ns => (["ip"; "netns"; "exec"; ns] ++ argv)%list end.

(** Nft runs one command ([None]: it succeeded; otherwise its error and output),
    Batch a script; Listed tells whether a table or chain is listed, Listing the text
    of a chain with its handles; Insert puts a rule before the one with a handle. *)
Inductive eff : Type -> Type :=
  | Listed (pl : place) (t : table) (chain : option string) : eff bool
  | Listing (t : table) (chain : string) : eff (res string)
  | Nft (pl : place) (t : table) (c : cmd) : eff (option (goerr * string))
  | DeleteElement (t : table) (set name : string) : eff (option (goerr * string))
  | Insert (t : table) (chain handle : string) (r : rule) : eff (option (goerr * string))
  | Batch (ns : string) (t : table) (l : list cmd) : eff (option (goerr * string)).

Local Abbreviation prog := (Programs.prog eff).

Definition cmd_failed (argv : list string) (r : option (goerr * string)) : res unit :=
  match r with
  | None => Ok tt
  | Some (e, out) => Err (Errorf "%s %s: %w (%s)" [AStr (hd "" argv); AStr (join " " (tl argv)); AErr e; AStr (trim_space out)])
  end.

(** execCmd of a command, with the wrapping of its error. *)
Definition step_ (wrap_ : list string -> goerr -> goerr) (pl : place) (t : table) (c : cmd) : prog (res unit) :=
  r <-! Nft pl t c ;
  let argv := place_argv pl (argv_of t c) in
  Ret (res_map_err (wrap_ argv) (cmd_failed argv r)).
Fixpoint each_step (wrap_ : list string -> goerr -> goerr) (pl : place) (t : table) (l : list cmd) : prog (res unit) :=
  match l with
  | [] => Ret (Ok tt)
  | c :: l => _ <~? step_ wrap_ pl t c ; each_step wrap_ pl t l
  end.
Definition named (format : string) (argv : list string) (e : goerr) : goerr := Errorf format [AStr (join " " argv); AErr e].

(** runNftBatch. *)
Definition runNftBatch (ns : string) (l : list cmd) : prog (res unit) :=
  r <-! Batch ns slot_table l ;
  Ret match r with None => Ok tt | Some (e, out) => Err (Errorf "%w: %s" [AErr e; AStr (trim_space out)]) end.

Section backend.
(** NftBackend. *)
Context (port80 port443 : Z) (vethCIDR : string).

Definition ensure_table (pl : place) (t : table) (format : string) (l : list cmd) : prog (res unit) :=
  there <-! Listed pl t None ;
  if there then Ret (Ok tt) else each_step (named format) pl t l.

Definition EnsureNode : prog (res unit) :=
  _ <~? ensure_table Root ("ip", isolation) "slot: nft setup (%s): %w" (nftIsolationStepsIPv4 port80 port443 vethCIDR) ;
  ensure_table Root ("ip6", isolation) "slot: nft6 setup (%s): %w" ip6IsolationSteps.

(** [strings.Fields]. *)
Fixpoint fields_fuel (fuel : nat) (s : string) : list string :=
  match fuel with
  | O => []
  | S fuel => let f := first_field s in
      if String.eqb f "" then [] else f :: fields_fuel fuel (sdrop (String.length f) (trim_space s))
  end.
Definition fields (s : string) : list string := fields_fuel (String.length s) s.

Definition contains (s sub : string) : bool := match index s sub with Some _ => true | None => false end.

(** The word after the last "handle". *)
Fixpoint handle_of (l : list string) (found : string) : string :=
  match l with
  | w :: (h :: _) as rest => handle_of rest (if String.eqb w "handle" then h else found)
  | _ => found
  end.
Definition drop_handle (listing : string) : string :=
  fold_left (fun found line =>
    let line := trim_space line in
    if negb (contains line "@slot-veths") || negb (has_suffix line "drop") then found else handle_of (fields line) found)
    (split_byte newline listing) "".

Definition ensureEgressProxyInputRule : prog (res unit) :=
  listing <-! Listing ("ip", isolation) "in" ;
  match listing with
  | Err e => Ret (Err (wrap "slot: list input chain: %w" e))
  | Ok listing =>
      if contains listing (itoa port80) then Ret (Ok tt)
      else if String.eqb (drop_handle listing) ""
      then Ret (Err (errors_New "slot: egress input accept: drop rule handle not found in fp-isolation"))
      else
        let r := when [IifSlot; Dports port80 port443] Accept in
        out <-! Insert ("ip", isolation) "in" (drop_handle listing) r ;
        let argv := (["nft"; "insert"; "rule"; "ip"; isolation; "in"; "position"; drop_handle listing] ++ rule_tokens r)%list in
        Ret (res_map_err (wrap "slot: insert egress proxy input rule: %w") (cmd_failed argv out))
  end.

Fixpoint add_veth (families : list string) (veth : string) : prog (res unit) :=
  match families with
  | [] => Ret (Ok tt)
  | family :: families =>
      out <-! Nft Root (family, isolation) (AddElement "slot-veths" [veth]) ;
      match out with
      | Some (e, text) =>
          if contains text "exists" then add_veth families veth
          else Ret (Err (Errorf "slot: nft add veth %s (%s): %w (%s)" [AStr veth; AStr family; AErr e; AStr (trim_space text)]))
      | None => add_veth families veth
      end
  end.

Definition AttachSlot (ref : SlotRef) : prog (res unit) :=
  _ <~? EnsureNode ;
  _ <~? add_veth ["ip"; "ip6"] (VethHost ref) ;
  ensureEgressProxyInputRule.

Definition DetachSlot (ref : SlotRef) : prog (res unit) :=
  DeleteElement ("ip", isolation) "slot-veths" (VethHost ref) ;!
  DeleteElement ("ip6", isolation) "slot-veths" (VethHost ref) ;!
  Ret (Ok tt).

(** EnsureNetnsNAT: the masquerading of a slot and, for the ports that are given, its proxy. *)
Definition nat_steps (ref : SlotRef) (proxy80 proxy443 : Z) : list cmd :=
  ([AddTable; AddChain "post" ["type"; "nat"; "hook"; "postrouting"; "priority"; "srcnat;"];
    AddRule "post" (masquerade (VethGuest ref) (HostAddr ref))] ++
   if (0 <? proxy80) || (0 <? proxy443) then
     [AddChain "pre" ["type"; "nat"; "hook"; "prerouting"; "priority"; "dstnat;"]] ++
     (if 0 <? proxy80 then [AddRule "pre" (proxyDNATRule (VethGuest ref) (HostAddr ref) 80 proxy80)] else []) ++
     (if 0 <? proxy443 then [AddRule "pre" (proxyDNATRule (VethGuest ref) (HostAddr ref) 443 proxy443)] else [])
   else [])%list.
Definition EnsureNetnsNAT (ref : SlotRef) (proxy80 proxy443 : Z) : prog (res unit) :=
  ensure_table (Netns (Slots.Netns ref)) slot_table "slot: netns NAT setup (%s): %w" (nat_steps ref proxy80 proxy443).
Definition EnsureSlotNAT (ref : SlotRef) : prog (res unit) := EnsureNetnsNAT ref 0 0.

(** ApplyEgress: one batch replaces the whole table of the slot. *)
Definition ensureSlotEgress (ref : SlotRef) (snap : PolicySnapshot) : prog (res unit) :=
  match egressTableScript ref (Some snap) with
  | Err e => Ret (Err e)
  | Ok l => r <~! runNftBatch (Slots.Netns ref) l ; Ret (res_map_err (wrap "slot: atomically replace egress policy: %w") r)
  end.
Definition clearSlotEgress (ref : SlotRef) : prog (res unit) :=
  match egressTableScript ref None with
  | Err e => Ret (Err e)
  | Ok l => r <~! runNftBatch (Slots.Netns ref) l ; Ret (res_map_err (wrap "slot: atomically clear egress policy: %w") r)
  end.
Definition ApplyEgress (ref : SlotRef) (snap : option PolicySnapshot) : prog (res unit) :=
  match snap with None => clearSlotEgress ref | Some snap => ensureSlotEgress ref snap end.
End backend.

(** ** What the eBPF back end shares *)

Definition normalizeVethCIDR (raw : string) : res string :=
  match ParsePrefix (trim_space raw) with
  | None => Err (Errorf "slot: root egress NAT veth cidr %q: %w" [AStr raw; AErr (lib_error "netip.ParsePrefix" (trim_space raw))])
  | Some p => if negb (Is4 (PAddr p)) then Err (bad "slot: root egress NAT veth cidr %q must be IPv4" raw) else Ok (prefix_string (Masked p))
  end.

Definition EnsureRootEgressNAT (name vethCIDR : string) : prog (res unit) :=
  let name := trim_space name in
  let vethCIDR := trim_space vethCIDR in
  if String.eqb name "" || String.eqb vethCIDR ""
  then Ret (Err (Errorf "slot: root egress NAT needs table and veth CIDR (got %q/%q)" [AStr name; AStr vethCIDR]))
  else match normalizeVethCIDR vethCIDR with
  | Err e => Ret (Err e)
  | Ok cidr =>
      let t := ("ip", name) in
      _ <~? ensure_table Root t "slot: root egress NAT setup (%s): %w"
              [AddTable; AddChain "post" ["type"; "nat"; "hook"; "postrouting"; "priority"; "srcnat;"; "policy"; "accept;"]] ;
      listing <-! Listing t "post" ;
      match listing with
      | Err e => Ret (Err (wrap "slot: list root egress NAT chain: %w" e))
      | Ok listing =>
          if contains listing ("ip saddr " +:+ cidr +:+ " masquerade") then Ret (Ok tt)
          else step_ (fun _ => wrap "slot: add root egress NAT rule: %w") Root t (AddRule "post" (when [Saddr cidr] Masquerade))
      end
  end.

Definition cleanupLegacyNftPolicy (ref : SlotRef) : prog unit :=
  let ns := Netns (Slots.Netns ref) in
  Nft ns slot_table (DeleteChain "egress-fwd") ;!
  Nft ns slot_table (DeleteSet "egress-allow4") ;!
  Nft ns slot_table (DeleteSet "egress-deny4") ;! Ret tt.

Definition EnsureNetnsTCPLimit (ref : SlotRef) (limit : Z) : prog (res unit) :=
  if String.eqb (Slots.Netns ref) "" then Ret (Err (errors_New "slot: tcp limit: empty netns"))
  else
    let ns := Netns (Slots.Netns ref) in
    _ <~? EnsureNetnsNAT ref 0 0 ;
    _ <~! cleanupLegacyNftPolicy ref ;
    there <-! Listed ns slot_table (Some tcpLimitChain) ;
    _ <~? (if there then Ret (Ok tt)
           else step_ (fun _ => wrap "slot: add tcp limit chain: %w") ns slot_table
                  (AddChain tcpLimitChain ["type"; "filter"; "hook"; "forward"; "priority"; "filter;"; "policy"; "accept;"])) ;
    r <~! runNftBatch (Slots.Netns ref)
            ([FlushChain tcpLimitChain] ++ (if 0 <? limit then [AddRule tcpLimitChain (tcpLimitRule limit)] else []))%list ;
    Ret (res_map_err (wrap "slot: apply tcp limit: %w") r).

(** ** What the rules of a slot do *)







Section semantics.
Context `{L : NftablesLaws}.

Definition redirected (c : contents) (p : packet) : packet :=
  match verdict c p (rules c "egress-pre") with
  | Some (Dnat a port) => mkPacket (iif p) (from_slot p) (oif p) (saddr p) (default (daddr p) (ParseAddr a)) (Some port) (fresh p) (count p) (neighbour p)
  | _ => p
  end.
(** Where a packet that is forwarded goes. *)
Definition forwards (c : contents) (p : packet) : option (Addr * option Z) :=
  let p := redirected c p in
  match verdict c p (rules c "egress-fwd") with Some Drop => None | _ => Some (daddr p, dport p) end.









(** ** What the rules of the node do *)




End semantics.

(** *** A setup that was interrupted *)

Section node.
(** Which call fails for other reasons, the text nft lists, and the two commands that are
    not given as rules: what "delete element" and "insert rule" make of a table. *)
Context `{L : NftablesLaws} (refuse : nat -> bool) (listing_text : contents -> string -> string).
Context (delete_element : string -> string -> contents -> contents) (insert_rule : string -> string -> rule -> contents -> contents).
Hypothesis delete_element_chains : forall set name x, chains (delete_element set name x) = chains x.
Hypothesis insert_rule_elsewhere : forall ch ch' h r x, ch <> ch' -> rules (insert_rule ch h r x) ch' = rules x ch'.

Abbreviation Kernel := (gmap (option string * table) contents).
Definition key (pl : place) (t : table) : option string * table := (match pl with Root => None | Netns ns => Some ns end, t).
#[local] Arguments key : simpl never.
Definition set_table (k : option string * table) (x : option contents) (ker : Kernel) : Kernel :=
  match x with Some x => <[k := x]> ker | None => delete k ker end.
Definition refusal : goerr * string := (errors_New "exit status 1", "Error: Could not process rule").

Definition perform (i : nat) {B} (c : eff B) (ker : Kernel) : Kernel * B :=
  match c in eff B return Kernel * B with
  | Listed pl t None => (ker, bool_decide (is_Some (ker !! key pl t)))
  | Listed pl t (Some ch) => (ker, match ker !! key pl t with Some x => bool_decide (is_Some (chains x !! ch)) | None => false end)
  | Listing t ch => (ker, match ker !! key Root t with Some x => Ok (listing_text x ch) | None => Err refusal.1 end)
  | Nft pl t c =>
      if refuse i then (ker, Some refusal)
      else match nft [c] (ker !! key pl t) with Some x => (set_table (key pl t) x ker, None) | None => (ker, Some refusal) end
  | DeleteElement t s name =>
      match ker !! key Root t with
      | Some x => (<[key Root t := delete_element s name x]> ker, None)
      | None => (ker, Some refusal)
      end
  | Insert t ch handle r =>
      match ker !! key Root t with
      | Some x => (<[key Root t := insert_rule ch handle r x]> ker, None)
      | None => (ker, Some refusal)
      end
  | Batch ns t l =>
      if refuse i then (ker, Some refusal)
      else match nft l (ker !! key (Netns ns) t) with Some x => (set_table (key (Netns ns) t) x ker, None) | None => (ker, Some refusal) end
  end.

Inductive backend_op := OpEnsure | OpAttach (ref : SlotRef) | OpDetach (ref : SlotRef) | OpNAT (ref : SlotRef) | OpEgress (ref : SlotRef) (snap : option PolicySnapshot).

Section ops.
Context (port80 port443 : Z) (vethCIDR : string).
Definition do_backend (o : backend_op) : prog (res unit) :=
  match o with
  | OpEnsure => EnsureNode port80 port443 vethCIDR
  | OpAttach ref => AttachSlot port80 port443 vethCIDR ref
  | OpDetach ref => DetachSlot ref
  | OpNAT ref => EnsureSlotNAT ref
  | OpEgress ref snap => ApplyEgress ref snap
  end.
Definition go (i : nat) (o : backend_op) (ker : Kernel) : Kernel * res unit * list unit := run (fun _ _ _ => []) (@perform) (do_backend o) i ker.

Fixpoint after (l : list (nat * backend_op)) (ker : Kernel) : Kernel :=
  match l with [] => ker | (i, o) :: l => after l (go i o ker).1.1 end.

(** What leaves the forward rules of the node alone while its table is there. *)
Definition node_key : option string * table := key Root ("ip", isolation).
Definition spares_ {B} (c : eff B) (_ : unit) : Prop :=
  match c with
  | Nft pl t c => key pl t <> node_key \/ match c with AddElement _ _ => True | _ => False end
  | Insert _ ch _ _ => ch = "in"
  | _ => True
  end.
Definition there {B} (c : eff B) : B -> Prop :=
  match c in eff B return B -> Prop with Listed pl t None => fun b => key pl t = node_key -> b = true | _ => fun _ => True end.

Local Abbreviation quiet := (obeys (fun B => @spares_ B) (fun B => @there B) (fun _ _ _ g => g) (fun _ _ => True)).

Definition same_forward (x : contents) (ker : Kernel) : Prop :=
  exists x', ker !! node_key = Some x' /\ rules x' "fwdchain" = rules x "fwdchain" /\ rules x' "post" = rules x "post".

Lemma perform_spares i B (c : eff B) x ker : spares_ c tt -> same_forward x ker ->
  same_forward x (perform i c ker).1 /\ there c (perform i c ker).2.
Proof.
  intros Hs (x' & Hx & Hf & Hp). assert (forall k y, k <> node_key -> same_forward x (set_table k y ker)) as Hne.
  { intros k y Hk. exists x'. destruct y; cbn; [by rewrite lookup_insert_ne|by rewrite lookup_delete_ne]. }
  assert (same_forward x ker) as Hsame by (by exists x').
  destruct c as [pl t [ch|]|t ch|pl t c|t s name|t ch h r|ns t l]; cbn; try (by split).
  - split; [done|]. intros E. apply bool_decide_true. rewrite E. by eexists.
  - destruct (refuse i); [by split|]. destruct Hs as [Hk|Hc].
    + destruct (nft [c] _) as [y|]; [|by split]. split; [by apply Hne|done].
    + destruct c as [| | | |set l| | | |]; try done. destruct (decide (key pl t = node_key)) as [E|E].
      * rewrite E, Hx. destruct (nft _ _) as [y|] eqn:En; [|by split]. split; [|done].
        apply nft_elements_only in En as (z & -> & Hz). exists z. cbn. rewrite lookup_insert_eq. unfold rules in *. by rewrite Hz.
      * destruct (nft _ _) as [y|]; [|by split]. split; [by apply Hne|done].
  - destruct (ker !! key Root t) as [y|] eqn:E; [|by split]. split; [|done]. cbn [fst]. destruct (decide (key Root t = node_key)) as [Ek|Ek].
    + rewrite Ek in *. assert (y = x') as -> by congruence. eexists. rewrite lookup_insert_eq. split; [done|].
      unfold rules in *. by rewrite delete_element_chains.
    + exists x'. by rewrite lookup_insert_ne.
  - destruct (ker !! key Root t) as [y|] eqn:E; [|by split]. split; [|done]. cbn [fst]. destruct (decide (key Root t = node_key)) as [Ek|Ek].
    + rewrite Ek in *. eexists. rewrite lookup_insert_eq. split; [done|]. assert (y = x') as -> by congruence. cbn in Hs. subst ch.
      by rewrite !insert_rule_elsewhere.
    + exists x'. by rewrite lookup_insert_ne.
  - destruct (refuse i); [by split|]. destruct (nft l _) as [y|]; [|by split]. split; [by apply Hne|done].
Qed.

Lemma quiet_run {A} (p : prog A) i x ker : quiet p tt -> same_forward x ker -> same_forward x (run (fun _ _ _ => @nil unit) (@perform) p i ker).1.1.
Proof.
  revert i ker. induction p as [a|B c k IH]; intros i ker Hq Hx; [done|]. destruct Hq as [Hs Hk]. cbn.
  destruct (perform_spares i B c x ker Hs Hx) as [Hx' Ht]. destruct (perform i c ker) as [ker' b]. cbn in Hx', Ht.
  specialize (IH b (S i) ker' (Hk b Ht) Hx'). by destruct (run _ _ (k b) (S i) ker') as [[s a] t].
Qed.

Lemma quiet_prog_bind {A B} (p : prog A) (f : A -> prog B) : quiet p tt -> (forall a, quiet (f a) tt) -> quiet (pbind p f) tt.
Proof. intros Hp Hf. eapply obeys_pbind; [exact Hp|]. intros a [] _. apply Hf. Qed.

Lemma each_step_quiet w pl t l : key pl t <> node_key -> quiet (each_step w pl t l) tt.
Proof.
  intros Hk. induction l as [|c l IH]; [done|]. apply quiet_prog_bind; [split; [by left|done]|]. intros [[]|e]; [apply IH|done].
Qed.

Lemma ensure_table_quiet pl t f l : quiet (ensure_table pl t f l) tt.
Proof.
  split; [done|]. intros [] Ht; [done|]. cbn in Ht. destruct (decide (key pl t = node_key)) as [E|E]; [by specialize (Ht E)|]. by apply each_step_quiet.
Qed.

Lemma EnsureNode_quiet : quiet (EnsureNode port80 port443 vethCIDR) tt.
Proof. apply quiet_prog_bind; [apply ensure_table_quiet|]. intros [[]|e]; [apply ensure_table_quiet|done]. Qed.

Lemma add_veth_quiet fams veth : quiet (add_veth fams veth) tt.
Proof.
  induction fams as [|f fams IH]; [done|]. split; [by right|]. intros [[e text]|] _; [|apply IH]. by destruct (contains text "exists").
Qed.

Lemma input_rule_quiet : quiet (ensureEgressProxyInputRule port80 port443) tt.
Proof.
  split; [done|]. intros [listing|e] _; [|done]. cbn. destruct (contains listing _); [done|]. destruct (String.eqb _ ""); [done|]. by split.
Qed.

Lemma batch_quiet ns l (f : res unit -> res unit) : quiet (r <~! runNftBatch ns l ; Ret (f r)) tt.
Proof. by split. Qed.

Lemma do_backend_quiet o : quiet (do_backend o) tt.
Proof.
  destruct o as [|ref|ref|ref|ref [snap|]]; [apply EnsureNode_quiet| |by repeat split|apply ensure_table_quiet| |].
  - apply quiet_prog_bind; [apply EnsureNode_quiet|]. intros [[]|e]; [|done].
    apply quiet_prog_bind; [apply add_veth_quiet|]. intros [[]|e]; [apply input_rule_quiet|done].
  - unfold do_backend, ApplyEgress, ensureSlotEgress. destruct (egressTableScript ref (Some snap)); [apply batch_quiet|done].
  - unfold do_backend, ApplyEgress, clearSlotEgress. destruct (egressTableScript ref None); [apply batch_quiet|done].
Qed.

(** A setup that stopped is taken for done. Once the isolation table of a node is there,
    however few of its rules are - the command for the next one failed, or the agent
    died - nothing the back end is asked to do ever adds the missing rules for
    forwarded packets. *)
Theorem partial_isolation_stays l ker x :
  ker !! node_key = Some x ->
  exists x', after l ker !! node_key = Some x' /\ rules x' "fwdchain" = rules x "fwdchain" /\ rules x' "post" = rules x "post".
Proof.
  intros Hx. assert (same_forward x ker) as Hs by (by exists x). clear Hx. revert ker Hs.
  induction l as [|[i o] l IH]; intros ker Hs; [exact Hs|]. apply IH. apply quiet_run; [apply do_backend_quiet|done].
Qed.
End ops.
End node.

(** ** Concrete runs *)

Module Witness.
Definition nl : string := String newline "".
Definition ref0 : SlotRef := mkRef 0 "fp-vp0" "fp-vpg0" "10.12.0.1" "10.12.0.2" "fp-slot-0" "10.100.0.2" "".
Definition snap0 : PolicySnapshot := mkSnapshot "allowlist" ["203.0.113.0/24"] ["198.51.100.0/24"] [] 7 0 false 18080 18443.

(** The text of the batch. *)
Example script :
  script_text slot_table (egress_commands ref0 (Some snap0)) =
  join nl
    ["delete table ip fp-slot"; "add table ip fp-slot";
     "add chain ip fp-slot post { type nat hook postrouting priority srcnat; policy accept; }";
     "add rule ip fp-slot post oifname " +:+ quoted "fp-vpg0" +:+ " ip daddr != 10.12.0.1 masquerade";
     "add set ip fp-slot egress-allow4 { type ipv4_addr; flags interval; }";
     "add set ip fp-slot egress-deny4 { type ipv4_addr; flags interval; }";
     "add element ip fp-slot egress-allow4 { 203.0.113.0/24 }";
     "add element ip fp-slot egress-deny4 { 198.51.100.0/24 }";
     "add chain ip fp-slot egress-pre { type nat hook prerouting priority dstnat; policy accept; }";
     "add chain ip fp-slot egress-fwd { type filter hook forward priority filter; policy accept; }";
     "add rule ip fp-slot egress-pre iifname != " +:+ quoted "fp-vpg0" +:+ " tcp dport 80 ip daddr != 10.12.0.1 dnat to 10.12.0.1:18080";
     "add rule ip fp-slot egress-pre iifname != " +:+ quoted "fp-vpg0" +:+ " tcp dport 443 ip daddr != 10.12.0.1 dnat to 10.12.0.1:18443";
     "add rule ip fp-slot egress-fwd ct state established,related accept";
     "add rule ip fp-slot egress-fwd meta l4proto tcp ct state new ct count over 7 counter drop comment " +:+ quoted "firepaas-tcp-limit";
     "add rule ip fp-slot egress-fwd ip daddr 10.12.0.1 accept";
     "add rule ip fp-slot egress-fwd ip daddr @egress-deny4 drop";
     "add rule ip fp-slot egress-fwd ip daddr @egress-allow4 accept";
     "add rule ip fp-slot egress-fwd drop"; ""].
Proof. by vm_compute. Qed.

(** What goes for the proxy's input rule. *)
Example drop_before : drop_handle
  (join nl ["table ip fp-isolation {"; "  chain in { # handle 2"; "    iifname @slot-veths ct state established,related accept # handle 5";
            "    iifname @slot-veths handle 6 drop"; "  }"; "}"]) = "6".
Proof. by vm_compute. Qed.

(** An nft that does what is documented and refuses the rest. *)
#[export] Instance nft0 : Nftables := {| nft := documented_all; verdict := first_match |}.
#[export] Instance nft0_laws : NftablesLaws nft0.
Proof.
  split; [done| |done]. intros s l x y. cbn. destruct (sets x !! s); [|done]. cbn. destruct (apart _); [|done]. intros [= <-]. by eexists.
Qed.

(** The guest of slot 0. *)
Definition to (v : Z) (port : option Z) : packet := mkPacket "fp-br0" true "fp-vpg0" (Addr4 174325762) (Addr4 v) port true 1 false.

Definition spec0 : AgentContract.EgressPolicySpec := AgentContract.mkEgressPolicySpec AgentContract.ALLOWLIST ["93.184.216.0/24"] [] ["example.com"] 7 4 false.

Definition pol0 : Policy := match FromProto (fun s => s) (Some spec0) with Ok (Some p) => p | _ => mkPolicy 0 [] [] [] 0 0 false false end.
Definition table0 : contents := match nft (egress_commands ref0 (Some (snapshotFor 18080 18443 pol0))) (Some (mkContents ∅ ∅)) with Some (Some c) => c | _ => mkContents ∅ ∅ end.

Example forwarded :
  forwards table0 (to 1572395042 (Some 8443)) = Some (Addr4 1572395042, Some 8443) /\ forwards table0 (to 134744072 (Some 8443)) = None.
Proof. by vm_compute. Qed.


(** Networks that overlap are not installed. *)
Example overlap_refused :
  nft (egress_commands ref0 (Some (mkSnapshot "allowlist" ["203.0.113.0/24"; "203.0.0.0/16"] [] [] 0 0 false 0 0))) (Some (mkContents ∅ ∅)) = None.
Proof. by vm_compute. Qed.


(** The command for the drop of reserved networks fails once. *)
Definition refuse (i : nat) : bool := Nat.eqb i 10.
Definition listing (_ : contents) (_ : string) : string := "tcp dport { 18080, 18443 } accept".
Definition delete0 (set name : string) (x : contents) : contents :=
  mkContents (<[set := List.filter (fun n => negb (String.eqb n name)) (elements x set)]> (sets x)) (chains x).
Definition insert0 (ch _ : string) (r : rule) (x : contents) : contents := mkContents (sets x) (<[ch := r :: rules x ch]> (chains x)).
Definition run_ := go refuse listing delete0 insert0 18080 18443 VethRange.
Definition first_ := run_ 0 OpEnsure ∅.
Definition second := run_ 100 (OpAttach ref0) first_.1.1.
Definition half : contents := default (mkContents ∅ ∅) (first_.1.1 !! node_key).

Lemma insert0_elsewhere ch ch' h r x : ch <> ch' -> rules (insert0 ch h r x) ch' = rules x ch'.
Proof. intros Hne. unfold rules, insert0. cbn [chains]. by rewrite lookup_insert_ne. Qed.

Lemma partial_isolation_stays_witness :
  is_ok first_.1.2 = false /\ second.1.2 = Ok tt /\
  exists x', second.1.1 !! node_key = Some x' /\ rules x' "fwdchain" = [when [IifSlot; CtEstablished] Accept] /\
    verdict x' (to 167772165 (Some 5432)) (rules x' "fwdchain") = None.
Proof.
  split; [by vm_compute|]. split; [by vm_compute|].
  destruct (partial_isolation_stays refuse listing delete0 insert0 (fun _ _ _ => eq_refl) insert0_elsewhere 18080 18443 VethRange [(100%nat, OpAttach ref0)] first_.1.1 half) as (x' & Hx & Hf & _);
    [vm_compute; reflexivity|]. exists x'. split; [exact Hx|].
  assert (rules x' "fwdchain" = [when [IifSlot; CtEstablished] Accept]) as Hr by (rewrite Hf; vm_compute; reflexivity).
  clear Hx Hf. rewrite Hr. split; [reflexivity|]. vm_compute. reflexivity.
Defined.
End Witness.
