(* ===== verification/Cni.v ===== *)
(** * The CNI command

    cmd/cni-firepaas/main.go: the command that drives the slots of [Slots] from outside
    the agent - the fence file, the bundle on standard input, ADD, DEL and CHECK - and
    WithStateFileLock of internal/agent/network/slot/slot.go, the flock(2) that the
    command and the agent take around every access to slots.json. One process is a
    program of calls; [proc_step] runs it beside all the other ones, of which the lock
    only knows that they hold it or not. *)
From S2P Require Import Prelude Programs GoString EgressPolicy Slots.

#[local] Open Scope string_scope.
#[local] Open Scope prog_scope.

(** ** Input *)

Definition cniVersion : string := "1.0.0".

Record slotBundle := mkBundle {
  b_MachineID : string; b_Tap : string; b_GuestIP : string; b_GuestIP6 : string; b_StatePath : string; b_SubnetCIDR : string;
  b_Gateway : string; b_NamePrefix : string; b_VethCIDR : string; b_Backend : string; b_EbpfPinDir : string;
  b_EbpfNatTable : string; b_ProxyPort80 : Z; b_ProxyPort443 : Z }.

(** What the process finds: its environment, its standard input and the fence file. *)
Record Env := mkEnv {
  CNI_COMMAND : string; CNI_CONTAINERID : string; FENCE_FILE : string;
  Stdin : res string; FencePerm : res Z; FenceContent : res string }.

Record cniInput := mkInput { Command : string; Container : string; PrevResult : string }.

(** Standard input is read for ADD and CHECK only. *)
Definition readInput (env : Env) : cniInput :=
  let prev :=
    if String.eqb (CNI_COMMAND env) "ADD" || String.eqb (CNI_COMMAND env) "CHECK"
    then match Stdin env with Ok raw => if String.eqb (trim_space raw) "" then "" else raw | Err _ => "" end
    else "" in
  mkInput (CNI_COMMAND env) (CNI_CONTAINERID env) prev.

Definition verifyFence (env : Env) : res (string * string) :=
  let path := FENCE_FILE env in
  if String.eqb path ""
  then Err (errors_New "direct runtime invocation not supported: FIREPAAS_CNI_FENCE_FILE unset (agent-fenced calls only, ADR-0040 §20)")
  else match FencePerm env with
  | Err e => Err (wrap "cni fence unavailable: %w" e)
  | Ok perm =>
      if negb (perm =? 384)%Z then Err (Errorf "cni fence %s must be 0600 (agent-created), got %o" [AStr path; AInt perm])
      else match FenceContent env with
      | Err e => Err (Errorf "cni fence %s unreadable: %w" [AStr path; AErr e])
      | Ok raw =>
          let lines := split_byte newline (trim_space raw) in
          let opID := trim_space (hd "" lines) in
          if String.eqb opID "" then Err (bad "cni fence %s empty" path)
          else Ok (opID, match lines with _ :: bound :: _ => trim_space bound | _ => "" end)
      end
  end.

(** ** Effects *)

(** Of one process: file descriptors of the lock file, the state file, and the effects of the slots. *)
Inductive eff : Type -> Type :=
  | MkdirAll : eff (res unit)
  | OpenLock : eff (res nat)
  | FlockEx (fd : nat) : eff (res unit)
  | FlockUn (fd : nat) : eff unit
  | CloseFd (fd : nat) : eff unit
  | ReadState : eff (res (option string))
  | WriteFile (raw : string) : eff (res unit)
  | Node {B} (c : Slots.eff B) : eff B.

Local Abbreviation prog := (Programs.prog eff).

(** The lock is taken on a description of its own, and given back last. *)
Definition WithStateFileLock {A} (fn : prog (res A)) : prog (res A) :=
  dir <-! MkdirAll ;
  match dir with
  | Err e => Ret (Err (wrap "slot state lock dir: %w" e))
  | Ok _ =>
      opened <-! OpenLock ;
      match opened with
      | Err e => Ret (Err (wrap "slot state lock: %w" e))
      | Ok fd =>
          locked <-! FlockEx fd ;
          match locked with
          | Err e => CloseFd fd ;! Ret (Err (wrap "slot state lock: %w" e))
          | Ok _ => r <~! fn ; FlockUn fd ;! CloseFd fd ;! Ret r
          end
      end
  end.

(** Manager.Load and the write of persistLocked. *)
Definition load `{StateCodec} (m : Slots) : prog (Slots * res unit) :=
  raw <~! WithStateFileLock (r <-! ReadState ; Ret r) ;
  Ret (Load raw m).
Definition write (raw : string) : prog (res unit) := WithStateFileLock (r <-! WriteFile raw ; Ret r).

(** An operation of the manager with its writes under the lock. *)
Definition serve {B R} (c : Slots.eff B) : (B -> prog R) -> prog R :=
  match c in Slots.eff B return (B -> prog R) -> prog R with
  | WriteState raw => pbind (write raw)
  | c => Do (Node c)
  end.
Fixpoint with_file {A} (p : Programs.prog Slots.eff A) : prog A :=
  match p with
  | Ret a => Ret a
  | Do c k => serve c (fun b => with_file (k b))
  end.

(** ** The command *)

Inductive reply :=
  | Versions (version : string) (supported : list string)
  | Result (iface sandbox : string) (ip4 ip6 : list string)
  | Nothing.

Section command.
(** encoding/json, filepath.Base, and the eBPF back end ([None]: it is there). *)
Context `{C : StateCodec} (unmarshal : string -> res slotBundle) (Base : string -> string) (ebpf_error : slotBundle -> option goerr).

Definition bundleBackend (b : slotBundle) : res unit :=
  if String.eqb (b_Backend b) "" || String.eqb (b_Backend b) "nft" then Ok tt
  else if String.eqb (b_Backend b) "ebpf" then match ebpf_error b with None => Ok tt | Some e => Err e end
  else Err (bad "unknown bundle backend %q (want nft|ebpf)" (b_Backend b)).

Definition writeResult (idx : Z) (tap guestIP : string) (b : slotBundle) : reply :=
  Result (Base tap) ("fp-slot-" +:+ itoa idx) (if String.eqb guestIP "" then [] else [guestIP])
    (if String.eqb (b_GuestIP6 b) "" then [] else [b_GuestIP6 b +:+ "/128"]).

(** The command under the lock, on a new manager. *)
Definition body (command : string) (cfg : Config) (base : Z * Z) (b : slotBundle) : prog (res reply) :=
  loaded <~! load ∅ ;
  match loaded with
  | (_, Err e) => Ret (Err e)
  | (m, Ok _) =>
      let spec := mkSpec (b_MachineID b) (b_Tap b) (b_GuestIP b) (b_GuestIP6 b) in
      if String.eqb command "ADD" then
        r <~! with_file (AttachNetns cfg base spec m) ;
        Ret match r with
            | (_, Err e) => Err (wrap "attach: %w" e)
            | (m, Ok _) =>
                match CurrentNetns (b_MachineID b) m with
                | None => Err (errors_New "slot not found after attach")
                | Some (idx, _, tap, guestIP, _) => Ok (writeResult idx tap guestIP b)
                end
            end
      else if String.eqb command "DEL" then
        r <~! with_file (DetachNetns cfg base (b_MachineID b) m) ; Ret match r.2 with Err e => Err (wrap "detach: %w" e) | Ok _ => Ok Nothing end
      else if String.eqb command "CHECK" then
        r <~! with_file (Check_ cfg base spec m) ; Ret match r.2 with Err e => Err (wrap "check: %w" e) | Ok _ => Ok Nothing end
      else Ret (Err (bad "unsupported CNI_COMMAND %q (ADD/DEL/CHECK/VERSION)" command))
  end.

(** The bundle, as far as it is checked before anything is touched. *)
Definition accepted (env : Env) : res (slotBundle * (Config * (Z * Z))) :=
  match verifyFence env with
  | Err e => Err e
  | Ok (_, bound) =>
      let input := readInput env in
      match unmarshal (PrevResult input) with
      | Err e => Err (wrap "bad slot bundle (agent must serialize slotBundle JSON, not a runtime prevResult): %w" e)
      | Ok b =>
          let id := if String.eqb (b_MachineID b) "" then Container input else b_MachineID b in
          let b := mkBundle id (b_Tap b) (b_GuestIP b) (b_GuestIP6 b) (b_StatePath b) (b_SubnetCIDR b) (b_Gateway b) (b_NamePrefix b)
                     (b_VethCIDR b) (b_Backend b) (b_EbpfPinDir b) (b_EbpfNatTable b) (b_ProxyPort80 b) (b_ProxyPort443 b) in
          if String.eqb id "" || String.eqb (b_StatePath b) "" then Err (errors_New "bundle machine_id/state_path required")
          else if negb (String.eqb bound "") && negb (String.eqb bound id)
          then Err (Errorf "cni fence bound to machine %q, bundle wants %q (fence replay rejected)" [AStr bound; AStr id])
          else match bundleBackend b with
          | Err e => Err e
          | Ok _ =>
              match New (mkConfig (b_SubnetCIDR b) (b_Gateway b) (b_StatePath b) (b_ProxyPort80 b) (b_ProxyPort443 b)
                           (b_NamePrefix b) (b_VethCIDR b)) with
              | Err e => Err e
              | Ok made => Ok (b, made)
              end
          end
      end
  end.

Definition command (env : Env) : prog (res reply) :=
  if String.eqb (CNI_COMMAND env) "VERSION" then Ret (Ok (Versions cniVersion ["0.4.0"; cniVersion]))
  else match accepted env with
  | Err e => Ret (Err e)
  | Ok (b, (cfg, base)) => WithStateFileLock (body (CNI_COMMAND env) cfg base b)
  end.
End command.

(** What the agent does with the file: Load and the operations. *)
Inductive agent_program `{StateCodec} : prog (Slots * res unit) -> Prop :=
  | agent_load m : agent_program (load m)
  | agent_op cfg base o m : agent_program (with_file (do_op cfg base o m)).

(** ** Processes *)

(** Who holds the lock: this process by one of its descriptions, or another process. *)
Inductive holder := Free | Mine (fd : nat) | Theirs.

Inductive call :=
  | Failed
  | Locked (fd : nat)
  | Accessed (h : holder)
  | Kernel.

(** The lock, the descriptions opened so far and what the process has done. *)
Record World := mkWorld { lock : holder; next_fd : nat; calls : list call }.

Definition after (c : list call) (w : World) : World := mkWorld (lock w) (next_fd w) (calls w ++ c)%list.
Definition with_lock (h : holder) (w : World) : World := mkWorld h (next_fd w) (calls w).
Definition released (fd : nat) (w : World) : World := match lock w with Mine fd' => if decide (fd' = fd) then with_lock Free w else w | _ => w end.

(** flock(2): a lock that another description holds, of this process or another,
    blocks; closing a description gives its lock back. *)
Inductive act : forall B, eff B -> World -> World -> B -> Prop :=
  | act_mkdir w : act _ MkdirAll w w (Ok tt)
  | act_open w : act _ OpenLock w (mkWorld (lock w) (S (next_fd w)) (calls w)) (Ok (next_fd w))
  | act_flock fd w : lock w = Free \/ lock w = Mine fd -> act _ (FlockEx fd) w (after [Locked fd] (with_lock (Mine fd) w)) (Ok tt)
  | act_unlock fd w : act _ (FlockUn fd) w (released fd w) tt
  | act_close fd w : act _ (CloseFd fd) w (released fd w) tt
  | act_read w r : act _ ReadState w (after [Accessed (lock w)] w) r
  | act_write l w r : act _ (WriteFile l) w (after [Accessed (lock w)] w) r
  | act_node B (c : Slots.eff B) w b : act _ (Node c) w (after [Kernel] w) b
  | act_mkdir_fails w e : act _ MkdirAll w (after [Failed] w) (Err e)
  | act_open_fails w e : act _ OpenLock w (after [Failed] w) (Err e)
  | act_flock_fails fd w e : act _ (FlockEx fd) w (after [Failed] w) (Err e).

(** One process among others: its next call, or another process takes the free lock
    or gives it back. *)
Inductive proc_step {A} : World * prog A -> World * prog A -> Prop :=
  | proc_call B (c : eff B) k w w' b : act B c w w' b -> proc_step (w, Do c k) (w', k b)
  | proc_taken p w : lock w = Free -> proc_step (w, p) (with_lock Theirs w, p)
  | proc_given p w : lock w = Theirs -> proc_step (w, p) (with_lock Free w, p).

(** A discipline with a ghost state that the world agrees with is kept. *)
Lemma proc_invariant {A G} (pre : forall B, eff B -> G -> Prop) (next : forall B, eff B -> B -> G -> G)
    (post : A -> G -> Prop) (R : World -> G -> Prop) (x y : World * prog A) g :
  (forall B (c : eff B) w w' b g, act B c w w' b -> pre B c g -> R w g -> R w' (next B c b g)) ->
  (forall w g, lock w = Free -> R w g -> R (with_lock Theirs w) g) ->
  (forall w g, lock w = Theirs -> R w g -> R (with_lock Free w) g) ->
  rtc proc_step x y -> R x.1 g -> obeys pre (fun _ _ _ => True) next post x.2 g ->
  exists g', R y.1 g' /\ obeys pre (fun _ _ _ => True) next post y.2 g'.
Proof.
  intros Hact Ht Hg Hs. revert g. induction Hs as [x|x y z Hxy _ IH]; intros g HR Hp; [eauto|].
  destruct Hxy; cbn in *; eauto. destruct Hp as [Hpre Hk]. eapply IH; eauto.
Qed.

(** *** The agent *)

(** Where an operation is with the lock. *)
Inductive stage := Idle | Opened (fd : nat) | Held (fd : nat).

Definition may {B} (c : eff B) (g : stage) : Prop :=
  match c, g with
  | (MkdirAll | OpenLock | Node _), Idle => True
  | (FlockEx fd | CloseFd fd), Opened fd' => fd = fd'
  | FlockUn fd, Held fd' => fd = fd'
  | (ReadState | WriteFile _), Held _ => True
  | _, _ => False
  end.
Definition stage_after {B} (c : eff B) : B -> stage -> stage :=
  match c in eff B return B -> stage -> stage with
  | OpenLock => fun b g => match b with Ok fd => Opened fd | Err _ => g end
  | FlockEx fd => fun b g => match b with Ok _ => Held fd | Err _ => g end
  | FlockUn fd => fun _ _ => Opened fd
  | CloseFd _ => fun _ _ => Idle
  | _ => fun _ g => g
  end.
Definition agrees (w : World) (g : stage) : Prop :=
  Forall (fun c => match c with Accessed h => exists fd, h = Mine fd | _ => True end) (calls w) /\
  match g with Held fd => lock w = Mine fd | _ => forall fd, lock w <> Mine fd end.

Local Abbreviation kept := (obeys (fun B => @may B) (fun _ _ _ => True) (fun B => @stage_after B)).

Lemma WithStateFileLock_keeps {A} (fn : prog (res A)) :
  (forall fd, kept (fun _ g => g = Held fd) fn (Held fd)) -> kept (fun _ g => g = Idle) (WithStateFileLock fn) Idle.
Proof.
  intros Hfn. cbn. split; [done|]. intros [[]|e] _; [|done]. split; [done|]. intros [fd|e] _; [|done]. split; [done|].
  intros [[]|e] _; [|by split]. eapply obeys_pbind; [apply Hfn|]. intros a g ->. by repeat split.
Qed.

Lemma load_keeps `{StateCodec} m : kept (fun _ g => g = Idle) (load m) Idle.
Proof. eapply obeys_pbind; [by apply WithStateFileLock_keeps|]. by intros a g ->. Qed.
Lemma write_keeps l : kept (fun _ g => g = Idle) (write l) Idle.
Proof. by apply WithStateFileLock_keeps. Qed.

Lemma with_file_keeps {A} (p : Programs.prog Slots.eff A) : kept (fun _ g => g = Idle) (with_file p) Idle.
Proof.
  induction p as [a|B c k IH]; [done|]. cbn. revert k IH. destruct c; intros k IH; try (split; [done|]; intros b _; apply IH).
  eapply obeys_pbind; [apply write_keeps|]. intros a g ->. apply IH.
Qed.

Lemma agent_keeps `{StateCodec} p : agent_program p -> kept (fun _ g => g = Idle) p Idle.
Proof. intros [m|cfg base o m]; [apply load_keeps|apply with_file_keeps]. Qed.

Lemma act_agrees B (c : eff B) w w' b g : act B c w w' b -> may c g -> agrees w g -> agrees w' (stage_after c b g).
Proof.
  intros Ha Hm [Hc Hl]. unfold agrees. destruct Ha, g; cbn in *; subst; try done; rewrite ?Forall_app, ?Forall_singleton; eauto.
  - unfold released. rewrite Hl, decide_True by done. by split.
  - unfold released. destruct (lock w) as [|fd'|] eqn:E; [by rewrite E|by destruct (Hl fd')|by rewrite E].
Qed.

(** The agent and the lock. However its operations and the other processes take turns,
    the file is read and written only while this operation holds the lock, kernel
    commands run without it, an operation that is done has given it back, and the lock
    an operation waits for is never one it holds itself. *)
Theorem agent_access_under_lock `{StateCodec} p w w' p' :
  agent_program p -> lock w = Free \/ lock w = Theirs -> calls w = [] -> rtc proc_step (w, p) (w', p') ->
  (forall h, Accessed h ∈ calls w' -> exists fd, h = Mine fd) /\
  match p' with
  | Ret _ | Do (Node _) _ | Do (FlockEx _) _ => forall fd, lock w' <> Mine fd
  | Do (ReadState | WriteFile _) _ => exists fd, lock w' = Mine fd
  | _ => True
  end.
Proof.
  intros Hp Hl Hc Hs. apply agent_keeps in Hp. 
  destruct (proc_invariant (fun B => @may B) (fun B => @stage_after B) (fun _ g => g = Idle) agrees (w, p) (w', p') Idle) as (g & [Ha Hg] & Hk);
    [exact act_agrees| | |done| |done|].
  - intros w1 g E [H1 H2]. split; [done|]. destruct g; cbn; [done|done|congruence].
  - intros w1 g E [H1 H2]. split; [done|]. destruct g; cbn; [done|done|congruence].
  - unfold agrees. cbn. rewrite Hc. split; [by constructor|]. intros fd. by destruct Hl as [E|E]; rewrite E.
  - cbn in Ha, Hg, Hk. split.
    + intros h Hh. by apply (proj1 (Forall_forall _ _) Ha) in Hh.
    + destruct p' as [a|B c k]; [cbn in Hk; by subst g|]. destruct Hk as [Hm _]. destruct c, g; cbn in *; try done; eauto.
Qed.

(** *** The command *)

(** What the command has been through: the descriptions it has, the one it holds,
    whether a call failed, or [None] when the kernel gave what it cannot give. *)
Record trail := mkTrail { fds : list nat; holds : option nat; failed : bool }.
Definition fail (t : trail) : trail := mkTrail (fds t) (holds t) true.

Definition waiting {B} (c : eff B) (g : option trail) : Prop :=
  match g, c with
  | None, _ => True
  | Some t, MkdirAll | Some t, OpenLock => failed t = false
  | Some t, FlockEx fd => failed t = false /\ holds t <> Some fd
  | Some t, (FlockUn _ | CloseFd _) => failed t = true
  | Some _, _ => False
  end.
Definition trail_after {B} (c : eff B) : B -> option trail -> option trail :=
  match c in eff B return B -> option trail -> option trail with
  | MkdirAll => fun b g => t ← g; Some (if is_ok b then t else fail t)
  | OpenLock => fun b g => t ← g;
      match b with Err _ => Some (fail t) | Ok fd => if decide (fd ∈ fds t) then None else Some (mkTrail (fd :: fds t) (holds t) (failed t)) end
  | FlockEx fd => fun b g => t ← g;
      match b with
      | Err _ => Some (fail t)
      | Ok _ => match holds t with
                | None => Some (mkTrail (fds t) (Some fd) (failed t))
                | Some fd' => if decide (fd = fd') then g else None
                end
      end
  | FlockUn fd => fun _ g => t ← g; Some (if decide (holds t = Some fd) then mkTrail (fds t) None (failed t) else t)
  | CloseFd fd => fun _ g => t ← g; Some (if decide (holds t = Some fd) then mkTrail (fds t) None (failed t) else t)
  | _ => fun _ g => g
  end.
Definition stuck {A} (r : res A) (g : option trail) : Prop := match g with None => True | Some t => failed t = true /\ is_ok r = false end.

Local Abbreviation stays := (obeys (fun B => @waiting B) (fun _ _ _ => True) (fun B => @trail_after B)).

Definition tells (w : World) (g : option trail) : Prop :=
  match g with
  | None => False
  | Some t => (forall fd, fd ∈ fds t -> (fd < next_fd w)%nat) /\ (forall fd, lock w = Mine fd <-> holds t = Some fd) /\
              (failed t = true -> Failed ∈ calls w) /\ (forall c, c ∈ calls w -> match c with Accessed _ | Kernel => False | _ => True end)
  end.

Lemma impossible_stays {A} (post : A -> option trail -> Prop) p : (forall a, post a None) -> stays post p None.
Proof.
  intros Hp. induction p as [a|B c k IH]; cbn; [apply Hp|]. split; [done|]. intros b _.
  replace (trail_after c b None) with (@None trail) by (by destruct c). apply IH.
Qed.

Lemma tells_call c w t t' : fds t' = fds t -> holds t' = holds t ->
  match c with Failed | Locked _ => True | _ => False end -> (failed t' = true -> failed t = true \/ c = Failed) ->
  tells w (Some t) -> tells (after [c] w) (Some t').
Proof.
  intros E1 E2 Hq Hf (Hfds & Hh & Ht & Hc). split_and!; rewrite ?E1, ?E2; cbn; [done|done| |].
  - intros H. apply elem_of_app. destruct (Hf H) as [H'| ->]; [left; auto|right; by left].
  - intros c' [H|H]%elem_of_app; [by apply Hc|]. apply list_elem_of_singleton in H as ->. by destruct c.
Qed.

Lemma tells_released fd w t :
  tells w (Some t) -> tells (released fd w) (Some (if decide (holds t = Some fd) then mkTrail (fds t) None (failed t) else t)).
Proof.
  intros (Hfds & Hh & Ht & Hc). unfold released. case_decide as E.
  - rewrite (proj2 (Hh fd) E), decide_True by done. split_and!; cbn; try done.
  - destruct (lock w) as [|fd'|] eqn:El; [|rewrite (decide_False (P := fd' = fd)) by (intros ->; apply E; by apply Hh)|];
      (split_and!; [done|intros fd1; rewrite El; apply Hh|done|done]).
Qed.

Lemma tells_locked fd w t : lock w = Free \/ lock w = Mine fd -> tells w (Some t) ->
  (holds t = None \/ holds t = Some fd) /\ tells (with_lock (Mine fd) w) (Some (mkTrail (fds t) (Some fd) (failed t))).
Proof.
  intros Hl (Hfds & Hh & Ht & Hc). split.
  - destruct Hl as [Hl|Hl]; [|right; by apply Hh]. left. destruct (holds t) as [fd'|]; [|done]. by rewrite (proj2 (Hh fd') eq_refl) in Hl.
  - split_and!; cbn; [done| |done|done]. intros fd'. split; congruence.
Qed.

Lemma act_tells B (c : eff B) w w' b g : act B c w w' b -> waiting c g -> tells w g -> tells w' (trail_after c b g).
Proof.
  intros Ha Hw Ht. destruct g as [t|]; [|done].
  destruct Ha as [w|w|fd w Hl|fd w|fd w|w r|l w r|B c w b|w e|w e|fd w e]; cbn in Hw; try done; cbn [trail_after mbind option_bind is_ok];
    try (by apply tells_released); try (by eapply tells_call; [..|exact Ht]; cbn; auto).
  - destruct Ht as (Hfds & Hh & Hf & Hc). case_decide as Hin; [specialize (Hfds _ Hin); lia|]. split_and!; try done.
    cbn. intros fd [->|H]%elem_of_cons; [lia|]. specialize (Hfds _ H). lia.
  - apply (tells_locked fd) in Ht as [[E|E] Ht]; [| |done]; rewrite E, ?decide_True by done; (eapply tells_call; [..|exact Ht]; cbn; auto).
Qed.

Lemma stays_do {A B} (post : A -> option trail -> Prop) (c : eff B) k g :
  waiting c g -> (forall b, stays post (k b) (trail_after c b g)) -> stays post (Do c k) g.
Proof. intros Hw Hk. split; [done|]. intros b _. apply Hk. Qed.

(** Giving back after a failure. *)
Lemma stays_done {A} (r : res A) fd t : failed t = true -> is_ok r = false -> stays stuck (CloseFd fd ;! Ret r) (Some t).
Proof. intros Hf Hr. apply stays_do; [done|]. intros []. cbn. case_decide; by split. Qed.

(** Taking the lock again fails or is impossible. *)
Lemma nested_stays {A} (fn : prog (res A)) fd t : failed t = false -> holds t = Some fd -> fd ∈ fds t ->
  stays stuck (WithStateFileLock fn) (Some t).
Proof.
  intros Hf Hh Hin. apply stays_do; [done|]. intros [[]|e]; [|done]. apply stays_do; [done|]. intros [fd2|e]; [|done].
  cbn [trail_after mbind option_bind]. case_decide as E; [by apply impossible_stays|]. apply stays_do; [split; [done|cbn; rewrite Hh; by intros [= ->]]|].
  intros [[]|e]; [|by apply stays_done]. cbn. rewrite Hh, decide_False by (intros ->; done). by apply impossible_stays.
Qed.

(** So what holds it and does not come back with an answer never ends well. *)
Lemma locked_stays {A} (fn : prog (res A)) :
  (forall fd t, failed t = false -> holds t = Some fd -> fd ∈ fds t -> stays stuck fn (Some t)) ->
  stays stuck (WithStateFileLock fn) (Some (mkTrail [] None false)).
Proof.
  intros Hfn. apply stays_do; [done|]. intros [[]|e]; [|done]. apply stays_do; [done|]. intros [fd|e]; [|done].
  cbn [trail_after mbind option_bind]. rewrite decide_False by apply not_elem_of_nil. apply stays_do; [by split|].
  intros [[]|e]; [|by apply stays_done]. eapply obeys_pbind; [apply (Hfn fd); try done; by left|].
  intros a [t|] Ha; [|by apply impossible_stays]. destruct Ha as [Hf Ha]. apply stays_do; [done|]. intros [].
  cbn [trail_after mbind option_bind]. case_decide; by apply stays_done.
Qed.

(** A lock that this process holds by another description is not got. *)
Lemma waits {A} (x y : World * prog A) : proc_step x y ->
  match x.2 with
  | Do (FlockEx fd) _ => forall fd', lock x.1 = Mine fd' -> fd' = fd \/ Failed ∈ calls y.1
  | _ => True
  end.
Proof.
  destruct 1 as [B c k w w' b Ha|p w E|p w E]; cbn.
  - destruct Ha; try done; cbn; intros fd' E; [destruct H; [congruence|left; congruence]|]. right. apply elem_of_app. right. by left.
  - destruct p as [|B [] k]; try done. congruence.
  - destruct p as [|B [] k]; try done. congruence.
Qed.

Lemma done_rests {A} (x y : World * prog A) : rtc proc_step x y ->
  match x.2 with Ret _ => y.2 = x.2 /\ calls y.1 = calls x.1 | _ => True end.
Proof.
  induction 1 as [x|x y z Hs _ IH]; [by destruct x.2|]. destruct Hs as [B c k w w' b Ha|p w E|p w E]; cbn in *; [done|by destruct p..].
Qed.

Section commands.
Context `{C : StateCodec} (unmarshal : string -> res slotBundle) (Base : string -> string) (ebpf_error : slotBundle -> option goerr).

Local Abbreviation cmd := (command unmarshal Base ebpf_error).

Lemma load_stays m fd t : failed t = false -> holds t = Some fd -> fd ∈ fds t ->
  stays (fun r => stuck r.2) (load m) (Some t).
Proof.
  intros Hf Hh Hin. eapply obeys_pbind; [by eapply nested_stays|]. intros r [t'|] Hr; [|done].
  destruct Hr as [Hf' Hr]. by destruct r.
Qed.

Lemma body_stays c cfg base b fd t : failed t = false -> holds t = Some fd -> fd ∈ fds t -> stays stuck (body Base c cfg base b) (Some t).
Proof.
  intros Hf Hh Hin. eapply obeys_pbind; [by eapply load_stays|]. intros [m r] [t'|] Hr; [|by apply impossible_stays].
  destruct Hr as [Hf' Hr]. by destruct r.
Qed.

(** C38. The command locks itself out. It holds the lock of the state file while it loads the
    file, which takes the same lock on another description. So once its input is
    accepted, ADD, DEL and CHECK never touch the slots or their file, and never end
    unless a call on the lock fails; waiting for the lock that they hold they have no
    other step. *)
Theorem command_locks_itself_out env made w w' p' :
  CNI_COMMAND env <> "VERSION" -> accepted unmarshal ebpf_error env = Ok made ->
  (forall fd, lock w <> Mine fd) -> calls w = [] -> rtc proc_step (w, cmd env) (w', p') ->
  (forall c, c ∈ calls w' -> match c with Accessed _ | Kernel => False | _ => True end) /\
  match p' with
  | Ret r => is_ok r = false /\ Failed ∈ calls w'
  | Do (FlockEx _) _ => forall fd x, lock w' = Mine fd -> proc_step (w', p') x -> Failed ∈ calls x.1
  | Do (Node _) _ | Do ReadState _ | Do (WriteFile _) _ => False
  | _ => True
  end.
Proof.
  intros Hv Ha Hl Hc Hs. unfold command in Hs. apply String.eqb_neq in Hv. rewrite Hv, Ha in Hs. destruct made as [b [cfg base]].
  apply (proc_invariant (fun B => @waiting B) (fun B => @trail_after B) stuck tells _ _ (Some (mkTrail [] None false)) act_tells) in Hs
    as ([t|] & Ht & Hk); [|done|..].
  - destruct Ht as (_ & Hh & Hf & Hq). cbn in Hh, Hf, Hq, Hk. split; [done|]. destruct p' as [r|B c k]; [destruct Hk; auto|].
    destruct Hk as [Hw _]. destruct c; try done. destruct Hw as [_ Hw]. intros fd' x E Hx. apply Hh in E as E'.
    apply waits in Hx. cbn in Hx. destruct (Hx _ E) as [->|]; done.
  - intros w1 [t|] E Ht; [|done]. destruct Ht as (H1 & H2 & H3 & H4). split_and!; [done| |done|done]. intros fd. cbn. rewrite <- H2, E. done.
  - intros w1 [t|] E Ht; [|done]. destruct Ht as (H1 & H2 & H3 & H4). split_and!; [done| |done|done]. intros fd. cbn. rewrite <- H2, E. done.
  - split_and!; cbn; [intros fd H; by apply not_elem_of_nil in H| |done|]. 
    + intros fd. split; [intros H; by destruct (Hl fd)|done].
    + rewrite Hc. intros c H. by apply not_elem_of_nil in H.
  - apply locked_stays. apply body_stays.
Qed.

(** DEL is refused. Standard input is read for ADD and CHECK only, so DEL has no bundle. *)
Theorem del_is_refused env e w w' p' :
  unmarshal "" = Err e -> CNI_COMMAND env = "DEL" -> rtc proc_step (w, cmd env) (w', p') ->
  exists e', p' = Ret (Err e') /\ calls w' = calls w.
Proof.
  intros Hu Hd Hs. assert (exists e', cmd env = Ret (Err e')) as [e' E].
  { unfold command, accepted, readInput. rewrite Hd. cbn. rewrite Hu. destruct (verifyFence env) as [[]|]; eauto. }
  rewrite E in Hs. exists e'. by destruct (done_rests _ _ Hs).
Qed.
End commands.

(** ** Concrete runs *)

Module Witness.

#[local] Existing Instance Slots.Witness.codec.

Definition fence (content : string) : Env := mkEnv "ADD" "m1" "/run/fence" (Ok "bundle") (Ok 384%Z) (Ok content).
Definition decode (raw : string) : res slotBundle :=
  if String.eqb raw "" then Err (errors_New "unexpected end of JSON input")
  else Ok (mkBundle "" "tap0" "172.16.0.2" "" "/data/slots.json" "172.16.0.0/24" "" "" "" "" "" "" 0%Z 0%Z).
Definition add : Env := fence ("op-1" +:+ String newline "m1").
Definition no_ebpf (_ : slotBundle) : option goerr := Some (errors_New "no BTF").
Definition fresh : World := mkWorld Free 3 [].

Example fence_binds_machine : is_ok (accepted decode no_ebpf add) = true /\
  accepted decode no_ebpf (fence ("op-1" +:+ String newline "m2")) =
    Err (Errorf "cni fence bound to machine %q, bundle wants %q (fence replay rejected)" [AStr "m2"; AStr "m1"]) /\
  accepted decode no_ebpf (fence "  ") = Err (bad "cni fence %s empty" "/run/fence").
Proof. by vm_compute. Qed.

Lemma call_step {A B} (c : eff B) (k : B -> prog A) w w' b y :
  act B c w w' b -> rtc proc_step (w', k b) y -> rtc proc_step (w, Do c k) y.
Proof. intros Ha Hs. eapply rtc_l; [by constructor|done]. Qed.
Ltac call A := eapply call_step; [by apply A|]; cbn.

(** The command reaches its second flock. *)
Lemma second_flock Base c cfg base b :
  exists k, rtc proc_step (fresh, WithStateFileLock (body Base c cfg base b)) (mkWorld (Mine 3) 5 [Locked 3], Do (FlockEx 4) k).
Proof.
  eexists. call act_mkdir. call act_open. call (fun fd w H => act_flock fd w (or_introl H)). call act_mkdir. call act_open. constructor.
Qed.

Lemma command_locks_itself_out_witness : exists w' p',
  rtc proc_step (fresh, command decode (fun s => s) no_ebpf add) (w', p') /\ lock w' = Mine 3 /\ (forall c, c ∈ calls w' -> match c with Accessed _ | Kernel => False | _ => True end).
Proof.
  destruct (accepted decode no_ebpf add) as [[b [cfg base]]|] eqn:E; [|by vm_compute in E].
  destruct (second_flock (fun s => s) "ADD" cfg base b) as [k Hk]. assert (rtc proc_step (fresh, command decode (fun s => s) no_ebpf add) (mkWorld (Mine 3) 5 [Locked 3], Do (FlockEx 4) k)) as Hs.
  { unfold command. by rewrite E. }
  exists (mkWorld (Mine 3) 5 [Locked 3]), (Do (FlockEx 4) k). split; [exact Hs|]. split; [done|].
  refine (proj1 (command_locks_itself_out decode (fun s => s) no_ebpf add _ _ _ _ _ E _ _ Hs)); [by vm_compute|done|done].
Defined.

Lemma del_is_refused_witness : exists e, command decode (fun s => s) no_ebpf (mkEnv "DEL" "m1" "/run/fence" (Ok "bundle") (Ok 384%Z) (Ok "op-1")) = Ret (Err e).
Proof.
  edestruct (del_is_refused decode (fun s => s) no_ebpf (mkEnv "DEL" "m1" "/run/fence" (Ok "bundle") (Ok 384%Z) (Ok "op-1")) (errors_New "unexpected end of JSON input") fresh fresh) as (e & He & _);
    [reflexivity|reflexivity|constructor|]. by exists e.
Defined.

(** The agent's Load goes through. *)
Lemma agent_access_under_lock_witness : exists w', rtc proc_step (fresh, load ∅) (w', Ret (∅, Ok tt)) /\ lock w' = Free /\
  (forall h, Accessed h ∈ calls w' -> exists fd, h = Mine fd).
Proof.
  assert (rtc proc_step (fresh, load ∅) (mkWorld Free 4 [Locked 3; Accessed (Mine 3)], Ret (∅, Ok tt))) as Hs.
  { call act_mkdir. call act_open. call (fun fd w H => act_flock fd w (or_introl H)). call (fun w => act_read w (Ok None)).
    call act_unlock. call act_close. constructor. }
  eexists. split; [exact Hs|]. split; [done|]. exact (proj1 (agent_access_under_lock _ fresh _ _ (agent_load ∅) (or_introl eq_refl) eq_refl Hs)).
Defined.
End Witness.
