(* ===== verification/Fabric.v ===== *)
(** * The addresses of the fabric (store/fabric.go, controller/operations.go)

    The tables of migrations 0034 and 0035: the identities of services, the addresses of
    executions, the peers with their networks, the east-west rules and how far each node
    was brought. A transaction is one transition, its savepoints a search. The dispatcher's
    program that gives an execution its address ([ensureFabricAllocation]) and the sweep
    that takes it back ([sweepFabricULA]) are run by any number of workers beside the
    reconciler. The collation of an ORDER BY is that of bytes. *)
From S2P Require Import Prelude GoString GoNet Ulanet Programs.
From S2P Require AppCommand Operations.
Local Open Scope Z_scope.

(** ** Tables *)

Record WorkloadIdentity := mkWorkload {
  w_IdentityID : Z; w_TrustDomain : string; w_ProjectID : string; w_AppID : string; w_Service : string }.
Record ULAAllocation := mkAllocation {
  a_ULA : Addr; a_CellPrefix : Prefix; a_ProjectID : string; a_NodeID : string; a_MachineID : string;
  a_ExecutionID : string; a_Generation : Z }.
(** A row stays when its address is released. *)
Record AllocRow := mkAllocRow { alloc : ULAAllocation; released : bool }.
Record WGPeer := mkWGPeer {
  p_NodeID : string; p_Pubkey : string; p_Endpoint : string; p_NodePrefix : Prefix; p_FabricGeneration : Z }.
Record EastWestPolicy := mkEastWestPolicy {
  e_SrcProject : string; e_SrcApp : string; e_DstProject : string; e_DstApp : string; e_DstService : string;
  e_Ports : list Z; e_Generation : Z }.

Abbreviation service_key := (string * string * string)%type.
Abbreviation rule_key := (string * string * string * string * string)%type.

(** Identities by project, app and service, with the sequence of their ids; peers and
    versions by node; rules by their primary key. *)
Record Tables := mkTables {
  workload_identities : gmap service_key (Z * string); next_identity : Z;
  ipam : list AllocRow; wg_peers : gmap string WGPeer;
  fabric_versions : gmap string (Z * string); eastwest_policies : gmap rule_key EastWestPolicy }.
Definition empty_tables : Tables := mkTables ∅ 1 [] ∅ ∅ ∅.

Definition with_identities (ids : gmap service_key (Z * string)) (next : Z) (t : Tables) : Tables :=
  mkTables ids next (ipam t) (wg_peers t) (fabric_versions t) (eastwest_policies t).
Definition with_ipam (f : list AllocRow -> list AllocRow) (t : Tables) : Tables :=
  mkTables (workload_identities t) (next_identity t) (f (ipam t)) (wg_peers t) (fabric_versions t) (eastwest_policies t).
Definition with_peers (f : gmap string WGPeer -> gmap string WGPeer) (t : Tables) : Tables :=
  mkTables (workload_identities t) (next_identity t) (ipam t) (f (wg_peers t)) (fabric_versions t) (eastwest_policies t).
Definition with_versions (f : gmap string (Z * string) -> gmap string (Z * string)) (t : Tables) : Tables :=
  mkTables (workload_identities t) (next_identity t) (ipam t) (wg_peers t) (f (fabric_versions t)) (eastwest_policies t).
Definition with_rules (f : gmap rule_key EastWestPolicy -> gmap rule_key EastWestPolicy) (t : Tables) : Tables :=
  mkTables (workload_identities t) (next_identity t) (ipam t) (wg_peers t) (fabric_versions t) (f (eastwest_policies t)).

Definition ErrFabricGenerationStale : goerr := errors_New "fabric generation below persisted watermark".
Definition unique_violation (index : string) : goerr := Errorf "23505 %s" [AStr index].

(** A statement on its own: what it answers, unless the connection fails. *)
Definition statement {A} (o : exec_outcome) (format : string) (f : Tables -> Tables * res A) : cmd Tables A := fun t =>
  let x := inTx o f t in (x.1, res_map_err (wrap format) x.2).

(** ** Identities *)

Definition max_identity : Z := 2 ^ 31 - 1.

(** The insert; a value of the sequence is used up although the row is there. *)
Definition insert_identity (trustDomain : string) (key : service_key) (t : Tables) : Tables * res (option Z) :=
  let id := next_identity t in
  if max_identity <? id then (t, Err (errors_New "nextval: reached maximum value of sequence"))
  else match workload_identities t !! key with
       | Some _ => (with_identities (workload_identities t) (id + 1) t, Ok None)
       | None =>
           if existsb (fun kv : service_key * (Z * string) => kv.2.1 =? id) (map_to_list (workload_identities t))
           then (t, Err (unique_violation "workload_identities_pkey"))
           else (with_identities (<[key := (id, trustDomain)]> (workload_identities t)) (id + 1) t, Ok (Some id))
       end.

Definition EnsureWorkloadIdentity (o : exec_outcome) (rd : option goerr) (trustDomain projectID appID service : string) :
    cmd Tables WorkloadIdentity := fun t =>
  let key := (projectID, appID, service) in
  match statement o "insert workload identity: %w" (insert_identity trustDomain key) t with
  | (t, Err e) => (t, Err e)
  | (t, Ok (Some id)) => (t, Ok (mkWorkload id trustDomain projectID appID service))
  | (t, Ok None) =>
      (t, match rd, workload_identities t !! key with
          | Some e, _ => Err (wrap "read existing workload identity: %w" e)
          | None, None => Err (wrap "read existing workload identity: %w" (errors_New "no rows in result set"))
          | None, Some (id, got) =>
              if negb (String.eqb got trustDomain)
              then Err (Errorf "workload identity %s/%s/%s exists under trust domain %q, want %q"
                          [AStr projectID; AStr appID; AStr service; AStr got; AStr trustDomain])
              else Ok (mkWorkload id got projectID appID service)
          end)
  end.

Definition ListWorkloadIdentities (t : Tables) : list WorkloadIdentity :=
  sort_by (fun a b => w_IdentityID a <? w_IdentityID b)
    (map (fun kv : service_key * (Z * string) => mkWorkload kv.2.1 kv.2.2 kv.1.1.1 kv.1.1.2 kv.1.2)
       (map_to_list (workload_identities t))).

(** ** Addresses *)

Definition active (t : Tables) : list ULAAllocation := map alloc (List.filter (fun r => negb (released r)) (ipam t)).
Definition of_execution (machineID executionID : string) (a : ULAAllocation) : bool :=
  String.eqb (a_MachineID a) machineID && String.eqb (a_ExecutionID a) executionID.
Definition in_use (ula : Addr) (t : Tables) : bool := existsb (fun a => bool_decide (a_ULA a = ula)) (active t).
Definition held (machineID executionID : string) (t : Tables) : option ULAAllocation :=
  List.find (of_execution machineID executionID) (active t).

(** The sixteen bytes as a number. *)
Definition as16 (a : Addr) : Z := match a with AddrNone => 0 | Addr4 v => 65535 * 2 ^ 32 + v | Addr6 v _ => v end.
Definition nextAddr (base : Addr) (offset : Z) : Addr := Addr6 ((as16 base + offset) mod 2 ^ 128) "".
(** Bytes 5 to 7 of [base] replaced by the subnet. *)
Definition nextSubnetAddr (base : Addr) (n : Z) : Addr :=
  let v := as16 base in
  Addr6 (Z.shiftl (Z.shiftr v 88) 88 + (n mod 2 ^ 24) * 2 ^ 64 + v mod 2 ^ 64) "".

Definition ErrFabricNodePinned (nodeID : string) (ula : Addr) : goerr :=
  Errorf "fabric allocation pinned to node %s (ula %s)" [AStr nodeID; AStr (addr_string ula)].
Definition maxAttempts : Z := 4096.
Definition no_free_ula (node : Prefix) : goerr :=
  Errorf "no free ULA in node prefix %s (tried %d candidates)" [AStr (prefix_string node); AInt maxAttempts].

(** The loop over the candidates. An insert does nothing on an address in use, and fails
    when the execution has another address. *)
Fixpoint try_candidates (fuel : nat) (i : Z) (node : Prefix) (row : Addr -> ULAAllocation) (t : Tables) : Tables * res Addr :=
  match fuel with
  | O => (t, Err (no_free_ula node))
  | S fuel =>
      let cand := nextAddr (PAddr node) (i + 1) in
      if negb (Contains node cand) then (t, Err (no_free_ula node))
      else if in_use cand t then try_candidates fuel (i + 1) node row t
      else match held (a_MachineID (row cand)) (a_ExecutionID (row cand)) t with
           | Some a => if String.eqb (a_NodeID a) (a_NodeID (row cand)) then (t, Ok (a_ULA a))
                       else (t, Err (ErrFabricNodePinned (a_NodeID a) (a_ULA a)))
           | None => (with_ipam (fun l => l ++ [mkAllocRow (row cand) false])%list t, Ok cand)
           end
  end.

Definition AllocateULA (o : exec_outcome) (cellPrefix nodePrefix : Prefix) (projectID nodeID machineID executionID : string)
    (generation : Z) : cmd Tables Addr := fun t =>
  match CanonicalizePrefix cellPrefix 40, CanonicalizePrefix nodePrefix 64 with
  | Err e, _ => (t, Err e)
  | Ok _, Err e => (t, Err e)
  | Ok cell, Ok node =>
      if negb (Contains cell (PAddr node))
      then (t, Err (Errorf "node prefix %s outside cell prefix %s" [AStr (prefix_string node); AStr (prefix_string cell)]))
      else inTx o (try_candidates (Z.to_nat maxAttempts) 0 node
                     (fun ula => mkAllocation ula cell projectID nodeID machineID executionID generation)) t
  end.

Definition ReleaseULA (o : exec_outcome) (machineID executionID : string) : cmd Tables unit :=
  cmd_exec o (wrap "release ula: %w")
    (with_ipam (map (fun r => if of_execution machineID executionID (alloc r) then mkAllocRow (alloc r) true else r))).

Definition ListActiveULAs (nodeID projectID : string) (t : Tables) : list ULAAllocation :=
  sort_by (fun a b => addr_less (a_ULA a) (a_ULA b))
    (List.filter (fun a => (String.eqb nodeID "" || String.eqb (a_NodeID a) nodeID) &&
                           (String.eqb projectID "" || String.eqb (a_ProjectID a) projectID)) (active t)).

(** ** Peers *)

Definition same_content (p q : WGPeer) : bool :=
  String.eqb (p_Pubkey p) (p_Pubkey q) && String.eqb (p_Endpoint p) (p_Endpoint q) && bool_decide (p_NodePrefix p = p_NodePrefix q).
(** Another node has the network. *)
Definition prefix_taken (nodeID : string) (prefix : Prefix) (t : Tables) : bool :=
  existsb (fun kv : string * WGPeer => bool_decide (p_NodePrefix kv.2 = prefix) && negb (String.eqb kv.1 nodeID)) (map_to_list (wg_peers t)).

Definition put_peer (p : WGPeer) (t : Tables) : Tables * res bool :=
  let write := if prefix_taken (p_NodeID p) (p_NodePrefix p) t
               then (t, Err (unique_violation "wg_peers_node_prefix_active_idx"))
               else (with_peers <[p_NodeID p := p]> t, Ok true) in
  match wg_peers t !! p_NodeID p with
  | None => write
  | Some old =>
      if (p_FabricGeneration old <? p_FabricGeneration p) ||
         ((p_FabricGeneration old =? p_FabricGeneration p) && same_content old p)
      then write else (t, Ok false)
  end.

Definition UpsertWGPeer (o : exec_outcome) (p : WGPeer) : cmd Tables unit :=
  (ok <~ statement o "upsert wg peer: %w" (put_peer p) ;;
   cmd_ret (if ok : bool then Ok tt
            else Err (Errorf "%w: node %s (requested generation %d)"
                        [AErr ErrFabricGenerationStale; AStr (p_NodeID p); AInt (p_FabricGeneration p)])))%go.

Definition ListWGPeers (t : Tables) : list WGPeer :=
  sort_by (fun a b => String.ltb (p_NodeID a) (p_NodeID b)) (map snd (map_to_list (wg_peers t))).

Definition maxCandidates : Z := 65535.
Definition no_free_subnet (cell : Prefix) : goerr :=
  Errorf "no free node /64 in cell %s (tried %d)" [AStr (prefix_string cell); AInt maxCandidates].

(** The loop over the networks. The insert fails on the primary key when the node is there
    after all, and on the index of networks when another node has this one. *)
Fixpoint try_subnets (fuel : nat) (i : Z) (cell : Prefix) (nodeID pubkey endpoint : string) (t : Tables) : Tables * res (Prefix * Z) :=
  match fuel with
  | O => (t, Err (no_free_subnet cell))
  | S fuel =>
      let cand := nextSubnetAddr (PAddr cell) (i + 1) in
      if negb (Contains cell cand) then (t, Err (no_free_subnet cell))
      else match wg_peers t !! nodeID with
           | Some p => (t, Ok (p_NodePrefix p, p_FabricGeneration p))
           | None =>
               let prefix := PrefixFrom cand 64 in
               if prefix_taken nodeID prefix t then try_subnets fuel (i + 1) cell nodeID pubkey endpoint t
               else (with_peers <[nodeID := mkWGPeer nodeID pubkey endpoint prefix 1]> t, Ok (prefix, 1))
           end
  end.

(** [missed]: the first read of the transaction came before the row of another one. *)
Definition ensure_node (missed : bool) (cell : Prefix) (nodeID pubkey endpoint : string) (t : Tables) : Tables * res (Prefix * Z) :=
  match (if missed then None else wg_peers t !! nodeID) with
  | Some p =>
      if negb (String.eqb (p_Pubkey p) pubkey) || negb (String.eqb (p_Endpoint p) endpoint)
      then let gen := i64 (p_FabricGeneration p + 1) in
           (with_peers <[nodeID := mkWGPeer nodeID pubkey endpoint (p_NodePrefix p) gen]> t, Ok (p_NodePrefix p, gen))
      else (t, Ok (p_NodePrefix p, p_FabricGeneration p))
  | None => try_subnets (Z.to_nat maxCandidates) 0 cell nodeID pubkey endpoint t
  end.

Definition EnsureNodeFabric (o : exec_outcome) (missed : bool) (cellPrefix : Prefix) (nodeID pubkey endpoint : string) :
    cmd Tables (Prefix * Z) := fun t =>
  match CanonicalizePrefix cellPrefix 40 with
  | Err e => (t, Err e)
  | Ok cell => inTx o (ensure_node missed cell nodeID pubkey endpoint) t
  end.

Definition DeleteWGPeer (o1 o2 : exec_outcome) (nodeID : string) : cmd Tables unit :=
  (_ <~ cmd_exec o1 (wrap "delete wg peer: %w") (with_peers (delete nodeID)) ;;
   cmd_exec o2 (wrap "delete fabric version: %w") (with_versions (delete nodeID)))%go.

(** ** East-west rules *)

(** U+2192. *)
Definition arrow : string := bytes [226; 134; 146]%nat.
Definition key_of (p : EastWestPolicy) : rule_key := (e_SrcProject p, e_SrcApp p, e_DstProject p, e_DstApp p, e_DstService p).
Definition key_args (p : EastWestPolicy) : list fmtarg :=
  [AErr ErrFabricGenerationStale; AStr (e_SrcProject p); AStr (e_SrcApp p); AStr (e_DstProject p); AStr (e_DstApp p); AStr (e_DstService p)].

Definition put_rule (p : EastWestPolicy) (t : Tables) : Tables * res bool :=
  match eastwest_policies t !! key_of p with
  | Some old =>
      if (e_Generation old <? e_Generation p) || ((e_Generation old =? e_Generation p) && bool_decide (e_Ports old = e_Ports p))
      then (with_rules <[key_of p := p]> t, Ok true) else (t, Ok false)
  | None => (with_rules <[key_of p := p]> t, Ok true)
  end.
Definition PutEastWestPolicy (o : exec_outcome) (p : EastWestPolicy) : cmd Tables unit :=
  (ok <~ statement o "upsert eastwest policy: %w" (put_rule p) ;;
   cmd_ret (if ok : bool then Ok tt
            else Err (Errorf ("%w: eastwest %s/%s" +:+ arrow +:+ "%s/%s/%s (requested generation %d)") (key_args p ++ [AInt (e_Generation p)]))))%go.

Definition rule_less (a b : EastWestPolicy) : bool :=
  let fields p := [e_SrcProject p; e_SrcApp p; e_DstProject p; e_DstApp p; e_DstService p] in
  (fix less (l l' : list string) : bool :=
     match l, l' with
     | x :: l, y :: l' => String.ltb x y || (String.eqb x y && less l l')
     | _, _ => false
     end) (fields a) (fields b).
Definition ListEastWestPolicies (t : Tables) : list EastWestPolicy :=
  sort_by rule_less (map snd (map_to_list (eastwest_policies t))).

(** The delete, and the read of the mark when it matched no row. *)
Definition delete_rule (p : EastWestPolicy) (t : Tables) : Tables * res bool :=
  match eastwest_policies t !! key_of p with
  | Some old => if e_Generation old <=? e_Generation p then (with_rules (delete (key_of p)) t, Ok true) else (t, Ok false)
  | None => (t, Ok false)
  end.
Definition DeleteEastWestPolicy (o : exec_outcome) (rd : option goerr) (p : EastWestPolicy) : cmd Tables unit :=
  (matched <~ statement o "delete eastwest policy: %w" (delete_rule p) ;;
   fun t => (t, if matched : bool then Ok tt
                else match rd, eastwest_policies t !! key_of p with
                     | Some e, _ => Err (wrap "read eastwest policy watermark: %w" e)
                     | None, None => Ok tt
                     | None, Some cur => Err (Errorf ("%w: eastwest %s/%s" +:+ arrow +:+ "%s/%s/%s applied %d > requested %d")
                                                (key_args p ++ [AInt (e_Generation cur); AInt (e_Generation p)]))
                     end))%go.

(** ** How far a node was brought *)

Definition FabricVersion (nodeID : string) (t : Tables) : Z * string := default (0, "") (fabric_versions t !! nodeID).

Definition advance_version (nodeID : string) (generation : Z) (hash : string) (t : Tables) : Tables * res bool :=
  match fabric_versions t !! nodeID with
  | Some old => if old.1 <? generation then (with_versions <[nodeID := (generation, hash)]> t, Ok true) else (t, Ok false)
  | None => (with_versions <[nodeID := (generation, hash)]> t, Ok true)
  end.
Definition AdvanceFabricVersion (o : exec_outcome) (nodeID : string) (generation : Z) (hash : string) : cmd Tables unit :=
  (ok <~ statement o "advance fabric version: %w" (advance_version nodeID generation hash) ;;
   cmd_ret (if ok : bool then Ok tt
            else Err (Errorf "%w: node %s version above %d" [AErr ErrFabricGenerationStale; AStr nodeID; AInt generation])))%go.

(** ** What is read together with machines and deployments *)

Section joined.
Context {json : Type}.
Implicit Types db : Operations.DB (json := json).

Record MeshDirectIndex := mkIndex { Services : gset string; Machines : gset string }.
Definition nul : string := String (Ascii.ascii_of_nat 0) "".
Definition MeshServiceKey (project app service : string) : string := project +:+ nul +:+ app +:+ nul +:+ service.

Definition all_machines db : list (Operations.Machine (json := json)) := map snd (map_to_list (Operations.machines db)).
(** The deployment of a machine and the project of its application. *)
Definition deployment_of db (m : Operations.Machine (json := json)) : option AppCommand.Dep :=
  Operations.deployments db !! Operations.m_DeploymentID (Operations.shape m).
Definition project_of db (m : Operations.Machine (json := json)) : option string :=
  Operations.ap_ProjectID <$> Operations.apps db !! Operations.m_AppID (Operations.shape m).

(** One row for each service of each machine; those that are direct are kept. *)
Definition direct_rows db : list (string * string) :=
  flat_map (fun m =>
    match project_of db m, deployment_of db m with
    | Some project, Some dep =>
        omap (fun s => if String.eqb (AppCommand.sv_Name s) "" || negb (AppCommand.sv_MeshDirect s) then None
                       else Some (MeshServiceKey project (Operations.m_AppID (Operations.shape m)) (AppCommand.sv_Name s),
                                  Operations.m_ID (Operations.shape m)))
             (AppCommand.dp_Services dep)
    | _, _ => []
    end) (all_machines db).
Definition MeshDirectIndex_ db : MeshDirectIndex :=
  mkIndex (list_to_set (map fst (direct_rows db))) (list_to_set (map snd (direct_rows db))).

Record FabricIdentityRow := mkRow {
  f_IdentityID : Z; f_TrustDomain : string; f_ProjectID : string; f_AppID : string; f_Service : string; f_ULA : Addr;
  f_MachineID : string; f_ExecutionID : string; f_Generation : Z; f_MeshDirect : bool; f_NodeID : string }.

(** Without services a deployment has the one called default. *)
Definition fabric_services (dep : AppCommand.Dep (json := json)) : list (string * bool) :=
  match AppCommand.dp_Services dep with
  | [] => [("default", false)]
  | l => map (fun s => (AppCommand.sv_Name s, AppCommand.sv_MeshDirect s)) l
  end.

(** The rows of one address; one without an identity is left out. *)
Definition identity_rows (t : Tables) db (a : ULAAllocation) : list FabricIdentityRow :=
  match Operations.machines db !! a_MachineID a with
  | None => []
  | Some m =>
      match deployment_of db m with
      | None => []
      | Some dep =>
          let app := Operations.m_AppID (Operations.shape m) in
          omap (fun s : string * bool =>
            match workload_identities t !! (a_ProjectID a, app, s.1) with
            | None => None
            | Some (id, td) => Some (mkRow id td (a_ProjectID a) app s.1 (a_ULA a) (a_MachineID a) (a_ExecutionID a)
                                       (a_Generation a) s.2 (a_NodeID a))
            end) (fabric_services dep)
      end
  end.

Definition row_less (a b : FabricIdentityRow) : bool :=
  String.ltb (f_MachineID a) (f_MachineID b) ||
  (String.eqb (f_MachineID a) (f_MachineID b) &&
   (String.ltb (f_ExecutionID a) (f_ExecutionID b) ||
    (String.eqb (f_ExecutionID a) (f_ExecutionID b) && String.ltb (f_Service a) (f_Service b)))).
Definition FabricIdentities (t : Tables) db : list FabricIdentityRow :=
  sort_by row_less (flat_map (identity_rows t db) (active t)).

(** ** The dispatcher and the sweep *)

Definition fabricDefaultService : string := "default".
Definition fabricTrustDomain : string := "firepaas.local".

Definition fabricServiceName (dep : option (AppCommand.Dep (json := json))) : string :=
  match dep with
  | None => fabricDefaultService
  | Some d => match AppCommand.dp_Services d with [] => fabricDefaultService | s :: _ => AppCommand.sv_Name s end
  end.

(** The calls on the store. *)
Inductive eff : Type -> Type :=
  | Peers : eff (res (list WGPeer))
  | GetDeployment (id : string) : eff (res (option (AppCommand.Dep (json := json))))
  | EnsureIdentity (trustDomain projectID appID service : string) : eff (res WorkloadIdentity)
  | Allocate (cell node : Prefix) (projectID nodeID machineID executionID : string) (generation : Z) : eff (res Addr)
  | ActiveULAs : eff (res (list ULAAllocation))
  | InFlight : eff (res (list (Operations.Operation (json := json))))
  | GetMachine (id : string) : eff (res (option (Operations.Machine (json := json))))
  | Release (machineID executionID : string) : eff (res unit).

Abbreviation prog := (Programs.prog eff).

(** What a create asks: the project of its specification, its application and deployment. *)
Record CreateSpec := mkCreateSpec { cs_ProjectID : string; cs_AppID : string; cs_DeploymentID : string }.

Open Scope prog_scope.

Definition ensureFabricAllocation (cellPrefix nodeID : string) (op : Operations.Operation (json := json)) (req : CreateSpec) :
    prog (res unit) :=
  peers <-? Peers ;
  match List.find (fun p => String.eqb (p_NodeID p) nodeID) peers with
  | None => Ret (Ok tt)
  | Some peer =>
      match ValidatePrefix cellPrefix 40 with
      | Err e => Ret (Err (wrap "cell prefix: %w" e))
      | Ok cell =>
          let project := if String.eqb (cs_ProjectID req) "" then Operations.o_ProjectID op else cs_ProjectID req in
          service <~? (if String.eqb (cs_DeploymentID req) "" then Ret (Ok fabricDefaultService)
                       else dep <-! GetDeployment (cs_DeploymentID req) ;
                            Ret (res_map_err (wrap "load deployment for fabric identity: %w")
                                   (res_bind dep (fun d => Ok (fabricServiceName d))))) ;
          ensured <-! EnsureIdentity fabricTrustDomain project (cs_AppID req) service ;
          match ensured with
          | Err e => Ret (Err (wrap "ensure workload identity: %w" e))
          | Ok _ =>
              ula <-! Allocate cell (p_NodePrefix peer) project nodeID (Operations.o_MachineID op)
                        (Operations.o_ExecutionID op) (Operations.o_Generation op) ;
              Ret (res_map_err (wrap "allocate ULA: %w") (res_bind ula (fun _ => Ok tt)))
          end
      end
  end.

(** Whether the sweep gives back the address of an execution of this machine. *)
Definition execution_gone (m : option (Operations.Machine (json := json))) (executionID : string) : bool :=
  match m with
  | None => true
  | Some m =>
      if String.eqb (Operations.DesiredState m) "DELETED" then true
      else if String.eqb (Operations.CurrentExecutionID m) executionID then false
      else String.eqb (Operations.DesiredState m) "CREATED"
  end.

Fixpoint sweep_rows (live : list (string * string)) (rows : list ULAAllocation) : prog (res unit) :=
  match rows with
  | [] => Ret (Ok tt)
  | row :: rows =>
      if bool_decide ((a_MachineID row, a_ExecutionID row) ∈ live) then sweep_rows live rows
      else
        got <-! GetMachine (a_MachineID row) ;
        match got with
        | Err e => Ret (Err (wrap "fabric gc get machine: %w" e))
        | Ok m => if execution_gone m (a_ExecutionID row)
                  then Release (a_MachineID row) (a_ExecutionID row) ;! sweep_rows live rows
                  else sweep_rows live rows
        end
  end.

Definition sweepFabricULA : prog (res unit) :=
  rows <-! ActiveULAs ;
  match rows with
  | Err e => Ret (Err (wrap "fabric gc list: %w" e))
  | Ok [] => Ret (Ok tt)
  | Ok rows =>
      ops <-! InFlight ;
      match ops with
      | Err e => Ret (Err (wrap "fabric gc live ops: %w" e))
      | Ok ops =>
          sweep_rows (omap (fun op => if String.eqb (Operations.o_MachineID op) "" || String.eqb (Operations.o_ExecutionID op) ""
                                      then None else Some (Operations.o_MachineID op, Operations.o_ExecutionID op)) ops) rows
      end
  end.
End joined.
Arguments eff json : clear implicits.

(** ** Networks and addresses as numbers *)

Lemma shiftr_div z n : 0 <= n -> Z.shiftr z n = z / 2 ^ n.
Proof. intros. by rewrite Z.shiftr_div_pow2. Qed.

(** A canonical network, as the checks leave it. *)
Definition canonical (bits : Z) (p : Prefix) : Prop := CanonicalizePrefix p bits = Ok p.

Lemma CanonicalizePrefix_canonical p bits q : CanonicalizePrefix p bits = Ok q -> canonical bits q /\ PAddr q = PAddr p.
Proof.
  intros H. pose proof (CanonicalizePrefix_ok _ _ _ H) as (Hq & Ha & Hb & Hu). split; [|done]. unfold canonical.
  pose proof (IsULAPrefix_spec p Hu) as (v & z & Hp & Hv). unfold Masked in Hq. rewrite Hp in Hq, Ha. subst q. cbn in Ha, Hb. subst bits.
  injection Ha as Hm Hz. subst z. rewrite Hm in H |- *. destruct p as [pa pb]. cbn in *. by subst pa.
Qed.

(** Its address is the multiple of its size. *)
Lemma canonical_value bits p :
  canonical bits p -> 0 <= bits <= 120 ->
  exists v, p = mkPrefix (Addr6 v "") bits /\ 253 * 2 ^ 120 <= v < 254 * 2 ^ 120 /\ v mod 2 ^ (128 - bits) = 0.
Proof.
  intros H Hb. pose proof (CanonicalizePrefix_ok _ _ _ H) as (Hq & Ha & Hbits & Hu).
  pose proof (IsULAPrefix_spec p Hu) as (v & z & Hp & Hv). unfold Masked in Hq. rewrite Hp in Hq.
  assert (z = "") as -> by (rewrite Hq in Hp; cbn in Hp; congruence).
  exists v. split; [destruct p; cbn in *; congruence|]. unfold ula_value in Hv. rewrite shiftr_div in Hv by lia.
  split; [pose proof (Z.div_mod v (2 ^ 120) ltac:(lia)); pose proof (Z.mod_pos_bound v (2 ^ 120) ltac:(lia)); lia|].
  assert (mask_value 128 (PBits p) v = v) as Hm by (rewrite Hq in Hp; cbn in Hp; congruence).
  unfold mask_value in Hm. rewrite Hbits, shiftr_div, Z.shiftl_mul_pow2 in Hm by lia. rewrite <- Hm. apply Z.mod_mul.
  apply Z.pow_nonzero; lia.
Qed.

(** The addresses with the first [bits] bits of the network. *)
Lemma Contains_value v bits w : 0 <= bits <= 120 ->
  Contains (mkPrefix (Addr6 v "") bits) (Addr6 w "") = (w / 2 ^ (128 - bits) =? v / 2 ^ (128 - bits)).
Proof.
  intros Hb. unfold Contains, prefix_valid. cbn [PBits PAddr ZoneOf BitLen value].
  rewrite (proj2 (Z.leb_le 0 bits)) by lia. cbn. by rewrite !shiftr_div by lia.
Qed.

Lemma div_same a b c : 0 < c -> b mod c = 0 -> b <= a < b + c -> a / c = b / c.
Proof.
  intros Hc Hb Ha. pose proof (Z.div_mod b c ltac:(lia)). assert (b = c * (b / c)) as Hbe by lia.
  symmetry. apply Z.div_unique with (a - b); [left; lia|]. lia.
Qed.

Lemma nextAddr_value v i : 253 * 2 ^ 120 <= v < 254 * 2 ^ 120 -> 0 <= i < 2 ^ 64 -> nextAddr (Addr6 v "") i = Addr6 (v + i) "".
Proof. intros Hv Hi. unfold nextAddr. cbn [as16]. rewrite Z.mod_small; [done|]. lia. Qed.

Lemma nextAddr_in_node node i : canonical 64 node -> 0 <= i < 2 ^ 64 -> Contains node (nextAddr (PAddr node) i) = true.
Proof.
  intros Hc Hi. destruct (canonical_value _ _ Hc ltac:(lia)) as (v & -> & Hv & Hm). cbn [PAddr].
  rewrite nextAddr_value, Contains_value by lia. apply Z.eqb_eq, div_same; [lia|done|]. change (2 ^ (128 - 64)) with (2 ^ 64). lia.
Qed.

Lemma nextSubnet_canonical cell n :
  canonical 40 cell -> 0 <= n < 2 ^ 24 ->
  Contains cell (nextSubnetAddr (PAddr cell) n) = true /\ canonical 64 (PrefixFrom (nextSubnetAddr (PAddr cell) n) 64).
Proof.
  intros Hc Hn. destruct (canonical_value _ _ Hc ltac:(lia)) as (v & -> & Hv & Hm). cbn [PAddr]. change (128 - 40) with 88 in Hm.
  assert (nextSubnetAddr (Addr6 v "") n = Addr6 (v + n * 2 ^ 64) "") as ->.
  { unfold nextSubnetAddr. cbn [as16]. rewrite shiftr_div, Z.shiftl_mul_pow2 by lia. rewrite (Z.mod_small n) by lia.
    assert (v / 2 ^ 88 * 2 ^ 88 = v) as -> by (pose proof (Z.div_mod v (2 ^ 88) ltac:(lia)); lia).
    assert (v mod 2 ^ 64 = 0) as ->; [|f_equal; lia]. apply Z.mod_divide in Hm as [k ->]; [|lia].
    replace (k * 2 ^ 88) with (k * 2 ^ 24 * 2 ^ 64) by lia. apply Z.mod_mul. lia. }
  assert (0 <= n * 2 ^ 64 < 2 ^ 88) as Hr by lia.
  split; [rewrite Contains_value by lia; apply Z.eqb_eq, div_same; [lia|done|]; change (2 ^ (128 - 40)) with (2 ^ 88); lia|].
  set (w := v + n * 2 ^ 64).
  assert (Hw : w mod 2 ^ 64 = 0).
  { unfold w. rewrite Z.mod_add by lia. apply Z.mod_divide in Hm as [k ->]; [|lia].
    replace (k * 2 ^ 88) with (k * 2 ^ 24 * 2 ^ 64) by lia. apply Z.mod_mul. lia. }
  assert (253 * 2 ^ 120 <= w < 254 * 2 ^ 120) as Hwr.
  { split; [lia|]. apply Z.mod_divide in Hm as [k Hk]; [|lia]. unfold w. lia. }
  assert (Hu : w / 2 ^ 120 = 253) by (symmetry; apply Z.div_unique with (w - 253 * 2 ^ 120); [left|]; lia).
  unfold canonical, CanonicalizePrefix. change (PrefixFrom (Addr6 w "") 64) with (mkPrefix (Addr6 w "") 64). cbn [PBits negb Z.eqb Pos.eqb].
  assert (IsULAPrefix (mkPrefix (Addr6 w "") 64) = true) as ->.
  { unfold IsULAPrefix, prefix_valid. cbn [PBits PAddr Is6 Is4In6 first_byte]. rewrite !shiftr_div, Hu by lia. cbn.
    assert (w / 2 ^ 32 <> 65535) as Hne; [|by apply Z.eqb_neq in Hne as ->].
    intros E. assert (w < 65536 * 2 ^ 32) by (pose proof (Z.div_mod w (2 ^ 32) ltac:(lia)); pose proof (Z.mod_pos_bound w (2 ^ 32) ltac:(lia)); lia). lia. }
  cbn [negb]. assert (Masked (mkPrefix (Addr6 w "") 64) = mkPrefix (Addr6 w "") 64) as ->; [|by rewrite bool_decide_eq_false_2 by (intros H; by apply H)].
  unfold Masked, mask_value. cbn [PAddr PBits]. change (128 - 64) with 64. rewrite shiftr_div, Z.shiftl_mul_pow2 by lia.
  assert (w / 2 ^ 64 * 2 ^ 64 = w) as ->; [|done]. pose proof (Z.div_mod w (2 ^ 64) ltac:(lia)) as Hd. rewrite Hw in Hd. lia.
Qed.

(** ** What the searches find *)

(** The candidates of a search: the first for which [busy] does not hold. *)
Definition candidates {A} (f : Z -> A) (first n : nat) : list A := map (fun i => f (Z.of_nat i)) (seq first n).

Lemma find_first {A} (busy : A -> bool) (f : Z -> A) first n :
  match List.find (fun a => negb (busy a)) (candidates f first n) with
  | Some a => exists i, Z.of_nat first <= i < Z.of_nat (first + n) /\ a = f i /\ busy a = false /\
                        forall j, Z.of_nat first <= j < i -> busy (f j) = true
  | None => forall j, Z.of_nat first <= j < Z.of_nat (first + n) -> busy (f j) = true
  end.
Proof.
  revert first. induction n as [|n IH]; intros first; [cbn; lia|]. cbn. destruct (busy (f (Z.of_nat first))) eqn:Hb; cbn.
  - specialize (IH (S first)). fold (candidates f (S first) n). destruct (List.find _ _) as [a|].
    + destruct IH as (i & Hi & -> & Hf & Hl). exists i. split_and!; [lia..|done|done|]. intros j Hj.
      destruct (decide (j = Z.of_nat first)) as [->|]; [done|]. apply Hl. lia.
    + intros j Hj. destruct (decide (j = Z.of_nat first)) as [->|]; [done|]. apply IH. lia.
  - exists (Z.of_nat first). split_and!; [lia..|done|done|]. lia.
Qed.

(** The one candidate that [find_first] describes. *)
Lemma find_candidate {A} (busy : A -> bool) (f : Z -> A) first n i :
  Z.of_nat first <= i < Z.of_nat (first + n) -> busy (f i) = false -> (forall j, Z.of_nat first <= j < i -> busy (f j) = true) ->
  List.find (fun a => negb (busy a)) (candidates f first n) = Some (f i).
Proof.
  intros Hi Hf Hl. pose proof (find_first busy f first n) as H. destruct (List.find _ _) as [a|].
  - destruct H as (k & Hk & -> & Hfk & Hlk). f_equal. f_equal. destruct (Z.lt_trichotomy i k) as [Hlt|[->|Hgt]]; [|done|].
    + rewrite Hlk in Hf by lia. done.
    + rewrite Hl in Hfk by lia. done.
  - rewrite H in Hf by lia. done.
Qed.

Lemma find_none {A} (busy : A -> bool) (f : Z -> A) first n :
  (forall j, Z.of_nat first <= j < Z.of_nat (first + n) -> busy (f j) = true) ->
  List.find (fun a => negb (busy a)) (candidates f first n) = None.
Proof.
  intros Hall. pose proof (find_first busy f first n) as H. destruct (List.find _ _) as [a|]; [|done].
  destruct H as (i & Hi & -> & Hf & _). by rewrite Hall in Hf.
Qed.

(** The address an allocation may have. *)
Definition address (node : Prefix) (i : Z) : Addr := nextAddr (PAddr node) i.
Definition subnet (cell : Prefix) (i : Z) : Prefix := PrefixFrom (nextSubnetAddr (PAddr cell) i) 64.

(** What an allocation comes to at a free address. *)
Definition allocate_at (row : Addr -> ULAAllocation) (cand : Addr) (t : Tables) : Tables * res Addr :=
  match held (a_MachineID (row cand)) (a_ExecutionID (row cand)) t with
  | Some a => if String.eqb (a_NodeID a) (a_NodeID (row cand)) then (t, Ok (a_ULA a))
              else (t, Err (ErrFabricNodePinned (a_NodeID a) (a_ULA a)))
  | None => (with_ipam (fun l => l ++ [mkAllocRow (row cand) false])%list t, Ok cand)
  end.

Lemma try_candidates_find fuel i node row t :
  canonical 64 node -> (Z.of_nat i + Z.of_nat fuel < 2 ^ 64)%Z ->
  try_candidates fuel (Z.of_nat i) node row t =
    match List.find (fun a => negb (in_use a t)) (candidates (address node) (S i) fuel) with
    | None => (t, Err (no_free_ula node))
    | Some cand => allocate_at row cand t
    end.
Proof.
  intros Hc. revert i. induction fuel as [|fuel IH]; intros i Hi; [done|]. cbn [try_candidates candidates seq map List.find]. cbv zeta.
  replace (Z.of_nat i + 1) with (Z.of_nat (S i)) by lia. rewrite nextAddr_in_node by (done || lia). cbn [negb].
  fold (address node (Z.of_nat (S i))). destruct (in_use (address node (Z.of_nat (S i))) t) eqn:Hu; cbn [negb]; [|done].
  rewrite (IH (S i)) by lia. done.
Qed.

Definition register (nodeID pubkey endpoint : string) (prefix : Prefix) (t : Tables) : Tables * res (Prefix * Z) :=
  (with_peers <[nodeID := mkWGPeer nodeID pubkey endpoint prefix 1]> t, Ok (prefix, 1)).

Lemma try_subnets_find fuel i cell nodeID pubkey endpoint t :
  canonical 40 cell -> (Z.of_nat i + Z.of_nat fuel < 2 ^ 24)%Z -> wg_peers t !! nodeID = None ->
  try_subnets fuel (Z.of_nat i) cell nodeID pubkey endpoint t =
    match List.find (fun p => negb (prefix_taken nodeID p t)) (candidates (subnet cell) (S i) fuel) with
    | None => (t, Err (no_free_subnet cell))
    | Some prefix => register nodeID pubkey endpoint prefix t
    end.
Proof.
  intros Hc. revert i. induction fuel as [|fuel IH]; intros i Hi Hn; [done|]. cbn [try_subnets candidates seq map List.find]. cbv zeta.
  replace (Z.of_nat i + 1) with (Z.of_nat (S i)) by lia.
  rewrite (proj1 (nextSubnet_canonical _ (Z.of_nat (S i)) Hc ltac:(lia))), Hn. cbn [negb].
  fold (subnet cell (Z.of_nat (S i))). destruct (prefix_taken nodeID (subnet cell (Z.of_nat (S i))) t) eqn:Hu; cbn [negb]; [|done].
  rewrite (IH (S i)) by done || lia. done.
Qed.

Lemma try_subnets_present fuel cell nodeID pubkey endpoint t p :
  canonical 40 cell -> wg_peers t !! nodeID = Some p ->
  try_subnets (S fuel) 0 cell nodeID pubkey endpoint t = (t, Ok (p_NodePrefix p, p_FabricGeneration p)).
Proof.
  intros Hc Hp. cbn [try_subnets]. cbv zeta. by rewrite (proj1 (nextSubnet_canonical _ (0 + 1) Hc ltac:(lia))), Hp.
Qed.

Section allocation.
Context (cell node : Prefix) (projectID nodeID machineID executionID : string) (generation : Z).
Hypothesis Hcell : canonical 40 cell.
Hypothesis Hnode : canonical 64 node.
Hypothesis Hin : Contains cell (PAddr node) = true.
Let row (ula : Addr) : ULAAllocation := mkAllocation ula cell projectID nodeID machineID executionID generation.
Let allocate o := AllocateULA o cell node projectID nodeID machineID executionID generation.

Lemma AllocateULA_find o t :
  allocate o t = inTx o (fun t => match List.find (fun a => negb (in_use a t)) (candidates (address node) 1 (Z.to_nat maxAttempts)) with
                                  | None => (t, Err (no_free_ula node))
                                  | Some cand => allocate_at row cand t
                                  end) t.
Proof.
  unfold allocate, AllocateULA. rewrite Hcell, Hnode, Hin. cbn [negb]. unfold inTx.
  change 0 with (Z.of_nat 0). by rewrite try_candidates_find by (done || (unfold maxAttempts; lia)).
Qed.

(** C40. Allocation is exact. It takes the lowest address of the network of the node that is
    free - the base address of the network, the node's own, never - unless the execution
    has one: then this is given again on the same node, and refused, with the node it is
    bound to, on another. It fails for want of addresses exactly when the first 4096 are
    in use, and then also for an execution that has one of them. *)
Theorem allocation_exact o t :
  ((forall i, 1 <= i <= maxAttempts -> in_use (address node i) t = true) -> allocate o t = (t, Err (no_free_ula node))) /\
  (forall i, 1 <= i <= maxAttempts -> in_use (address node i) t = false ->
     (forall j, 1 <= j < i -> in_use (address node j) t = true) ->
     allocate o t =
       match held machineID executionID t with
       | Some a => if String.eqb (a_NodeID a) nodeID then inTx o (fun t => (t, Ok (a_ULA a))) t
                   else (t, Err (ErrFabricNodePinned (a_NodeID a) (a_ULA a)))
       | None => inTx o (fun t => (with_ipam (fun l => l ++ [mkAllocRow (row (address node i)) false])%list t, Ok (address node i))) t
       end).
Proof.
  rewrite AllocateULA_find. unfold inTx, maxAttempts. split.
  - intros Hall. rewrite find_none; [done|]. intros j Hj. apply Hall. lia.
  - intros i Hi Hf Hl. rewrite (find_candidate (fun a => in_use a t) (address node) 1 _ i); [|lia|done|intros j Hj; apply Hl; lia].
    unfold allocate_at. cbn [row a_MachineID a_ExecutionID a_NodeID]. destruct (held machineID executionID t) as [a|]; [|done].
    by destruct (String.eqb _ _).
Qed.
End allocation.

(** ** The tables under any statements *)

(** Statements of any process, with any outcome. *)
Inductive stmt : Tables -> Tables -> Prop :=
  | s_identity o rd td p a s t : stmt t (EnsureWorkloadIdentity o rd td p a s t).1
  | s_allocate o c n p nd m x g t : stmt t (AllocateULA o c n p nd m x g t).1
  | s_release o m x t : stmt t (ReleaseULA o m x t).1
  | s_upsert o p t : stmt t (UpsertWGPeer o p t).1
  | s_node o missed c n k e t : stmt t (EnsureNodeFabric o missed c n k e t).1
  | s_delete o1 o2 n t : stmt t (DeleteWGPeer o1 o2 n t).1
  | s_rule o p t : stmt t (PutEastWestPolicy o p t).1
  | s_unrule o rd p t : stmt t (DeleteEastWestPolicy o rd p t).1
  | s_version o n g h t : stmt t (AdvanceFabricVersion o n g h t).1.

Definition binding (a : ULAAllocation) : string * string := (a_MachineID a, a_ExecutionID a).

Record tables_inv (t : Tables) : Prop := mkTablesInv {
  ti_ula : NoDup (map a_ULA (active t));
  ti_binding : NoDup (map binding (active t));
  ti_identity : forall k k' v v', workload_identities t !! k = Some v -> workload_identities t !! k' = Some v' -> v.1 = v'.1 -> k = k';
  ti_range : 1 <= next_identity t /\ forall k v, workload_identities t !! k = Some v -> 1 <= v.1 < next_identity t /\ v.1 <= max_identity;
  ti_peer : forall n p, wg_peers t !! n = Some p -> p_NodeID p = n;
  ti_prefix : forall n n' p p', wg_peers t !! n = Some p -> wg_peers t !! n' = Some p' -> p_NodePrefix p = p_NodePrefix p' -> n = n' }.

(** The row of a node after its row: the same, or of a higher mark. EnsureNodeFabric adds one
    to the mark, which wraps at the largest int64. *)
Definition raised (p p' : WGPeer) : Prop :=
  p' = p \/ (- 2 ^ 63 <= p_FabricGeneration p < 2 ^ 63 - 1 -> p_FabricGeneration p < p_FabricGeneration p').
Definition forgot_node (n : string) (t t' : Tables) : Prop := exists o1 o2, t' = (DeleteWGPeer o1 o2 n t).1.

(** What never goes back: the identity of a service stays; an address stays with its
    execution until it is given back; the row of a node, how far it was brought and the
    row of a rule stay, and when they change it is to a higher mark - one mark has one
    key and network, one hash, one set of ports - unless the statement deletes the node,
    or deletes the rule with a mark that is not below the row's. *)
Definition fenced (t t' : Tables) : Prop :=
  (forall k v, workload_identities t !! k = Some v -> workload_identities t' !! k = Some v) /\
  (forall a, a ∈ active t -> a ∈ active t' \/ forall a', a' ∈ active t' -> binding a' <> binding a) /\
  (forall n p, wg_peers t !! n = Some p -> (exists p', wg_peers t' !! n = Some p' /\ raised p p') \/ forgot_node n t t') /\
  (forall n v, fabric_versions t !! n = Some v ->
     (exists v', fabric_versions t' !! n = Some v' /\ (v' = v \/ v.1 < v'.1)) \/ forgot_node n t t') /\
  (forall k p, eastwest_policies t !! k = Some p ->
     (exists p', eastwest_policies t' !! k = Some p' /\
        (e_Ports p = e_Ports p' /\ e_Generation p = e_Generation p' \/ e_Generation p < e_Generation p')) \/
     exists o rd q, key_of q = k /\ e_Generation p <= e_Generation q /\ t' = (DeleteEastWestPolicy o rd q t).1).

Lemma fenced_refl t : fenced t t.
Proof. split_and!; [done|by left|..]; intros; left; eexists; (split; [done|]); by left. Qed.

(** *** Rows in use *)

Lemma active_app t r : active (with_ipam (fun l => l ++ [r])%list t) = (active t ++ if released r then [] else [alloc r])%list.
Proof. unfold active. cbn [ipam with_ipam]. rewrite List.filter_app, map_app. by destruct r as [a []]. Qed.

Lemma active_released m x t :
  active (with_ipam (map (fun r => if of_execution m x (alloc r) then mkAllocRow (alloc r) true else r)) t) =
  List.filter (fun a => negb (of_execution m x a)) (active t).
Proof.
  unfold active. cbn [ipam with_ipam]. induction (ipam t) as [|[a rel] l IH]; [done|]. cbn.
  destruct (of_execution m x a) eqn:E, rel; cbn; rewrite ?E; cbn; rewrite ?IH; done.
Qed.

Lemma in_use_spec u t : in_use u t = false -> u ∉ map a_ULA (active t).
Proof.
  intros H (a & -> & Ha)%list_elem_of_fmap. unfold in_use in H. rewrite <- not_true_iff_false in H. apply H.
  apply existsb_exists. exists a. split; [by apply list_elem_of_In|]. by apply bool_decide_eq_true_2.
Qed.

Lemma of_execution_spec m x a : of_execution m x a = true <-> binding a = (m, x).
Proof. unfold of_execution, binding. rewrite andb_true_iff, !String.eqb_eq. split; [by intros [-> ->]|by intros [= -> ->]]. Qed.

Lemma held_none m x t : held m x t = None -> (m, x) ∉ map binding (active t).
Proof.
  intros H (a & E & Ha)%list_elem_of_fmap. apply list_elem_of_In in Ha.
  pose proof (List.find_none _ _ H a Ha) as Hf. rewrite (proj2 (of_execution_spec m x a)) in Hf by done. done.
Qed.

Lemma held_some m x t a : held m x t = Some a -> a ∈ active t /\ binding a = (m, x).
Proof. intros H. apply List.find_some in H as [Hin He]. split; [by apply list_elem_of_In|by apply of_execution_spec]. Qed.

Lemma NoDup_snoc {A} (l : list A) x : NoDup l -> x ∉ l -> NoDup (l ++ [x])%list.
Proof. intros Hnd Hx. apply NoDup_app. split_and!; [done| |apply NoDup_singleton]. intros y Hy ->%list_elem_of_singleton. done. Qed.

Lemma NoDup_map_filter {A B} (f : A -> B) (keep : A -> bool) l : NoDup (map f l) -> NoDup (map f (List.filter keep l)).
Proof.
  induction l as [|a l IH]; [done|]. cbn. intros [Ha Hl]%NoDup_cons. destruct (keep a); [|by apply IH]. cbn. constructor; [|by apply IH].
  intros (b & E & Hb)%list_elem_of_fmap. apply Ha. rewrite E. apply list_elem_of_fmap. exists b. split; [done|].
  apply list_elem_of_In, filter_In in Hb as [Hb _]. by apply list_elem_of_In.
Qed.

(** *** Each statement *)

Lemma candidate_fuel : (Z.of_nat (Z.to_nat maxAttempts) < 2 ^ 64)%Z.
Proof. rewrite Z2Nat.id by done. done. Qed.

Lemma try_candidates_cases fuel node row t t1 x :
  canonical 64 node -> (Z.of_nat fuel < 2 ^ 64)%Z -> try_candidates fuel 0 node row t = (t1, Ok x) ->
  t1 = t \/ exists i, 1 <= i <= Z.of_nat fuel /\
    t1 = with_ipam (fun l => l ++ [mkAllocRow (row (address node i)) false])%list t /\ in_use (address node i) t = false /\
    held (a_MachineID (row (address node i))) (a_ExecutionID (row (address node i))) t = None.
Proof.
  intros Hc Hfuel Ht. change 0 with (Z.of_nat 0) in Ht. rewrite try_candidates_find in Ht by (done || lia).
  pose proof (find_first (fun a => in_use a t) (address node) 1 fuel) as Hf.
  destruct (List.find _ _) as [cand|]; [|simplify_eq]. destruct Hf as (i & Hi & -> & Hu & _).
  unfold allocate_at in Ht. destruct (held _ _ t) as [a|] eqn:Hh.
  - left. destruct (String.eqb _ _); by simplify_eq.
  - right. exists i. split_and!; [lia..|by simplify_eq|done|done].
Qed.

Lemma in_tx_allocation fuel o node row t t1 r :
  canonical 64 node -> (Z.of_nat fuel < 2 ^ 64)%Z -> inTx o (try_candidates fuel 0 node row) t = (t1, r) ->
  t1 = t \/ exists i, 1 <= i <= Z.of_nat fuel /\
    t1 = with_ipam (fun l => l ++ [mkAllocRow (row (address node i)) false])%list t /\ in_use (address node i) t = false /\
    held (a_MachineID (row (address node i))) (a_ExecutionID (row (address node i))) t = None.
Proof.
  intros Hc Hfuel E. destruct (inTx_cases o (try_candidates fuel 0 node row) t) as [Hi|(r1 & d & Hb & Hi)]; rewrite E in Hi; cbn in Hi.
  - by left.
  - rewrite Hi. by eapply try_candidates_cases.
Qed.

Lemma CanonicalizePrefix_same p bits q : CanonicalizePrefix p bits = Ok q -> q = p.
Proof.
  intros H. destruct (CanonicalizePrefix_ok _ _ _ H) as (_ & Ha & Hb & _). unfold CanonicalizePrefix in H.
  destruct (PBits p =? bits) eqn:Hb'; [|done]. apply Z.eqb_eq in Hb'. destruct p, q. cbn in *. congruence.
Qed.

(** An allocation is refused at once, or is the transaction. *)
Lemma AllocateULA_tx o c n p nd m x g t :
  (exists e, AllocateULA o c n p nd m x g t = (t, Err e)) \/
  (canonical 40 c /\ canonical 64 n /\ Contains c (PAddr n) = true /\
   AllocateULA o c n p nd m x g t =
     inTx o (try_candidates (Z.to_nat maxAttempts) 0 n (fun ula => mkAllocation ula c p nd m x g)) t).
Proof.
  unfold AllocateULA. destruct (CanonicalizePrefix c 40) as [cell|] eqn:Hc; [|eauto].
  destruct (CanonicalizePrefix n 64) as [node|] eqn:Hn; [|eauto].
  apply CanonicalizePrefix_same in Hc as Ec, Hn as En. subst cell node.
  destruct (Contains c (PAddr n)) eqn:Hin; unfold negb; [|eauto]. by right.
Qed.

(** A row is added, or nothing changes. *)
Lemma allocate_cases o c n p nd m x g t :
  let t' := (AllocateULA o c n p nd m x g t).1 in
  t' = t \/ exists i, canonical 40 c /\ canonical 64 n /\ Contains c (PAddr n) = true /\ 1 <= i <= maxAttempts /\
    let a := mkAllocation (address n i) c p nd m x g in
    t' = with_ipam (fun l => l ++ [mkAllocRow a false])%list t /\ in_use (a_ULA a) t = false /\ held m x t = None.
Proof.
  cbv zeta. destruct (AllocateULA_tx o c n p nd m x g t) as [[e ->]|(Hc & Hn & Hin & E)]; [by left|]. rewrite E.
  destruct (inTx _ _ t) as [t' r] eqn:Ht.
  destruct (in_tx_allocation _ o n _ t t' r Hn candidate_fuel Ht) as [->|(i & Hi & H1)]; [by left|].
  right. exists i. rewrite Z2Nat.id in Hi by done. by destruct H1 as (-> & Hu & Hh).
Qed.

Lemma try_subnets_cases fuel cell n k e t t1 x :
  canonical 40 cell -> (0 < Z.of_nat fuel < 2 ^ 24)%Z -> try_subnets fuel 0 cell n k e t = (t1, Ok x) ->
  t1 = t \/ exists prefix, wg_peers t !! n = None /\ canonical 64 prefix /\ prefix_taken n prefix t = false /\
    t1 = with_peers <[n := mkWGPeer n k e prefix 1]> t.
Proof.
  intros Hc Hfuel Ht. destruct (wg_peers t !! n) as [p|] eqn:Hp.
  - left. destruct fuel as [|fuel]; [lia|]. rewrite (try_subnets_present _ _ _ _ _ _ p) in Ht by done. by simplify_eq.
  - change 0 with (Z.of_nat 0) in Ht. rewrite try_subnets_find in Ht by (done || lia).
    pose proof (find_first (fun q => prefix_taken n q t) (subnet cell) 1 fuel) as Hf.
    destruct (List.find _ _) as [q|]; [|simplify_eq]. destruct Hf as (i & Hi & -> & Hu & _).
    right. exists (subnet cell i). unfold register in Ht. split_and!; [done| |done|by simplify_eq].
    apply nextSubnet_canonical; [done|lia].
Qed.

Lemma subnet_fuel : (0 < Z.of_nat (Z.to_nat maxCandidates) < 2 ^ 24)%Z.
Proof. rewrite Z2Nat.id by done. done. Qed.

Lemma node_cases o missed c n k e t :
  let t' := (EnsureNodeFabric o missed c n k e t).1 in
  t' = t \/
  (exists p gen, wg_peers t !! n = Some p /\ gen = i64 (p_FabricGeneration p + 1) /\ t' = with_peers <[n := mkWGPeer n k e (p_NodePrefix p) gen]> t) \/
  (exists prefix, wg_peers t !! n = None /\ canonical 64 prefix /\ prefix_taken n prefix t = false /\
     t' = with_peers <[n := mkWGPeer n k e prefix 1]> t).
Proof.
  cbv zeta. destruct (EnsureNodeFabric o missed c n k e t) as [t' r] eqn:E. unfold EnsureNodeFabric in E.
  destruct (CanonicalizePrefix c 40) as [cell|] eqn:Hc; [|left; simplify_eq; done]. apply CanonicalizePrefix_canonical in Hc as [Hc _].
  destruct (inTx_cases o (ensure_node missed cell n k e) t) as [Hi|(r1 & d & Hb & Hi)]; rewrite E in Hi; cbn in Hi; [by left|].
  cbn. rewrite Hi. unfold ensure_node in Hb.
  pose proof (fun t1 x => try_subnets_cases (Z.to_nat maxCandidates) cell n k e t t1 x Hc subnet_fuel) as Htry.
  destruct missed.
  - destruct (Htry _ _ Hb) as [?|?]; auto.
  - destruct (wg_peers t !! n) as [p|] eqn:Hp.
    + destruct (negb _ || negb _); simplify_eq; [|by left]. right. left. by eexists _, _.
    + destruct (Htry _ _ Hb) as [?|?]; auto.
Qed.

(** The tables a statement leaves, up to its outcome. *)
Lemma statement_cases {A} o format (f : Tables -> Tables * res A) t :
  (statement o format f t).1 = t \/ exists a, f t = ((statement o format f t).1, Ok a).
Proof.
  unfold statement. cbn. destruct (inTx_cases o f t) as [H|(a & d & H & ->)]; [by left|]. right. by exists a.
Qed.

Lemma exec_cases {S} o w (f : S -> S) t : (cmd_exec o w f t).1 = t \/ (cmd_exec o w f t).1 = f t.
Proof. destruct o; auto. Qed.

Lemma bind_tables {S A B} (m : cmd S A) (k : A -> cmd S B) t : (forall a t, (k a t).1 = t) -> (cmd_bind m k t).1 = (m t).1.
Proof. intros Hk. unfold cmd_bind. destruct (m t) as [t' [a|e]]; [by rewrite Hk|done]. Qed.

(** Everything but the table of identities, of addresses, of peers. *)
Definition keeps_ipam (t t' : Tables) : Prop := ipam t' = ipam t.
Definition keeps_peers (t t' : Tables) : Prop := wg_peers t' = wg_peers t.
Definition keeps_identities (t t' : Tables) : Prop := workload_identities t' = workload_identities t /\ next_identity t' = next_identity t.

Definition ipam_ok (t : Tables) : Prop := NoDup (map a_ULA (active t)) /\ NoDup (map binding (active t)).
Definition ids_ok (t : Tables) : Prop :=
  (forall k k' v v', workload_identities t !! k = Some v -> workload_identities t !! k' = Some v' -> v.1 = v'.1 -> k = k') /\
  1 <= next_identity t /\ forall k v, workload_identities t !! k = Some v -> 1 <= v.1 < next_identity t /\ v.1 <= max_identity.
Definition peers_ok (t : Tables) : Prop :=
  (forall n p, wg_peers t !! n = Some p -> p_NodeID p = n) /\
  (forall n n' p p', wg_peers t !! n = Some p -> wg_peers t !! n' = Some p' -> p_NodePrefix p = p_NodePrefix p' -> n = n').

Lemma inv_split t : tables_inv t <-> ipam_ok t /\ ids_ok t /\ peers_ok t.
Proof.
  split; [intros [H1 H2 H3 H4 H5 H6]; exact (conj (conj H1 H2) (conj (conj H3 H4) (conj H5 H6)))|intros ((H1 & H2) & (H3 & H4) & (H5 & H6)); by constructor].
Qed.

Lemma ipam_ok_kept t t' : keeps_ipam t t' -> ipam_ok t -> ipam_ok t'.
Proof. unfold keeps_ipam, ipam_ok, active. by intros ->. Qed.
Lemma ids_ok_kept t t' : keeps_identities t t' -> ids_ok t -> ids_ok t'.
Proof. unfold keeps_identities, ids_ok. intros [-> ->]. done. Qed.
Lemma peers_ok_kept t t' : keeps_peers t t' -> peers_ok t -> peers_ok t'.
Proof. unfold keeps_peers, peers_ok. by intros ->. Qed.

Lemma prefix_taken_spec n q t : prefix_taken n q t = false ->
  forall n' p', wg_peers t !! n' = Some p' -> p_NodePrefix p' = q -> n' = n.
Proof.
  intros H n' p' Hp Hq. destruct (decide (n' = n)) as [->|Hne]; [done|]. exfalso. unfold prefix_taken in H.
  rewrite <- not_true_iff_false in H. apply H. apply existsb_exists. exists (n', p'). split; [by apply list_elem_of_In, elem_of_map_to_list|].
  cbn. rewrite bool_decide_eq_true_2 by done. cbn. by apply negb_true_iff, String.eqb_neq.
Qed.

(** A peer is written under its own id with a network that no other node has. *)
Lemma peers_ok_put n q t : p_NodeID q = n -> (forall n' p', wg_peers t !! n' = Some p' -> p_NodePrefix p' = p_NodePrefix q -> n' = n) ->
  peers_ok t -> peers_ok (with_peers <[n := q]> t).
Proof.
  intros Hid Hfree [Hk Hp]. unfold peers_ok. cbn [wg_peers with_peers]. split.
  - intros n' p' [[<- <-]|[_ H]]%lookup_insert_Some; eauto.
  - intros a b p p' [[<- <-]|[Ha H]]%lookup_insert_Some [[<- <-]|[Hb H']]%lookup_insert_Some E; [done| | |by eauto].
    + by rewrite (Hfree b p').
    + by rewrite (Hfree a p).
Qed.

Lemma peers_ok_delete n t : peers_ok t -> peers_ok (with_peers (delete n) t).
Proof.
  intros [Hk Hp]. split; cbn [wg_peers with_peers]; [intros a p [_ H]%lookup_delete_Some; eauto|].
  intros a b p p' [_ Ha]%lookup_delete_Some [_ Hb]%lookup_delete_Some. eauto.
Qed.

(** *** Identities *)

Lemma insert_identity_spec td key t t' r :
  ids_ok t -> insert_identity td key t = (t', Ok r) ->
  ids_ok t' /\ keeps_ipam t t' /\ keeps_peers t t' /\ fabric_versions t' = fabric_versions t /\ eastwest_policies t' = eastwest_policies t /\
  (forall k v, workload_identities t !! k = Some v -> workload_identities t' !! k = Some v).
Proof.
  intros (Hinj & Hn & Hr). unfold insert_identity. destruct (max_identity <? next_identity t) eqn:Hmax; [done|]. apply Z.ltb_ge in Hmax.
  destruct (workload_identities t !! key) as [v|] eqn:Hkey.
  - intros [= <- <-]. split; [|by split_and!]. split; [exact Hinj|]. cbn. split; [lia|]. intros k x Hx. specialize (Hr k x Hx). lia.
  - destruct (existsb _ _) eqn:He; [done|]. intros [= <- <-].
    split; [|split_and!; try done]; [split; [|split]|]; cbn [workload_identities with_identities next_identity].
    + intros k k' x x' [[<- <-]|[Hk H]]%lookup_insert_Some [[<- <-]|[Hk' H']]%lookup_insert_Some E; [done| | |by eauto]; cbn in E.
      * specialize (Hr k' x' H'). lia.
      * specialize (Hr k x H). lia.
    + lia.
    + intros k x [[<- <-]|[_ H]]%lookup_insert_Some; cbn; [lia|]. specialize (Hr k x H). lia.
    + intros k x Hx. rewrite lookup_insert_ne; [done|]. by intros <-; congruence.
Qed.

Lemma identity_step o rd td p a s t :
  let t' := (EnsureWorkloadIdentity o rd td p a s t).1 in
  t' = t \/ exists r, insert_identity td (p, a, s) t = (t', Ok r).
Proof.
  cbv zeta. unfold EnsureWorkloadIdentity. pose proof (statement_cases o "insert workload identity: %w" (insert_identity td (p, a, s)) t) as H.
  destruct (statement _ _ _ t) as [t' [[id|]|e]]; cbn in H |- *; exact H.
Qed.

(** *** The whole step *)

Definition good_step (t t' : Tables) : Prop := tables_inv t' /\ fenced t t'.

Lemma good_refl t : tables_inv t -> good_step t t.
Proof. split; [done|apply fenced_refl]. Qed.

Lemma good_statement {A} o format (f : Tables -> Tables * res A) t :
  tables_inv t -> (forall t' a, f t = (t', Ok a) -> good_step t t') -> good_step t (statement o format f t).1.
Proof.
  intros Hinv Hf. destruct (statement_cases o format f t) as [E|(a & E)]; [|by eapply Hf].
  generalize dependent ((statement o format f t).1). intros t' ->. by apply good_refl.
Qed.

(** A step that changes one table. *)
Lemma good_identities td key t t' r : tables_inv t -> insert_identity td key t = (t', Ok r) -> good_step t t'.
Proof.
  intros (Hi & Hd & Hp)%inv_split E. destruct (insert_identity_spec _ _ _ _ _ Hd E) as (Hd' & Ki & Kp & Ev & Er & Hext).
  split; [apply inv_split; split_and!; [by eapply ipam_ok_kept|done|by eapply peers_ok_kept]|]. split_and!; [done|..].
  - intros a Ha. left. unfold active. by rewrite Ki.
  - intros n p Hn. left. exists p. rewrite Kp. split; [done|by left].
  - intros n v Hn. left. exists v. rewrite Ev. split; [done|by left].
  - intros k p Hk. left. exists p. rewrite Er. split; [done|by left].
Qed.

(** The rows of a table that a statement does not write. *)
Ltac unchanged := intros; left; eexists; (split; [done|]); by left.

Lemma good_ipam f t : tables_inv t -> ipam_ok (with_ipam f t) ->
  (forall a, a ∈ active t -> a ∈ active (with_ipam f t) \/ forall a', a' ∈ active (with_ipam f t) -> binding a' <> binding a) ->
  good_step t (with_ipam f t).
Proof.
  intros (Hi & Hd & Hp)%inv_split Hi' Ha. split; [by apply inv_split|]. split_and!; [done|exact Ha|..]; cbn; unchanged.
Qed.

Lemma good_peer n q t : tables_inv t -> peers_ok (with_peers <[n := q]> t) -> (forall p, wg_peers t !! n = Some p -> raised p q) ->
  good_step t (with_peers <[n := q]> t).
Proof.
  intros (Hi & Hd & Hp)%inv_split Hp' Hr. split; [by apply inv_split|]. split_and!; [done|by left|cbn|cbn; unchanged..].
  intros n' p Hn. left. destruct (decide (n' = n)) as [->|Hne].
  - exists q. split; [apply lookup_insert_eq|auto].
  - exists p. rewrite lookup_insert_ne by done. split; [done|by left].
Qed.

Lemma good_version n v t : tables_inv t -> (forall old, fabric_versions t !! n = Some old -> old.1 < v.1) ->
  good_step t (with_versions <[n := v]> t).
Proof.
  intros (Hi & Hd & Hp)%inv_split Hv. split; [by apply inv_split|]. split_and!; [done|by left|cbn; unchanged|cbn|cbn; unchanged].
  intros n' old Hn. left. destruct (decide (n' = n)) as [->|Hne].
  - exists v. split; [apply lookup_insert_eq|auto].
  - exists old. rewrite lookup_insert_ne by done. split; [done|by left].
Qed.

Lemma good_rule p t : tables_inv t ->
  (forall old, eastwest_policies t !! key_of p = Some old ->
     e_Ports old = e_Ports p /\ e_Generation old = e_Generation p \/ e_Generation old < e_Generation p) ->
  good_step t (with_rules <[key_of p := p]> t).
Proof.
  intros (Hi & Hd & Hp)%inv_split Hv. split; [by apply inv_split|]. split_and!; [done|by left|cbn; unchanged..|cbn].
  intros k old Hk. left. destruct (decide (k = key_of p)) as [->|Hne].
  - exists p. split; [apply lookup_insert_eq|auto].
  - exists old. rewrite lookup_insert_ne by done. split; [done|by left].
Qed.

Lemma good_allocate o c n p nd m x g t : tables_inv t -> good_step t (AllocateULA o c n p nd m x g t).1.
Proof.
  intros Hinv. destruct (allocate_cases o c n p nd m x g t) as [->|(i & _ & _ & _ & _ & -> & Hu & Hh)]; [by apply good_refl|].
  set (a := mkAllocation _ _ _ _ _ _ _) in *. apply good_ipam; [done| |].
  - unfold ipam_ok. rewrite active_app, !map_app. cbn. split.
    + apply NoDup_snoc; [apply Hinv|]. by apply in_use_spec.
    + apply NoDup_snoc; [apply Hinv|]. exact (held_none _ _ _ Hh).
  - intros b Hb. left. rewrite active_app. apply elem_of_app. by left.
Qed.

Lemma good_release o m x t : tables_inv t -> good_step t (ReleaseULA o m x t).1.
Proof.
  intros Hinv. unfold ReleaseULA. destruct (exec_cases o (wrap "release ula: %w") (with_ipam (map (fun r => if of_execution m x (alloc r) then mkAllocRow (alloc r) true else r))) t) as [->| ->];
    [by apply good_refl|]. apply good_ipam; [done|..].
  - unfold ipam_ok. rewrite active_released. split; apply NoDup_map_filter, Hinv.
  - intros a Ha. rewrite active_released. destruct (of_execution m x a) eqn:E.
    + right. intros b [Hb Hf]%list_elem_of_In%filter_In Eb. apply negb_true_iff in Hf. apply of_execution_spec in E.
      rewrite <- Eb in E. apply of_execution_spec in E. congruence.
    + left. apply list_elem_of_In, filter_In. split; [by apply list_elem_of_In|]. by rewrite E.
Qed.

Lemma same_content_spec p q : p_NodeID p = p_NodeID q -> p_FabricGeneration p = p_FabricGeneration q -> same_content p q = true -> q = p.
Proof.
  destruct p, q. unfold same_content. cbn. intros -> -> [[->%String.eqb_eq ->%String.eqb_eq]%andb_true_iff ->%bool_decide_eq_true]%andb_true_iff. done.
Qed.

Lemma good_upsert o p t : tables_inv t -> good_step t (UpsertWGPeer o p t).1.
Proof.
  intros Hinv. unfold UpsertWGPeer. rewrite bind_tables by (by intros []).
  apply good_statement; [done|]. intros t1 b Hb.
  assert (Hw : forall d c, (forall old, wg_peers t !! p_NodeID p = Some old -> raised old p) ->
               (if prefix_taken (p_NodeID p) (p_NodePrefix p) t
               then (t, Err (unique_violation "wg_peers_node_prefix_active_idx"))
               else (with_peers <[p_NodeID p := p]> t, Ok true)) = (d, Ok c) -> good_step t d).
  { intros d c Hr. destruct (prefix_taken _ _ t) eqn:Hf; [done|]. intros [= <- <-]. apply good_peer; [done| |done].
    apply peers_ok_put; [done| |by apply inv_split in Hinv as (_ & _ & ?)]. intros n' p'. by eapply prefix_taken_spec. }
  unfold put_peer in Hb. destruct (wg_peers t !! p_NodeID p) as [old|] eqn:Hold; [|by eapply Hw].
  destruct (_ || _) eqn:Hg; [|injection Hb as <- <-; by apply good_refl]. eapply Hw; [|exact Hb]. intros old' [= <-].
  apply orb_true_iff in Hg as [Hlt%Z.ltb_lt|[Heq%Z.eqb_eq Hc]%andb_true_iff]; [by right|left].
  apply same_content_spec; [by apply (ti_peer _ Hinv)|done|done].
Qed.

Lemma good_node o missed c n k e t : tables_inv t -> good_step t (EnsureNodeFabric o missed c n k e t).1.
Proof.
  intros Hinv. pose proof (proj2 (proj2 (proj1 (inv_split t) Hinv))) as Hp.
  destruct (node_cases o missed c n k e t) as [->|[(p & gen & Hn & Hgen & ->)|(q & Hn & _ & Hf & ->)]]; [by apply good_refl|..];
    (apply good_peer; [done|apply peers_ok_put; [done| |done]|]); cbn [p_NodePrefix].
  - intros n' p' H' E. by eapply (proj2 Hp).
  - intros p' Hp'. rewrite Hn in Hp'. injection Hp' as <-. right. cbn [p_FabricGeneration]. intros Hr. rewrite Hgen, i64_small by lia. lia.
  - intros n' p'. by eapply prefix_taken_spec.
  - intros p' Hp'. congruence.
Qed.

Lemma good_delete o1 o2 n t : tables_inv t -> good_step t (DeleteWGPeer o1 o2 n t).1.
Proof.
  intros Hinv. destruct (proj1 (inv_split t) Hinv) as (Hi & Hd & Hp).
  assert (exists f g, (DeleteWGPeer o1 o2 n t).1 = with_versions g (with_peers f t) /\ (f = id \/ f = delete n) /\ (g = id \/ g = delete n)) as
    (f & g & E & Hf & Hg).
  { unfold DeleteWGPeer, cmd_bind.
    pose proof (exec_cases o1 (wrap "delete wg peer: %w") (with_peers (delete n)) t) as H1.
    destruct (cmd_exec o1 _ _ t) as [t1 [a|e]]; cbn [fst] in H1 |- *.
    - pose proof (exec_cases o2 (wrap "delete fabric version: %w") (with_versions (delete n)) t1) as H2.
      destruct H1 as [->| ->], H2 as [->| ->]; [exists id, id|exists id, (delete n)|exists (delete n), id|exists (delete n), (delete n)];
        (split; [by destruct t|auto]).
    - destruct H1 as [->| ->]; [exists id, id|exists (delete n), id]; (split; [by destruct t|auto]). }
  assert (forall n', (n' = n /\ forgot_node n t (DeleteWGPeer o1 o2 n t).1) \/
            (f (wg_peers t) !! n' = wg_peers t !! n' /\ g (fabric_versions t) !! n' = fabric_versions t !! n')) as Hrow.
  { intros n'. destruct (decide (n' = n)) as [->|Hne]; [left; split; [done|by exists o1, o2]|right].
    destruct Hf as [->| ->], Hg as [->| ->]; rewrite ?lookup_delete_ne by done; done. }
  split.
  - rewrite E. apply inv_split. split_and!; [done|done|]. change (peers_ok (with_peers f t)). destruct Hf as [->| ->]; [by destruct t|by apply peers_ok_delete].
  - split_and!; rewrite ?E; [done|by left|..|cbn; unchanged].
    + intros n' p Hn. rewrite <- E. destruct (Hrow n') as [[-> Hforgot]|[H1 _]]; [by right|left]. exists p. rewrite E. cbn. rewrite H1. split; [done|by left].
    + intros n' v Hn. rewrite <- E. destruct (Hrow n') as [[-> Hforgot]|[_ H1]]; [by right|left]. exists v. rewrite E. cbn. rewrite H1. split; [done|by left].
Qed.

Lemma good_put_rule o p t : tables_inv t -> good_step t (PutEastWestPolicy o p t).1.
Proof.
  intros Hinv. unfold PutEastWestPolicy. rewrite bind_tables by (by intros []).
  apply good_statement; [done|]. intros t1 b Hb.
  unfold put_rule in Hb. destruct (eastwest_policies t !! key_of p) as [old|] eqn:Hk.
  - destruct (_ || _) eqn:Hg; injection Hb as <- <-; [|by apply good_refl]. apply good_rule; [done|].
    intros q Hq. simplify_eq. apply orb_true_iff in Hg as [?%Z.ltb_lt|[?%Z.eqb_eq ?%bool_decide_eq_true]%andb_true_iff]; auto.
  - injection Hb as <- <-. apply good_rule; [done|]. congruence.
Qed.

Lemma good_delete_rule o rd p t : tables_inv t -> good_step t (DeleteEastWestPolicy o rd p t).1.
Proof.
  intros Hinv. assert ((DeleteEastWestPolicy o rd p t).1 = t \/ (exists old, eastwest_policies t !! key_of p = Some old /\ e_Generation old <= e_Generation p /\
      (DeleteEastWestPolicy o rd p t).1 = with_rules (delete (key_of p)) t)) as [E|(old & Hold & Hge & E)].
  { unfold DeleteEastWestPolicy. rewrite bind_tables by done. destruct (statement_cases o "delete eastwest policy: %w" (delete_rule p) t) as [E|(a & Ha)]; [by left|].
    generalize dependent ((statement o "delete eastwest policy: %w" (delete_rule p) t).1). intros t1 Ha. unfold delete_rule in Ha.
    destruct (eastwest_policies t !! key_of p) as [old|] eqn:Hold; [|left; by injection Ha]. destruct (Z.leb_spec (e_Generation old) (e_Generation p)); [|left; by injection Ha].
    right. exists old. split; [done|]. split; [done|]. by injection Ha. }
  { rewrite E. by apply good_refl. }
  destruct (proj1 (inv_split t) Hinv) as (Hi & Hd & Hp). split; [rewrite E; by apply inv_split|].
  split_and!; rewrite ?E; [done|by left|cbn; unchanged..|]. intros k q Hq. rewrite <- E. destruct (decide (k = key_of p)) as [->|Hne].
  - right. exists o, rd, p. simplify_eq. done.
  - left. exists q. rewrite E. cbn. rewrite lookup_delete_ne by done. split; [done|by left].
Qed.

Lemma good_advance o n g h t : tables_inv t -> good_step t (AdvanceFabricVersion o n g h t).1.
Proof.
  intros Hinv. unfold AdvanceFabricVersion. rewrite bind_tables by (by intros []).
  apply good_statement; [done|]. intros t1 b Hb.
  unfold advance_version in Hb. apply (f_equal fst) in Hb. cbn in Hb. subst t1.
  destruct (fabric_versions t !! n) as [old|] eqn:Hn.
  - destruct (_ <? _) eqn:Hlt; [|by apply good_refl]. apply good_version; [done|]. intros v Hv. apply Z.ltb_lt in Hlt. by simplify_eq.
  - apply good_version; [done|]. congruence.
Qed.

Lemma stmt_good t t' : tables_inv t -> stmt t t' -> good_step t t'.
Proof.
  intros Hinv Hs. destruct Hs;
    eauto using good_allocate, good_release, good_upsert, good_node, good_delete, good_put_rule, good_delete_rule, good_advance.
  destruct (identity_step o rd td p a s t) as [->|(r & Hr)]; [by apply good_refl|]. by eapply good_identities.
Qed.


(** ** Addresses are routed to their nodes *)

Section routes.
Context {json : Type} (cellPrefix : string).
Implicit Types (t s : Tables) (B : Type).

(** What a call does; the reads of machines and operations are answered in any way. *)
Definition act B (c : eff json B) t t' (b : B) : Prop :=
  match c in eff _ B return B -> Prop with
  | Peers => fun b => t' = t /\ (b = Ok (ListWGPeers t) \/ exists e, b = Err e)
  | EnsureIdentity td p a s => fun b => exists o rd, EnsureWorkloadIdentity o rd td p a s t = (t', b)
  | Allocate c n p nd m x g => fun b => exists o, AllocateULA o c n p nd m x g t = (t', b)
  | ActiveULAs => fun b => t' = t /\ (b = Ok (ListActiveULAs "" "" t) \/ exists e, b = Err e)
  | Release m x => fun b => exists o, ReleaseULA o m x t = (t', b)
  | _ => fun _ => t' = t
  end b.

(** What the others do: the reconciler registers nodes and advances their marks, deletes
    release addresses, rules come and go. Retiring a node by hand is not among it. *)
Inductive others t : Tables -> Prop :=
  | others_node o missed c n k e : others t (EnsureNodeFabric o missed c n k e t).1
  | others_version o n g h : others t (AdvanceFabricVersion o n g h t).1
  | others_release o m x : others t (ReleaseULA o m x t).1
  | others_rule o p : others t (PutEastWestPolicy o p t).1
  | others_unrule o rd p : others t (DeleteEastWestPolicy o rd p t).1.

(** The workers: creates on the node of their label, and sweeps. *)
Definition starts (nodeID : string) (p : Programs.prog (eff json) (res unit)) : Prop :=
  (exists op req, p = ensureFabricAllocation cellPrefix nodeID op req) \/ p = sweepFabricULA.
Definition no_event B (c : eff json B) (b : B) : list unit := [].
Definition fabric_step := pool_step no_event starts act others.

(** A worker allocates in the network of a peer it has read. *)
Definition reads B (c : eff json B) (b : B) (g : list WGPeer) : list WGPeer :=
  match c in eff _ B return B -> list WGPeer with Peers => fun b => match b with Ok l => l | Err _ => g end | _ => fun _ => g end b.
Definition allocates_in B (c : eff json B) (g : list WGPeer) : Prop :=
  match c with
  | Allocate _ node _ nodeID _ _ _ => exists p, p ∈ g /\ p_NodeID p = nodeID /\ p_NodePrefix p = node
  | _ => True
  end.
Abbreviation fair := (obeys allocates_in (fun _ _ _ => True) reads (fun _ _ => True)).

Lemma sweep_rows_fair live rows g : fair (sweep_rows live rows : Programs.prog (eff json) (res unit)) g.
Proof.
  induction rows as [|r rows IH]; cbn; [done|]. case_bool_decide; [done|]. cbn. split; [done|]. intros [m|e] _; [|done].
  destruct (execution_gone m _); [cbn; by split|done].
Qed.

Lemma starts_fair l p g : starts l p -> fair p g.
Proof.
  intros [(op & req & ->)| ->].
  - cbn. split; [done|]. intros [peers|e] _; [|done]. cbn [reads]. destruct (List.find _ _) as [p|] eqn:Hf; [|done].
    destruct (ValidatePrefix _ _) as [cell|]; [|done].
    eapply (obeys_pbind _ _ _ (fun _ g => g = peers)).
    + destruct (String.eqb _ _); [done|]. cbn. by split.
    + intros [svc|e] g' ->; [|done]. cbn. split; [done|]. intros [w|e] _; [|done]. cbn. split; [|done].
      apply List.find_some in Hf as [Hin He%String.eqb_eq]. exists p. split; [by apply list_elem_of_In|done].
  - cbn. split; [done|]. intros [[|r rows]|e] _; [done| |done]. cbn -[sweep_rows]. split; [done|]. intros [ops|e] _; [|done]. apply sweep_rows_fair.
Qed.

(** Networks stay with their nodes. *)
Definition routes_kept t t' : Prop :=
  forall n p, wg_peers t !! n = Some p -> exists p', wg_peers t' !! n = Some p' /\ p_NodePrefix p' = p_NodePrefix p.
Definition known t (p : WGPeer) : Prop := exists q, wg_peers t !! p_NodeID p = Some q /\ p_NodePrefix q = p_NodePrefix p.
Definition routed_to t (a : ULAAllocation) : Prop :=
  exists p, wg_peers t !! a_NodeID a = Some p /\ Contains (p_NodePrefix p) (a_ULA a) = true /\ a_ULA a <> PAddr (p_NodePrefix p).
Definition routed t : Prop :=
  (forall n p, wg_peers t !! n = Some p -> canonical 64 (p_NodePrefix p)) /\ (forall a, a ∈ active t -> routed_to t a).

Lemma routes_same t t' : wg_peers t' = wg_peers t -> routes_kept t t'.
Proof. intros E n p. rewrite E. eauto. Qed.

Lemma routed_kept t t' :
  routed t -> routes_kept t t' -> (forall n p, wg_peers t' !! n = Some p -> canonical 64 (p_NodePrefix p)) ->
  (forall a, a ∈ active t' -> a ∈ active t \/ routed_to t' a) -> routed t'.
Proof.
  intros [_ Hr] Hk Hc Ha. split; [done|]. intros a Hin. destruct (Ha a Hin) as [Hold|?]; [|done].
  destruct (Hr a Hold) as (p & Hp & Hin' & Hne). destruct (Hk _ _ Hp) as (p' & Hp' & E). exists p'. by rewrite E.
Qed.

(** A step that keeps the peers and adds no address. *)
Lemma routed_same t t' : routed t -> wg_peers t' = wg_peers t -> (forall a, a ∈ active t' -> a ∈ active t) -> routed t' /\ routes_kept t t'.
Proof.
  intros Hr E Ha. split; [|by apply routes_same]. eapply routed_kept; [done|by apply routes_same| |auto].
  intros n p. rewrite E. apply Hr.
Qed.

Lemma routed_statement {A} o format (f : Tables -> Tables * res A) t :
  routed t -> (forall t' a, f t = (t', Ok a) -> wg_peers t' = wg_peers t /\ ipam t' = ipam t) ->
  routed (statement o format f t).1 /\ routes_kept t (statement o format f t).1.
Proof.
  intros Hr Hf. destruct (statement_cases o format f t) as [E|(a & E)].
  - generalize dependent ((statement o format f t).1). intros t' ->. by apply routed_same.
  - destruct (Hf _ _ E) as [Hp Hi]. apply routed_same; [done..|]. unfold active. by rewrite Hi.
Qed.

Lemma routed_release o m x t : routed t -> routed (ReleaseULA o m x t).1 /\ routes_kept t (ReleaseULA o m x t).1.
Proof.
  intros Hr. unfold ReleaseULA. match goal with |- context [cmd_exec o ?w ?f t] => destruct (exec_cases o w f t) as [->| ->] end.
  - by apply routed_same.
  - apply routed_same; [done..|]. intros a. rewrite active_released. intros Ha. apply list_elem_of_In, filter_In in Ha as [Ha _]. by apply list_elem_of_In.
Qed.

Lemma routed_others t t' : tables_inv t -> others t t' -> routed t -> routed t' /\ routes_kept t t'.
Proof.
  intros Hinv Ho Hr. destruct Ho as [o missed c n k e|o n g h|o m x|o p|o rd p].
  - destruct (node_cases o missed c n k e t) as [->|[(p & gen & Hn & _ & ->)|(q & Hn & Hq & Hf & ->)]]; [by apply routed_same|..].
    + assert (Hk : routes_kept t (with_peers <[n := mkWGPeer n k e (p_NodePrefix p) gen]> t)).
      { intros n' p' Hp'. cbn. destruct (decide (n' = n)) as [->|]; [|rewrite lookup_insert_ne by done; eauto].
        rewrite lookup_insert_eq. simplify_eq. eauto. }
      split; [|done]. eapply routed_kept; [done|done| |by left]. cbn. intros n' p' [[<- <-]|[_ H]]%lookup_insert_Some; cbn; by eapply Hr.
    + assert (Hk : routes_kept t (with_peers <[n := mkWGPeer n k e q 1]> t)).
      { intros n' p' Hp'. cbn. rewrite lookup_insert_ne by congruence. eauto. }
      split; [|done]. eapply routed_kept; [done|done| |by left]. cbn. intros n' p' [[<- <-]|[_ H]]%lookup_insert_Some; cbn; [done|by eapply Hr].
  - unfold AdvanceFabricVersion. rewrite bind_tables by (by intros []). apply routed_statement; [done|].
    unfold advance_version. intros t' b. destruct (fabric_versions t !! n) as [old|]; [destruct (_ <? _)|]; by intros [= <- <-].
  - by apply routed_release.
  - unfold PutEastWestPolicy. rewrite bind_tables by (by intros []). apply routed_statement; [done|].
    unfold put_rule. intros t' b. destruct (eastwest_policies t !! _) as [old|]; [destruct (_ || _)|]; by intros [= <- <-].
  - unfold DeleteEastWestPolicy. rewrite bind_tables by done. apply routed_statement; [done|].
    unfold delete_rule. intros t' b. destruct (eastwest_policies t !! _) as [old|]; [destruct (_ <=? _)|]; by intros [= <- <-].
Qed.

Lemma known_kept t t' g : routes_kept t t' -> Forall (known t) g -> Forall (known t') g.
Proof.
  intros Hk Hg. eapply Forall_impl; [exact Hg|]. intros p (q & Hq & E). destruct (Hk _ _ Hq) as (q' & Hq' & E'). exists q'. by rewrite E'.
Qed.

Lemma peers_known t : tables_inv t -> Forall (known t) (ListWGPeers t).
Proof.
  intros Hinv. apply Forall_forall. intros p. unfold ListWGPeers. rewrite elem_of_sort_by.
  intros ([n q] & -> & Hin%elem_of_map_to_list)%list_elem_of_fmap. cbn. exists q. by rewrite (ti_peer _ Hinv _ _ Hin).
Qed.

Definition pool_inv t (gs : list (list WGPeer)) (_ : list (string * unit)) : Prop :=
  tables_inv t /\ routed t /\ Forall (Forall (known t)) gs.

(** Every call keeps it. *)
Lemma routed_call B (c : eff json B) t t' b g :
  act B c t t' b -> allocates_in B c g -> tables_inv t -> routed t -> Forall (known t) g ->
  tables_inv t' /\ routed t' /\ routes_kept t t' /\ Forall (known t') (reads B c b g).
Proof.
  intros Ha Hp Hinv Hr Hg.
  assert (Hsame : forall g', Forall (known t) g' -> tables_inv t /\ routed t /\ routes_kept t t /\ Forall (known t) g')
    by (intros; split_and!; [done..|by apply routes_same|done]).
  assert (Hstep : forall t1, stmt t t1 -> routed t1 /\ routes_kept t t1 ->
            tables_inv t1 /\ routed t1 /\ routes_kept t t1 /\ Forall (known t1) g).
  { intros t1 Hs [Hr1 Hk]. split_and!; [by apply (stmt_good t)|done|done|by eapply known_kept]. }
  destruct c; cbn [act allocates_in reads] in *.
  - destruct Ha as [-> [->|[e ->]]]; apply Hsame; [by apply peers_known|done].
  - subst t'. by apply Hsame.
  - destruct Ha as (o & rd & E). assert (t' = (EnsureWorkloadIdentity o rd trustDomain projectID appID service t).1) as -> by by rewrite E.
    apply Hstep; [constructor|]. clear E. destruct (identity_step o rd trustDomain projectID appID service t) as [->|(r & Hi)]; [by apply routed_same|].
    apply inv_split in Hinv as (_ & Hd & _). destruct (insert_identity_spec _ _ _ _ _ Hd Hi) as (_ & Ki & Kp & _).
    apply routed_same; [done|done|]. unfold active. by rewrite Ki.
  - destruct Ha as (o & E). assert (t' = (AllocateULA o cell node projectID nodeID machineID executionID generation t).1) as -> by by rewrite E.
    apply Hstep; [constructor|]. clear E. destruct (allocate_cases o cell node projectID nodeID machineID executionID generation t) as [->|(i & _ & Hn & _ & Hi & -> & Hu & Hh)];
      [by apply routed_same|]. set (a := mkAllocation _ _ _ _ _ _ _) in *.
    destruct Hp as (p & Hin & <- & <-). rewrite Forall_forall in Hg. destruct (Hg p Hin) as (q & Hq & E).
    split; [|by apply routes_same]. eapply routed_kept; [done|by apply routes_same|by apply Hr|].
    intros x. rewrite active_app. intros [Hx|Hx]%elem_of_app; [by left|]. apply list_elem_of_singleton in Hx as ->. right.
    exists q. cbn. unfold address. rewrite E. split_and!; [done|apply nextAddr_in_node; [done|unfold maxAttempts in *; lia]|].
    destruct (canonical_value _ _ Hn ltac:(lia)) as (v & -> & Hv & _). cbn [PAddr].
    rewrite nextAddr_value by (lia || (unfold maxAttempts in *; lia)). intros [= He]. lia.
  - destruct Ha as [-> _]. by apply Hsame.
  - subst t'. by apply Hsame.
  - subst t'. by apply Hsame.
  - destruct Ha as (o & E). assert (t' = (ReleaseULA o machineID executionID t).1) as -> by by rewrite E.
    apply Hstep; [constructor|]. by apply routed_release.
Qed.

Lemma others_stmt t t' : others t t' -> stmt t t'.
Proof. intros []; constructor. Qed.

Lemma pool_routed t q :
  tables_inv t -> routed t -> rtc fabric_step (mkPool t [] []) q -> tables_inv (tables q) /\ routed (tables q).
Proof.
  intros Hinv Hr Hs.
  destruct (pool_invariant no_event starts act others pool_inv (fun lp g => fair lp.2 g) (mkPool t [] []) q) as (gs & _ & Hq).
  - intros l p s gs h Hl (Hi & Hr1 & Hg). exists []. split; [by eapply starts_fair|]. split_and!; [done..|]. by constructor.
  - intros l B c k s s' b gs g gs' h Ha [Hp Hk] (Hi & Hr1 & Hg).
    apply Forall_app in Hg as [Hg1 Hg2]. apply Forall_cons in Hg2 as [Hg Hg2].
    destruct (routed_call B c s s' b g Ha Hp Hi Hr1 Hg) as (Hi' & Hr' & Hkeep & Hg').
    exists (reads B c b g). split; [by apply Hk|]. split_and!; [done..|].
    assert (Hall : forall l, Forall (Forall (known s)) l -> Forall (Forall (known s')) l)
      by (intros l0 Hl0; eapply Forall_impl; [exact Hl0|]; intros; by eapply known_kept).
    apply Forall_app. split; [by apply Hall|]. constructor; [done|by apply Hall].
  - intros s gs g gs' h (Hi & Hr1 & Hg). split_and!; [done..|]. apply Forall_app in Hg as [Hg1 Hg2]. apply Forall_cons in Hg2 as [_ Hg2].
    by apply Forall_app.
  - intros s s' gs h Ho (Hi & Hr1 & Hg). destruct (routed_others s s' Hi Ho Hr1) as [Hr' Hk].
    split_and!; [by apply (stmt_good s), others_stmt|done|]. eapply Forall_impl; [exact Hg|]. intros; by eapply known_kept.
  - exact Hs.
  - exists []. split; [constructor|]. split_and!; [done..|constructor].
  - destruct Hq as (Hi & Hr1 & _). done.
Qed.

(** C20. However creates, sweeps and the reconciler interleave, read stale peers, fail or die:
    an address in use lies in the network of its node and is not the address of the node
    itself, and no other node has it in its network - so that the peers' routes, which
    are these networks, lead to the node of the execution and nowhere else. *)
Theorem addresses_routed t q a :
  tables_inv t -> routed t -> rtc fabric_step (mkPool t [] []) q -> a ∈ active (tables q) ->
  exists p, wg_peers (tables q) !! a_NodeID a = Some p /\ Contains (p_NodePrefix p) (a_ULA a) = true /\ a_ULA a <> PAddr (p_NodePrefix p) /\
    forall n p', wg_peers (tables q) !! n = Some p' -> Contains (p_NodePrefix p') (a_ULA a) = true -> n = a_NodeID a.
Proof.
  intros Hinv Hr Hs Ha. destruct (pool_routed t q Hinv Hr Hs) as [Hi [Hc Hrt]].
  destruct (Hrt a Ha) as (p & Hp & Hin & Hne). exists p. split_and!; [done..|]. intros n p' Hp' Hin'.
  apply (ti_prefix _ Hi n (a_NodeID a) p' p); [done..|].
  destruct (canonical_value _ _ (Hc _ _ Hp) ltac:(lia)) as (v & E & Hv & Hm).
  destruct (canonical_value _ _ (Hc _ _ Hp') ltac:(lia)) as (v' & E' & Hv' & Hm').
  rewrite E in Hin |- *. rewrite E' in Hin' |- *. destruct (a_ULA a) as [|w|w z]; [done..|].
  assert (z = "") as ->.
  { destruct (String.eqb_spec z "") as [Hz|Hz]; [done|]. apply String.eqb_neq in Hz. unfold Contains in Hin. cbn in Hin. by rewrite Hz in Hin. }
  rewrite Contains_value in Hin, Hin' by lia. apply Z.eqb_eq in Hin, Hin'. change (128 - 64) with 64 in *.
  do 2 f_equal. pose proof (Z.div_mod v (2 ^ 64) ltac:(lia)). pose proof (Z.div_mod v' (2 ^ 64) ltac:(lia)). lia.
Qed.
End routes.

(** ** The sweep *)

Section sweep.
Context {json : Type}.

Inductive ev :=
  | EvActive (rows : res (list ULAAllocation))
  | EvInFlight (ops : res (list (Operations.Operation (json := json))))
  | EvMachine (id : string) (m : res (option (Operations.Machine (json := json))))
  | EvReleased (machineID executionID : string).
Definition event B (c : eff json B) (b : B) : list ev :=
  match c in eff _ B return B -> list ev with
  | ActiveULAs => fun b => [EvActive b]
  | InFlight => fun b => [EvInFlight b]
  | GetMachine id => fun b => [EvMachine id b]
  | Release m x => fun _ => [EvReleased m x]
  | _ => fun _ => []
  end b.
Abbreviation runs := (Programs.runs event).

(** What says that an execution is gone: no machine, one that is deleted, or one that
    runs another execution. *)
Definition gone (m : option (Operations.Machine (json := json))) (executionID : string) : Prop :=
  forall r, m = Some r -> Operations.DesiredState r = "DELETED" \/
    (Operations.DesiredState r = "CREATED" /\ Operations.CurrentExecutionID r <> executionID).

Lemma execution_gone_spec m x : execution_gone m x = true -> gone m x.
Proof.
  intros H r ->. cbn in H. destruct (String.eqb_spec (Operations.DesiredState r) "DELETED"); [by left|].
  destruct (String.eqb_spec (Operations.CurrentExecutionID r) x) as [|Hne]; [done|]. right. split; [by apply String.eqb_eq in H|done].
Qed.

Lemma sweep_rows_runs live rows t r m x :
  runs (sweep_rows live rows) t r -> EvReleased m x ∈ t ->
  (exists a, a ∈ rows /\ binding a = (m, x)) /\ ~ (m, x) ∈ live /\ exists got, EvMachine m (Ok got) ∈ t /\ gone got x.
Proof.
  revert t. induction rows as [|a rows IH]; intros t; cbn [sweep_rows]; [intros [-> ->] H; by apply not_elem_of_nil in H|].
  case_bool_decide as Hl.
  - intros Hr Hin. destruct (IH _ Hr Hin) as ((b & Hb & E) & H2 & H3). split; [exists b; split; [by right|done]|done].
  - cbn. intros (got & t1 & -> & Hr) Hin. cbn in Hin. apply elem_of_cons in Hin as [?|Hin]; [done|].
    destruct got as [mm|e]; [|destruct Hr as [-> _]; by apply not_elem_of_nil in Hin].
    assert (Hlater : forall t2, runs (sweep_rows live rows) t2 r -> EvReleased m x ∈ t2 ->
      (exists a0, a0 ∈ (a :: rows) /\ binding a0 = (m, x)) /\ ~ (m, x) ∈ live /\
      exists got, EvMachine m (Ok got) ∈ t2 /\ gone got x).
    { intros t2 Hr2 Hin2. destruct (IH _ Hr2 Hin2) as ((b & Hb & E) & H2 & H3). split; [exists b; split; [by right|done]|done]. }
    destruct (execution_gone mm _) eqn:Hg.
    + destruct Hr as (u & t2 & -> & Hr). cbn in Hin. apply elem_of_cons in Hin as [[= -> ->]|Hin].
      * split; [exists a; split; [by left|done]|]. split; [done|]. exists mm. split; [by left|by apply execution_gone_spec].
      * destruct (Hlater _ Hr Hin) as (H1 & H2 & got & H3 & H4). split_and!; [done..|]. exists got. split; [by do 2 right|done].
    + destruct (Hlater _ Hr Hin) as (H1 & H2 & got & H3 & H4). split_and!; [done..|]. exists got. split; [by right|done].
Qed.

(** The sweep takes an address back only from an execution that is gone: it was in use,
    no operation in flight was for the execution, and the machine, read after that, was
    not there, deleted, or wanted with another execution. *)
Theorem sweep_spares_live t r m x :
  runs sweepFabricULA t r -> EvReleased m x ∈ t ->
  exists rows ops got, EvActive (Ok rows) ∈ t /\ EvInFlight (Ok ops) ∈ t /\ EvMachine m (Ok got) ∈ t /\
    (exists a, a ∈ rows /\ binding a = (m, x)) /\ gone got x /\
    forall op, op ∈ ops -> Operations.o_MachineID op = m -> Operations.o_ExecutionID op = x -> m = "" \/ x = "".
Proof.
  unfold sweepFabricULA. cbn. intros (rows & t1 & -> & Hr) Hin. apply elem_of_cons in Hin as [?|Hin]; [done|].
  destruct rows as [[|a rows]|e]; [destruct Hr as [-> _]; by apply not_elem_of_nil in Hin| |destruct Hr as [-> _]; by apply not_elem_of_nil in Hin].
  destruct Hr as (ops & t2 & -> & Hr). cbn in Hin. apply elem_of_cons in Hin as [?|Hin]; [done|].
  destruct ops as [ops|e]; [|destruct Hr as [-> _]; by apply not_elem_of_nil in Hin].
  destruct (sweep_rows_runs _ _ _ _ _ _ Hr Hin) as (Ha & Hl & got & Hg & Hgone). exists (a :: rows), ops, got.
  split_and!; [by left|by right; left|by do 2 right|done|done|].
  intros op Hop Hm Hx. destruct (String.eqb_spec m "") as [|Hm0]; [by left|]. destruct (String.eqb_spec x "") as [|Hx0]; [by right|].
  exfalso. apply Hl. apply list_elem_of_omap. exists op. split; [done|]. rewrite Hm, Hx.
  apply String.eqb_neq in Hm0 as ->, Hx0 as ->. done.
Qed.
End sweep.

(** ** Concrete tables *)

Module Witness.
Abbreviation doc := string.

Definition cell : Prefix := mkPrefix (Addr6 (253 * 2 ^ 120) "") 40.
Definition net (i : Z) : Prefix := mkPrefix (Addr6 (253 * 2 ^ 120 + i * 2 ^ 64) "") 64.
Definition host (n i : Z) : Addr := Addr6 (253 * 2 ^ 120 + n * 2 ^ 64 + i) "".

(** Two nodes get the first two networks, one again. *)
Definition registered : Tables :=
  let t := (EnsureNodeFabric Done false cell "n1" "k1" "10.0.0.1:51820" empty_tables).1 in
  let t := (EnsureNodeFabric Done false cell "n2" "k2" "10.0.0.2:51820" t).1 in
  (EnsureNodeFabric Done true cell "n1" "k1" "10.0.0.1:51820" t).1.

Example networks :
  (fun n => p_NodePrefix <$> wg_peers registered !! n) <$> ["n1"; "n2"; "n3"] = [Some (net 1); Some (net 2); None].
Proof. vm_compute. reflexivity. Qed.

(** A rotated key is a new generation in the same network. *)
Example rotation :
  (EnsureNodeFabric Done false cell "n1" "k9" "10.0.0.1:51820" registered).2 = Ok (net 1, 2).
Proof. vm_compute. reflexivity. Qed.

Lemma empty_tables_inv : tables_inv empty_tables.
Proof. by apply inv_split; split_and!; repeat split; try (intros; done); apply NoDup_nil_2. Qed.

Lemma empty_routed : routed empty_tables.
Proof. split; [by intros n p Hp|intros a Ha; by apply not_elem_of_nil in Ha]. Qed.

Definition op (m x : string) : Operations.Operation (json := doc) :=
  Operations.mkOp "op" "p1" m x 1 "create" "" 0 Operations.CLAIMED "" None "" 0 None None 0.
Definition req : CreateSpec := mkCreateSpec "" "app" "".

(** A store that answers everything. *)
Definition perform (_ : nat) B (c : eff doc B) (t : Tables) : Tables * B :=
  match c in eff _ B return Tables * B with
  | Peers => (t, Ok (ListWGPeers t))
  | GetDeployment _ => (t, Ok None)
  | EnsureIdentity td p a s => EnsureWorkloadIdentity Done None td p a s t
  | Allocate c n p nd m x g => AllocateULA Done c n p nd m x g t
  | ActiveULAs => (t, Ok (ListActiveULAs "" "" t))
  | InFlight => (t, Ok [])
  | GetMachine _ => (t, Ok None)
  | Release m x => ReleaseULA Done m x t
  end.

Lemma perform_act j B (c : eff doc B) t : act B c t (perform j B c t).1 (perform j B c t).2.
Proof.
  destruct c; cbn -[EnsureWorkloadIdentity AllocateULA ReleaseULA]; try (split; [done|by left]); try done;
    [exists Done, None|exists Done|exists Done]; apply surjective_pairing.
Qed.

Definition create (nodeID m x : string) : Programs.prog (eff doc) (res unit) := ensureFabricAllocation "fd00::/40" nodeID (op m x) req.
Definition after (l : list (string * string * string)) (t : Tables) : Tables :=
  fold_left (fun t c => (run no_event perform (create c.1.1 c.1.2 c.2) 0 t).1.1) l t.
Definition allocated : Tables := after [("n1", "m1", "x1"); ("n2", "m2", "x2"); ("n1", "m3", "x3"); ("n1", "m1", "x1")] registered.

Example addresses : map (fun a => (binding a, a_ULA a)) (active allocated) =
  [(("m1", "x1"), host 1 1); (("m2", "x2"), host 2 1); (("m3", "x3"), host 1 2)].
Proof. vm_compute. reflexivity. Qed.

(** An execution that has an address on one node is refused another, unless the retry
    finds no free candidate at all. *)
Example pinned : (AllocateULA Done cell (net 2) "p1" "n2" "m1" "x1" 1 allocated).2 = Err (ErrFabricNodePinned "n1" (host 1 1)).
Proof. vm_compute. reflexivity. Qed.

Lemma registered_inv : tables_inv registered /\ routed registered.
Proof.
  unfold registered.
  assert (H : forall o missed n k e t, tables_inv t /\ routed t ->
     tables_inv (EnsureNodeFabric o missed cell n k e t).1 /\ routed (EnsureNodeFabric o missed cell n k e t).1).
  { intros o missed n k e t [Hi Hr]. split; [apply (stmt_good t); [done|constructor]|].
    apply (routed_others t); [done|constructor|done]. }
  apply H, H, H. split; [apply empty_tables_inv|apply empty_routed].
Qed.

Lemma allocation_exact_witness :
  AllocateULA Done cell (net 1) "p1" "n1" "m4" "x4" 1 allocated =
    (with_ipam (fun l => l ++ [mkAllocRow (mkAllocation (host 1 3) cell "p1" "n1" "m4" "x4" 1) false])%list allocated, Ok (host 1 3)).
Proof.
  destruct (allocation_exact cell (net 1) "p1" "n1" "m4" "x4" 1 ltac:(vm_compute; reflexivity) ltac:(vm_compute; reflexivity)
    ltac:(vm_compute; reflexivity) Done allocated) as [_ H].
  rewrite (H 3); [vm_compute; reflexivity|unfold maxAttempts; lia|vm_compute; reflexivity|].
  intros j Hj. assert (j = 1 \/ j = 2) as [-> | ->] by lia; vm_compute; reflexivity.
Defined.


(** What was deleted is forgotten, its mark with it: an older request then writes the rule. *)
Definition rule_at (generation : Z) : EastWestPolicy := mkEastWestPolicy "p" "a" "q" "b" "web" [443] generation.
Example deleted_rule_forgets :
  (PutEastWestPolicy Done (rule_at 4) (PutEastWestPolicy Done (rule_at 5) registered).1).2 <> Ok tt /\
  (PutEastWestPolicy Done (rule_at 4) (DeleteEastWestPolicy Done None (rule_at 5) (PutEastWestPolicy Done (rule_at 5) registered).1).1).2 = Ok tt.
Proof. split; [|by vm_compute]. intros H. vm_compute in H. discriminate H. Qed.

Lemma allocated_reached : exists q, rtc (fabric_step (json := doc) "fd00::/40") (mkPool registered [] []) q /\ tables q = allocated.
Proof.
  assert (Hrun : forall l ws h t, exists ws' h',
    rtc (fabric_step (json := doc) "fd00::/40") (mkPool t ws h) (mkPool (after l t) ws' h')).
  { intros l. induction l as [|[[n m] x] l IH]; intros ws h t; [by exists ws, h|].
    cbn [after fold_left fst snd].
    pose proof (pool_alone no_event (starts (json := doc) "fd00::/40") act others n perform (create n m x) 0 t ws h perform_act) as Hp.
    destruct (run no_event perform (create n m x) 0 t) as [[t' a] tr] eqn:Er. cbn [fst].
    destruct (IH ((n, Ret a) :: ws) (h ++ map (pair n) tr)%list t') as (ws' & h' & Hrest). exists ws', h'.
    eapply rtc_l; [apply (pool_start _ _ _ _ n (create n m x)); left; exists (op m x), req; reflexivity|]. exact (transitivity Hp Hrest). }
  destruct (Hrun [("n1", "m1", "x1"); ("n2", "m2", "x2"); ("n1", "m3", "x3"); ("n1", "m1", "x1")] [] [] registered) as (ws & h & H).
  eexists. split; [exact H|reflexivity].
Qed.

Lemma addresses_routed_witness :
  exists p, wg_peers allocated !! "n1" = Some p /\ Contains (p_NodePrefix p) (host 1 2) = true /\ host 1 2 <> PAddr (p_NodePrefix p).
Proof.
  destruct allocated_reached as (q & Hs & Hq). destruct registered_inv as [Hi Hr].
  destruct (addresses_routed (json := doc) "fd00::/40" registered q (mkAllocation (host 1 2) cell "p1" "n1" "m3" "x3" 1) Hi Hr Hs) as (p & Hp & Hin & Hne & _).
  - rewrite Hq. vm_compute. by right; right; left.
  - exists p. rewrite Hq in Hp. exact (conj Hp (conj Hin Hne)).
Defined.

Definition swept : list (ev (json := doc)) := (run event perform sweepFabricULA 0 allocated).2.
Lemma sweep_spares_live_witness :
  exists rows ops got, EvActive (Ok rows) ∈ swept /\ EvInFlight (Ok ops) ∈ swept /\ EvMachine "m2" (Ok got) ∈ swept.
Proof.
  pose proof (run_runs event perform sweepFabricULA 0 allocated) as Hr.
  destruct (run event perform sweepFabricULA 0 allocated) as [[t' r] tr] eqn:E.
  assert (swept = tr) as -> by (unfold swept; by rewrite E).
  assert (Hin : EvReleased "m2" "x2" ∈ tr).
  { apply (f_equal snd) in E. cbn [snd] in E. rewrite <- E. apply list_elem_of_In. vm_compute. tauto. }
  clear E. destruct (sweep_spares_live tr r "m2" "x2" Hr Hin) as (rows & ops & got & H1 & H2 & H3 & _).
  exact (ex_intro _ rows (ex_intro _ ops (ex_intro _ got (conj H1 (conj H2 H3))))).
Defined.
End Witness.
